(* ===== verification/_CoqProject ===== *)
-Q . S2P
Prelude.v
CString.v
StrBuf.v
FnMatch.v
Vars.v
Arith.v
ArithCorrect.v
Lex.v
LexSource.v
LexTotal.v
LexPrint.v
LexDoc.v
Parse.v
ParseTokens.v
ParseTotal.v
ParsePrint.v
VashTheorems.v
Malloc.v
Printf.v
Expand.v
ExpandSplit.v
ExpandBrace.v
ExpandTheorems.v
Regex.v
X509.v
Wav.v
BigNum.v
Sha256.v
Aes.v
Gcm.v
Ghash.v
Record.v
Pipe.v
Pmm.v
Term.v
Fat16.v
FatChain.v
FatFile.v
FatDir.v
FatName.v
FatDirSpec.v
FatWrite.v
FatCreate.v
FatUnlink.v
FatFormat.v
FatTruncate.v
FatRefine.v
FatTheorems.v
Tcp.v
TcpSegment.v
TcpStream.v
TcpSystem.v
TcpHandshake.v
TcpRing.v
TcpQueue.v
TcpAccept.v
TcpFaults.v
TcpTheorems.v
