(* ===== verification/Prelude.v ===== *)
(** * VNU: a verification library

    VNU is a small operating system: a C++ kernel ([src/vnu/kernel]), a C library
    ([src/vlibc]) and userspace programs ([src/vnu/userspace]), of which the shell
    vash is the largest that is not a port.  This library models the parts that
    carry their own logic as executable functions and proves what makes them
    correct.  Paths below are under [src/].

    ** Parts, and the files that model them

    The kernel.
    - [Pipe]: [vnu/kernel/fs/pipe.cpp].  State: eight ring buffers and one
      descriptor table per process; one function per kernel entry point.  In every
      reachable state the reader and writer counts are the numbers of descriptors
      that refer to the pipe, and reads and writes are those of a bounded queue.
    - [Pmm]: [vnu/kernel/mm/pmm.cpp].  State: the frame bitmap, the bounds of the
      pool, physical memory.  Allocation is first-fit, hands out zeroed free frames
      only, refuses exactly when there is no run; release undoes it.
    - [Term]: [vnu/kernel/include/vnu/ansiterm.h], the scrolling of
      [vnu/kernel/console/tty.cpp], and the sequence builders of
      [vlibc/include/vlibc/term.h] that programs drive it with.  The terminal's
      theorems are proved for any console that meets the class [Scrolls], and the
      VGA console does.
    - [Fat16] and [FatDir]: [vnu/kernel/fs/fat16.cpp].  State: the mounted volume
      ([Fs], with the device and the scratch sector); every function is one of a
      state and error monad.  [FatChain], [FatFile], [FatName] and [FatDirSpec] are
      the lemmas on FAT chains, ranges of bytes, names and directories; [FatWrite],
      [FatCreate], [FatUnlink], [FatTruncate] and [FatFormat] those on the
      operations; [FatRefine] shows that a directory is a finite map from names to
      bytes; [FatTheorems] states the results and tries them on a volume in memory.
    - [Tcp]: [vnu/kernel/net/tcp.cpp] and, of the driver
      [vnu/kernel/arch/i386/drivers/e1000.cpp], ARP and the dispatch of received
      frames.  State: the socket table, the transmit buffer, the ARP cache, the
      frames handed to the card.  A call that blocks is split into what it does
      before it waits and one turn of its loop.  [TcpSegment] is about frames and
      checksums, [TcpStream] about one end of a connection, [TcpSystem] about two
      hosts and a network that loses, repeats and reorders, [TcpHandshake] about
      [connect] and a listening socket; [TcpRing], [TcpQueue] and [TcpAccept] about
      the accept queue over every sequence of calls and frames; [TcpFaults] has
      inputs the code does not handle; [TcpTheorems] states the results.
    - [Malloc] includes the [brk] system call ([brk_set] of
      [vnu/kernel/proc/process.cpp]).

    The C library.
    - [CString], [Printf], [Malloc]: strings and conversions, formatted output, the
      heap.  The heap's theorems are over every sequence of calls.
    - [BigNum], [Sha256], [Aes], [Gcm], [Ghash], [X509]: the cryptography of the
      TLS library ([vlibc/src/tls/tls_bn.c], [tls_crypto.c], [tls_x509.c]), each
      against its published definition: modular exponentiation, FIPS 180-4, RFC
      2104 and 5246, AES decryption as the inverse of encryption, GHASH as
      multiplication in GF(2^128), DER.
    - [Record]: the record layer and data phase of [vlibc/src/tls/tls.c].  An
      established connection is a byte queue between two ends that share keys, over
      any transport that meets the class [Transport].

    Userspace.
    - [StrBuf], [FnMatch], [Vars], [Arith] with [ArithCorrect]: vash's buffers,
      pattern matcher, variables and arithmetic ([vnu/userspace/vash/strbuf.c],
      [fnmatch.c], [vars.c], [arith.c]).  Patterns are compared with a declarative
      semantics, the variable table with a finite map, the evaluator with the value
      of an expression tree.
    - [Lex]: [vnu/userspace/vash/lex.c], the characters through the line buffer,
      words, operators, tokens with two of look-ahead, here-documents.  Its readers
      are written against the class [CharSource]; the block buffer is one instance,
      a plain text another, and [LexSource] shows that nothing can tell them apart.
      [LexTotal] has the termination of every reader, [LexPrint] a printer of tokens
      and its inverse, [LexDoc] the bodies of here-documents.
    - [Parse]: [vnu/userspace/vash/parse.c], every function, over the class
      [TokSource], with the expansion of a word as a parameter.  The lexer is one
      instance and a list of tokens another; [ParseTokens] shows that the parser does
      the same over both.  [ParseTotal] has its termination, [ParsePrint] a grammar of
      scripts with its tokens and its trees.  [VashTheorems] states the results on
      lexer and parser, and shows scripts that are not read as they are meant.
    - [Expand]: [vnu/userspace/vash/expand.c], every function.  State: the variables of
      [Vars], the parameters and options, the messages, the static buffer of
      [var_lookup_word]; a pointer into these is followed again where the code follows
      it again.  [ExpandSplit] is about quoting, splitting and patterns, [ExpandBrace]
      about the operators of [${...}], [ExpandTheorems] states the results and shows
      words that do not become what they are meant to.
    - [Regex]: [vnu/userspace/libregex/regex.h], against the language of the parsed
      expression.
    - [Wav]: [vnu/userspace/libwav/wav.c].

    How they use one another: [Vars] and [Arith] stand on [StrBuf] and the
    allocator interface of this file, [Arith] reads and writes the variables of
    [Vars]; [Parse] stands on [Lex] through [TokSource], and its theorems are carried
    from lists of tokens to the text of a script; [Expand] stands on [Vars], [Arith],
    [FnMatch] and [Lex], whose round trip gives the words of an operator; [Gcm] stands on [Aes], [Record] on [Gcm], [Ghash] is about [Gcm];
    [Term] uses the numbers of [StrBuf]; the FAT16 theorems are about any device that
    meets the class [Disk].

    ** Conventions

    Functions keep the names of the source.  A stateful function takes and returns
    its state; a fallible one returns an [option] or an [outcome], whose [Trap] is
    a store or read outside an object (or a trap of the processor) and whose
    [NoFuel] exists in the model only.  Integers are [Z] with every conversion and
    wrap-around of the source written out ([u8] to [u64], [s32], [schar]); pointers
    into strings and buffers are lists, and an operation that can leave its buffer
    checks.  Where a loop is not structural it has fuel, and the theorems show that
    the fuel passed is enough: the length of the input where every turn consumes
    some of it, [eval_fuel] for the arithmetic evaluator, the capacity of the node
    pool for the expression parser; more than the length of the text for vash's lexer
    and for its parser, whose second bound, on lists inside lists, is the same number.
    [tls_read] takes its fuel as an argument, for
    a peer may send empty records for ever; one turn is shown to be enough when
    the next record carries data.

    Code that is not in the repository, or that the C code takes as a callback, is
    a parameter: the allocator where it may refuse ([Allocator]), the kernel's
    supply of frames for [brk], the transport callbacks ([Transport]), the address
    of [__bss_end], what the commands and files of a word contribute to its expansion,
    the sector device of FAT16 ([Disk] is one on which every sector
    can be read and written).  Each class has an instance that the examples use.

    ** What the theorems are about

    Refinement: a FAT16 directory and the variables to maps, hashing to its specification, the connection to
    a queue, formatted output to the rendering of its format.  Equivalence with a
    reference: patterns, regular expressions on a fragment, GHASH, VGA scrolling,
    looking a name up in a directory, the lexer over blocks and over plain text, the
    splitting of words.
    Invariants over all reachable states: heap, pipes, terminal, accept queues.  Round
    trips: RSA, AES, certificates, WAV files, numbers, frames, segments, file names,
    tokens, scripts.  Safety and termination of the parsers on arbitrary input.  Of
    TCP: what is delivered is a prefix of what was sent, whatever the network does,
    and a handshake whose segments arrive connects.  Where the code does not do what it means to, the
    theorem states what it does, and the comment says so.

    ** Not modelled

    The vcc compiler and the ported programs, which are developments of their own;
    drivers, paging, interrupts, the scheduler and the GUI, which are hardware
    access and drawing; the virtual file system; of the network, the registers and
    rings of the card, ICMP, UDP and DNS; of vash, execution and the builtins, which are
    system calls for the most part; of TLS, the handshake apart from the opening
    of the Finished record; the generated and vendored code ([stb_truetype.h] and
    the like). *)
From stdpp Require Export base tactics list numbers option strings.
From Stdlib Require Export ZArith Lia.

(** ** Machine integers

    Every VNU userspace program is compiled for i386 ([tools/vcc] passes
    [-m32]), so [int], [long], [size_t] and pointers are 32 bits wide and
    [char] is signed.  Integers are mathematical [Z]; the conversions below
    are written wherever the C code converts or can wrap. *)
Declare Scope vnu_scope.
Delimit Scope vnu_scope with vnu.
Global Open Scope Z_scope.

Definition u8 (x : Z) : Z := x mod 2 ^ 8.
Definition u16 (x : Z) : Z := x mod 2 ^ 16.
Definition u32 (x : Z) : Z := x mod 2 ^ 32.
Definition u64 (x : Z) : Z := x mod 2 ^ 64.
Definition s32 (x : Z) : Z := (x + 2 ^ 31) mod 2 ^ 32 - 2 ^ 31.
(** The value of a byte read through a (signed) [char] lvalue. *)
Definition schar (x : Z) : Z := (x + 2 ^ 7) mod 2 ^ 8 - 2 ^ 7.

Definition is_u8 (x : Z) : Prop := 0 <= x < 2 ^ 8.
Definition is_u32 (x : Z) : Prop := 0 <= x < 2 ^ 32.
Definition is_s32 (x : Z) : Prop := - 2 ^ 31 <= x < 2 ^ 31.

Lemma u8_range x : is_u8 (u8 x).
Proof. apply Z.mod_pos_bound. reflexivity. Qed.

Lemma u32_range x : is_u32 (u32 x).
Proof. apply Z.mod_pos_bound. reflexivity. Qed.

Lemma s32_range x : is_s32 (s32 x).
Proof. unfold is_s32, s32. pose proof (Z.mod_pos_bound (x + 2 ^ 31) (2 ^ 32)). lia. Qed.

Lemma u8_id x : is_u8 x -> u8 x = x.
Proof. apply Z.mod_small. Qed.

Lemma u32_id x : is_u32 x -> u32 x = x.
Proof. apply Z.mod_small. Qed.

Lemma u64_id x : 0 <= x < 2 ^ 64 -> u64 x = x.
Proof. apply Z.mod_small. Qed.

Lemma s32_id x : is_s32 x -> s32 x = x.
Proof. unfold is_s32, s32. intros H. rewrite Z.mod_small; lia. Qed.

(** Two's complement: a value and its wrapped form agree modulo 2^32. *)
Lemma s32_mod x : s32 x mod 2 ^ 32 = x mod 2 ^ 32.
Proof.
  unfold s32. rewrite Zminus_mod_idemp_l.
  f_equal. lia.
Qed.

Lemma s32_eq_mod x y : x mod 2 ^ 32 = y mod 2 ^ 32 -> s32 x = s32 y.
Proof.
  unfold s32. intros H. f_equal.
  rewrite <- (Z.add_mod_idemp_l x), <- (Z.add_mod_idemp_l y) by lia.
  rewrite H. reflexivity.
Qed.

(** OR-ing in bits that are still clear is addition. *)
Lemma or_shift a b k : 0 <= k -> 0 <= a < 2 ^ k -> 0 <= b -> Z.lor a (Z.shiftl b k) = a + b * 2 ^ k.
Proof.
  intros Hk Ha Hb. rewrite <- Z.shiftl_mul_pow2 by lia. rewrite <- Z.lxor_lor, <- Z.add_nocarry_lxor; [done| |].
  all: apply Z.bits_inj'; intros i Hi; rewrite Z.land_spec, Z.bits_0; destruct (Z.ltb_spec i k).
  1,3: rewrite Z.shiftl_spec_low by lia; apply andb_false_r.
  all: destruct (Z.eq_dec a 0) as [->|]; [by rewrite Z.bits_0|];
    rewrite (Z.bits_above_log2 a i) by (lia || (assert (Z.log2 a < k) by (apply Z.log2_lt_pow2; lia); lia)); done.
Qed.

Create HintDb vnu.
Create Rewrite HintDb vnu.
#[export] Hint Resolve u8_range u32_range s32_range : vnu.
#[export] Hint Rewrite u8_id u32_id s32_id u64_id using (unfold is_u8, is_u32, is_s32 in *; lia) : vnu.

(** ** C strings and byte buffers

    A pointer into a string is the list of the bytes from it up to the
    terminating NUL, which is not stored: [at_ p i] is [p[i]], and reads the
    terminator at the end of the list; [tail p] is [p + 1]. *)
Definition at_ (p : list Z) (i : nat) : Z := nth i p 0.
Abbreviation ch p := (at_ p 0).

(** A string literal of the source, as bytes. *)
Definition cs (s : string) : list Z :=
  map (fun c => Z.of_N (Ascii.N_of_ascii c)) (String.list_ascii_of_string s).

(** A character of the source, as a byte. *)
Definition chr (s : string) : Z := at_ (cs s) 0.

(** The bytes of a proper C string: none is NUL. *)
Definition cstring (s : list Z) : Prop := Forall (fun c => 0 < c < 256) s.
Definition bytes (s : list Z) : Prop := Forall is_u8 s.

Lemma cstring_bytes s : cstring s -> bytes s.
Proof. intros H. eapply Forall_impl; [exact H|]. unfold is_u8. intros; simpl in *; lia. Qed.

(** For closed strings. *)
Lemma cstring_closed s : forallb (fun c => (0 <? c) && (c <? 256)) s = true -> cstring s.
Proof. intros H. apply Forall_forall. intros c Hc%list_elem_of_In. eapply forallb_forall in H; [|exact Hc]. lia. Qed.

Lemma bytes_closed s : forallb (fun c => (0 <=? c) && (c <? 256)) s = true -> bytes s.
Proof.
  intros H. apply Forall_forall. intros c Hc%list_elem_of_In. eapply forallb_forall in H; [|exact Hc].
  unfold is_u8. lia.
Qed.

Lemma at_nil i : at_ [] i = 0.
Proof. destruct i; reflexivity. Qed.

Lemma at_cons_S c p i : at_ (c :: p) (S i) = at_ p i.
Proof. reflexivity. Qed.

Lemma at_app_l p q i : (i < length p)%nat -> at_ (p ++ q) i = at_ p i.
Proof. unfold at_. intros. apply app_nth1. lia. Qed.

Lemma at_app_r p q i : (length p <= i)%nat -> at_ (p ++ q) i = at_ q (i - length p).
Proof. unfold at_. intros. apply app_nth2. lia. Qed.

Lemma at_ge p i : (length p <= i)%nat -> at_ p i = 0.
Proof. unfold at_. apply nth_overflow. Qed.

Lemma at_lookup p i x : p !! i = Some x -> at_ p i = x.
Proof. unfold at_. revert i; induction p as [|c p IH]; intros [|i] H; simplify_eq/=; auto. Qed.

Lemma lookup_at p i : (i < length p)%nat -> p !! i = Some (at_ p i).
Proof.
  intros H. destruct (p !! i) eqn:E.
  - rewrite (at_lookup _ _ _ E). reflexivity.
  - apply lookup_ge_None in E. lia.
Qed.

Lemma at_drop p n i : at_ (drop n p) i = at_ p (n + i).
Proof.
  unfold at_. revert n; induction p as [|c p IH]; intros [|n]; simpl; auto.
  destruct i; reflexivity.
Qed.

Lemma at_take p n i : (i < n)%nat -> at_ (take n p) i = at_ p i.
Proof.
  unfold at_. revert n i; induction p as [|c p IH]; intros [|n] [|i] H; simpl; auto; try lia.
  apply IH. lia.
Qed.

Lemma at_insert p i j x :
  (i < length p)%nat -> at_ (<[i:=x]> p) j = if decide (i = j) then x else at_ p j.
Proof.
  intros Hi. case_decide; subst.
  - apply at_lookup, list_lookup_insert_eq. lia.
  - destruct (decide (j < length p)%nat).
    + apply at_lookup. rewrite list_lookup_insert_ne by done. apply lookup_at. lia.
    + rewrite !at_ge; rewrite ?length_insert; lia || done.
Qed.

Lemma bytes_at s i : bytes s -> is_u8 (at_ s i).
Proof.
  intros H. destruct (decide (i < length s)%nat).
  - eapply Forall_lookup_1; [exact H|]. apply lookup_at. lia.
  - rewrite at_ge by lia. unfold is_u8. lia.
Qed.

Lemma list_eq_at (p q : list Z) :
  length p = length q ->
  (forall i, (i < length p)%nat -> at_ p i = at_ q i) -> p = q.
Proof.
  intros HL H. apply list_eq_same_length with (n := length p); auto.
  intros i x y Hi Hx Hy. rewrite (lookup_at _ _ Hi) in Hx.
  rewrite (lookup_at q i) in Hy by lia. specialize (H i Hi). congruence.
Qed.

(** A property of all bytes, checked on the 256 of them. *)
Lemma all_bytes (P : Z -> bool) x : is_u8 x -> forallb P (map Z.of_nat (seq 0 256)) = true -> P x = true.
Proof.
  unfold is_u8. change (2 ^ 8) with 256. intros Hx H. eapply forallb_forall in H; [exact H|].
  apply in_map_iff. exists (Z.to_nat x). split; [lia|]. apply in_seq. lia.
Qed.

#[export] Hint Resolve cstring_bytes bytes_at : vnu.

(** ** Big-endian numbers *)

Fixpoint be (b : list Z) : Z :=
  match b with
  | [] => 0
  | x :: rest => x * 256 ^ Z.of_nat (length rest) + be rest
  end.

Lemma be_bound b : bytes b -> 0 <= be b < 256 ^ Z.of_nat (length b).
Proof.
  induction 1 as [|x b Hx Hb IH]; [cbn; lia|]. cbn [be length]. rewrite Nat2Z.inj_succ, Z.pow_succ_r by lia.
  unfold is_u8 in Hx. change (2 ^ 8) with 256 in Hx. nia.
Qed.

Lemma be_inj a b : bytes a -> bytes b -> length a = length b -> be a = be b -> a = b.
Proof.
  intros Ha. revert b; induction Ha as [|x a Hx Ha IH]; intros b Hb Hl E; [by destruct b|].
  destruct Hb as [|y b Hy Hb]; [done|]. simpl in Hl. cbn [be] in E. injection Hl as Hl. rewrite Hl in E.
  unfold is_u8 in *. pose proof (be_bound a Ha) as H1. pose proof (be_bound b Hb). rewrite Hl in H1.
  assert (x = y) as -> by nia. f_equal. apply IH; [done|done|lia].
Qed.

Lemma be_app a b : be (a ++ b) = be a * 256 ^ Z.of_nat (length b) + be b.
Proof.
  induction a as [|x a IH]; [cbn; lia|]. cbn [app be]. rewrite IH, length_app, Nat2Z.inj_add, Z.pow_add_r by lia. ring.
Qed.

(** The bytes of a 64-bit number. *)
Definition be64 (x : Z) : list Z := map (fun i => u8 (Z.shiftr x (8 * (7 - Z.of_nat i)))) (seq 0 8).

Lemma length_be64 x : length (be64 x) = 8%nat.
Proof. done. Qed.

(** ** Booleans of the code's conditions *)

(** [b2z] is the [int] a C comparison yields. *)
Definition b2z (b : bool) : Z := if b then 1 else 0.

Ltac bprop :=
  repeat match goal with
  | H : (_ && _)%bool = true |- _ => apply andb_true_iff in H; destruct H
  | H : (_ || _)%bool = false |- _ => apply orb_false_iff in H; destruct H
  | H : negb _ = true |- _ => apply negb_true_iff in H
  | H : negb _ = false |- _ => apply negb_false_iff in H
  | H : (_ =? _) = true |- _ => apply Z.eqb_eq in H
  | H : (_ =? _) = false |- _ => apply Z.eqb_neq in H
  | H : (_ <? _) = true |- _ => apply Z.ltb_lt in H
  | H : (_ <? _) = false |- _ => apply Z.ltb_ge in H
  | H : (_ <=? _) = true |- _ => apply Z.leb_le in H
  | H : (_ <=? _) = false |- _ => apply Z.leb_gt in H
  | H : (_ =? _)%nat = true |- _ => apply Nat.eqb_eq in H
  | H : (_ =? _)%nat = false |- _ => apply Nat.eqb_neq in H
  | H : (_ <? _)%nat = true |- _ => apply Nat.ltb_lt in H
  | H : (_ <? _)%nat = false |- _ => apply Nat.ltb_ge in H
  | H : (_ <=? _)%nat = true |- _ => apply Nat.leb_le in H
  | H : (_ <=? _)%nat = false |- _ => apply Nat.leb_gt in H
  end.

(** Case analysis on the first test of the goal. *)
Ltac bcase :=
  match goal with
  | |- context [if ?b then _ else _] =>
      lazymatch type of b with bool => let E := fresh "E" in destruct b eqn:E; bprop end
  end.

(** ** Outcomes

    A call ends with a value, with undefined behaviour the processor traps or
    that leaves the model ([Trap]), or, in the model only, out of fuel. *)
Inductive outcome (A : Type) :=
  | Done (a : A)
  | Trap
  | NoFuel.
#[global] Arguments Done {A} a.
#[global] Arguments Trap {A}.
#[global] Arguments NoFuel {A}.

Definition obind {A B} (m : outcome A) (f : A -> outcome B) : outcome B :=
  match m with
  | Done a => f a
  | Trap => Trap
  | NoFuel => NoFuel
  end.
Notation "'let*' x := m 'in' k" := (obind m (fun x => k))
  (at level 10, x pattern, m at level 100, k at level 200) : vnu_scope.

(** ** The allocator's promise

    What the shell relies on of [malloc]: a request either fails (NULL) or
    yields a buffer of exactly the requested number of bytes, whose contents
    are not specified. *)
Class Allocator : Type := {
  alloc : Z -> option (list Z);
  alloc_length : forall n b, alloc n = Some b -> length b = Z.to_nat n
}.

(** An allocator that never refuses, for closed examples. *)
Definition zero_allocator : Allocator :=
  {| alloc n := Some (replicate (Z.to_nat n) 0);
     alloc_length n b H :=
       eq_trans (f_equal length (eq_sym (Some_inj _ _ H))) (length_replicate _ _) |}.

(** An allocator that always refuses. *)
Definition null_allocator : Allocator :=
  {| alloc n := None;
     alloc_length n b (H : None = Some b) := False_ind _ (eq_ind None (fun o => match o with None => True | Some _ => False end) I _ H) |}.
