(* ===== verification/CString.v ===== *)
(** vlibc's string and conversion routines ([vlibc/src/string/],
    [vlibc/src/stdlib/atoi.c], [atol.c], [getenv.c]).

    Source strings are the byte lists of [Prelude]; a destination buffer is the
    list of its bytes and a write outside it is the result [None]. *)
From S2P Require Import Prelude.

(** ** strlen, strcmp, strncmp *)

Fixpoint strlen (str : list Z) : Z :=
  match str with
  | [] => 0
  | c :: str' => if c =? 0 then 0 else 1 + strlen str'
  end.

Fixpoint strcmp (s1 s2 : list Z) : Z :=
  match s1 with
  | [] => 0 - ch s2
  | c :: s1' =>
      if negb (c =? 0) && (c =? ch s2) then strcmp s1' (tail s2)
      else c - ch s2
  end.

Fixpoint strncmp (s1 s2 : list Z) (n : nat) {struct n} : Z :=
  match n with
  | O => 0
  | S n' =>
      if negb (ch s1 =? 0) && (ch s1 =? ch s2) then strncmp (tail s1) (tail s2) n'
      else ch s1 - ch s2
  end.

(** ** memcpy, memset, strcpy, strncpy *)

Fixpoint memcpy (dest src : list Z) (n : nat) {struct n} : option (list Z) :=
  match n with
  | O => Some dest
  | S n' =>
      match dest, src with
      | _ :: d, c :: s => cons c <$> memcpy d s n'
      | _, _ => None
      end
  end.

Fixpoint memset (s : list Z) (c : Z) (n : nat) {struct n} : option (list Z) :=
  match n with
  | O => Some s
  | S n' =>
      match s with
      | _ :: p => cons (u8 c) <$> memset p c n'
      | [] => None
      end
  end.

Fixpoint strcpy (dest src : list Z) : option (list Z) :=
  match dest with
  | [] => None
  | _ :: d =>
      if ch src =? 0 then Some (0 :: d)
      else cons (ch src) <$> strcpy d (tail src)
  end.

Fixpoint strncpy (dest src : list Z) (n : nat) {struct n} : option (list Z) :=
  match n with
  | O => Some dest
  | S n' =>
      if ch src =? 0 then memset dest 0 n
      else match dest with
           | [] => None
           | _ :: d => cons (ch src) <$> strncpy d (tail src) n'
           end
  end.

(** ** atoi, atol *)

Definition is_digit (c : Z) : bool := (48 <=? c) && (c <=? 57).

Fixpoint skip_blanks (str : list Z) : list Z :=
  match str with
  | c :: str' => if (c =? 32) || (c =? 9) then skip_blanks str' else str
  | [] => []
  end.

(** The digit loop, [result = result * 10 + (c - '0')] while [c] is a digit,
    in a signed 32-bit accumulator. *)
Fixpoint digits_loop (result : Z) (str : list Z) : Z :=
  match str with
  | c :: str' =>
      if is_digit c then digits_loop (s32 (s32 (result * 10) + (c - 48))) str'
      else result
  | [] => result
  end.

Definition take_sign (str : list Z) : Z * list Z :=
  if ch str =? 45 then (-1, tail str)
  else if ch str =? 43 then (1, tail str)
  else (1, str).

Definition atoi (str : list Z) : Z :=
  let '(sign, str) := take_sign (skip_blanks str) in
  s32 (sign * digits_loop 0 str).

Definition atol (str : list Z) : Z :=
  let '(sign, str) := take_sign (skip_blanks str) in
  s32 (sign * digits_loop 0 str).

(** ** getenv *)

(** [while (i < n && entry[i] && entry[i] == name[i]) ++i], from [i]. *)
Fixpoint getenv_scan (n : nat) (name entry : list Z) (i : nat) : nat :=
  match n with
  | O => i
  | S n' =>
      if negb (at_ entry i =? 0) && (at_ entry i =? at_ name i)
      then getenv_scan n' name entry (S i)
      else i
  end.

Fixpoint getenv_walk (name : list Z) (n : nat) (e : list (list Z)) : option (list Z) :=
  match e with
  | [] => None
  | entry :: e' =>
      let i := getenv_scan n name entry 0 in
      if (i =? n)%nat && (at_ entry i =? chr "=") then Some (drop (n + 1) entry)
      else getenv_walk name n e'
  end.

Definition getenv (environ : option (list (list Z))) (name : list Z) : option (list Z) :=
  if ch name =? 0 then None
  else
    let n := Z.to_nat (strlen name) in
    match environ with
    | None => None
    | Some e => getenv_walk name n e
    end.

(** * Properties *)

Lemma cstring_cons c s : cstring (c :: s) <-> 0 < c < 256 /\ cstring s.
Proof. unfold cstring. rewrite Forall_cons. reflexivity. Qed.

Lemma strlen_length s : cstring s -> strlen s = Z.of_nat (length s).
Proof.
  induction s as [|c s IH]; [done|]. rewrite cstring_cons. intros [Hc Hs].
  cbn [strlen length]. bcase; [lia|]. rewrite IH by done. lia.
Qed.

Lemma ch_cstring s : cstring s -> ch s = 0 <-> s = [].
Proof.
  destruct s as [|c s]; [done|]. rewrite cstring_cons. intros [H _].
  change (ch (c :: s)) with c. split; [lia|done].
Qed.

(** Lexicographic order of byte strings, the reference for [strcmp]. *)
Fixpoint lex_lt (a b : list Z) : Prop :=
  match a, b with
  | _, [] => False
  | [], _ :: _ => True
  | x :: a', y :: b' => x < y \/ x = y /\ lex_lt a' b'
  end.

Lemma strcmp_cases a b :
  cstring a -> cstring b ->
  (strcmp a b = 0 /\ a = b) \/ (strcmp a b < 0 /\ lex_lt a b) \/ (0 < strcmp a b /\ lex_lt b a).
Proof.
  revert b; induction a as [|x a IH]; intros [|y b]; rewrite ?cstring_cons; intros Ha Hb.
  - left. done.
  - right. left. cbn [strcmp lex_lt]. change (ch (y :: b)) with y. split; [lia|done].
  - right. right. cbn [strcmp lex_lt]. rewrite at_nil. destruct Ha. bcase; bprop; [lia|]. split; [lia|done].
  - cbn [strcmp]. change (ch (y :: b)) with y. change (tail (y :: b)) with b.
    destruct Ha, Hb. bcase; bprop; subst.
    + destruct (IH b) as [[E ->]|[[E L]|[E L]]]; try done; cbn; auto 10.
    + destruct (Z.lt_trichotomy x y) as [L|[->|L]].
      * right; left. cbn. split; [lia|auto].
      * exfalso. rewrite Z.eqb_refl in E. destruct (Z.eqb_spec y 0); [lia|discriminate].
      * right; right. cbn. split; [lia|auto].
Qed.

Lemma lex_lt_irrefl a : ~ lex_lt a a.
Proof. induction a; cbn; [tauto|]. intros [H|[_ H]]; [lia|auto]. Qed.

Lemma lex_lt_asym a b : lex_lt a b -> ~ lex_lt b a.
Proof.
  revert b; induction a as [|x a IH]; intros [|y b]; cbn; try tauto.
  intros [H|[E H]] [H'|[E' H']]; try lia. exact (IH _ H H').
Qed.

Lemma strcmp_0_iff a b : cstring a -> cstring b -> strcmp a b = 0 <-> a = b.
Proof.
  intros Ha Hb. destruct (strcmp_cases a b Ha Hb) as [[E ->]|[[E L]|[E L]]]; [done| |];
    (split; [lia|intros ->; exfalso; eapply lex_lt_irrefl; eauto]).
Qed.

(** on C strings [strcmp] is the three-way lexicographic comparison of
    unsigned bytes: zero exactly on equal strings, negative exactly when the
    first is smaller, positive exactly when it is larger. *)
Theorem strcmp_correct a b :
  cstring a -> cstring b ->
  (strcmp a b = 0 <-> a = b) /\ (strcmp a b < 0 <-> lex_lt a b) /\ (0 < strcmp a b <-> lex_lt b a).
Proof.
  intros Ha Hb. split; [by apply strcmp_0_iff|].
  destruct (strcmp_cases a b Ha Hb) as [[E ->]|[[E L]|[E L]]].
  - pose proof (lex_lt_irrefl b). split; split; try lia; tauto.
  - pose proof (lex_lt_asym _ _ L). split; split; try lia; tauto.
  - pose proof (lex_lt_asym _ _ L). split; split; try lia; tauto.
Qed.

Lemma strcmp_correct_witness :
  (strcmp (cs "PATH") (cs "PATH_X") = 0 <-> cs "PATH" = cs "PATH_X") /\
  (strcmp (cs "PATH") (cs "PATH_X") < 0 <-> lex_lt (cs "PATH") (cs "PATH_X")) /\
  (0 < strcmp (cs "PATH") (cs "PATH_X") <-> lex_lt (cs "PATH_X") (cs "PATH")).
Proof. apply strcmp_correct; vm_compute; repeat constructor. Defined.

(** [strncmp] compares the first [n] bytes. *)
Lemma strncmp_take a b n :
  cstring a -> cstring b -> strncmp a b n = 0 <-> take n a = take n b.
Proof.
  revert a b; induction n as [|n IH]; intros [|x a] [|y b]; rewrite ?cstring_cons;
    intros Ha Hb; cbn [strncmp]; rewrite ?take_0; try done.
  - rewrite at_nil. change (ch (y :: b)) with y. cbn. split; [lia|done].
  - rewrite at_nil. change (ch (x :: a)) with x. bcase; bprop; [lia|]. cbn. split; [lia|done].
  - change (ch (x :: a)) with x. change (ch (y :: b)) with y. destruct Ha, Hb.
    bcase; bprop; subst.
    + cbn. rewrite IH by done. split; [intros ->; done|intros [=]; done].
    + cbn. split.
      * intros. assert (x = y) by lia; subst.
        rewrite Z.eqb_refl in E. destruct (Z.eqb_spec y 0); [lia|discriminate].
      * intros [= -> _]. lia.
Qed.

Lemma memcpy_spec dest src n :
  (n <= length dest)%nat -> (n <= length src)%nat ->
  memcpy dest src n = Some (take n src ++ drop n dest).
Proof.
  revert dest src; induction n as [|n IH]; intros [|x d] [|y s] Hd Hs; simpl in *; try lia; try done.
  rewrite IH by lia. reflexivity.
Qed.

Lemma memset_spec s c n :
  (n <= length s)%nat -> memset s c n = Some (replicate n (u8 c) ++ drop n s).
Proof.
  revert s; induction n as [|n IH]; intros [|x s] H; simpl in *; try lia; try done.
  rewrite IH by lia. reflexivity.
Qed.

Lemma strncpy_spec dest src n :
  cstring src -> (n <= length dest)%nat ->
  strncpy dest src n =
    Some (take n src ++ replicate (n - length src) 0 ++ drop n dest).
Proof.
  revert dest src; induction n as [|n IH]; intros dest src Hs Hn.
  - destruct src; reflexivity.
  - cbn [strncpy]. bcase.
    + apply (ch_cstring _ Hs) in E. subst. rewrite memset_spec by done.
      rewrite Nat.sub_0_r. reflexivity.
    + destruct src as [|c src]; [done|]. rewrite cstring_cons in Hs.
      destruct dest as [|x d]; simpl in Hn; [lia|].
      change (ch (c :: src)) with c. simpl. rewrite IH by (tauto || lia). reflexivity.
Qed.

Lemma strcpy_spec dest src :
  cstring src -> (length src < length dest)%nat ->
  strcpy dest src = Some (src ++ 0 :: drop (S (length src)) dest).
Proof.
  revert src; induction dest as [|x d IH]; intros [|c src] Hs Hl; simpl in *; try lia.
  - done.
  - rewrite cstring_cons in Hs. change (ch (c :: src)) with c. bcase; [lia|].
    rewrite IH by (tauto || lia). reflexivity.
Qed.

(** ** getenv *)

Lemma getenv_scan_full name entry n i :
  (n = length name - i)%nat -> (i <= length name)%nat -> cstring name ->
  take i entry = take i name ->
  (getenv_scan n name entry i = length name <-> take (length name) entry = name).
Proof.
  revert i; induction n as [|n IH]; intros i Hn Hi Hc Hpre; cbn [getenv_scan].
  - assert (i = length name) by lia. subst i.
    rewrite Hpre, take_ge by lia. done.
  - destruct (name !! i) as [x|] eqn:Ex; [|apply lookup_ge_None in Ex; lia].
    pose proof (at_lookup _ _ _ Ex) as Hx.
    pose proof (Forall_lookup_1 _ _ _ _ Hc Ex) as Hxr. simpl in Hxr.
    bcase.
    + apply IH; try done; try lia.
      assert (entry !! i = Some x) as Ee.
      { destruct (decide (i < length entry)%nat) as [Hlt|Hge].
        - rewrite (lookup_at _ _ Hlt). congruence.
        - rewrite (at_ge entry i) in * by lia. lia. }
      rewrite (take_S_r _ _ _ Ee), (take_S_r _ _ _ Ex), Hpre. reflexivity.
    + split; [lia|]. intros Ht. exfalso.
      assert (at_ entry i = x) as Ee.
      { rewrite <- (at_take entry (length name) i) by lia. congruence. }
      rewrite Ee, Hx, Z.eqb_refl in E. destruct (Z.eqb_spec x 0); [lia|discriminate].
Qed.

Lemma getenv_hit name entry :
  cstring name ->
  let i := getenv_scan (length name) name entry 0 in
  ((i =? length name)%nat && (at_ entry i =? chr "=") = true <->
   exists v, entry = name ++ chr "=" :: v).
Proof.
  intros Hc i. pose proof (getenv_scan_full name entry (length name) 0
    ltac:(lia) ltac:(lia) Hc eq_refl) as Hs. fold i in Hs.
  rewrite andb_true_iff, Nat.eqb_eq, Z.eqb_eq. split.
  - intros [Hi He]. rewrite Hi in He. apply Hs in Hi. exists (drop (S (length name)) entry).
    rewrite <- (take_drop (length name) entry) at 1. rewrite Hi. f_equal.
    assert (length name < length entry)%nat as Hlt.
    { destruct (decide (length name < length entry)%nat); [done|].
      rewrite at_ge in He by lia. discriminate. }
    rewrite (drop_S _ (chr "=") (length name)); [done|].
    rewrite (lookup_at _ _ Hlt). congruence.
  - intros [v ->]. assert (i = length name) as Hi.
    { apply Hs. rewrite take_app_length. done. }
    split; [done|]. rewrite Hi, at_app_r, Nat.sub_diag by lia. reflexivity.
Qed.

Lemma drop_name_value (name v : list Z) (c : Z) : drop (length name + 1) (name ++ c :: v) = v.
Proof.
  rewrite <- drop_drop, drop_app_length. reflexivity.
Qed.

Definition defines (name entry : list Z) : Prop := exists v, entry = name ++ chr "=" :: v.

Lemma getenv_walk_spec name env v :
  cstring name ->
  getenv_walk name (length name) env = Some v <->
  exists pre post, env = pre ++ (name ++ chr "=" :: v) :: post /\ Forall (fun e => ~ defines name e) pre.
Proof.
  intros Hc. induction env as [|entry env IH].
  - split; [done|]. intros (pre & post & H & _). destruct pre; discriminate.
  - cbn [getenv_walk]. pose proof (getenv_hit name entry Hc) as Hh. cbn zeta in Hh.
    destruct (_ && _) eqn:E.
    + destruct (proj1 Hh eq_refl) as [w ->]. rewrite drop_name_value. split.
      * intros [= ->]. exists [], env. done.
      * intros ([|e pre] & post & H & Hn); simplify_list_eq; [done|].
        apply Forall_cons in Hn as [Hn _]. destruct Hn. eexists; done.
    + assert (~ defines name entry) as Hn by (intros H; apply Hh in H; discriminate).
      rewrite IH. split.
      * intros (pre & post & -> & Hp). exists (entry :: pre), post. auto.
      * intros ([|e pre] & post & H & Hp); simplify_list_eq.
        -- destruct Hn. eexists; done.
        -- apply Forall_cons in Hp as [_ Hp]. eauto.
Qed.

Lemma getenv_spec env name v :
  cstring name ->
  getenv (Some env) name = Some v <->
  name <> [] /\
  exists pre post, env = pre ++ (name ++ chr "=" :: v) :: post /\ Forall (fun e => ~ defines name e) pre.
Proof.
  intros Hc. unfold getenv. bcase.
  - apply (ch_cstring _ Hc) in E. split; [done|tauto].
  - assert (name <> []) by (intros ->; done).
    rewrite strlen_length, Nat2Z.id, getenv_walk_spec by done. tauto.
Qed.

(** [getenv] returns the value of the first environment entry that is
    [name=value], and only of such an entry: a longer variable name with the
    same prefix never answers, and the empty name never matches. *)
Theorem getenv_first_match env name v :
  cstring name ->
  getenv (Some env) name = Some v <->
  name <> [] /\
  exists pre post, env = pre ++ (name ++ chr "=" :: v) :: post /\ Forall (fun e => ~ defines name e) pre.
Proof. apply getenv_spec. Qed.

Lemma getenv_first_match_witness :
  let env := [cs "PATH_EXTRA=1"; cs "PATH=/bin"; cs "PATH=/usr"] in
  cstring (cs "PATH") /\
  (getenv (Some env) (cs "PATH") = Some (cs "/bin") <->
   cs "PATH" <> [] /\
   exists pre post, env = pre ++ (cs "PATH" ++ chr "=" :: cs "/bin") :: post /\
                    Forall (fun e => ~ defines (cs "PATH") e) pre).
Proof.
  cbv zeta. split; [vm_compute; repeat constructor|].
  apply getenv_first_match. vm_compute; repeat constructor.
Defined.
