(* ===== verification/StrBuf.v ===== *)
(** vash's growable strings and vectors and its string helpers
    ([vnu/userspace/vash/strbuf.c]).

    A [Str] is its three fields; the buffer is NULL or the list of its [cap]
    bytes.  Operations run in the option monad: [None] is undefined behaviour
    (a NULL or out-of-range write) or a loop that does not end. *)
From S2P Require Import Prelude CString.

Record Str := mkStr { s_p : option (list Z); s_len : Z; s_cap : Z }.

(** [p[i] = c]. *)
Definition store (p : option (list Z)) (i c : Z) : option (list Z) :=
  match p with
  | Some b =>
      if (0 <=? i) && (i <? Z.of_nat (length b)) then Some (<[Z.to_nat i := u8 c]> b) else None
  | None => None
  end.

Section Strings.
Context `{Allocator}.

Definition str_init : option Str :=
  match alloc 32 with
  | Some b => p ← store (Some b) 0 0; Some (mkStr (Some p) 0 32)
  | None => Some (mkStr None 0 32)
  end.

Definition str_free (s : Str) : Str := mkStr None 0 0.

Definition str_reset (s : Str) : option Str :=
  match s_p s with
  | Some b => p ← store (Some b) 0 0; Some (mkStr (Some p) 0 (s_cap s))
  | None => Some (mkStr None 0 (s_cap s))
  end.

(** [while (cap < want) cap *= 2], in an [int]. *)
Fixpoint double_cap (fuel : nat) (cap want : Z) : option Z :=
  if cap <? want then
    match fuel with
    | O => None
    | S f => double_cap f (s32 (cap * 2)) want
    end
  else Some cap.

Definition str_grow (s : Str) (need : Z) : option Str :=
  if s_len s + need + 1 <=? s_cap s then Some s
  else
    cap ← double_cap 32 (if s_cap s =? 0 then 32 else s_cap s) (s_len s + need + 1);
    match alloc (u32 cap) with
    | None => Some s
    | Some np =>
        np ← match s_p s with
             | Some b => memcpy np b (Z.to_nat (s_len s))
             | None => Some np
             end;
        np ← store (Some np) (s_len s) 0;
        Some (mkStr (Some np) (s_len s) cap)
    end.

Definition str_addc (s : Str) (c : Z) : option Str :=
  s ← str_grow s 1;
  if s_len s <? s_cap s - 1 then
    p ← store (s_p s) (s_len s) c;
    p ← store (Some p) (s_len s + 1) 0;
    Some (mkStr (Some p) (s_len s + 1) (s_cap s))
  else Some s.

(** [for (i = 0; i < n && s->len < s->cap - 1; ++i) s->p[s->len++] = t[i]]. *)
Fixpoint addn_loop (s : Str) (t : list Z) (n : nat) : option Str :=
  match n with
  | O => Some s
  | S n' =>
      if s_len s <? s_cap s - 1 then
        p ← store (s_p s) (s_len s) (ch t);
        addn_loop (mkStr (Some p) (s_len s + 1) (s_cap s)) (tail t) n'
      else Some s
  end.

Definition str_addn (s : Str) (t : option (list Z)) (n : Z) : option Str :=
  match t with
  | None => Some s
  | Some t =>
      if n <=? 0 then Some s
      else
        s ← str_grow s n;
        s ← addn_loop s t (Z.to_nat n);
        p ← store (s_p s) (s_len s) 0;
        Some (mkStr (Some p) (s_len s) (s_cap s))
  end.

Definition str_adds (s : Str) (t : option (list Z)) : option Str :=
  match t with
  | None => Some s
  | Some b => str_addn s (Some b) (s32 (strlen b))
  end.

Definition str_set (s : Str) (t : option (list Z)) : option Str :=
  s ← str_reset s; str_adds s t.

(** Returns the (possibly grown) string and the NUL-terminated bytes. *)
Definition str_cstr (s : Str) : option (Str * option (list Z)) :=
  match s_p s with
  | None => Some (s, None)
  | Some _ =>
      s ← (if s_cap s <=? s_len s then str_grow s 1 else Some s);
      p ← store (s_p s) (s_len s) 0;
      Some (mkStr (Some p) (s_len s) (s_cap s), Some (take (Z.to_nat (s_len s)) p))
  end.

Definition sh_strdup (s : option (list Z)) : option (option (list Z)) :=
  match s with
  | None => Some None
  | Some b =>
      let n := s32 (strlen b) in
      match alloc (u32 (n + 1)) with
      | None => Some None
      | Some p =>
          p ← memcpy p b (Z.to_nat n);
          p ← store (Some p) n 0;
          Some (Some p)
      end
  end.

(** ** Numbers *)

Definition sh_atol (s : option (list Z)) : Z :=
  match s with
  | None => 0
  | Some b =>
      let '(sign, b) := take_sign (skip_blanks b) in
      s32 (sign * digits_loop 0 b)
  end.

(** [while (v > 0 && i < 31) { buf[i++] = '0' + v % 10; v /= 10; }]: the bytes
    of [buf] from index [i] on. *)
Fixpoint utoa_digits (slots : nat) (v : Z) : list Z :=
  match slots with
  | O => []
  | S k => if 0 <? v then u8 (48 + v mod 10) :: utoa_digits k (v / 10) else []
  end.

(** [while (i--) str_addc(out, buf[i])]. *)
Fixpoint addc_rev (out : Str) (buf : list Z) : option Str :=
  match buf with
  | [] => Some out
  | c :: buf' => out ← addc_rev out buf'; str_addc out c
  end.

Definition sh_utoa (v : Z) (out : Str) : option Str :=
  out ← str_reset out;
  if v =? 0 then str_addc out 48
  else addc_rev out (utoa_digits 31 v).

(** [while (i > 0) { out->p[i] = out->p[i - 1]; --i; }]. *)
Fixpoint shift_up (p : list Z) (i : nat) : option (list Z) :=
  match i with
  | O => Some p
  | S i' => p ← store (Some p) (Z.of_nat i) (at_ p i'); shift_up p i'
  end.

Definition sh_itoa (v : Z) (out : Str) : option Str :=
  let neg := v <? 0 in
  let m := if neg then u32 (u32 (s32 (- (s32 (v + 1)))) + 1) else u32 v in
  out ← sh_utoa m out;
  if negb neg then Some out
  else
    out ← str_addc out 32;
    match s_p out with
    | None => None
    | Some b =>
        p ← shift_up b (Z.to_nat (s_len out - 1));
        p ← store (Some p) 0 45;
        Some (mkStr (Some p) (s_len out) (s_cap out))
    end.

(** ** Vectors *)

(** The initialised slots of the array, and its capacity. *)
Record Vec (A : Type) := mkVec { v_v : option (list A); v_n : Z; v_cap : Z }.
#[global] Arguments mkVec {A}.
#[global] Arguments v_v {A}.
#[global] Arguments v_n {A}.
#[global] Arguments v_cap {A}.

Definition vec_init {A} : Vec A := mkVec None 0 0.

(** [while (cap <= n) cap *= 2]. *)
Fixpoint vec_cap (fuel : nat) (cap n : Z) : option Z :=
  if cap <=? n then
    match fuel with
    | O => None
    | S f => vec_cap f (s32 (cap * 2)) n
    end
  else Some cap.

Definition vec_push {A} (v : Vec A) (p : A) : option (Vec A) :=
  let items := default [] (v_v v) in
  if v_cap v <=? v_n v then
    cap ← vec_cap 32 (if v_cap v =? 0 then 8 else v_cap v) (v_n v);
    match alloc (u32 (u32 cap * 4)) with
    | None => Some v
    | Some _ => Some (mkVec (Some (items ++ [p])) (v_n v + 1) cap)
    end
  else Some (mkVec (Some (items ++ [p])) (v_n v + 1) (v_cap v)).

Definition vec_free {A} (v : Vec A) : Vec A := mkVec None 0 0.

End Strings.

(** ** Prefix, suffix, substring *)

(** [for (i = 0; i < n; ++i) if (s[off + i] != p[i]) return 0;]. *)
Fixpoint same_at (n : nat) (s : list Z) (off : nat) (p : list Z) (i : nat) : bool :=
  match n with
  | O => true
  | S n' =>
      if negb (at_ s (off + i) =? at_ p i) then false
      else same_at n' s off p (S i)
  end.

Definition sh_starts (s p : option (list Z)) : bool :=
  match s, p with
  | Some s, Some p =>
      let ls := strlen s in
      let lp := strlen p in
      if ls <? lp then false else same_at (Z.to_nat lp) s 0 p 0
  | _, _ => false
  end.

Definition sh_ends (s p : option (list Z)) : bool :=
  match s, p with
  | Some s, Some p =>
      let ls := strlen s in
      let lp := strlen p in
      if ls <? lp then false else same_at (Z.to_nat lp) s (Z.to_nat (ls - lp)) p 0
  | _, _ => false
  end.

(** [for (i = 0; p[i]; ++i) if (!t[i] || t[i] != p[i]) ok = 0]. *)
Fixpoint find_here (t p : list Z) {struct p} : bool :=
  match p with
  | [] => true
  | c :: p' =>
      match t with
      | [] => false
      | d :: t' => if d =? c then find_here t' p' else false
      end
  end.

Fixpoint find_from (t p : list Z) : option (list Z) :=
  match t with
  | [] => None
  | _ :: t' => if find_here t p then Some t else find_from t' p
  end.

Definition sh_find (s p : option (list Z)) : option (list Z) :=
  match s, p with
  | Some s, Some p => if ch p =? 0 then None else find_from s p
  | _, _ => None
  end.

(** [for (i = ls - lp; i >= 0; --i)], with [i + 1] as the argument. *)
Fixpoint rfind_from (s p : list Z) (lp : nat) (i1 : nat) : option (list Z) :=
  match i1 with
  | O => None
  | S i => if same_at lp s i p 0 then Some (drop i s) else rfind_from s p lp i
  end.

Definition sh_rfind (s p : option (list Z)) : option (list Z) :=
  match s, p with
  | Some s, Some p =>
      if ch p =? 0 then None
      else
        let ls := strlen s in
        let lp := strlen p in
        if ls <? lp then None
        else rfind_from s p (Z.to_nat lp) (Z.to_nat (ls - lp + 1))
  | _, _ => None
  end.

(** * Properties *)

(** A usable string: a live buffer of [cap] bytes with room for the NUL. *)
Definition str_buf (s : Str) : Prop :=
  exists b, s_p s = Some b /\ length b = Z.to_nat (s_cap s) /\
            0 <= s_len s < s_cap s /\ 32 <= s_cap s < 2 ^ 31.
Definition str_data (s : Str) : list Z := default [] (s_p s).
(** ... that is also NUL-terminated at [len]. *)
Definition str_ok (s : Str) : Prop :=
  str_buf s /\ at_ (str_data s) (Z.to_nat (s_len s)) = 0.
(** The text it holds. *)
Definition str_val (s : Str) : list Z := take (Z.to_nat (s_len s)) (str_data s).

Lemma store_in b i c :
  0 <= i < Z.of_nat (length b) -> store (Some b) i c = Some (<[Z.to_nat i := u8 c]> b).
Proof.
  intros Hi. unfold store. bcase.
  { done. }
  apply andb_false_iff in E as [E|E]; bprop; lia. Qed.

Lemma take_insert_here (b : list Z) (i : nat) c :
  (i < length b)%nat -> take (S i) (<[i := c]> b) = take i b ++ [c].
Proof.
  intros Hi. rewrite (take_S_r _ _ c) by (apply list_lookup_insert_eq; lia).
  rewrite take_insert_ge by lia. done.
Qed.

Lemma double_cap_ok fuel cap want :
  0 < cap < 2 ^ 31 -> want <= 2 ^ 30 -> 2 ^ 30 <= cap * 2 ^ Z.of_nat fuel ->
  exists cap', double_cap fuel cap want = Some cap' /\ want <= cap' /\ cap <= cap' < 2 ^ 31.
Proof.
  revert cap; induction fuel as [|f IH]; intros cap Hc Hw Hf; cbn [double_cap].
  - change (2 ^ Z.of_nat 0) with 1 in Hf. bcase; [lia|]. exists cap. split; [done|lia].
  - bcase; [|exists cap; split; [done|lia]].
    rewrite s32_id by (unfold is_s32; lia).
    destruct (IH (cap * 2)) as (c' & E' & ? & ?); [lia|lia| |exists c'; split; [done|lia]].
    rewrite Nat2Z.inj_succ, Z.pow_succ_r in Hf by lia. lia.
Qed.

Section StringProofs.
Context `{Allocator}.

Definition refused : Prop := exists n, alloc n = None.

Lemma str_grow_ok s need :
  str_ok s -> 0 <= need -> s_len s + need + 1 <= 2 ^ 30 ->
  exists s', str_grow s need = Some s' /\ str_ok s' /\ str_val s' = str_val s /\
             s_len s' = s_len s /\
             (s_len s + need + 1 <= s_cap s' \/ (s' = s /\ refused)).
Proof.
  intros Hok Hn Hb. unfold str_grow. bcase.
  { exists s. repeat split; auto with lia; apply Hok. }
  destruct Hok as [(b & Hp & Hl & Hlen & Hcap) H0].
  bcase; [lia|].
  destruct (double_cap_ok 32 (s_cap s) (s_len s + need + 1)) as (cap & -> & ? & ?); try lia.
  cbn [mbind option_bind]. rewrite u32_id by (unfold is_u32; lia).
  destruct (alloc cap) as [np|] eqn:Ea.
  2:{ exists s. assert (refused) by (eexists; eauto).
      repeat split; auto. exists b; auto. }
  pose proof (alloc_length _ _ Ea) as Hnp.
  rewrite Hp, memcpy_spec by lia. cbn [mbind option_bind].
  rewrite store_in by (rewrite length_app, length_take, length_drop; lia).
  cbn [mbind option_bind]. eexists. split; [done|].
  assert (length (take (Z.to_nat (s_len s)) b ++ drop (Z.to_nat (s_len s)) np) = Z.to_nat cap) as HL
    by (rewrite length_app, length_take, length_drop; lia).
  unfold str_ok, str_buf, str_val, str_data. cbn [s_p s_len s_cap default from_option id].
  repeat split; try (auto with lia).
  - eexists. split; [done|]. rewrite length_insert. repeat split; try lia.
  - rewrite at_insert, decide_True by (done || lia). reflexivity.
  - rewrite take_insert_ge by lia. rewrite Hp. cbn [default from_option].
    rewrite take_app_le by (rewrite length_take; lia). rewrite take_take. f_equal. lia.
Qed.

Lemma addn_loop_ok n s t :
  str_buf s -> bytes t -> (n <= length t)%nat ->
  exists s', addn_loop s t n = Some s' /\ str_buf s' /\ s_cap s' = s_cap s /\
    str_val s' = str_val s ++ take (Nat.min n (Z.to_nat (s_cap s - 1 - s_len s))) t.
Proof.
  revert s t; induction n as [|n IH]; intros s t Hs Ht Hn; cbn [addn_loop].
  { exists s. rewrite Nat.min_0_l, take_0, app_nil_r. done. }
  destruct t as [|c t]; simpl in Hn; [lia|]. apply Forall_cons in Ht as [Hc Ht].
  change (ch (c :: t)) with c. cbn [tail].
  destruct Hs as (b & Hp & Hl & Hlen & Hcap). bcase.
  - rewrite Hp, store_in by lia. cbn [mbind option_bind].
    rewrite u8_id by done.
    destruct (IH (mkStr (Some (<[Z.to_nat (s_len s) := c]> b)) (s_len s + 1) (s_cap s)) t)
      as (s' & E1 & Hs' & Ecap & Ev); try done; try lia.
    { eexists. cbn. split; [done|]. rewrite length_insert. lia. }
    exists s'. rewrite E1. split; [done|]. split; [done|]. split; [done|].
    rewrite Ev. unfold str_val, str_data. cbn [s_p s_len s_cap default from_option id].
    rewrite Hp. cbn [default from_option id]. rewrite Z2Nat.inj_add by lia. rewrite Nat.add_1_r.
    rewrite take_insert_here by lia. rewrite <- app_assoc. f_equal.
    replace (Z.to_nat (s_cap s - 1 - s_len s)) with (S (Z.to_nat (s_cap s - 1 - (s_len s + 1)))) by lia.
    reflexivity.
  - exists s. split; [done|]. split; [eexists; eauto|]. split; [done|].
    replace (Z.to_nat (s_cap s - 1 - s_len s)) with 0%nat by lia.
    rewrite Nat.min_0_r, take_0, app_nil_r. done.
Qed.

Lemma terminate_ok s :
  str_buf s ->
  exists s', (p ← store (s_p s) (s_len s) 0; Some (mkStr (Some p) (s_len s) (s_cap s))) = Some s' /\
             str_ok s' /\ str_val s' = str_val s /\ s_cap s' = s_cap s /\ s_len s' = s_len s.
Proof.
  intros (b & Hp & Hl & Hlen & Hcap). rewrite Hp, store_in by lia. cbn [mbind option_bind].
  eexists. split; [done|]. unfold str_ok, str_buf, str_val, str_data.
  cbn [s_p s_len s_cap default from_option id]. repeat split.
  - eexists. split; [done|]. rewrite length_insert. lia.
  - rewrite at_insert, decide_True by (done || lia). reflexivity.
  - rewrite take_insert_ge, Hp by lia. reflexivity.
Qed.

Lemma str_addn_spec s t n :
  str_ok s -> bytes t -> 0 <= n <= Z.of_nat (length t) -> s_len s + n + 1 <= 2 ^ 30 ->
  exists s' k, str_addn s (Some t) n = Some s' /\ str_ok s' /\
    str_val s' = str_val s ++ take k t /\ (k <= Z.to_nat n)%nat /\
    (k = Z.to_nat n \/ refused).
Proof.
  intros Hs Ht Hn Hb. unfold str_addn. bcase.
  { exists s, 0%nat. rewrite take_0, app_nil_r. repeat split; try apply Hs; lia. }
  destruct (str_grow_ok s n) as (s1 & -> & Hs1 & Ev1 & El1 & Hroom); try done; try lia.
  cbn [mbind option_bind].
  destruct (addn_loop_ok (Z.to_nat n) s1 t) as (s2 & -> & Hs2 & Ec2 & Ev2); try done; try lia.
  { apply Hs1. }
  cbn [mbind option_bind].
  destruct (terminate_ok s2 Hs2) as (s3 & E3 & Hs3 & Ev3 & _).
  exists s3, (Nat.min (Z.to_nat n) (Z.to_nat (s_cap s1 - 1 - s_len s1))).
  cbn [mbind option_bind] in E3. rewrite E3. split; [done|]. split; [done|].
  split; [congruence|]. split; [lia|]. destruct Hroom as [?|[_ ?]]; [left; lia|right; done].
Qed.

(** Pushing one byte where there is room. *)
Lemma push_room s c :
  str_buf s -> is_u8 c -> s_len s < s_cap s - 1 ->
  exists s', (p ← store (s_p s) (s_len s) c; p ← store (Some p) (s_len s + 1) 0;
              Some (mkStr (Some p) (s_len s + 1) (s_cap s))) = Some s' /\
    str_ok s' /\ str_val s' = str_val s ++ [c] /\ s_len s' = s_len s + 1 /\ s_cap s' = s_cap s.
Proof.
  intros (b & Hp & Hl & Hlen & Hcap) Hc Hroom.
  rewrite Hp, store_in by lia. cbn [mbind option_bind].
  rewrite store_in by (rewrite length_insert; lia). cbn [mbind option_bind].
  eexists. split; [done|].
  unfold str_ok, str_buf, str_val, str_data. cbn [s_p s_len s_cap default from_option id].
  split; [split|].
  - eexists. split; [done|]. rewrite !length_insert. lia.
  - rewrite at_insert, decide_True by (done || rewrite length_insert; lia). reflexivity.
  - split; [|done]. rewrite take_insert_ge by lia.
    rewrite Z2Nat.inj_add, Nat.add_1_r, take_insert_here by lia.
    rewrite u8_id, Hp by done. reflexivity.
Qed.

Lemma str_addc_spec s c :
  str_ok s -> is_u8 c -> s_len s + 2 <= 2 ^ 30 ->
  exists s', str_addc s c = Some s' /\ str_ok s' /\
    ((str_val s' = str_val s ++ [c] /\ s_len s' = s_len s + 1) \/ (s' = s /\ refused)).
Proof.
  intros Hs Hc Hb. unfold str_addc.
  destruct (str_grow_ok s 1) as (s1 & -> & Hs1 & Ev1 & El1 & Hroom); try done; try lia.
  cbn [mbind option_bind]. bcase.
  - destruct (push_room s1 c) as (s2 & E2 & Hs2 & Ev2 & El2 & _); [apply Hs1|done|done|].
    exists s2. cbn [mbind option_bind] in E2. rewrite E2, Ev2, Ev1, El2, El1. auto.
  - exists s1. split; [done|]. split; [done|]. right. destruct Hroom; [lia|done].
Qed.

(** No allocation is needed while the text fits. *)
Lemma str_addc_room s c :
  str_ok s -> is_u8 c -> s_len s < s_cap s - 1 ->
  exists s', str_addc s c = Some s' /\ str_ok s' /\ str_val s' = str_val s ++ [c] /\
             s_len s' = s_len s + 1 /\ s_cap s' = s_cap s.
Proof.
  intros [Hb _] Hc Hroom. unfold str_addc, str_grow. bcase; [|lia].
  cbn [mbind option_bind]. bcase; [|lia]. by apply push_room.
Qed.

Lemma addc_rev_room s buf :
  str_ok s -> bytes buf -> s_len s + Z.of_nat (length buf) < s_cap s ->
  exists s', addc_rev s buf = Some s' /\ str_ok s' /\ str_val s' = str_val s ++ rev buf /\
             s_len s' = s_len s + Z.of_nat (length buf) /\ s_cap s' = s_cap s.
Proof.
  intros Hs. induction buf as [|c buf IH]; intros Hb Hroom; cbn [addc_rev rev length] in *.
  - exists s. rewrite app_nil_r. repeat split; try apply Hs; lia.
  - apply Forall_cons in Hb as [Hc Hb].
    destruct IH as (s1 & -> & Hs1 & Ev1 & El1 & Ec1); [done|lia|]. cbn [mbind option_bind].
    destruct (str_addc_room s1 c) as (s2 & E2 & Hs2 & Ev2 & El2 & Ec2); [done|done|lia|].
    exists s2. rewrite Ev2, Ev1, <- app_assoc. repeat split; try done; try apply Hs2; lia.
Qed.

Lemma str_reset_ok s :
  str_ok s -> exists s', str_reset s = Some s' /\ str_ok s' /\ str_val s' = [] /\
                         s_len s' = 0 /\ s_cap s' = s_cap s.
Proof.
  intros [(b & Hp & Hl & Hlen & Hcap) _]. unfold str_reset. rewrite Hp, store_in by lia.
  cbn [mbind option_bind]. eexists. split; [done|].
  unfold str_ok, str_buf, str_val, str_data. cbn [s_p s_len s_cap default from_option id].
  split; [split|done].
  - eexists. split; [done|]. rewrite length_insert. lia.
  - rewrite at_insert, decide_True by (done || lia). reflexivity.
Qed.

End StringProofs.

(** ** Decimal numbers *)

(** The decimal text of a number, as [sh_utoa] and [sh_itoa] mean to write it. *)
Definition dec (m : Z) : list Z := if m =? 0 then [48] else rev (utoa_digits 31 m).
Definition itoa (v : Z) : list Z := if v <? 0 then 45 :: dec (- v) else dec v.

Definition dec_val (a : Z) (ds : list Z) : Z := fold_left (fun a c => a * 10 + (c - 48)) ds a.

Lemma utoa_digits_digit k v : 0 <= v -> Forall (fun c => 48 <= c <= 57) (utoa_digits k v).
Proof.
  revert v; induction k as [|k IH]; intros v Hv; cbn [utoa_digits]; [constructor|].
  bcase; [|constructor]. constructor; [|apply IH; apply Z.div_pos; lia].
  pose proof (Z.mod_pos_bound v 10). rewrite u8_id by (unfold is_u8; lia). lia.
Qed.

Lemma utoa_digits_val k v :
  0 <= v < 10 ^ Z.of_nat k -> dec_val 0 (rev (utoa_digits k v)) = v.
Proof.
  unfold dec_val. revert v; induction k as [|k IH]; intros v Hv; cbn [utoa_digits].
  { change (10 ^ Z.of_nat 0) with 1 in Hv. cbn. lia. }
  bcase; [|cbn; lia]. cbn [rev]. rewrite fold_left_app.
  pose proof (Z.mod_pos_bound v 10). pose proof (Z_div_mod_eq_full v 10).
  rewrite IH.
  - rewrite u8_id by (unfold is_u8; lia). cbn. lia.
  - rewrite Nat2Z.inj_succ, Z.pow_succ_r in Hv by lia.
    split; [apply Z.div_pos; lia|]. apply Z.div_lt_upper_bound; lia.
Qed.

Lemma utoa_digits_len k v j :
  0 <= v < 10 ^ Z.of_nat j -> (length (utoa_digits k v) <= j)%nat.
Proof.
  revert v j; induction k as [|k IH]; intros v j Hv; cbn [utoa_digits]; [simpl; lia|].
  bcase; [|simpl; lia]. destruct j as [|j]; [change (10 ^ Z.of_nat 0) with 1 in Hv; lia|].
  cbn [length]. apply le_n_S, IH. rewrite Nat2Z.inj_succ, Z.pow_succ_r in Hv by lia.
  split; [apply Z.div_pos; lia|]. apply Z.div_lt_upper_bound; lia.
Qed.

Lemma utoa_digits_nonempty k v : 0 < v -> (1 <= length (utoa_digits (S k) v))%nat.
Proof. intros Hv. cbn [utoa_digits]. bcase; [cbn [length]; lia|lia]. Qed.

Lemma dec_digits m : 0 <= m -> Forall (fun c => 48 <= c <= 57) (dec m).
Proof.
  intros Hm. unfold dec. bcase; [repeat constructor; lia|].
  apply Forall_rev, utoa_digits_digit. done.
Qed.

Lemma dec_value m : 0 <= m < 10 ^ 31 -> dec_val 0 (dec m) = m.
Proof.
  intros Hm. unfold dec. bcase; [subst; reflexivity|].
  apply (utoa_digits_val 31). exact Hm.
Qed.

Lemma dec_len m : 0 <= m < 2 ^ 32 -> (1 <= length (dec m) <= 10)%nat.
Proof.
  intros Hm. unfold dec. bcase; [simpl; lia|]. rewrite length_rev. split.
  - apply utoa_digits_nonempty. lia.
  - apply utoa_digits_len. change (10 ^ Z.of_nat 10) with 10000000000. lia.
Qed.

(** No leading zero. *)
Lemma utoa_digits_last k v :
  0 < v < 10 ^ Z.of_nat k -> List.last (utoa_digits k v) 0 <> 48.
Proof.
  revert v; induction k as [|k IH]; intros v Hv; [change (10 ^ Z.of_nat 0) with 1 in Hv; lia|].
  cbn [utoa_digits]. bcase; [|lia]. rewrite Nat2Z.inj_succ, Z.pow_succ_r in Hv by lia.
  pose proof (Z.mod_pos_bound v 10). pose proof (Z_div_mod_eq_full v 10).
  destruct (Z.eqb_spec (v / 10) 0) as [E0|E0].
  - rewrite E0. destruct k; cbn [utoa_digits]; cbn; rewrite u8_id by (unfold is_u8; lia); lia.
  - assert (0 < v / 10 < 10 ^ Z.of_nat k) as Hq.
    { assert (0 <= v / 10) by (apply Z.div_pos; lia). split; [lia|]. apply Z.div_lt_upper_bound; lia. }
    specialize (IH _ Hq). cbn [List.last].
    destruct (utoa_digits k (v / 10)) eqn:Eu; [|exact IH].
    destruct k; [change (10 ^ Z.of_nat 0) with 1 in Hq; lia|].
    pose proof (utoa_digits_nonempty k (v / 10) ltac:(lia)) as HL. rewrite Eu in HL. simpl in HL. lia.
Qed.

Lemma dec_nonzero m : 0 < m < 10 ^ 31 -> nth 0 (dec m) 0 <> 48.
Proof.
  intros Hm. unfold dec. bcase; [lia|].
  pose proof (utoa_digits_last 31 m Hm) as HL. revert HL.
  generalize (utoa_digits 31 m). intros l HL.
  destruct l as [|c l] using rev_ind; [done|]. rewrite rev_app_distr. rewrite List.last_last in HL. simpl. exact HL.
Qed.

Lemma dec_val_mod a b ds :
  a mod 2 ^ 32 = b mod 2 ^ 32 -> dec_val a ds mod 2 ^ 32 = dec_val b ds mod 2 ^ 32.
Proof.
  unfold dec_val. revert a b; induction ds as [|c ds IH]; intros a b E; [done|].
  cbn [fold_left]. apply IH.
  rewrite <- (Z.add_mod_idemp_l (a * 10)), <- (Z.add_mod_idemp_l (b * 10)) by lia.
  rewrite <- (Z.mul_mod_idemp_l a), <- (Z.mul_mod_idemp_l b) by lia. rewrite E. reflexivity.
Qed.

(** The accumulating digit loop computes the decimal value modulo 2^32. *)
Lemma digits_loop_val a ds rest :
  is_s32 a -> Forall (fun c => 48 <= c <= 57) ds -> is_digit (ch rest) = false ->
  digits_loop a (ds ++ rest) = s32 (dec_val a ds).
Proof.
  revert a; induction ds as [|c ds IH]; intros a Ha Hd Hr.
  - cbn [app dec_val fold_left]. unfold dec_val. cbn. rewrite s32_id by done.
    destruct rest as [|c rest]; [done|]. cbn [digits_loop].
    change (ch (c :: rest)) with c in Hr. rewrite Hr. done.
  - apply Forall_cons in Hd as [Hc Hd]. cbn [app digits_loop].
    assert (is_digit c = true) as -> by (unfold is_digit; lia).
    rewrite IH by (done || apply s32_range).
    apply s32_eq_mod. unfold dec_val. cbn [fold_left]. apply (dec_val_mod _ _ ds).
    rewrite s32_mod, <- Zplus_mod_idemp_l, s32_mod, Zplus_mod_idemp_l. done.
Qed.

Lemma digits_loop_dec m : 0 <= m < 2 ^ 32 -> digits_loop 0 (dec m) = s32 m.
Proof.
  intros Hm. rewrite <- (app_nil_r (dec m)).
  rewrite digits_loop_val; [|unfold is_s32; lia|apply dec_digits; lia|done].
  rewrite dec_value by lia. done.
Qed.

Lemma skip_blanks_id s : ch s <> 32 -> ch s <> 9 -> skip_blanks s = s.
Proof.
  destruct s as [|c s]; [done|]. change (ch (c :: s)) with c. intros. cbn. bcase; [|done].
  apply orb_true_iff in E as [E|E]; bprop; lia.
Qed.

Lemma dec_head m : 0 <= m < 2 ^ 32 -> 48 <= ch (dec m) <= 57.
Proof.
  intros Hm. pose proof (dec_digits m ltac:(lia)) as Hd. pose proof (dec_len m Hm) as Hl.
  destruct (dec m) as [|c ds]; [simpl in Hl; lia|]. apply Forall_cons in Hd as [Hc _]. exact Hc.
Qed.

Lemma sh_atol_itoa v : is_s32 v -> sh_atol (Some (itoa v)) = v.
Proof.
  unfold is_s32. intros Hv. unfold sh_atol, itoa. bcase.
  - rewrite skip_blanks_id by done. unfold take_sign. change (ch (45 :: dec (- v))) with 45.
    cbn [Z.eqb Pos.eqb tail]. rewrite digits_loop_dec by lia.
    rewrite <- (s32_id v) at 2 by done. apply s32_eq_mod.
    replace (-1 * s32 (- v)) with (0 - s32 (- v)) by lia.
    rewrite <- Zminus_mod_idemp_r, s32_mod, Zminus_mod_idemp_r. f_equal. lia.
  - pose proof (dec_head v ltac:(lia)). rewrite skip_blanks_id by lia.
    unfold take_sign. bcase; [lia|]. bcase; [lia|].
    rewrite digits_loop_dec, Z.mul_1_l by lia. rewrite !s32_id; auto using s32_range.
Qed.

Lemma shift_up_spec b i :
  (i < length b)%nat -> bytes (take i b) ->
  shift_up b i = Some (ch b :: take i b ++ drop (S i) b).
Proof.
  revert b; induction i as [|i IH]; intros b Hi Hb.
  - cbn. destruct b as [|c b]; [simpl in Hi; lia|]. reflexivity.
  - cbn [shift_up]. rewrite store_in by lia. cbn [mbind option_bind]. rewrite Nat2Z.id.
    assert (b !! i = Some (at_ b i)) as Hbi by (apply lookup_at; lia).
    rewrite (take_S_r _ _ _ Hbi) in Hb |- *. apply Forall_app in Hb as [Hb Hx].
    apply Forall_cons in Hx as [Hx _].
    rewrite IH.
    2: rewrite length_insert; lia.
    2: rewrite take_insert_ge by lia; done.
    rewrite take_insert_ge by lia. rewrite u8_id by done. rewrite at_insert by lia.
    rewrite decide_False by lia. rewrite <- app_assoc. do 3 f_equal.
    rewrite (drop_S _ (at_ b i)) by (apply list_lookup_insert_eq; lia).
    rewrite drop_insert_lt by lia. done.
Qed.

Section NumberProofs.
Context `{Allocator}.

Lemma sh_utoa_spec m out :
  str_ok out -> 0 <= m < 2 ^ 32 ->
  exists out', sh_utoa m out = Some out' /\ str_ok out' /\ str_val out' = dec m /\
               s_cap out' = s_cap out /\ s_len out' = Z.of_nat (length (dec m)).
Proof.
  intros Hok Hm. unfold sh_utoa.
  destruct (str_reset_ok out Hok) as (o1 & -> & Ho1 & Ev1 & El1 & Ec1). cbn [mbind option_bind].
  assert (32 <= s_cap out) as Hc32 by (destruct Hok as [(b & ? & ? & ? & ?) _]; lia).
  pose proof (dec_len m Hm) as HL. unfold dec in *. bcase.
  - destruct (str_addc_room o1 48) as (o2 & E2 & Ho2 & Ev2 & El2 & Ec2); auto;
      [unfold is_u8; lia|lia|].
    exists o2. rewrite E2, Ev2, Ev1. repeat split; try apply Ho2; simpl; lia.
  - rewrite length_rev in *.
    destruct (addc_rev_room o1 (utoa_digits 31 m)) as (o2 & E2 & Ho2 & Ev2 & El2 & Ec2); auto; [|lia|].
    { eapply Forall_impl; [apply utoa_digits_digit; lia|]. unfold is_u8. simpl. lia. }
    exists o2. rewrite E2, Ev2, Ev1. repeat split; try apply Ho2; lia.
Qed.

Lemma sh_itoa_spec v out :
  str_ok out -> is_s32 v ->
  exists out', sh_itoa v out = Some out' /\ str_ok out' /\ str_val out' = itoa v.
Proof.
  intros Hok Hv. unfold is_s32 in Hv. unfold sh_itoa, itoa.
  replace (if v <? 0 then _ else u32 v) with (Z.abs v).
  2:{ bcase; [|rewrite u32_id; unfold is_u32; lia].
      rewrite (s32_id (v + 1)), s32_id by (unfold is_s32; lia).
      rewrite (u32_id (- (v + 1))), u32_id by (unfold is_u32; lia). lia. }
  destruct (sh_utoa_spec (Z.abs v) out Hok) as (o1 & -> & Ho1 & Ev1 & Ec1 & El1); [lia|].
  cbn [mbind option_bind]. pose proof (dec_len (Z.abs v) ltac:(lia)) as HL.
  destruct (v <? 0) eqn:E; cbn [negb]; bprop.
  2:{ exists o1. rewrite Z.abs_eq in Ev1 by lia. auto. }
  assert (32 <= s_cap out) as Hc32 by (destruct Hok as [(b & ? & ? & ? & ?) _]; lia).
  destruct (str_addc_room o1 32) as (o2 & -> & Ho2 & Ev2 & El2 & Ec2); auto; [unfold is_u8; lia|lia|].
  cbn [mbind option_bind]. destruct Ho2 as [(b & Hp & Hl & Hlen & Hcap) H0].
  rewrite Ev1 in Ev2. unfold str_val, str_data in Ev2. rewrite Hp in Ev2.
  cbn [default from_option id] in Ev2.
  assert (take (Z.to_nat (s_len o2 - 1)) b = dec (Z.abs v)) as Ht.
  { rewrite El2, El1. replace (Z.to_nat _) with (length (dec (Z.abs v))) by lia.
    apply (f_equal (take (length (dec (Z.abs v))))) in Ev2.
    rewrite take_app_length, take_take in Ev2.
    rewrite <- Ev2 at 2. f_equal. lia. }
  rewrite Hp. rewrite shift_up_spec; [|lia|].
  2:{ rewrite Ht. eapply Forall_impl; [apply dec_digits; lia|]. unfold is_u8. simpl. lia. }
  cbn [mbind option_bind].
  set (b' := _ :: _). assert (length b' = Z.to_nat (s_cap o2)) as Hb'.
  { unfold b'. cbn [length]. rewrite length_app, length_take, length_drop. lia. }
  rewrite store_in by lia. cbn [mbind option_bind]. eexists. split; [done|].
  unfold str_ok, str_buf, str_val, str_data in *. rewrite Hp in H0.
  cbn [s_p s_len s_cap default from_option id] in *.
  split; [split|].
  - eexists. split; [done|]. rewrite length_insert. lia.
  - rewrite at_insert, decide_False by lia. unfold b'.
    replace (Z.to_nat (s_len o2)) with (S (Z.to_nat (s_len o2 - 1))) by lia.
    rewrite at_cons_S, at_app_r by (rewrite length_take; lia). rewrite at_drop.
    rewrite length_take. etrans; [|exact H0]. f_equal. lia.
  - unfold b'. rewrite Ht. change (Z.to_nat 0) with 0%nat. cbn [insert list_insert].
    replace (Z.to_nat (s_len o2)) with (S (length (dec (Z.abs v)))) by lia.
    cbn [take]. rewrite take_app_length. rewrite Z.abs_neq by lia. reflexivity.
Qed.

(** printing and reading back: for every 32-bit value (the most negative
    one included), [sh_itoa] writes without allocating into any live string,
    keeps it well formed, and [sh_atol] reads the same value back. *)
Theorem itoa_atol_roundtrip v out :
  str_ok out -> is_s32 v ->
  exists out', sh_itoa v out = Some out' /\ str_ok out' /\ sh_atol (Some (str_val out')) = v.
Proof.
  intros Hok Hv. destruct (sh_itoa_spec v out Hok Hv) as (o & E & Ho & Ev).
  exists o. rewrite Ev. auto using sh_atol_itoa.
Qed.

End NumberProofs.

(** ** Building text *)

Section AppendProofs.
Context `{Allocator}.

Lemma str_init_ok s : str_init = Some s -> str_ok s /\ str_val s = [] \/ (s = mkStr None 0 32 /\ refused).
Proof.
  unfold str_init. destruct (alloc 32) as [b|] eqn:Ea.
  - pose proof (alloc_length _ _ Ea) as Hl. rewrite store_in by lia. cbn [mbind option_bind].
    intros [= <-]. left. unfold str_ok, str_buf, str_val, str_data.
    cbn [s_p s_len s_cap default from_option id]. repeat split.
    + eexists. split; [done|]. rewrite length_insert. lia.
    + rewrite at_insert, decide_True by (done || lia). reflexivity.
  - intros [= <-]. right. split; [done|eexists; eauto].
Qed.

(** [str_adds] never writes outside the buffer and keeps the string
    NUL-terminated; it appends the whole text unless the allocator refused to
    grow the buffer, in which case it appends as much as fits. *)
Theorem str_adds_appends s t :
  str_ok s -> cstring t -> s_len s + Z.of_nat (length t) + 1 <= 2 ^ 30 ->
  exists s' k, str_adds s (Some t) = Some s' /\ str_ok s' /\
    str_val s' = str_val s ++ take k t /\ (k = length t \/ refused).
Proof.
  intros Hs Ht Hb. unfold str_adds. rewrite strlen_length by done.
  assert (0 <= s_len s) by (destruct Hs as [(b & ? & ? & ? & ?) _]; lia).
  rewrite s32_id by (unfold is_s32; lia).
  destruct (str_addn_spec s t (Z.of_nat (length t))) as (s' & k & E & Hs' & Ev & Hk & Hr);
    try done; try lia; try by apply cstring_bytes.
  exists s', k. repeat split; try done; try apply Hs'. destruct Hr; [left; lia|right; done].
Qed.

(** Pushing on a vector keeps the earlier elements and appends the new one,
    unless the allocator refused, when the vector is unchanged. *)
Definition vec_ok {A} (v : Vec A) : Prop :=
  v_n v = Z.of_nat (length (default [] (v_v v))) /\ v_n v <= v_cap v /\ v_cap v < 2 ^ 31 /\
  (v_cap v = 0 \/ 8 <= v_cap v).

Lemma vec_cap_ok fuel cap n :
  0 < cap < 2 ^ 31 -> n < 2 ^ 30 -> 2 ^ 30 <= cap * 2 ^ Z.of_nat fuel ->
  exists cap', vec_cap fuel cap n = Some cap' /\ n < cap' /\ cap <= cap' < 2 ^ 31.
Proof.
  revert cap; induction fuel as [|f IH]; intros cap Hc Hw Hf; cbn [vec_cap].
  - change (2 ^ Z.of_nat 0) with 1 in Hf. bcase; [lia|]. exists cap. split; [done|lia].
  - bcase; [|exists cap; split; [done|lia]].
    rewrite s32_id by (unfold is_s32; lia).
    destruct (IH (cap * 2)) as (c' & E' & ? & ?); [lia|lia| |exists c'; split; [done|lia]].
    rewrite Nat2Z.inj_succ, Z.pow_succ_r in Hf by lia. lia.
Qed.

Lemma vec_push_spec {A} (v : Vec A) (p : A) :
  vec_ok v -> v_n v < 2 ^ 30 ->
  exists v', vec_push v p = Some v' /\ vec_ok v' /\
    (default [] (v_v v') = default [] (v_v v) ++ [p] \/ (v' = v /\ refused)).
Proof.
  intros (Hn & Hc & Hm & H8) Hb. unfold vec_push. bcase.
  - destruct (vec_cap_ok 32 (if v_cap v =? 0 then 8 else v_cap v) (v_n v)) as (c & -> & ? & ?);
      [bcase; lia|lia|bcase; lia|].
    cbn [mbind option_bind]. destruct (alloc _) eqn:Ea.
    + eexists. split; [done|]. split; [|left; done]. unfold vec_ok. cbn [v_n v_v v_cap default from_option id].
      rewrite length_app. simpl length. repeat split; try lia. right. revert H1. bcase; lia.
    + exists v. split; [done|]. split; [done|]. right. split; [done|eexists; eauto].
  - eexists. split; [done|]. split; [|left; done]. unfold vec_ok. cbn [v_n v_v v_cap default from_option id].
    rewrite length_app. simpl length. repeat split; try lia.
Qed.

End AppendProofs.

(** [str_init] records a capacity of 32 even when its [malloc] failed, so
    the next [str_addc] writes through the NULL pointer, whatever the byte. *)
Theorem str_init_oom_unsafe :
  exists s, @str_init null_allocator = Some s /\ forall c, @str_addc null_allocator s c = None.
Proof. eexists. split; [reflexivity|]. intros c. reflexivity. Qed.

Lemma live_str : exists s, @str_init zero_allocator = Some s /\ str_ok s.
Proof.
  eexists. split; [reflexivity|].
  destruct (@str_init_ok zero_allocator _ eq_refl) as [[H _]|[H _]]; [exact H|discriminate].
Qed.

Definition str32 : Str := mkStr (Some (replicate 32 0)) 0 32.

Lemma str32_ok : str_ok str32.
Proof.
  split; [|reflexivity]. exists (replicate 32 0). unfold str32. simpl. repeat split; lia.
Qed.

Lemma itoa_atol_roundtrip_witness :
  exists out', @sh_itoa null_allocator (- 2 ^ 31) str32 = Some out' /\ str_ok out' /\
               sh_atol (Some (str_val out')) = - 2 ^ 31.
Proof. apply itoa_atol_roundtrip; [exact str32_ok|unfold is_s32; lia]. Defined.

Lemma str_adds_appends_witness :
  exists s' k, @str_adds zero_allocator str32 (Some (cs "hello")) = Some s' /\ str_ok s' /\
    str_val s' = str_val str32 ++ take k (cs "hello") /\
    (k = length (cs "hello") \/ @refused zero_allocator).
Proof.
  apply str_adds_appends; [exact str32_ok|vm_compute; repeat constructor|vm_compute; discriminate].
Defined.

(** ** Searching *)

Lemma same_at_iff n s off p i :
  same_at n s off p i = true <-> forall j, (i <= j < i + n)%nat -> at_ s (off + j) = at_ p j.
Proof.
  revert i; induction n as [|n IH]; intros i; cbn [same_at].
  - split; [lia|done].
  - destruct (negb _) eqn:E; bprop.
    + split; [done|]. intros Hj. exfalso. apply E. apply Hj. lia.
    + rewrite IH. split; intros Hj j Hr; [|apply Hj; lia].
      destruct (decide (i = j)); [subst; done|]. apply Hj. lia.
Qed.

Lemma same_at_prefix s off p :
  (off + length p <= length s)%nat ->
  same_at (length p) s off p 0 = true <-> p `prefix_of` drop off s.
Proof.
  intros Hl. rewrite same_at_iff. split.
  - intros Hj. exists (drop (length p) (drop off s)).
    rewrite <- (take_drop (length p) (drop off s)) at 1. f_equal.
    apply list_eq_at; rewrite length_take, length_drop; [lia|].
    intros i Hi. rewrite at_take, at_drop by lia. apply Hj. lia.
  - intros [r Hr] j Hj. rewrite <- at_drop, Hr. apply at_app_l. lia.
Qed.

Lemma find_here_prefix t p : find_here t p = true <-> p `prefix_of` t.
Proof.
  revert t; induction p as [|c p IH]; intros t; cbn [find_here].
  - split; [intros _; apply prefix_nil|done].
  - destruct t as [|d t]; [split; [done|intros [r Hr]; discriminate]|].
    bcase; subst.
    + rewrite IH. split; [apply prefix_cons|apply prefix_cons_inv_2].
    + split; [done|]. intros Hp. apply prefix_cons_inv_1 in Hp. congruence.
Qed.

(** [p] occurs in [s] after [pre]. *)
Definition occurs (p s pre t : list Z) : Prop := s = pre ++ t /\ p `prefix_of` t.

Lemma find_from_spec p s :
  p <> [] ->
  match find_from s p with
  | Some t => exists pre, occurs p s pre t /\
                forall pre' t', occurs p s pre' t' -> (length pre <= length pre')%nat
  | None => forall pre t, ~ occurs p s pre t
  end.
Proof.
  intros Hp. induction s as [|c s IH]; cbn [find_from].
  - intros pre t [Hs [r ->]]. destruct pre, p; done.
  - destruct (find_here (c :: s) p) eqn:E.
    + exists []. split; [split; [done|by apply find_here_prefix]|]. simpl. lia.
    + assert (forall t, ~ occurs p (c :: s) [] t) as Hno.
      { intros t [Ht Hpre]. simpl in Ht. subst t. apply find_here_prefix in Hpre. congruence. }
      destruct (find_from s p) as [t|].
      * destruct IH as (pre & [Hs Hpre] & Hmin). exists (c :: pre). split; [by split; [subst|]|].
        intros [|c' pre'] t' Hocc; [by apply Hno in Hocc|].
        destruct Hocc as [Hs' Hp']. simplify_list_eq. apply le_n_S. eapply Hmin. split; eauto.
      * intros [|c' pre] t Hocc; [by apply Hno in Hocc|].
        destruct Hocc as [Hs' Hp']. simplify_list_eq. eapply IH. split; eauto.
Qed.

Lemma rfind_from_spec p s i1 :
  (i1 + length p <= S (length s))%nat ->
  match rfind_from s p (length p) i1 with
  | Some t => exists pre, occurs p s pre t /\ (length pre < i1)%nat /\
                forall pre' t', occurs p s pre' t' -> (length pre' < i1)%nat ->
                                (length pre' <= length pre)%nat
  | None => forall pre t, occurs p s pre t -> (i1 <= length pre)%nat
  end.
Proof.
  induction i1 as [|i IH]; intros Hi; cbn [rfind_from].
  - intros; lia.
  - destruct (same_at (length p) s i p 0) eqn:E.
    + apply same_at_prefix in E; [|lia]. exists (take i s). rewrite length_take.
      split; [split; [by rewrite take_drop|done]|]. split; [lia|intros; lia].
    + assert (forall pre t, occurs p s pre t -> length pre <> i) as Hno.
      { intros pre t [Hs Hp] <-.
        assert (same_at (length p) s (length pre) p 0 = true); [|congruence].
        apply same_at_prefix; [lia|]. rewrite Hs, drop_app_length. done. }
      specialize (IH ltac:(lia)). destruct (rfind_from s p (length p) i) as [t|].
      * destruct IH as (pre & Hocc & Hlt & Hmax). exists pre. split; [done|]. split; [lia|].
        intros pre' t' Ho' Hl'. pose proof (Hno _ _ Ho'). eapply Hmax; eauto. lia.
      * intros pre t Ho. pose proof (Hno _ _ Ho). specialize (IH _ _ Ho). lia.
Qed.

(** [sh_find] returns the leftmost occurrence of a non-empty pattern and
    [sh_rfind] the rightmost; both return NULL exactly when there is none. *)
Theorem sh_find_rfind_extremal s p :
  cstring s -> cstring p -> p <> [] ->
  match sh_find (Some s) (Some p), sh_rfind (Some s) (Some p) with
  | Some t, Some t' =>
      exists pre pre', occurs p s pre t /\ occurs p s pre' t' /\
        forall q u, occurs p s q u -> (length pre <= length q <= length pre')%nat
  | None, None => forall pre t, ~ occurs p s pre t
  | _, _ => False
  end.
Proof.
  intros Hs Hp Hne. unfold sh_find, sh_rfind.
  destruct (Z.eqb_spec (ch p) 0) as [E|_]; [by apply ch_cstring in E|].
  rewrite !strlen_length, Nat2Z.id by done.
  pose proof (find_from_spec p s Hne) as HF.
  assert (forall pre t, occurs p s pre t -> (length pre + length p <= length s)%nat) as Hfit.
  { intros pre t [-> [r ->]]. rewrite !length_app. lia. }
  bcase.
  - destruct (find_from s p) as [t|]; [|done].
    destruct HF as (pre & Ho & _). apply Hfit in Ho. lia.
  - replace (Z.to_nat _) with (S (length s - length p)) by lia.
    pose proof (rfind_from_spec p s (S (length s - length p)) ltac:(lia)) as HR.
    destruct (find_from s p) as [t|].
    + destruct HF as (pre & Ho & Hmin).
      destruct (rfind_from _ _ _ _) as [t'|].
      * destruct HR as (pre' & Ho' & _ & Hmax). exists pre, pre'. split; [done|]. split; [done|].
        intros q u Hq. split; [eauto|]. eapply Hmax; eauto. apply Hfit in Hq. lia.
      * pose proof (Hfit _ _ Ho). apply HR in Ho. lia.
    + destruct (rfind_from _ _ _ _) as [t'|]; [|done].
      destruct HR as (pre' & Ho' & _). exact (HF _ _ Ho').
Qed.

Lemma sh_find_rfind_extremal_witness :
  sh_find (Some (cs "a/b/c")) (Some (cs "/")) = Some (cs "/b/c") /\
  match sh_find (Some (cs "a/b/c")) (Some (cs "/")), sh_rfind (Some (cs "a/b/c")) (Some (cs "/")) with
  | Some t, Some t' =>
      exists pre pre', occurs (cs "/") (cs "a/b/c") pre t /\ occurs (cs "/") (cs "a/b/c") pre' t' /\
        forall q u, occurs (cs "/") (cs "a/b/c") q u -> (length pre <= length q <= length pre')%nat
  | None, None => forall pre t, ~ occurs (cs "/") (cs "a/b/c") pre t
  | _, _ => False
  end.
Proof.
  split; [reflexivity|].
  apply (sh_find_rfind_extremal (cs "a/b/c") (cs "/"));
    [vm_compute; repeat constructor|vm_compute; repeat constructor|discriminate].
Defined.
