(* ===== verification/FnMatch.v ===== *)
(** vash's pattern matcher ([vnu/userspace/vash/fnmatch.c]) and its
    equivalence with a declarative semantics of shell patterns.

    [match_here] recurses on a shorter pattern only, so the length of the
    pattern is enough fuel; [sh_pattern] passes that. *)
From S2P Require Import Prelude CString StrBuf.

Definition SH_LINE_MAX : nat := 1024.

(** The member loop of [match_bracket]: the remaining pattern and whether a
    member matched.  [c >= p[0] && c <= p[2]] compares signed [char]s. *)
Fixpoint bracket_loop (fuel : nat) (p : list Z) (c : Z) (first hit : bool) : list Z * bool :=
  match fuel with
  | O => (p, hit)
  | S f =>
      if negb (ch p =? 0) && (negb (ch p =? chr "]") || first) then
        if (at_ p 1 =? chr "-") && negb (at_ p 2 =? 0) && negb (at_ p 2 =? chr "]") then
          bracket_loop f (drop 3 p) c false
            (hit || (schar (at_ p 0) <=? schar c) && (schar c <=? schar (at_ p 2)))
        else if (ch p =? 92) && negb (at_ p 1 =? 0) then
          bracket_loop f (drop 2 p) c false (hit || (at_ p 1 =? c))
        else
          bracket_loop f (drop 1 p) c false (hit || (ch p =? c))
      else (p, hit)
  end.

(** [pat] points at ['[']; the result is the pattern behind the bracket and
    whether [c] is in it. *)
Definition match_bracket (pat : list Z) (c : Z) : list Z * bool :=
  let p := tail pat in
  let neg := (ch p =? chr "!") || (ch p =? chr "^") in
  let p := if neg then tail p else p in
  let '(p, hit) := bracket_loop (length p) p c true false in
  let p := if ch p =? chr "]" then tail p else p in
  (p, if neg then negb hit else hit).

Fixpoint match_here (fuel : nat) (pat str : list Z) : bool :=
  match fuel with
  | O => false
  | S f =>
      if ch pat =? 0 then ch str =? 0
      else if ch pat =? chr "*" then
        let pat := tail pat in
        if ch pat =? 0 then true
        else
          (fix try_each (s : list Z) : bool :=
             if match_here f pat s then true
             else match s with
                  | [] => false
                  | _ :: s' => try_each s'
                  end) str
      else if ch str =? 0 then false
      else if ch pat =? chr "?" then match_here f (tail pat) (tail str)
      else if ch pat =? chr "[" then
        let '(p, hit) := match_bracket pat (ch str) in
        if hit then match_here f p (tail str) else false
      else if (ch pat =? 92) && negb (at_ pat 1 =? 0) then
        if at_ pat 1 =? ch str then match_here f (drop 2 pat) (tail str) else false
      else if ch pat =? ch str then match_here f (tail pat) (tail str)
      else false
  end.

Definition sh_pattern (pat str : list Z) : bool := match_here (S (length pat)) pat str.

(** ** Prefix and suffix removal *)

(** The [take] loop of [sh_strip_prefix]; the result is the text left in
    [out], cut to [outn - 1] bytes. *)
Fixpoint strip_prefix_loop (fuel : nat) (str pat : list Z) (slen tk : Z) (longest : bool)
    (outn : Z) : option (list Z) :=
  match fuel with
  | O => None
  | S f =>
      if (tk <? 0) || (slen <? tk) then None
      else
        let next := tk + (if longest then -1 else 1) in
        if Z.of_nat SH_LINE_MAX <=? tk then strip_prefix_loop f str pat slen next longest outn
        else
          let head := take (Z.to_nat tk) str in
          if sh_pattern pat head then
            let n := slen - tk in
            let n := if outn - 1 <? n then outn - 1 else n in
            Some (take (Z.to_nat n) (drop (Z.to_nat tk) str))
          else strip_prefix_loop f str pat slen next longest outn
  end.

Definition sh_strip_prefix (str pat : list Z) (longest : bool) (outn : Z) : option (list Z) :=
  let slen := strlen str in
  strip_prefix_loop (S (S (length str))) str pat slen (if longest then slen else 0) longest outn.

Fixpoint strip_suffix_loop (fuel : nat) (str pat : list Z) (slen tk : Z) (longest : bool)
    (outn : Z) : option (list Z) :=
  match fuel with
  | O => None
  | S f =>
      if (tk <? 0) || (slen <? tk) then None
      else
        let next := tk + (if longest then 1 else -1) in
        let n := slen - tk in
        let n := if Z.of_nat SH_LINE_MAX - 1 <? n then Z.of_nat SH_LINE_MAX - 1 else n in
        let tl := take (Z.to_nat n) (drop (Z.to_nat tk) str) in
        if sh_pattern pat tl then
          let keep := if outn - 1 <? tk then outn - 1 else tk in
          Some (take (Z.to_nat keep) str)
        else strip_suffix_loop f str pat slen next longest outn
  end.

Definition sh_strip_suffix (str pat : list Z) (longest : bool) (outn : Z) : option (list Z) :=
  let slen := strlen str in
  strip_suffix_loop (S (S (length str))) str pat slen (if longest then 0 else slen) longest outn.

(** ** Substring search *)

Fixpoint has_glob (p : list Z) : bool :=
  match p with
  | [] => false
  | c :: p1 =>
      match p1 with
      | _ :: p2 =>
          if c =? 92 then has_glob p2
          else if (c =? chr "*") || (c =? chr "?") || (c =? chr "[") then true
          else has_glob p1
      | [] => (c =? chr "*") || (c =? chr "?") || (c =? chr "[")
      end
  end.

(** [for (i = from; i <= slen - plen; ++i) if (sh_starts(str + i, pat)) return i;]. *)
Fixpoint literal_scan (fuel : nat) (str pat : list Z) (slen plen i : Z) : Z :=
  match fuel with
  | O => -1
  | S f =>
      if i <=? slen - plen then
        if sh_starts (Some (drop (Z.to_nat i) str)) (Some pat) then i
        else literal_scan f str pat slen plen (i + 1)
      else -1
  end.

(** The inner loop over the length of the candidate. *)
Fixpoint glob_len (fuel : nat) (str pat : list Z) (slen i L : Z) : option Z :=
  match fuel with
  | O => None
  | S f =>
      if (i + L <=? slen) && (L <? Z.of_nat SH_LINE_MAX) then
        if sh_pattern pat (take (Z.to_nat L) (drop (Z.to_nat i) str)) then Some L
        else glob_len f str pat slen i (L + 1)
      else None
  end.

(** Returns the offset (or -1) and [*mlen]. *)
Fixpoint glob_scan (fuel : nat) (str pat : list Z) (slen plen i : Z) : Z * Z :=
  match fuel with
  | O => (-1, plen)
  | S f =>
      if i <=? slen then
        match glob_len (S (length str)) str pat slen i 0 with
        | Some L => (i, L)
        | None => glob_scan f str pat slen plen (i + 1)
        end
      else (-1, plen)
  end.

Definition sh_find_sub (str pat : list Z) (from : Z) : Z * Z :=
  let slen := strlen str in
  let plen := strlen pat in
  if plen =? 0 then (if from <=? slen then from else -1, 0)
  else if negb (has_glob pat) then
    (literal_scan (S (S (length str))) str pat slen plen from, plen)
  else glob_scan (S (S (length str))) str pat slen plen from.

(** * The meaning of a pattern *)

(** A bracket expression's members. *)
Inductive member :=
  | MOne (c : Z)
  | MRange (lo hi : Z).

Definition member_has (c : Z) (m : member) : bool :=
  match m with
  | MOne d => d =? c
  | MRange lo hi => (schar lo <=? schar c) && (schar c <=? schar hi)
  end.

Inductive gitem :=
  | GStar
  | GAny
  | GSet (neg : bool) (ms : list member)
  | GLit (c : Z).

(** The members up to the closing bracket, and the pattern from there. *)
Fixpoint members (fuel : nat) (p : list Z) (first : bool) : list member * list Z :=
  match fuel with
  | O => ([], p)
  | S f =>
      match p with
      | [] => ([], p)
      | x :: _ =>
          if (x =? chr "]") && negb first then ([], p)
          else if (at_ p 1 =? chr "-") && negb (at_ p 2 =? 0) && negb (at_ p 2 =? chr "]") then
            let '(ms, r) := members f (drop 3 p) false in (MRange x (at_ p 2) :: ms, r)
          else if (x =? 92) && negb (at_ p 1 =? 0) then
            let '(ms, r) := members f (drop 2 p) false in (MOne (at_ p 1) :: ms, r)
          else
            let '(ms, r) := members f (drop 1 p) false in (MOne x :: ms, r)
      end
  end.

Definition read_set (p : list Z) : gitem * list Z :=
  let neg := (ch p =? chr "!") || (ch p =? chr "^") in
  let p := if neg then tail p else p in
  let '(ms, r) := members (length p) p true in
  (GSet neg ms, if ch r =? chr "]" then tail r else r).

Fixpoint glob_items (fuel : nat) (pat : list Z) : list gitem :=
  match fuel with
  | O => []
  | S f =>
      match pat with
      | [] => []
      | c :: p =>
          if c =? chr "*" then GStar :: glob_items f p
          else if c =? chr "?" then GAny :: glob_items f p
          else if c =? chr "[" then let '(g, r) := read_set p in g :: glob_items f r
          else if (c =? 92) && negb (at_ p 0 =? 0) then GLit (at_ p 0) :: glob_items f (drop 1 p)
          else GLit c :: glob_items f p
      end
  end.

(** The reference semantics: a star stands for any bytes, the other items for
    exactly one. *)
Inductive gmatch : list gitem -> list Z -> Prop :=
  | gm_nil : gmatch [] []
  | gm_star g s1 s2 : gmatch g s2 -> gmatch (GStar :: g) (s1 ++ s2)
  | gm_any g c s : gmatch g s -> gmatch (GAny :: g) (c :: s)
  | gm_lit g c s : gmatch g s -> gmatch (GLit c :: g) (c :: s)
  | gm_set g neg ms c s :
      existsb (member_has c) ms = negb neg -> gmatch g s -> gmatch (GSet neg ms :: g) (c :: s).

Definition pattern_matches (pat str : list Z) : Prop := gmatch (glob_items (S (length pat)) pat) str.

(** * Properties *)

Lemma cstring_drop n s : cstring s -> cstring (drop n s).
Proof. apply Forall_drop. Qed.

Lemma cstring_take n s : cstring s -> cstring (take n s).
Proof. apply Forall_take. Qed.

Lemma cstring_tail s : cstring s -> cstring (tail s).
Proof. destruct s; [done|]. rewrite cstring_cons. tauto. Qed.

#[export] Hint Resolve cstring_drop cstring_take cstring_tail : vnu.

Lemma members_rest fuel p first : exists n, snd (members fuel p first) = drop n p.
Proof.
  revert p first; induction fuel as [|f IH]; intros p first; cbn [members].
  { exists 0%nat. done. }
  destruct p as [|x p]; [exists 0%nat; done|].
  bcase; [exists 0%nat; done|].
  bcase; [|bcase];
    match goal with |- context [members f ?q false] =>
      destruct (IH q false) as [n Hn]; destruct (members f q false) as [ms r] end;
    cbn [snd] in *; subst r; rewrite drop_drop; eexists; reflexivity.
Qed.

Lemma bracket_loop_members fuel p c first hit :
  cstring p ->
  bracket_loop fuel p c first hit =
    (snd (members fuel p first), hit || existsb (member_has c) (fst (members fuel p first))).
Proof.
  revert p first hit; induction fuel as [|f IH]; intros p first hit Hp; cbn [bracket_loop members].
  { cbn. by rewrite orb_false_r. }
  destruct p as [|x p].
  { rewrite at_nil. cbn. by rewrite orb_false_r. }
  change (ch (x :: p)) with x. assert (0 < x) by (apply cstring_cons in Hp; lia).
  replace (negb (x =? 0)) with true by (symmetry; apply negb_true_iff, Z.eqb_neq; lia).
  replace (negb (x =? chr "]") || first) with (negb ((x =? chr "]") && negb first))
    by (destruct (x =? chr "]"), first; done).
  cbn [andb]. destruct ((x =? chr "]") && negb first); cbn [negb].
  { cbn. by rewrite orb_false_r. }
  bcase; [|bcase];
    rewrite IH by eauto with vnu;
    match goal with |- context [members f ?q false] => destruct (members f q false) as [ms r] end;
    cbn [fst snd existsb member_has]; rewrite orb_assoc; reflexivity.
Qed.

Lemma read_set_rest p : exists n, snd (read_set p) = drop n p.
Proof.
  unfold read_set. set (neg := _ || _). set (q := if neg then _ else _).
  destruct (members_rest (length q) q true) as [n Hn].
  destruct (members (length q) q true) as [ms r]. cbn [snd] in *. subst r.
  assert (exists m, q = drop m p) as [m ->].
  { subst q. destruct neg; [exists 1%nat; destruct p; done|exists 0%nat; reflexivity]. }
  rewrite drop_drop. bcase; [|eexists; reflexivity].
  exists (m + n + 1)%nat. rewrite <- (drop_drop p 1 (m + n)).
  destruct (drop (m + n) p); reflexivity.
Qed.

Lemma match_bracket_spec x p c :
  cstring (x :: p) ->
  match_bracket (x :: p) c =
    (snd (read_set p),
     match fst (read_set p) with
     | GSet neg ms => if neg then negb (existsb (member_has c) ms) else existsb (member_has c) ms
     | _ => false
     end).
Proof.
  intros [_ Hp]%cstring_cons. unfold match_bracket, read_set. cbn [tail].
  set (neg := _ || _). set (q := if neg then _ else _).
  assert (cstring q) by (subst q; destruct neg; eauto with vnu).
  rewrite bracket_loop_members by done.
  destruct (members (length q) q true) as [ms r]. cbn [fst snd orb]. done.
Qed.

Lemma try_each_iff (m : list Z -> bool) str :
  (fix try_each (s : list Z) : bool :=
     if m s then true else match s with [] => false | _ :: s' => try_each s' end) str = true
  <-> exists s1 s2, str = s1 ++ s2 /\ m s2 = true.
Proof.
  induction str as [|c str IH].
  - destruct (m []) eqn:E.
    + split; [intros _; exists [], []; done|done].
    + split; [done|]. intros (s1 & s2 & H & Hm). destruct s1, s2; try done. congruence.
  - destruct (m (c :: str)) eqn:E.
    + split; [intros _; exists [], (c :: str); done|done].
    + rewrite IH. split.
      * intros (s1 & s2 & -> & Hm). exists (c :: s1), s2. done.
      * intros ([|d s1] & s2 & H & Hm); simplify_list_eq; [congruence|eauto].
Qed.

(** Inversion principles of the reference semantics. *)
Lemma gmatch_nil s : gmatch [] s <-> s = [].
Proof. split; [by inversion 1|intros ->; constructor]. Qed.

Lemma gmatch_star g s : gmatch (GStar :: g) s <-> exists s1 s2, s = s1 ++ s2 /\ gmatch g s2.
Proof. split; [inversion 1; subst; eauto|]. intros (s1 & s2 & -> & H). by constructor. Qed.

Lemma gmatch_any g s : gmatch (GAny :: g) s <-> s <> [] /\ gmatch g (tail s).
Proof.
  split; [inversion 1; subst; done|]. destruct s; intros [Hn H]; [done|]. by constructor.
Qed.

Lemma gmatch_lit g c s : gmatch (GLit c :: g) s <-> exists s', s = c :: s' /\ gmatch g s'.
Proof. split; [inversion 1; subst; eauto|]. intros (s' & -> & H). by constructor. Qed.

Lemma gmatch_set g neg ms s :
  gmatch (GSet neg ms :: g) s <->
  exists c s', s = c :: s' /\ existsb (member_has c) ms = negb neg /\ gmatch g s'.
Proof. split; [inversion 1; subst; eauto|]. intros (c & s' & -> & Hm & H). by constructor. Qed.

Lemma match_here_gmatch fuel pat str :
  cstring pat -> cstring str -> (length pat < fuel)%nat ->
  match_here fuel pat str = true <-> gmatch (glob_items fuel pat) str.
Proof.
  revert pat str; induction fuel as [|f IH]; intros pat str Hp Hs Hf; [lia|].
  destruct pat as [|x p]; cbn [match_here glob_items].
  { rewrite at_nil, gmatch_nil. cbn [Z.eqb]. rewrite Z.eqb_eq. by apply ch_cstring. }
  change (ch (x :: p)) with x. cbn [tail length] in *.
  pose proof Hp as [Hx Hp']%cstring_cons.
  destruct (Z.eqb_spec x 0); [lia|].
  destruct (Z.eqb_spec x (chr "*")).
  { rewrite gmatch_star. destruct (Z.eqb_spec (ch p) 0) as [E|E].
    - apply ch_cstring in E; [|done]. subst p. split; [intros _|done].
      exists str, []. rewrite app_nil_r. destruct f; split; try constructor.
    - rewrite try_each_iff. split; intros (s1 & s2 & -> & Hm); exists s1, s2; (split; [done|]);
        apply Forall_app in Hs as [_ Hs2]; apply IH; done || lia. }
  destruct str as [|c s].
  { rewrite at_nil. cbn [Z.eqb]. split; [done|].
    repeat bcase; try (destruct (read_set p) as [g r] eqn:Er;
      assert (exists n m, g = GSet n m) as (? & ? & ->)
        by (revert Er; unfold read_set; destruct (members _ _ _); intros [= <- _]; eauto));
      inversion 1. }
  change (ch (c :: s)) with c. cbn [tail]. pose proof Hs as [Hc Hs']%cstring_cons.
  destruct (Z.eqb_spec c 0); [lia|].
  destruct (Z.eqb_spec x (chr "?")).
  { rewrite gmatch_any, IH by (done || lia). cbn [tail]. split; [intros H; split; done|intros [_ H]; exact H]. }
  destruct (Z.eqb_spec x (chr "[")).
  { rewrite match_bracket_spec by done. destruct (read_set_rest p) as [k Hk].
    destruct (read_set p) as [g r] eqn:Er. cbn [fst snd] in *. subst r.
    assert (exists n m, g = GSet n m) as (neg & ms & ->)
      by (revert Er; unfold read_set; destruct (members _ _ _); intros [= <- _]; eauto).
    rewrite gmatch_set.
    assert (length (drop k p) < f)%nat by (rewrite length_drop; lia).
    destruct neg, (existsb (member_has c) ms) eqn:Em; cbn [negb];
      try (rewrite IH by eauto with vnu);
      split; try done; try (intros; exists c, s; done);
      intros (c' & s' & [= <- <-] & Hm & Hg); congruence || done. }
  rewrite at_cons_S.
  destruct ((x =? 92) && negb (ch p =? 0)) eqn:E.
  { rewrite gmatch_lit. destruct (Z.eqb_spec (ch p) c) as [->|Hne].
    - change (drop 2 (x :: p)) with (drop 1 p).
      rewrite IH by (eauto with vnu; rewrite ?length_drop; lia).
      split; [intros; exists s; done|intros (s' & [= <-] & H); done].
    - split; [done|]. intros (s' & [= -> _] & _). done. }
  rewrite gmatch_lit. destruct (Z.eqb_spec x c) as [->|Hne].
  - rewrite IH by (done || lia). split; [intros; exists s; done|intros (s' & [= <-] & H); done].
  - split; [done|]. intros (s' & [= -> _] & _). done.
Qed.

Lemma sh_pattern_iff pat str :
  cstring pat -> cstring str -> sh_pattern pat str = true <-> pattern_matches pat str.
Proof. intros. apply match_here_gmatch; done || lia. Qed.

(** C32: the matcher decides exactly the declarative meaning of a shell pattern:
    [*] is any text, [?] any byte, a bracket a (negated) set of bytes and
    ranges, [\ ] quotes; nothing else matches and nothing is missed. *)
Theorem sh_pattern_correct pat str :
  cstring pat -> cstring str -> sh_pattern pat str = true <-> pattern_matches pat str.
Proof. apply sh_pattern_iff. Qed.

Lemma sh_pattern_correct_witness :
  sh_pattern (cs "a*[!0-9].?") (cs "ab0x.c") = true /\
  (sh_pattern (cs "a*[!0-9].?") (cs "ab0x.c") = true <->
   pattern_matches (cs "a*[!0-9].?") (cs "ab0x.c")).
Proof.
  split; [reflexivity|].
  apply (sh_pattern_correct (cs "a*[!0-9].?") (cs "ab0x.c")); vm_compute; repeat constructor.
Defined.

(** ** Removing a matched prefix or suffix *)

(** Both strip loops are one scan of the cut points with a step of one. *)
Fixpoint scan (fuel : nat) (test : Z -> bool) (hi tk step : Z) : option Z :=
  match fuel with
  | O => None
  | S f =>
      if (tk <? 0) || (hi <? tk) then None
      else if test tk then Some tk
      else scan f test hi (tk + step) step
  end.

Lemma scan_up test hi fuel tk :
  0 <= tk -> hi - tk + 1 < Z.of_nat fuel ->
  match scan fuel test hi tk 1 with
  | Some k => tk <= k <= hi /\ test k = true /\ forall j, tk <= j <= hi -> test j = true -> k <= j
  | None => forall j, tk <= j <= hi -> test j = false
  end.
Proof.
  revert tk; induction fuel as [|f IH]; intros tk H0 Hf; cbn [scan]; [intros; lia|].
  destruct ((tk <? 0) || (hi <? tk)) eqn:E.
  { apply orb_true_iff in E as [E|E]; bprop; intros; lia. }
  bprop. destruct (test tk) eqn:Et; [split; [lia|]; split; [done|lia]|].
  specialize (IH (tk + 1) ltac:(lia) ltac:(lia)). destruct (scan _ _ _ _ _) as [k|].
  - destruct IH as (? & ? & Hk). split; [lia|]. split; [done|].
    intros j Hj Hjt. apply Hk; [|done]. destruct (decide (j = tk)); [congruence|lia].
  - intros j Hj. destruct (decide (j = tk)); [congruence|]. apply IH. lia.
Qed.

Lemma scan_down test hi fuel tk :
  tk <= hi -> tk + 1 < Z.of_nat fuel ->
  match scan fuel test hi tk (-1) with
  | Some k => 0 <= k <= tk /\ test k = true /\ forall j, 0 <= j <= tk -> test j = true -> j <= k
  | None => forall j, 0 <= j <= tk -> test j = false
  end.
Proof.
  revert tk; induction fuel as [|f IH]; intros tk H0 Hf; cbn [scan]; [intros; lia|].
  destruct ((tk <? 0) || (hi <? tk)) eqn:E.
  { apply orb_true_iff in E as [E|E]; bprop; intros; lia. }
  bprop. destruct (test tk) eqn:Et; [split; [lia|]; split; [done|lia]|].
  specialize (IH (tk + -1) ltac:(lia) ltac:(lia)). destruct (scan _ _ _ _ _) as [k|].
  - destruct IH as (? & ? & Hk). split; [lia|]. split; [done|].
    intros j Hj Hjt. apply Hk; [|done]. destruct (decide (j = tk)); [congruence|lia].
  - intros j Hj. destruct (decide (j = tk)); [congruence|]. apply IH. lia.
Qed.

Definition head_test (str pat : list Z) (k : Z) : bool := sh_pattern pat (take (Z.to_nat k) str).
Definition tail_test (str pat : list Z) (k : Z) : bool := sh_pattern pat (drop (Z.to_nat k) str).

Lemma strip_prefix_scan fuel str pat tk longest outn :
  let slen := Z.of_nat (length str) in
  slen < 1024 -> slen < outn ->
  strip_prefix_loop fuel str pat slen tk longest outn =
    (fun k => drop (Z.to_nat k) str) <$> scan fuel (head_test str pat) slen tk (if longest then -1 else 1).
Proof.
  cbv zeta. intros Hl Ho. revert tk; induction fuel as [|f IH]; intros tk; cbn [strip_prefix_loop scan]; [done|].
  change (Z.of_nat SH_LINE_MAX) with 1024.
  destruct ((tk <? 0) || (Z.of_nat (length str) <? tk)) eqn:E; [done|]. bprop.
  destruct (Z.leb_spec 1024 tk); [lia|]. unfold head_test at 1. bcase.
  - cbn [fmap option_fmap option_map]. f_equal. bcase; [lia|]. apply take_ge.
    rewrite length_drop. lia.
  - destruct longest; apply IH.
Qed.

Lemma strip_suffix_scan fuel str pat tk longest outn :
  let slen := Z.of_nat (length str) in
  slen < 1024 -> slen < outn ->
  strip_suffix_loop fuel str pat slen tk longest outn =
    (fun k => take (Z.to_nat k) str) <$> scan fuel (tail_test str pat) slen tk (if longest then 1 else -1).
Proof.
  cbv zeta. intros Hl Ho. revert tk; induction fuel as [|f IH]; intros tk; cbn [strip_suffix_loop scan]; [done|].
  change (Z.of_nat SH_LINE_MAX) with 1024.
  destruct ((tk <? 0) || (Z.of_nat (length str) <? tk)) eqn:E; [done|]. bprop.
  destruct (Z.ltb_spec (1024 - 1) (Z.of_nat (length str) - tk)); [lia|].
  rewrite take_ge by (rewrite length_drop; lia). unfold tail_test at 1. bcase.
  - cbn [fmap option_fmap option_map]. f_equal. bcase; [lia|]. done.
  - destruct longest; apply IH.
Qed.

(** The extremal cut point: the least or the greatest [k] up to [n] with [P k]. *)
Definition extremal (greatest : bool) (n : nat) (P : nat -> Prop) (k : nat) : Prop :=
  (k <= n)%nat /\ P k /\ forall j, (j <= n)%nat -> P j -> if greatest then (j <= k)%nat else (k <= j)%nat.

Lemma scan_extremal test (P : nat -> Prop) n fuel (greatest : bool) :
  (forall k, (k <= n)%nat -> test (Z.of_nat k) = true <-> P k) -> (n + 1 < fuel)%nat ->
  match scan fuel test (Z.of_nat n) (if greatest then Z.of_nat n else 0) (if greatest then -1 else 1) with
  | Some k => extremal greatest n P (Z.to_nat k)
  | None => forall k, (k <= n)%nat -> ~ P k
  end.
Proof.
  intros HP Hf. destruct greatest.
  - pose proof (scan_down test (Z.of_nat n) fuel (Z.of_nat n) ltac:(lia) ltac:(lia)) as H.
    destruct (scan _ _ _ _ _) as [k|].
    + destruct H as (Hk & Ht & Hm). split; [lia|]. split.
      * apply HP; [lia|]. rewrite Z2Nat.id by lia. done.
      * intros j Hj Pj. apply HP in Pj; [|done]. apply Hm in Pj; lia.
    + intros k Hk Pk. apply HP in Pk; [|done]. rewrite H in Pk by lia. done.
  - pose proof (scan_up test (Z.of_nat n) fuel 0 ltac:(lia) ltac:(lia)) as H.
    destruct (scan _ _ _ _ _) as [k|].
    + destruct H as (Hk & Ht & Hm). split; [lia|]. split.
      * apply HP; [lia|]. rewrite Z2Nat.id by lia. done.
      * intros j Hj Pj. apply HP in Pj; [|done]. apply Hm in Pj; lia.
    + intros k Hk Pk. apply HP in Pk; [|done]. rewrite H in Pk by lia. done.
Qed.

(** for text shorter than a line buffer, the [#] and [##] operators cut
    the shortest and the longest prefix the pattern matches, [%] and [%%] the
    shortest and the longest suffix, and all fail exactly when nothing matches. *)
Theorem sh_strip_extremal str pat longest outn :
  cstring str -> cstring pat -> Z.of_nat (length str) < 1024 -> Z.of_nat (length str) < outn ->
  match sh_strip_prefix str pat longest outn with
  | Some r => exists k, r = drop k str /\
      extremal longest (length str) (fun k => pattern_matches pat (take k str)) k
  | None => forall k, (k <= length str)%nat -> ~ pattern_matches pat (take k str)
  end /\
  match sh_strip_suffix str pat longest outn with
  | Some r => exists k, r = take k str /\
      extremal (negb longest) (length str) (fun k => pattern_matches pat (drop k str)) k
  | None => forall k, (k <= length str)%nat -> ~ pattern_matches pat (drop k str)
  end.
Proof.
  intros Hs Hp Hl Ho. unfold sh_strip_prefix, sh_strip_suffix.
  rewrite strlen_length, strip_prefix_scan, strip_suffix_scan by done. split.
  - pose proof (scan_extremal (head_test str pat) (fun k => pattern_matches pat (take k str))
      (length str) (S (S (length str))) longest) as H.
    destruct longest;
    (destruct (scan _ _ _ _ _) as [k|]; cbn; [eexists; split; [done|]|]; apply H; try lia;
     intros k' _; unfold head_test; rewrite Nat2Z.id; apply sh_pattern_iff; eauto with vnu).
  - pose proof (scan_extremal (tail_test str pat) (fun k => pattern_matches pat (drop k str))
      (length str) (S (S (length str))) (negb longest)) as H.
    destruct longest; cbn [negb] in *;
    (destruct (scan _ _ _ _ _) as [k|]; cbn; [eexists; split; [done|]|]; apply H; try lia;
     intros k' _; unfold tail_test; rewrite Nat2Z.id; apply sh_pattern_iff; eauto with vnu).
Qed.

Lemma sh_strip_extremal_witness :
  let str := cs "a/b/c" in let pat := cs "*/" in
  sh_strip_prefix str pat true 256 = Some (cs "c") /\
  (match sh_strip_prefix str pat true 256 with
   | Some r => exists k, r = drop k str /\
       extremal true (length str) (fun k => pattern_matches pat (take k str)) k
   | None => forall k, (k <= length str)%nat -> ~ pattern_matches pat (take k str)
   end /\
   match sh_strip_suffix str pat true 256 with
   | Some r => exists k, r = take k str /\
       extremal (negb true) (length str) (fun k => pattern_matches pat (drop k str)) k
   | None => forall k, (k <= length str)%nat -> ~ pattern_matches pat (drop k str)
   end).
Proof.
  cbv zeta. split; [reflexivity|].
  apply (sh_strip_extremal (cs "a/b/c") (cs "*/") true 256);
    [vm_compute; repeat constructor|vm_compute; repeat constructor|reflexivity|reflexivity].
Defined.

(** ** Substring search *)

Lemma glob_len_spec fuel str pat i L :
  (i <= length str)%nat -> (length str < 1024)%nat -> (length str - (i + L) < fuel)%nat ->
  cstring str -> cstring pat ->
  match glob_len fuel str pat (Z.of_nat (length str)) (Z.of_nat i) (Z.of_nat L) with
  | Some m => exists n, m = Z.of_nat n /\ (L <= n)%nat /\ (i + n <= length str)%nat /\
      pattern_matches pat (take n (drop i str)) /\
      forall k, (L <= k < n)%nat -> ~ pattern_matches pat (take k (drop i str))
  | None => forall k, (L <= k)%nat -> (i + k <= length str)%nat -> ~ pattern_matches pat (take k (drop i str))
  end.
Proof.
  intros Hi Hl Hf Hs Hp. revert L Hf; induction fuel as [|f IH]; intros L Hf; [lia|].
  cbn [glob_len]. change (Z.of_nat SH_LINE_MAX) with 1024. rewrite !Nat2Z.id.
  destruct (_ && _) eqn:E.
  - bprop. destruct (sh_pattern _ _) eqn:Em.
    + apply sh_pattern_iff in Em; [|done|eauto with vnu]. exists L.
      repeat split; try done; try lia.
    + assert (~ pattern_matches pat (take L (drop i str))) as Hno.
      { intros Hm. apply sh_pattern_iff in Hm; [congruence|done|eauto with vnu]. }
      replace (Z.of_nat L + 1) with (Z.of_nat (S L)) by lia.
      destruct (decide (i + L = length str)%nat) as [He|He].
      * destruct f as [|f]; cbn [glob_len]; [intros k Hk1 Hk2; assert (k = L) as -> by lia; done|].
        destruct (Z.leb_spec (Z.of_nat i + Z.of_nat (S L)) (Z.of_nat (length str))); [lia|].
        cbn [andb]. intros k Hk1 Hk2. assert (k = L) as -> by lia. done.
      * specialize (IH (S L) ltac:(lia)). destruct (glob_len _ _ _ _ _ _) as [m|].
        -- destruct IH as (n & -> & ? & ? & ? & Hk). exists n. repeat split; try done; try lia.
           intros k Hk1. destruct (decide (k = L)) as [->|]; [done|]. apply Hk. lia.
        -- intros k Hk1 Hk2. destruct (decide (k = L)) as [->|]; [done|]. apply IH; lia.
  - apply andb_false_iff in E as [E|E]; bprop; intros; lia.
Qed.

Definition sub_matches (pat str : list Z) (i n : nat) : Prop :=
  (i + n <= length str)%nat /\ pattern_matches pat (take n (drop i str)).

Lemma glob_scan_spec fuel str pat plen i :
  (length str < 1024)%nat -> (length str + 1 - i < fuel)%nat -> cstring str -> cstring pat ->
  match glob_scan fuel str pat (Z.of_nat (length str)) plen (Z.of_nat i) with
  | (r, m) =>
      (r = -1 /\ forall j n, (i <= j)%nat -> ~ sub_matches pat str j n) \/
      exists j n, r = Z.of_nat j /\ m = Z.of_nat n /\ (i <= j)%nat /\ sub_matches pat str j n /\
        (forall j' n', (i <= j' < j)%nat -> ~ sub_matches pat str j' n') /\
        (forall n', (n' < n)%nat -> ~ sub_matches pat str j n')
  end.
Proof.
  intros Hl. revert i; induction fuel as [|f IH]; intros i Hf Hs Hp; [lia|].
  cbn [glob_scan]. bcase.
  - pose proof (glob_len_spec (S (length str)) str pat i 0 ltac:(lia) Hl ltac:(lia) Hs Hp) as HG.
    change (Z.of_nat 0) with 0 in HG.
    destruct (glob_len _ _ _ _ _ _) as [m|].
    + destruct HG as (n & -> & _ & Hfit & Hm & Hmin). right. exists i, n.
      split; [done|]. split; [done|]. split; [lia|]. split; [split; done|]. split.
      * intros; lia.
      * intros n' Hn' [_ Hx]. eapply Hmin; [|exact Hx]. lia.
    + assert (forall n, ~ sub_matches pat str i n) as Hno.
      { intros n [Hfit Hm]. eapply HG; [| |exact Hm]; lia. }
      replace (Z.of_nat i + 1) with (Z.of_nat (S i)) by lia.
      specialize (IH (S i) ltac:(lia) Hs Hp). destruct (glob_scan _ _ _ _ _ _) as [r m].
      destruct IH as [[-> HN]|(j & n & -> & -> & Hj & Hm & Hb & Hmin)].
      * left. split; [done|]. intros j n Hj. destruct (decide (j = i)) as [->|]; [done|]. apply HN. lia.
      * right. exists j, n. repeat split; try done; try lia; try apply Hm.
        intros j' n' Hj'. destruct (decide (j' = i)) as [->|]; [done|]. apply Hb. lia.
  - left. split; [done|]. intros j n Hj [Hfit _]. lia.
Qed.

(** with a pattern that has a wildcard, [sh_find_sub] finds the leftmost
    matching substring at or after [from] and, there, the shortest one; it
    returns -1 exactly when no substring matches. *)
Theorem sh_find_sub_leftmost str pat from :
  cstring str -> cstring pat -> (length str < 1024)%nat -> has_glob pat = true ->
  let '(r, m) := sh_find_sub str pat (Z.of_nat from) in
  (r = -1 /\ forall j n, (from <= j)%nat -> ~ sub_matches pat str j n) \/
  exists j n, r = Z.of_nat j /\ m = Z.of_nat n /\ (from <= j)%nat /\ sub_matches pat str j n /\
    (forall j' n', (from <= j' < j)%nat -> ~ sub_matches pat str j' n') /\
    (forall n', (n' < n)%nat -> ~ sub_matches pat str j n').
Proof.
  intros Hs Hp Hl Hg. unfold sh_find_sub. rewrite !strlen_length by done.
  destruct (Z.eqb_spec (Z.of_nat (length pat)) 0) as [E|_].
  { destruct pat; [discriminate|simpl in E; lia]. }
  rewrite Hg. cbn [negb]. apply glob_scan_spec; done || lia.
Qed.

Lemma sh_find_sub_leftmost_witness :
  let str := cs "xabcab" in let pat := cs "a?" in
  sh_find_sub str pat 2 = (4, 2) /\
  (let '(r, m) := sh_find_sub str pat (Z.of_nat 2) in
   (r = -1 /\ forall j n, (2 <= j)%nat -> ~ sub_matches pat str j n) \/
   exists j n, r = Z.of_nat j /\ m = Z.of_nat n /\ (2 <= j)%nat /\ sub_matches pat str j n /\
     (forall j' n', (2 <= j' < j)%nat -> ~ sub_matches pat str j' n') /\
     (forall n', (n' < n)%nat -> ~ sub_matches pat str j n')).
Proof.
  cbv zeta. split; [reflexivity|].
  apply (sh_find_sub_leftmost (cs "xabcab") (cs "a?") 2);
    [vm_compute; repeat constructor|vm_compute; repeat constructor|simpl; lia|reflexivity].
Defined.

(** a pattern whose only special character is quoted is scanned for
    literally, backslash included: the pattern [\ ][*] matches the text [*]
    but is not found in [a*b]. *)
Theorem sh_find_sub_quoted_missed :
  sh_pattern [92; 42] [42] = true /\ sh_find_sub [97; 42; 98] [92; 42] 0 = (-1, 2).
Proof. split; reflexivity. Qed.
