(* ===== verification/Vars.v ===== *)
(** vash's variables, arrays, environment and functions
    ([vnu/userspace/vash/vars.c]), refined to a finite map.

    The table is the linked list [vars] (newest first) and the [allexport]
    flag.  A [Var*] is the first variable of the list with its name, and a
    write through it updates that entry in place.  [mem] says whether the
    allocations of the call succeed. *)
From stdpp Require Import gmap.
From S2P Require Import Prelude CString StrBuf.

Record AEnt := mkAEnt { a_key : list Z; a_val : list Z }.

Record Var := mkVar {
  v_name : list Z;
  v_val : option (list Z);
  v_exported : bool;
  v_is_array : bool;
  v_is_assoc : bool;
  v_el : list AEnt;       (* el[0 .. nel) *)
  v_cap : Z
}.

Record Vars := mkVars { vars : list Var; allexport : bool }.

(** Field updates. *)
Definition set_val (x : option (list Z)) (v : Var) : Var :=
  mkVar (v_name v) x (v_exported v) (v_is_array v) (v_is_assoc v) (v_el v) (v_cap v).
Definition set_exported (x : bool) (v : Var) : Var :=
  mkVar (v_name v) (v_val v) x (v_is_array v) (v_is_assoc v) (v_el v) (v_cap v).
Definition set_is_array (x : bool) (v : Var) : Var :=
  mkVar (v_name v) (v_val v) (v_exported v) x (v_is_assoc v) (v_el v) (v_cap v).
Definition set_is_assoc (x : bool) (v : Var) : Var :=
  mkVar (v_name v) (v_val v) (v_exported v) (v_is_array v) x (v_el v) (v_cap v).
Definition set_el (x : list AEnt) (c : Z) (v : Var) : Var :=
  mkVar (v_name v) (v_val v) (v_exported v) (v_is_array v) (v_is_assoc v) x c.

Definition same_name (name : list Z) (v : Var) : bool := strcmp (v_name v) name =? 0.

(** A write through the pointer [var_find(name)] returned. *)
Fixpoint upd (name : list Z) (f : Var -> Var) (l : list Var) : list Var :=
  match l with
  | [] => []
  | v :: l' => if same_name name v then f v :: l' else v :: upd name f l'
  end.

Definition on_vars (f : list Var -> list Var) (st : Vars) : Vars :=
  mkVars (f (vars st)) (allexport st).

Definition var_init (st : Vars) : Vars := mkVars [] (allexport st).

Fixpoint find_in (name : list Z) (l : list Var) : option Var :=
  match l with
  | [] => None
  | v :: l' => if same_name name v then Some v else find_in name l'
  end.

Definition var_find (st : Vars) (name : list Z) : option Var := find_in name (vars st).

Section Ops.
Variable mem : bool.

(** [None] is the NULL result; otherwise the table has a variable [name]. *)
Definition var_make (st : Vars) (name : list Z) : option Vars :=
  match var_find st name with
  | Some _ => Some st
  | None =>
      if mem then
        Some (on_vars (cons (mkVar name None (allexport st) false false [] 0)) st)
      else None
  end.

Definition var_get (st : Vars) (name : list Z) : list Z :=
  match var_find st name with
  | Some v => default [] (v_val v)
  | None => []
  end.

Definition var_setn (st : Vars) (name val : list Z) (n : Z) : Vars * Z :=
  match var_make st name with
  | None => (st, -1)
  | Some st =>
      if mem then (on_vars (upd name (set_val (Some (take (Z.to_nat n) val)))) st, 0)
      else (on_vars (upd name (set_val None)) st, -1)
  end.

Definition var_set (st : Vars) (name val : list Z) : Vars * Z :=
  var_setn st name val (s32 (strlen val)).

Definition var_export (st : Vars) (name : list Z) (on : bool) : Vars :=
  match var_make st name with
  | None => st
  | Some st => on_vars (upd name (set_exported on)) st
  end.

Fixpoint remove_first (name : list Z) (l : list Var) : list Var :=
  match l with
  | [] => []
  | v :: l' => if same_name name v then l' else v :: remove_first name l'
  end.

Definition var_unset (st : Vars) (name : list Z) : Vars * Z :=
  match var_find st name with
  | Some _ => (on_vars (remove_first name) st, 0)
  | None => (st, 1)
  end.

Definition env_entry (v : Var) : list Z := v_name v ++ chr "=" :: default [] (v_val v).

Definition var_env_array (st : Vars) : option (list (list Z)) :=
  if mem then Some (map env_entry (List.filter v_exported (vars st))) else None.

Definition var_export_all (st : Vars) (on : bool) : Vars :=
  if on then mkVars (map (set_exported true) (vars st)) on else mkVars (vars st) on.

Definition var_allexport (st : Vars) : bool := allexport st.

(** ** Array elements *)

Fixpoint arr_find (el : list AEnt) (key : list Z) : option AEnt :=
  match el with
  | [] => None
  | e :: el' => if strcmp (a_key e) key =? 0 then Some e else arr_find el' key
  end.

Definition arr_get (st : Vars) (name key : list Z) : list Z :=
  match var_find st name with
  | None => []
  | Some v =>
      if negb (v_is_array v) then []
      else match arr_find (v_el v) key with Some e => a_val e | None => [] end
  end.

Definition arr_len (st : Vars) (name : list Z) : Z :=
  match var_find st name with Some v => Z.of_nat (length (v_el v)) | None => 0 end.

Definition arr_is_assoc (st : Vars) (name : list Z) : bool :=
  match var_find st name with Some v => v_is_assoc v | None => false end.

Definition arr_clear (st : Vars) (name : list Z) : Vars :=
  match var_find st name with
  | None => st
  | Some _ => on_vars (upd name (fun v => set_el [] (v_cap v) v)) st
  end.

Definition arr_make_assoc (st : Vars) (name : list Z) : Vars :=
  match var_make st name with
  | None => st
  | Some st => on_vars (upd name (set_is_assoc true)) st
  end.

Fixpoint put_el (el : list AEnt) (key val : list Z) : list AEnt :=
  match el with
  | [] => []
  | e :: el' =>
      if strcmp (a_key e) key =? 0 then mkAEnt (a_key e) val :: el'
      else e :: put_el el' key val
  end.

(** [arr_put] on one variable: the variable after the call and the result. *)
Definition arr_put (v : Var) (key val : list Z) : Var * Z :=
  match arr_find (v_el v) key with
  | Some _ => (set_el (put_el (v_el v) key val) (v_cap v) v, 0)
  | None =>
      if v_cap v <? Z.of_nat (length (v_el v)) + 1 then
        let cap := if v_cap v =? 0 then 8 else s32 (v_cap v * 2) in
        if mem then (set_el (v_el v ++ [mkAEnt key val]) cap v, 0) else (v, -1)
      else (set_el (v_el v ++ [mkAEnt key val]) (v_cap v) v, 0)
  end.

Definition arr_put_named (st : Vars) (name key val : list Z) : Vars * Z :=
  match var_find st name with
  | None => (st, -1)
  | Some v =>
      let '(v', r) := arr_put (set_is_array true v) key val in
      (on_vars (upd name (fun _ => v')) st, r)
  end.

Definition arr_set (st : Vars) (name key val : list Z) : Vars * Z :=
  match var_make st name with
  | None => (st, -1)
  | Some st => arr_put_named st name key val
  end.

(** The digits at the front of a key and what follows them. *)
Fixpoint key_number (n : Z) (k : list Z) : Z * list Z :=
  match k with
  | c :: k' => if is_digit c then key_number (s32 (s32 (n * 10) + (c - 48))) k' else (n, k)
  | [] => (n, [])
  end.

(** [max]: the highest key that is a number, or -1. *)
Fixpoint max_key (max : Z) (el : list AEnt) : Z :=
  match el with
  | [] => max
  | e :: el' =>
      let '(n, rest) := key_number 0 (a_key e) in
      max_key (if (ch rest =? 0) && (max <? n) then n else max) el'
  end.

Definition arr_append (st : Vars) (name val : list Z) : Vars * Z :=
  match var_make st name with
  | None => (st, -1)
  | Some st =>
      match var_find st name with
      | None => (st, -1)
      | Some v => arr_put_named st name (itoa (s32 (max_key (-1) (v_el v) + 1))) val
      end
  end.

Definition arr_keys (st : Vars) (name : list Z) : option (list (list Z)) :=
  match var_find st name with
  | None => None
  | Some v => if negb (v_is_array v) then None
              else if mem then Some (map a_key (v_el v)) else None
  end.

Definition var_names (st : Vars) : option (list (list Z)) :=
  if mem then Some (map v_name (vars st)) else None.

End Ops.

(** ** The shell's own names *)

Record ShellInfo := mkInfo {
  sh_status : Z; sh_argc : Z;
  sh_argv : option (list (option (list Z)));
  sh_ifs : option (list Z);
  sh_set_e : bool;
  sh_pid : Z              (* getpid() *)
}.

(** [buf[SH_LINE_MAX]] filled by [strncpy] keeps 1023 bytes. *)
Definition in_buf (s : list Z) : list Z := take 1023 s.

Definition argv_at (info : ShellInfo) (n : nat) : option (list Z) :=
  match sh_argv info with Some a => default None (a !! n) | None => None end.

(** Bytes are copied while [len < 1023]. *)
Definition buf_add (buf a : list Z) : list Z := take 1023 (buf ++ a).

Fixpoint join_params (info : ShellInfo) (sep : Z) (count n : nat) (buf : list Z) : list Z :=
  match count with
  | O => buf
  | S k =>
      let buf := if (1 <? n)%nat then buf_add buf [sep] else buf in
      join_params info sep k (S n) (buf_add buf (default [] (argv_at info n)))
  end.

(** [None] is a NULL result. *)
Definition var_lookup_word (st : Vars) (info : ShellInfo) (name : list Z) : option (list Z) :=
  if strcmp name (cs "?") =? 0 then Some (in_buf (itoa (sh_status info)))
  else if strcmp name (cs "#") =? 0 then Some (in_buf (itoa (sh_argc info)))
  else if strcmp name (cs "$") =? 0 then Some (in_buf (itoa (sh_pid info)))
  else if (strcmp name (cs "*") =? 0) || (strcmp name (cs "@") =? 0) then
    let sep := match sh_ifs info with
               | Some i => if ch i =? 0 then 32 else ch i
               | None => 32
               end in
    match sh_argv info with
    | Some _ => Some (join_params info sep (Z.to_nat (sh_argc info)) 1 [])
    | None => Some []
    end
  else if strcmp name (cs "-") =? 0 then Some (in_buf (dec (if sh_set_e info then 1 else 0)))
  else if is_digit (ch name) then
    let i := ch name - 48 in
    if i =? 0 then
      match argv_at info 0 with Some a => Some a | None => Some (cs "vash") end
    else if (i <=? sh_argc info) && (match sh_argv info with Some _ => true | None => false end)
    then argv_at info (Z.to_nat i)
    else Some []
  else Some (var_get st name).

(** ** Functions *)

Section Functions.
Context {Body : Type}.

Record Func := mkFunc { f_name : list Z; f_body : Body }.

Fixpoint func_find (funcs : list Func) (name : list Z) : option Func :=
  match funcs with
  | [] => None
  | f :: fs => if strcmp (f_name f) name =? 0 then Some f else func_find fs name
  end.

Fixpoint set_body (funcs : list Func) (name : list Z) (body : Body) : list Func :=
  match funcs with
  | [] => []
  | f :: fs =>
      if strcmp (f_name f) name =? 0 then mkFunc (f_name f) body :: fs
      else f :: set_body fs name body
  end.

Definition func_define (mem : bool) (funcs : list Func) (name : list Z) (body : Body) : list Func :=
  match func_find funcs name with
  | None => if mem then mkFunc name body :: funcs else funcs
  | Some _ => set_body funcs name body
  end.

Fixpoint func_undef (funcs : list Func) (name : list Z) : list Func * Z :=
  match funcs with
  | [] => ([], 1)
  | f :: fs =>
      if strcmp (f_name f) name =? 0 then (fs, 0)
      else let '(fs', r) := func_undef fs name in (f :: fs', r)
  end.

End Functions.

(** * The abstract table: a finite map from names to variables *)

Definition env_map (l : list Var) : gmap (list Z) Var :=
  list_to_map (map (fun v => (v_name v, v)) l).

Record Table := mkTable { t_map : gmap (list Z) Var; t_all : bool }.
Definition abs (st : Vars) : Table := mkTable (env_map (vars st)) (allexport st).

(** The variable a name denotes, created on first use. *)
Definition t_var (t : Table) (name : list Z) : Var :=
  default (mkVar name None (t_all t) false false [] 0) (t_map t !! name).
Definition t_update (t : Table) (name : list Z) (f : Var -> Var) : Table :=
  mkTable (<[name := f (t_var t name)]> (t_map t)) (t_all t).

(** The operations of the interface. *)
Inductive vop :=
  | OInit
  | OSet (name val : list Z)
  | OExport (name : list Z) (on : bool)
  | OUnset (name : list Z)
  | OExportAll (on : bool)
  | OArrSet (name key val : list Z)
  | OArrAppend (name val : list Z)
  | OArrClear (name : list Z)
  | OMakeAssoc (name : list Z).

Definition run (op : vop) (st : Vars) : Vars :=
  match op with
  | OInit => var_init st
  | OSet name val => fst (var_set true st name val)
  | OExport name on => var_export true st name on
  | OUnset name => fst (var_unset st name)
  | OExportAll on => var_export_all st on
  | OArrSet name key val => fst (arr_set true st name key val)
  | OArrAppend name val => fst (arr_append true st name val)
  | OArrClear name => arr_clear st name
  | OMakeAssoc name => arr_make_assoc true st name
  end.

(** What each promises, on the map. *)
Definition next_key (v : Var) : list Z := itoa (s32 (max_key (-1) (v_el v) + 1)).
Definition t_run (op : vop) (t : Table) : Table :=
  match op with
  | OInit => mkTable ∅ (t_all t)
  | OSet name val => t_update t name (set_val (Some val))
  | OExport name on => t_update t name (set_exported on)
  | OUnset name => mkTable (delete name (t_map t)) (t_all t)
  | OExportAll on =>
      mkTable (if on then set_exported true <$> t_map t else t_map t) on
  | OArrSet name key val =>
      t_update t name (fun v => fst (arr_put true (set_is_array true v) key val))
  | OArrAppend name val =>
      t_update t name (fun v => fst (arr_put true (set_is_array true v) (next_key v) val))
  | OArrClear name =>
      mkTable (alter (fun v => set_el [] (v_cap v) v) name (t_map t)) (t_all t)
  | OMakeAssoc name => t_update t name (set_is_assoc true)
  end.

(** The data of an operation: proper C strings that fit an [int]. *)
Definition vop_ok (op : vop) : Prop :=
  match op with
  | OSet name val => cstring name /\ cstring val /\ Z.of_nat (length val) < 2 ^ 31
  | OExport name _ | OUnset name | OArrClear name | OMakeAssoc name => cstring name
  | OArrSet name key _ => cstring name /\ cstring key
  | OArrAppend name _ => cstring name
  | OInit | OExportAll _ => True
  end.

Definition var_ok (v : Var) : Prop :=
  cstring (v_name v) /\ NoDup (map a_key (v_el v)) /\ Forall (fun e => cstring (a_key e)) (v_el v).
(** The table's invariant: names and, in each array, keys are unique. *)
Definition wf (st : Vars) : Prop :=
  NoDup (map v_name (vars st)) /\ Forall var_ok (vars st).

(** * Properties *)

Lemma same_name_iff name v :
  cstring name -> cstring (v_name v) -> same_name name v = true <-> v_name v = name.
Proof. intros. unfold same_name. rewrite Z.eqb_eq. by apply strcmp_0_iff. Qed.

Lemma same_name_case name v :
  cstring name -> cstring (v_name v) ->
  (same_name name v = true /\ v_name v = name) \/ (same_name name v = false /\ v_name v <> name).
Proof.
  intros Hn Hv. pose proof (same_name_iff name v Hn Hv) as H.
  destruct (same_name name v); [left|right]; split; try done; [by apply H|].
  intros E. apply H in E. done.
Qed.

Lemma find_in_map name l :
  cstring name -> Forall var_ok l -> find_in name l = env_map l !! name.
Proof.
  intros Hn Hl. induction Hl as [|v l [Hv _] Hl IH]; [done|].
  unfold env_map. cbn [find_in map list_to_map foldr]. fold (env_map l).
  destruct (same_name_case name v Hn Hv) as [[-> <-]|[-> Hne]].
  - by rewrite lookup_insert_eq.
  - rewrite lookup_insert_ne by done. exact IH.
Qed.

Lemma upd_map name f l :
  cstring name -> Forall var_ok l -> (forall v, v_name v = name -> v_name (f v) = name) ->
  env_map (upd name f l) = alter f name (env_map l).
Proof.
  intros Hn Hl Hf. induction Hl as [|v l [Hv _] Hl IH]; [done|].
  cbn [upd]. destruct (same_name_case name v Hn Hv) as [[-> E]|[-> Hne]];
    unfold env_map; cbn [map list_to_map foldr fst snd]; fold (env_map l).
  - rewrite Hf, E by done. by rewrite alter_insert_eq.
  - fold (env_map (upd name f l)). rewrite IH, alter_insert_ne by done. done.
Qed.

Lemma upd_names name f l :
  (forall v, v_name (f v) = v_name v) -> map v_name (upd name f l) = map v_name l.
Proof.
  intros Hf. induction l as [|v l IH]; [done|]. cbn [upd]. bcase; cbn; [by rewrite Hf|by rewrite IH].
Qed.

Lemma upd_ok name f l :
  Forall var_ok l -> (forall v, In v l -> var_ok v -> var_ok (f v)) -> Forall var_ok (upd name f l).
Proof.
  intros Hl Hf. induction Hl as [|v l Hv Hl IH]; [constructor|]. cbn [upd].
  bcase; constructor; auto; [apply Hf; simpl; auto|]. apply IH. intros. apply Hf; simpl; auto.
Qed.

Lemma find_in_name name l v :
  cstring name -> Forall var_ok l -> find_in name l = Some v -> v_name v = name /\ In v l.
Proof.
  intros Hn Hl. induction Hl as [|w l [Hw _] Hl IH]; [done|]. cbn [find_in].
  destruct (same_name_case name w Hn Hw) as [[-> E]|[-> Hne]].
  - intros [= ->]. simpl. auto.
  - intros H. apply IH in H as [? ?]. simpl. auto.
Qed.

Lemma find_in_None name l :
  cstring name -> Forall var_ok l -> find_in name l = None <-> name ∉ map v_name l.
Proof.
  intros Hn Hl. induction Hl as [|v l [Hv _] Hl IH]; [split; [intros _; apply not_elem_of_nil|done]|].
  cbn [find_in map]. rewrite not_elem_of_cons.
  destruct (same_name_case name v Hn Hv) as [[-> E]|[-> Hne]]; [naive_solver|].
  rewrite IH. naive_solver.
Qed.

Lemma remove_first_map name l :
  cstring name -> Forall var_ok l -> NoDup (map v_name l) ->
  env_map (remove_first name l) = delete name (env_map l).
Proof.
  intros Hn Hl. induction Hl as [|v l [Hv Hv'] Hl IH]; [done|].
  cbn [map remove_first]. intros [Hnin Hnd]%NoDup_cons.
  destruct (same_name_case name v Hn Hv) as [[-> E]|[-> Hne]];
    unfold env_map; cbn [map list_to_map foldr fst snd]; fold (env_map l).
  - rewrite E, delete_insert_eq. rewrite delete_id; [done|].
    rewrite <- find_in_map by done. apply find_in_None; try done. by subst.
  - fold (env_map (remove_first name l)). rewrite IH, delete_insert_ne by done. done.
Qed.

Lemma remove_first_sub name l x :
  x ∈ map v_name (remove_first name l) -> x ∈ map v_name l.
Proof.
  induction l as [|v l IH]; [done|]. cbn [remove_first]. bcase; cbn [map];
    rewrite !elem_of_cons; auto. rewrite ?elem_of_cons. naive_solver.
Qed.

Lemma remove_first_wf name l :
  Forall var_ok l -> NoDup (map v_name l) ->
  Forall var_ok (remove_first name l) /\ NoDup (map v_name (remove_first name l)).
Proof.
  intros Hl. induction Hl as [|v l Hv Hl IH]; [done|]. cbn [map remove_first].
  intros [Hnin Hnd]%NoDup_cons. destruct (IH Hnd). bcase; [done|]. split.
  - by constructor.
  - cbn [map]. apply NoDup_cons. split; [|done]. intros Hx. apply Hnin. by eapply remove_first_sub.
Qed.

(** [var_make] ensures the name is bound, to what [t_var] says. *)
Lemma var_make_spec st name :
  wf st -> cstring name ->
  exists st', var_make true st name = Some st' /\ wf st' /\ allexport st' = allexport st /\
    env_map (vars st') = <[name := t_var (abs st) name]> (env_map (vars st)).
Proof.
  intros [Hnd Hok] Hn. unfold var_make, var_find.
  pose proof (find_in_map name (vars st) Hn Hok) as Hf.
  destruct (find_in name (vars st)) as [v|] eqn:E.
  - exists st. repeat split; try done. unfold t_var, abs. cbn [t_map]. rewrite <- Hf. cbn.
    symmetry. by apply insert_id.
  - eexists. split; [done|]. unfold wf. cbn. repeat split; try done.
    + apply NoDup_cons. split; [|done]. by apply find_in_None.
    + constructor; [|done]. repeat split; try done; constructor.
    + unfold t_var, abs. cbn [t_map t_all]. rewrite <- Hf. done.
Qed.

(** A write through a freshly made pointer. *)
Lemma upd_made st st' name f :
  wf st' -> cstring name -> (forall v, v_name (f v) = v_name v) -> (forall v, var_ok v -> var_ok (f v)) ->
  env_map (vars st') = <[name := t_var (abs st) name]> (env_map (vars st)) ->
  allexport st' = allexport st ->
  abs (on_vars (upd name f) st') = t_update (abs st) name f /\ wf (on_vars (upd name f) st').
Proof.
  intros [Hnd Hok] Hn Hf Hfo Hm Ha. split.
  - unfold abs, t_update, on_vars. cbn [vars allexport t_map t_all].
    rewrite upd_map, Hm, Ha by (done || intros; by rewrite Hf).
    f_equal. by rewrite alter_insert_eq.
  - split; cbn [on_vars vars]; [by rewrite upd_names|]. apply upd_ok; auto.
Qed.

Lemma upd_const name (F : Var -> Var) l v :
  find_in name l = Some v -> upd name (fun _ => F v) l = upd name F l.
Proof.
  induction l as [|w l IH]; [done|]. cbn [find_in upd]. bcase; [by intros [= ->]|].
  intros H. by rewrite IH.
Qed.

(** ** Array elements *)

Lemma key_eq_case (e : AEnt) key :
  cstring (a_key e) -> cstring key ->
  ((strcmp (a_key e) key =? 0) = true /\ a_key e = key) \/
  ((strcmp (a_key e) key =? 0) = false /\ a_key e <> key).
Proof.
  intros He Hk. destruct (Z.eqb_spec (strcmp (a_key e) key) 0) as [E|E]; [left|right];
    rewrite strcmp_0_iff in E by done; done.
Qed.

Definition keys_ok (el : list AEnt) : Prop := Forall (fun e => cstring (a_key e)) el.

Lemma arr_find_None el key :
  keys_ok el -> cstring key -> arr_find el key = None <-> key ∉ map a_key el.
Proof.
  intros Hel Hk. induction Hel as [|e el He Hel IH]; [split; [intros _; apply not_elem_of_nil|done]|].
  cbn [arr_find map]. rewrite not_elem_of_cons.
  destruct (key_eq_case e key He Hk) as [[-> E]|[-> Hne]]; [naive_solver|]. rewrite IH. naive_solver.
Qed.

Lemma put_el_keys el key val : map a_key (put_el el key val) = map a_key el.
Proof. induction el as [|e el IH]; [done|]. cbn [put_el]. bcase; cbn; [done|by rewrite IH]. Qed.

Lemma arr_find_app el e key :
  keys_ok el -> cstring key -> cstring (a_key e) ->
  arr_find (el ++ [e]) key =
    match arr_find el key with Some x => Some x | None => if decide (a_key e = key) then Some e else None end.
Proof.
  intros Hel Hk He. induction Hel as [|x el Hx Hel IH]; cbn [app arr_find].
  - destruct (key_eq_case e key He Hk) as [[-> E]|[-> Hne]];
      [by rewrite decide_True|by rewrite decide_False].
  - destruct (key_eq_case x key Hx Hk) as [[-> E]|[-> Hne]]; [done|exact IH].
Qed.

Lemma arr_find_put_el el key val key' :
  keys_ok el -> cstring key -> cstring key' ->
  arr_find (put_el el key val) key' =
    if decide (key = key') then (fun e => mkAEnt (a_key e) val) <$> arr_find el key
    else arr_find el key'.
Proof.
  intros Hel Hk Hk'. induction Hel as [|e el He Hel IH]; cbn [put_el arr_find].
  - by case_decide.
  - destruct (key_eq_case e key He Hk) as [[-> E]|[-> Hne]]; cbn [arr_find a_key].
    + destruct (key_eq_case e key' He Hk') as [[-> E']|[-> Hne']].
      * rewrite decide_True by congruence. done.
      * rewrite decide_False by congruence. done.
    + rewrite IH. destruct (key_eq_case e key' He Hk') as [[-> E']|[-> Hne']]; [|done].
      rewrite decide_False by congruence. done.
Qed.

(** [arr_put] binds the key and no other. *)
Lemma arr_put_spec v key val :
  keys_ok (v_el v) -> cstring key ->
  let v' := fst (arr_put true v key val) in
  snd (arr_put true v key val) = 0 /\ v_name v' = v_name v /\ keys_ok (v_el v') /\
  (NoDup (map a_key (v_el v)) -> NoDup (map a_key (v_el v'))) /\
  forall k, cstring k ->
    a_val <$> arr_find (v_el v') k =
      if decide (key = k) then Some val else a_val <$> arr_find (v_el v) k.
Proof.
  intros Hel Hk. cbv zeta. unfold arr_put. destruct (arr_find (v_el v) key) as [e|] eqn:E.
  - cbn [fst snd set_el v_name v_el]. repeat split.
    + unfold keys_ok in *. revert Hel. generalize (v_el v). induction l as [|x l IH]; [done|].
      intros [Hx Hl]%Forall_cons. cbn [put_el]. bcase; constructor; auto.
    + by rewrite put_el_keys.
    + intros k Hkk. rewrite arr_find_put_el by done. case_decide; [by rewrite E|done].
  - assert (key ∉ map a_key (v_el v)) as Hfresh by (by apply arr_find_None).
    assert (exists c, (if v_cap v <? Z.of_nat (length (v_el v)) + 1
       then (set_el (v_el v ++ [mkAEnt key val]) (if v_cap v =? 0 then 8 else s32 (v_cap v * 2)) v, 0)
       else (set_el (v_el v ++ [mkAEnt key val]) (v_cap v) v, 0)) =
       (set_el (v_el v ++ [mkAEnt key val]) c v, 0)) as [c ->] by (bcase; eexists; done).
    cbn [fst snd set_el v_name v_el]. repeat split.
    + apply Forall_app. split; [done|]. by repeat constructor.
    + intros Hnd. rewrite map_app. apply NoDup_app. split; [done|]. split; [|apply NoDup_singleton].
      intros x Hx ->%list_elem_of_singleton. done.
    + intros k Hkk. rewrite arr_find_app by done. cbn [a_key]. case_decide; subst.
      * by rewrite E.
      * by destruct (arr_find (v_el v) k).
Qed.

Lemma itoa_cstring v : is_s32 v -> cstring (itoa v).
Proof.
  unfold is_s32. intros Hv. unfold itoa. bcase.
  - apply cstring_cons. split; [lia|]. eapply Forall_impl; [apply dec_digits; lia|]. simpl; lia.
  - eapply Forall_impl; [apply dec_digits; lia|]. simpl; lia.
Qed.

Lemma arr_put_var_ok v key val :
  var_ok v -> cstring key -> var_ok (fst (arr_put true v key val)).
Proof.
  intros (Hn & Hnd & Hk) Hkey.
  destruct (arr_put_spec v key val Hk Hkey) as (_ & En & Hk' & Hnd' & _).
  split; [by rewrite En|]. split; [by apply Hnd'|done].
Qed.

Lemma arr_put_named_spec st st' name (F : Var -> list Z) val :
  wf st' -> cstring name -> (forall v, cstring (F v)) ->
  env_map (vars st') = <[name := t_var (abs st) name]> (env_map (vars st)) ->
  allexport st' = allexport st ->
  exists v, find_in name (vars st') = Some v /\
    let st2 := fst (arr_put_named true st' name (F v) val) in
    abs st2 = t_update (abs st) name (fun v => fst (arr_put true (set_is_array true v) (F v) val)) /\
    wf st2.
Proof.
  intros Hwf Hn HF Hm Ha. pose proof Hwf as [Hnd Hok].
  pose proof (find_in_map name (vars st') Hn Hok) as Hf. rewrite Hm, lookup_insert_eq in Hf.
  exists (t_var (abs st) name). split; [done|]. cbv zeta.
  unfold arr_put_named, var_find. rewrite Hf.
  pose (G := fun v => fst (arr_put true (set_is_array true v) (F v) val)).
  destruct (arr_put true (set_is_array true (t_var (abs st) name)) (F (t_var (abs st) name)) val)
    as [v' r] eqn:Ep. cbn [fst].
  assert (v' = G (t_var (abs st) name)) as -> by (unfold G; by rewrite Ep).
  unfold on_vars. rewrite (upd_const name G) by done.
  apply upd_made; try done.
  - intros v. unfold G.
    unfold arr_put. destruct (arr_find _ _); [done|]. bcase; done.
  - intros v Hv. unfold G. apply arr_put_var_ok; [|done]. exact Hv.
Qed.

Lemma find_in_exported name l :
  cstring name -> Forall var_ok l -> NoDup (map v_name l) -> forall v,
  find_in name l = Some v <-> In v l /\ v_name v = name.
Proof.
  intros Hn Hl. induction Hl as [|w l [Hw Hw'] Hl IH]; [simpl; naive_solver|].
  cbn [map find_in]. intros [Hnin Hnd]%NoDup_cons v.
  destruct (same_name_case name w Hn Hw) as [[-> E]|[-> Hne]].
  - split; [intros [= ->]; simpl; auto|]. intros [[->|Hin] Hv]; [done|].
    exfalso. apply Hnin. rewrite E, <- Hv. apply list_elem_of_In, in_map. done.
  - rewrite IH by done. simpl. naive_solver.
Qed.

(** ** Refinement *)

Lemma run_refines op st :
  wf st -> vop_ok op -> abs (run op st) = t_run op (abs st) /\ wf (run op st).
Proof.
  intros Hwf Hop. pose proof Hwf as [Hnd Hok]. destruct op as
    [|name val|name on|name|on|name key val|name val|name|name]; cbn [run t_run vop_ok] in *.
  - split; [done|]. split; cbn; constructor.
  - destruct Hop as (Hn & Hv & Hlen). unfold var_set, var_setn.
    destruct (var_make_spec st name Hwf Hn) as (st' & -> & Hwf' & Ha & Hm). cbn [fst].
    rewrite strlen_length, s32_id, Nat2Z.id, firstn_all by (done || unfold is_s32; lia).
    by apply upd_made.
  - unfold var_export. destruct (var_make_spec st name Hwf Hop) as (st' & -> & Hwf' & Ha & Hm).
    by apply upd_made.
  - unfold var_unset, var_find. destruct (find_in name (vars st)) as [v|] eqn:E; cbn [fst].
    + split; [unfold abs, on_vars; cbn [vars allexport t_map t_all]; by rewrite remove_first_map|].
      destruct (remove_first_wf name (vars st) Hok Hnd). split; done.
    + split; [|done]. unfold abs. cbn [t_map t_all]. f_equal. symmetry. apply delete_id.
      by rewrite <- find_in_map.
  - unfold var_export_all. destruct on; (split; [|split; cbn [vars]; try done]).
    + unfold abs. cbn [t_map t_all vars allexport]. f_equal. unfold env_map.
      rewrite <- list_to_map_fmap. f_equal. generalize (vars st).
      induction l as [|v l IH]; [done|]. cbn. by rewrite IH.
    + rewrite map_map. exact Hnd.
    + apply Forall_map. eapply Forall_impl; [exact Hok|]. done.
    + done.
  - destruct Hop as [Hn Hk]. unfold arr_set.
    destruct (var_make_spec st name Hwf Hn) as (st' & -> & Hwf' & Ha & Hm).
    destruct (arr_put_named_spec st st' name (fun _ => key) val) as (v & Hf & H); done.
  - unfold arr_append.
    destruct (var_make_spec st name Hwf Hop) as (st' & -> & Hwf' & Ha & Hm).
    destruct (arr_put_named_spec st st' name next_key val) as (v & Hf & H); try done.
    { intros v. apply itoa_cstring, s32_range. }
    unfold var_find. rewrite Hf. exact H.
  - unfold arr_clear, var_find. destruct (find_in name (vars st)) as [v|] eqn:E.
    + split; [unfold abs, on_vars; cbn [vars allexport t_map t_all]; by rewrite upd_map|].
      split; cbn [on_vars vars]; [by rewrite upd_names|]. apply upd_ok; [done|].
      intros w _ (Hw & _). split; [done|]. split; constructor.
    + split; [|done]. unfold abs. cbn [t_map t_all]. f_equal. rewrite find_in_map in E by done. apply map_eq. intros k.
      rewrite lookup_alter. case_decide; [subst; by rewrite E|done].
  - unfold arr_make_assoc. destruct (var_make_spec st name Hwf Hop) as (st' & -> & Hwf' & Ha & Hm).
    by apply upd_made.
Qed.

Definition empty_vars : Vars := mkVars [] false.

Lemma empty_wf : wf empty_vars.
Proof. split; constructor. Qed.

Lemma run_all_refines ops st :
  wf st -> Forall vop_ok ops ->
  abs (fold_left (fun s o => run o s) ops st) = fold_left (fun t o => t_run o t) ops (abs st) /\
  wf (fold_left (fun s o => run o s) ops st).
Proof.
  intros Hwf Hops. revert st Hwf. induction Hops as [|op ops Hop Hops IH]; intros st Hwf; [done|].
  cbn [fold_left]. destruct (run_refines op st Hwf Hop) as [E Hwf']. rewrite <- E. by apply IH.
Qed.



(** Reading through the table is reading the map. *)
Lemma var_get_abs st name :
  wf st -> cstring name -> var_get st name = default [] (t_map (abs st) !! name ≫= v_val).
Proof.
  intros [Hnd Hok] Hn. unfold var_get, var_find, abs. cbn [t_map].
  rewrite <- find_in_map by done. by destruct (find_in name (vars st)).
Qed.

Lemma var_set_get_eq st name val k :
  wf st -> cstring name -> cstring val -> Z.of_nat (length val) < 2 ^ 31 -> cstring k ->
  var_get (fst (var_set true st name val)) k = if decide (name = k) then val else var_get st k.
Proof.
  intros Hwf Hn Hv Hl Hk.
  destruct (run_refines (OSet name val) st Hwf (conj Hn (conj Hv Hl))) as [E Hwf'].
  cbn [run] in *. rewrite var_get_abs by done. rewrite E. cbn [t_run t_update t_map].
  case_decide; subst.
  - by rewrite lookup_insert_eq.
  - rewrite lookup_insert_ne by done. by rewrite <- var_get_abs.
Qed.

(** assignment and lookup: [var_set] makes [var_get] return the value for
    that name and leaves every other name's value as it was. *)
Theorem var_set_get st name val k :
  wf st -> cstring name -> cstring val -> Z.of_nat (length val) < 2 ^ 31 -> cstring k ->
  var_get (fst (var_set true st name val)) k = if decide (name = k) then val else var_get st k.
Proof. apply var_set_get_eq. Qed.

Lemma var_set_get_witness :
  var_get (fst (var_set true empty_vars (cs "HOME") (cs "/root"))) (cs "HOME") = cs "/root".
Proof.
  rewrite (var_set_get empty_vars (cs "HOME") (cs "/root") (cs "HOME"));
    [reflexivity|exact empty_wf| | |reflexivity| ]; vm_compute; repeat constructor.
Defined.

(** ** The environment of a child *)

Definition no_eq (name : list Z) : Prop := Forall (fun c => c <> chr "=") name.

Lemma name_eq_split n1 n2 v1 v2 :
  no_eq n1 -> no_eq n2 -> n1 ++ chr "=" :: v1 = n2 ++ chr "=" :: v2 -> n1 = n2 /\ v1 = v2.
Proof.
  intros H1. revert n2; induction H1 as [|c n1 Hc H1 IH]; intros n2 H2 E.
  - destruct n2 as [|d n2]; [injection E; done|]. injection E as E1 E2.
    apply Forall_cons in H2 as [? _]. congruence.
  - destruct n2 as [|d n2]; injection E as E1 E2; [congruence|].
    apply Forall_cons in H2 as [_ H2]. destruct (IH n2 H2 E2) as [-> ->]. by subst.
Qed.

Lemma exported_entry_iff st name v :
  wf st -> cstring name -> no_eq name -> Forall (fun w => no_eq (v_name w)) (vars st) ->
  getenv_walk name (length name) (map env_entry (List.filter v_exported (vars st))) = Some v <->
  exists w, var_find st name = Some w /\ v_exported w = true /\ v = default [] (v_val w).
Proof.
  intros [Hnd Hok] Hn Hne Hall. unfold var_find.
  induction Hok as [|w l Hw Hl IH] in Hnd, Hall |- *; [simpl; naive_solver|].
  cbn [map] in Hnd. apply NoDup_cons in Hnd as [Hnin Hnd].
  apply Forall_cons in Hall as [Hwe Hall]. specialize (IH Hnd Hall).
  cbn [List.filter find_in]. pose proof Hw as [Hwn _].
  destruct (same_name_case name w Hn Hwn) as [[-> E]|[-> Hne2]].
  - assert (getenv_walk name (length name) (map env_entry (List.filter v_exported l)) <> Some v) as Hno.
    { intros HX. apply IH in HX as (w' & Hf & _).
      apply find_in_name in Hf as [Hw' Hin]; try done. apply Hnin. rewrite E, <- Hw'.
      apply list_elem_of_In, in_map. done. }
    destruct (v_exported w) eqn:Ex; cbn [map].
    + rewrite getenv_walk_spec by done. split.
      * intros ([|e pre] & post & HE & Hp).
        -- injection HE as HE _. exists w. split; [done|]. split; [done|].
           unfold env_entry in HE. rewrite E in HE. apply name_eq_split in HE as [_ ->]; done.
        -- injection HE as <- _. apply Forall_cons in Hp as [Hp _].
           destruct Hp. eexists. unfold env_entry. by rewrite E.
      * intros (w' & [= <-] & _ & ->). exists [], (map env_entry (List.filter v_exported l)).
        split; [|done]. unfold env_entry. by rewrite E.
    + split; [intros HX; by apply Hno in HX|]. intros (w' & [= <-] & HX & _). congruence.
  - rewrite <- IH. destruct (v_exported w); [|done]. cbn [map].
    assert (~ defines name (env_entry w)) as Hnd2.
    { intros [x Hx]. unfold env_entry in Hx. apply name_eq_split in Hx as [? _]; done. }
    rewrite !getenv_walk_spec by done. split.
    + intros ([|e pre] & post & HE & Hp); [injection HE as HE _|injection HE as <- HE].
      * destruct Hnd2. rewrite HE. eexists; done.
      * apply Forall_cons in Hp as [_ Hp]. eauto.
    + intros (pre & post & -> & Hp). exists (env_entry w :: pre), post. auto.
Qed.

(** the environment [var_env_array] builds for a child holds exactly the
    exported variables: the child's [getenv] finds a name if and only if the
    shell has it exported, and then with the shell's value. *)
Theorem env_array_getenv st name v :
  wf st -> cstring name -> name <> [] -> no_eq name -> Forall (fun w => no_eq (v_name w)) (vars st) ->
  getenv (var_env_array true st) name = Some v <->
  exists w, var_find st name = Some w /\ v_exported w = true /\ v = default [] (v_val w).
Proof.
  intros Hwf Hn Hne Heq Hall. rewrite <- exported_entry_iff by done.
  unfold var_env_array. rewrite getenv_spec, getenv_walk_spec by done. tauto.
Qed.

Lemma env_array_getenv_witness :
  let st := fst (var_set true (var_export true empty_vars (cs "PATH") true) (cs "PATH") (cs "/bin")) in
  getenv (var_env_array true st) (cs "PATH") = Some (cs "/bin") /\
  (getenv (var_env_array true st) (cs "PATH") = Some (cs "/bin") <->
   exists w, var_find st (cs "PATH") = Some w /\ v_exported w = true /\ cs "/bin" = default [] (v_val w)).
Proof.
  cbv zeta. split; [reflexivity|].
  apply env_array_getenv; try (vm_compute; repeat constructor; discriminate || lia).
  apply (run_all_refines [OExport (cs "PATH") true; OSet (cs "PATH") (cs "/bin")] empty_vars empty_wf).
  repeat constructor; vm_compute; repeat constructor.
Defined.

(** ** Appending to an array *)

Lemma key_number_digits n ds :
  Forall (fun c => 48 <= c <= 57) ds -> key_number n ds = (digits_loop n ds, []).
Proof.
  intros H. revert n. induction H as [|c ds Hc H IH]; intros n; [done|].
  cbn [key_number digits_loop]. assert (is_digit c = true) as -> by (unfold is_digit; lia). apply IH.
Qed.

Lemma max_key_ge m el :
  m <= max_key m el /\
  forall e n, In e el -> key_number 0 (a_key e) = (n, []) -> n <= max_key m el.
Proof.
  revert m; induction el as [|e el IH]; intros m; cbn [max_key]; [split; [lia|done]|].
  destruct (key_number 0 (a_key e)) as [n r] eqn:Ek.
  set (m' := if (ch r =? 0) && (m <? n) then n else m). assert (m <= m') by (unfold m'; bcase; lia).
  destruct (IH m') as [H1 H2]. split; [lia|].
  intros e' n' [<-|Hin] He'; [|eauto]. rewrite Ek in He'. injection He' as -> ->.
  assert (n' <= m') by (unfold m'; rewrite at_nil; cbn [Z.eqb andb]; bcase; lia). lia.
Qed.

Lemma next_key_fresh v :
  keys_ok (v_el v) -> max_key (-1) (v_el v) < 2 ^ 31 - 1 -> arr_find (v_el v) (next_key v) = None.
Proof.
  intros Hk Hm. unfold next_key. destruct (max_key_ge (-1) (v_el v)) as [H1 H2].
  rewrite s32_id by (unfold is_s32; lia).
  apply arr_find_None; [done|apply itoa_cstring; unfold is_s32; lia|].
  intros Hin. apply list_elem_of_In, in_map_iff in Hin as (e & He & Hin).
  assert (key_number 0 (a_key e) = (max_key (-1) (v_el v) + 1, [])) as Hn.
  { rewrite He. unfold itoa. bcase; [lia|]. rewrite key_number_digits by (apply dec_digits; lia).
    rewrite digits_loop_dec, s32_id by (unfold is_s32; lia). done. }
  apply H2 in Hn; [lia|done].
Qed.

Lemma t_var_ok st name : wf st -> cstring name -> var_ok (t_var (abs st) name).
Proof.
  intros [Hnd Hok] Hn. unfold t_var, abs. cbn [t_map t_all]. rewrite <- find_in_map by done.
  destruct (find_in name (vars st)) as [v|] eqn:E; cbn.
  - apply find_in_name in E as [_ Hin]; try done. by eapply List.Forall_forall in Hok.
  - repeat split; try done; constructor.
Qed.

Lemma arr_get_abs st name key :
  wf st -> cstring name ->
  arr_get st name key =
    match t_map (abs st) !! name with
    | Some v => if v_is_array v then default [] (a_val <$> arr_find (v_el v) key) else []
    | None => []
    end.
Proof.
  intros [Hnd Hok] Hn. unfold arr_get, var_find, abs. cbn [t_map]. rewrite <- find_in_map by done.
  destruct (find_in name (vars st)) as [v|]; [|done]. destruct (v_is_array v); [|done]. cbn.
  by destruct (arr_find (v_el v) key).
Qed.

Lemma arr_put_is_array v key val :
  v_is_array v = true -> v_is_array (fst (arr_put true v key val)) = true.
Proof. intros H. unfold arr_put. destruct (arr_find _ _); [done|]. bcase; done. Qed.

(** [a+=(x)] goes one past the highest numeric index: the new index was
    not in use, it now holds the value, and every other element is kept. *)
Theorem arr_append_fresh st name val :
  wf st -> cstring name ->
  let v := t_var (abs st) name in
  max_key (-1) (v_el v) < 2 ^ 31 - 1 ->
  let st' := fst (arr_append true st name val) in
  arr_find (v_el v) (next_key v) = None /\
  arr_get st' name (next_key v) = val /\
  forall k, cstring k -> k <> next_key v ->
    arr_get st' name k = default [] (a_val <$> arr_find (v_el v) k).
Proof.
  intros Hwf Hn v Hm st'. pose proof (t_var_ok st name Hwf Hn) as (_ & _ & Hk). fold v in Hk.
  split; [by apply next_key_fresh|].
  destruct (run_refines (OArrAppend name val) st Hwf Hn) as [E Hwf'].
  change (run (OArrAppend name val) st) with st' in *.
  assert (cstring (next_key v)) as Hck by (apply itoa_cstring, s32_range).
  destruct (arr_put_spec (set_is_array true v) (next_key v) val Hk Hck) as (_ & _ & _ & _ & Hget).
  assert (forall k, cstring k ->
    arr_get st' name k = default [] (if decide (next_key v = k) then Some val
                                     else a_val <$> arr_find (v_el v) k)) as HG.
  { intros k Hkk. rewrite arr_get_abs, E by done. cbn [t_run t_update t_map].
    rewrite lookup_insert_eq. fold v. rewrite arr_put_is_array by done. by rewrite Hget. }
  split; [by rewrite HG, decide_True|].
  intros k Hkk Hne. rewrite HG, decide_False by done. done.
Qed.

Lemma arr_append_fresh_witness :
  let st := fst (arr_set true empty_vars (cs "a") (cs "7") (cs "x")) in
  let v := t_var (abs st) (cs "a") in
  let st' := fst (arr_append true st (cs "a") (cs "y")) in
  next_key v = cs "8" /\
  (arr_find (v_el v) (next_key v) = None /\
   arr_get st' (cs "a") (next_key v) = cs "y" /\
   forall k, cstring k -> k <> next_key v ->
     arr_get st' (cs "a") k = default [] (a_val <$> arr_find (v_el v) k)).
Proof.
  cbv zeta. split; [vm_compute; reflexivity|].
  apply (arr_append_fresh (fst (arr_set true empty_vars (cs "a") (cs "7") (cs "x"))) (cs "a") (cs "y")).
  - apply (run_refines (OArrSet (cs "a") (cs "7") (cs "x")) empty_vars empty_wf).
    split; vm_compute; repeat constructor.
  - vm_compute; repeat constructor.
  - vm_compute; reflexivity.
Defined.
