(* ===== verification/Arith.v ===== *)
(** vash's arithmetic evaluator, [$(( ))] and [(( ))]
    ([vnu/userspace/vash/arith.c]).

    The [Ar] struct is the cursor, the nesting depth and the error flag; the
    evaluator also reads and writes the shell's variables, so those are part
    of the state.  [long] is 32 bits.  Evaluation ends with a value, with the
    processor's divide trap ([LONG_MIN / -1]), or, in the model only, out of
    fuel; [eval_fuel] is proved to be always enough. *)
From S2P Require Import Prelude CString StrBuf Vars.

Definition ARITH_MAX_DEPTH : Z := 64.

Record Ar := mkAr { ar_p : list Z; ar_depth : Z; ar_bad : bool; ar_vars : Vars }.

Definition set_p (p : list Z) (a : Ar) : Ar := mkAr p (ar_depth a) (ar_bad a) (ar_vars a).
Definition set_depth (d : Z) (a : Ar) : Ar := mkAr (ar_p a) d (ar_bad a) (ar_vars a).
Definition set_bad (a : Ar) : Ar := mkAr (ar_p a) (ar_depth a) true (ar_vars a).
Definition set_vars (v : Vars) (a : Ar) : Ar := mkAr (ar_p a) (ar_depth a) (ar_bad a) v.

Local Open Scope vnu_scope.

Definition Eval : Type := Ar -> outcome (Z * Ar).

(** ** The characters *)

Fixpoint skip_spaces (p : list Z) : list Z :=
  match p with
  | c :: p' =>
      if (c =? 32) || (c =? 9) || (c =? 10) then skip_spaces p'
      else match p' with
           | d :: p'' => if (c =? 92) && (d =? 10) then skip_spaces p'' else p
           | [] => p
           end
  | [] => []
  end.

Definition skip_space (a : Ar) : Ar := set_p (skip_spaces (ar_p a)) a.

Definition is_var_start (c : Z) : bool :=
  (c =? 95) || ((97 <=? c) && (c <=? 122)) || ((65 <=? c) && (c <=? 90)).

Definition is_var_char (c : Z) : bool := is_var_start c || is_digit c.

Definition digit_val (c : Z) : Z :=
  if is_digit c then c - 48
  else if (97 <=? c) && (c <=? 102) then c - 97 + 10
  else if (65 <=? c) && (c <=? 70) then c - 65 + 10
  else -1.

(** At most [room] bytes of name, and the rest. *)
Fixpoint name_loop (room : nat) (p : list Z) : list Z * list Z :=
  match room, p with
  | S r, c :: p' =>
      if is_var_char c then let '(n, q) := name_loop r p' in (c :: n, q) else ([], p)
  | _, _ => ([], p)
  end.

(** [read_name(a, out, 64)]. *)
Definition read_name (a : Ar) : list Z * Ar :=
  let '(n, p) := name_loop 63 (ar_p a) in (n, set_p p a).

(** The cursor past [op] when [op] stands there. *)
Fixpoint drop_op (op p : list Z) : option (list Z) :=
  match op with
  | [] => Some p
  | o :: op' =>
      match p with
      | c :: p' => if c =? o then drop_op op' p' else None
      | [] => None
      end
  end.

Definition take_op (a : Ar) (op : list Z) : bool * Ar :=
  let a := skip_space a in
  match drop_op op (ar_p a) with
  | Some p => (true, set_p p a)
  | None => (false, a)
  end.

(** [while (digit of base) v = v * base + d]: value, rest and whether any. *)
Fixpoint number_loop (base v : Z) (any : bool) (p : list Z) : Z * list Z * bool :=
  match p with
  | c :: p' =>
      let d := digit_val c in
      if (d <? 0) || (base <=? d) then (v, p, any)
      else number_loop base (s32 (s32 (v * base) + d)) true p'
  | [] => (v, [], any)
  end.

(** The decimal digits in front of a possible [#]. *)
Fixpoint base_loop (b : Z) (q : list Z) : Z * list Z :=
  match q with
  | c :: q' => if is_digit c then base_loop (s32 (s32 (b * 10) + (c - 48))) q' else (b, q)
  | [] => (b, [])
  end.

(** [None]: no number here (the function returned 0). *)
Definition read_number (a : Ar) : option Z * Ar :=
  let p := ar_p a in
  let '(b, q) := base_loop 0 p in
  if (length q <? length p)%nat && (ch q =? chr "#") then
    if (b <? 2) || (36 <? b) then (Some 0, set_bad a)
    else
      let '(v, r, _) := number_loop b 0 false (tail q) in
      (Some v, set_p r a)
  else
    let '(base, p) :=
      if (ch p =? 48) && ((at_ p 1 =? chr "x") || (at_ p 1 =? chr "X")) then (16, drop 2 p)
      else if (ch p =? 48) && ((at_ p 1 =? chr "b") || (at_ p 1 =? chr "B")) then (2, drop 2 p)
      else if (ch p =? 48) && (48 <=? at_ p 1) && (at_ p 1 <=? 55) then (8, drop 1 p)
      else (10, p) in
    let '(v, r, any) := number_loop base 0 false p in
    let a := set_p r a in
    if negb (base =? 10) then (Some v, if any then a else set_bad a)
    else if any then (Some v, a)
    else (None, a).

(** ** The levels, loosest first

    Each function takes the evaluators it calls as arguments; [levels] below
    ties the knot.  The loops' fuel is the length of the text ahead. *)

Definition loop_fuel (a : Ar) : nat := S (length (ar_p a)).

Fixpoint comma_loop (fuel : nat) (assign : Eval) (v : Z) (a : Ar) : outcome (Z * Ar) :=
  match fuel with
  | O => NoFuel
  | S f =>
      let '(hit, a) := take_op a (cs ",") in
      if hit then let* (v, a) := assign a in comma_loop f assign v a
      else Done (v, a)
  end.

Definition ar_comma (assign : Eval) : Eval := fun a =>
  let* (v, a) := assign a in comma_loop (loop_fuel a) assign v a.

Definition ar_ternary (or_ assign : Eval) : Eval := fun a =>
  let* (c, a) := or_ a in
  let '(hit, a) := take_op a (cs "?") in
  if hit then
    let* (t, a) := assign a in
    let '(colon, a) := take_op a (cs ":") in
    if negb colon then Done (0, set_bad a)
    else let* (f, a) := assign a in Done (if c =? 0 then f else t, a)
  else Done (c, a).

(** [while (take_op(a, op)) { r = sub(a); v = f(v, r); }], the shape of the
    [||], [&&], [|], [^] and [&] levels. *)
Fixpoint binop_loop (fuel : nat) (op : list Z) (f : Z -> Z -> Z) (sub : Eval) (v : Z) (a : Ar)
    : outcome (Z * Ar) :=
  match fuel with
  | O => NoFuel
  | S n =>
      let '(hit, a) := take_op a op in
      if hit then let* (r, a) := sub a in binop_loop n op f sub (f v r) a
      else Done (v, a)
  end.

Definition truth (v : Z) : bool := negb (v =? 0).

Definition ar_or (and_ : Eval) : Eval := fun a =>
  let* (v, a) := and_ a in
  binop_loop (loop_fuel a) (cs "||") (fun v r => b2z (truth v || truth r)) and_ v a.

Definition ar_and (bitor : Eval) : Eval := fun a =>
  let* (v, a) := bitor a in
  binop_loop (loop_fuel a) (cs "&&") (fun v r => b2z (truth v && truth r)) bitor v a.

Definition ar_bitor (bitxor : Eval) : Eval := fun a =>
  let* (v, a) := bitxor a in binop_loop (loop_fuel a) (cs "|") Z.lor bitxor v a.

Definition ar_bitxor (bitand : Eval) : Eval := fun a =>
  let* (v, a) := bitand a in binop_loop (loop_fuel a) (cs "^") Z.lxor bitand v a.

Definition ar_bitand (eq : Eval) : Eval := fun a =>
  let* (v, a) := eq a in binop_loop (loop_fuel a) (cs "&") Z.land eq v a.

Fixpoint eq_loop (fuel : nat) (rel : Eval) (v : Z) (a : Ar) : outcome (Z * Ar) :=
  match fuel with
  | O => NoFuel
  | S n =>
      let '(hit, a) := take_op a (cs "==") in
      if hit then let* (r, a) := rel a in eq_loop n rel (b2z (v =? r)) a
      else
        let '(hit, a) := take_op a (cs "!=") in
        if hit then let* (r, a) := rel a in eq_loop n rel (b2z (negb (v =? r))) a
        else Done (v, a)
  end.

Definition ar_eq (rel : Eval) : Eval := fun a =>
  let* (v, a) := rel a in eq_loop (loop_fuel a) rel v a.

Fixpoint rel_loop (fuel : nat) (pow : Eval) (v : Z) (a : Ar) : outcome (Z * Ar) :=
  match fuel with
  | O => NoFuel
  | S n =>
      let '(hit, a) := take_op a (cs "<=") in
      if hit then let* (r, a) := pow a in rel_loop n pow (b2z (v <=? r)) a else
      let '(hit, a) := take_op a (cs ">=") in
      if hit then let* (r, a) := pow a in rel_loop n pow (b2z (r <=? v)) a else
      let '(hit, a) := take_op a (cs "<<") in
      if hit then
        let* (r, a) := pow a in
        rel_loop n pow (if (0 <=? r) && (r <? 31) then s32 (Z.shiftl v r) else 0) a else
      let '(hit, a) := take_op a (cs ">>") in
      if hit then
        let* (r, a) := pow a in
        rel_loop n pow (if (0 <=? r) && (r <? 31) then Z.shiftr v r else 0) a else
      let '(hit, a) := take_op a (cs "<") in
      if hit then let* (r, a) := pow a in rel_loop n pow (b2z (v <? r)) a else
      let '(hit, a) := take_op a (cs ">") in
      if hit then let* (r, a) := pow a in rel_loop n pow (b2z (r <? v)) a else
      Done (v, a)
  end.

Definition ar_rel (pow : Eval) : Eval := fun a =>
  let* (v, a) := pow a in rel_loop (loop_fuel a) pow v a.

Fixpoint add_loop (fuel : nat) (unary : Eval) (v : Z) (a : Ar) : outcome (Z * Ar) :=
  match fuel with
  | O => NoFuel
  | S n =>
      let '(hit, a) := take_op a (cs "+") in
      if hit then let* (r, a) := unary a in add_loop n unary (s32 (v + r)) a else
      let '(hit, a) := take_op a (cs "-") in
      if hit then let* (r, a) := unary a in add_loop n unary (s32 (v - r)) a else
      Done (v, a)
  end.

Definition ar_add (unary : Eval) : Eval := fun a =>
  let* (v, a) := unary a in add_loop (loop_fuel a) unary v a.

(** The divide instruction traps on [LONG_MIN / -1]. *)
Definition divides (v r : Z) : bool := negb ((v =? - 2 ^ 31) && (r =? -1)).

Fixpoint mul_loop (fuel : nat) (add : Eval) (v : Z) (a : Ar) : outcome (Z * Ar) :=
  match fuel with
  | O => NoFuel
  | S n =>
      let a := skip_space a in
      if (at_ (ar_p a) 0 =? chr "*") && negb (at_ (ar_p a) 1 =? chr "*") then
        let* (r, a) := add (set_p (tail (ar_p a)) a) in mul_loop n add (s32 (v * r)) a else
      let '(hit, a) := take_op a (cs "/") in
      if hit then
        let* (r, a) := add a in
        if r =? 0 then Done (0, set_bad a)
        else if divides v r then mul_loop n add (Z.quot v r) a else Trap else
      let '(hit, a) := take_op a (cs "%") in
      if hit then
        let* (r, a) := add a in
        if r =? 0 then Done (0, set_bad a)
        else if divides v r then mul_loop n add (Z.rem v r) a else Trap else
      Done (v, a)
  end.

Definition ar_mul (add : Eval) : Eval := fun a =>
  let* (v, a) := add a in mul_loop (loop_fuel a) add v a.

(** [acc = 1; for (i = 0; i < r; ++i) acc *= v]. *)
Definition pow_loop (v r : Z) : Z := Z.iter r (fun acc => s32 (acc * v)) 1.

Definition ar_pow (mul pow : Eval) : Eval := fun a =>
  let* (v, a) := mul a in
  let '(hit, a) := take_op a (cs "**") in
  if hit then let* (r, a) := pow a in Done (pow_loop v r, a)
  else Done (v, a).

Section Evaluator.
Variable mem : bool.

(** [sh_itoa(v, &num); var_set(name, num)]. *)
Definition assign_var (name : list Z) (v : Z) (a : Ar) : Ar :=
  set_vars (fst (var_set mem (ar_vars a) name (itoa v))) a.

Definition name_value (name : list Z) (a : Ar) : Z := sh_atol (Some (var_get (ar_vars a) name)).

Definition step_name (name : list Z) (plus prefix : bool) (a : Ar) : Z * Ar :=
  if ch name =? 0 then (0, a)
  else
    let cur := name_value name a in
    let next := if plus then s32 (cur + 1) else s32 (cur - 1) in
    (if prefix then next else cur, assign_var name next a).

(** The body of [ar_unary] between the depth counter's steps. *)
Definition unary_body (comma unary : Eval) : Eval := fun a =>
  let '(hit, a) := take_op a (cs "++") in
  if hit then let '(name, a) := read_name a in Done (step_name name true true a) else
  let '(hit, a) := take_op a (cs "--") in
  if hit then let '(name, a) := read_name a in Done (step_name name false true a) else
  let '(hit, a) := take_op a (cs "-") in
  if hit then let* (v, a) := unary a in Done (s32 (- v), a) else
  let '(hit, a) := take_op a (cs "+") in
  if hit then unary a else
  let '(hit, a) := take_op a (cs "!") in
  if hit then let* (v, a) := unary a in Done (if truth v then 0 else 1, a) else
  let '(hit, a) := take_op a (cs "~") in
  if hit then let* (v, a) := unary a in Done (Z.lnot v, a) else
  if is_var_start (ch (ar_p a)) then
    let '(name, a) := read_name a in
    let v := name_value name a in
    let '(hit, a) := take_op a (cs "++") in
    if hit then Done (step_name name true false a) else
    let '(hit, a) := take_op a (cs "--") in
    if hit then Done (step_name name false false a) else
    Done (v, a)
  else
    let '(hit, a) := take_op a (cs "(") in
    if hit then
      let* (v, a) := comma a in
      let '(closed, a) := take_op a (cs ")") in
      Done (v, if closed then a else set_bad a)
    else
      match read_number a with
      | (Some num, a) => Done (num, a)
      | (None, a) => Done (0, set_bad a)
      end.

Definition ar_unary (comma unary : Eval) : Eval := fun a =>
  let a := set_depth (ar_depth a + 1) a in
  if ARITH_MAX_DEPTH <? ar_depth a then Done (0, set_bad a)
  else
    let* (v, a) := unary_body comma unary a in
    Done (v, set_depth (ar_depth a - 1) a).

Definition assign_ops : list (list Z) :=
  [cs "<<="; cs ">>="; cs "+="; cs "-="; cs "*="; cs "/="; cs "%="; cs "&="; cs "^="; cs "|="; cs "="].

(** The value [name op= rhs] assigns; [None] is the division by zero.  A shift
    count is taken modulo 32, as the i386 shift instructions do. *)
Definition compound (op : list Z) (cur rhs : Z) : outcome (option Z) :=
  if strcmp op (cs "=") =? 0 then Done (Some rhs)
  else
    let kind := ch op in
    if kind =? chr "+" then Done (Some (s32 (cur + rhs)))
    else if kind =? chr "-" then Done (Some (s32 (cur - rhs)))
    else if kind =? chr "*" then Done (Some (s32 (cur * rhs)))
    else if kind =? chr "/" then
      if rhs =? 0 then Done None
      else if divides cur rhs then Done (Some (Z.quot cur rhs)) else Trap
    else if kind =? chr "%" then
      if rhs =? 0 then Done None
      else if divides cur rhs then Done (Some (Z.rem cur rhs)) else Trap
    else if kind =? chr "<" then Done (Some (s32 (Z.shiftl cur (Z.land rhs 31))))
    else if kind =? chr ">" then Done (Some (Z.shiftr cur (Z.land rhs 31)))
    else if kind =? chr "&" then Done (Some (Z.land cur rhs))
    else if kind =? chr "^" then Done (Some (Z.lxor cur rhs))
    else if kind =? chr "|" then Done (Some (Z.lor cur rhs))
    else Done (Some rhs).

(** The loop over [ops]; [Done None] when none of them follows the name. *)
Fixpoint try_ops (ops : list (list Z)) (name : list Z) (assign : Eval) (a : Ar)
    : outcome (option (Z * Ar) * Ar) :=
  match ops with
  | [] => Done (None, a)
  | op :: ops' =>
      if (ch op =? chr "=") && (at_ op 1 =? 0) &&
         (at_ (ar_p a) 0 =? chr "=") && (at_ (ar_p a) 1 =? chr "=")
      then try_ops ops' name assign a
      else
        let '(hit, a) := take_op a op in
        if negb hit then try_ops ops' name assign a
        else
          let cur := name_value name a in
          let* (rhs, a) := assign a in
          let* r := compound op cur rhs in
          match r with
          | None => Done (Some (0, set_bad a), a)
          | Some v => Done (Some (v, assign_var name v a), a)
          end
  end.

Definition ar_assign (ternary assign : Eval) : Eval := fun a =>
  let a := skip_space a in
  if is_var_start (ch (ar_p a)) then
    let start := ar_p a in
    let '(name, a) := read_name a in
    let* (r, a) := try_ops assign_ops name assign a in
    match r with
    | Some res => Done res
    | None => ternary (set_p start a)
    end
  else ternary a.

(** ** The knot *)

Record Evals := mkEvals { e_comma : Eval; e_assign : Eval; e_pow : Eval; e_unary : Eval }.

Definition level_unary (r : Evals) : Eval := ar_unary (e_comma r) (e_unary r).
Definition level_add (r : Evals) : Eval := ar_add (level_unary r).
Definition level_mul (r : Evals) : Eval := ar_mul (level_add r).
Definition level_pow (r : Evals) : Eval := ar_pow (level_mul r) (e_pow r).
Definition level_rel (r : Evals) : Eval := ar_rel (level_pow r).
Definition level_eq (r : Evals) : Eval := ar_eq (level_rel r).
Definition level_bitand (r : Evals) : Eval := ar_bitand (level_eq r).
Definition level_bitxor (r : Evals) : Eval := ar_bitxor (level_bitand r).
Definition level_bitor (r : Evals) : Eval := ar_bitor (level_bitxor r).
Definition level_and (r : Evals) : Eval := ar_and (level_bitor r).
Definition level_or (r : Evals) : Eval := ar_or (level_and r).
Definition level_ternary (r : Evals) : Eval := ar_ternary (level_or r) (e_assign r).
Definition level_assign (r : Evals) : Eval := ar_assign (level_ternary r) (e_assign r).
Definition level_comma (r : Evals) : Eval := ar_comma (level_assign r).

Fixpoint levels (fuel : nat) : Evals :=
  match fuel with
  | O => mkEvals (fun _ => NoFuel) (fun _ => NoFuel) (fun _ => NoFuel) (fun _ => NoFuel)
  | S f =>
      let r := levels f in
      mkEvals (level_comma r) (level_assign r) (level_pow r) (level_unary r)
  end.

(** Every nested call has consumed a byte of the text. *)
Definition eval_fuel (expr : list Z) : nat := S (length expr).

(** The value, [*ok] and the variables after the evaluation. *)
Definition arith_eval (st : Vars) (expr : option (list Z)) : outcome (Z * bool * Vars) :=
  match expr with
  | None => Done (0, false, st)
  | Some expr =>
      let* (v, a) := level_comma (levels (eval_fuel expr)) (mkAr expr 0 false st) in
      let a := skip_space a in
      Done (v, negb (ar_bad a || negb (ch (ar_p a) =? 0)), ar_vars a)
  end.

End Evaluator.

Example eval_1 : arith_eval true empty_vars (Some (cs " (1 + 2) * 3 ")) = Done (9, true, empty_vars).
Proof. reflexivity. Qed.
Example eval_2 : arith_eval true empty_vars (Some (cs "1+2*3")) = Done (9, true, empty_vars).
Proof. reflexivity. Qed.
Example eval_3 : obind (arith_eval true empty_vars (Some (cs "x = 5, y = x++ * 2, x - y")))
  (fun r => Done (fst r)) = Done (-4, true).
Proof. reflexivity. Qed.
Example eval_4 : obind (arith_eval true empty_vars (Some (cs "1 && 1"))) (fun r => Done (fst r)) = Done (0, false).
Proof. reflexivity. Qed.

(** * Termination *)

Definition len (a : Ar) : nat := length (ar_p a).

(** The call returned (or trapped) and did not move the cursor back. *)
Definition safe (r : outcome (Z * Ar)) (a : Ar) : Prop :=
  match r with
  | Done (_, a') => (len a' <= len a)%nat
  | Trap => True
  | NoFuel => False
  end.

Definition total_lt (n : nat) (ev : Eval) : Prop := forall a, (len a < n)%nat -> safe (ev a) a.

Lemma skip_spaces_len p : (length (skip_spaces p) <= length p)%nat.
Proof.
  induction p as [[|c [|d p]] IH] using (induction_ltof1 _ (@length Z)); unfold ltof in IH; cbn [skip_spaces].
  - lia.
  - bcase; simpl; lia.
  - bcase.
    + specialize (IH (d :: p) ltac:(simpl; lia)). cbn [length] in *. cbn [skip_spaces] in IH. lia.
    + bcase; [|lia]. specialize (IH p ltac:(simpl; lia)). cbn [length] in *. lia.
Qed.

Lemma skip_space_len a : (len (skip_space a) <= len a)%nat.
Proof. apply skip_spaces_len. Qed.

Lemma drop_op_len op p q : drop_op op p = Some q -> (length q + length op <= length p)%nat.
Proof.
  revert p; induction op as [|o op IH]; intros p; cbn [drop_op].
  - intros [= ->]. simpl. lia.
  - destruct p as [|c p]; [done|]. bcase; [|done]. intros H%IH. simpl. lia.
Qed.

Lemma take_op_len a op hit a' :
  take_op a op = (hit, a') ->
  (len a' <= len a)%nat /\ (hit = true -> (len a' + length op <= len a)%nat).
Proof.
  unfold take_op. pose proof (skip_space_len a) as Hs.
  destruct (drop_op op _) as [p|] eqn:E; intros [= <- <-]; unfold len in *.
  - apply drop_op_len in E. cbn in *. lia.
  - split; [lia|done].
Qed.

Lemma name_loop_len r p : (length (snd (name_loop r p)) <= length p)%nat.
Proof.
  revert p; induction r as [|r IH]; intros [|c p]; cbn [name_loop]; try (simpl; lia).
  bcase; [|simpl; lia]. specialize (IH p). destruct (name_loop r p). simpl in *. lia.
Qed.

Lemma read_name_len a name a' : read_name a = (name, a') -> (len a' <= len a)%nat.
Proof.
  unfold read_name. pose proof (name_loop_len 63 (ar_p a)) as H.
  destruct (name_loop 63 (ar_p a)) as [n p]. intros [= <- <-]. exact H.
Qed.

Lemma number_loop_len base v any p : (length (snd (fst (number_loop base v any p))) <= length p)%nat.
Proof.
  revert v any; induction p as [|c p IH]; intros v any; cbn [number_loop]; [simpl; lia|].
  bcase; [simpl; lia|]. specialize (IH (s32 (s32 (v * base) + digit_val c)) true).
  cbn [length]. lia.
Qed.

Lemma base_loop_len b q : (length (snd (base_loop b q)) <= length q)%nat.
Proof.
  revert b; induction q as [|c q IH]; intros b; cbn [base_loop]; [simpl; lia|].
  bcase; [|simpl; lia]. specialize (IH (s32 (s32 (b * 10) + (c - 48)))). cbn [length]. lia.
Qed.

Lemma read_number_len a r a' : read_number a = (r, a') -> (len a' <= len a)%nat.
Proof.
  unfold read_number. pose proof (base_loop_len 0 (ar_p a)) as Hb.
  destruct (base_loop 0 (ar_p a)) as [b q]. cbn [snd] in Hb. bcase.
  - bcase; [intros [= <- <-]; unfold len; simpl; lia|].
    pose proof (number_loop_len b 0 false (tail q)) as Hn.
    destruct (number_loop b 0 false (tail q)) as [[v r'] any]. intros [= <- <-].
    unfold len. cbn [fst snd set_p ar_p] in *.
    assert (length (tail q) <= length q)%nat by (destruct q; simpl; lia). lia.
  - match goal with |- (let '(_, _) := ?X in _) = _ -> _ => set (bp := X) end.
    assert (length (snd bp) <= length (ar_p a))%nat as Hbp.
    { unfold bp. repeat bcase; cbn [snd]; rewrite ?length_drop; lia. }
    destruct bp as [base p]. cbn [snd] in Hbp.
    pose proof (number_loop_len base 0 false p) as Hn.
    destruct (number_loop base 0 false p) as [[v r'] any]. cbn [fst snd] in Hn.
    repeat bcase; intros [= <- <-]; unfold len; cbn [set_p set_bad ar_p]; lia.
Qed.

Lemma safe_le r a a' : safe r a' -> (len a' <= len a)%nat -> safe r a.
Proof. destruct r as [[v b]| |]; simpl; lia || done. Qed.

Lemma safe_bind (ev : Eval) k a a0 n :
  total_lt n ev -> (len a < n)%nat -> (len a <= len a0)%nat ->
  (forall v a', (len a' <= len a)%nat -> safe (k (v, a')) a') ->
  safe (obind (ev a) k) a0.
Proof.
  intros Ht Hn Hle Hk. specialize (Ht a Hn). destruct (ev a) as [[v a']| |]; simpl in *; try done.
  eapply safe_le; [by apply Hk|]. lia.
Qed.

(** One [take_op] of the goal: case on the outcome, remembering the lengths. *)
Ltac step_op :=
  match goal with
  | |- context [take_op ?a ?op] =>
      let hit := fresh "hit" in let b := fresh "a" in let E := fresh "E" in
      destruct (take_op a op) as [hit b] eqn:E;
      apply take_op_len in E as [? ?];
      destruct hit;
      [match goal with H : true = true -> _ |- _ => specialize (H eq_refl); cbn [length cs] in H; simpl in H end|]
  end.

Ltac by_sub H := eapply safe_bind; [exact H|lia|lia|]; intros.

Lemma binop_loop_safe n op f sub fuel v a :
  (0 < length op)%nat -> total_lt n sub -> (len a < n)%nat -> (len a < fuel)%nat ->
  safe (binop_loop fuel op f sub v a) a.
Proof.
  intros Hop Hs. revert v a; induction fuel as [|fu IH]; intros v a Hn Hf; [lia|].
  cbn [binop_loop]. destruct (take_op a op) as [hit b] eqn:E. apply take_op_len in E as [? ?].
  destruct hit; [|simpl; lia]. specialize (H0 eq_refl). by_sub Hs. apply IH; lia.
Qed.

Lemma comma_loop_safe n sub fuel v a :
  total_lt n sub -> (len a < n)%nat -> (len a < fuel)%nat -> safe (comma_loop fuel sub v a) a.
Proof.
  intros Hs. revert v a; induction fuel as [|fu IH]; intros v a Hn Hf; [lia|].
  cbn [comma_loop]. step_op; [|simpl; lia]. by_sub Hs. apply IH; lia.
Qed.

Lemma eq_loop_safe n sub fuel v a :
  total_lt n sub -> (len a < n)%nat -> (len a < fuel)%nat -> safe (eq_loop fuel sub v a) a.
Proof.
  intros Hs. revert v a; induction fuel as [|fu IH]; intros v a Hn Hf; [lia|].
  cbn [eq_loop]. step_op; [by_sub Hs; apply IH; lia|].
  step_op; [by_sub Hs; apply IH; lia|simpl; lia].
Qed.

Lemma rel_loop_safe n sub fuel v a :
  total_lt n sub -> (len a < n)%nat -> (len a < fuel)%nat -> safe (rel_loop fuel sub v a) a.
Proof.
  intros Hs. revert v a; induction fuel as [|fu IH]; intros v a Hn Hf; [lia|].
  cbn [rel_loop]. do 6 (step_op; [by_sub Hs; apply IH; lia|]). simpl; lia.
Qed.

Lemma add_loop_safe n sub fuel v a :
  total_lt n sub -> (len a < n)%nat -> (len a < fuel)%nat -> safe (add_loop fuel sub v a) a.
Proof.
  intros Hs. revert v a; induction fuel as [|fu IH]; intros v a Hn Hf; [lia|].
  cbn [add_loop]. do 2 (step_op; [by_sub Hs; apply IH; lia|]). simpl; lia.
Qed.

Lemma mul_loop_safe n sub fuel v a :
  total_lt n sub -> (len a < n)%nat -> (len a < fuel)%nat -> safe (mul_loop fuel sub v a) a.
Proof.
  intros Hs. revert v a; induction fuel as [|fu IH]; intros v a Hn Hf; [lia|].
  cbn [mul_loop]. pose proof (skip_space_len a) as Hsk.
  destruct ((at_ (ar_p (skip_space a)) 0 =? chr "*") && _) eqn:Em.
  { bprop. destruct (ar_p (skip_space a)) as [|c p] eqn:Ep; [done|].
    assert (len (set_p p (skip_space a)) < len a)%nat.
    { unfold len in *. rewrite Ep in Hsk. simpl in *. lia. }
    cbn [tail]. by_sub Hs. apply IH; lia. }
  step_op.
  { by_sub Hs. bcase; [simpl; unfold len; cbn; lia|]. bcase; [|done]. apply IH; lia. }
  step_op; [|simpl; lia].
  by_sub Hs. bcase; [simpl; unfold len; cbn; lia|]. bcase; [|done]. apply IH; lia.
Qed.

Section Termination.
Variable mem : bool.

Lemma step_name_len name plus prefix a : len (snd (step_name mem name plus prefix a)) = len a.
Proof. unfold step_name. bcase; done. Qed.

Lemma unary_safe n comma unary :
  total_lt n comma -> total_lt n unary -> total_lt (S n) (ar_unary mem comma unary).
Proof.
  intros Hc Hu a Hn. unfold ar_unary. bcase; [simpl; unfold len; cbn; lia|].
  set (b := set_depth _ a). assert (len b = len a) as Hb by done.
  assert (safe (unary_body mem comma unary b) b) as Hs.
  2:{ destruct (unary_body mem comma unary b) as [[v c]| |]; simpl in *; done. }
  assert (len b < S n)%nat as Hbn by lia. clearbody b. clear Hb Hn E a.
  unfold unary_body.
  step_op.
  { destruct (read_name _) as [name c] eqn:En. apply read_name_len in En.
    pose proof (step_name_len name true true c). destruct (step_name _ _ _ _ _). simpl in *. lia. }
  step_op.
  { destruct (read_name _) as [name c] eqn:En. apply read_name_len in En.
    pose proof (step_name_len name false true c). destruct (step_name _ _ _ _ _). simpl in *. lia. }
  step_op; [by_sub Hu; simpl; lia|].
  step_op; [eapply safe_le; [apply Hu|]; lia|].
  step_op; [by_sub Hu; simpl; lia|].
  step_op; [by_sub Hu; simpl; lia|].
  bcase.
  - destruct (read_name _) as [name c] eqn:En. apply read_name_len in En.
    step_op.
    { pose proof (step_name_len name true false a5). destruct (step_name _ _ _ _ _). simpl in *. lia. }
    step_op; [|simpl; lia].
    pose proof (step_name_len name false false a6). destruct (step_name _ _ _ _ _). simpl in *. lia.
  - step_op.
    + by_sub Hc. step_op; simpl; unfold len in *; cbn; lia.
    + destruct (read_number _) as [[num|] c] eqn:Er; apply read_number_len in Er;
        simpl; unfold len in *; cbn; lia.
Qed.

Lemma try_ops_safe n ops name assign a :
  Forall (fun o => (0 < length o)%nat) ops -> total_lt n assign -> (len a < S n)%nat ->
  match try_ops mem ops name assign a with
  | Done (Some (_, b), _) => (len b <= len a)%nat
  | Done (None, b) => (len b <= len a)%nat
  | Trap => True
  | NoFuel => False
  end.
Proof.
  intros Hops Ha. revert a. induction Hops as [|op ops Hop Hops IH]; intros a Hn; cbn [try_ops]; [lia|].
  destruct (_ && _ && _ && _); [by apply IH|].
  destruct (take_op a op) as [hit b] eqn:E. apply take_op_len in E as [? Hhit].
  destruct hit; cbn [negb].
  - specialize (Hhit eq_refl). specialize (Ha b ltac:(lia)).
    destruct (assign b) as [[rhs c]| |]; simpl in *; try done.
    destruct (compound op (name_value name b) rhs) as [[v|]| |] eqn:Ec; simpl; try done.
    + unfold len in *. cbn. lia.
    + unfold len in *. cbn. lia.
    + revert Ec. unfold compound. repeat bcase; done.
  - specialize (IH b ltac:(lia)).
    destruct (try_ops mem ops name assign b) as [[[[v c]|] d]| |]; lia || done.
Qed.

Lemma assign_safe n ternary assign :
  total_lt (S n) ternary -> total_lt n assign -> total_lt (S n) (ar_assign mem ternary assign).
Proof.
  intros Ht Ha a Hn. unfold ar_assign. pose proof (skip_space_len a) as Hs.
  bcase; [|eapply safe_le; [apply Ht|]; lia].
  destruct (read_name (skip_space a)) as [name b] eqn:En. apply read_name_len in En.
  pose proof (try_ops_safe n assign_ops name assign b) as Hops.
  destruct (try_ops mem assign_ops name assign b) as [[[[v c]|] d]| |]; simpl;
    try (apply Hops; [repeat constructor; simpl; lia|done|lia]).
  - assert (len c <= len b)%nat by (apply Hops; [repeat constructor; simpl; lia|done|lia]). lia.
  - assert (len (set_p (skip_spaces (ar_p a)) d) <= len a)%nat by exact Hs.
    eapply safe_le; [apply Ht; lia|lia].
Qed.

(** A level that reads an operand and then loops. *)
Lemma level_safe n (sub : Eval) (loop : Z -> Ar -> outcome (Z * Ar)) :
  total_lt n sub -> (forall v a, (len a < n)%nat -> safe (loop v a) a) ->
  total_lt n (fun a => obind (sub a) (fun r => let '(v, a) := r in loop v a)).
Proof. intros Hs Hl a Hn. by_sub Hs. apply Hl. lia. Qed.

Lemma levels_safe f :
  let r := levels mem f in
  total_lt f (e_comma r) /\ total_lt f (e_assign r) /\ total_lt f (e_pow r) /\ total_lt f (e_unary r).
Proof.
  induction f as [|f IH]; [repeat split; intros a Ha; lia|]. cbn [levels].
  set (r := levels mem f) in *. destruct IH as (Hc & Ha & Hp & Hu).
  assert (total_lt (S f) (level_unary mem r)) as H1 by (by apply unary_safe).
  assert (total_lt (S f) (level_add mem r)) as H2.
  { apply level_safe; [done|]. intros v a Hn. by eapply add_loop_safe; [..|unfold loop_fuel, len; lia]. }
  assert (total_lt (S f) (level_mul mem r)) as H3.
  { apply level_safe; [done|]. intros v a Hn. by eapply mul_loop_safe; [..|unfold loop_fuel, len; lia]. }
  assert (total_lt (S f) (level_pow mem r)) as H4.
  { apply level_safe; [done|]. intros v a Hn. step_op; [by_sub Hp; simpl; lia|simpl; lia]. }
  assert (total_lt (S f) (level_rel mem r)) as H5.
  { apply level_safe; [done|]. intros v a Hn. by eapply rel_loop_safe; [..|unfold loop_fuel, len; lia]. }
  assert (total_lt (S f) (level_eq mem r)) as H6.
  { apply level_safe; [done|]. intros v a Hn. by eapply eq_loop_safe; [..|unfold loop_fuel, len; lia]. }
  assert (total_lt (S f) (level_bitand mem r)) as H7.
  { apply level_safe; [done|]. intros v a Hn. eapply binop_loop_safe; [| | |unfold loop_fuel, len; lia]; done || simpl; lia. }
  assert (total_lt (S f) (level_bitxor mem r)) as H8.
  { apply level_safe; [done|]. intros v a Hn. eapply binop_loop_safe; [| | |unfold loop_fuel, len; lia]; done || simpl; lia. }
  assert (total_lt (S f) (level_bitor mem r)) as H9.
  { apply level_safe; [done|]. intros v a Hn. eapply binop_loop_safe; [| | |unfold loop_fuel, len; lia]; done || simpl; lia. }
  assert (total_lt (S f) (level_and mem r)) as H10.
  { apply level_safe; [done|]. intros v a Hn. eapply binop_loop_safe; [| | |unfold loop_fuel, len; lia]; done || simpl; lia. }
  assert (total_lt (S f) (level_or mem r)) as H11.
  { apply level_safe; [done|]. intros v a Hn. eapply binop_loop_safe; [| | |unfold loop_fuel, len; lia]; done || simpl; lia. }
  assert (total_lt (S f) (level_ternary mem r)) as H12.
  { apply level_safe; [done|]. intros v a Hn. step_op; [|simpl; lia].
    by_sub Ha. step_op; cbn [negb]; [|simpl; unfold len in *; cbn; lia]. by_sub Ha. simpl. lia. }
  assert (total_lt (S f) (level_assign mem r)) as H13 by (by apply assign_safe).
  assert (total_lt (S f) (level_comma mem r)) as H14.
  { apply level_safe; [done|]. intros v a Hn. by eapply comma_loop_safe; [..|unfold loop_fuel, len; lia]. }
  cbn. auto.
Qed.

(** C30: the evaluator terminates on every text: it always produces a value and
    a verdict (or takes the processor's divide trap), whatever it is given. *)
Theorem arith_eval_terminates st expr : arith_eval mem st expr <> NoFuel.
Proof.
  unfold arith_eval. destruct expr as [expr|]; [|done].
  destruct (levels_safe (S (eval_fuel expr))) as (Hc & _). cbn [levels e_comma] in Hc.
  specialize (Hc (mkAr expr 0 false st)). unfold eval_fuel, len in *. cbn [ar_p] in Hc.
  destruct (level_comma _ _ _) as [[v a]| |]; simpl; try done.
  exfalso. apply Hc. lia.
Qed.

End Termination.
