(* ===== verification/ArithCorrect.v ===== *)
(** Correctness of the arithmetic evaluator of [Arith] on fully parenthesised
    expressions, and what its grammar does without the parentheses. *)
From S2P Require Import Prelude CString StrBuf Vars Arith.
Local Open Scope vnu_scope.

(** * Expressions *)

Inductive binop :=
  | BAdd | BSub | BMul | BDiv | BRem | BPow | BLe | BGe | BShl | BShr | BLt | BGt
  | BEq | BNe | BAnd | BXor | BOr.

Inductive unop := UNeg | UNot | UCompl.

Inductive aexp :=
  | ENum (n : Z)
  | EName (x : list Z)
  | EUn (o : unop) (e : aexp)
  | EBin (o : binop) (e1 e2 : aexp)
  | ECond (c t f : aexp)
  | EAssign (op : nat) (x : list Z) (e : aexp).

Definition bin_text (o : binop) : list Z :=
  match o with
  | BAdd => cs "+" | BSub => cs "-" | BMul => cs "*" | BDiv => cs "/" | BRem => cs "%"
  | BPow => cs "**" | BLe => cs "<=" | BGe => cs ">=" | BShl => cs "<<" | BShr => cs ">>"
  | BLt => cs "<" | BGt => cs ">" | BEq => cs "==" | BNe => cs "!=" | BAnd => cs "&"
  | BXor => cs "^" | BOr => cs "|"
  end.

Definition un_text (o : unop) : list Z :=
  match o with UNeg => cs "-" | UNot => cs "!" | UCompl => cs "~" end.

Definition assign_text (op : nat) : list Z := nth op assign_ops (cs "=").

(** The text of an expression: every operator application in parentheses. *)
Fixpoint print (e : aexp) : list Z :=
  match e with
  | ENum n => dec n
  | EName x => x
  | EUn o e => 40 :: un_text o ++ print e ++ [41]
  | EBin o e1 e2 => 40 :: print e1 ++ bin_text o ++ print e2 ++ [41]
  | ECond c t f => 40 :: print c ++ [63] ++ print t ++ [58] ++ print f ++ [41]
  | EAssign op x e => 40 :: x ++ assign_text op ++ print e ++ [41]
  end.

(** Its value in 32-bit arithmetic; [None] is a division by zero. *)
Definition bin_value (o : binop) (v r : Z) : outcome (option Z) :=
  match o with
  | BAdd => Done (Some (s32 (v + r)))
  | BSub => Done (Some (s32 (v - r)))
  | BMul => Done (Some (s32 (v * r)))
  | BDiv => if r =? 0 then Done None else if divides v r then Done (Some (Z.quot v r)) else Trap
  | BRem => if r =? 0 then Done None else if divides v r then Done (Some (Z.rem v r)) else Trap
  | BPow => Done (Some (pow_loop v r))
  | BLe => Done (Some (b2z (v <=? r)))
  | BGe => Done (Some (b2z (r <=? v)))
  | BShl => Done (Some (if (0 <=? r) && (r <? 31) then s32 (Z.shiftl v r) else 0))
  | BShr => Done (Some (if (0 <=? r) && (r <? 31) then Z.shiftr v r else 0))
  | BLt => Done (Some (b2z (v <? r)))
  | BGt => Done (Some (b2z (r <? v)))
  | BEq => Done (Some (b2z (v =? r)))
  | BNe => Done (Some (b2z (negb (v =? r))))
  | BAnd => Done (Some (Z.land v r))
  | BXor => Done (Some (Z.lxor v r))
  | BOr => Done (Some (Z.lor v r))
  end.

Definition un_value (o : unop) (v : Z) : Z :=
  match o with UNeg => s32 (- v) | UNot => if truth v then 0 else 1 | UCompl => Z.lnot v end.

Section Meaning.
Variable mem : bool.

(** Value, variables and error flag; both arms of a conditional are run. *)
Fixpoint sem (e : aexp) (st : Vars) (bad : bool) : outcome (Z * Vars * bool) :=
  match e with
  | ENum n => Done (n, st, bad)
  | EName x => Done (sh_atol (Some (var_get st x)), st, bad)
  | EUn o e => let* (v, st, bad) := sem e st bad in Done (un_value o v, st, bad)
  | EBin o e1 e2 =>
      let* (v, st, bad) := sem e1 st bad in
      let* (r, st, bad) := sem e2 st bad in
      let* w := bin_value o v r in
      match w with Some x => Done (x, st, bad) | None => Done (0, st, true) end
  | ECond c t f =>
      let* (c, st, bad) := sem c st bad in
      let* (t, st, bad) := sem t st bad in
      let* (f, st, bad) := sem f st bad in
      Done (if c =? 0 then f else t, st, bad)
  | EAssign op x e =>
      let cur := sh_atol (Some (var_get st x)) in
      let* (r, st, bad) := sem e st bad in
      let* w := compound (assign_text op) cur r in
      match w with
      | Some v => Done (v, fst (var_set mem st x (itoa v)), bad)
      | None => Done (0, st, true)
      end
  end.

End Meaning.

(** Names the evaluator reads whole; literals it does not wrap. *)
Definition name_ok (x : list Z) : Prop :=
  is_var_start (ch x) = true /\ Forall (fun c => is_var_char c = true) x /\ (length x <= 63)%nat.

Fixpoint exp_ok (e : aexp) : Prop :=
  match e with
  | ENum n => 0 <= n < 2 ^ 31
  | EName x => name_ok x
  | EUn _ e => exp_ok e
  | EBin _ e1 e2 => exp_ok e1 /\ exp_ok e2
  | ECond c t f => exp_ok c /\ exp_ok t /\ exp_ok f
  | EAssign op x e => (op < length assign_ops)%nat /\ name_ok x /\ exp_ok e
  end.

(** How many nested [ar_unary] calls the text needs. *)
Fixpoint height (e : aexp) : Z :=
  match e with
  | ENum _ | EName _ => 1
  | EUn _ e => 2 + height e
  | EBin _ e1 e2 => 1 + Z.max (height e1) (height e2)
  | ECond c t f => 1 + Z.max (height c) (Z.max (height t) (height f))
  | EAssign _ _ e => 1 + height e
  end.

Fixpoint need (e : aexp) : nat :=
  match e with
  | ENum _ | EName _ => 0
  | EUn _ e | EAssign _ _ e => 2 + need e
  | EBin _ e1 e2 => 2 + Nat.max (need e1) (need e2)
  | ECond c t f => 2 + Nat.max (need c) (Nat.max (need t) (need f))
  end.

(** * Scanning *)

(** The first byte of an expression, and of what may follow one. *)
Definition starts (c : Z) : bool := is_var_char c || (c =? 40).
Definition spacey (c : Z) : bool := (c =? 32) || (c =? 9) || (c =? 10) || (c =? 92).
Definition follows (p : list Z) : bool :=
  negb (is_var_char (ch p)) && negb (ch p =? 35) && negb (spacey (ch p)) &&
  negb ((ch p =? 43) && (at_ p 1 =? 43)) && negb ((ch p =? 45) && (at_ p 1 =? 45)).

Lemma starts_cases c : starts c = true -> c = 40 \/ c = 95 \/ 97 <= c <= 122 \/ 65 <= c <= 90 \/ 48 <= c <= 57.
Proof. unfold starts, is_var_char, is_var_start, is_digit. lia. Qed.

Lemma skip_nospace p : spacey (ch p) = false -> skip_spaces p = p.
Proof.
  destruct p as [|c p]; [done|]. unfold spacey. change (ch (c :: p)) with c. intros H. cbn [skip_spaces].
  bcase; [lia|]. destruct p as [|d p]; [done|]. bcase; [lia|done].
Qed.

Lemma take_op_at p d b st op :
  spacey (ch p) = false ->
  take_op (mkAr p d b st) op =
    match drop_op op p with Some q => (true, mkAr q d b st) | None => (false, mkAr p d b st) end.
Proof.
  intros H. unfold take_op, skip_space. cbn [ar_p]. rewrite skip_nospace by done. cbn.
  by destruct (drop_op op p).
Qed.

Lemma drop_op_app op q : drop_op op (op ++ q) = Some q.
Proof. induction op as [|o op IH]; [done|]. cbn. rewrite Z.eqb_refl. exact IH. Qed.

Lemma name_loop_name r x rest :
  Forall (fun c => is_var_char c = true) x -> (length x <= r)%nat -> is_var_char (ch rest) = false ->
  name_loop r (x ++ rest) = (x, rest).
Proof.
  intros Hx. revert r; induction Hx as [|c x Hc Hx IH]; intros r Hr Hrest.
  - destruct r, rest as [|d rest]; try done. cbn. change (ch (d :: rest)) with d in Hrest. by rewrite Hrest.
  - destruct r as [|r]; [simpl in Hr; lia|]. cbn [app name_loop]. rewrite Hc, IH by (simpl in *; lia || done). done.
Qed.

Lemma digit_val_digit c : 48 <= c <= 57 -> digit_val c = c - 48 /\ is_digit c = true.
Proof. intros H. unfold digit_val. assert (is_digit c = true) as -> by (unfold is_digit; lia). done. Qed.

Lemma digit_val_none c : is_var_char c = false -> digit_val c = -1.
Proof. unfold digit_val, is_var_char, is_var_start, is_digit. repeat bcase; lia. Qed.

Lemma base_loop_digits b ds rest :
  Forall (fun c => 48 <= c <= 57) ds -> is_digit (ch rest) = false ->
  snd (base_loop b (ds ++ rest)) = rest.
Proof.
  intros Hd. revert b; induction Hd as [|c ds Hc Hd IH]; intros b Hr.
  - destruct rest as [|d rest]; [done|]. cbn. change (ch (d :: rest)) with d in Hr. by rewrite Hr.
  - cbn [app base_loop]. destruct (digit_val_digit c Hc) as [_ ->]. by apply IH.
Qed.

Lemma number_loop_digits v any ds rest :
  Forall (fun c => 48 <= c <= 57) ds -> is_var_char (ch rest) = false ->
  number_loop 10 v any (ds ++ rest) =
    (fold_left (fun a c => s32 (s32 (a * 10) + (c - 48))) ds v, rest, any || negb (length ds =? 0)%nat).
Proof.
  intros Hd. revert v any; induction Hd as [|c ds Hc Hd IH]; intros v any Hr.
  - cbn. rewrite orb_false_r. destruct rest as [|d rest]; [done|]. cbn [number_loop].
    change (ch (d :: rest)) with d in Hr. rewrite digit_val_none by done. done.
  - cbn [app number_loop fold_left]. destruct (digit_val_digit c Hc) as [-> _].
    destruct (Z.ltb_spec (c - 48) 0); [lia|]. destruct (Z.leb_spec 10 (c - 48)); [lia|]. cbn [orb].
    rewrite IH by done. cbn. by rewrite orb_true_r.
Qed.

Lemma s32_fold a ds :
  s32 (fold_left (fun a c => s32 (s32 (a * 10) + (c - 48))) ds a) = s32 (dec_val a ds).
Proof.
  apply s32_eq_mod. revert a; induction ds as [|c ds IH]; intros a; [done|].
  cbn [fold_left]. rewrite IH. unfold dec_val. cbn [fold_left]. apply (dec_val_mod _ _ ds).
  rewrite s32_mod, <- Zplus_mod_idemp_l, s32_mod, Zplus_mod_idemp_l. done.
Qed.

Lemma fold_range ds a :
  ds <> [] -> is_s32 (fold_left (fun a c => s32 (s32 (a * 10) + (c - 48))) ds a).
Proof.
  destruct ds as [|c ds] using rev_ind; [done|]. intros _. rewrite fold_left_app. apply s32_range.
Qed.

Lemma read_number_dec n rest d b st :
  0 <= n < 2 ^ 31 -> is_var_char (ch rest) = false -> ch rest <> 35 ->
  read_number (mkAr (dec n ++ rest) d b st) = (Some n, mkAr rest d b st).
Proof.
  intros Hn Hr H35. pose proof (dec_digits n ltac:(lia)) as Hd. pose proof (dec_len n ltac:(lia)) as Hl.
  assert (is_digit (ch rest) = false) as Hrd.
  { unfold is_var_char in Hr. apply orb_false_iff in Hr. tauto. }
  unfold read_number. cbn [ar_p].
  pose proof (base_loop_digits 0 (dec n) rest Hd Hrd) as Hb.
  destruct (base_loop 0 (dec n ++ rest)) as [bb q]. cbn [snd] in Hb. subst q.
  rewrite (proj2 (Z.eqb_neq (ch rest) (chr "#")) H35), andb_false_r.
  match goal with |- (let '(_, _) := ?X in _) = _ => assert (X = (10, dec n ++ rest)) as -> end.
  { destruct (Z.eqb_spec n 0) as [->|Hnz].
    - change (dec 0 ++ rest) with (48 :: rest). rewrite at_cons_S. change (ch (48 :: rest)) with 48.
      unfold is_var_char, is_var_start, is_digit in Hr.
      change (chr "x") with 120. change (chr "X") with 88. change (chr "b") with 98. change (chr "B") with 66.
      repeat bcase; lia || done.
    - assert (ch (dec n ++ rest) <> 48) as Hne.
      { unfold at_. rewrite app_nth1 by lia. apply dec_nonzero. lia. }
      rewrite (proj2 (Z.eqb_neq _ _) Hne). done. }
  rewrite number_loop_digits by done. cbn [orb Z.eqb Pos.eqb negb].
  destruct (Nat.eqb_spec (length (dec n)) 0); [lia|]. cbn [negb].
  do 2 f_equal. rewrite <- (s32_id (fold_left _ _ _)).
  2:{ apply fold_range. intros E. rewrite E in Hl. simpl in Hl. lia. }
  rewrite s32_fold, dec_value, s32_id by (unfold is_s32; lia). done.
Qed.

(** * Climbing the levels

    The levels are numbered from the tightest: 0 is [ar_unary], 11 is
    [ar_ternary].  [loop k] is what level [k] does after its first operand. *)

Definition level (mem : bool) (k : nat) (r : Evals) : Eval :=
  match k with
  | 0%nat => level_unary mem r | 1%nat => level_add mem r | 2%nat => level_mul mem r | 3%nat => level_pow mem r
  | 4%nat => level_rel mem r | 5%nat => level_eq mem r | 6%nat => level_bitand mem r | 7%nat => level_bitxor mem r
  | 8%nat => level_bitor mem r | 9%nat => level_and mem r | 10%nat => level_or mem r | _ => level_ternary mem r
  end.

Definition loop (mem : bool) (k : nat) (r : Evals) (fuel : nat) (v : Z) (a : Ar) : outcome (Z * Ar) :=
  match k with
  | 1%nat => add_loop fuel (level_unary mem r) v a
  | 2%nat => mul_loop fuel (level_add mem r) v a
  | 3%nat =>
      let '(hit, a) := take_op a (cs "**") in
      if hit then let* (x, a) := e_pow r a in Done (pow_loop v x, a) else Done (v, a)
  | 4%nat => rel_loop fuel (level_pow mem r) v a
  | 5%nat => eq_loop fuel (level_rel mem r) v a
  | 6%nat => binop_loop fuel (cs "&") Z.land (level_eq mem r) v a
  | 7%nat => binop_loop fuel (cs "^") Z.lxor (level_bitand mem r) v a
  | 8%nat => binop_loop fuel (cs "|") Z.lor (level_bitxor mem r) v a
  | 9%nat => binop_loop fuel (cs "&&") (fun v r => b2z (truth v && truth r)) (level_bitor mem r) v a
  | 10%nat => binop_loop fuel (cs "||") (fun v r => b2z (truth v || truth r)) (level_and mem r) v a
  | _ =>
      let '(hit, a) := take_op a (cs "?") in
      if hit then
        let* (t, a) := e_assign r a in
        let '(colon, a) := take_op a (cs ":") in
        if negb colon then Done (0, set_bad a)
        else let* (f, a) := e_assign r a in Done (if v =? 0 then f else t, a)
      else Done (v, a)
  end.

(** The operators of a level, and the text on which it stops. *)
Definition level_ops (k : nat) : list (list Z) :=
  match k with
  | 1%nat => [cs "+"; cs "-"] | 2%nat => [cs "/"; cs "%"] | 3%nat => [cs "**"]
  | 4%nat => [cs "<="; cs ">="; cs "<<"; cs ">>"; cs "<"; cs ">"] | 5%nat => [cs "=="; cs "!="]
  | 6%nat => [cs "&"] | 7%nat => [cs "^"] | 8%nat => [cs "|"] | 9%nat => [cs "&&"] | 10%nat => [cs "||"] | _ => [cs "?"]
  end.

Definition absent (p : list Z) (op : list Z) : bool :=
  match drop_op op p with Some _ => false | None => true end.

Definition quiet (k : nat) (p : list Z) : bool :=
  negb (spacey (ch p)) && forallb (absent p) (level_ops k) &&
  negb ((k =? 2)%nat && (ch p =? 42) && negb (at_ p 1 =? 42)).

Lemma take_op_absent p d b st op :
  spacey (ch p) = false -> absent p op = true -> take_op (mkAr p d b st) op = (false, mkAr p d b st).
Proof. intros Hs Ha. rewrite take_op_at by done. unfold absent in Ha. by destruct (drop_op op p). Qed.

Lemma level_S mem k r a :
  (k < 11)%nat -> level mem (S k) r a = let* (v, a) := level mem k r a in loop mem (S k) r (loop_fuel a) v a.
Proof. intros Hk. do 11 (destruct k as [|k]; [reflexivity|]). lia. Qed.

Lemma loop_quiet mem k r n v p d b st :
  quiet k p = true -> loop mem k r (S n) v (mkAr p d b st) = Done (v, mkAr p d b st).
Proof.
  unfold quiet. intros H. bprop. rename H0 into Hm.
  do 12 (destruct k as [|k]; [cbn [level_ops forallb] in H1; bprop; cbn [loop];
    cbn [add_loop mul_loop rel_loop eq_loop binop_loop]; unfold skip_space; cbn [ar_p set_p]; 
    rewrite ?skip_nospace by done; unfold set_p; cbn [ar_p ar_depth ar_bad ar_vars];
    cbn [Nat.eqb andb] in Hm; change (chr "*") with 42; rewrite ?Hm;
    rewrite !take_op_absent by done; reflexivity|]).
  cbn [level_ops forallb] in H1; bprop. cbn [loop]. rewrite !take_op_absent by done. reflexivity.
Qed.

(** [ev] reads the text of an expression whose meaning is [m], leaving the
    cursor at [q] and the depth as it was. *)
Definition outcome_at (m : outcome (Z * Vars * bool)) (q : list Z) (d : Z) : outcome (Z * Ar) :=
  let* (v, st, b) := m in Done (v, mkAr q d b st).

Lemma climb mem r k n a m q d :
  (k + n <= 11)%nat -> level mem k r a = outcome_at m q d ->
  (forall j, (k < j <= k + n)%nat -> quiet j q = true) ->
  level mem (k + n) r a = outcome_at m q d.
Proof.
  intros Hk Hl Hq. induction n as [|n IH]; [by rewrite Nat.add_0_r|].
  rewrite Nat.add_succ_r, level_S, IH by (lia || intros; apply Hq; lia).
  unfold outcome_at. destruct m as [[[v st] b]| |]; try done. cbn [obind].
  apply loop_quiet, Hq. lia.
Qed.

Definition bin_level (o : binop) : nat :=
  match o with
  | BAdd | BSub => 1 | BMul | BDiv | BRem => 2 | BPow => 3
  | BLe | BGe | BShl | BShr | BLt | BGt => 4 | BEq | BNe => 5
  | BAnd => 6 | BXor => 7 | BOr => 8
  end%nat.

(** The evaluator of an operator's right operand. *)
Definition rhs (mem : bool) (o : binop) (r : Evals) : Eval :=
  match o with BPow => e_pow r | _ => level mem (bin_level o - 1) r end.

Definition bin_result (o : binop) (v : Z) (m : outcome (Z * Vars * bool)) : outcome (Z * Vars * bool) :=
  let* (x, st, b) := m in
  let* w := bin_value o v x in
  match w with Some y => Done (y, st, b) | None => Done (0, st, true) end.

Lemma starts_neq c k :
  starts c = true -> k <> 40 -> is_var_char k = false -> (c =? k) = false.
Proof.
  unfold starts. intros Hc Hk Hv. apply Z.eqb_neq. intros ->. rewrite Hv in Hc.
  cbn in Hc. apply Z.eqb_eq in Hc. lia.
Qed.

Lemma starts_spacey p : starts (ch p) = true -> spacey (ch p) = false.
Proof. intros H%starts_cases. unfold spacey. lia. Qed.

(** Spell out the literals of the code. *)
Ltac lits :=
  repeat match goal with
  | |- context [cs ?s] => let t := eval vm_compute in (cs s) in change (cs s) with t
  | |- context [chr ?s] => let t := eval vm_compute in (chr s) in change (chr s) with t
  end.

Lemma loop_bin mem o r n v p d b st m q :
  starts (ch p) = true -> (length p > 0)%nat -> quiet (bin_level o) q = true -> (n > 0)%nat ->
  rhs mem o r (mkAr p d b st) = outcome_at m q d ->
  loop mem (bin_level o) r (S n) v (mkAr (bin_text o ++ p) d b st) = outcome_at (bin_result o v m) q d.
Proof.
  intros Hp HL Hq Hn Hr. destruct p as [|c p]; [simpl in HL; lia|]. change (ch (c :: p)) with c in Hp.
  unfold outcome_at, bin_result in *. destruct n as [|n]; [lia|].
  pose proof (fun v b st => loop_quiet mem _ r n v q d b st Hq) as Hstop. clear Hq.
  remember (S n) as n' eqn:En. clear En.
  assert (forall k, k <> 40 -> is_var_char k = false -> (c =? k) = false) as Hc by (intros; by apply starts_neq).
  destruct o; cbn [bin_level rhs level Nat.sub loop bin_text] in *;
    cbn [ar_p app add_loop mul_loop rel_loop eq_loop binop_loop]; unfold skip_space; lits;
    cbn [ar_p app]; rewrite ?skip_nospace by reflexivity; unfold set_p; cbn [ar_p ar_depth ar_bad ar_vars tail];
    repeat (rewrite take_op_at by reflexivity; cbn [drop_op Z.eqb Pos.eqb]; rewrite ?Hc by (lia || reflexivity));
    rewrite ?at_cons_S; change (at_ (c :: p) 0) with c; rewrite ?Hc by (lia || reflexivity);
    cbn [at_ nth Z.eqb Pos.eqb andb negb]; rewrite Hr;
    destruct m as [[[x st'] b']| |]; cbn [obind bin_value]; try reflexivity; try (apply Hstop).
  all: repeat (bcase; [reflexivity|]); bcase; [apply Hstop|reflexivity].
Qed.

(** Text at which every level stops: the end, a closing parenthesis, a colon. *)
Definition stops (p : list Z) : Prop := p = [] \/ ch p = 41 \/ ch p = 58.

Lemma level_ops_head k :
  forallb (fun op => match op with o :: _ => negb ((o =? 41) || (o =? 58)) | [] => false end) (level_ops k)
    = true.
Proof. do 12 (destruct k as [|k]; [reflexivity|]). reflexivity. Qed.

Lemma stops_quiet k p : stops p -> quiet k p = true.
Proof.
  intros Hs. unfold quiet.
  assert (ch p = 0 \/ ch p = 41 \/ ch p = 58) as Hch by (destruct Hs as [->|Hs]; [left; done|right; done]).
  apply andb_true_iff; split; [apply andb_true_iff; split|].
  - unfold spacey. lia.
  - apply forallb_forall. intros op Hin.
    pose proof (proj1 (forallb_forall _ _) (level_ops_head k) op Hin) as Ho.
    destruct op as [|o op]; [done|]. unfold absent. cbn [drop_op].
    destruct Hs as [->|Hs]; [done|]. destruct p as [|c p]; [done|]. change (ch (c :: p)) with c in Hs.
    destruct (Z.eqb_spec c o); [lia|done].
  - lia.
Qed.

Lemma bin_quiet o k p :
  (0 < k < bin_level o)%nat -> starts (ch p) = true -> (length p > 0)%nat ->
  quiet k (bin_text o ++ p) = true.
Proof.
  intros Hk Hp HL. destruct p as [|c p]; [simpl in HL; lia|]. change (ch (c :: p)) with c in Hp.
  destruct k as [|k]; [lia|].
  destruct o; cbn [bin_level] in Hk; do 7 (destruct k as [|k]; [try lia; reflexivity|]); lia.
Qed.

Lemma starts_quiet_cond k p : (0 < k < 11)%nat -> quiet k (63 :: p) = true.
Proof. intros Hk. do 11 (destruct k as [|k]; [try lia; reflexivity|]). lia. Qed.

(** The loop over the assignment operators passes [op] by at [q]. *)
Definition passed (q op : list Z) : bool :=
  absent q op || ((ch op =? 61) && (at_ op 1 =? 0) && (ch q =? 61) && (at_ q 1 =? 61)).

Definition unassigned (q : list Z) : bool := forallb (passed q) assign_ops.

Lemma try_ops_pass mem ops ops' name assign q d b st :
  spacey (ch q) = false -> forallb (passed q) ops = true ->
  try_ops mem (ops ++ ops') name assign (mkAr q d b st) = try_ops mem ops' name assign (mkAr q d b st).
Proof.
  intros Hs. induction ops as [|op ops IH]; cbn [forallb try_ops app]; [done|].
  intros [H1 H2]%andb_true_iff. lits. cbn [ar_p]. bcase; [by apply IH|].
  unfold passed in H1. apply orb_true_iff in H1 as [H1|H1]; [|congruence].
  rewrite take_op_absent by done. cbn [negb]. by apply IH.
Qed.

Lemma try_ops_none mem ops name assign q d b st :
  spacey (ch q) = false -> forallb (passed q) ops = true ->
  try_ops mem ops name assign (mkAr q d b st) = Done (None, mkAr q d b st).
Proof. intros. rewrite <- (app_nil_r ops). by rewrite try_ops_pass. Qed.

Lemma read_name_at x q d b st :
  name_ok x -> is_var_char (ch q) = false ->
  read_name (mkAr (x ++ q) d b st) = (x, mkAr q d b st).
Proof.
  intros (H1 & H2 & H3) Hq. unfold read_name. cbn [ar_p]. by rewrite name_loop_name.
Qed.

Lemma name_nonempty x : name_ok x -> exists c x', x = c :: x' /\ is_var_start c = true.
Proof. intros (H1 & _). destruct x as [|c x]; [done|]. by exists c, x. Qed.

Lemma name_start x q : name_ok x -> is_var_start (ch (x ++ q)) = true /\ spacey (ch (x ++ q)) = false.
Proof.
  intros (c & x' & -> & Hc)%name_nonempty. cbn [app]. change (ch (c :: x' ++ q)) with c.
  split; [done|]. revert Hc. unfold is_var_start, spacey. lia.
Qed.

Lemma assign_name mem ternary assign x q d b st :
  name_ok x -> is_var_char (ch q) = false -> spacey (ch q) = false -> unassigned q = true ->
  ar_assign mem ternary assign (mkAr (x ++ q) d b st) = ternary (mkAr (x ++ q) d b st).
Proof.
  intros Hx Hq Hs Hu. destruct (name_start x q Hx) as [Hv Hsp].
  unfold ar_assign, skip_space. cbn [ar_p]. rewrite skip_nospace by done. unfold set_p.
  cbn [ar_p ar_depth ar_bad ar_vars]. rewrite Hv, read_name_at by done.
  rewrite try_ops_none by done. reflexivity.
Qed.

Lemma assign_other mem ternary assign p d b st :
  is_var_start (ch p) = false -> spacey (ch p) = false ->
  ar_assign mem ternary assign (mkAr p d b st) = ternary (mkAr p d b st).
Proof.
  intros Hv Hs. unfold ar_assign, skip_space. cbn [ar_p]. rewrite skip_nospace by done.
  unfold set_p. cbn [ar_p]. by rewrite Hv.
Qed.

(** * The main induction *)

Lemma absent_twice k p : (ch p =? k) && (at_ p 1 =? k) = false -> absent p [k; k] = true.
Proof.
  unfold absent. destruct p as [|c1 [|c2 p]]; cbn [drop_op]; [done|by destruct (c1 =? k)|].
  change (at_ (c1 :: c2 :: p) 0) with c1. change (at_ (c1 :: c2 :: p) 1) with c2.
  by destruct (c1 =? k), (c2 =? k).
Qed.

Section Reading.
Variable mem : bool.

Lemma obind_outcome_at m q d (f : Z * Ar -> outcome (Z * Ar)) :
  obind (outcome_at m q d) f = let* (v, st, b) := m in f (v, mkAr q d b st).
Proof. unfold outcome_at. destruct m as [[[v st] b]| |]; done. Qed.

(** [take_op] failing on each of the unary operators. *)
Lemma unary_paren r p d b st m rest :
  d < 64 -> e_comma r (mkAr p (d + 1) b st) = outcome_at m (41 :: rest) (d + 1) ->
  level_unary mem r (mkAr (40 :: p) d b st) = outcome_at m rest d.
Proof.
  intros Hd Hc. unfold level_unary, ar_unary, set_depth, ARITH_MAX_DEPTH. cbn [ar_depth ar_p ar_bad ar_vars].
  destruct (Z.ltb_spec 64 (d + 1)); [lia|]. unfold unary_body. lits.
  repeat (rewrite take_op_at by reflexivity; cbn [drop_op Z.eqb Pos.eqb]).
  change (is_var_start (ch (40 :: p))) with false. cbn [ar_p]. rewrite Hc.
  unfold outcome_at. destruct m as [[[v st'] b']| |]; try reflexivity. cbn [obind].
  rewrite take_op_at by reflexivity. cbn [drop_op Z.eqb Pos.eqb]. cbn. do 3 f_equal. lia.
Qed.

Lemma unary_op r o p d b st m rest :
  d < 64 -> starts (ch p) = true -> (length p > 0)%nat ->
  e_unary r (mkAr p (d + 1) b st) = outcome_at m rest (d + 1) ->
  level_unary mem r (mkAr (un_text o ++ p) d b st) =
    outcome_at (let* (v, st, b) := m in Done (un_value o v, st, b)) rest d.
Proof.
  intros Hd Hp HL Hu. destruct p as [|c p]; [simpl in HL; lia|]. change (ch (c :: p)) with c in Hp.
  unfold level_unary, ar_unary, set_depth, ARITH_MAX_DEPTH. cbn [ar_depth ar_p ar_bad ar_vars].
  destruct (Z.ltb_spec 64 (d + 1)); [lia|]. unfold unary_body, un_text. 
  destruct o; lits; cbn [app];
    repeat (rewrite take_op_at by reflexivity; cbn [drop_op Z.eqb Pos.eqb];
            rewrite ?(starts_neq c) by (done || lia)); rewrite Hu; unfold outcome_at;
    (destruct m as [[[v st'] b']| |]; try reflexivity); cbn; do 3 f_equal; lia.
Qed.

Lemma unary_name r x rest d b st :
  d < 64 -> name_ok x -> follows rest = true ->
  level_unary mem r (mkAr (x ++ rest) d b st) =
    outcome_at (Done (sh_atol (Some (var_get st x)), st, b)) rest d.
Proof.
  intros Hd Hx Hf. unfold follows in Hf. bprop.
  destruct (name_nonempty x Hx) as (c & x' & Ex & Hc). destruct (name_start x rest Hx) as [Hv Hsp].
  unfold level_unary, ar_unary, set_depth, ARITH_MAX_DEPTH. cbn [ar_depth ar_p ar_bad ar_vars].
  destruct (Z.ltb_spec 64 (d + 1)); [lia|]. unfold unary_body. lits.
  assert (forall k op, k <> 40 -> is_var_char k = false -> absent (x ++ rest) (k :: op) = true) as Hab.
  { intros k op Hk Hkv. rewrite Ex. unfold absent. cbn [app drop_op].
    rewrite starts_neq; [done| |done|done]. unfold starts, is_var_char. by rewrite Hc. }
  rewrite !take_op_absent by (done || apply Hab; done || lia).
  cbn [ar_p]. rewrite Hv, read_name_at by done. unfold name_value. cbn [ar_vars].
  rewrite !take_op_absent by (done || by apply absent_twice).
  cbn. do 3 f_equal. lia.
Qed.

Lemma unary_num r n rest d b st :
  d < 64 -> 0 <= n < 2 ^ 31 -> follows rest = true ->
  level_unary mem r (mkAr (dec n ++ rest) d b st) = outcome_at (Done (n, st, b)) rest d.
Proof.
  intros Hd Hn Hf. unfold follows in Hf. bprop.
  pose proof (dec_len n ltac:(lia)) as HL. pose proof (dec_digits n ltac:(lia)) as Hdg.
  assert (exists c x, dec n = c :: x /\ 48 <= c <= 57) as (c & x & Ex & Hc).
  { destruct (dec n) as [|c x]; [simpl in HL; lia|]. exists c, x. apply Forall_cons in Hdg. tauto. }
  unfold level_unary, ar_unary, set_depth, ARITH_MAX_DEPTH. cbn [ar_depth ar_p ar_bad ar_vars].
  destruct (Z.ltb_spec 64 (d + 1)); [lia|]. unfold unary_body. lits.
  assert (forall k op, is_digit k = false -> absent (dec n ++ rest) (k :: op) = true) as Hab.
  { intros k op Hk. rewrite Ex. unfold absent. cbn [app drop_op].
    destruct (Z.eqb_spec c k); [|done]. subst k. unfold is_digit in Hk. lia. }
  assert (ch (dec n ++ rest) = c) as Hch by (by rewrite Ex).
  assert (spacey (ch (dec n ++ rest)) = false) as Hsp by (rewrite Hch; unfold spacey; lia).
  rewrite !take_op_absent by (done || by apply Hab).
  cbn [ar_p]. assert (is_var_start (ch (dec n ++ rest)) = false) as -> by (rewrite Hch; unfold is_var_start; lia).
  rewrite read_number_dec by done. cbn. do 3 f_equal. lia.
Qed.

Lemma print_starts e rest : exp_ok e -> starts (ch (print e ++ rest)) = true /\ (length (print e) > 0)%nat.
Proof.
  assert (forall c p, starts c = true -> starts (ch ((c :: p) ++ rest)) = true /\ (length (c :: p) > 0)%nat) as Hs
    by (intros; split; [done|simpl; lia]).
  destruct e; intros He; cbn [print] in *; try (apply Hs; reflexivity).
  - pose proof (dec_len n ltac:(simpl in He; lia)) as HL. pose proof (dec_digits n ltac:(simpl in He; lia)) as Hdg.
    destruct (dec n) as [|c x]; [simpl in HL; lia|]. apply Hs. apply Forall_cons in Hdg as [Hc _].
    unfold starts, is_var_char, is_digit. lia.
  - destruct (name_nonempty x He) as (c & x' & -> & Hc). apply Hs. unfold starts, is_var_char. by rewrite Hc.
Qed.

(** The text of an expression at the assignment level, when no assignment
    operator follows it. *)
Lemma assign_pass ternary assign e q d b st :
  exp_ok e -> follows q = true -> unassigned q = true ->
  ar_assign mem ternary assign (mkAr (print e ++ q) d b st) = ternary (mkAr (print e ++ q) d b st).
Proof.
  intros He Hf Hu. destruct (print_starts e q He) as [Hs _].
  destruct (is_var_start (ch (print e ++ q))) eqn:Hv; [|by apply assign_other; [|apply starts_spacey]].
  unfold follows in Hf. bprop. destruct e; try done.
  - exfalso. cbn [print] in Hv. simpl in He. pose proof (dec_digits n ltac:(lia)) as Hdg.
    pose proof (dec_len n ltac:(lia)) as HL. destruct (dec n) as [|c x]; [simpl in HL; lia|].
    apply Forall_cons in Hdg as [Hc _]. cbn [app] in Hv. change (ch (c :: x ++ q)) with c in Hv.
    unfold is_var_start in Hv. lia.
  - by apply assign_name.
Qed.

Lemma stops_text q : stops q -> follows q = true /\ unassigned q = true.
Proof.
  unfold stops. destruct q as [|c q]; [done|]. change (ch (c :: q)) with c.
  intros [?|[-> | ->]]; [done|..]; split; reflexivity.
Qed.

Lemma bin_follows o p :
  starts (ch p) = true -> (length p > 0)%nat ->
  follows (bin_text o ++ p) = true /\ unassigned (bin_text o ++ p) = true.
Proof.
  intros Hp HL. destruct p as [|c p]; [simpl in HL; lia|]. change (ch (c :: p)) with c in Hp.
  assert (forall k, k <> 40 -> is_var_char k = false -> (c =? k) = false) as Hc by (intros; by apply starts_neq).
  unfold follows, unassigned, passed, assign_ops, absent, bin_text.
  destruct o; lits; cbn [app forallb drop_op Z.eqb Pos.eqb];
    rewrite ?at_cons_S; change (at_ (c :: p) 0) with c; rewrite ?Hc by (lia || reflexivity); split; reflexivity.
Qed.

Definition reads (e : aexp) : Prop := forall f d b st rest,
  (need e <= f)%nat -> d + height e <= 64 -> follows rest = true ->
  level_unary mem (levels mem f) (mkAr (print e ++ rest) d b st) = outcome_at (sem mem e st b) rest d.

Lemma comma_finish r a m q d :
  stops q -> level_assign mem r a = outcome_at m q d -> level_comma mem r a = outcome_at m q d.
Proof.
  intros Hq Ha. unfold level_comma, ar_comma. rewrite Ha. unfold outcome_at.
  destruct m as [[[v st] b]| |]; try done. cbn [obind]. unfold loop_fuel. cbn [comma_loop].
  rewrite take_op_absent; [reflexivity| |].
  - pose proof (stops_quiet 1 q Hq) as H. unfold quiet in H. bprop. done.
  - destruct q as [|c q]; [done|]. unfold absent. lits. cbn [drop_op].
    destruct Hq as [?|Hq]; [done|]. change (ch (c :: q)) with c in Hq.
    destruct (Z.eqb_spec c 44); [lia|done].
Qed.

Lemma ternary_reads e f d b st q :
  exp_ok e -> reads e -> (need e <= f)%nat -> d + height e <= 64 -> stops q ->
  level_ternary mem (levels mem f) (mkAr (print e ++ q) d b st) = outcome_at (sem mem e st b) q d.
Proof.
  intros He Hr Hf Hd Hq. apply (climb mem _ 0 11); [lia| |intros; by apply stops_quiet].
  apply Hr; [done|done|]. by apply stops_text.
Qed.

Lemma assign_reads e f d b st q :
  exp_ok e -> reads e -> (need e <= f)%nat -> d + height e <= 64 -> stops q ->
  level_assign mem (levels mem f) (mkAr (print e ++ q) d b st) = outcome_at (sem mem e st b) q d.
Proof.
  intros. unfold level_assign. rewrite assign_pass by (done || by apply stops_text).
  by apply ternary_reads.
Qed.

Lemma reads_un o e : exp_ok e -> reads e -> reads (EUn o e).
Proof.
  intros He Hr f d b st rest Hf Hd Hrest. cbn [need height] in *. cbn [print app].
  rewrite <- !app_assoc. cbn [app].
  destruct f as [|[|f]]; [lia..|]. assert (0 < height e) by (clear; induction e; simpl; lia).
  destruct (print_starts e (41 :: rest) He) as [Hs HL].
  apply unary_paren; [lia|]. change (e_comma (levels mem (S (S f)))) with (level_comma mem (levels mem (S f))).
  apply comma_finish; [right; left; reflexivity|]. unfold level_assign.
  rewrite assign_other by (destruct o; reflexivity).
  apply (climb mem _ 0 11); [lia| |intros; apply stops_quiet; right; left; reflexivity].
  cbn [sem]. apply unary_op; [lia|done|rewrite length_app; lia|].
  apply Hr; [lia|lia|reflexivity].
Qed.

Lemma reads_bin o e1 e2 :
  exp_ok e1 -> exp_ok e2 -> reads e1 -> reads e2 -> reads (EBin o e1 e2).
Proof.
  intros He1 He2 Hr1 Hr2 f d b st rest Hf Hd Hrest. cbn [need height] in *. cbn [print app].
  rewrite <- !app_assoc. cbn [app].
  destruct f as [|[|f]]; [lia..|]. assert (0 < height e1) by (clear; induction e1; simpl; lia).
  destruct (print_starts e2 (41 :: rest) He2) as [Hs HL].
  assert (0 < length (print e2 ++ (41 : Z) :: rest))%nat as HL' by (rewrite length_app; lia).
  assert (stops (41 :: rest)) as Hst by (right; left; reflexivity).
  destruct (bin_follows o (print e2 ++ 41 :: rest) Hs HL') as [Hfo Hun].
  apply unary_paren; [lia|]. change (e_comma (levels mem (S (S f)))) with (level_comma mem (levels mem (S f))).
  apply comma_finish; [done|]. unfold level_assign. rewrite assign_pass by done.
  assert (level_ternary mem = level mem (bin_level o + (11 - bin_level o))) as -> by (by destruct o).
  apply climb; [destruct o; simpl; lia| |intros; by apply stops_quiet].
  assert (exists k, bin_level o = S k /\ (k < 8)%nat) as (k & Ek & Hk).
  { exists (Nat.pred (bin_level o)). destruct o; simpl; lia. }
  rewrite Ek, level_S by lia.
  rewrite (climb mem _ 0 k _ (sem mem e1 st b) (bin_text o ++ print e2 ++ 41 :: rest) (d + 1));
    [|lia|apply Hr1; [lia|lia|done]|intros; apply bin_quiet; done || lia].
  rewrite obind_outcome_at. cbn [sem]. destruct (sem mem e1 st b) as [[[v st1] b1]| |]; try reflexivity.
  cbn [obind]. rewrite <- Ek. unfold loop_fuel. cbn [ar_p].
  apply (loop_bin mem o _ _ v _ _ b1 st1 (sem mem e2 st1 b1)); try done.
  - by apply stops_quiet.
  - rewrite length_app. lia.
  - assert (forall j g, (j <= 11)%nat -> (need e2 <= g)%nat ->
      level mem j (levels mem g) (mkAr (print e2 ++ 41 :: rest) (d + 1) b1 st1) =
      outcome_at (sem mem e2 st1 b1) (41 :: rest) (d + 1)) as Hj.
    { intros j g Hj Hg. apply (climb mem _ 0 j); [lia| |intros; by apply stops_quiet].
      apply Hr2; [done|lia|]. by apply stops_text. }
    destruct o; cbn [rhs bin_level Nat.sub]; try (apply Hj; lia). apply (Hj 3%nat f); lia.
Qed.

Lemma reads_cond c t e :
  exp_ok c -> exp_ok t -> exp_ok e -> reads c -> reads t -> reads e -> reads (ECond c t e).
Proof.
  intros Hc Ht He Rc Rt Re f d b st rest Hf Hd Hrest. cbn [need height] in *. cbn [print app].
  repeat (rewrite <- !app_assoc; cbn [app]).
  destruct f as [|[|f]]; [lia..|]. assert (0 < height c) by (clear; induction c; simpl; lia).
  apply unary_paren; [lia|]. change (e_comma (levels mem (S (S f)))) with (level_comma mem (levels mem (S f))).
  assert (stops (41 :: rest)) as Hst by (right; left; reflexivity).
  apply comma_finish; [done|]. unfold level_assign. rewrite assign_pass by (done || reflexivity).
  change (level_ternary mem) with (level mem 11). rewrite level_S by lia.
  rewrite (climb mem _ 0 10 _ (sem mem c st b) (63 :: print t ++ 58 :: print e ++ 41 :: rest) (d + 1));
    [|lia|apply Rc; [lia|lia|reflexivity]|intros; apply starts_quiet_cond; lia].
  rewrite obind_outcome_at. cbn [sem]. destruct (sem mem c st b) as [[[v st1] b1]| |]; try reflexivity.
  cbn [obind loop]. rewrite take_op_at by reflexivity. lits. cbn [drop_op Z.eqb Pos.eqb].
  change (e_assign (levels mem (S f))) with (level_assign mem (levels mem f)).
  rewrite (assign_reads t) by (done || lia || right; right; reflexivity).
  rewrite obind_outcome_at. destruct (sem mem t st1 b1) as [[[v2 st2] b2]| |]; try reflexivity. cbn [obind].
  rewrite take_op_at by reflexivity. lits. cbn [drop_op Z.eqb Pos.eqb negb].
  rewrite (assign_reads e) by (done || lia).
  rewrite obind_outcome_at. destruct (sem mem e st2 b2) as [[[v3 st3] b3]| |]; reflexivity.
Qed.

(** [name op= rhs] is taken by exactly the operator written. *)
Lemma try_ops_hit x assign k p d b st :
  (k < length assign_ops)%nat -> starts (ch p) = true -> (length p > 0)%nat ->
  try_ops mem assign_ops x assign (mkAr (assign_text k ++ p) d b st) =
    let* (rhs, a) := assign (mkAr p d b st) in
    let* r := compound (assign_text k) (sh_atol (Some (var_get st x))) rhs in
    match r with
    | None => Done (Some (0, set_bad a), a)
    | Some v => Done (Some (v, assign_var mem x v a), a)
    end.
Proof.
  intros Hk Hp HL. destruct p as [|c p]; [simpl in HL; lia|]. change (ch (c :: p)) with c in Hp.
  assert (forall j, j <> 40 -> is_var_char j = false -> (c =? j) = false) as Hc by (intros; by apply starts_neq).
  assert (assign_ops !! k = Some (assign_text k)) as Hlk.
  { do 11 (destruct k as [|k]; [reflexivity|]). simpl in Hk. lia. }
  rewrite <- (take_drop_middle assign_ops k _ Hlk) at 1.
  rewrite try_ops_pass.
  2:{ do 11 (destruct k as [|k]; [reflexivity|]). simpl in Hk. lia. }
  2:{ clear - Hc Hk. unfold passed, assign_text, assign_ops, absent in *.
      do 11 (destruct k as [|k]; [lits; cbn [take nth app forallb drop_op Z.eqb Pos.eqb];
        rewrite ?Hc by (lia || reflexivity); reflexivity|]). simpl in Hk. lia. }
  cbn [try_ops]. cbn [ar_p].
  assert ((ch (assign_text k) =? chr "=") && (at_ (assign_text k) 1 =? 0) &&
    (ch (assign_text k ++ c :: p) =? chr "=") && (at_ (assign_text k ++ c :: p) 1 =? chr "=") = false) as ->.
  { do 10 (destruct k as [|k]; [reflexivity|]). destruct k; [|simpl in Hk; lia].
    change (at_ (assign_text 10 ++ c :: p) 1) with c. lits. rewrite Hc by (lia || reflexivity). apply andb_false_r. }
  rewrite take_op_at by (do 11 (destruct k as [|k]; [reflexivity|]); simpl in Hk; lia).
  rewrite drop_op_app. reflexivity.
Qed.

Lemma reads_assign k x e :
  (k < length assign_ops)%nat -> name_ok x -> exp_ok e -> reads e -> reads (EAssign k x e).
Proof.
  intros Hk Hx He Re f d b st rest Hf Hd Hrest. cbn [need height] in *. cbn [print app].
  repeat (rewrite <- !app_assoc; cbn [app]).
  destruct f as [|[|f]]; [lia..|]. assert (0 < height e) by (clear; induction e; simpl; lia).
  destruct (print_starts e (41 :: rest) He) as [Hs HL].
  apply unary_paren; [lia|]. change (e_comma (levels mem (S (S f)))) with (level_comma mem (levels mem (S f))).
  apply comma_finish; [right; left; reflexivity|]. unfold level_assign, ar_assign, skip_space. cbn [ar_p].
  destruct (name_start x (assign_text k ++ print e ++ 41 :: rest) Hx) as [Hv Hsp].
  rewrite skip_nospace by done. unfold set_p. cbn [ar_p ar_depth ar_bad ar_vars].
  assert (is_var_char (ch (assign_text k ++ print e ++ 41 :: rest)) = false) as Hnv.
  { do 11 (destruct k as [|k]; [reflexivity|]). simpl in Hk. lia. }
  rewrite Hv, read_name_at by done.
  rewrite try_ops_hit by (done || (rewrite length_app; lia)).
  change (e_assign (levels mem (S f))) with (level_assign mem (levels mem f)).
  rewrite assign_reads by (done || lia || (right; left; reflexivity)).
  cbn [sem]. unfold outcome_at. destruct (sem mem e st b) as [[[v st1] b1]| |]; try reflexivity. cbn [obind].
  destruct (compound _ _ v) as [[w|]| |]; reflexivity.
Qed.

Lemma reads_all e : exp_ok e -> reads e.
Proof.
  induction e; cbn [exp_ok]; intros H.
  - intros f d b st rest Hf Hd Hr. apply unary_num; [simpl in Hd; lia|done|done].
  - intros f d b st rest Hf Hd Hr. apply unary_name; [simpl in Hd; lia|done|done].
  - apply reads_un; auto.
  - destruct H. apply reads_bin; auto.
  - destruct H as (? & ? & ?). apply reads_cond; auto.
  - destruct H as (? & ? & ?). apply reads_assign; auto.
Qed.

Lemma need_le e : (need e <= length (print e))%nat.
Proof. induction e; cbn [need print length]; rewrite ?length_app; cbn [length]; rewrite ?length_app; cbn [length];
  rewrite ?length_app; cbn [length]; lia. Qed.


End Reading.

(** * What the grammar does without parentheses *)

Section Grammar.
Variable mem : bool.

(** A literal operand, at any level up to [k]. *)
Lemma level_num f k n q d b st :
  0 <= n < 2 ^ 31 -> d < 64 -> (k <= 11)%nat -> follows q = true ->
  (forall j, (0 < j <= k)%nat -> quiet j q = true) ->
  level mem k (levels mem f) (mkAr (dec n ++ q) d b st) = outcome_at (Done (n, st, b)) q d.
Proof. intros. apply (climb mem _ 0 k); [lia|by apply unary_num|done]. Qed.

(** A whole text, from the value its [?:] level reads. *)
Lemma eval_from_ternary st n q v b' st' :
  0 <= n < 2 ^ 31 -> follows q = true -> unassigned q = true ->
  level_ternary mem (levels mem (eval_fuel (dec n ++ q))) (mkAr (dec n ++ q) 0 false st) =
    outcome_at (Done (v, st', b')) [] 0 ->
  arith_eval mem st (Some (dec n ++ q)) = Done (v, negb b', st').
Proof.
  intros Hn Hf Hu H. unfold arith_eval.
  rewrite (comma_finish mem _ _ (Done (v, st', b')) [] 0); [cbn; by rewrite orb_false_r|by left|].
  unfold level_assign. change (dec n) with (print (ENum n)) in *. rewrite assign_pass by done. exact H.
Qed.

(** without parentheses [+] binds tighter than the multiplicative
    operators: [a+b*c] is evaluated as [(a+b)*c]. *)
Theorem plus_before_times st a b c :
  0 <= a < 2 ^ 31 -> 0 <= b < 2 ^ 31 -> 0 <= c < 2 ^ 31 ->
  arith_eval mem st (Some (dec a ++ cs "+" ++ dec b ++ cs "*" ++ dec c)) =
    Done (s32 (s32 (a + b) * c), true, st).
Proof.
  intros Ha Hb Hc.
  destruct (print_starts (ENum c) [] Hc) as [Hsc HLc]. rewrite app_nil_r in Hsc. cbn [print] in *.
  destruct (print_starts (ENum b) (cs "*" ++ dec c) Hb) as [Hsb HLb]. cbn [print] in *.
  destruct (bin_follows BAdd (dec b ++ cs "*" ++ dec c) Hsb ltac:(rewrite length_app; lia)) as [Hf Hu].
  destruct (bin_follows BMul (dec c) Hsc HLc) as [Hf2 Hu2].
  apply (eval_from_ternary st a _ _ false); [done|done|done|].
  set (f := eval_fuel _). clearbody f.
  assert (stops []) as Hst by (by left).
  apply (climb mem _ 2 9); [lia| |intros; by apply stops_quiet].
  rewrite level_S by lia.
  assert (level mem 1 (levels mem f) (mkAr (dec a ++ cs "+" ++ dec b ++ cs "*" ++ dec c) 0 false st) =
    outcome_at (Done (s32 (a + b), st, false)) (cs "*" ++ dec c) 0) as ->.
  { rewrite level_S, (level_num f 0) by (done || lia). rewrite obind_outcome_at. cbn [obind].
    apply (loop_bin mem BAdd _ _ a _ _ _ _ (Done (b, st, false))); try done.
    - rewrite length_app. lia.
    - cbn [ar_p]. rewrite !length_app. simpl. lia.
    - apply (level_num f 0); done || lia. }
  rewrite obind_outcome_at. cbn [obind].
  apply (loop_bin mem BMul _ _ _ _ _ _ _ (Done (c, st, false))); try done; [cbn [ar_p]; rewrite length_app; simpl; lia|].
  rewrite <- (app_nil_r (dec c)). apply (level_num f 1); try done; [lia|]. intros; by apply stops_quiet.
Qed.

(** At an operator with no operand in front of it the evaluator reports an
    error and stays where it is. *)
Lemma unary_stuck r p d b st :
  d < 64 -> level_unary mem r (mkAr (38 :: p) d b st) = Done (0, mkAr (38 :: p) d true st).
Proof.
  intros Hd. unfold level_unary, ar_unary, set_depth, ARITH_MAX_DEPTH. cbn [ar_depth ar_p ar_bad ar_vars].
  destruct (Z.ltb_spec 64 (d + 1)); [lia|]. unfold unary_body. lits.
  repeat (rewrite take_op_at by reflexivity; cbn [drop_op Z.eqb Pos.eqb]).
  change (is_var_start (ch (ar_p (mkAr (38 :: p) (d + 1) b st)))) with false.
  assert (read_number (mkAr (38 :: p) (d + 1) b st) = (None, mkAr (38 :: p) (d + 1) b st)) as ->.
  { unfold read_number. cbn [ar_p base_loop]. change (is_digit 38) with false.
    cbv beta iota. destruct (Nat.ltb_spec (length (38 :: p)) (length (38 :: p))); [lia|]. reflexivity. }
  cbn. do 3 f_equal. lia.
Qed.

(** [a && b] is never accepted: the [&] level, which is read before the
    [&&] level can see the operator, takes its first character. *)
Theorem logical_and_rejected st a b :
  0 <= a < 2 ^ 31 -> 0 <= b < 2 ^ 31 ->
  arith_eval mem st (Some (dec a ++ cs "&&" ++ dec b)) = Done (0, false, st).
Proof.
  intros Ha Hb. destruct (print_starts (ENum b) [] Hb) as [Hsb HLb]. rewrite app_nil_r in Hsb. cbn [print] in *.
  apply (eval_from_ternary st a _ _ true); [done|reflexivity|reflexivity|].
  set (f := eval_fuel _). clearbody f. lits. cbn [app].
  assert (stops []) as Hst by (by left).
  apply (climb mem _ 6 5); [lia| |intros; by apply stops_quiet].
  rewrite level_S, (level_num f 5) by (done || lia || (intros j Hj; do 6 (destruct j as [|j]; [lia || reflexivity|]); lia)).
  rewrite obind_outcome_at. cbn [obind loop]. unfold loop_fuel. cbn [ar_p length binop_loop]. lits.
  rewrite take_op_at by reflexivity. cbn [drop_op Z.eqb Pos.eqb].
  change (level_eq mem) with (level mem 5).
  rewrite (climb mem _ 0 5 _ (Done (0, st, true)) (38 :: dec b) 0);
    [|lia|by apply unary_stuck|intros j Hj; do 6 (destruct j as [|j]; [lia || reflexivity|]); lia].
  rewrite obind_outcome_at. cbn [obind]. rewrite take_op_at by reflexivity. cbn [drop_op Z.eqb Pos.eqb].
  rewrite <- (app_nil_r (dec b)) at 1. 
  rewrite (level_num f 5) by (done || lia || (intros; by apply stops_quiet)).
  rewrite obind_outcome_at. cbn [obind]. destruct (dec b) as [|c p]; [simpl in HLb; lia|].
  cbn [length binop_loop]. rewrite Z.land_0_r. reflexivity.
Qed.

End Grammar.

Lemma plus_before_times_witness :
  arith_eval true empty_vars (Some (cs "1+2*3")) = Done (9, true, empty_vars).
Proof. exact (plus_before_times true empty_vars 1 2 3 ltac:(lia) ltac:(lia) ltac:(lia)). Defined.

Lemma logical_and_rejected_witness :
  arith_eval true empty_vars (Some (cs "1&&1")) = Done (0, false, empty_vars).
Proof. exact (logical_and_rejected true empty_vars 1 1 ltac:(lia) ltac:(lia)). Defined.

(** [(x=(7/2))]. *)
Definition sample_exp : aexp := EAssign 10 (cs "x") (EBin BDiv (ENum 7) (ENum 2)).

