(* ===== verification/Lex.v ===== *)
(** vash's tokenizer ([vnu/userspace/vash/lex.c], and [word_new] and the data of
    [shell.h] and [cmd.c]).

    The character source is the record [Src]: a text or the results of [read],
    copied into the 1024-byte line buffer a block at a time.  The readers use it
    through the three operations of the class [CharSource] only, so they are
    functions of any such source; the code's is the instance [block_source].  A
    growable string is the list of its bytes, which is what [StrBuf] shows it to be
    as long as there is memory.  Loops are instances of one combinator with fuel. *)
From S2P Require Import Prelude CString.
From stdpp Require Import gmap.
Local Open Scope Z_scope.

Abbreviation ch_tab := 9 (only parsing).
Abbreviation ch_nl := 10 (only parsing).
Abbreviation ch_sp := 32 (only parsing).
Abbreviation ch_bang := 33 (only parsing).
Abbreviation ch_dq := 34 (only parsing).
Abbreviation ch_hash := 35 (only parsing).
Abbreviation ch_dollar := 36 (only parsing).
Abbreviation ch_amp := 38 (only parsing).
Abbreviation ch_sq := 39 (only parsing).
Abbreviation ch_lp := 40 (only parsing).
Abbreviation ch_rp := 41 (only parsing).
Abbreviation ch_star := 42 (only parsing).
Abbreviation ch_minus := 45 (only parsing).
Abbreviation ch_slash := 47 (only parsing).
Abbreviation ch_semi := 59 (only parsing).
Abbreviation ch_lt := 60 (only parsing).
Abbreviation ch_gt := 62 (only parsing).
Abbreviation ch_quest := 63 (only parsing).
Abbreviation ch_at := 64 (only parsing).
Abbreviation ch_bs := 92 (only parsing).
Abbreviation ch_under := 95 (only parsing).
Abbreviation ch_bq := 96 (only parsing).
Abbreviation ch_lb := 123 (only parsing).
Abbreviation ch_pipe := 124 (only parsing).
Abbreviation ch_rb := 125 (only parsing).
Abbreviation ch_tilde := 126 (only parsing).

(** ** Words and tokens *)

Inductive WKind := W_LIT | W_VAR | W_CMDSUB | W_ARITH | W_TILDE | W_BRACE | W_FILE | W_ARRAY.

#[export] Instance WKind_eq : EqDecision WKind.
Proof. solve_decision. Defined.

(** One node of the chain [Word.next]; [len_only] and [items] are not the lexer's. *)
Record Part := mkPart { p_kind : WKind; p_quoted : bool; p_text : list Z }.

#[export] Instance Part_eq : EqDecision Part.
Proof. solve_decision. Defined.

(** A word is its chain, the head first; it is never empty. *)
Definition Word := list Part.

Definition word_new (kind : WKind) : Word := [mkPart kind false []].

Inductive Op :=
  | OP_SEMI | OP_AMP | OP_AND | OP_OR | OP_PIPE | OP_DUP | OP_LT | OP_GT | OP_DLT | OP_TLT
  | OP_DGT | OP_AMPGT | OP_AMPGTGT | OP_LTAMP | OP_AMPGTAMP | OP_LPAREN | OP_RPAREN
  | OP_PSUB_IN | OP_PSUB_OUT | OP_LBRACE | OP_RBRACE.

#[export] Instance Op_eq : EqDecision Op.
Proof. solve_decision. Defined.

(** [T_WORD None] is a word that has been taken out of its token. *)
Inductive Tok := T_EOF | T_WORD (word : option Word) | T_NEWLINE | T_OP (op : Op).

#[export] Instance Tok_eq : EqDecision Tok.
Proof. solve_decision. Defined.

Definition tok_op_name (op : Op) : list Z :=
  match op with
  | OP_SEMI => cs ";" | OP_AMP => cs "&" | OP_AND => cs "&&" | OP_OR => cs "||"
  | OP_PIPE => cs "|" | OP_DUP => cs ";;" | OP_LT => cs "<" | OP_GT => cs ">"
  | OP_DLT => cs "<<" | OP_DGT => cs ">>" | OP_AMPGT => cs "&>" | OP_AMPGTGT => cs "&>>"
  | OP_LTAMP => cs "<&" | OP_AMPGTAMP => cs ">&" | OP_PSUB_IN => cs "<("
  | OP_PSUB_OUT => cs ">(" | OP_TLT => cs "<<<" | OP_LPAREN => cs "(" | OP_RPAREN => cs ")"
  | OP_LBRACE => cs "{" | OP_RBRACE => cs "}"
  end.

Definition word_parts (w : Word) : nat := length w.

(** The [while (last->next)] walk, and what is done to the last part. *)
Fixpoint word_add_lit (w : Word) (t : list Z) (quoted : bool) : Word :=
  match t with
  | [] => w
  | _ =>
      match w with
      | [] => []
      | [last] =>
          if bool_decide (p_kind last = W_LIT) && eqb (p_quoted last) quoted
          then [mkPart W_LIT quoted (p_text last ++ t)]
          else [last; mkPart W_LIT quoted t]
      | p :: w' => p :: word_add_lit w' t quoted
      end
  end.

Definition word_add_part (w : Word) (part : Part) : Word := w ++ [part].

Definition is_meta (c : Z) : bool :=
  (c =? ch_pipe) || (c =? ch_amp) || (c =? ch_semi) || (c =? ch_lp) || (c =? ch_rp) ||
  (c =? ch_lt) || (c =? ch_gt).

Definition is_blank (c : Z) : bool := (c =? ch_sp) || (c =? ch_tab).

Definition is_name_char (c : Z) : bool :=
  (c =? ch_under) || ((97 <=? c) && (c <=? 122)) || ((65 <=? c) && (c <=? 90)) ||
  ((48 <=? c) && (c <=? 57)).

(** ** The character source: a file block by block, or a string *)

Definition SH_LINE_MAX : Z := 1024.

Record Src := mkSrc {
  fd : option (list (list Z)); (* [None]: a string (fd < 0); else what [read] returns next *)
  text : list Z;
  textlen : Z;
  len : Z;
  pos : Z;
  line : list Z;
  linepos : Z;
  linenr : Z;
  linegen : Z;
  ateof : bool }.

Definition lex_init_file (chunks : list (list Z)) : Src :=
  mkSrc (Some chunks) [] 0 0 0 (repeat 0 (Z.to_nat SH_LINE_MAX)) 0 0 0 false.

Definition lex_init_str (t : list Z) (n : Z) : Src :=
  mkSrc None t n 0 0 (repeat 0 (Z.to_nat SH_LINE_MAX)) 0 0 0 false.

(** [n] bytes copied over the first [n] of the buffer. *)
Definition overwrite (b new : list Z) : list Z := new ++ drop (length new) b.

Definition fill_line (lx : Src) : bool * Src :=
  match fd lx with
  | None =>
      if textlen lx <=? pos lx then (false, lx)
      else
        let n := textlen lx - pos lx in
        let n := if SH_LINE_MAX - 2 <? n then SH_LINE_MAX - 2 else n in
        (true, mkSrc None (text lx) (textlen lx) n (pos lx + n)
                 (overwrite (line lx) (take (Z.to_nat n) (drop (Z.to_nat (pos lx)) (text lx))))
                 0 (linenr lx + 1) (linegen lx + 1) (ateof lx))
  | Some chunks =>
      let r := default [] (head chunks) in
      match r with
      | [] => (false, mkSrc (Some (tail chunks)) (text lx) (textlen lx) (len lx) (pos lx) (line lx)
                        (linepos lx) (linenr lx) (linegen lx) true)
      | _ =>
          let r := if at_ r (length r - 1) =? ch_nl then r else r ++ [ch_nl] in
          (true, mkSrc (Some (tail chunks)) (text lx) (textlen lx) (Z.of_nat (length r)) (pos lx)
                   (overwrite (line lx) r) 0 (linenr lx + 1) (linegen lx + 1) (ateof lx))
      end
  end.

Definition cur (lx : Src) : Z := at_ (line lx) (Z.to_nat (linepos lx)).

Definition lc_peek (lx : Src) : Z * Src :=
  if len lx <=? linepos lx then
    let '(ok, lx) := fill_line lx in
    if ok then (cur lx, lx) else (-1, lx)
  else (cur lx, lx).

Definition set_linepos (lx : Src) (i : Z) : Src :=
  mkSrc (fd lx) (text lx) (textlen lx) (len lx) (pos lx) (line lx) i (linenr lx) (linegen lx)
    (ateof lx).

Definition lc_get (lx : Src) : Z * Src :=
  let '(c, lx) := lc_peek lx in
  (c, if 0 <=? c then set_linepos lx (linepos lx + 1) else lx).

(** [for (i = 0; i <= n; ++i) c = lc_get(lx)]. *)
Fixpoint lc_gets (n : nat) (lx : Src) : Z * Src :=
  match n with
  | O => lc_get lx
  | S n' => lc_gets n' (snd (lc_get lx))
  end.

Definition lc_peek_at (n : nat) (lx : Src) : Z * Src :=
  let '(ok, lx) := if len lx <=? linepos lx then fill_line lx else (true, lx) in
  if ok then
    let '(c, l) := lc_gets n lx in
    if linegen l =? linegen lx then
      (c, mkSrc (fd l) (text l) (textlen l) (len lx) (pos lx) (line lx) (linepos lx) (linenr lx)
            (linegen l) (ateof l))
    else
      (c, mkSrc (fd l) (text l) (textlen l) 0 (pos lx - len lx + linepos lx) (line l) 0 (linenr lx)
            (linegen l) (ateof l))
  else (-1, lx).

(** What the readers ask of a source: the next character, taken or not, and the one
    [n] after it.  -1 is its end. *)
Class CharSource (S : Type) := {
  src_get : S -> Z * S;
  src_peek : S -> Z * S;
  src_peek_at : nat -> S -> Z * S }.

#[export] Instance block_source : CharSource Src :=
  {| src_get := lc_get; src_peek := lc_peek; src_peek_at := lc_peek_at |}.

(** ** Readers: functions of a source that may run out of fuel *)

Definition LM (S A : Type) := S -> option (A * S).

#[export] Instance LM_ret S : MRet (LM S) := fun A a s => Some (a, s).
#[export] Instance LM_bind S : MBind (LM S) := fun A B k m s =>
  match m s with Some (a, s') => k a s' | None => None end.

(** [for (;;)]: [inl] goes round again, [inr] leaves. *)
Fixpoint loop {S A B} (fuel : nat) (body : A -> LM S (A + B)) (a : A) : LM S B :=
  match fuel with
  | O => fun _ => None
  | Datatypes.S f =>
      r ← body a;
      match r with inl a' => loop f body a' | inr b => mret b end
  end.

Definition again {S A B} (a : A) : LM S (A + B) := mret (inl a).
Definition leave {S A B} (b : B) : LM S (A + B) := mret (inr b).

Section Readers.
Context {S : Type} `{CharSource S}.
(** How often a loop may go round; [lex_fuel_enough] says how much is enough. *)
Variable fuel : nat.

Definition get : LM S Z := fun s => Some (src_get s).
Definition peek : LM S Z := fun s => Some (src_peek s).
Definition peek_at (n : nat) : LM S Z := fun s => Some (src_peek_at n s).

Definition hex_digit (h : Z) : Z :=
  if (48 <=? h) && (h <=? 57) then h - 48
  else if (97 <=? h) && (h <=? 102) then h - 97 + 10
  else if (65 <=? h) && (h <=? 70) then h - 65 + 10
  else -1.

(** [while (n < 2)] of [\x], [k] turns before its end: the value and the digits read. *)
Fixpoint hex_loop (k : nat) (v : Z) (n : nat) : LM S (Z * nat) :=
  match k with
  | O => mret (v, n)
  | Datatypes.S k' =>
      h ← peek;
      let d := hex_digit h in
      if d <? 0 then mret (v, n)
      else _ ← get; hex_loop k' (v * 16 + d) (Datatypes.S n)
  end.

(** [while (n < 3)] of an octal escape. *)
Fixpoint oct_loop (k : nat) (v : Z) : LM S Z :=
  match k with
  | O => mret v
  | Datatypes.S k' =>
      o ← peek;
      if (o <? 48) || (55 <? o) then mret v
      else _ ← get; oct_loop k' (v * 8 + (o - 48))
  end.

(** The 0 or 1 it returns is not used. *)
Definition ansi_c_escape (out : list Z) : LM S (list Z) :=
  c ← get;
  if c <? 0 then mret out
  else if c =? 97 then mret (out ++ [7])
  else if c =? 98 then mret (out ++ [8])
  else if (c =? 101) || (c =? 69) then mret (out ++ [27])
  else if c =? 102 then mret (out ++ [12])
  else if c =? 110 then mret (out ++ [10])
  else if c =? 114 then mret (out ++ [13])
  else if c =? 116 then mret (out ++ [9])
  else if c =? 118 then mret (out ++ [11])
  else if c =? ch_bs then mret (out ++ [ch_bs])
  else if c =? ch_sq then mret (out ++ [ch_sq])
  else if c =? ch_dq then mret (out ++ [ch_dq])
  else if c =? ch_quest then mret (out ++ [ch_quest])
  else if c =? ch_nl then mret out
  else if c =? 120 then
    '(v, n) ← hex_loop 2 0 0;
    mret (out ++ [if (0 <? n)%nat then u8 v else 120])
  else if (48 <=? c) && (c <=? 55) then
    v ← oct_loop 2 (c - 48);
    mret (out ++ [u8 v])
  else mret (out ++ [c]).

(** [end2 && c == end2 && lc_peek(lx) == end2]. *)
Definition doubled (end2 c : Z) : LM S bool :=
  if negb (end2 =? 0) && (c =? end2) then p ← peek; mret (p =? end2) else mret false.

Definition read_literal_body (out : list Z) (end_ end2 : Z) : LM S (list Z) :=
  loop fuel (fun out =>
    c ← get;
    if c <? 0 then leave out
    else if c =? ch_bs then out ← ansi_c_escape out; again out
    else if c =? end_ then leave out
    else
      d ← doubled end2 c;
      if (d : bool) then _ ← get; leave out else again (out ++ [c])) out.

Definition read_quoted_raw (out : list Z) (end_ end2 : Z) : LM S (list Z) :=
  loop fuel (fun out =>
    c ← get;
    if c <? 0 then leave out
    else if (c =? ch_bs) && (end_ =? ch_dq) then
      n ← get;
      if n <? 0 then leave (out ++ [c]) else again (out ++ [c; n])
    else if c =? end_ then leave out
    else
      d ← doubled end2 c;
      if (d : bool) then _ ← get; leave out else again (out ++ [c])) out.

(** A character after a backslash, kept if there is one. *)
Definition add_next (out : list Z) : LM S (list Z) :=
  n ← get; mret (if 0 <=? n then out ++ [n] else out).

(** The inner loop of [read_cmdsub]: a backquoted run kept as written. *)
Definition copy_backtick (out : list Z) : LM S (list Z) :=
  loop fuel (fun out =>
    b ← get;
    if b <? 0 then leave out
    else if b =? ch_bs then out ← add_next (out ++ [b]); again out
    else if b =? ch_bq then leave (out ++ [b])
    else again (out ++ [b])) out.

Definition cmdsub_step (st : Z * list Z) : LM S (Z * list Z + list Z) :=
  let '(depth, out) := st in
  c ← get;
  if c <? 0 then leave out
  else if (c =? ch_sq) || (c =? ch_dq) then
    q ← read_quoted_raw [] c 0; again (depth, out ++ [c] ++ q ++ [c])
  else if c =? ch_bs then out ← add_next (out ++ [c]); again (depth, out)
  else if c =? ch_bq then out ← copy_backtick (out ++ [c]); again (depth, out)
  else if c =? ch_lp then again (depth + 1, out ++ [c])
  else if c =? ch_rp then
    if depth - 1 =? 0 then leave out else again (depth - 1, out ++ [c])
  else again (depth, out ++ [c]).

Definition read_cmdsub (out : list Z) : LM S (list Z) := loop fuel cmdsub_step (1, out).

Definition read_backtick (out : list Z) : LM S (list Z) :=
  loop fuel (fun out =>
    c ← get;
    if (c <? 0) || (c =? ch_nl) then leave out
    else if c =? ch_bs then out ← add_next out; again out
    else if c =? ch_bq then leave out
    else again (out ++ [c])) out.

Definition brace_step (st : Z * list Z) : LM S (Z * list Z + list Z) :=
  let '(depth, out) := st in
  c ← get;
  if c <? 0 then leave out
  else if (c =? ch_sq) || (c =? ch_dq) then
    q ← read_quoted_raw [] c 0; again (depth, out ++ [c] ++ q ++ [c])
  else if c =? ch_bs then out ← add_next (out ++ [c]); again (depth, out)
  else if c =? ch_lb then again (depth + 1, out ++ [c])
  else if c =? ch_rb then
    if depth =? 0 then leave out else again (depth - 1, out ++ [c])
  else again (depth, out ++ [c]).

Definition read_brace (out : list Z) : LM S (list Z) := loop fuel brace_step (0, out).

(** Two brackets end it: the next character is looked at when none is open. *)
Definition arith_step (st : Z * list Z) : LM S (Z * list Z + list Z) :=
  let '(depth, out) := st in
  c ← get;
  if c <? 0 then leave out
  else if (c =? ch_sq) || (c =? ch_dq) then
    q ← read_quoted_raw [] c 0; again (depth, out ++ q)
  else if c =? ch_lp then again (depth + 1, out ++ [c])
  else if c =? ch_rp then
    p ← (if depth =? 0 then peek else mret 0);
    if (depth =? 0) && (p =? ch_rp) then _ ← get; leave out
    else again (if 0 <? depth then depth - 1 else depth, out ++ [c])
  else again (depth, out ++ [c]).

Definition read_arith (out : list Z) : LM S (list Z) := loop fuel arith_step (0, out).

(** [while (p(lc_peek(lx))) lc_get(lx)], and the same adding what it reads. *)
Definition skip_while (p : Z -> bool) : LM S unit :=
  loop fuel (fun _ : unit =>
    c ← peek; if p c then _ ← get; again tt else leave tt) tt.

Definition take_while (p : Z -> bool) (out : list Z) : LM S (list Z) :=
  loop fuel (fun out =>
    c ← peek; if p c then c ← get; again (out ++ [c]) else leave out) out.

(** [while (n != ')' && n >= 0 && n != '\n') n = lc_get(lx)]: the last [n]. *)
Definition skip_to_rp (n : Z) : LM S Z :=
  loop fuel (fun n =>
    if negb (n =? ch_rp) && (0 <=? n) && negb (n =? ch_nl)
    then n ← get; again n else leave n) n.

(** The name of [$(< file)], up to the bracket. *)
Definition read_file_name (out : list Z) : LM S (list Z) :=
  loop fuel (fun out =>
    n ← get;
    if (n <? 0) || (n =? ch_sp) || (n =? ch_tab) || (n =? ch_nl) then
      n ← skip_to_rp n;
      if n =? ch_rp then leave out else _ ← get; leave out
    else if n =? ch_rp then leave out
    else again (out ++ [n])) out.

Definition is_special (c : Z) : bool :=
  (c =? ch_quest) || (c =? ch_hash) || (c =? ch_at) || (c =? ch_star) || (c =? ch_minus) ||
  (c =? ch_dollar) || (c =? ch_bang).

Definition read_dollar (w : Word) (quoted : bool) : LM S Word :=
  c ← peek;
  if c =? ch_lp then
    c1 ← peek_at 1;
    if c1 =? ch_lp then
      _ ← get; _ ← get;
      t ← read_arith []; mret (word_add_part w (mkPart W_ARITH quoted t))
    else
      _ ← get;
      p ← peek;
      p1 ← (if p =? ch_lt then peek_at 1 else mret ch_lp);
      if (p =? ch_lt) && negb (p1 =? ch_lp) then
        _ ← get;
        _ ← skip_while (fun c => is_blank c || (c =? ch_nl));
        t ← read_file_name []; mret (word_add_part w (mkPart W_FILE quoted t))
      else
        t ← read_cmdsub []; mret (word_add_part w (mkPart W_CMDSUB quoted t))
  else if c =? ch_lb then
    _ ← get;
    t ← read_brace []; mret (word_add_part w (mkPart W_BRACE quoted t))
  else if c =? ch_sq then
    _ ← get;
    body ← read_literal_body [] ch_sq 0; mret (word_add_lit w body true)
  else if is_name_char c && negb ((48 <=? c) && (c <=? 57)) then
    body ← take_while is_name_char [];
    mret (word_add_part w (mkPart W_VAR quoted body))
  else if (48 <=? c) && (c <=? 57) then
    d ← get; mret (word_add_part w (mkPart W_VAR quoted [d]))
  else if is_special c then
    d ← get; mret (word_add_part w (mkPart W_VAR quoted [d]))
  else mret (word_add_lit w [ch_dollar] quoted).

(** The end of a quoted run: a run that added nothing to an empty word makes the word
    itself quoted. *)
Definition mark_empty (before : nat) (w : Word) : Word :=
  match w with
  | h :: w' =>
      if (word_parts w =? before)%nat && bool_decide (p_kind h = W_LIT) && (length (p_text h) =? 0)%nat
      then mkPart (p_kind h) true (p_text h) :: w' else w
  | [] => []
  end.

Definition ends_user (c : Z) : bool :=
  (c <? 0) || (c =? ch_slash) || is_blank c || is_meta c || (c =? ch_nl).

(** [~] and [~name] at the start of a word. *)
Definition lex_tilde (w : Word) : LM S Word :=
  c ← peek;
  if c =? ch_tilde then
    c1 ← peek_at 1;
    if c1 =? 0 then mret w
    else
      c1 ← peek_at 1;
      let is_name := (c1 =? ch_under) || ((97 <=? c1) && (c1 <=? 122)) || ((65 <=? c1) && (c1 <=? 90)) in
      let is_slash := c1 =? ch_slash in
      let is_end := is_blank c1 || is_meta c1 || (c1 =? ch_nl) || (c1 <? 0) in
      if is_name || is_slash || is_end then
        _ ← get;
        user ← take_while (fun c => negb (ends_user c)) [];
        mret (word_add_part w (mkPart W_TILDE false user))
      else mret w
  else mret w.

(** Up to the closing single quote. *)
Definition read_squote (lit : list Z) : LM S (list Z) :=
  loop fuel (fun lit =>
    q ← get;
    if (q <? 0) || (q =? ch_sq) then leave lit else again (lit ++ [q])) lit.

(** The inside of double quotes: the word with its parts so far, and the text since. *)
Definition read_dquote (w : Word) : LM S (Word * list Z) :=
  loop fuel (fun '(w, lit) =>
    q ← peek;
    if q <? 0 then leave (w, lit)
    else if q =? ch_dq then _ ← get; leave (w, lit)
    else if q =? ch_bs then
      _ ← get;
      n ← get;
      if n <? 0 then leave (w, lit)
      else
        let lit := if negb (n =? ch_dq) && negb (n =? ch_bs) && negb (n =? ch_dollar) &&
                      negb (n =? ch_bq) && negb (n =? ch_nl) then lit ++ [ch_bs] else lit in
        again (w, if negb (n =? ch_nl) then lit ++ [n] else lit)
    else if q =? ch_dollar then
      _ ← get;
      w ← read_dollar (word_add_lit w lit true) true;
      again (w, [])
    else if q =? ch_bq then
      _ ← get;
      t ← read_backtick [];
      again (word_add_part w (mkPart W_CMDSUB true t), lit)
    else q ← get; again (w, lit ++ [q])) (w, []).

(** One turn of the main loop: the word so far, the text since its last part, [quoted]. *)
Definition word_step (st : Word * list Z * bool)
    : LM S ((Word * list Z * bool) + (Word * list Z * bool)) :=
  let '(w, lit, quoted) := st in
  c ← peek;
  if c <? 0 then leave (w, lit, quoted)
  else if negb quoted && (is_meta c || (c =? ch_nl)) then leave (w, lit, quoted)
  else if is_blank c && negb quoted then _ ← get; leave (w, lit, quoted)
  else if c =? ch_bs then
    _ ← get;
    lit ← add_next lit; again (w, lit, quoted)
  else if c =? ch_sq then
    _ ← get;
    let w := word_add_lit w lit quoted in
    let before := word_parts w in
    lit ← read_squote [];
    again (mark_empty before (word_add_lit w lit true), [], false)
  else if c =? ch_dq then
    _ ← get;
    let w := word_add_lit w lit quoted in
    let before := word_parts w in
    '(w, lit) ← read_dquote w;
    again (mark_empty before (word_add_lit w lit true), [], false)
  else if c =? ch_dollar then
    _ ← get;
    w ← read_dollar (word_add_lit w lit quoted) quoted;
    again (w, [], quoted)
  else if (c =? ch_bq) && negb quoted then
    _ ← get;
    t ← read_backtick [];
    again (word_add_part w (mkPart W_CMDSUB false t), lit, quoted)
  else c ← get; again (w, lit ++ [c], quoted).

Definition lex_word : LM S Word :=
  w ← lex_tilde (word_new W_LIT);
  '(w, lit, quoted) ← loop fuel word_step (w, [], false);
  mret (word_add_lit w lit quoted).

(** The first loop of [lex_read_raw]: blanks, continued lines, comments.  It leaves with
    the token that ends it, if any. *)
Definition skip_blank : LM S (option Tok) :=
  loop fuel (fun _ : unit =>
    c ← peek;
    if c <? 0 then leave (Some T_EOF)
    else if is_blank c then _ ← get; again tt
    else
      c1 ← (if c =? ch_bs then peek_at 1 else mret 0);
      if (c =? ch_bs) && (c1 =? ch_nl) then _ ← get; _ ← get; again tt
      else if c =? ch_hash then
        _ ← skip_while (fun c => (0 <=? c) && negb (c =? ch_nl)); again tt
      else if c =? ch_nl then _ ← get; leave (Some T_NEWLINE)
      else leave None) tt.

(** The operator switch: the operator and how many characters it has. *)
Definition lex_op (c c1 c2 : Z) : LM S (option (Op * nat)) :=
  if c =? ch_semi then mret (Some (if c1 =? ch_semi then (OP_DUP, 2%nat) else (OP_SEMI, 1%nat)))
  else if c =? ch_amp then
    mret (Some (if c1 =? ch_amp then (OP_AND, 2%nat)
                else if c1 =? ch_gt then
                  if c2 =? ch_gt then (OP_AMPGTGT, 3%nat) else (OP_AMPGT, 2%nat)
                else (OP_AMP, 1%nat)))
  else if c =? ch_pipe then
    mret (Some (if c1 =? ch_pipe then (OP_OR, 2%nat) else (OP_PIPE, 1%nat)))
  else if c =? ch_lt then
    if c1 =? ch_amp then mret (Some (OP_LTAMP, 2%nat))
    else if c1 =? ch_lt then
      c2 ← peek_at 2; mret (Some (if c2 =? ch_lt then (OP_TLT, 3%nat) else (OP_DLT, 2%nat)))
    else if c1 =? ch_lp then mret (Some (OP_PSUB_IN, 2%nat))
    else mret (Some (OP_LT, 1%nat))
  else if c =? ch_gt then
    mret (Some (if c1 =? ch_lp then (OP_PSUB_OUT, 2%nat)
                else if c1 =? ch_amp then (OP_AMPGTAMP, 2%nat)
                else if c1 =? ch_gt then (OP_DGT, 2%nat) else (OP_GT, 1%nat)))
  else if c =? ch_lp then mret (Some (OP_LPAREN, 1%nat))
  else if c =? ch_rp then mret (Some (OP_RPAREN, 1%nat))
  else mret None.

(** [while (n-- > 0) lc_get(lx)]. *)
Fixpoint gets (n : nat) : LM S unit :=
  match n with
  | O => mret tt
  | Datatypes.S n' => _ ← get; gets n'
  end.

(** A lone brace is a reserved word. *)
Definition word_token (w : Word) : Tok :=
  match w with
  | [mkPart W_LIT false [b]] =>
      if b =? ch_lb then T_OP OP_LBRACE
      else if b =? ch_rb then T_OP OP_RBRACE else T_WORD (Some w)
  | _ => T_WORD (Some w)
  end.

Definition lex_read_raw : LM S Tok :=
  t ← skip_blank;
  match t with
  | Some t => mret t
  | None =>
      c ← peek;
      c1 ← peek_at 1;
      c2 ← peek_at 2;
      op ← lex_op c c1 c2;
      match op with
      | Some (op, n) => _ ← gets n; mret (T_OP op)
      | None => w ← lex_word; mret (word_token w)
      end
  end.

End Readers.

(** ** The token stream *)

(** A here-document whose text is still to be read; [redir] names the redirection that
    gets it. *)
Record HDoc := mkHDoc { h_delim : list Z; h_strip_tabs : bool; h_redir : nat }.

Record Lex (S : Type) := mkLex {
  lx_src : S;
  lx_tok : Tok;
  lx_have_peek : bool;
  lx_peek : Tok;
  lx_have_peek2 : bool;
  lx_peek2 : Tok;
  lx_hd : list HDoc }.
Arguments mkLex {S}.
Arguments lx_src {S}.
Arguments lx_tok {S}.
Arguments lx_have_peek {S}.
Arguments lx_peek {S}.
Arguments lx_have_peek2 {S}.
Arguments lx_peek2 {S}.
Arguments lx_hd {S}.

(** A fresh lexer; a zeroed token is [T_EOF]. *)
Definition lex_start {S} (s : S) : Lex S := mkLex s T_EOF false T_EOF false T_EOF [].

Section Tokens.
Context {S : Type} `{CharSource S}.
Variable fuel : nat.

Definition lex_next (lx : Lex S) : option (Lex S) :=
  if lx_have_peek lx then
    Some (mkLex (lx_src lx) (lx_peek lx) false T_EOF false T_EOF (lx_hd lx))
  else
    '(t, s) ← lex_read_raw fuel (lx_src lx);
    Some (mkLex s t false (lx_peek lx) false T_EOF (lx_hd lx)).

Definition lex_peek (lx : Lex S) : option (Tok * Lex S) :=
  if lx_have_peek lx then Some (lx_peek lx, lx)
  else
    '(t, s) ← lex_read_raw fuel (lx_src lx);
    Some (t, mkLex s (lx_tok lx) true t false T_EOF (lx_hd lx)).

Definition drop_word (t : Tok) : Tok :=
  match t with T_WORD _ => T_WORD None | _ => t end.

Definition lex_take (lx : Lex S) : option Word * Lex S :=
  match lx_have_peek lx, lx_peek lx, lx_tok lx with
  | true, T_WORD (Some w), _ =>
      (Some w, mkLex (lx_src lx) (lx_tok lx) true (T_WORD None) (lx_have_peek2 lx) (lx_peek2 lx) (lx_hd lx))
  | _, _, T_WORD (Some w) =>
      (Some w, mkLex (lx_src lx) (T_WORD None) (lx_have_peek lx) (lx_peek lx) (lx_have_peek2 lx)
                 (lx_peek2 lx) (lx_hd lx))
  | _, _, _ => (None, lx)
  end.

(** The bytes of a C string that fit before the NUL of a field of [n + 1]. *)
Fixpoint copy_delim (n : nat) (delim : list Z) : list Z :=
  match n, delim with
  | Datatypes.S n', c :: d => if c =? 0 then [] else c :: copy_delim n' d
  | _, _ => []
  end.

Definition lex_push_hdoc (lx : Lex S) (r : nat) (delim : list Z) (strip_tabs : bool) : Lex S :=
  mkLex (lx_src lx) (lx_tok lx) (lx_have_peek lx) (lx_peek lx) (lx_have_peek2 lx) (lx_peek2 lx)
    (mkHDoc (copy_delim 63 delim) strip_tabs r :: lx_hd lx).

End Tokens.

(** The structure is put back, and with it the buffer; what has been read from a file stays
    read. *)
Definition put_back (saved now : Src) : Src :=
  mkSrc (fd now) (text saved) (textlen saved) (len saved) (pos saved) (line saved) (linepos saved)
    (linenr saved) (linegen saved) (ateof saved).

Definition lex_peek2 (fuel : nat) (lx : Lex Src) : option (Tok * Lex Src) :=
  if lx_have_peek2 lx then Some (lx_peek2 lx, lx)
  else
    '(_, saved) ← lex_peek fuel lx;
    lx ← lex_next fuel (mkLex (lx_src saved) T_EOF false T_EOF false (lx_peek2 saved) (lx_hd saved));
    let second := drop_word (lx_tok lx) in
    Some (second, mkLex (put_back (lx_src saved) (lx_src lx)) (lx_tok saved) (lx_have_peek saved) (lx_peek saved)
                    true second (lx_hd saved)).

(** ** Here-documents, which look into the line buffer itself *)

Section HereDocs.
Variable fuel : nat.

(** What is left of the line the here-document was written on. *)
Definition hd_skip_line : LM Src unit :=
  c ← peek;
  c ← loop fuel (fun c =>
        if (0 <=? c) && negb (c =? ch_nl) then c ← get; again c else leave c) c;
  if c =? ch_nl then _ ← get; mret tt else mret tt.

(** [while (lx->linepos < lx->len)]: one line, or what the buffer has of it. *)
Definition hd_step (l : list Z) : LM Src (list Z + list Z) :=
  more ← (fun s => Some (linepos s <? len s, s)) : LM Src bool;
  if (more : bool) then
    c ← get;
    if (c <? 0) || (c =? ch_nl) then leave l else again (l ++ [c])
  else leave l.

Definition hd_line : LM Src (list Z) := loop fuel hd_step [].

Fixpoint count_tabs (l : list Z) : nat :=
  match l with c :: l' => if c =? ch_tab then Datatypes.S (count_tabs l') else O | [] => O end.

Definition is_delim (l delim : list Z) : bool :=
  (Z.of_nat (length l) =? strlen delim) && (strncmp l delim (Z.to_nat (strlen delim)) =? 0).

(** The newline of the delimiter's line goes back into the buffer. *)
Definition unread_nl : LM Src unit := fun s =>
  Some (tt, if (0 <? linepos s) && (at_ (line s) (Z.to_nat (linepos s - 1)) =? ch_nl)
            then set_linepos s (linepos s - 1) else s).

(** [lx->linepos >= lx->len && !fill_line(lx)]: nothing is left. *)
Definition hd_at_end : LM Src bool := fun s =>
  if len s <=? linepos s then let '(ok, s) := fill_line s in Some (negb ok, s)
  else Some (false, s).

(** One line of the body, or its end. *)
Definition heredoc_step (delim : list Z) (strip_tabs : bool) (body : list Z) : LM Src (list Z + list Z) :=
  l ← hd_line;
  let l := if strip_tabs then drop (count_tabs l) l else l in
  if is_delim l delim then _ ← unread_nl; leave body
  else
    let body := body ++ l ++ [ch_nl] in
    e ← hd_at_end;
    if (e : bool) then leave body else again body.

Definition lex_heredoc (delim : list Z) (strip_tabs at_line_start : bool) : LM Src (list Z) :=
  _ ← (if at_line_start then mret tt else hd_skip_line);
  loop fuel (heredoc_step delim strip_tabs) [].

(** Every pending here-document is read and given to its redirection: the text
    ([heredoc], a C string) and [heredoc_quoted]. *)
Fixpoint collect_hdocs (hd : list HDoc) (at_start : bool) (redirs : gmap nat (list Z * bool))
    : LM Src (gmap nat (list Z * bool)) :=
  match hd with
  | [] => mret redirs
  | h :: hd =>
      body ← lex_heredoc (h_delim h) (h_strip_tabs h) at_start;
      collect_hdocs hd at_start
        (<[h_redir h := (copy_delim (length body) body, h_strip_tabs h)]> redirs)
  end.

Definition lex_collect_hdocs (lx : Lex Src) (redirs : gmap nat (list Z * bool))
    : option (gmap nat (list Z * bool) * Lex Src) :=
  let at_start := lx_have_peek lx &&
    match lx_peek lx with T_NEWLINE | T_EOF => true | _ => false end in
  '(redirs, s) ← collect_hdocs (lx_hd lx) at_start redirs (lx_src lx);
  Some (redirs, mkLex s (lx_tok lx) (lx_have_peek lx) (lx_peek lx) (lx_have_peek2 lx) (lx_peek2 lx) []).

End HereDocs.
