(* ===== verification/LexSource.v ===== *)
(** The block buffer is invisible: over a string the lexer reads what it would read
    from the plain text.

    [text_source] is the text itself as a character source.  [reads] relates a [Src] to
    the text that is still to be read; [Simulates] states that two sources answer
    alike, [block_simulates] that the code's does, and [lex_read_raw_sim] that the
    tokenizer cannot tell them apart. *)
From S2P Require Import Prelude CString Lex.

(** ** The text as a source *)

Definition text_peek_at (n : nat) (t : list Z) : Z * list Z := (nth n t (-1), t).

Definition text_get (t : list Z) : Z * list Z :=
  match t with c :: t' => (c, t') | [] => (-1, []) end.

#[export] Instance text_source : CharSource (list Z) :=
  {| src_get := text_get; src_peek := text_peek_at 0; src_peek_at := text_peek_at |}.

(** ** Sources that answer alike *)

Class Simulates {S1 S2} `{CharSource S1, CharSource S2} (R : S1 -> S2 -> Prop) : Prop := {
  sim_get s1 s2 : R s1 s2 ->
    fst (src_get s1) = fst (src_get s2) /\ R (snd (src_get s1)) (snd (src_get s2));
  sim_peek s1 s2 : R s1 s2 ->
    fst (src_peek s1) = fst (src_peek s2) /\ R (snd (src_peek s1)) (snd (src_peek s2));
  sim_peek_at n s1 s2 : R s1 s2 ->
    fst (src_peek_at n s1) = fst (src_peek_at n s2) /\
    R (snd (src_peek_at n s1)) (snd (src_peek_at n s2)) }.

(** Two runs agree: the same result and related states, or both out of fuel. *)
Definition agree {S1 S2 A} (R : S1 -> S2 -> Prop) (r1 : option (A * S1)) (r2 : option (A * S2)) : Prop :=
  match r1, r2 with
  | Some (a, s1), Some (b, s2) => a = b /\ R s1 s2
  | None, None => True
  | _, _ => False
  end.

Create HintDb lexsim.

Section Simulation.
Context {S1 S2 : Type} `{CharSource S1, CharSource S2} (R : S1 -> S2 -> Prop) `{!Simulates R}.

Definition msim {A} (m1 : LM S1 A) (m2 : LM S2 A) : Prop :=
  forall s1 s2, R s1 s2 -> agree R (m1 s1) (m2 s2).

Lemma msim_ret {A} (a : A) : msim (mret a) (mret a).
Proof. by intros s1 s2 HR. Qed.

Lemma msim_bind {A B} (m1 : LM S1 A) (m2 : LM S2 A) (k1 : A -> LM S1 B) (k2 : A -> LM S2 B) :
  msim m1 m2 -> (forall a, msim (k1 a) (k2 a)) -> msim (m1 ≫= k1) (m2 ≫= k2).
Proof.
  intros Hm Hk s1 s2 HR. unfold mbind, LM_bind. specialize (Hm s1 s2 HR).
  destruct (m1 s1) as [[a s1']|], (m2 s2) as [[b s2']|]; simpl in Hm; try done.
  destruct Hm as [-> HR']. by apply Hk.
Qed.

Lemma msim_loop {A B} (b1 : A -> LM S1 (A + B)) (b2 : A -> LM S2 (A + B)) n a :
  (forall a, msim (b1 a) (b2 a)) -> msim (loop n b1 a) (loop n b2 a).
Proof.
  intros Hb. revert a. induction n as [|n IH]; intros a; simpl; [done|].
  apply msim_bind; [apply Hb|]. intros [a'|b]; [apply IH | apply msim_ret].
Qed.

Lemma msim_get : msim get get.
Proof. intros s1 s2 HR. destruct (sim_get s1 s2 HR). unfold get, agree. by destruct (src_get s1), (src_get s2). Qed.

Lemma msim_peek : msim peek peek.
Proof. intros s1 s2 HR. destruct (sim_peek s1 s2 HR). unfold peek, agree. by destruct (src_peek s1), (src_peek s2). Qed.

Lemma msim_peek_at n : msim (peek_at n) (peek_at n).
Proof.
  intros s1 s2 HR. destruct (sim_peek_at n s1 s2 HR). unfold peek_at, agree.
  by destruct (src_peek_at n s1), (src_peek_at n s2).
Qed.

End Simulation.

#[export] Hint Resolve msim_ret msim_get msim_peek msim_peek_at : lexsim.

(** One reader: through its binds, loops and tests down to the source. *)
Ltac lexsim :=
  repeat first
    [ progress (eauto with lexsim; try typeclasses eauto)
    | apply msim_ret
    | apply msim_loop; intros
    | apply msim_bind; [|intros]
    | match goal with
      | |- context [match ?x with _ => _ end] => is_var x; destruct x; cbn beta iota
      | |- context [if ?b then _ else _] => destruct b
      end
    | progress unfold again, leave ].

Section Readers.
Context {S1 S2 : Type} `{CharSource S1, CharSource S2} (R : S1 -> S2 -> Prop) `{!Simulates R}.
Variable fuel : nat.

Lemma hex_loop_sim k v n : msim R (hex_loop k v n) (hex_loop k v n).
Proof. revert v n. induction k; intros; simpl; lexsim. Qed.

Lemma oct_loop_sim k v : msim R (oct_loop k v) (oct_loop k v).
Proof. revert v. induction k; intros; simpl; lexsim. Qed.

Hint Resolve hex_loop_sim oct_loop_sim : lexsim.

Lemma ansi_c_escape_sim out : msim R (ansi_c_escape out) (ansi_c_escape out).
Proof. unfold ansi_c_escape. lexsim. Qed.

Lemma doubled_sim e c : msim R (doubled e c) (doubled e c).
Proof. unfold doubled. lexsim. Qed.

Lemma add_next_sim out : msim R (add_next out) (add_next out).
Proof. unfold add_next. lexsim. Qed.

Hint Resolve ansi_c_escape_sim doubled_sim add_next_sim : lexsim.

Lemma read_literal_body_sim out e e2 :
  msim R (read_literal_body fuel out e e2) (read_literal_body fuel out e e2).
Proof. unfold read_literal_body. lexsim. Qed.

Lemma read_quoted_raw_sim out e e2 :
  msim R (read_quoted_raw fuel out e e2) (read_quoted_raw fuel out e e2).
Proof. unfold read_quoted_raw. lexsim. Qed.

Lemma copy_backtick_sim out : msim R (copy_backtick fuel out) (copy_backtick fuel out).
Proof. unfold copy_backtick. lexsim. Qed.

Lemma skip_while_sim p : msim R (skip_while fuel p) (skip_while fuel p).
Proof. unfold skip_while. lexsim. Qed.

Lemma take_while_sim p out : msim R (take_while fuel p out) (take_while fuel p out).
Proof. unfold take_while. lexsim. Qed.

Lemma skip_to_rp_sim n : msim R (skip_to_rp fuel n) (skip_to_rp fuel n).
Proof. unfold skip_to_rp. lexsim. Qed.

Hint Resolve read_literal_body_sim read_quoted_raw_sim copy_backtick_sim skip_while_sim
  take_while_sim skip_to_rp_sim : lexsim.

Lemma read_cmdsub_sim out : msim R (read_cmdsub fuel out) (read_cmdsub fuel out).
Proof. unfold read_cmdsub, cmdsub_step. lexsim. Qed.

Lemma read_backtick_sim out : msim R (read_backtick fuel out) (read_backtick fuel out).
Proof. unfold read_backtick. lexsim. Qed.

Lemma read_brace_sim out : msim R (read_brace fuel out) (read_brace fuel out).
Proof. unfold read_brace, brace_step. lexsim. Qed.

Lemma read_arith_sim out : msim R (read_arith fuel out) (read_arith fuel out).
Proof. unfold read_arith, arith_step. lexsim. Qed.

Lemma read_file_name_sim out : msim R (read_file_name fuel out) (read_file_name fuel out).
Proof. unfold read_file_name. lexsim. Qed.

Hint Resolve read_cmdsub_sim read_backtick_sim read_brace_sim read_arith_sim
  read_file_name_sim : lexsim.

Lemma read_dollar_sim w q : msim R (read_dollar fuel w q) (read_dollar fuel w q).
Proof. unfold read_dollar. lexsim. Qed.

Hint Resolve read_dollar_sim : lexsim.

Lemma lex_tilde_sim w : msim R (lex_tilde fuel w) (lex_tilde fuel w).
Proof. unfold lex_tilde. lexsim. Qed.

Lemma read_squote_sim l : msim R (read_squote fuel l) (read_squote fuel l).
Proof. unfold read_squote. lexsim. Qed.

Lemma read_dquote_sim w : msim R (read_dquote fuel w) (read_dquote fuel w).
Proof. unfold read_dquote. lexsim. Qed.

Hint Resolve lex_tilde_sim read_squote_sim read_dquote_sim : lexsim.

Lemma word_step_sim st : msim R (word_step fuel st) (word_step fuel st).
Proof. unfold word_step. lexsim. Qed.

Hint Resolve word_step_sim : lexsim.

Lemma lex_word_sim : msim R (lex_word fuel) (lex_word fuel).
Proof. unfold lex_word. lexsim. Qed.

Lemma skip_blank_sim : msim R (skip_blank fuel) (skip_blank fuel).
Proof. unfold skip_blank. lexsim. Qed.

Lemma lex_op_sim c c1 c2 : msim R (lex_op c c1 c2) (lex_op c c1 c2).
Proof. unfold lex_op. lexsim. Qed.

Lemma gets_sim n : msim R (gets n) (gets n).
Proof. induction n; simpl; lexsim. Qed.

Hint Resolve lex_word_sim skip_blank_sim lex_op_sim gets_sim : lexsim.

Lemma lex_read_raw_sim : msim R (lex_read_raw fuel) (lex_read_raw fuel).
Proof. unfold lex_read_raw. lexsim. Qed.

End Readers.

(** ** What every step over a text keeps, every reader keeps *)

Definition keeps (P : list Z -> Prop) (t1 t2 : list Z) : Prop := t1 = t2 /\ P t1.

Lemma keeps_simulates (P : list Z -> Prop) : (forall c t, P (c :: t) -> P t) -> Simulates (keeps P).
Proof.
  intros HP. split; [|by intros ?? [-> ?]|by intros ??? [-> ?]].
  intros t1 t [-> Ht]. destruct t; simpl; [done|]. split; [done|]. split; [done|]. by eapply HP.
Qed.

#[export] Instance bytes_kept : Simulates (keeps bytes).
Proof. apply keeps_simulates. intros c t Ht. by apply Forall_cons in Ht as [_ ?]. Qed.

#[export] Instance suffix_kept t0 : Simulates (keeps (fun t => t `suffix_of` t0)).
Proof. apply keeps_simulates. intros c t Ht. by eapply suffix_cons_l. Qed.

Lemma kept {A} P (m : LM (list Z) A) t a t' :
  msim (keeps P) m m -> P t -> m t = Some (a, t') -> P t'.
Proof.
  intros Hm Ht Hr. specialize (Hm t t (conj eq_refl Ht)). rewrite Hr in Hm. by destruct Hm as [_ [_ ?]].
Qed.

(** ** The block buffer over a string *)

(** How far in the text the cursor is. *)
Definition offset (lx : Src) : nat := Z.to_nat (pos lx - len lx + linepos lx).

(** The buffer holds the [len] bytes of the text that end at [pos]. *)
Record src_ok (lx : Src) : Prop := {
  ok_fd : fd lx = None;
  ok_len : textlen lx = Z.of_nat (length (text lx));
  ok_bytes : bytes (text lx);
  ok_cursor : 0 <= linepos lx <= len lx;
  ok_pos : len lx <= pos lx <= textlen lx;
  ok_line : take (Z.to_nat (len lx)) (line lx) =
            take (Z.to_nat (len lx)) (drop (Z.to_nat (pos lx - len lx)) (text lx)) }.

Definition reads (lx : Src) (t : list Z) : Prop :=
  src_ok lx /\ drop (offset lx) (text lx) = t.

Lemma reads_start t : bytes t -> reads (lex_init_str t (Z.of_nat (length t))) t.
Proof. intros Hb. split; [|done]. constructor; simpl; done || lia. Qed.

Lemma nth_take {A} (l : list A) n i d : (i < n)%nat -> nth i (take n l) d = nth i l d.
Proof. revert n i. induction l; intros [|n] [|i] Hi; simpl; try done; try lia. apply IHl. lia. Qed.

Lemma nth_drop {A} (l : list A) n i d : nth i (drop n l) d = nth (n + i) l d.
Proof. revert n. induction l; intros [|n]; simpl; try done. by destruct i. Qed.

Lemma nth_end {A} (l : list A) i d : (length l <= i)%nat -> nth i l d = d.
Proof. apply nth_overflow. Qed.

(** The character under the cursor is the next of the text. *)
Lemma cur_reads lx t : reads lx t -> linepos lx < len lx ->
  exists c t', t = c :: t' /\ cur lx = c /\ is_u8 c.
Proof.
  intros [Hok <-] Hlt. destruct Hok as [_ Hl Hb Hc Hp Hline].
  assert (Ho : (offset lx < length (text lx))%nat) by (unfold offset; lia).
  destruct (drop (offset lx) (text lx)) as [|c t'] eqn:Hd.
  { apply (f_equal length) in Hd. rewrite length_drop in Hd. simpl in Hd. lia. }
  exists c, t'. split; [done|].
  assert (Hn : nth (offset lx) (text lx) 0 = c).
  { rewrite <- (Nat.add_0_r (offset lx)), <- nth_drop, Hd. done. }
  assert (Hcur : cur lx = nth (Z.to_nat (linepos lx)) (take (Z.to_nat (len lx)) (line lx)) 0).
  { unfold cur, at_. rewrite nth_take; [done|lia]. }
  rewrite Hcur, Hline, nth_take, nth_drop by lia. split.
  - rewrite <- Hn. f_equal. unfold offset. lia.
  - rewrite <- Hn. by apply Forall_nth.
Qed.

(** An exhausted buffer is filled from where it ended, or the text is at its end. *)
Lemma fill_reads lx t : reads lx t -> len lx <= linepos lx ->
  (t = [] /\ fill_line lx = (false, lx)) \/
  exists lx', t <> [] /\ fill_line lx = (true, lx') /\ reads lx' t /\ linepos lx' < len lx' /\
    text lx' = text lx /\ linegen lx' = linegen lx + 1.
Proof.
  intros [Hok <-] Hle. pose proof Hok as [Hfd Hl Hb Hc Hp Hline].
  assert (Ho : offset lx = Z.to_nat (pos lx)) by (unfold offset; lia).
  unfold fill_line. rewrite Hfd, Ho. destruct (Z.leb_spec (textlen lx) (pos lx)).
  { left. split; [|done]. apply drop_ge. lia. }
  right. eexists. split_and!; [|done|..].
  - intros Hd. apply (f_equal length) in Hd. rewrite length_drop in Hd. simpl in Hd. lia.
  - set (n := if _ <? _ then _ else _).
    assert (Hn : 0 < n <= textlen lx - pos lx).
    { subst n. unfold SH_LINE_MAX. case_match; lia. }
    split; [|unfold offset; simpl; f_equal; lia].
    constructor; simpl; try done; try lia.
    replace (pos lx + n - n) with (pos lx) by lia.
    unfold overwrite. rewrite take_app_le by (rewrite length_take, length_drop; lia).
    rewrite take_take. f_equal. lia.
  - simpl. unfold SH_LINE_MAX. case_match; lia.
  - done.
  - done.
Qed.

Lemma lc_peek_reads lx t : reads lx t ->
  exists lx', lc_peek lx = (nth 0 t (-1), lx') /\ reads lx' t /\ text lx' = text lx /\
    (t <> [] -> linepos lx' < len lx') /\
    (linegen lx' = linegen lx /\ lx' = lx \/ linegen lx < linegen lx').
Proof.
  intros HR. unfold lc_peek. destruct (Z.leb_spec (len lx) (linepos lx)).
  - destruct (fill_reads lx t HR) as [[-> ->]|(lx' & Hne & -> & HR' & Hlt & Ht & Hg)]; [done|..].
    + exists lx. split_and!; [done..|]. by left.
    + exists lx'. destruct (cur_reads lx' t HR' Hlt) as (c & t' & -> & -> & _).
      split_and!; [done..|]. right. lia.
  - destruct (cur_reads lx t HR) as (c & t' & -> & -> & _); [lia|].
    exists lx. split_and!; [done..|]. by left.
Qed.

Lemma reads_step lx c t : reads lx (c :: t) -> linepos lx < len lx ->
  reads (set_linepos lx (linepos lx + 1)) t.
Proof.
  intros [[Hfd Hl Hb Hc Hp Hline] Hd] Hlt. split.
  - constructor; simpl; done || lia.
  - unfold offset in *. simpl.
    replace (Z.to_nat (pos lx - len lx + (linepos lx + 1)))
      with (Z.to_nat (pos lx - len lx + linepos lx) + 1)%nat by lia.
    by rewrite <- drop_drop, Hd.
Qed.

Lemma lc_get_reads lx t : reads lx t ->
  exists lx', lc_get lx = (nth 0 t (-1), lx') /\ reads lx' (tail t) /\ text lx' = text lx /\
    (linegen lx' = linegen lx /\ pos lx' = pos lx /\ len lx' = len lx /\ line lx' = line lx
     \/ linegen lx < linegen lx').
Proof.
  intros HR. unfold lc_get. destruct (lc_peek_reads lx t HR) as (lx' & -> & HR' & Ht & Hlt & Hg).
  destruct t as [|c t]; simpl.
  - exists lx'. split_and!; [done..|]. destruct Hg as [[? ->]|?]; [by left | by right].
  - specialize (Hlt ltac:(done)).
    destruct (cur_reads lx' _ HR' Hlt) as (c' & t' & [= <- <-] & _ & Hc').
    assert ((0 <=? c) = true) as -> by (unfold is_u8 in *; lia).
    eexists. split_and!; [done|by eapply reads_step|done|].
    destruct Hg as [[? ->]|?]; [by left | by right].
Qed.

Lemma lc_gets_reads n lx t : reads lx t ->
  exists lx', lc_gets n lx = (nth n t (-1), lx') /\ text lx' = text lx /\
    reads lx' (drop (S n) t) /\
    (linegen lx' = linegen lx /\ pos lx' = pos lx /\ len lx' = len lx /\ line lx' = line lx
     \/ linegen lx < linegen lx').
Proof.
  revert lx t. induction n as [|n IH]; intros lx t HR; simpl.
  - destruct (lc_get_reads lx t HR) as (lx' & -> & HR' & Ht & Hg). exists lx'.
    split_and!; done.
  - destruct (lc_get_reads lx t HR) as (l1 & -> & HR1 & Ht1 & Hg1). simpl.
    destruct (IH l1 _ HR1) as (l2 & -> & Ht2 & HR2 & Hg2). exists l2.
    split_and!; [by destruct t as [|? [|??]], n | congruence | by destruct t as [|? [|??]] |].
    destruct Hg1 as [(?&?&?&?)|?], Hg2 as [(?&?&?&?)|?]; [left | right..]; try lia.
    split_and!; congruence.
Qed.

(** Looking ahead gives the [n]-th character and leaves the text where it was, also
    when it has to leave the block. *)
Lemma lc_peek_at_reads n lx t : reads lx t ->
  exists lx', lc_peek_at n lx = (nth n t (-1), lx') /\ reads lx' t.
Proof.
  assert (Hmain : forall l, reads l t -> exists lx',
    (let '(c, l') := lc_gets n l in
     if linegen l' =? linegen l then
       (c, mkSrc (fd l') (text l') (textlen l') (len l) (pos l) (line l) (linepos l) (linenr l)
             (linegen l') (ateof l'))
     else
       (c, mkSrc (fd l') (text l') (textlen l') 0 (pos l - len l + linepos l) (line l') 0 (linenr l)
             (linegen l') (ateof l'))) = (nth n t (-1), lx') /\ reads lx' t).
  { intros l HR. destruct (lc_gets_reads n l t HR) as (l' & -> & Ht & [Hok' _] & Hg).
    destruct HR as [Hok Hd], Hok as [Hfd Hl Hb Hc Hp Hline], Hok' as [Hfd' Hl' Hb' Hc' Hp' _].
    rewrite Ht in Hl'.
    destruct Hg as [(Hgen & _)|Hgen].
    - rewrite Hgen, Z.eqb_refl. eexists. split; [done|]. split; [|by unfold offset in *; simpl; rewrite Ht].
      constructor; simpl; rewrite ?Ht; done || lia.
    - destruct (Z.eqb_spec (linegen l') (linegen l)); [lia|]. eexists. split; [done|]. split.
      + constructor; simpl; rewrite ?Ht; done || lia.
      + unfold offset in *. simpl. rewrite Ht, <- Hd. f_equal. lia. }
  intros HR. unfold lc_peek_at. destruct (Z.leb_spec (len lx) (linepos lx)).
  - destruct (fill_reads lx t HR) as [[-> ->]|(lx' & Hne & -> & HR' & _)]; [done|..].
    + exists lx. by destruct n.
    + by apply Hmain.
  - by apply Hmain.
Qed.

#[export] Instance block_simulates : Simulates reads.
Proof.
  split.
  - intros s t HR. simpl. destruct (lc_get_reads s t HR) as (s' & -> & HR' & _). by destruct t.
  - intros s t HR. simpl. destruct (lc_peek_reads s t HR) as (s' & -> & HR' & _). done.
  - intros n s t HR. simpl. destruct (lc_peek_at_reads n s t HR) as (s' & -> & HR'). done.
Qed.
