(* ===== verification/LexTotal.v ===== *)
(** Termination of the tokenizer: over a text, with more fuel than the text has
    characters, every reader comes to its end, and every token but the last takes at
    least one character. *)
From S2P Require Import Prelude CString Lex LexSource.

(** [m] comes to its end from [s], with [Q] of the result and of what is left. *)
Definition runs {S A} (m : LM S A) (s : S) (Q : A -> S -> Prop) : Prop :=
  exists a s', m s = Some (a, s') /\ Q a s'.

Section Rules.
Context {S : Type}.

Lemma runs_ret {A} (a : A) (s : S) (Q : A -> S -> Prop) : Q a s -> runs (mret a) s Q.
Proof. intros HQ. by exists a, s. Qed.

Lemma runs_bind {A B} (m : LM S A) (k : A -> LM S B) s (Q : B -> S -> Prop) :
  runs m s (fun a s' => runs (k a) s' Q) -> runs (m ≫= k) s Q.
Proof.
  intros (a & s' & Hm & b & s'' & Hk & HQ). exists b, s''. split; [|done].
  unfold mbind, LM_bind. by rewrite Hm.
Qed.

Lemma runs_weaken {A} (m : LM S A) s (P Q : A -> S -> Prop) :
  runs m s P -> (forall a s', P a s' -> Q a s') -> runs m s Q.
Proof. intros (a & s' & Hm & HP) HPQ. exists a, s'. split; [done | by apply HPQ]. Qed.

(** A loop ends when its body does and brings a measure down each time round. *)
Lemma runs_loop {A B} (I : A -> S -> Prop) (mu : A -> S -> nat) (body : A -> LM S (A + B)) Q n a s :
  I a s -> (mu a s < n)%nat ->
  (forall a s, I a s -> runs (body a) s (fun r s' =>
     match r with inl a' => I a' s' /\ (mu a' s' < mu a s)%nat | inr b => Q b s' end)) ->
  runs (loop n body a) s Q.
Proof.
  intros HI Hmu Hb. revert a s HI Hmu. induction n as [|n IH]; intros a s HI Hmu; [lia|].
  simpl. apply runs_bind. eapply runs_weaken; [by apply Hb|].
  intros [a'|b] s'; simpl.
  - intros [HI' Hlt]. apply IH; [done|lia].
  - intros HQ. by apply runs_ret.
Qed.
End Rules.

Lemma runs_get t Q :
  Q (fst (text_get t)) (snd (text_get t)) -> runs get t Q.
Proof. intros HQ. by exists (fst (text_get t)), (snd (text_get t)); destruct t. Qed.

Lemma runs_peek t (Q : Z -> list Z -> Prop) : Q (nth 0 t (-1)) t -> runs peek t Q.
Proof. intros HQ. by exists (nth 0 t (-1)), t. Qed.

Lemma runs_peek_at n t (Q : Z -> list Z -> Prop) : Q (nth n t (-1)) t -> runs (peek_at n) t Q.
Proof. intros HQ. by exists (nth n t (-1)), t. Qed.

(** From any text of fewer than [fuel] characters [m] ends and leaves no more. *)
Definition ends (fuel : nat) {A} (m : LM (list Z) A) : Prop :=
  forall t N, (length t <= N)%nat -> (N < fuel)%nat -> runs m t (fun _ t' => (length t' <= N)%nat).

Create HintDb lexends.

(** A loop each turn of which takes a character. *)
Lemma loop_runs fuel {A B} (body : A -> LM (list Z) (A + B)) n a t :
  (forall a t N, (length t <= N)%nat -> (N < fuel)%nat -> runs (body a) t (fun r t' =>
     match r with inl _ => (length t' < length t)%nat | inr _ => (length t' <= N)%nat end)) ->
  (length t < n)%nat -> (length t < fuel)%nat ->
  runs (loop n body a) t (fun _ t' => (length t' <= length t)%nat).
Proof.
  intros Hb Hn Hf.
  apply (runs_loop (fun _ u => (length u <= length t)%nat) (fun _ u => length u)); [done|lia|].
  intros a' u Hu. eapply runs_weaken; [by apply (Hb _ _ (length t))|].
  intros [x|x] t' Ht'; simpl in *; lia.
Qed.

Lemma ends_loop fuel {A B} (body : A -> LM (list Z) (A + B)) a :
  (forall a t N, (length t <= N)%nat -> (N < fuel)%nat -> runs (body a) t (fun r t' =>
     match r with inl _ => (length t' < length t)%nat | inr _ => (length t' <= N)%nat end)) ->
  ends fuel (loop fuel body a).
Proof.
  intros Hb t N Ht HN. eapply runs_weaken; [apply (loop_runs fuel); [done|lia..]|].
  simpl. lia.
Qed.

Ltac lexstep :=
  match goal with
  | |- (_ <= _)%nat => cbn in *; lia
  | |- (_ < _)%nat => cbn in *; lia
  | |- runs (_ ≫= _) _ _ => apply runs_bind
  | |- runs (mret _) _ _ => apply runs_ret; first [cbn in *; lia | cbn beta iota]
  | |- runs (again _) _ _ => apply runs_ret; cbn in *; lia
  | |- runs (leave _) _ _ => apply runs_ret; cbn in *; lia
  | |- runs get ?t _ => apply runs_get; try (is_var t; destruct t); cbn [text_get fst snd]
  | |- runs peek ?t _ => apply runs_peek; try (is_var t; destruct t); cbn [nth]
  | |- runs (peek_at _) ?t _ => apply runs_peek_at
  | |- runs ((if ?b then _ else _)) _ _ =>
      first [ change b with true | change b with false | destruct b ]; cbn beta iota
  | |- runs (match ?x with _ => _ end) _ _ => is_var x; destruct x; cbn beta iota
  | H : ends ?f ?m |- runs ?m ?t _ =>
      eapply runs_weaken; [apply (H t (length t)); [done | cbn in *; lia]|]; cbn beta;
      intros ? ? ?
  | |- runs ?m ?t _ =>
      let H := fresh in
      eassert (H : ends _ m) by (auto with lexends);
      eapply runs_weaken; [apply (H t (length t)); [done | cbn in *; lia]|]; clear H; cbn beta;
      intros ? ? ?
  end.

Ltac lexends :=
  first [apply ends_loop; intros ? ? ? ? ? | intros ? ? ? ?]; cbn beta; repeat lexstep.

Section Readers.
Variable fuel : nat.

Lemma hex_loop_ends k v n : ends fuel (hex_loop k v n).
Proof. revert v n. induction k; intros; simpl; lexends. Qed.

Lemma oct_loop_ends k v : ends fuel (oct_loop k v).
Proof. revert v. induction k; intros; simpl; lexends. Qed.

Hint Resolve hex_loop_ends oct_loop_ends : lexends.

Lemma ansi_c_escape_ends out : ends fuel (ansi_c_escape out).
Proof. unfold ansi_c_escape. lexends. Qed.

Lemma doubled_ends e c : ends fuel (doubled e c).
Proof. unfold doubled. lexends. Qed.

Lemma add_next_ends out : ends fuel (add_next out).
Proof. unfold add_next. lexends. Qed.

Hint Resolve ansi_c_escape_ends doubled_ends add_next_ends : lexends.

Lemma read_literal_body_ends out e e2 : ends fuel (read_literal_body fuel out e e2).
Proof. unfold read_literal_body. lexends. Qed.

Lemma read_quoted_raw_ends out e e2 : ends fuel (read_quoted_raw fuel out e e2).
Proof. unfold read_quoted_raw. lexends. Qed.

Lemma copy_backtick_ends out : ends fuel (copy_backtick fuel out).
Proof. unfold copy_backtick. lexends. Qed.

(** The end of the text, -1, is none of the characters that are skipped or taken. *)
Lemma skip_while_ends p : p (-1) = false -> ends fuel (skip_while fuel p).
Proof. intros Hp. unfold skip_while. apply ends_loop. intros _ [|c t] N Ht HN; cbn; lexstep; lexstep; rewrite ?Hp; repeat lexstep. Qed.

Lemma take_while_ends p out : p (-1) = false -> ends fuel (take_while fuel p out).
Proof. intros Hp. unfold take_while. apply ends_loop. intros o [|c t] N Ht HN; cbn; lexstep; lexstep; rewrite ?Hp; repeat lexstep. Qed.

(** What they skip or take, and what they leave. *)
Fixpoint taken (p : Z -> bool) (t : list Z) : list Z :=
  match t with c :: t' => if p c then c :: taken p t' else [] | [] => [] end.

Fixpoint left_over (p : Z -> bool) (t : list Z) : list Z :=
  match t with c :: t' => if p c then left_over p t' else t | [] => [] end.

Lemma take_while_text p out t : p (-1) = false -> (length t < fuel)%nat ->
  take_while fuel p out t = Some (out ++ taken p t, left_over p t).
Proof.
  intros Hp. unfold take_while. generalize fuel as n. clear fuel.
  induction t as [|c t IH] in out |- *; intros [|n] Hn; simpl in *; try lia;
    unfold mbind, LM_bind, peek, get; simpl.
  - rewrite Hp. simpl. by rewrite app_nil_r.
  - destruct (p c); simpl; [|by rewrite app_nil_r].
    unfold mbind, LM_bind, peek, get in IH. rewrite IH by lia. by rewrite <- app_assoc.
Qed.

Lemma skip_while_text p t : p (-1) = false -> (length t < fuel)%nat ->
  skip_while fuel p t = Some (tt, left_over p t).
Proof.
  intros Hp. unfold skip_while. generalize fuel as n. clear fuel.
  induction t as [|c t IH]; intros [|n] Hn; simpl in *; try lia;
    unfold mbind, LM_bind, peek, get; simpl.
  - by rewrite Hp.
  - destruct (p c); simpl; [|done].
    unfold mbind, LM_bind, peek, get in IH. by rewrite IH by lia.
Qed.

Lemma left_over_suffix p t : left_over p t `suffix_of` t.
Proof.
  induction t as [|c t IH]; simpl; [done|]. case_match; [|done]. by apply suffix_cons_r.
Qed.

Hint Resolve read_literal_body_ends read_quoted_raw_ends copy_backtick_ends : lexends.

(** After a character that was read, one turn per character and one for the end. *)
Lemma skip_to_rp_runs n t N : n < 0 \/ (length t < N)%nat -> (length t <= N)%nat -> (N < fuel)%nat ->
  runs (skip_to_rp fuel n) t (fun _ t' => (length t' <= length t)%nat).
Proof.
  intros Hn Ht HN. unfold skip_to_rp.
  apply (runs_loop (fun _ t' => (length t' <= length t)%nat)
           (fun n t => if n <? 0 then O else S (length t))).
  - done.
  - destruct (Z.ltb_spec n 0); lia.
  - clear n Hn. intros n u Hu. destruct (Z.leb_spec 0 n) as [Hn|Hn].
    + assert ((n <? 0) = false) as -> by lia. repeat lexstep; apply runs_ret; cbn in *; split; try lia.
      case_match; lia.
    + rewrite andb_false_r. by apply runs_ret.
Qed.

Lemma read_cmdsub_ends out : ends fuel (read_cmdsub fuel out).
Proof. unfold read_cmdsub, cmdsub_step. lexends. Qed.

Lemma read_backtick_ends out : ends fuel (read_backtick fuel out).
Proof. unfold read_backtick. lexends. Qed.

Lemma read_brace_ends out : ends fuel (read_brace fuel out).
Proof. unfold read_brace, brace_step. lexends. Qed.

Lemma read_arith_ends out : ends fuel (read_arith fuel out).
Proof. unfold read_arith, arith_step. lexends. Qed.

Lemma read_file_name_ends out : ends fuel (read_file_name fuel out).
Proof.
  unfold read_file_name. apply ends_loop. intros o t N Ht HN. lexstep. lexstep.
  - eapply runs_bind, runs_weaken; [apply (skip_to_rp_runs _ _ N); simpl in *; lia|].
    intros n u Hu. cbn in Hu. repeat lexstep.
  - lexstep; [|repeat lexstep].
    eapply runs_bind, runs_weaken; [apply (skip_to_rp_runs _ _ N); simpl in *; lia|].
    intros n u Hu. cbn in Hu. repeat lexstep.
Qed.

Hint Resolve read_cmdsub_ends read_backtick_ends read_brace_ends read_arith_ends
  read_file_name_ends : lexends.
Hint Extern 3 (ends _ (skip_while _ _)) => (apply skip_while_ends; reflexivity) : lexends.
Hint Extern 3 (ends _ (take_while _ _ _)) => (apply take_while_ends; reflexivity) : lexends.

Lemma read_dollar_ends w q : ends fuel (read_dollar fuel w q).
Proof. unfold read_dollar. lexends. Qed.

Hint Resolve read_dollar_ends : lexends.

Lemma lex_tilde_ends w : ends fuel (lex_tilde fuel w).
Proof. unfold lex_tilde. lexends. Qed.

Lemma read_squote_ends l : ends fuel (read_squote fuel l).
Proof. unfold read_squote. lexends. Qed.

Lemma read_dquote_ends w : ends fuel (read_dquote fuel w).
Proof. unfold read_dquote. lexends. Qed.

Hint Resolve lex_tilde_ends read_squote_ends read_dquote_ends : lexends.


Lemma word_step_runs st t N : (length t <= N)%nat -> (N < fuel)%nat ->
  runs (word_step fuel st) t (fun r t' =>
    match r with inl _ => (length t' < length t)%nat | inr _ => (length t' <= N)%nat end).
Proof. intros Ht HN. unfold word_step. repeat lexstep. Qed.

Lemma word_loop_ends st : ends fuel (loop fuel (word_step fuel) st).
Proof. apply ends_loop. apply word_step_runs. Qed.

Hint Resolve word_loop_ends : lexends.

(** A turn on a character that is part of the word takes it. *)
Lemma word_first w lit c t : 0 <= c -> is_meta c || is_blank c || (c =? ch_nl) = false ->
  (length (c :: t) < fuel)%nat ->
  runs (word_step fuel (w, lit, false)) (c :: t) (fun r t' => (length t' < length (c :: t))%nat).
Proof.
  intros Hc Hs HN. unfold word_step. apply runs_bind, runs_peek. cbn [nth].
  destruct (is_meta c), (is_blank c), (c =? ch_nl); try done.
  assert ((c <? 0) = false) as -> by lia. cbn [negb andb orb].
  repeat lexstep.
Qed.

(** A word that starts with a character of its own takes at least that character. *)
Lemma lex_word_runs c t : 0 <= c -> is_meta c || is_blank c || (c =? ch_nl) = false ->
  (length (c :: t) < fuel)%nat ->
  runs (lex_word fuel) (c :: t) (fun _ t' => (length t' < length (c :: t))%nat).
Proof.
  intros Hc Hs HN. unfold lex_word. apply runs_bind.
  apply (runs_weaken _ _ (fun _ t' => t' = c :: t \/ (length t' < length (c :: t))%nat)).
  { unfold lex_tilde. repeat lexstep; first [by left | right; cbn in *; lia]. }
  intros w t' Ht'. apply runs_bind.
  apply (runs_weaken _ _ (fun _ u => (length u < length (c :: t))%nat)).
  2:{ intros [[w' lit] q] u Hu. by apply runs_ret. }
  destruct Ht' as [->|Ht'].
  - destruct fuel as [|f] eqn:Hf; [lia|]. rewrite <- Hf in *. rewrite Hf at 1. simpl. apply runs_bind.
    eapply runs_weaken; [by apply word_first|].
    intros [st|st] u Hu; simpl in Hu; [|by apply runs_ret].
    eapply runs_weaken; [apply (loop_runs fuel); [apply word_step_runs|simpl in *; lia..]|].
    simpl. lia.
  - eapply runs_weaken; [apply word_loop_ends; [done|simpl in *; lia]|]. simpl in *. lia.
Qed.

(** What the first loop leaves: the end of the text, what follows a newline, or a text
    that starts with a token. *)
Definition skipped (t : list Z) (r : option Tok) (t' : list Z) : Prop :=
  match r with
  | Some T_EOF => t' = []
  | Some r => r = T_NEWLINE /\ (length t' < length t)%nat
  | None => exists c u, t' = c :: u /\ is_u8 c /\ is_blank c = false /\ c <> ch_nl /\ c <> ch_hash /\
                        (length t' <= length t)%nat
  end.

Lemma skip_blank_runs t : bytes t -> (length t < fuel)%nat ->
  runs (skip_blank fuel) t (skipped t).
Proof.
  intros Hb HN. unfold skip_blank.
  apply (runs_loop (fun _ u => bytes u /\ (length u <= length t)%nat) (fun _ u => length u));
    [done|lia|].
  intros [] u [Hu Hl]. apply runs_bind, runs_peek. destruct u as [|c u]; cbn [nth].
  { apply runs_ret. done. }
  apply Forall_cons in Hu as [Hc Hu]. unfold is_u8 in Hc. simpl in Hl.
  assert ((c <? 0) = false) as -> by lia.
  destruct (is_blank c) eqn:Hbl.
  { repeat lexstep. apply runs_ret. simpl. split; [|lia]. split; [done|lia]. }
  apply runs_bind, (runs_weaken _ _ (fun _ u' => u' = c :: u)).
  { case_match; [by apply runs_peek_at | by apply runs_ret]. }
  intros c1 u' ->. destruct ((c =? ch_bs) && (c1 =? ch_nl)).
  { apply runs_bind, runs_get. simpl. apply runs_bind, runs_get. apply runs_ret.
    destruct u as [|c' u]; simpl in *; [split; [split; [done|lia]|lia]|].
    apply Forall_cons in Hu as [_ Hu]. split; [split; [done|lia]|lia]. }
  destruct (Z.eqb_spec c ch_hash) as [->|Hh].
  { apply runs_bind. eexists tt, _. split; [apply skip_while_text; [done|simpl; lia]|].
    apply runs_ret. simpl.
    destruct (left_over_suffix (fun c => (0 <=? c) && negb (c =? ch_nl)) u) as [v Hv].
    split; [|rewrite Hv at 2; rewrite length_app; lia]. split.
    - unfold bytes in Hu. rewrite Hv in Hu. by apply Forall_app in Hu as [_ ?].
    - apply (f_equal length) in Hv. rewrite length_app in Hv. lia. }
  destruct (Z.eqb_spec c ch_nl) as [->|Hnl].
  - apply runs_bind, runs_get. apply runs_ret. simpl. split; [done|lia].
  - apply runs_ret. simpl. exists c, u. split_and!; try done; lia.
Qed.

(** The switch looks and does not take; without an operator there is no metacharacter. *)
Lemma lex_op_runs c c1 c2 t : runs (lex_op c c1 c2) t (fun r t' =>
  t' = t /\ match r with Some (_, n) => (0 < n)%nat | None => is_meta c = false end).
Proof.
  unfold lex_op, is_meta.
  destruct (c =? ch_semi), (c =? ch_amp), (c =? ch_pipe), (c =? ch_lt), (c =? ch_gt), (c =? ch_lp),
    (c =? ch_rp); cbn [orb];
  repeat match goal with
  | |- runs (_ ≫= _) _ _ => apply runs_bind, runs_peek_at
  | |- runs (if ?b then _ else _) _ _ => destruct b
  | |- runs (mret _) _ _ => apply runs_ret; split; [done|]; repeat case_match; simplify_eq; lia || done
  end.
Qed.

Lemma gets_runs n t : runs (gets n) t (fun _ t' => t' = drop n t).
Proof.
  revert t. induction n as [|n IH]; intros t; simpl; [by apply runs_ret|].
  apply runs_bind, runs_get. eapply runs_weaken; [apply IH|]. intros _ t' ->.
  destruct t; simpl; by rewrite ?drop_nil.
Qed.

(** A token: the end of the text is the end of the text, and anything else takes
    characters. *)
Lemma lex_read_raw_runs t : bytes t -> (length t < fuel)%nat ->
  runs (lex_read_raw fuel) t (fun k t' =>
    k = T_EOF /\ t' = [] \/ k <> T_EOF /\ (length t' < length t)%nat).
Proof.
  intros Hb HN. unfold lex_read_raw. apply runs_bind.
  eapply runs_weaken; [by apply skip_blank_runs|].
  intros [k|] u Hu; simpl in Hu.
  { apply runs_ret. destruct k; [by left|..]; destruct Hu as [Hk Hl]; by right. }
  destruct Hu as (c & v & -> & Hc & Hbl & Hnl & Hh & Hl). unfold is_u8 in Hc.
  apply runs_bind, runs_peek. apply runs_bind, runs_peek_at. apply runs_bind, runs_peek_at.
  apply runs_bind. eapply runs_weaken; [apply lex_op_runs|].
  intros [[op n]|] u [-> Hop].
  - apply runs_bind. eapply runs_weaken; [apply gets_runs|]. intros _ u ->. apply runs_ret.
    right. split; [done|]. rewrite length_drop. simpl in *. lia.
  - apply runs_bind. cbn [nth] in Hop. eapply runs_weaken.
    { apply lex_word_runs; [lia| |lia]. rewrite Hop, Hbl. by apply Z.eqb_neq. }
    intros w u Hu. simpl in *. apply runs_ret. right. split; [|lia].
    unfold word_token. by repeat case_match.
Qed.

End Readers.

(** ** All the tokens of a text *)

Section AllTokens.
Context {S : Type} `{CharSource S}.
Variable fuel : nat.

(** [lex_next] until it reads the end. *)
Fixpoint tokens (n : nat) (lx : Lex S) : option (list Tok) :=
  match n with
  | O => None
  | Datatypes.S n' =>
      lx ← lex_next fuel lx;
      match lx_tok lx with
      | T_EOF => Some []
      | k => cons k <$> tokens n' lx
      end
  end.
End AllTokens.

Lemma tokens_step {S} `{CharSource S} fuel n (s : S) k0 :
  tokens fuel (Datatypes.S n) (mkLex s k0 false T_EOF false T_EOF []) =
  match lex_read_raw fuel s with
  | Some (T_EOF, _) => Some []
  | Some (k, s') => cons k <$> tokens fuel n (mkLex s' k false T_EOF false T_EOF [])
  | None => None
  end.
Proof. simpl. unfold lex_next; simpl. destruct (lex_read_raw fuel s) as [[[] ?]|]; done. Qed.

Lemma tokens_text_total fuel n t k0 : bytes t -> (length t < fuel)%nat -> (length t < n)%nat ->
  exists ks, tokens fuel n (mkLex t k0 false T_EOF false T_EOF []) = Some ks /\
    (length ks <= length t)%nat /\ Forall (fun k => k <> T_EOF) ks.
Proof.
  revert t k0. induction n as [|n IH]; intros t k0 Hb Hf Hn; [lia|]. rewrite tokens_step.
  destruct (lex_read_raw_runs fuel t Hb Hf) as (k & t' & Hr & Hk). rewrite Hr.
  assert (Hb' : bytes t') by (by eapply (kept bytes), Hr; [apply lex_read_raw_sim, _|]).
  destruct Hk as [[-> ->]|[Hne Hl]].
  { exists []. split_and!; [done|simpl; lia|done]. }
  destruct (IH t' k Hb') as (ks & Hks & Hlen & Hall); [lia..|].
  exists (k :: ks). rewrite Hks. split_and!; [by destruct k|simpl; lia|by constructor].
Qed.

Lemma tokens_sim {S1 S2} `{CharSource S1, CharSource S2} (R : S1 -> S2 -> Prop) `{!Simulates R}
    fuel n s1 s2 k0 : R s1 s2 ->
  tokens fuel n (mkLex s1 k0 false T_EOF false T_EOF []) =
  tokens fuel n (mkLex s2 k0 false T_EOF false T_EOF []).
Proof.
  revert s1 s2 k0. induction n as [|n IH]; intros s1 s2 k0 HR; [done|]. rewrite !tokens_step.
  pose proof (lex_read_raw_sim R fuel s1 s2 HR) as Hs. unfold agree in Hs.
  destruct (lex_read_raw fuel s1) as [[k1 s1']|], (lex_read_raw fuel s2) as [[k2 s2']|]; try done.
  destruct Hs as [-> HR']. destruct k2; try done; f_equal; by apply IH.
Qed.
