(* ===== verification/LexPrint.v ===== *)
(** Printing tokens, and reading them back.

    [print_tok] writes a token the way a script could: unquoted text behind
    backslashes, quoted text in single quotes, expansions as they are spelt.  The
    lemmas follow the readers of [Lex] over what is printed; [lex_read_print] puts them
    together. *)
From S2P Require Import Prelude CString Lex LexSource LexTotal.

(** ** Loops over a known text *)

Section Loops.
Context {S A B : Type}.
Implicit Types (body : A -> LM S (A + B)).

Lemma loop_again n body a (t : S) a' t' :
  body a t = Some (inl a', t') -> loop (Datatypes.S n) body a t = loop n body a' t'.
Proof. intros Hb. simpl. unfold mbind, LM_bind. by rewrite Hb. Qed.

Lemma loop_leave n body a (t : S) b t' :
  body a t = Some (inr b, t') -> loop (Datatypes.S n) body a t = Some (b, t').
Proof. intros Hb. simpl. unfold mbind, LM_bind. by rewrite Hb. Qed.
End Loops.

(** A loop that adds each character to what it has read. *)
Lemma loop_copy {B} (body : list Z -> LM (list Z) (list Z + B)) (P : Z -> Prop) s u out n :
  (forall out c t, P c -> body out (c :: t) = Some (inl (out ++ [c]), t)) ->
  Forall P s -> (length s <= n)%nat ->
  loop n body out (s ++ u) = loop (n - length s) body (out ++ s) u.
Proof.
  intros Hb Hs. revert out n. induction Hs as [|c s Hc Hs IH]; intros out n Hn; simpl in *.
  - by rewrite Nat.sub_0_r, app_nil_r.
  - destruct n as [|n]; [lia|]. erewrite loop_again; [|by apply Hb].
    rewrite IH by lia. by rewrite <- app_assoc.
Qed.

Lemma bind_step {S A B} (m : LM S A) (k : A -> LM S B) s a s' :
  m s = Some (a, s') -> (m ≫= k) s = k a s'.
Proof. intros Hm. unfold mbind, LM_bind. by rewrite Hm. Qed.

Ltac lexeval := unfold again, leave, mret, LM_ret, mbind, LM_bind, get, peek, peek_at; simpl.

(** The tests of a reader on a character that is none of those it looks for. *)
Ltac not_eqb :=
  repeat match goal with
  | H : ?c <> ?k |- context [?c =? ?k] => rewrite (proj2 (Z.eqb_neq c k) H)
  | H : 0 <= ?c |- context [?c <? 0] => rewrite (proj2 (Z.ltb_ge c 0) H)
  | H : 0 <= ?c |- context [0 <=? ?c] => rewrite (proj2 (Z.leb_le 0 c) H)
  end.

(** One character taken or looked at. *)
Ltac adv := erewrite bind_step by reflexivity; cbn [Z.eqb Pos.eqb andb negb nth].

(** The same where the character is known. *)
Ltac advc :=
  erewrite bind_step by reflexivity;
  cbn [Z.eqb Z.ltb Z.leb Z.compare Pos.eqb Pos.compare Pos.compare_cont andb negb orb nth is_meta is_blank].

(** ** What may stand inside an expansion *)

(** Characters other than [bad], with every [op] closed by a [cl]; [d] are open. *)
Fixpoint balanced (op cl : Z) (bad : list Z) (d : Z) (b : list Z) : bool :=
  match b with
  | [] => d =? 0
  | c :: b' =>
      (0 <=? c) && (c <? 256) && forallb (fun k => negb (c =? k)) bad &&
      (if c =? op then balanced op cl bad (d + 1) b'
       else if c =? cl then (0 <? d) && balanced op cl bad (d - 1) b'
       else balanced op cl bad d b')
  end.

Definition cmdsub_ok (b : list Z) : bool :=
  balanced ch_lp ch_rp [ch_sq; ch_dq; ch_bs; ch_bq] 0 b &&
  negb (nth 0 b (-1) =? ch_lp) && negb (nth 0 b (-1) =? ch_lt).

Definition brace_ok (b : list Z) : bool := balanced ch_lb ch_rb [ch_sq; ch_dq; ch_bs] 0 b.

Definition arith_ok (b : list Z) : bool := balanced ch_lp ch_rp [ch_sq; ch_dq] 0 b.

Definition is_digit_char (c : Z) : bool := (48 <=? c) && (c <=? 57).

(** A name, a digit or a special parameter. *)
Definition var_ok (b : list Z) : bool :=
  match b with
  | [c] => is_name_char c || is_special c
  | c :: _ => negb (is_digit_char c) && forallb is_name_char b
  | [] => false
  end.

Definition file_ok (b : list Z) : bool :=
  forallb (fun c => (0 <=? c) && (c <? 256) && negb (is_blank c) && negb (c =? ch_nl) && negb (c =? ch_rp)) b &&
  negb (nth 0 b (-1) =? ch_lp).

Section Bodies.
Variable fuel : nat.

(** One character of a balanced body, and what is known of the rest. *)
Lemma balanced_cons op cl bad d c b : balanced op cl bad d (c :: b) = true ->
  0 <= c /\ Forall (fun k => c <> k) bad /\
  (c = op /\ balanced op cl bad (d + 1) b = true \/
   c <> op /\ c = cl /\ 0 < d /\ balanced op cl bad (d - 1) b = true \/
   c <> op /\ c <> cl /\ balanced op cl bad d b = true).
Proof.
  simpl. intros [[[Hc _]%andb_prop Hbad]%andb_prop Hr]%andb_prop. split; [lia|]. split.
  - apply Forall_forall. intros k Hk. rewrite forallb_forall in Hbad.
    apply list_elem_of_In in Hk. apply Hbad in Hk. lia.
  - destruct (Z.eqb_spec c op); [by left|right]. destruct (Z.eqb_spec c cl); [left|by right].
    apply andb_prop in Hr as [??]. split_and!; try done. lia.
Qed.

(** A reader that counts [op] and [cl] from [k] on goes through a balanced body. *)
Lemma balanced_loop {B} (step : Z * list Z -> LM (list Z) (Z * list Z + B)) op cl bad k b v d out n :
  (forall d out t, step (d, out) (op :: t) = Some (inl (d + 1, out ++ [op]), t)) ->
  (forall d out t, k < d -> cl <> op -> step (d, out) (cl :: t) = Some (inl (d - 1, out ++ [cl]), t)) ->
  (forall d out c t, 0 <= c -> Forall (fun k => c <> k) bad -> c <> op -> c <> cl ->
     step (d, out) (c :: t) = Some (inl (d, out ++ [c]), t)) ->
  balanced op cl bad d b = true -> 0 <= d -> (length b <= n)%nat ->
  loop n step (d + k, out) (b ++ v) = loop (n - length b) step (k, out ++ b) v.
Proof.
  intros Hop Hcl Hoth. revert d out n. induction b as [|c b IH]; intros d out n Hb Hd Hn.
  { simpl in Hb. apply Z.eqb_eq in Hb as ->. by rewrite app_nil_r, Nat.sub_0_r. }
  destruct n as [|n]; [simpl in Hn; lia|].
  apply balanced_cons in Hb as (Hc & Hbad & Hb). simpl in Hn. cbn [app length Nat.sub].
  destruct Hb as [(-> & Hb)|[(? & -> & ? & Hb)|(? & ? & Hb)]].
  - rewrite (loop_again _ _ _ _ _ _ (Hop _ _ _)).
    replace (d + k + 1) with ((d + 1) + k) by lia.
    rewrite IH by (done || lia). by rewrite <- app_assoc.
  - rewrite (loop_again _ _ _ _ _ _ (Hcl (d + k) out (b ++ v) ltac:(lia) ltac:(done))).
    replace (d + k - 1) with ((d - 1) + k) by lia.
    rewrite IH by (done || lia). by rewrite <- app_assoc.
  - rewrite (loop_again _ _ _ _ _ _ (Hoth (d + k) out c (b ++ v) Hc Hbad ltac:(done) ltac:(done))).
    rewrite IH by (done || lia). by rewrite <- app_assoc.
Qed.

Ltac other_char step :=
  intros d out c t Hc Hbad Hop Hcl; rewrite !Forall_cons in Hbad; destruct_and?;
  unfold step; lexeval; by not_eqb.

Lemma read_cmdsub_text b u : cmdsub_ok b = true -> (length b < fuel)%nat ->
  read_cmdsub fuel [] (b ++ ch_rp :: u) = Some (b, u).
Proof.
  unfold cmdsub_ok. intros [[Hb _]%andb_prop _]%andb_prop Hf. unfold read_cmdsub.
  rewrite (balanced_loop _ ch_lp ch_rp [ch_sq; ch_dq; ch_bs; ch_bq] 1 b (ch_rp :: u) 0).
  - destruct (fuel - length b)%nat eqn:Hn; [lia|]. by apply loop_leave.
  - done.
  - intros d out t Hd _. unfold cmdsub_step. lexeval. by destruct (Z.eqb_spec (d - 1) 0); [lia|].
  - other_char (@cmdsub_step).
  - done.
  - done.
  - lia.
Qed.

Lemma read_brace_text b u : brace_ok b = true -> (length b < fuel)%nat ->
  read_brace fuel [] (b ++ ch_rb :: u) = Some (b, u).
Proof.
  intros Hb Hf. unfold read_brace.
  rewrite (balanced_loop _ ch_lb ch_rb [ch_sq; ch_dq; ch_bs] 0 b (ch_rb :: u) 0).
  - destruct (fuel - length b)%nat eqn:Hn; [lia|]. by apply loop_leave.
  - done.
  - intros d out t Hd _. unfold brace_step. lexeval. by destruct (Z.eqb_spec d 0); [lia|].
  - other_char (@brace_step).
  - done.
  - done.
  - lia.
Qed.

Lemma read_arith_text b u : arith_ok b = true -> (length b < fuel)%nat ->
  read_arith fuel [] (b ++ ch_rp :: ch_rp :: u) = Some (b, u).
Proof.
  intros Hb Hf. unfold read_arith.
  rewrite (balanced_loop _ ch_lp ch_rp [ch_sq; ch_dq] 0 b (ch_rp :: ch_rp :: u) 0).
  - destruct (fuel - length b)%nat eqn:Hn; [lia|]. by apply loop_leave.
  - done.
  - intros d out t Hd _. unfold arith_step. lexeval.
    destruct (Z.eqb_spec d 0); [lia|]. simpl. by destruct (Z.ltb_spec 0 d); [|lia].
  - other_char (@arith_step).
  - done.
  - done.
  - lia.
Qed.

Lemma read_file_text b u : file_ok b = true -> (length b < fuel)%nat ->
  read_file_name fuel [] (b ++ ch_rp :: u) = Some (b, u).
Proof.
  unfold file_ok. intros [Hb _]%andb_prop Hf. unfold read_file_name.
  rewrite (loop_copy _ (fun c => 0 <= c /\ is_blank c = false /\ c <> ch_nl /\ c <> ch_rp) b).
  - destruct (fuel - length b)%nat eqn:Hn; [lia|]. by apply loop_leave.
  - intros out c t (Hc & Hbl & Hnl & Hrp). unfold is_blank in Hbl.
    apply orb_false_iff in Hbl as [?%Z.eqb_neq ?%Z.eqb_neq]. lexeval. by not_eqb.
  - apply Forall_forall. intros c Hc%list_elem_of_In. rewrite forallb_forall in Hb. apply Hb in Hc.
    destruct (is_blank c); simpl in Hc; lia.
  - lia.
Qed.

Lemma read_squote_text s u : Forall (fun c => 0 <= c /\ c <> ch_sq) s -> (length s < fuel)%nat ->
  read_squote fuel [] (s ++ ch_sq :: u) = Some (s, u).
Proof.
  intros Hs Hf. unfold read_squote. rewrite (loop_copy _ (fun c => 0 <= c /\ c <> ch_sq) s).
  - destruct (fuel - length s)%nat eqn:Hn; [lia|]. by apply loop_leave.
  - intros out c t [??]. lexeval. by not_eqb.
  - done.
  - lia.
Qed.

(** ** Expansions *)

(** What follows the dollar sign. *)
Definition spell (p : Part) : list Z :=
  match p_kind p with
  | W_CMDSUB => [ch_lp] ++ p_text p ++ [ch_rp]
  | W_ARITH => [ch_lp; ch_lp] ++ p_text p ++ [ch_rp; ch_rp]
  | W_BRACE => [ch_lb] ++ p_text p ++ [ch_rb]
  | W_FILE => [ch_lp; ch_lt] ++ p_text p ++ [ch_rp]
  | _ => p_text p
  end.

Definition expansion_ok (p : Part) : bool :=
  match p_kind p with
  | W_VAR => var_ok (p_text p)
  | W_CMDSUB => cmdsub_ok (p_text p)
  | W_ARITH => arith_ok (p_text p)
  | W_BRACE => brace_ok (p_text p)
  | W_FILE => file_ok (p_text p)
  | _ => false
  end.

Lemma name_char_range c : is_name_char c = true -> 48 <= c <= 122 /\ c <> 96 /\ c <> 123 /\ (c < 58 \/ 64 < c).
Proof. unfold is_name_char. lia. Qed.

Lemma special_range c : is_special c = true -> is_name_char c = false /\ 0 <= c /\
  c <> ch_lp /\ c <> ch_lb /\ c <> ch_sq /\ (48 <=? c) && (c <=? 57) = false.
Proof. unfold is_special, is_name_char. lia. Qed.

Lemma taken_all p s u : forallb p s = true -> p (nth 0 u (-1)) = false -> p (-1) = false ->
  taken p (s ++ u) = s /\ left_over p (s ++ u) = u.
Proof.
  intros Hs Hu Hp. induction s as [|c s IH]; simpl in *.
  - destruct u as [|c u]; simpl in *; [done|]. by rewrite Hu.
  - apply andb_prop in Hs as [-> Hs]. destruct (IH Hs) as [-> ->]. done.
Qed.

Lemma read_var_text w q s u : var_ok s = true -> is_name_char (nth 0 u (-1)) = false ->
  (length (s ++ u) < fuel)%nat ->
  read_dollar fuel w q (s ++ u) = Some (w ++ [mkPart W_VAR q s], u).
Proof.
  intros Hs Hu Hf. destruct s as [|c s]; [done|].
  assert (Hc : is_name_char c = true \/ s = [] /\ is_special c = true).
  { destruct s; simpl in Hs; [by apply orb_prop in Hs as [?|?]; [left|right] | left].
    by apply andb_prop in Hs as [_ [? _]%andb_prop]. }
  unfold read_dollar. rewrite (bind_step _ _ _ c (c :: s ++ u)) by done.
  destruct Hc as [Hc|[-> Hc]].
  - pose proof (name_char_range c Hc) as (? & ? & ? & ?).
    assert (c <> ch_lp) by lia. assert (c <> ch_lb) by lia. assert (c <> ch_sq) by lia.
    not_eqb. rewrite Hc. destruct ((48 <=? c) && (c <=? 57)) eqn:Hd; cbn [andb negb].
    + assert (s = []) as ->.
      { destruct s; [done|]. simpl in Hs. unfold is_digit_char in Hs. rewrite Hd in Hs. done. }
      done.
    + erewrite bind_step; [|apply take_while_text; [done | simpl in *; lia]].
      assert (Hall : forallb is_name_char (c :: s) = true).
      { destruct s; simpl in *; [by rewrite Hc|]. by apply andb_prop in Hs as [_ ->]. }
      destruct (taken_all is_name_char (c :: s) u Hall Hu eq_refl) as [Ht Hl].
      cbn [app] in Ht, Hl. rewrite Ht, Hl. done.
  - apply special_range in Hc as Hr. destruct Hr as (Hn & ? & ? & ? & ? & Hd).
    not_eqb. rewrite Hn, Hd, Hc. done.
Qed.

Lemma read_dollar_text w p u : expansion_ok p = true -> is_name_char (nth 0 u (-1)) = false ->
  (length (spell p ++ u) < fuel)%nat ->
  read_dollar fuel w (p_quoted p) (spell p ++ u) = Some (w ++ [p], u).
Proof.
  intros Hp Hu Hf. destruct p as [k q s]. unfold expansion_ok, spell in *. cbn [p_kind p_text p_quoted] in *.
  rewrite length_app in Hf.
  destruct k; try done; rewrite <- ?app_assoc; cbn [app]; rewrite ?length_app in Hf;
    cbn [app length] in Hf; rewrite ?length_app in Hf.
  - apply read_var_text; [done..|]. rewrite length_app. lia.
  - unfold read_dollar. pose proof Hp as Hp'. unfold cmdsub_ok in Hp'.
    apply andb_prop in Hp' as [[_ H1]%andb_prop H2].
    assert (H1' : (nth 0 (s ++ ch_rp :: u) (-1) =? ch_lp) = false) by (destruct s; simpl in *; lia).
    assert (H2' : (nth 0 (s ++ ch_rp :: u) (-1) =? ch_lt) = false) by (destruct s; simpl in *; lia).
    adv. adv. rewrite H1'. adv. adv. rewrite H2'. adv.
    erewrite bind_step by (apply read_cmdsub_text; [done | lia]). done.
  - unfold read_dollar. adv. adv. adv. adv.
    erewrite bind_step by (apply read_arith_text; [done | lia]). done.
  - unfold read_dollar. adv. adv.
    erewrite bind_step by (apply read_brace_text; [done | lia]). done.
  - unfold read_dollar. adv. adv. adv. adv.
    pose proof Hp as Hp'. unfold file_ok in Hp'. apply andb_prop in Hp' as [Hall H1].
    assert (H1' : (nth 0 (s ++ ch_rp :: u) (-1) =? ch_lp) = false) by (destruct s; simpl in *; lia).
    adv. rewrite H1'. cbn [andb negb]. adv.
    erewrite bind_step.
    2:{ apply skip_while_text; [done|]. rewrite length_app. simpl in *; lia. }
    replace (left_over _ (s ++ ch_rp :: u)) with (s ++ ch_rp :: u).
    2:{ destruct s as [|c s]; [done|]. simpl in *. apply andb_prop in Hall as [Hc _].
        destruct (is_blank c); simpl in *; [lia|]. by destruct (Z.eqb_spec c ch_nl); simpl in *; [lia|]. }
    erewrite bind_step by (apply read_file_text; [done | lia]). done.
Qed.

End Bodies.

(** ** Words *)

Definition escape (t : list Z) : list Z := flat_map (fun c => [ch_bs; c]) t.

(** Characters that mean themselves in front of any expansion. *)
Definition plain (c : Z) : bool := is_name_char c || existsb (Z.eqb c) [37; 43; 44; 45; 46; 47; 58; 61; 64; 91; 93].

(** The text a word starts with: only what needs it is escaped. *)
Definition head_text (t : list Z) : list Z :=
  flat_map (fun c => if plain c then [c] else [ch_bs; c]) t.

Definition print_part (p : Part) : list Z :=
  match p_kind p, p_quoted p with
  | W_LIT, false => escape (p_text p)
  | W_LIT, true => [ch_sq] ++ p_text p ++ [ch_sq]
  | _, false => [ch_dollar] ++ spell p
  | _, true => [ch_dq; ch_dollar] ++ spell p ++ [ch_dq]
  end.

Definition is_byte (c : Z) : bool := (0 <=? c) && (c <? 256).

Definition part_ok (p : Part) : bool :=
  match p_kind p, p_quoted p with
  | W_LIT, q => negb (length (p_text p) =? 0)%nat &&
      forallb (fun c => is_byte c && (negb q || negb (c =? ch_sq))) (p_text p)
  | _, _ => expansion_ok p
  end.

(** Two literals that the lexer would keep in one part. *)
Definition same_lit (p1 p2 : Part) : bool :=
  bool_decide (p_kind p1 = W_LIT) && bool_decide (p_kind p2 = W_LIT) && eqb (p_quoted p1) (p_quoted p2).

Fixpoint chain_ok (prev : Part) (ps : list Part) : bool :=
  match ps with [] => true | p :: ps' => negb (same_lit prev p) && chain_ok p ps' end.

(** A word the lexer can build: its head is unquoted text, possibly none, or it is the
    empty quoted word. *)
Definition word_ok (w : Word) : bool :=
  match w with
  | [mkPart W_LIT true []] => true
  | mkPart W_LIT false t :: ps =>
      forallb is_byte t && negb (nth 0 t (-1) =? ch_nl) &&
      negb ((length t =? 0)%nat && (length ps =? 0)%nat) &&
      forallb part_ok ps && chain_ok (mkPart W_LIT false t) ps &&
      match word_token w with T_WORD _ => true | _ => false end
  | _ => false
  end.

Definition print_word (w : Word) : list Z :=
  match w with
  | [mkPart W_LIT true []] => [ch_sq; ch_sq]
  | mkPart W_LIT false t :: ps => head_text t ++ flat_map print_part ps
  | _ => flat_map print_part w
  end.

Lemma word_add_lit_nil w q : word_add_lit w [] q = w.
Proof. by destruct w as [|? [|??]]. Qed.

(** Text goes into the last part when that is text of the same kind, or becomes a part. *)
Lemma word_add_lit_app w p t q : t <> [] ->
  word_add_lit (w ++ [p]) t q =
  if same_lit p (mkPart W_LIT q t) then w ++ [mkPart W_LIT q (p_text p ++ t)]
  else w ++ [p; mkPart W_LIT q t].
Proof.
  intros Ht. unfold same_lit. simpl. rewrite andb_true_r.
  destruct t as [|c t]; [done|]. induction w as [|x w IH]; [done|].
  cbn [app]. destruct (w ++ [p]) as [|y z] eqn:Hw; [by destruct w|].
  change (word_add_lit (x :: y :: z) (c :: t) q) with (x :: word_add_lit (y :: z) (c :: t) q).
  rewrite IH. by case_match.
Qed.

Lemma mark_empty_grown before w : word_parts w <> before -> mark_empty before w = w.
Proof.
  intros Hne%Nat.eqb_neq. destruct w as [|h w]; [done|]. unfold mark_empty. by rewrite Hne.
Qed.

Section Words.
Variable fuel : nat.
Implicit Types (w : Word) (u : list Z).

Lemma word_escapes t w lit u n : Forall (fun c => 0 <= c) t -> (length t <= n)%nat ->
  loop n (word_step fuel) (w, lit, false) (escape t ++ u) =
  loop (n - length t) (word_step fuel) (w, lit ++ t, false) u.
Proof.
  intros Ht. revert lit n. induction Ht as [|c t Hc Ht IH]; intros lit n Hn; simpl in *.
  - by rewrite Nat.sub_0_r, app_nil_r.
  - destruct n as [|n]; [lia|]. erewrite loop_again.
    2:{ unfold word_step, add_next. lexeval. by rewrite (proj2 (Z.leb_le 0 c) Hc). }
    rewrite IH by lia. by rewrite <- app_assoc.
Qed.

Lemma plain_range c : plain c = true -> 37 <= c <= 122 /\ c <> ch_amp /\ c <> ch_sq /\ c <> ch_lp /\ c <> ch_rp /\
  c <> ch_semi /\ c <> ch_lt /\ c <> ch_gt /\ c <> ch_bs /\ c <> ch_bq.
Proof. unfold plain, is_name_char. simpl. lia. Qed.

Lemma head_text_length t : (length t <= length (head_text t) <= 2 * length t)%nat.
Proof. unfold head_text. induction t as [|c t IH]; simpl; [lia|]. case_match; simpl in *; lia. Qed.

Lemma word_heads t w lit u n : Forall (fun c => 0 <= c) t -> (length t <= n)%nat ->
  loop n (word_step fuel) (w, lit, false) (head_text t ++ u) =
  loop (n - length t) (word_step fuel) (w, lit ++ t, false) u.
Proof.
  intros Ht. revert lit n. induction Ht as [|c t Hc Ht IH]; intros lit n Hn; simpl in *.
  - by rewrite Nat.sub_0_r, app_nil_r.
  - destruct n as [|n]; [lia|]. fold (head_text t).
    rewrite (loop_again _ _ _ _ (w, lit ++ [c], false) (head_text t ++ u)).
    + rewrite IH by lia. by rewrite <- app_assoc.
    + destruct (plain c) eqn:Hp; cbn [app].
      * apply plain_range in Hp. destruct_and?. unfold word_step.
        rewrite (bind_step _ _ _ c (c :: head_text t ++ u)) by done. unfold is_meta, is_blank.
        assert (c <> ch_pipe) by lia. assert (c <> ch_nl) by lia. assert (c <> ch_sp) by lia.
        assert (c <> ch_tab) by lia. assert (c <> ch_dq) by lia. assert (c <> ch_dollar) by lia.
        not_eqb. cbn [negb andb orb]. by adv.
      * unfold word_step, add_next. lexeval. by rewrite (proj2 (Z.leb_le 0 c) Hc).
Qed.

(** A quoted run, an expansion, an expansion in double quotes: one part each. *)
Lemma word_squote w p t lit u : t <> [] -> Forall (fun c => 0 <= c /\ c <> ch_sq) t ->
  (length (t ++ ch_sq :: u) < fuel)%nat ->
  word_add_lit w lit false = p -> (forall p', last p = Some p' -> same_lit p' (mkPart W_LIT true t) = false) ->
  p <> [] ->
  word_step fuel (w, lit, false) ([ch_sq] ++ t ++ [ch_sq] ++ u) =
  Some (inl (p ++ [mkPart W_LIT true t], [], false), u).
Proof.
  intros Hne Ht Hf Hw Hlast Hp. cbn [app]. unfold word_step. advc. advc. rewrite Hw. rewrite length_app in Hf.
  erewrite bind_step by (apply read_squote_text; [done|lia]).
  destruct (exists_last Hp) as (p1 & p2 & ->). rewrite word_add_lit_app by done.
  rewrite Hlast by apply last_snoc. rewrite mark_empty_grown.
  2:{ unfold word_parts. rewrite !length_app. simpl. lia. }
  by rewrite <- app_assoc.
Qed.

Lemma word_dollar w lit p u : expansion_ok p = true -> p_quoted p = false ->
  is_name_char (nth 0 u (-1)) = false -> (length (spell p ++ u) < fuel)%nat ->
  word_step fuel (w, lit, false) ([ch_dollar] ++ spell p ++ u) =
  Some (inl (word_add_lit w lit false ++ [p], [], false), u).
Proof.
  intros Hp Hq Hu Hf. cbn [app]. unfold word_step. advc. advc. rewrite <- Hq at 2.
  erewrite bind_step by (by apply read_dollar_text). done.
Qed.

Lemma word_dquote w lit p u : expansion_ok p = true -> p_quoted p = true ->
  (length (spell p ++ ch_dq :: u) + 1 < fuel)%nat ->
  word_step fuel (w, lit, false) ([ch_dq; ch_dollar] ++ spell p ++ [ch_dq] ++ u) =
  Some (inl (word_add_lit w lit false ++ [p], [], false), u).
Proof.
  intros Hp Hq Hf. cbn [app]. unfold word_step. advc. advc.
  set (w1 := word_add_lit w lit false).
  assert (Hdq : read_dquote fuel w1 (ch_dollar :: spell p ++ ch_dq :: u) = Some (w1 ++ [p], [], u)).
  { unfold read_dquote. destruct fuel as [|[|f]] eqn:Hfuel; [lia..|]. rewrite <- Hfuel in Hf |- *.
    rewrite Hfuel at 1. erewrite loop_again.
    2:{ advc. advc. rewrite word_add_lit_nil, <- Hq.
        erewrite bind_step by (apply read_dollar_text; [done..|lia]). reflexivity. }
    by apply loop_leave. }
  erewrite bind_step by apply Hdq. cbn beta iota. rewrite word_add_lit_nil, mark_empty_grown; [done|].
  unfold word_parts. rewrite length_app. simpl. lia.
Qed.

Lemma print_part_first p : part_ok p = true ->
  exists c t, print_part p = c :: t /\ In c [ch_bs; ch_sq; ch_dq; ch_dollar].
Proof.
  destruct p as [k q t]. unfold part_ok, print_part. simpl.
  destruct k, q; try (intros _; eexists _, _; split; [reflexivity | simpl; tauto]).
  destruct t as [|c t]; [done|]. intros _. eexists _, _. split; [reflexivity | simpl; tauto].
Qed.

Lemma parts_first ps u : forallb part_ok ps = true -> is_name_char (nth 0 u (-1)) = false ->
  is_name_char (nth 0 (flat_map print_part ps ++ u) (-1)) = false.
Proof.
  destruct ps as [|p ps]; [done|]. simpl. intros [Hp _]%andb_prop _.
  destruct (print_part_first p Hp) as (c & t & -> & Hc). simpl in *. by destruct_or?; subst.
Qed.

(** The text pending in the loop, added to the word, and its last part. *)
Lemma word_add_lit_last w lit q prev : last w = Some prev ->
  exists p, last (word_add_lit w lit q) = Some p /\ (lit = [] -> p = prev) /\
    (lit <> [] -> p_kind p = W_LIT /\ p_quoted p = q).
Proof.
  intros Hw. destruct lit as [|c lit].
  { rewrite word_add_lit_nil. by exists prev. }
  destruct w as [|x w] using rev_ind; [done|]. rewrite last_snoc in Hw. simplify_eq.
  rewrite word_add_lit_app by done. case_match.
  - eexists. by rewrite last_snoc.
  - exists (mkPart W_LIT q (c :: lit)). split; [|done].
    change [prev; mkPart W_LIT q (c :: lit)] with ([prev] ++ [mkPart W_LIT q (c :: lit)]).
    by rewrite app_assoc, last_snoc.
Qed.

Lemma word_add_fresh w prev t q : last w = Some prev -> t <> [] ->
  same_lit prev (mkPart W_LIT q t) = false -> word_add_lit w t q = w ++ [mkPart W_LIT q t].
Proof.
  intros Hw Ht Hs. destruct w as [|x w] using rev_ind; [done|]. rewrite last_snoc in Hw.
  simplify_eq. rewrite word_add_lit_app, Hs by done. by rewrite <- app_assoc.
Qed.

(** The loop over printed parts, from any state whose word may go on with them. *)
Lemma word_loop_parts ps w lit u n prev :
  last (word_add_lit w lit false) = Some prev -> w <> [] ->
  forallb part_ok ps = true -> chain_ok prev ps = true -> is_name_char (nth 0 u (-1)) = false ->
  (length (flat_map print_part ps ++ u) < fuel)%nat -> (length (flat_map print_part ps) <= n)%nat ->
  exists w' lit' n', (n - length (flat_map print_part ps) <= n')%nat /\
    loop n (word_step fuel) (w, lit, false) (flat_map print_part ps ++ u) =
    loop n' (word_step fuel) (w', lit', false) u /\
    word_add_lit w' lit' false = word_add_lit w lit false ++ ps.
Proof.
  revert w lit n prev. induction ps as [|p ps IH]; intros w lit n prev Hprev Hw Hps Hch Hu Hf Hn.
  { exists w, lit, n. rewrite app_nil_r. split_and!; [simpl; lia|done..]. }
  cbn [forallb chain_ok flat_map] in *. apply andb_prop in Hps as [Hp Hps], Hch as [Hsame Hch].
  apply negb_true_iff in Hsame. rewrite <- app_assoc in *. rewrite !length_app in *.
  pose proof (parts_first ps u Hps Hu) as Hnext.
  remember (flat_map print_part ps) as pr eqn:Heqpr. clear Heqpr.
  pose proof (length_app pr u) as Hrest. set (rest := pr ++ u) in *.
  assert (Hstep : forall w1, word_add_lit w lit false ++ [p] = w1 ->
    word_step fuel (w, lit, false) (print_part p ++ rest) = Some (inl (w1, [], false), rest) ->
    exists w' lit' n', (n - (length (print_part p) + length pr) <= n')%nat /\
      loop n (word_step fuel) (w, lit, false) (print_part p ++ rest) =
      loop n' (word_step fuel) (w', lit', false) u /\
      word_add_lit w' lit' false = word_add_lit w lit false ++ p :: ps).
  { intros w1 <- Hst. destruct (print_part_first p Hp) as (c & t & Hpr & _).
    destruct n as [|n]; [rewrite Hpr in Hn; simpl in Hn; lia|].
    destruct (IH (word_add_lit w lit false ++ [p]) [] n p) as (w' & lit' & n' & Hn' & Hl & Hv); try done.
    - by rewrite word_add_lit_nil, last_snoc.
    - by destruct (word_add_lit w lit false).
    - rewrite Hpr in Hf. simpl in Hf. lia.
    - rewrite Hpr in Hn. simpl in Hn. lia.
    - exists w', lit', n'. split_and!; [rewrite Hpr; simpl; lia| |].
      + by rewrite (loop_again _ _ _ _ _ _ Hst).
      + by rewrite Hv, word_add_lit_nil, <- app_assoc. }
  destruct p as [k q t]. destruct (bool_decide (k = W_LIT)) eqn:Hk.
  - apply bool_decide_eq_true in Hk as ->. unfold part_ok in Hp. cbn [p_kind p_text p_quoted] in Hp.
    apply andb_prop in Hp as [Hne Hall]. rewrite forallb_forall in Hall.
    assert (t <> []) by (by destruct t). destruct q.
    + eapply Hstep; [done|]. unfold print_part; cbn [p_kind p_text p_quoted].
      rewrite <- !app_assoc. apply word_squote; try done.
      * apply Forall_forall. intros c Hc%list_elem_of_In%Hall. unfold is_byte in Hc. simpl in Hc. lia.
      * unfold print_part in Hf; cbn in Hf. rewrite !length_app in Hf |- *. simpl in *. lia.
      * intros p' Hp'. rewrite Hprev in Hp'. by simplify_eq.
      * intros Hnil. by rewrite Hnil in Hprev.
    + (* unquoted text: it stays in the loop's state *)
      assert (lit = []) as ->.
      { destruct lit as [|c lit]; [done|exfalso].
        destruct (last w) as [l|] eqn:Hl; [|by apply last_None in Hl].
        destruct (word_add_lit_last w (c :: lit) false l Hl) as (p & Hp & _ & Hk).
        destruct Hk as [Hk Hq]; [done|]. simplify_eq. unfold same_lit in Hsame.
        rewrite Hk, Hq in Hsame. done. }
      clear Hstep. unfold print_part in *; cbn [p_kind p_text p_quoted] in *.
      assert (Hlen : length (escape t) = (2 * length t)%nat).
      { clear. unfold escape. induction t; simpl in *; lia. }
      rewrite word_add_lit_nil in *. rewrite word_escapes; [|..].
      2:{ apply Forall_forall. intros c Hc%list_elem_of_In%Hall. unfold is_byte in Hc. simpl in Hc. lia. }
      2:{ lia. }
      destruct (IH w ([] ++ t) (n - length t)%nat (mkPart W_LIT false t)) as (w' & lit' & n' & Hn' & Hl & Hv);
        try done.
      * simpl. by rewrite (word_add_fresh w prev), last_snoc by done.
      * lia.
      * lia.
      * exists w', lit', n'. split_and!; [lia|done|].
        rewrite Hv. simpl. by rewrite (word_add_fresh w prev), <- app_assoc by done.
  - apply bool_decide_eq_false in Hk.
    assert (Hexp : expansion_ok (mkPart k q t) = true) by (unfold part_ok in Hp; simpl in Hp; by destruct k).
    eapply Hstep; [done|]. unfold print_part; cbn [p_kind p_text p_quoted]. 
    destruct q.
    + replace (match k with W_LIT => _ | _ => _ end)
        with ([ch_dq; ch_dollar] ++ spell (mkPart k true t) ++ [ch_dq]) by (by destruct k).
      rewrite <- !app_assoc. apply word_dquote; try done.
      unfold print_part in Hf; cbn [p_kind p_text p_quoted] in Hf. 
      rewrite !length_app in *. destruct k; try done; simpl in *; rewrite ?length_app in *; simpl in *; lia.
    + replace (match k with W_LIT => _ | _ => _ end)
        with ([ch_dollar] ++ spell (mkPart k false t)) by (by destruct k).
      rewrite <- !app_assoc. apply word_dollar; try done.
      unfold print_part in Hf; cbn [p_kind p_text p_quoted] in Hf.
      rewrite !length_app in *. destruct k; try done; simpl in *; rewrite ?length_app in *; simpl in *; lia.
Qed.

Lemma word_loop_blank w lit u n :
  loop (S n) (word_step fuel) (w, lit, false) (ch_sp :: u) = Some (w, lit, false, u).
Proof. by apply loop_leave. Qed.

(** The first character of a printed word. *)
Lemma print_word_first w : word_ok w = true ->
  exists c t, print_word w = c :: t /\ (In c [ch_bs; ch_sq; ch_dq; ch_dollar] \/ plain c = true) /\
    (c = ch_bs -> nth 0 t (-1) <> ch_nl).
Proof.
  destruct w as [|[[] [] t] ps]; try done.
  { destruct t, ps; try done. intros _. eexists _, _. split; [reflexivity|]. split; [left; simpl; tauto|done]. }
  intros Hok. unfold print_word. simpl in Hok.
  repeat (apply andb_prop in Hok as [Hok ?]).
  destruct t as [|c t].
  - destruct ps as [|p ps]; [done|]. cbn [flat_map app head_text].
    simpl in *. assert (Hp : part_ok p = true) by (by destruct (part_ok p)).
    assert (Hs : same_lit (mkPart W_LIT false []) p = false)
      by (by destruct (same_lit (mkPart W_LIT false []) p)).
    destruct (print_part_first p Hp) as (c & t & Hpr & Hc). exists c, (t ++ flat_map print_part ps).
    rewrite Hpr. split_and!; [done|by left|]. intros ->.
    destruct p as [[] [] t']; cbn in Hpr; by simplify_eq.
  - cbn [head_text flat_map]. destruct (plain c) eqn:Hc.
    + eexists c, _. split; [reflexivity|]. split; [by right|]. intros ->. done.
    + eexists _, _. split; [reflexivity|]. split; [left; simpl; tauto|]. intros _. simpl in *. lia.
Qed.

Lemma lex_word_print w u : word_ok w = true -> (length (print_word w ++ ch_sp :: u) < fuel)%nat ->
  lex_word fuel (print_word w ++ ch_sp :: u) = Some (w, u).
Proof.
  intros Hok Hf. destruct (print_word_first w Hok) as (c0 & t0 & Hpr & Hc0 & _).
  unfold lex_word. rewrite (bind_step _ _ _ (word_new W_LIT) (print_word w ++ ch_sp :: u)).
  2:{ rewrite Hpr. unfold lex_tilde. cbn [app]. adv. destruct (Z.eqb_spec c0 ch_tilde) as [->|]; [|done].
      simpl in Hc0. by destruct_or?; subst. }
  destruct w as [|[[] [] t] ps]; try done.
  { destruct t, ps; try done. destruct fuel as [|[|f]] eqn:Hfuel; [simpl in Hf; lia..|].
    rewrite <- Hfuel. rewrite Hfuel at 1. cbn [print_word app].
    rewrite (bind_step _ _ _ ([mkPart W_LIT true []], [], false) u); [done|].
    rewrite (loop_again _ _ _ _ ([mkPart W_LIT true []], [], false) (ch_sp :: u));
      [by apply word_loop_blank|].
    unfold word_step. advc. advc.
    rewrite (bind_step _ _ _ [] (ch_sp :: u)); [done|].
    apply (read_squote_text fuel []); [done|simpl in *; lia]. }
  assert (Hprint : print_word (mkPart W_LIT false t :: ps) = head_text t ++ flat_map print_part ps) by done.
  rewrite Hprint in Hf |- *. rewrite <- app_assoc in *. simpl in Hok.
  apply andb_prop in Hok as [[[[[Hb _]%andb_prop _]%andb_prop Hps]%andb_prop Hch]%andb_prop _].
  rewrite forallb_forall in Hb.
  pose proof (head_text_length t) as Hlen.
  rewrite !length_app in Hf. simpl in Hf.
  assert (Hlit : word_add_lit (word_new W_LIT) t false = [mkPart W_LIT false t]).
  { by destruct t. }
  destruct (word_loop_parts ps (word_new W_LIT) t (ch_sp :: u) (fuel - length t) (mkPart W_LIT false t))
    as (w' & lit' & n' & Hn' & Hl & Hv); try done.
  - by rewrite Hlit.
  - rewrite !length_app. simpl. lia.
  - lia.
  - erewrite bind_step.
    2:{ rewrite word_heads; [|..].
        - cbn [app]. rewrite Hl. destruct n' as [|n']; [lia|]. apply word_loop_blank.
        - apply Forall_forall. intros c Hc%list_elem_of_In%Hb. unfold is_byte in Hc. lia.
        - lia. }
    cbn beta iota. by rewrite Hv, Hlit.
Qed.

(** ** Tokens *)

Definition print_tok (k : Tok) : list Z :=
  match k with
  | T_WORD (Some w) => print_word w
  | T_OP op => tok_op_name op
  | T_NEWLINE => [ch_nl]
  | _ => []
  end.

Definition tok_ok (k : Tok) : bool :=
  match k with
  | T_WORD (Some w) => word_ok w
  | T_OP _ | T_NEWLINE => true
  | _ => false
  end.

Definition print_toks (ks : list Tok) : list Z := flat_map (fun k => print_tok k ++ [ch_sp]) ks.

(** The blank that ended the token before, if it is still there. *)
Definition gap (pre : list Z) : Prop := pre = [] \/ pre = [ch_sp].

Lemma skip_blank_stop pre c u : gap pre -> 0 <= c -> is_blank c = false -> c <> ch_nl -> c <> ch_hash ->
  (c = ch_bs -> nth 0 u (-1) <> ch_nl) -> (1 < fuel)%nat ->
  skip_blank fuel (pre ++ c :: u) = Some (None, c :: u).
Proof.
  intros Hpre Hc Hb Hnl Hh Hbs Hf. unfold skip_blank. destruct fuel as [|[|f]]; [lia..|].
  set (body := fun _ : unit => _).
  assert (Hstep : body tt (c :: u) = Some (inr None, c :: u)).
  { unfold body. rewrite (bind_step _ _ _ c (c :: u)) by done. not_eqb. rewrite Hb.
    destruct (Z.eqb_spec c ch_bs) as [->|]; cbn [andb].
    - rewrite (bind_step _ _ _ (nth 0 u (-1)) (ch_bs :: u)) by done.
      specialize (Hbs eq_refl). by not_eqb.
    - by rewrite (bind_step _ _ _ 0 (c :: u)). }
  destruct Hpre as [->| ->]; cbn [app].
  - by apply loop_leave.
  - rewrite (loop_again _ _ _ _ tt (c :: u)) by done. by apply loop_leave.
Qed.

Lemma lex_read_word pre w u : gap pre -> word_ok w = true ->
  (length (print_word w ++ ch_sp :: u) < fuel)%nat ->
  lex_read_raw fuel (pre ++ print_word w ++ ch_sp :: u) = Some (T_WORD (Some w), u).
Proof.
  intros Hpre Hok Hf. destruct (print_word_first w Hok) as (c & t & Hpr & Hc & Hbs).
  assert (Hw : word_token w = T_WORD (Some w)).
  { destruct w as [|[[] [] t'] ps]; try done; simpl in Hok.
    apply andb_prop in Hok as [_ Hok]. unfold word_token in *. by repeat case_match. }
  pose proof (lex_word_print w u Hok Hf) as Hlex. unfold lex_read_raw. rewrite Hpr in *. cbn [app] in *.
  erewrite bind_step.
  2:{ apply skip_blank_stop; [done|..|simpl in Hf; rewrite length_app in Hf; simpl in Hf; lia];
        try (destruct Hc as [Hc|Hc]; [simpl in Hc; by destruct_or?; subst|];
             apply plain_range in Hc; unfold is_blank; lia).
      intros Heq. specialize (Hbs Heq). by destruct t. }
  cbn beta iota. adv. adv. adv. rewrite (bind_step _ _ _ None (c :: t ++ ch_sp :: u)).
  2:{ destruct Hc as [Hc|Hc]; [simpl in Hc; by destruct_or?; subst|].
      apply plain_range in Hc. destruct_and?. assert (c <> ch_pipe) by lia.
      unfold lex_op. by not_eqb. }
  rewrite (bind_step _ _ _ w u) by done. by rewrite Hw.
Qed.

(** What is left after an operator: a brace, being a word, takes its blank. *)
Definition after_op (op : Op) (u : list Z) : list Z :=
  match op with OP_LBRACE | OP_RBRACE => u | _ => ch_sp :: u end.

Lemma lex_read_op pre op u : gap pre -> (3 < fuel)%nat ->
  lex_read_raw fuel (pre ++ tok_op_name op ++ ch_sp :: u) = Some (T_OP op, after_op op u).
Proof.
  intros Hpre Hf. unfold lex_read_raw.
  destruct op; (erewrite bind_step by (apply skip_blank_stop; [done|done|done|done|done|done|lia]));
    destruct fuel as [|[|[|f]]]; reflexivity || lia.
Qed.

Lemma lex_read_newline pre u : gap pre -> (1 < fuel)%nat ->
  lex_read_raw fuel (pre ++ ch_nl :: u) = Some (T_NEWLINE, u).
Proof. intros Hpre Hf. destruct fuel as [|[|f]]; [lia..|]. by destruct Hpre as [->| ->]. Qed.

Lemma lex_read_end pre : gap pre -> (1 < fuel)%nat -> lex_read_raw fuel pre = Some (T_EOF, []).
Proof. intros Hpre Hf. destruct fuel as [|[|f]]; [lia..|]. by destruct Hpre as [->| ->]. Qed.

(** A printed token is read back, and the text goes on where it should. *)
Lemma lex_read_print pre k u : gap pre -> tok_ok k = true ->
  (length (print_tok k ++ [ch_sp] ++ u) + 3 < fuel)%nat ->
  exists pre', gap pre' /\ lex_read_raw fuel (pre ++ print_tok k ++ [ch_sp] ++ u) = Some (k, pre' ++ u).
Proof.
  intros Hpre Hk Hf. destruct k as [|[w|]| |op]; try done; cbn [print_tok] in *.
  - exists []. split; [by left|]. apply lex_read_word; [done..|]. simpl in *. lia.
  - exists [ch_sp]. split; [by right|]. apply lex_read_newline; [done|lia].
  - cbn [app] in *. rewrite lex_read_op by (done || lia).
    destruct op; (by exists []; split; [left|]) || (by exists [ch_sp]; split; [right|]).
Qed.
End Words.

Lemma tokens_print fuel ks pre n k0 : gap pre -> forallb tok_ok ks = true ->
  (length (print_toks ks) + 3 < fuel)%nat -> (length ks < n)%nat ->
  tokens fuel n (mkLex (pre ++ print_toks ks) k0 false T_EOF false T_EOF []) = Some ks.
Proof.
  revert pre n k0. induction ks as [|k ks IH]; intros pre n k0 Hpre Hok Hf Hn;
    (destruct n as [|n]; [simpl in Hn; lia|]); rewrite tokens_step.
  - simpl. rewrite app_nil_r, lex_read_end by (done || lia). done.
  - cbn [print_toks flat_map forallb length] in *. apply andb_prop in Hok as [Hk Hok].
    rewrite <- app_assoc in *. fold (print_toks ks) in *.
    destruct (lex_read_print fuel pre k (print_toks ks) Hpre Hk) as (pre' & Hpre' & ->); [done|].
    rewrite IH; [by destruct k|done|done|rewrite !length_app in Hf; lia|lia].
Qed.

(** ** What is printed is bytes *)

Lemma is_byte_u8 c : is_byte c = true -> is_u8 c.
Proof. unfold is_byte, is_u8. lia. Qed.

Lemma forallb_bytes (P : Z -> bool) t : (forall c, P c = true -> is_u8 c) -> forallb P t = true -> bytes t.
Proof. intros HP Ht. rewrite forallb_forall in Ht. apply Forall_forall. intros c Hc%list_elem_of_In. by apply HP, Ht. Qed.

Lemma balanced_bytes op cl bad d b : balanced op cl bad d b = true -> bytes b.
Proof.
  revert d. induction b as [|c b IH]; intros d Hb; [by constructor|]. simpl in Hb.
  apply andb_prop in Hb as [[[H0 H1]%andb_prop _]%andb_prop Hb]. constructor; [unfold is_u8; lia|].
  destruct (c =? op); [by eapply IH|]. destruct (c =? cl); [|by eapply IH]. apply andb_prop in Hb as [_ Hb]. by eapply IH.
Qed.

Lemma name_char_u8 c : is_name_char c = true -> is_u8 c.
Proof. unfold is_name_char, is_u8. lia. Qed.

Lemma special_u8 c : is_special c = true -> is_u8 c.
Proof. unfold is_special, is_u8. lia. Qed.

Lemma expansion_bytes p : expansion_ok p = true -> bytes (spell p).
Proof.
  destruct p as [k q s]. unfold expansion_ok, spell. cbn [p_kind p_text]. intros Hp.
  assert (Hs : bytes s).
  { destruct k; try done.
    - unfold var_ok in Hp. destruct s as [|c [|c' s]]; [done|..].
      + constructor; [|by constructor]. by apply orb_prop in Hp as [?%name_char_u8|?%special_u8].
      + apply andb_prop in Hp as [_ Hp]. by eapply forallb_bytes, Hp; apply name_char_u8.
    - unfold cmdsub_ok in Hp. apply andb_prop in Hp as [[Hp _]%andb_prop _]. by eapply balanced_bytes.
    - by eapply balanced_bytes.
    - by eapply balanced_bytes.
    - unfold file_ok in Hp. apply andb_prop in Hp as [Hp _]. eapply forallb_bytes, Hp. unfold is_u8. lia. }
  destruct k; try done; repeat (apply Forall_app; split); done || by repeat constructor.
Qed.

Lemma escape_bytes t : bytes t -> bytes (escape t).
Proof. induction 1 as [|c t Hc Ht IH]; [by constructor|]. cbn. constructor; [done|]. by constructor. Qed.

Lemma part_bytes p : part_ok p = true -> bytes (print_part p).
Proof.
  destruct p as [k q s]. unfold part_ok, print_part. cbn [p_kind p_quoted p_text]. intros Hp.
  destruct k, q; try (apply andb_prop in Hp as [_ Hp];
    eapply forallb_bytes in Hp; [|intros c [Hc _]%andb_prop; by apply is_byte_u8]);
    try (apply expansion_bytes in Hp; set (z := spell _) in *; clearbody z); repeat (apply Forall_app; split);
    try done; try by repeat constructor.
  by apply escape_bytes.
Qed.

Lemma parts_bytes ps : forallb part_ok ps = true -> bytes (flat_map print_part ps).
Proof.
  induction ps as [|p ps IH]; [by constructor|]. cbn [forallb flat_map]. intros [Hp Hps]%andb_prop.
  apply Forall_app. split; [by apply part_bytes|by apply IH].
Qed.

Lemma word_bytes w : word_ok w = true -> bytes (print_word w).
Proof.
  destruct w as [|[[] [] t] ps]; try done; unfold word_ok, print_word.
  - destruct t, ps; try done. by repeat constructor.
  - intros [[[[[Ht _]%andb_prop _]%andb_prop Hps]%andb_prop _]%andb_prop _]%andb_prop.
    apply Forall_app. split; [|by apply parts_bytes].
    unfold head_text. induction t as [|c t IH]; [by constructor|]. cbn [forallb flat_map] in *.
    apply andb_prop in Ht as [Hc%is_byte_u8 Ht]. apply Forall_app. split; [|by apply IH].
    case_match; [|constructor; [done|]]; (constructor; [done|by constructor]).
Qed.

Lemma tok_bytes k : tok_ok k = true -> bytes (print_tok k).
Proof.
  destruct k as [|[w|]| |op]; try done; cbn [tok_ok print_tok]; [by apply word_bytes|by repeat constructor|].
  intros _. apply bytes_closed. by destruct op.
Qed.

Lemma print_toks_bytes ks : forallb tok_ok ks = true -> bytes (print_toks ks).
Proof.
  induction ks as [|k ks IH]; [by constructor|]. cbn [forallb]. intros [Hk Hks]%andb_prop.
  unfold print_toks in *. cbn [flat_map]. apply Forall_app. split; [|by apply IH].
  apply Forall_app. split; [by apply tok_bytes|by repeat constructor].
Qed.
