(* ===== verification/LexDoc.v ===== *)
(** Here-documents.  They are read out of the line buffer itself: inside one block the
    body is the lines up to the delimiter; where a block ends inside a line, the code
    ends the line there. *)
From S2P Require Import Prelude CString Lex LexSource LexTotal LexPrint.

(** What the buffer still holds. *)
Definition ahead (s : Src) : list Z :=
  take (Z.to_nat (len s - linepos s)) (drop (Z.to_nat (linepos s)) (line s)).

Record buf_ok (s : Src) : Prop := {
  buf_bytes : bytes (line s);
  buf_cursor : 0 <= linepos s <= len s;
  buf_len : len s <= Z.of_nat (length (line s)) }.

Lemma ahead_cons s c v : buf_ok s -> ahead s = c :: v ->
  linepos s < len s /\ cur s = c /\ is_u8 c /\
  buf_ok (set_linepos s (linepos s + 1)) /\ ahead (set_linepos s (linepos s + 1)) = v.
Proof.
  intros [Hb Hc Hl] Ha. unfold ahead in Ha.
  destruct (Z.to_nat (len s - linepos s)) as [|k] eqn:Hk; [done|].
  destruct (drop (Z.to_nat (linepos s)) (line s)) as [|c' v'] eqn:Hd; [done|]. simpl in Ha. simplify_eq.
  assert (Hcur : cur s = c).
  { unfold cur, at_. rewrite <- (Nat.add_0_r (Z.to_nat (linepos s))), <- nth_drop, Hd. done. }
  assert (Hc8 : is_u8 c).
  { rewrite <- Hcur. unfold cur, at_. apply Forall_nth; [done|]. lia. }
  split_and!; try done; try lia.
  - constructor; simpl; done || lia.
  - unfold ahead. simpl. replace (Z.to_nat (len s - (linepos s + 1))) with k by lia.
    replace (Z.to_nat (linepos s + 1)) with (Z.to_nat (linepos s) + 1)%nat by lia.
    by rewrite <- drop_drop, Hd.
Qed.

Lemma ahead_nil s : buf_ok s -> ahead s = [] -> linepos s = len s.
Proof.
  intros [Hb Hc Hl] Ha. apply (f_equal length) in Ha. unfold ahead in Ha.
  rewrite length_take, length_drop in Ha. simpl in Ha. lia.
Qed.

Lemma get_ahead s c v : buf_ok s -> ahead s = c :: v ->
  get s = Some (c, set_linepos s (linepos s + 1)).
Proof.
  intros Hok Ha. destruct (ahead_cons s c v Hok Ha) as (Hlt & Hcur & Hc & _).
  unfold get. simpl. unfold lc_get, lc_peek.
  destruct (Z.leb_spec (len s) (linepos s)); [lia|]. rewrite Hcur.
  unfold is_u8 in Hc. by destruct (Z.leb_spec 0 c); [|lia].
Qed.

Lemma set_linepos_twice s i j : set_linepos (set_linepos s i) j = set_linepos s j.
Proof. done. Qed.

Definition no_nl (l : list Z) : Prop := Forall (fun c => c <> ch_nl) l.

Section Lines.
Variable fuel : nat.

(** One line of the buffer, with its newline. *)
Lemma hd_line_nl l v s : buf_ok s -> ahead s = l ++ ch_nl :: v -> no_nl l -> (length l < fuel)%nat ->
  exists i, hd_line fuel s = Some (l, set_linepos s (i + 1)) /\
    buf_ok (set_linepos s i) /\ ahead (set_linepos s i) = ch_nl :: v.
Proof.
  intros Hok Ha Hl. unfold hd_line. change l with ([] ++ l) at 2. generalize ([] : list Z) as out.
  generalize fuel as n. revert s Hok Ha. induction Hl as [|c l Hc Hl IH]; intros s Hok Ha n out Hn;
    (destruct n as [|n]; [simpl in Hn; lia|]); simpl in Ha, Hn.
  - destruct (ahead_cons _ _ _ Hok Ha) as (Hlt & _ & _ & Hok' & _).
    exists (linepos s). split_and!; [|by destruct s..]. rewrite app_nil_r. apply loop_leave.
    unfold hd_step. erewrite bind_step by reflexivity. rewrite (proj2 (Z.ltb_lt _ _) Hlt).
    by erewrite bind_step by (by eapply get_ahead).
  - destruct (ahead_cons _ _ _ Hok Ha) as (Hlt & _ & Hc8 & Hok' & Ha').
    destruct (IH _ Hok' Ha' n (out ++ [c])) as (i & Hi & Hoki & Hai); [lia|].
    exists i. split_and!; [|done..]. erewrite loop_again.
    2:{ unfold hd_step. erewrite bind_step by reflexivity. rewrite (proj2 (Z.ltb_lt _ _) Hlt).
        erewrite bind_step by (by eapply get_ahead). unfold is_u8 in Hc8.
        destruct (Z.ltb_spec c 0); [lia|]. not_eqb. reflexivity. }
    by rewrite Hi, <- app_assoc.
Qed.

(** The rest of the buffer when it holds no newline: the line is taken to end there. *)
Lemma hd_line_cut l s : buf_ok s -> ahead s = l -> no_nl l -> (length l < fuel)%nat ->
  hd_line fuel s = Some (l, set_linepos s (len s)).
Proof.
  intros Hok Ha Hl. unfold hd_line. change l with ([] ++ l) at 2. generalize ([] : list Z) as out.
  generalize fuel as n. revert s Hok Ha. induction Hl as [|c l Hc Hl IH]; intros s Hok Ha n out Hn;
    (destruct n as [|n]; [simpl in Hn; lia|]); simpl in Hn.
  - apply ahead_nil in Ha as Heq; [|done]. rewrite app_nil_r. apply loop_leave.
    unfold hd_step. erewrite bind_step by reflexivity. rewrite Heq, Z.ltb_irrefl. simpl. by destruct s; simpl in *; subst.
  - destruct (ahead_cons _ _ _ Hok Ha) as (Hlt & _ & Hc8 & Hok' & Ha').
    erewrite loop_again.
    2:{ unfold hd_step. erewrite bind_step by reflexivity. rewrite (proj2 (Z.ltb_lt _ _) Hlt).
        erewrite bind_step by (by eapply get_ahead). unfold is_u8 in Hc8.
        destruct (Z.ltb_spec c 0); [lia|]. not_eqb. reflexivity. }
    rewrite (IH _ Hok' Ha') by lia. by rewrite <- app_assoc.
Qed.
End Lines.

(** ** The delimiter *)

Lemma strncmp_delim l d : cstring d -> length l = length d ->
  (strncmp l d (length d) =? 0) = bool_decide (l = d).
Proof.
  intros Hd. revert l. induction Hd as [|c d Hc Hd IH]; intros [|x l] Hl; simplify_eq/=; [done|].
  change (ch (x :: l)) with x. change (ch (c :: d)) with c.
  destruct (Z.eqb_spec x c) as [->|Hne].
  - destruct (Z.eqb_spec c 0); [lia|]. simpl. rewrite IH by done. apply bool_decide_ext. split; [by intros -> | by intros [= ->]].
  - rewrite andb_false_r. rewrite bool_decide_false by congruence. lia.
Qed.

Lemma is_delim_spec l d : cstring d -> is_delim l d = bool_decide (l = d).
Proof.
  intros Hd. unfold is_delim. rewrite strlen_length by done. rewrite Nat2Z.id.
  destruct (Z.eqb_spec (Z.of_nat (length l)) (Z.of_nat (length d))) as [Hl|Hl]; simpl.
  - apply strncmp_delim; [done|lia].
  - rewrite bool_decide_false; [done|]. intros ->. lia.
Qed.

(** A line without the tabs that [<<-] drops. *)
Definition stripped (strip : bool) (l : list Z) : list Z :=
  if strip then drop (count_tabs l) l else l.

Section Bodies.
Variables (fuel : nat) (delim : list Z) (strip : bool).
Hypothesis Hdelim : cstring delim.

(** A line of the body that the buffer holds, with more of it behind. *)
Lemma heredoc_line l v s body n : buf_ok s -> ahead s = l ++ ch_nl :: v -> no_nl l -> v <> [] ->
  stripped strip l <> delim -> (length l < fuel)%nat ->
  exists i, buf_ok (set_linepos s i) /\ ahead (set_linepos s i) = v /\
    loop (S n) (heredoc_step fuel delim strip) body s =
    loop n (heredoc_step fuel delim strip) (body ++ stripped strip l ++ [ch_nl]) (set_linepos s i).
Proof.
  intros Hok Ha Hl Hv Hne Hf.
  destruct (hd_line_nl fuel l v s Hok Ha Hl Hf) as (i & Hline & Hoki & Hai).
  destruct (ahead_cons _ _ _ Hoki Hai) as (_ & _ & _ & Hok' & Ha'). rewrite set_linepos_twice in *.
  exists (i + 1). split_and!; [done..|]. apply loop_again. unfold heredoc_step.
  erewrite bind_step by exact Hline. fold (stripped strip l).
  rewrite is_delim_spec, bool_decide_false by done.
  rewrite (bind_step _ _ _ false (set_linepos s (i + 1))); [done|].
  destruct v as [|c v]; [done|]. apply ahead_cons in Ha' as (Hlt & _); [|done].
  unfold hd_at_end. simpl in *. by destruct (Z.leb_spec (len s) (i + 1)); [lia|].
Qed.

(** The delimiter's line: the body ends, and its newline is still to be read. *)
Lemma heredoc_end d v s body n : buf_ok s -> ahead s = d ++ ch_nl :: v -> no_nl d ->
  stripped strip d = delim -> (length d < fuel)%nat ->
  exists i, buf_ok (set_linepos s i) /\ ahead (set_linepos s i) = ch_nl :: v /\
    loop (S n) (heredoc_step fuel delim strip) body s = Some (body, set_linepos s i).
Proof.
  intros Hok Ha Hl Heq Hf.
  destruct (hd_line_nl fuel d v s Hok Ha Hl Hf) as (i & Hline & Hoki & Hai).
  exists i. split_and!; [done..|]. apply loop_leave. unfold heredoc_step.
  erewrite bind_step by exact Hline. fold (stripped strip d).
  rewrite is_delim_spec, bool_decide_true by done.
  rewrite (bind_step _ _ _ tt (set_linepos s i)); [done|].
  destruct (ahead_cons _ _ _ Hoki Hai) as (_ & Hcur & _ & _ & _). destruct Hoki as [_ [Hi _] _].
  unfold unread_nl. simpl in *. destruct (Z.ltb_spec 0 (i + 1)); [|lia].
  replace (i + 1 - 1) with i by lia. unfold cur in Hcur. simpl in Hcur. by rewrite Hcur.
Qed.

(** Inside one block: exactly the lines before the delimiter's. *)
Lemma heredoc_lines ls d v s body n : buf_ok s ->
  ahead s = flat_map (fun l => l ++ [ch_nl]) ls ++ d ++ ch_nl :: v ->
  Forall (fun l => no_nl l /\ stripped strip l <> delim) ls -> no_nl d -> stripped strip d = delim ->
  (length (ahead s) < fuel)%nat -> (length ls < n)%nat ->
  exists i, ahead (set_linepos s i) = ch_nl :: v /\
    loop n (heredoc_step fuel delim strip) body s =
    Some (body ++ flat_map (fun l => stripped strip l ++ [ch_nl]) ls, set_linepos s i).
Proof.
  revert s body n. induction ls as [|l ls IH]; intros s body n Hok Ha Hls Hd Heq Hf Hn; simpl in *;
    (destruct n as [|n]; [lia|]).
  - destruct (heredoc_end d v s body n Hok Ha Hd Heq) as (i & _ & Hai & Hr).
    { rewrite Ha, length_app in Hf. lia. }
    exists i. by rewrite app_nil_r.
  - apply Forall_cons in Hls as [[Hl Hne] Hls]. rewrite <- !app_assoc in Ha. simpl in Ha.
    rewrite Ha, length_app in Hf. simpl in Hf.
    destruct (heredoc_line l _ s body n Hok Ha Hl) as (i & Hoki & Hai & Hr); [|done|lia|].
    { intros Habs%(f_equal length). rewrite !length_app in Habs. simpl in Habs. lia. }
    destruct (IH _ (body ++ stripped strip l ++ [ch_nl]) n Hoki Hai) as (j & Haj & Hj); try done.
    { rewrite Hai. lia. }
    { lia. }
    exists j. rewrite set_linepos_twice in *. split; [done|]. rewrite Hr, Hj. by rewrite <- !app_assoc.
Qed.

(** Where the block ends inside a line, the body gets a newline the script does not have. *)
Lemma heredoc_cut l s s' body n : buf_ok s -> ahead s = l -> no_nl l -> stripped strip l <> delim ->
  (length l < fuel)%nat -> fill_line (set_linepos s (len s)) = (true, s') ->
  loop (S n) (heredoc_step fuel delim strip) body s =
  loop n (heredoc_step fuel delim strip) (body ++ stripped strip l ++ [ch_nl]) s'.
Proof.
  intros Hok Ha Hl Hne Hf Hfill. apply loop_again. unfold heredoc_step.
  erewrite bind_step by (by apply (hd_line_cut fuel l)). fold (stripped strip l).
  rewrite is_delim_spec, bool_decide_false by done.
  rewrite (bind_step _ _ _ false s'); [done|].
  unfold hd_at_end. simpl. rewrite Z.leb_refl. by rewrite Hfill.
Qed.
End Bodies.
