(* ===== verification/Parse.v ===== *)
(** vash's parser ([vnu/userspace/vash/parse.c], and the command trees of [shell.h]
    and [cmd.c]).

    The parser is a state monad over a token source, the text written to standard
    error, the functions defined and the bodies of here-documents.  It asks for tokens
    through the class [TokSource]; the code's source is the lexer over its block
    buffer.  [expand] stands for [expand_word_one] of [expand.c], which the parser
    applies to delimiters and function names.  All the recursion of the grammar goes
    through [parse_list_inner] but that of [elif], and each has fuel.  Memory does not
    run out, and is not released. *)
From S2P Require Import Prelude CString Lex.
From stdpp Require Import gmap.
Local Open Scope Z_scope.

(** ** Command trees *)

Inductive RMode := R_IN | R_OUT | R_APPEND | R_DUP_IN | R_DUP_OUT | R_BOTH | R_BOTH_APP | R_HEREDOC | R_PIPE.

#[export] Instance RMode_eq : EqDecision RMode.
Proof. solve_decision. Defined.

Inductive CType :=
  | C_SIMPLE | C_PIPE | C_AND | C_OR | C_SEQ | C_BG | C_FUNC | C_SUB | C_IF | C_WHILE | C_UNTIL
  | C_FOR | C_CASE | C_GROUP | C_TEST | C_ARITHCMD | C_ARITHFOR.

(** An argument: a word of the lexer, or a [W_ARRAY] word with its elements. *)
Inductive Arg := Plain (w : Word) | Array (text : list Z) (items : list Word).

(** [r_doc] names the here-document whose body the redirection gets. *)
Inductive Cmd := mkCmd {
  c_type : CType;
  c_argv : list Arg;
  c_redirs : list Redir;
  c_left : option Cmd;
  c_right : option Cmd;
  c_list : list Cmd;
  c_text : list Z;
  c_name : option Word;
  c_init : option Cmd;
  c_words : list Word }
with Redir := mkRedir {
  r_fd : Z;
  r_mode : RMode;
  r_target : option Word;
  r_doc : option nat;
  r_procsub : option Cmd;
  r_procsub_out : bool }.

Definition cmd_new (type : CType) : Cmd := mkCmd type [] [] None None [] [] None None [].

Definition set_redirs (c : Cmd) (r : list Redir) : Cmd :=
  mkCmd (c_type c) (c_argv c) r (c_left c) (c_right c) (c_list c) (c_text c) (c_name c) (c_init c) (c_words c).
Definition set_left (c : Cmd) (l : option Cmd) : Cmd :=
  mkCmd (c_type c) (c_argv c) (c_redirs c) l (c_right c) (c_list c) (c_text c) (c_name c) (c_init c) (c_words c).
Definition set_right (c : Cmd) (r : option Cmd) : Cmd :=
  mkCmd (c_type c) (c_argv c) (c_redirs c) (c_left c) r (c_list c) (c_text c) (c_name c) (c_init c) (c_words c).
Definition set_text (c : Cmd) (t : list Z) : Cmd :=
  mkCmd (c_type c) (c_argv c) (c_redirs c) (c_left c) (c_right c) (c_list c) t (c_name c) (c_init c) (c_words c).
Definition set_name (c : Cmd) (n : option Word) : Cmd :=
  mkCmd (c_type c) (c_argv c) (c_redirs c) (c_left c) (c_right c) (c_list c) (c_text c) n (c_init c) (c_words c).
Definition set_init (c : Cmd) (i : option Cmd) : Cmd :=
  mkCmd (c_type c) (c_argv c) (c_redirs c) (c_left c) (c_right c) (c_list c) (c_text c) (c_name c) i (c_words c).

(** A redirection at the end of the list. *)
Definition add_redir (c : Cmd) (fd : Z) (mode : RMode) (target : option Word) : Cmd :=
  set_redirs c (c_redirs c ++ [mkRedir fd mode target None None false]).

(** [r->next = c->redirs; c->redirs = r]. *)
Definition push_redir (c : Cmd) (r : Redir) : Cmd := set_redirs c (r :: c_redirs c).

Definition add_argv (c : Cmd) (a : Arg) : Cmd :=
  mkCmd (c_type c) (c_argv c ++ [a]) (c_redirs c) (c_left c) (c_right c) (c_list c) (c_text c) (c_name c)
    (c_init c) (c_words c).

Definition add_list (c item : Cmd) : Cmd :=
  mkCmd (c_type c) (c_argv c) (c_redirs c) (c_left c) (c_right c) (c_list c ++ [item]) (c_text c) (c_name c)
    (c_init c) (c_words c).

Definition add_word (c : Cmd) (w : option Word) : Cmd :=
  match w with
  | None => c
  | Some w => mkCmd (c_type c) (c_argv c) (c_redirs c) (c_left c) (c_right c) (c_list c) (c_text c) (c_name c)
                (c_init c) (c_words c ++ [w])
  end.

(** ** Words and operators *)

(** The bytes of a text up to its first NUL, which is what C string functions see. *)
Definition cstr (t : list Z) : list Z := copy_delim (length t) t.

Definition word_literal (t : list Z) : Word := [mkPart W_LIT false (cstr t)].

Definition is_reserved (w : option Word) (name : list Z) : bool :=
  match w with
  | Some [mkPart W_LIT false t] => strcmp t name =? 0
  | _ => false
  end.

(** The word of a token, if it is a word. *)
Definition tok_word (p : Tok) : option Word := match p with T_WORD w => w | _ => None end.

Definition is_word (p : Tok) : bool := match p with T_WORD _ => true | _ => false end.

Definition is_op (p : Tok) (op : Op) : bool := match p with T_OP o => bool_decide (o = op) | _ => false end.

(** [p->type == T_WORD && is_reserved(p->word, name)]. *)
Definition is_keyword (p : Tok) (name : list Z) : bool := is_word p && is_reserved (tok_word p) name.

Fixpoint add_word_text (w : Word) (out : list Z) : list Z :=
  match w with
  | [] => out
  | p :: w' =>
      add_word_text w' (out ++
        match p_kind p with
        | W_BRACE => cs "${" ++ p_text p ++ cs "}"
        | W_CMDSUB => cs "$(" ++ p_text p ++ cs ")"
        | W_ARITH => cs "$((" ++ p_text p ++ cs "))"
        | _ => p_text p
        end)
  end.

Definition redir_mode_of (op : Op) : option (Z * RMode) :=
  match op with
  | OP_LT => Some (0, R_IN)
  | OP_GT => Some (1, R_OUT)
  | OP_DGT => Some (1, R_APPEND)
  | OP_AMPGTAMP => Some (1, R_DUP_OUT)
  | OP_LTAMP => Some (0, R_DUP_IN)
  | OP_AMPGT => Some (-1, R_BOTH)
  | OP_AMPGTGT => Some (-1, R_BOTH_APP)
  | OP_DLT | OP_TLT => Some (0, R_HEREDOC)
  | OP_PSUB_IN => Some (0, R_PIPE)
  | OP_PSUB_OUT => Some (1, R_PIPE)
  | _ => None
  end.

Definition is_dup_op (op : Op) : bool :=
  match op with OP_AMPGTAMP | OP_LTAMP => true | _ => false end.

Definition is_psub_op (op : Op) : bool :=
  match op with OP_PSUB_IN | OP_PSUB_OUT => true | _ => false end.

(** [is_redir_op], giving the operator. *)
Definition redir_op (t : Tok) : option Op :=
  match t with
  | T_OP (OP_LT | OP_GT | OP_DGT | OP_AMPGTAMP | OP_LTAMP | OP_AMPGT | OP_AMPGTGT | OP_DLT | OP_TLT
         | OP_PSUB_IN | OP_PSUB_OUT) as t =>
      match t with T_OP op => Some op | _ => None end
  | _ => None
  end.

(** The leading digits of a C string, at most [n] of them. *)
Fixpoint digits_of (n : nat) (p : list Z) : list Z :=
  match n, p with
  | S n', c :: p' => if (48 <=? c) && (c <=? 57) then c :: digits_of n' p' else []
  | _, _ => []
  end.

(** The number in [num], when [number_prefix] returns more than 0. *)
Definition number_prefix (w : option Word) : option (list Z) :=
  match w with
  | Some [mkPart W_LIT false t] =>
      let p := cstr t in
      let d := digits_of 7 p in
      if negb (at_ p (length d) =? 0) || (length d =? 0)%nat then None else Some d
  | _ => None
  end.

Definition word_is_name (w : Word) : bool :=
  match w with
  | mkPart W_LIT false t :: _ => negb (length t =? 0)%nat && forallb (fun c => negb (c =? 61)) t
  | _ => false
  end.

(** Unquoted text that ends in [=]. *)
Definition ends_eq (w : Word) : bool :=
  match w with
  | mkPart W_LIT false t :: _ => negb (length t =? 0)%nat && (at_ t (length t - 1) =? 61)
  | _ => false
  end.

Inductive Stop := STOP_ANY | STOP_THEN | STOP_DO | STOP_BODY | STOP_DSEMI | STOP_IN.

#[export] Instance Stop_eq : EqDecision Stop.
Proof. solve_decision. Defined.

Definition stop_names (stop : Stop) : list (list Z) :=
  match stop with
  | STOP_THEN => [cs "then"; cs "fi"; cs "elif"; cs "else"]
  | STOP_DO => [cs "do"; cs "done"]
  | STOP_BODY => [cs "then"; cs "fi"; cs "elif"; cs "else"; cs "done"; cs "esac"]
  | STOP_DSEMI => [cs "esac"]
  | STOP_IN => [cs "in"]
  | STOP_ANY => []
  end.

Definition stop_word (stop : Stop) (p : Tok) : bool :=
  match p with
  | T_WORD (Some (mkPart _ false t :: _)) => existsb (fun n => strcmp t n =? 0) (stop_names stop)
  | _ => false
  end.

(** ** The parser's state *)

(** What the parser asks of the lexer.  A redirection is named by a number. *)
Class TokSource (L : Type) := {
  tk_peek : L -> option (Tok * L);
  tk_peek2 : L -> option (Tok * L);
  tk_next : L -> option L;
  tk_take : L -> option Word * L;
  tk_push_hdoc : nat -> list Z -> bool -> L -> option L;
  tk_collect : gmap nat (list Z * bool) -> L -> option (gmap nat (list Z * bool) * L) }.

#[export] Instance lexer_source (fuel : nat) : TokSource (Lex Src) := {|
  tk_peek := lex_peek fuel;
  tk_peek2 := lex_peek2 fuel;
  tk_next := lex_next fuel;
  tk_take := lex_take;
  tk_push_hdoc r d s lx := Some (lex_push_hdoc lx r d s);
  tk_collect m lx := lex_collect_hdocs fuel lx m |}.

Record PSt (L : Type) := mkPSt {
  ps_lex : L;
  ps_err : list Z;
  ps_funcs : list (list Z * option Cmd); (* the calls of [func_define] *)
  ps_docs : gmap nat (list Z * bool);
  ps_next : nat }.
Arguments mkPSt {L}.
Arguments ps_lex {L}.
Arguments ps_err {L}.
Arguments ps_funcs {L}.
Arguments ps_docs {L}.
Arguments ps_next {L}.

Definition parse_start {L} (lx : L) : PSt L := mkPSt lx [] [] ∅ 0.

Section Parser.
Context {L : Type} `{TokSource L}.
(** [expand_word_one]. *)
Variable expand : Word -> list Z.
Variable fuel : nat.

Abbreviation PM := (LM (PSt L)).

Definition on_lex {A} (f : L -> option (A * L)) : PM A := fun s =>
  match f (ps_lex s) with
  | Some (a, l) => Some (a, mkPSt l (ps_err s) (ps_funcs s) (ps_docs s) (ps_next s))
  | None => None
  end.

Definition PEEK : PM Tok := on_lex tk_peek.
Definition PEEK2 : PM Tok := on_lex tk_peek2.
Definition NEXT : PM unit := on_lex (fun l => l ← tk_next l; Some (tt, l)).
Definition TAKE : PM (option Word) := on_lex (fun l => Some (tk_take l)).

Definition sh_err (msg : list Z) : PM unit := fun s =>
  Some (tt, mkPSt (ps_lex s) (ps_err s ++ msg) (ps_funcs s) (ps_docs s) (ps_next s)).

Definition func_define (name : list Z) (body : option Cmd) : PM unit := fun s =>
  Some (tt, mkPSt (ps_lex s) (ps_err s) (ps_funcs s ++ [(name, body)]) (ps_docs s) (ps_next s)).

(** A fresh redirection waiting for its text. *)
Definition push_hdoc (delim : list Z) (strip_tabs : bool) : PM nat := fun s =>
  match tk_push_hdoc (ps_next s) delim strip_tabs (ps_lex s) with
  | Some l => Some (ps_next s, mkPSt l (ps_err s) (ps_funcs s) (ps_docs s) (S (ps_next s)))
  | None => None
  end.

Definition collect_docs : PM unit := fun s =>
  match tk_collect (ps_docs s) (ps_lex s) with
  | Some (m, l) => Some (tt, mkPSt l (ps_err s) (ps_funcs s) m (ps_next s))
  | None => None
  end.

(** ** Pieces that read no list of commands *)

Definition skip_nl : PM unit :=
  loop fuel (fun _ : unit =>
    p ← PEEK; match p with T_NEWLINE => _ ← NEXT; again tt | _ => leave tt end) tt.

(** Newlines and semicolons; the first other token. *)
Definition skip_sep : PM Tok :=
  loop fuel (fun _ : unit =>
    p ← PEEK;
    if bool_decide (p = T_NEWLINE) || is_op p OP_SEMI then _ ← NEXT; again tt else leave p) tt.

Definition expect_reserved (name : list Z) : PM bool :=
  p ← skip_sep;
  if is_keyword p name then _ ← NEXT; mret true
  else _ ← sh_err (cs "vash: expected `" ++ name ++ cs "'" ++ [ch_nl]); mret false.

Definition arith_body_step (split : bool) (st : Z * nat * list Z)
    : PM (Z * nat * list Z + nat * list Z) :=
  let '(depth, clause, text) := st in
  p ← PEEK;
  match p with
  | T_EOF | T_NEWLINE => leave (clause, text)
  | _ =>
      p2 ← (if is_op p OP_RPAREN && (depth =? 0) then PEEK2 else mret T_EOF);
      if is_op p2 OP_RPAREN then _ ← NEXT; _ ← NEXT; leave (clause, text)
      else if is_op p OP_SEMI && (depth =? 0) && split && (clause <? 2)%nat then
        _ ← NEXT; again (depth, S clause, text ++ cs ";")
      else
        let depth := if is_op p OP_LPAREN then depth + 1
                     else if is_op p OP_RPAREN then depth - 1 else depth in
        match p with
        | T_WORD _ =>
            w ← TAKE;
            _ ← NEXT; again (depth, clause, add_word_text (default [] w) text)
        | T_OP op => _ ← NEXT; again (depth, clause, text ++ tok_op_name op)
        | _ => _ ← NEXT; again (depth, clause, text)
        end
  end.

Definition read_arith_body (c : Cmd) (split : bool) : PM Cmd :=
  '(clause, text) ← loop fuel (arith_body_step split) (0, 0%nat, []);
  mret (set_text c (text ++ (if split then repeat 59 (2 - clause) else []))).

Definition parse_arithcmd : PM (option Cmd) :=
  c ← read_arith_body (cmd_new C_ARITHCMD) false; mret (Some c).

Definition test_step (c : Cmd) : PM (Cmd + Cmd) :=
  p ← PEEK;
  match p with
  | T_EOF | T_NEWLINE => leave c
  | T_WORD _ =>
      if is_keyword p (cs "]]") then _ ← NEXT; leave c
      else w ← TAKE; _ ← NEXT; again (add_word c w)
  | T_OP op => _ ← NEXT; again (add_word c (Some (word_literal (tok_op_name op))))
  end.

Definition parse_dblbracket : PM (option Cmd) :=
  c ← loop fuel test_step (cmd_new C_TEST); mret (Some c).

Definition take_redir_target (op : Op) : PM (option Word) :=
  p ← PEEK;
  if is_word p then w ← TAKE; _ ← NEXT; mret w else mret None.

(** [<<- word]: the word behind the dash, if the token is one. *)
Definition dash_target : PM (bool * option Word) :=
  d ← PEEK;
  match d with
  | T_WORD (Some (mkPart W_LIT false (45 :: rest) :: _)) =>
      _ ← TAKE; _ ← NEXT; mret (true, Some [mkPart W_LIT false rest])
  | _ => mret (false, None)
  end.

(** The process substitution an operator is, or that stands behind it. *)
Definition psub_after (op : Op) : PM (option Op) :=
  if is_psub_op op then mret (Some op)
  else
    pt ← PEEK;
    match pt with
    | T_OP o => if is_psub_op o then _ ← NEXT; mret (Some o) else mret None
    | _ => mret None
    end.

Definition syntax_error_after (op : Op) : PM unit :=
  sh_err (cs "vash: syntax error after " ++ tok_op_name op ++ [ch_nl]).

(** A here-document on [c]. *)
Definition add_heredoc (c : Cmd) (fd : Z) (target : Word) (strip_tabs : bool) : PM Cmd :=
  r ← push_hdoc (cstr (expand target)) strip_tabs;
  mret (push_redir c (mkRedir fd R_HEREDOC None (Some r) None false)).

(** The elements of an array, up to the bracket that closes it: how many are open. *)
Definition array_items : PM (Z * list Word) :=
  loop fuel (fun '(depth, items) =>
    el ← PEEK;
    match el with
    | T_EOF => leave (depth, items)
    | T_NEWLINE => _ ← NEXT; again (depth, items)
    | _ =>
        if is_op el OP_LPAREN then _ ← NEXT; again (depth + 1, items ++ [word_literal (cs "(")])
        else if is_op el OP_RPAREN then
          _ ← NEXT;
          if depth - 1 =? 0 then leave (depth - 1, items)
          else again (depth - 1, items ++ [word_literal (cs ")")])
        else if is_op el OP_SEMI then _ ← NEXT; again (depth, items)
        else
          part ← TAKE;
          _ ← NEXT;
          again (depth, match part with Some w => items ++ [w] | None => items end)
    end) (1, []).

(** ** Commands, given how a list inside them is read *)

Section Commands.
(** [parse_list_inner]. *)
Variable plist : Stop -> PM (option Cmd).

(** The next token is [op] and is taken, or the message is printed. *)
Definition close_with (op : Op) (msg : list Z) : PM unit :=
  p ← PEEK;
  if is_op p op then NEXT else sh_err (msg ++ [ch_nl]).

Definition parse_paren_group : PM (option Cmd) :=
  l ← plist STOP_ANY;
  _ ← close_with OP_RPAREN (cs "vash: expected `)' to close the group");
  mret (match l with Some _ => Some (set_left (cmd_new C_GROUP) l) | None => None end).

(** The command with the redirection, or [None] when the list could not be read. *)
Definition parse_procsub_target (c : Cmd) (fd : Z) (psub_op : Op) : PM (option Cmd) :=
  l ← parse_paren_group;
  match l with
  | None => _ ← sh_err (cs "vash: expected `)' to close the process substitution" ++ [ch_nl]); mret None
  | Some l =>
      mret (Some (push_redir c (mkRedir fd R_PIPE None None (Some l) (bool_decide (psub_op = OP_PSUB_OUT)))))
  end.

(** What follows the operator of a redirection that goes to [fd]: the command with it,
    [inr true] when there is none and that is an error, [inr false] when a duplication
    has no descriptor. *)
Definition redir_rest (c : Cmd) (op : Op) (fd : Z) (mode : RMode) : PM (Cmd + bool) :=
  '(strip_tabs, target) ←
    (if bool_decide (mode = R_HEREDOC) && bool_decide (op = OP_DLT) then dash_target else mret (false, None));
  psub ← psub_after op;
  match psub with
  | Some po =>
      c ← parse_procsub_target c fd po;
      mret (match c with Some c => inl c | None => inr true end)
  | None =>
      target ← (match target with Some t => mret (Some t) | None => take_redir_target op end);
      match target with
      | None => if is_dup_op op then mret (inr false) else _ ← syntax_error_after op; mret (inr true)
      | Some t =>
          if bool_decide (op = OP_TLT) then mret (inl (add_redir c fd R_HEREDOC (Some t)))
          else if bool_decide (mode = R_HEREDOC) then
            c ← add_heredoc c fd t strip_tabs; mret (inl c)
          else mret (inl (add_redir c fd mode (Some t)))
      end
  end.

(** The operator of a trailing redirection and the number before it; [None] ends them. *)
Definition trailing_op : PM (option (Op * option Z)) :=
  p ← PEEK;
  match number_prefix (tok_word p) with
  | Some num =>
      _ ← TAKE; _ ← NEXT;
      op_tok ← PEEK;
      match redir_op op_tok with
      | Some op => _ ← NEXT; mret (Some (op, Some (atoi num)))
      | None => mret None
      end
  | None =>
      match redir_op p with
      | Some op => _ ← NEXT; mret (Some (op, None))
      | None => mret None
      end
  end.

Definition parse_trailing_redirs (c : Cmd) : PM Cmd :=
  loop fuel (fun c =>
    o ← trailing_op;
    match o with
    | None => leave c
    | Some (op, num) =>
        match redir_mode_of op with
        | None => leave c
        | Some (dfd, mode) =>
            r ← redir_rest c op (default dfd num) mode;
            match r with
            | inl c => again c
            | inr true => leave c
            | inr false => again c
            end
        end
    end) c.

(** One token is stepped over when it is [op]. *)
Definition skip_op (op : Op) : PM unit :=
  p ← PEEK; if is_op p op then NEXT else mret tt.

Definition parse_function (name : list Z) : PM (option Cmd) :=
  _ ← skip_op OP_LPAREN;
  p ← PEEK;
  _ ← (if is_op p OP_RPAREN then NEXT else if is_keyword p (cs ")") then NEXT else mret tt);
  _ ← skip_op OP_LBRACE;
  body ← plist STOP_ANY;
  _ ← close_with OP_RBRACE (cs "vash: expected `}' at the end of function " ++ name);
  _ ← func_define name body;
  mret (Some (set_left (set_name (cmd_new C_FUNC) (Some (word_literal name))) body)).

(** [2> file]: the operator behind the number [num] has been seen.  The descriptor the
    number names is passed to [redir_mode_of], which replaces it. *)
Definition numbered_redir (c : Cmd) (op : Op) (num : list Z) : PM (option Cmd) :=
  _ ← NEXT;
  pt ← PEEK;
  '(psub, target) ←
    match pt with
    | T_OP o =>
        if is_psub_op o then _ ← NEXT; mret (Some o, None)
        else target ← take_redir_target op; mret (None, target)
    | _ => target ← take_redir_target op; mret (None, target)
    end;
  let '(fd, mode) := default (atoi num, R_IN) (redir_mode_of op) in
  match psub with
  | Some po => parse_procsub_target c fd po
  | None =>
      match target with
      | None =>
          if is_dup_op op then mret (Some c)
          else _ ← syntax_error_after op; mret None
      | Some t =>
          if bool_decide (mode = R_HEREDOC) && negb (bool_decide (op = OP_TLT))
          then c ← add_heredoc c fd t false; mret (Some c)
          else mret (Some (add_redir c fd mode (Some t)))
      end
  end.

(** The end of a simple command: nothing at all is no command. *)
Definition simple_end (c : Cmd) (saw_word : bool) : option Cmd :=
  if negb saw_word && (length (c_redirs c) =? 0)%nat && (length (c_argv c) =? 0)%nat
  then None else Some c.

(** [name() { ... }], [arr=(one two)] or a plain argument; [w] is the peeking word. *)
Definition simple_word (c : Cmd) (saw_word : bool) (w : Word)
    : PM (Cmd * bool + option Cmd) :=
  _ ← TAKE; _ ← NEXT;
  if ends_eq w || (negb saw_word && (length (c_argv c) =? 0)%nat && word_is_name w) then
    q ← PEEK;
    let is_def := is_op q OP_LPAREN || is_keyword q (cs "()") in
    let arrayish := ends_eq w && is_op q OP_LPAREN in
    if is_def && negb arrayish then
      f ← parse_function (cstr (expand w)); leave f
    else if arrayish then
      _ ← NEXT;
      '(depth, items) ← array_items;
      _ ← (if 0 <? depth then sh_err (cs "vash: expected `)' to close the array" ++ [ch_nl]) else mret tt);
      again (add_argv c (Array (match w with h :: _ => p_text h | [] => [] end) items), true)
    else again (add_argv c (Plain w), true)
  else again (add_argv c (Plain w), true).

Definition ends_simple (p : Tok) : bool :=
  match p with
  | T_EOF | T_NEWLINE
  | T_OP (OP_SEMI | OP_AMP | OP_AND | OP_OR | OP_PIPE | OP_RPAREN | OP_RBRACE) => true
  | _ => false
  end.

Definition simple_step (st : Cmd * bool) : PM (Cmd * bool + option Cmd) :=
  let '(c, saw_word) := st in
  let first := negb saw_word && (length (c_argv c) =? 0)%nat in
  p ← PEEK;
  if ends_simple p then leave (simple_end c saw_word)
  else if first && is_keyword p (cs "select") then
    _ ← sh_err (cs "vash: select: not supported yet" ++ [ch_nl]); leave None
  else if first && is_keyword p (cs "function") then
    _ ← NEXT;
    n ← PEEK;
    match n with
    | T_WORD w => _ ← NEXT; f ← parse_function (cstr (expand (default [] w))); leave f
    | _ => leave None
    end
  else
    match number_prefix (tok_word p) with
    | Some num =>
        w ← TAKE; _ ← NEXT;
        op_tok ← PEEK;
        match redir_op op_tok with
        | Some op =>
            c ← numbered_redir c op num;
            match c with Some c => again (c, saw_word) | None => leave None end
        | None => again (add_argv c (Plain (default [] w)), true)
        end
    | None =>
        match redir_op p with
        | Some op =>
            _ ← NEXT;
            match redir_mode_of op with
            | None => leave None
            | Some (fd, mode) =>
                r ← redir_rest c op fd mode;
                match r with
                | inl c => again (c, saw_word)
                | inr true => leave None
                | inr false => leave (simple_end c saw_word)
                end
            end
        | None =>
            match p with
            | T_WORD (Some w) => simple_word c saw_word w
            | _ => leave (simple_end c saw_word)
            end
        end
    end.

Definition parse_simple : PM (option Cmd) := loop fuel simple_step (cmd_new C_SIMPLE, false).

(** *** Compound commands *)

(** From the body of a branch on; [elif] reads what follows that word. *)
Definition if_rest (elif : PM (option Cmd)) (c : Cmd) : PM (option Cmd) :=
  p ← PEEK;
  if is_keyword p (cs "elif") then
    _ ← NEXT;
    i ← elif; mret (Some (set_init c i))
  else
    c ← (if is_keyword p (cs "else") then _ ← NEXT; i ← plist STOP_BODY; mret (set_init c i)
         else mret c);
    _ ← expect_reserved (cs "fi");
    c ← parse_trailing_redirs c; mret (Some c).

Fixpoint parse_if_tail (n : nat) : PM (option Cmd) :=
  match n with
  | O => fun _ => None
  | S n' =>
      lhs ← plist STOP_THEN;
      _ ← expect_reserved (cs "then");
      rhs ← plist STOP_BODY;
      if_rest (parse_if_tail n') (set_right (set_left (cmd_new C_IF) lhs) rhs)
  end.

Definition parse_while (until : bool) : PM (option Cmd) :=
  lhs ← plist STOP_DO;
  _ ← expect_reserved (cs "do");
  rhs ← plist STOP_BODY;
  _ ← expect_reserved (cs "done");
  c ← parse_trailing_redirs
        (set_right (set_left (cmd_new (if until then C_UNTIL else C_WHILE)) lhs) rhs);
  mret (Some c).

(** The body in braces, if there is one. *)
Definition for_brace_body (c : Cmd) : PM (option Cmd) :=
  q ← PEEK;
  if is_op q OP_LBRACE then
    _ ← NEXT;
    rhs ← plist STOP_ANY;
    _ ← close_with OP_RBRACE (cs "vash: expected `}'");
    mret (Some (set_right c rhs))
  else mret None.

(** From the end of the head of a [for] on. *)
Definition for_body (c : Cmd) : PM (option Cmd) :=
  _ ← skip_op OP_SEMI;
  _ ← skip_nl;
  b ← for_brace_body c;
  match b with
  | Some c => c ← parse_trailing_redirs c; mret (Some c)
  | None =>
      _ ← expect_reserved (cs "do");
      rhs ← plist STOP_BODY;
      _ ← expect_reserved (cs "done");
      c ← parse_trailing_redirs (set_right c rhs); mret (Some c)
  end.

(** The words of [for x in ...]. *)
Definition for_words (c : Cmd) : PM Cmd :=
  loop fuel (fun c =>
    q ← PEEK;
    if negb (is_word q) || is_reserved (tok_word q) (cs "do") then leave c
    else w ← TAKE; _ ← NEXT; again (add_word c w)) c.

Definition parse_for : PM (option Cmd) :=
  p ← PEEK;
  if is_op p OP_LPAREN then
    _ ← NEXT;
    p ← PEEK;
    if is_op p OP_LPAREN then
      _ ← NEXT;
      c ← read_arith_body (cmd_new C_ARITHFOR) true;
      for_body c
    else _ ← sh_err (cs "vash: `(' after `for'" ++ [ch_nl]); mret None
  else
    match p with
    | T_WORD (Some w) =>
        if word_is_name w then
          w ← TAKE; _ ← NEXT;
          let c := set_name (cmd_new C_FOR) w in
          p ← PEEK;
          c ← (if is_keyword p (cs "in") then _ ← NEXT; for_words c else mret c);
          for_body c
        else _ ← sh_err (cs "vash: `for' wants a variable name" ++ [ch_nl]); mret None
    | _ => _ ← sh_err (cs "vash: `for' wants a variable name" ++ [ch_nl]); mret None
    end.

(** The patterns of one arm. *)
Definition case_patterns : PM (Cmd * bool) :=
  loop fuel (fun '(item, patterns) =>
    p ← PEEK;
    if is_op p OP_RPAREN then _ ← NEXT; leave (item, patterns)
    else if negb (is_word p) then leave (item, patterns)
    else
      w ← TAKE; _ ← NEXT;
      _ ← skip_op OP_PIPE;
      again (add_word item w, true)) (cmd_new C_CASE, false).

(** One arm of a [case], or its end. *)
Definition case_step (c : Cmd) : PM (Cmd + Cmd) :=
  p ← skip_sep;
  match p with
  | T_EOF => leave c
  | _ =>
      if is_keyword p (cs "esac") then _ ← NEXT; leave c
      else
        '(item, patterns) ← case_patterns;
        if (patterns : bool) then
          rhs ← plist STOP_DSEMI;
          p ← PEEK;
          _ ← (if is_op p OP_DUP || is_op p OP_SEMI then NEXT else mret tt);
          again (add_list c (set_right item rhs))
        else _ ← NEXT; leave c
  end.

Definition parse_case : PM (option Cmd) :=
  p ← PEEK;
  if negb (is_word p) then _ ← sh_err (cs "vash: `case' wants a word to test" ++ [ch_nl]); mret None
  else
    w ← TAKE; _ ← NEXT;
    _ ← expect_reserved (cs "in");
    c ← loop fuel case_step (set_name (cmd_new C_CASE) w);
    c ← parse_trailing_redirs c; mret (Some c).

Definition parse_command : PM (option Cmd) :=
  p ← PEEK;
  if is_keyword p (cs "if") then _ ← NEXT; parse_if_tail fuel
  else if is_keyword p (cs "while") then _ ← NEXT; parse_while false
  else if is_keyword p (cs "until") then _ ← NEXT; parse_while true
  else if is_keyword p (cs "for") then _ ← NEXT; parse_for
  else if is_keyword p (cs "case") then _ ← NEXT; parse_case
  else if is_keyword p (cs "[[") then _ ← NEXT; parse_dblbracket
  else if is_op p OP_LBRACE then
    _ ← NEXT;
    l ← plist STOP_ANY;
    _ ← close_with OP_RBRACE (cs "vash: expected `}'");
    c ← parse_trailing_redirs (set_left (cmd_new C_GROUP) l); mret (Some c)
  else if is_op p OP_LPAREN then
    _ ← NEXT;
    p ← PEEK;
    if is_op p OP_LPAREN then _ ← NEXT; parse_arithcmd
    else
      l ← plist STOP_ANY;
      _ ← close_with OP_RPAREN (cs "vash: expected `)'");
      c ← parse_trailing_redirs (set_left (cmd_new C_GROUP) l); mret (Some c)
  else parse_simple.

(** *** Pipelines and lists *)

Definition pipeline_step (pipe : Cmd) : PM (Cmd + Cmd) :=
  p ← PEEK;
  if is_op p OP_PIPE then
    _ ← NEXT;
    _ ← skip_nl;
    stage ← parse_command;
    match stage with
    | None => _ ← sh_err (cs "vash: syntax error after `|'" ++ [ch_nl]); leave pipe
    | Some stage => again (add_list pipe stage)
    end
  else leave pipe.

Definition parse_pipeline : PM (option Cmd) :=
  first ← parse_command;
  match first with
  | None => mret None
  | Some first =>
      p ← PEEK;
      if is_op p OP_PIPE then
        c ← loop fuel pipeline_step (set_left (cmd_new C_PIPE) (Some first)); mret (Some c)
      else mret (Some first)
  end.

Definition and_or_step (lhs : Cmd) : PM (Cmd + Cmd) :=
  p ← PEEK;
  match p with
  | T_OP ((OP_AND | OP_OR) as op) =>
      _ ← NEXT;
      _ ← skip_nl;
      rhs ← parse_pipeline;
      match rhs with
      | None =>
          _ ← sh_err (cs "vash: syntax error after `" ++ tok_op_name op ++ cs "'" ++ [ch_nl]); leave lhs
      | Some _ =>
          again (set_right (set_left (cmd_new (if bool_decide (op = OP_AND) then C_AND else C_OR)) (Some lhs))
                   rhs)
      end
  | _ => leave lhs
  end.

Definition parse_and_or : PM (option Cmd) :=
  lhs ← parse_pipeline;
  _ ← collect_docs;
  match lhs with
  | None => mret None
  | Some lhs => c ← loop fuel and_or_step lhs; mret (Some c)
  end.

(** Separators between commands; the first other token. *)
Definition skip_list_sep : PM Tok :=
  loop fuel (fun _ : unit =>
    p ← PEEK;
    if bool_decide (p = T_NEWLINE) || is_op p OP_SEMI || is_op p OP_AMP
    then _ ← NEXT; again tt else leave p) tt.

Definition ends_list (stop : Stop) (p : Tok) : bool :=
  bool_decide (p = T_EOF) || is_op p OP_RPAREN || is_op p OP_RBRACE ||
  (bool_decide (stop = STOP_DSEMI) && is_op p OP_DUP) || stop_word stop p.

Definition list_step (stop : Stop) (head : option Cmd) : PM (option Cmd + option Cmd) :=
  p ← skip_list_sep;
  if ends_list stop p then leave head
  else
    c ← parse_and_or;
    match c with
    | None =>
        q ← PEEK;
        _ ← (if bool_decide (q = T_EOF) then mret tt else NEXT);
        again head
    | Some c =>
        q ← PEEK;
        c ← (if is_op q OP_AMP then _ ← NEXT; mret (set_left (cmd_new C_BG) (Some c)) else mret c);
        let head := Some (add_list (default (cmd_new C_SEQ) head) c) in
        p ← PEEK;
        if is_op p OP_SEMI || is_op p OP_AMP || bool_decide (p = T_NEWLINE) then again head
        else leave head
    end.

End Commands.

(** [depth] lists may be open inside one another. *)
Fixpoint parse_list_inner (depth : nat) (stop : Stop) : PM (option Cmd) :=
  match depth with
  | O => fun _ => None
  | S d => loop fuel (list_step (parse_list_inner d) stop) None
  end.

Definition parse_list : PM (option Cmd) := parse_list_inner fuel STOP_ANY.

End Parser.
