(* ===== verification/ParseTokens.v ===== *)
(** The parser over a list of tokens, and the lexer as such a list.

    [list_source] is a token source that is its tokens; [TokSim] states that one source
    does what another does; the parser then does over the first what it does over the
    second ([parse_list_sim]), and the lexer over a text is related to the tokens of the
    text ([lexer_sim]).  Here-documents are outside this: a list of tokens has no text
    to take a body from, so the list source refuses them. *)
From S2P Require Import Prelude CString Lex LexSource LexTotal LexPrint Parse.
From stdpp Require Import gmap.
Local Open Scope Z_scope.

(** ** Tokens as a source *)

(** The current token, whether the next has been looked at, and those to come. *)
Record TL := mkTL { tl_cur : Tok; tl_peeked : bool; tl_rest : list Tok }.

Definition tl_take (l : TL) : option Word * TL :=
  match tl_peeked l, tl_rest l, tl_cur l with
  | true, T_WORD (Some w) :: r, _ => (Some w, mkTL (tl_cur l) true (T_WORD None :: r))
  | _, _, T_WORD (Some w) => (Some w, mkTL (T_WORD None) (tl_peeked l) (tl_rest l))
  | _, _, _ => (None, l)
  end.

Definition tl_look (l : TL) : TL := mkTL (tl_cur l) true (tl_rest l).

#[export] Instance list_source : TokSource TL := {|
  tk_peek l := Some (nth 0 (tl_rest l) T_EOF, tl_look l);
  tk_peek2 l := Some (drop_word (nth 1 (tl_rest l) T_EOF), tl_look l);
  tk_next l := Some (mkTL (nth 0 (tl_rest l) T_EOF) false (tail (tl_rest l)));
  tk_take := tl_take;
  tk_push_hdoc _ _ _ _ := None;
  tk_collect m l := Some (m, l) |}.

(** ** One source doing what another does *)

(** [r1] ends as [r2] does, if that ends. *)
Definition follows {S1 S2 A} (R : S1 -> S2 -> Prop) (r1 : option (A * S1)) (r2 : option (A * S2)) : Prop :=
  forall a s2, r2 = Some (a, s2) -> exists s1, r1 = Some (a, s1) /\ R s1 s2.

Class TokSim {L1 L2} `{TokSource L1, TokSource L2} (R : L1 -> L2 -> Prop) : Prop := {
  ts_peek l1 l2 : R l1 l2 -> follows R (tk_peek l1) (tk_peek l2);
  ts_peek2 l1 l2 : R l1 l2 -> follows R (tk_peek2 l1) (tk_peek2 l2);
  ts_next l1 l2 l2' : R l1 l2 -> tk_next l2 = Some l2' -> exists l1', tk_next l1 = Some l1' /\ R l1' l2';
  ts_take l1 l2 : R l1 l2 -> fst (tk_take l1) = fst (tk_take l2) /\ R (snd (tk_take l1)) (snd (tk_take l2));
  ts_push n d s l1 l2 l2' : R l1 l2 -> tk_push_hdoc n d s l2 = Some l2' ->
    exists l1', tk_push_hdoc n d s l1 = Some l1' /\ R l1' l2';
  ts_collect m l1 l2 : R l1 l2 -> follows R (tk_collect m l1) (tk_collect m l2) }.

Section Simulation.
Context {L1 L2 : Type} `{TokSource L1, TokSource L2} (R : L1 -> L2 -> Prop) `{!TokSim R}.

Definition prel (s1 : PSt L1) (s2 : PSt L2) : Prop :=
  R (ps_lex s1) (ps_lex s2) /\ ps_err s1 = ps_err s2 /\ ps_funcs s1 = ps_funcs s2 /\
  ps_docs s1 = ps_docs s2 /\ ps_next s1 = ps_next s2.

Definition psim {A} (m1 : LM (PSt L1) A) (m2 : LM (PSt L2) A) : Prop :=
  forall s1 s2, prel s1 s2 -> follows prel (m1 s1) (m2 s2).

Lemma psim_ret {A} (a : A) : psim (mret a) (mret a).
Proof. intros s1 s2 HR a' s2' [= <- <-]. by exists s1. Qed.

Lemma psim_stuck {A} (m : LM (PSt L1) A) : psim m (fun _ => None).
Proof. by intros s1 s2 HR a' s2'. Qed.

Lemma psim_bind {A B} (m1 : LM (PSt L1) A) (m2 : LM (PSt L2) A) (k1 : A -> LM (PSt L1) B) k2 :
  psim m1 m2 -> (forall a, psim (k1 a) (k2 a)) -> psim (m1 ≫= k1) (m2 ≫= k2).
Proof.
  intros Hm Hk s1 s2 HR b s2'. unfold mbind, LM_bind.
  destruct (m2 s2) as [[a s]|] eqn:Hm2; [|done]. intros Hk2.
  destruct (Hm s1 s2 HR a s Hm2) as (s' & -> & HR'). by eapply Hk.
Qed.

Lemma psim_loop {A B} (b1 : A -> LM (PSt L1) (A + B)) b2 n a :
  (forall a, psim (b1 a) (b2 a)) -> psim (loop n b1 a) (loop n b2 a).
Proof.
  intros Hb. revert a. induction n as [|n IH]; intros a; simpl; [apply psim_stuck|].
  apply psim_bind; [apply Hb|]. intros [a'|b]; [apply IH | apply psim_ret].
Qed.

Lemma psim_on_lex {A} (f1 : L1 -> option (A * L1)) f2 :
  (forall l1 l2, R l1 l2 -> follows R (f1 l1) (f2 l2)) -> psim (on_lex f1) (on_lex f2).
Proof.
  intros Hf s1 s2 (HR & He & Hfu & Hd & Hn) a s2'. unfold on_lex.
  destruct (f2 (ps_lex s2)) as [[b l]|] eqn:Hf2; [|done]. intros [= <- <-].
  destruct (Hf _ _ HR b l Hf2) as (l1 & -> & HR'). by eexists.
Qed.

Lemma psim_PEEK : psim PEEK PEEK.
Proof. apply psim_on_lex, ts_peek. Qed.

Lemma psim_PEEK2 : psim PEEK2 PEEK2.
Proof. apply psim_on_lex, ts_peek2. Qed.

Lemma psim_NEXT : psim NEXT NEXT.
Proof.
  apply psim_on_lex. intros l1 l2 HR a l2'. destruct (tk_next l2) as [l|] eqn:Hn; [|done].
  intros [= <- <-]. destruct (ts_next _ _ _ HR Hn) as (l1' & -> & HR'). by exists l1'.
Qed.

Lemma psim_TAKE : psim TAKE TAKE.
Proof.
  apply psim_on_lex. intros l1 l2 HR a l2' [= Ht]. destruct (ts_take _ _ HR) as [Hf HR'].
  destruct (tk_take l1) as [w1 l1'], (tk_take l2) as [w2 l2'']. simplify_eq/=. by exists l1'.
Qed.

Lemma psim_sh_err msg : psim (sh_err msg) (sh_err msg).
Proof.
  intros s1 s2 (HR & He & Hfu & Hd & Hn) a s2' [= <- <-]. eexists. split; [done|].
  unfold prel; simpl. by rewrite He.
Qed.

Lemma psim_func_define n b : psim (func_define n b) (func_define n b).
Proof.
  intros s1 s2 (HR & He & Hfu & Hd & Hn) a s2' [= <- <-]. eexists. split; [done|].
  unfold prel; simpl. by rewrite Hfu.
Qed.

Lemma psim_push_hdoc d s : psim (push_hdoc d s) (push_hdoc d s).
Proof.
  intros s1 s2 (HR & He & Hfu & Hd & Hn) a s2'. unfold push_hdoc. rewrite Hn.
  destruct (tk_push_hdoc (ps_next s2) d s (ps_lex s2)) as [l|] eqn:Hp; [|done]. intros [= <- <-].
  destruct (ts_push _ _ _ _ _ _ HR Hp) as (l1 & -> & HR'). eexists. split; [done|]. done.
Qed.

Lemma psim_collect : psim collect_docs collect_docs.
Proof.
  intros s1 s2 (HR & He & Hfu & Hd & Hn) a s2'. unfold collect_docs. rewrite Hd.
  destruct (tk_collect (ps_docs s2) (ps_lex s2)) as [[m l]|] eqn:Hp; [|done]. intros [= <- <-].
  destruct (ts_collect _ _ _ HR _ _ Hp) as (l1 & -> & HR'). eexists. split; [done|]. done.
Qed.
End Simulation.

Create HintDb parsesim.
#[export] Hint Resolve psim_ret psim_stuck psim_PEEK psim_PEEK2 psim_NEXT psim_TAKE psim_sh_err psim_func_define
  psim_push_hdoc psim_collect : parsesim.

Ltac parsesim :=
  repeat first
    [ progress (eauto with parsesim; try typeclasses eauto)
    | apply psim_loop; intros
    | apply psim_bind; [|intros]
    | progress unfold again, leave
    | match goal with
      | |- psim _ (match ?x with _ => _ end) _ => destruct x; cbn beta iota
      end ].

Section Parsers.
Context {L1 L2 : Type} `{TokSource L1, TokSource L2} (R : L1 -> L2 -> Prop) `{!TokSim R}.
Variables (expand : Word -> list Z) (fuel : nat).

Lemma skip_nl_sim : psim R (skip_nl fuel) (skip_nl fuel).
Proof. unfold skip_nl. parsesim. Qed.

Lemma skip_sep_sim : psim R (skip_sep fuel) (skip_sep fuel).
Proof. unfold skip_sep. parsesim. Qed.

Hint Resolve skip_nl_sim skip_sep_sim : parsesim.

Lemma expect_reserved_sim n : psim R (expect_reserved fuel n) (expect_reserved fuel n).
Proof. unfold expect_reserved. parsesim. Qed.

Lemma read_arith_body_sim c s : psim R (read_arith_body fuel c s) (read_arith_body fuel c s).
Proof. unfold read_arith_body, arith_body_step. parsesim. Qed.

Hint Resolve expect_reserved_sim read_arith_body_sim : parsesim.

Lemma parse_arithcmd_sim : psim R (parse_arithcmd fuel) (parse_arithcmd fuel).
Proof. unfold parse_arithcmd. parsesim. Qed.

Lemma parse_dblbracket_sim : psim R (parse_dblbracket fuel) (parse_dblbracket fuel).
Proof. unfold parse_dblbracket, test_step. parsesim. Qed.

Lemma take_redir_target_sim op : psim R (take_redir_target op) (take_redir_target op).
Proof. unfold take_redir_target. parsesim. Qed.

Lemma dash_target_sim : psim R (dash_target) (dash_target).
Proof. unfold dash_target. parsesim. Qed.

Lemma psub_after_sim op : psim R (psub_after op) (psub_after op).
Proof. unfold psub_after. parsesim. Qed.

Lemma syntax_error_after_sim op : psim R (syntax_error_after op) (syntax_error_after op).
Proof. unfold syntax_error_after. parsesim. Qed.

Lemma add_heredoc_sim c fd t s : psim R (add_heredoc expand c fd t s) (add_heredoc expand c fd t s).
Proof. unfold add_heredoc. parsesim. Qed.

Lemma array_items_sim : psim R (array_items fuel) (array_items fuel).
Proof. unfold array_items. parsesim. Qed.

Hint Resolve parse_arithcmd_sim parse_dblbracket_sim take_redir_target_sim dash_target_sim psub_after_sim
  syntax_error_after_sim add_heredoc_sim array_items_sim : parsesim.

Section Commands.
Variables (pl1 : Stop -> LM (PSt L1) (option Cmd)) (pl2 : Stop -> LM (PSt L2) (option Cmd)).
Hypothesis Hpl : forall stop, psim R (pl1 stop) (pl2 stop).
Hint Resolve Hpl : parsesim.

Lemma close_with_sim op msg : psim R (close_with op msg) (close_with op msg).
Proof. unfold close_with. parsesim. Qed.
Hint Resolve close_with_sim : parsesim.

Lemma parse_paren_group_sim : psim R (parse_paren_group pl1) (parse_paren_group pl2).
Proof. unfold parse_paren_group. parsesim. Qed.
Hint Resolve parse_paren_group_sim : parsesim.

Lemma parse_procsub_target_sim c fd op : psim R (parse_procsub_target pl1 c fd op) (parse_procsub_target pl2 c fd op).
Proof. unfold parse_procsub_target. parsesim. Qed.
Hint Resolve parse_procsub_target_sim : parsesim.

Lemma redir_rest_sim c op fd m : psim R (redir_rest expand pl1 c op fd m) (redir_rest expand pl2 c op fd m).
Proof. unfold redir_rest. parsesim. Qed.
Hint Resolve redir_rest_sim : parsesim.

Lemma trailing_op_sim : psim R (trailing_op) (trailing_op).
Proof. unfold trailing_op. parsesim. Qed.
Hint Resolve trailing_op_sim : parsesim.

Lemma parse_trailing_redirs_sim c : psim R (parse_trailing_redirs expand fuel pl1 c) (parse_trailing_redirs expand fuel pl2 c).
Proof. unfold parse_trailing_redirs. parsesim. Qed.
Hint Resolve parse_trailing_redirs_sim : parsesim.

Lemma skip_op_sim op : psim R (skip_op op) (skip_op op).
Proof. unfold skip_op. parsesim. Qed.
Hint Resolve skip_op_sim : parsesim.

Lemma parse_function_sim n : psim R (parse_function pl1 n) (parse_function pl2 n).
Proof. unfold parse_function. parsesim. Qed.
Hint Resolve parse_function_sim : parsesim.

Lemma numbered_redir_sim c op n : psim R (numbered_redir expand pl1 c op n) (numbered_redir expand pl2 c op n).
Proof. unfold numbered_redir. parsesim. Qed.
Hint Resolve numbered_redir_sim : parsesim.

Lemma simple_word_sim c s w : psim R (simple_word expand fuel pl1 c s w) (simple_word expand fuel pl2 c s w).
Proof. unfold simple_word. parsesim. Qed.
Hint Resolve simple_word_sim : parsesim.

Lemma simple_step_sim st : psim R (simple_step expand fuel pl1 st) (simple_step expand fuel pl2 st).
Proof. unfold simple_step. parsesim. Qed.
Hint Resolve simple_step_sim : parsesim.

Lemma parse_simple_sim : psim R (parse_simple expand fuel pl1) (parse_simple expand fuel pl2).
Proof. unfold parse_simple. parsesim. Qed.
Hint Resolve parse_simple_sim : parsesim.

Lemma parse_if_tail_sim n : psim R (parse_if_tail expand fuel pl1 n) (parse_if_tail expand fuel pl2 n).
Proof. induction n; simpl; unfold if_rest; parsesim. Qed.
Hint Resolve parse_if_tail_sim : parsesim.

Lemma parse_while_sim u : psim R (parse_while expand fuel pl1 u) (parse_while expand fuel pl2 u).
Proof. unfold parse_while. parsesim. Qed.
Hint Resolve parse_while_sim : parsesim.

Lemma for_brace_body_sim c : psim R (for_brace_body pl1 c) (for_brace_body pl2 c).
Proof. unfold for_brace_body. parsesim. Qed.
Hint Resolve for_brace_body_sim : parsesim.

Lemma for_body_sim c : psim R (for_body expand fuel pl1 c) (for_body expand fuel pl2 c).
Proof. unfold for_body. parsesim. Qed.
Hint Resolve for_body_sim : parsesim.

Lemma for_words_sim c : psim R (for_words fuel c) (for_words fuel c).
Proof. unfold for_words. parsesim. Qed.
Hint Resolve for_words_sim : parsesim.

Lemma parse_for_sim : psim R (parse_for expand fuel pl1) (parse_for expand fuel pl2).
Proof. unfold parse_for. parsesim. Qed.
Hint Resolve parse_for_sim : parsesim.

Lemma case_patterns_sim : psim R (case_patterns fuel) (case_patterns fuel).
Proof. unfold case_patterns. parsesim. Qed.
Hint Resolve case_patterns_sim : parsesim.

Lemma parse_case_sim : psim R (parse_case expand fuel pl1) (parse_case expand fuel pl2).
Proof. unfold parse_case, case_step. parsesim. Qed.
Hint Resolve parse_case_sim : parsesim.

Lemma parse_command_sim : psim R (parse_command expand fuel pl1) (parse_command expand fuel pl2).
Proof. unfold parse_command. parsesim. Qed.
Hint Resolve parse_command_sim : parsesim.

Lemma pipeline_step_sim p : psim R (pipeline_step expand fuel pl1 p) (pipeline_step expand fuel pl2 p).
Proof. unfold pipeline_step. parsesim. Qed.
Hint Resolve pipeline_step_sim : parsesim.

Lemma parse_pipeline_sim : psim R (parse_pipeline expand fuel pl1) (parse_pipeline expand fuel pl2).
Proof. unfold parse_pipeline. parsesim. Qed.
Hint Resolve parse_pipeline_sim : parsesim.

Lemma and_or_step_sim l : psim R (and_or_step expand fuel pl1 l) (and_or_step expand fuel pl2 l).
Proof. unfold and_or_step. parsesim. Qed.
Hint Resolve and_or_step_sim : parsesim.

Lemma parse_and_or_sim : psim R (parse_and_or expand fuel pl1) (parse_and_or expand fuel pl2).
Proof. unfold parse_and_or. parsesim. Qed.
Hint Resolve parse_and_or_sim : parsesim.

Lemma skip_list_sep_sim : psim R (skip_list_sep fuel) (skip_list_sep fuel).
Proof. unfold skip_list_sep. parsesim. Qed.
Hint Resolve skip_list_sep_sim : parsesim.

Lemma list_step_sim s h : psim R (list_step expand fuel pl1 s h) (list_step expand fuel pl2 s h).
Proof. unfold list_step. parsesim. Qed.
Hint Resolve list_step_sim : parsesim.

End Commands.

Lemma parse_list_inner_sim d stop :
  psim R (parse_list_inner expand fuel d stop) (parse_list_inner expand fuel d stop).
Proof.
  revert stop. induction d as [|d IH]; intros stop; simpl; [apply psim_stuck|].
  apply psim_loop. intros h. by apply list_step_sim.
Qed.

(** The parser over one source does what it does over the other. *)
Lemma parse_list_sim : psim R (parse_list expand fuel) (parse_list expand fuel).
Proof. apply parse_list_inner_sim. Qed.

End Parsers.

(** ** The lexer over a text is the list of the text's tokens *)

Section LexerTokens.
Variable fuel : nat.

(** From the text [t] the tokens [ks] are read. *)
Inductive yields : list Z -> list Tok -> Prop :=
  | y_end t : lex_read_raw fuel t = Some (T_EOF, []) -> yields t []
  | y_tok t k t' ks : lex_read_raw fuel t = Some (k, t') -> k <> T_EOF -> yields t' ks -> yields t (k :: ks).

Lemma yields_tokens n t k0 ks : bytes t -> (length t < fuel)%nat ->
  tokens fuel n (mkLex t k0 false T_EOF false T_EOF []) = Some ks -> yields t ks.
Proof.
  revert t k0 ks. induction n as [|n IH]; intros t k0 ks Hb Hf; [done|]. rewrite tokens_step.
  destruct (lex_read_raw_runs fuel t Hb Hf) as (k & t' & Hr & Hk). rewrite Hr.
  assert (Hb' : bytes t') by (by eapply (kept bytes), Hr; [apply lex_read_raw_sim, _|]).
  destruct Hk as [[-> ->]|[Hne Hl]].
  - intros [= <-]. by constructor.
  - intros Hks. assert (Hks' : cons k <$> tokens fuel n (mkLex t' k false T_EOF false T_EOF []) = Some ks)
      by (by destruct k). clear Hks.
    apply fmap_Some in Hks' as (ks' & Hks & ->). eapply y_tok; [done..|]. eapply IH; [done|lia|done].
Qed.

(** What is to come, the peeking token first. *)
Definition upcoming (lx : Lex Src) (ks : list Tok) : Prop :=
  exists t r, reads (lx_src lx) t /\ yields t r /\
    if lx_have_peek lx then lx_peek lx = T_EOF /\ r = [] /\ ks = [] \/ lx_peek lx <> T_EOF /\ ks = lx_peek lx :: r
    else ks = r.

Record lexes (lx : Lex Src) (l : TL) : Prop := {
  lexes_hd : lx_hd lx = [];
  lexes_cur : lx_tok lx = tl_cur l;
  lexes_peek : lx_have_peek lx = tl_peeked l;
  lexes_rest : upcoming lx (tl_rest l);
  lexes_peek2 : lx_have_peek2 lx = true ->
    lx_have_peek lx = true /\ lx_peek2 lx = drop_word (nth 1 (tl_rest l) T_EOF) }.

(** One token read from the block buffer. *)
Lemma raw_yields s t r : reads s t -> yields t r -> (0 < fuel)%nat ->
  exists s' t', lex_read_raw fuel s = Some (nth 0 r T_EOF, s') /\ reads s' t' /\ yields t' (tail r) /\
    (r <> [] -> nth 0 r T_EOF <> T_EOF).
Proof.
  intros HR Hy Hf. pose proof (lex_read_raw_sim reads fuel s t HR) as Hs. unfold agree in Hs.
  destruct Hy as [t Ht|t k t' ks Ht Hk Hy]; rewrite Ht in Hs;
    destruct (lex_read_raw fuel s) as [[k1 s']|]; try done; destruct Hs as [-> HR'].
  - exists s', []. split_and!; [done|done| |done]. constructor. destruct fuel; [lia|done].
  - exists s', t'. done.
Qed.

Lemma peek_lexes lx l : (0 < fuel)%nat -> lexes lx l ->
  exists lx', lex_peek fuel lx = Some (nth 0 (tl_rest l) T_EOF, lx') /\ lexes lx' (tl_look l).
Proof.
  intros Hf Hl. pose proof Hl as [Hhd Hcur Hpk (t & r & HR & Hy & Hup) Hp2]. unfold lex_peek.
  destruct (lx_have_peek lx) eqn:Hhp.
  - exists lx. split; [by destruct Hup as [(-> & -> & ->)|[_ ->]]|].
    destruct l as [c p ks]. simpl in *. by subst p.
  - subst r. destruct (raw_yields _ _ _ HR Hy Hf) as (s' & t' & -> & HR' & Hy' & Hne).
    eexists. split; [done|]. split; simpl; try done.
    exists t', (tail (tl_rest l)). split_and!; [done..|]. simpl.
    destruct (tl_rest l) as [|k ks]; [by left|right]. split; [|done]. by apply Hne.
Qed.

Lemma next_lexes lx l : (0 < fuel)%nat -> lexes lx l ->
  exists lx', lex_next fuel lx = Some lx' /\ lexes lx' (mkTL (nth 0 (tl_rest l) T_EOF) false (tail (tl_rest l))).
Proof.
  intros Hf Hl. destruct Hl as [Hhd Hcur Hpk (t & r & HR & Hy & Hup) Hp2]. unfold lex_next.
  destruct (lx_have_peek lx) eqn:Hhp.
  - eexists. split; [done|]. split; simpl; try done.
    + by destruct Hup as [(-> & -> & ->)|[_ ->]].
    + exists t, r. split_and!; [done..|]. simpl. by destruct Hup as [(_ & -> & ->)|[_ ->]].
  - subst r. destruct (raw_yields _ _ _ HR Hy Hf) as (s' & t' & -> & HR' & Hy' & Hne).
    eexists. split; [done|]. split; simpl; try done. by exists t', (tail (tl_rest l)).
Qed.

Lemma put_back_reads s t s' t' : reads s t -> reads s' t' -> put_back s s' = s.
Proof. intros [[Hfd _ _ _ _ _] _] [[Hfd' _ _ _ _ _] _]. unfold put_back. destruct s. simpl in *. by rewrite Hfd', Hfd. Qed.

Lemma peek2_lexes lx l : (0 < fuel)%nat -> lexes lx l ->
  exists lx', lex_peek2 fuel lx = Some (drop_word (nth 1 (tl_rest l) T_EOF), lx') /\ lexes lx' (tl_look l).
Proof.
  intros Hf Hl. unfold lex_peek2. destruct (lx_have_peek2 lx) eqn:Hp2.
  { destruct (lexes_peek2 _ _ Hl Hp2) as [Hp ->]. exists lx. split; [done|].
    pose proof (lexes_peek _ _ Hl) as Hpk. destruct l as [c p ks]. simpl in *. by rewrite Hp in Hpk; subst p. }
  destruct (peek_lexes lx l Hf Hl) as (lx' & -> & Hl'). simpl.
  destruct Hl' as [Hhd Hcur Hpk (t & r & HR & Hy & Hup) _]. rewrite Hpk in Hup. simpl in *.
  unfold lex_next. simpl. destruct (raw_yields _ _ _ HR Hy Hf) as (s' & t' & -> & HR' & _). simpl.
  rewrite (put_back_reads _ _ _ _ HR HR').
  assert (Hr : nth 0 r T_EOF = nth 1 (tl_rest l) T_EOF) by (by destruct Hup as [(_ & -> & ->)|[_ ->]]).
  rewrite Hr. eexists. split; [done|]. split; simpl; try done.
  exists t, r. split_and!; [done..|]. simpl. by rewrite Hpk.
Qed.

Lemma take_lexes lx l : lexes lx l ->
  fst (lex_take lx) = fst (tl_take l) /\ lexes (snd (lex_take lx)) (snd (tl_take l)).
Proof.
  intros Hl. pose proof Hl as [Hhd Hcur Hpk (t & r & HR & Hy & Hup) Hp2].
  destruct lx as [s k hp pk hp2 pk2 hd], l as [c p ks]. simpl in *. subst c p.
  unfold lex_take, tl_take. simpl.
  assert (Hsame : forall k', lexes (mkLex s k' hp pk hp2 pk2 hd) (mkTL k' hp ks)).
  { intros k'. split; simpl; try done. by exists t, r. }
  destruct hp; [|by destruct k as [|[w|]| |]; simpl].
  destruct Hup as [(-> & -> & ->)|[Hne ->]].
  { by destruct k as [|[w|]| |]; simpl. }
  destruct pk as [|[w|]| |]; [done| |by destruct k as [|[w|]| |]; simpl..].
  simpl. split; [done|]. split; simpl; try done. exists t, r. split_and!; [done..|]. by right.
Qed.

(** The lexer does what the list of its tokens does. *)
Lemma lexer_sim : (0 < fuel)%nat -> @TokSim _ _ (lexer_source fuel) _ lexes.
Proof.
  intros Hf. split.
  - intros lx l Hl a l' [= <- <-]. by apply peek_lexes.
  - intros lx l Hl a l' [= <- <-]. by apply peek2_lexes.
  - intros lx l l' Hl [= <-]. by apply next_lexes.
  - intros lx l Hl. by apply take_lexes.
  - done.
  - intros m lx l Hl a l' [= <- <-]. simpl. unfold lex_collect_hdocs. rewrite (lexes_hd _ _ Hl). simpl.
    eexists. split; [done|]. destruct Hl as [Hhd Hcur Hpk Hup Hp2]. by split.
Qed.

End LexerTokens.
