(* ===== verification/ParseTotal.v ===== *)
(** Termination of the parser: over any list of tokens without here-documents, with
    more fuel than there are tokens, it comes to its end. *)
From S2P Require Import Prelude CString Lex LexSource LexTotal LexPrint Parse ParseTokens.
From stdpp Require Import gmap.
Local Open Scope Z_scope.

(** The tokens still to be read. *)
Definition rem (s : PSt TL) : list Tok := tl_rest (ps_lex s).

Definition fine (k : Tok) : Prop := k <> T_EOF /\ k <> T_OP OP_DLT.
Abbreviation good := (Forall fine).

(** ** The operations of the parser's state over a list *)

Lemma runs_PEEK s ks (Q : Tok -> PSt TL -> Prop) : rem s = ks ->
  (forall s', rem s' = ks -> Q (nth 0 ks T_EOF) s') -> runs PEEK s Q.
Proof. intros <- HQ. eexists _, _. split; [done|]. by apply HQ. Qed.

Lemma runs_PEEK2 s ks (Q : Tok -> PSt TL -> Prop) : rem s = ks ->
  (forall s', rem s' = ks -> Q (drop_word (nth 1 ks T_EOF)) s') -> runs PEEK2 s Q.
Proof. intros <- HQ. eexists _, _. split; [done|]. by apply HQ. Qed.

Lemma runs_NEXT s ks (Q : unit -> PSt TL -> Prop) : rem s = ks ->
  (forall s', rem s' = tail ks -> Q tt s') -> runs NEXT s Q.
Proof. intros <- HQ. eexists _, _. split; [done|]. by apply HQ. Qed.

(** Taking a word changes at most the first token. *)
Lemma runs_TAKE s ks (Q : option Word -> PSt TL -> Prop) : rem s = ks ->
  (forall w s' k, fine k \/ ks = [] -> rem s' = match ks with [] => [] | _ :: r => k :: r end -> Q w s') ->
  good ks -> runs TAKE s Q.
Proof.
  intros <- HQ Hg. unfold runs, TAKE, on_lex. simpl.
  destruct (tl_take (ps_lex s)) as [w l] eqn:Ht. eexists w, _. split; [done|].
  destruct s as [[c p r] e f d n]. unfold rem in *; simpl in *. unfold tl_take in Ht; simpl in Ht.
  destruct r as [|k r].
  - apply (HQ w _ T_EOF); [by right|]. unfold rem. simpl.
    destruct p, c as [|[?|]| |]; by simplify_eq.
  - apply Forall_cons in Hg as [Hk Hg].
    destruct p, k as [|[?|]| |], c as [|[?|]| |]; simplify_eq/=;
      (eapply HQ; [left|]; [|done]); done.
Qed.

Lemma runs_sh_err s ks msg (Q : unit -> PSt TL -> Prop) : rem s = ks ->
  (forall s', rem s' = ks -> Q tt s') -> runs (sh_err msg) s Q.
Proof. intros <- HQ. eexists _, _. split; [done|]. by apply HQ. Qed.

Lemma runs_func_define s ks n b (Q : unit -> PSt TL -> Prop) : rem s = ks ->
  (forall s', rem s' = ks -> Q tt s') -> runs (func_define n b) s Q.
Proof. intros <- HQ. eexists _, _. split; [done|]. by apply HQ. Qed.

Lemma runs_collect s ks (Q : unit -> PSt TL -> Prop) : rem s = ks ->
  (forall s', rem s' = ks -> Q tt s') -> runs collect_docs s Q.
Proof. intros <- HQ. eexists _, _. split; [done|]. by apply HQ. Qed.

#[local] Opaque cs.

(** ** Parsers that come to their end *)

(** With at most [N] tokens to come [m] ends, and does not add tokens. *)
Definition pends (N : nat) {A} (m : LM (PSt TL) A) : Prop :=
  forall s ks, rem s = ks -> good ks -> (length ks <= N)%nat ->
  runs m s (fun _ s' => good (rem s') /\ (length (rem s') <= length ks)%nat).

Lemma pends_le N N' {A} (m : LM (PSt TL) A) : (N' <= N)%nat -> pends N m -> pends N' m.
Proof. intros Hle Hm s ks Hs Hg Hl. apply Hm; [done..|lia]. Qed.

(** A loop each turn of which takes a token. *)
Lemma pends_loop N fuel {A B} (body : A -> LM (PSt TL) (A + B)) a : (N < fuel)%nat ->
  (forall a s ks, rem s = ks -> good ks -> (length ks <= N)%nat -> runs (body a) s (fun r s' =>
     good (rem s') /\ match r with inl _ => (length (rem s') < length ks)%nat
                             | inr _ => (length (rem s') <= length ks)%nat end)) ->
  pends N (loop fuel body a).
Proof.
  intros HN Hb s ks Hs Hg Hl.
  apply (runs_loop (fun _ s => good (rem s) /\ (length (rem s) <= length ks)%nat) (fun _ s => length (rem s))).
  - by rewrite Hs.
  - rewrite Hs. lia.
  - intros a' s' [Hg' Hl']. eapply runs_weaken; [apply (Hb a' s' (rem s')); [done..|lia]|].
    intros [x|x] s'' [Hg'' Hl'']; simpl in *; (split; [|lia]) || split; try done; split; done || lia.
Qed.

Create HintDb parseends.

Ltac known_value x :=
  let v := eval cbn in x in
  lazymatch v with
  | None => change x with v | Some _ => change x with v | inl _ => change x with v | inr _ => change x with v
  | T_EOF => change x with v | true => change x with true | false => change x with false
  end.

(** What is left of a goal about the tokens to come. *)
Ltac premain :=
  repeat match goal with H : rem ?s = _ |- context [rem ?s] => rewrite H end;
  cbn [length tail nth] in *;
  repeat match goal with H : good (_ :: _) |- _ => apply Forall_cons in H as [? H] end;
  repeat match goal with |- _ /\ _ => split end;
  first [ assumption | lia | done | apply Forall_cons; split; assumption | by constructor | intros _; lia ].

Ltac pstep :=
  lazymatch goal with
  | |- Forall _ _ /\ _ => premain
  | |- runs (_ ≫= _) _ _ => apply runs_bind
  | |- runs (mret _) _ _ => apply runs_ret; cbn beta iota; try premain
  | |- runs (again _) _ _ => apply runs_ret; cbn beta iota; try premain
  | |- runs (leave _) _ _ => apply runs_ret; cbn beta iota; try premain
  | H : rem ?s = ?ks |- runs PEEK ?s _ =>
      try (is_var ks; destruct ks);
      (eapply runs_PEEK; [exact H|]); cbn [nth tail] in *; intros ? ?
  | H : rem ?s = ?ks |- runs PEEK2 ?s _ => eapply runs_PEEK2; [exact H|]; intros ? ?
  | H : rem ?s = ?ks |- runs NEXT ?s _ =>
      try (is_var ks; destruct ks);
      (eapply runs_NEXT; [exact H|]); cbn [nth tail] in *; intros ? ?
  | H : rem ?s = ?ks |- runs TAKE ?s _ =>
      try (is_var ks; destruct ks);
      (eapply runs_TAKE; [exact H| |premain]); cbn [nth tail]; intros ? ? ? [?|?] ?; try done
  | H : rem ?s = ?ks |- runs (sh_err _) ?s _ => eapply runs_sh_err; [exact H|]; intros ? ?
  | H : rem ?s = ?ks |- runs (func_define _ _) ?s _ => eapply runs_func_define; [exact H|]; intros ? ?
  | H : rem ?s = ?ks |- runs collect_docs ?s _ => eapply runs_collect; [exact H|]; intros ? ?
  | |- runs (if ?b then _ else _) _ _ => first [known_value b | destruct b eqn:?]; cbn beta iota
  | |- runs (match ?x with _ => _ end) _ _ =>
      first [known_value x | is_var x; destruct x | destruct x eqn:?]; cbn beta iota
  | H : rem ?s = ?ks |- runs ?m ?s _ =>
      let Hm := fresh in
      eassert (Hm : pends _ m) by (eauto with parseends);
      eapply runs_weaken; [apply (Hm s ks H); [premain | cbn [length] in *; lia]|];
      clear Hm; cbn beta;
      let s' := fresh "s" in let e := fresh "ks" in let E := fresh "Hks" in
      intros ? s' [? ?]; remember (rem s') as e eqn:E; symmetry in E
  end.

Ltac pends_tac := first [apply pends_loop; [lia|] | unfold pends]; intros; cbn beta iota; repeat pstep.

Section Parsers.
Variables (expand : Word -> list Z) (fuel M : nat).
Hypothesis HM : (S M < fuel)%nat.

Lemma skip_nl_ends : pends (S M) (skip_nl fuel).
Proof. unfold skip_nl. pends_tac. Qed.

Lemma skip_sep_ends : pends (S M) (skip_sep fuel).
Proof. unfold skip_sep. pends_tac. Qed.

Hint Resolve skip_nl_ends skip_sep_ends : parseends.

Lemma expect_reserved_ends n : pends (S M) (expect_reserved fuel n).
Proof. unfold expect_reserved. pends_tac. Qed.

Lemma read_arith_body_ends c s : pends (S M) (read_arith_body fuel c s).
Proof. 
  assert (Hl : forall st, pends (S M) (loop fuel (arith_body_step s) st)).
  { intros st. unfold arith_body_step. pends_tac. }
  unfold read_arith_body. pends_tac.
Qed.

Hint Resolve expect_reserved_ends read_arith_body_ends : parseends.

Lemma parse_arithcmd_ends : pends (S M) (parse_arithcmd fuel).
Proof. unfold parse_arithcmd. pends_tac. Qed.

Lemma take_redir_target_ends op : pends (S M) (take_redir_target op).
Proof. unfold take_redir_target. pends_tac. Qed.

Lemma dash_target_ends : pends (S M) dash_target.
Proof. unfold dash_target. pends_tac. Qed.

Lemma psub_after_ends op : pends (S M) (psub_after op).
Proof. unfold psub_after. pends_tac. Qed.

Lemma syntax_error_after_ends op : pends (S M) (syntax_error_after op).
Proof. unfold syntax_error_after. pends_tac. Qed.

Hint Resolve parse_arithcmd_ends take_redir_target_ends dash_target_ends psub_after_ends
  syntax_error_after_ends : parseends.

Lemma parse_dblbracket_ends : pends (S M) (parse_dblbracket fuel).
Proof.
  assert (Hl : forall c, pends (S M) (loop fuel test_step c)) by (intros c; unfold test_step; pends_tac).
  unfold parse_dblbracket. pends_tac.
Qed.

Lemma array_items_ends : pends (S M) (array_items fuel).
Proof. unfold array_items. pends_tac. Qed.

Hint Resolve parse_dblbracket_ends array_items_ends : parseends.

(** ** Given a list parser that ends on fewer tokens *)

Section Commands.
Variable plist : Stop -> LM (PSt TL) (option Cmd).
Hypothesis Hpl : forall stop, pends M (plist stop).
Hint Resolve Hpl : parseends.

Lemma close_with_ends op msg : pends (S M) (close_with op msg).
Proof. unfold close_with. pends_tac. Qed.

Lemma skip_op_ends op : pends (S M) (skip_op op).
Proof. unfold skip_op. pends_tac. Qed.

Hint Resolve close_with_ends skip_op_ends : parseends.

Lemma parse_paren_group_ends : pends M (parse_paren_group plist).
Proof. unfold parse_paren_group. pends_tac. Qed.

Hint Resolve parse_paren_group_ends : parseends.

Lemma parse_procsub_target_ends c fd op : pends M (parse_procsub_target plist c fd op).
Proof. unfold parse_procsub_target. pends_tac. Qed.

Hint Resolve parse_procsub_target_ends : parseends.

(** Without here-documents: the operator is another one. *)
Lemma redir_rest_ends c op fd dfd m : op <> OP_DLT -> redir_mode_of op = Some (dfd, m) ->
  pends M (redir_rest expand plist c op fd m).
Proof.
  intros Hop Hm. unfold redir_rest. pends_tac;
    exfalso; destruct op; simplify_eq/=; done.
Qed.

Lemma redir_op_some k op : redir_op k = Some op -> k = T_OP op /\ exists d m, redir_mode_of op = Some (d, m).
Proof. destruct k as [| | |o]; simpl; try done. destruct o; intros [= <-]; split; by eauto. Qed.

Lemma fine_op o : fine (T_OP o) -> o <> OP_DLT.
Proof. intros [_ H] ->. done. Qed.

(** The operator a trailing redirection has is one of the tokens. *)
Lemma trailing_op_runs s ks : rem s = ks -> good ks ->
  runs trailing_op s (fun r s' => good (rem s') /\
    match r with
    | Some (op, _) => (length (rem s') < length ks)%nat /\ op <> OP_DLT /\ exists d m, redir_mode_of op = Some (d, m)
    | None => (length (rem s') <= length ks)%nat
    end).
Proof.
  intros Hs Hg. unfold trailing_op. repeat pstep;
    repeat match goal with H : redir_op ?k = Some ?o |- _ => apply redir_op_some in H as [-> ?] end;
    repeat match goal with H : good (_ :: _) |- _ => apply Forall_cons in H as [? H] end;
    (split; [by premain|]); (split; [by premain|]); (split; [by apply fine_op|done]).
Qed.

Lemma parse_trailing_redirs_ends c : pends M (parse_trailing_redirs expand fuel plist c).
Proof.
  unfold parse_trailing_redirs. apply pends_loop; [lia|]. clear c. intros c s ks Hs Hg Hl.
  apply runs_bind. eapply runs_weaken; [by apply trailing_op_runs|].
  intros [[op num]|] s' [Hg' Hr]; [|by apply runs_ret].
  destruct Hr as (Hlt & Hop & d & m & Hm). rewrite Hm. apply runs_bind.
  eapply runs_weaken; [eapply redir_rest_ends; [done..|lia]|].
  intros [c'|[]] s'' [Hg'' Hl'']; apply runs_ret; (split; [done|lia]).
Qed.

Hint Resolve parse_trailing_redirs_ends : parseends.

Lemma parse_function_ends n : pends M (parse_function plist n).
Proof. unfold parse_function. pends_tac. Qed.

Hint Resolve parse_function_ends : parseends.

Lemma numbered_redir_runs c op num s ks : rem s = ks -> good ks -> (length ks <= M)%nat ->
  redir_op (nth 0 ks T_EOF) = Some op ->
  runs (numbered_redir expand plist c op num) s (fun _ s' => good (rem s') /\ (length (rem s') <= length ks)%nat).
Proof.
  intros Hs Hg Hl Hop. destruct ks as [|k ks]; [done|]. simpl in Hop. apply redir_op_some in Hop as [-> (d & m & Hm)].
  pose proof Hg as [Hf _]%Forall_cons. apply fine_op in Hf. unfold numbered_redir. rewrite Hm.
  repeat pstep; exfalso; destruct op; simplify_eq/=; done.
Qed.


Lemma simple_word_runs c saw w s ks : rem s = ks -> good ks -> ks <> [] -> (length ks <= S M)%nat ->
  runs (simple_word expand fuel plist c saw w) s
    (fun _ s' => good (rem s') /\ (length (rem s') < length ks)%nat).
Proof. intros Hs Hg Hne Hl. destruct ks as [|k ks]; [done|]. unfold simple_word. repeat pstep. Qed.

Lemma simple_step_runs st s ks : rem s = ks -> good ks -> (length ks <= S M)%nat ->
  runs (simple_step expand fuel plist st) s (fun r s' => good (rem s') /\
    match r with
    | inl _ => (length (rem s') < length ks)%nat
    | inr c => (length (rem s') < length ks)%nat \/
               length (rem s') = length ks /\ (c = None \/ c = simple_end (fst st) (snd st))
    end).
Proof.
  intros Hs Hg Hl. destruct st as [c saw]. unfold simple_step. cbn [fst snd].
  repeat pstep.
  all: try (split; [premain|]; right; split; [premain|]; first [by left | by right]).
  - eapply runs_weaken; [eapply numbered_redir_runs; [done|by premain|by premain|by premain]|].
    cbn beta. intros [c'|] s1 [Hg1 Hl1]; apply runs_ret; (split; [done|]); try left; simpl in *; lia.
  - match goal with H : redir_op _ = Some _ |- _ => apply redir_op_some in H as [-> _] end.
    pose proof Hg as [Hf _]%Forall_cons. apply fine_op in Hf.
    match goal with H : rem ?s0 = ks |- runs _ ?s0 _ =>
      eapply runs_weaken; [eapply (redir_rest_ends _ _ _ _ _ Hf); [done|exact H|by premain|by premain]|] end.
    cbn beta. intros [c'|[]] s1 [Hg1 Hl1]; apply runs_ret; (split; [done|]); try left; simpl in *; lia.
  - eapply runs_weaken; [eapply simple_word_runs; [done|done|done|done]|].
    cbn beta. intros [st|c'] s1 [Hg1 Hl1]; (split; [done|]); [done|by left].
Qed.

(** [m] ends, and takes tokens if it gives a command. *)
Definition pgives (N : nat) (m : LM (PSt TL) (option Cmd)) : Prop :=
  forall s ks, rem s = ks -> good ks -> (length ks <= N)%nat ->
  runs m s (fun r s' => good (rem s') /\ (length (rem s') <= length ks)%nat /\
    (r <> None -> (length (rem s') < length ks)%nat)).

Lemma simple_loop_runs n c saw s ks : rem s = ks -> good ks -> (length ks <= S M)%nat -> (length ks < n)%nat ->
  runs (loop n (simple_step expand fuel plist) (c, saw)) s (fun r s' => good (rem s') /\
    ((length (rem s') < length ks)%nat \/
     length (rem s') = length ks /\ (r = None \/ r = simple_end c saw))).
Proof.
  intros Hs Hg Hl Hn. destruct n as [|n]; [lia|]. cbn [loop]. apply runs_bind.
  eapply runs_weaken; [by apply (simple_step_runs _ _ ks)|]. intros [st|r] s1 [Hg1 Hl1].
  2:{ by apply runs_ret. }
  apply (runs_weaken _ _ (fun _ s' => good (rem s') /\ (length (rem s') < length ks)%nat)).
  2:{ intros r s2 [Hg2 Hl2]. split; [done|by left]. }
  apply (runs_loop (fun _ s' => good (rem s') /\ (length (rem s') < length ks)%nat) (fun _ s' => length (rem s'))).
  - done.
  - lia.
  - intros st' s2 [Hg2 Hl2]. eapply runs_weaken; [apply (simple_step_runs _ _ (rem s2)); [done..|lia]|].
    intros [st''|r] s3 [Hg3 Hl3]; (split; [split; [done|lia]|lia]) || (split; [done|lia]).
Qed.

Lemma parse_simple_gives : pgives (S M) (parse_simple expand fuel plist).
Proof.
  intros s ks Hs Hg Hl. unfold parse_simple.
  eapply runs_weaken; [apply (simple_loop_runs _ _ _ _ ks); [done..|lia]|].
  intros r s' [Hg' [Hlt|[Heq Hr]]]; (split; [done|]); (split; [lia|]); [done|].
  destruct Hr as [->| ->]; done.
Qed.

Lemma parse_if_tail_ends n : pends (min M (n - 1)) (parse_if_tail expand fuel plist n) \/ n = O.
Proof.
  induction n as [|n IH]; [by right|left].
  assert (IH' : forall s ks, rem s = ks -> good ks -> (length ks < n)%nat -> (length ks <= M)%nat ->
    runs (parse_if_tail expand fuel plist n) s (fun _ s' => good (rem s') /\ (length (rem s') <= length ks)%nat)).
  { intros s ks Hs Hg Hn Hl. destruct IH as [IH| ->]; [|lia]. apply IH; [done..|lia]. }
  clear IH. intros s ks Hs Hg Hl. cbn [parse_if_tail]. unfold if_rest. repeat pstep.
  match goal with H : rem ?s0 = ?k |- runs _ ?s0 _ =>
    eapply runs_weaken; [apply (IH' s0 k H); [by premain|simpl in *; lia..]|] end.
  cbn beta. intros r s9 [Hg9 Hl9]. apply runs_ret. split; [done|]. simpl in *. lia.
Qed.

Lemma parse_while_ends u : pends M (parse_while expand fuel plist u).
Proof. unfold parse_while. pends_tac. Qed.

Lemma for_brace_body_ends c : pends M (for_brace_body plist c).
Proof. unfold for_brace_body. pends_tac. Qed.

Hint Resolve parse_while_ends for_brace_body_ends : parseends.

Lemma for_body_ends c : pends M (for_body expand fuel plist c).
Proof. unfold for_body. pends_tac. Qed.

Lemma for_words_ends c : pends (S M) (for_words fuel c).
Proof. unfold for_words. pends_tac. Qed.

Hint Resolve for_body_ends for_words_ends : parseends.

Lemma parse_for_ends : pends M (parse_for expand fuel plist).
Proof. unfold parse_for. pends_tac. Qed.

Hint Resolve parse_for_ends : parseends.

Lemma case_patterns_runs s ks : rem s = ks -> good ks -> (length ks <= M)%nat ->
  runs (case_patterns fuel) s (fun r s' => good (rem s') /\ (length (rem s') <= length ks)%nat /\
    (snd r = true -> (length (rem s') < length ks)%nat)).
Proof.
  intros Hs Hg Hl. unfold case_patterns.
  apply (runs_loop (fun a s' => good (rem s') /\ (length (rem s') <= length ks)%nat /\
    (snd a = true -> (length (rem s') < length ks)%nat)) (fun _ s' => length (rem s'))).
  - rewrite Hs. split_and!; [done|lia|done].
  - rewrite Hs. lia.
  - intros [item pat] s1 (Hg1 & Hl1 & Hp1). remember (rem s1) as k1 eqn:Hk1. symmetry in Hk1. simpl in Hp1.
    repeat pstep; cbn [snd]; try (split_and!; [by premain|by premain|]; intros Hp; specialize (Hp1 Hp); by premain).
    all: split; [split_and!; [by premain..|intros _; by premain]|by premain].
Qed.

Lemma case_loop_ends c : pends M (loop fuel (case_step fuel plist) c).
Proof.
  apply pends_loop; [lia|]. clear c. intros c s ks Hs Hg Hl. unfold case_step. pstep. pstep.
  assert (Htail : forall s2 k2, rem s2 = k2 -> good k2 -> (length k2 <= length ks)%nat ->
    runs ('(item, patterns) ← case_patterns fuel;
          if (patterns : bool) then
            rhs ← plist STOP_DSEMI;
            p ← PEEK;
            _ ← (if is_op p OP_DUP || is_op p OP_SEMI then NEXT else mret tt);
            again (add_list c (set_right item rhs))
          else _ ← NEXT; leave c) s2 (fun r s' => good (rem s') /\
      match r with inl _ => (length (rem s') < length ks)%nat | inr _ => (length (rem s') <= length ks)%nat end)).
  { intros s2 k2 Hs2 Hg2 Hl2. apply runs_bind.
    eapply runs_weaken; [apply case_patterns_runs; [done|done|lia]|].
    intros [item pat] s3 (Hg3 & Hl3 & Hp3). remember (rem s3) as k3 eqn:Hk3. symmetry in Hk3. simpl in Hp3.
    destruct pat; [specialize (Hp3 eq_refl)|clear Hp3]; repeat pstep. }
  repeat match goal with
  | |- runs (match _ with _ => _ end) _ _ => pstep
  | |- runs (if _ then _ else _) _ _ => pstep
  end; first [eapply Htail; [done|premain|premain] | repeat pstep].
Qed.

Hint Resolve case_loop_ends : parseends.

Lemma parse_case_ends : pends M (parse_case expand fuel plist).
Proof. unfold parse_case. pends_tac. Qed.

Hint Resolve parse_case_ends : parseends.

Lemma if_tail_fuel : pends M (parse_if_tail expand fuel plist fuel).
Proof. destruct (parse_if_tail_ends fuel) as [H|H]; [|lia]. eapply pends_le, H. lia. Qed.

Hint Resolve if_tail_fuel : parseends.

Lemma parse_command_gives : pgives (S M) (parse_command expand fuel plist).
Proof.
  intros s ks Hs Hg Hl. unfold parse_command. apply runs_bind.
  eapply runs_PEEK; [done|]. intros s1 Hs1.
  destruct ks as [|k ks].
  { repeat pstep. eapply runs_weaken; [by apply parse_simple_gives|]. done. }
  cbn [nth].
  repeat match goal with |- runs (if _ then _ else _) _ _ => pstep end; try (repeat pstep; fail).
  eapply runs_weaken; [by apply parse_simple_gives|]. done.
Qed.

Lemma parse_command_ends : pends (S M) (parse_command expand fuel plist).
Proof.
  intros s ks Hs Hg Hl. eapply runs_weaken; [by apply (parse_command_gives s ks)|]. intros r s' (? & ? & _). done.
Qed.

Hint Resolve parse_command_ends : parseends.

Lemma pipeline_loop_ends c : pends (S M) (loop fuel (pipeline_step expand fuel plist) c).
Proof. unfold pipeline_step. pends_tac. Qed.

Hint Resolve pipeline_loop_ends : parseends.

Lemma parse_pipeline_gives : pgives (S M) (parse_pipeline expand fuel plist).
Proof.
  intros s ks Hs Hg Hl. unfold parse_pipeline. apply runs_bind.
  eapply runs_weaken; [by apply (parse_command_gives s ks)|].
  intros [c|] s1 (Hg1 & Hl1 & Hp1); [|apply runs_ret; by split_and!].
  specialize (Hp1 ltac:(done)). remember (rem s1) as k1 eqn:Hk1. symmetry in Hk1.
  repeat pstep.
Qed.

Lemma parse_pipeline_ends : pends (S M) (parse_pipeline expand fuel plist).
Proof.
  intros s ks Hs Hg Hl. eapply runs_weaken; [by apply (parse_pipeline_gives s ks)|]. intros r s' (? & ? & _). done.
Qed.

Hint Resolve parse_pipeline_ends : parseends.

Lemma and_or_loop_ends c : pends (S M) (loop fuel (and_or_step expand fuel plist) c).
Proof. unfold and_or_step. pends_tac. Qed.

Hint Resolve and_or_loop_ends : parseends.

Lemma parse_and_or_gives : pgives (S M) (parse_and_or expand fuel plist).
Proof.
  intros s ks Hs Hg Hl. unfold parse_and_or. apply runs_bind.
  eapply runs_weaken; [by apply (parse_pipeline_gives s ks)|].
  intros [c|] s1 (Hg1 & Hl1 & Hp1); remember (rem s1) as k1 eqn:Hk1; symmetry in Hk1.
  - specialize (Hp1 ltac:(done)). repeat pstep.
  - repeat pstep.
Qed.

(** The separators before a command, and the token that follows them. *)
Lemma skip_list_sep_runs s ks : rem s = ks -> good ks -> (length ks <= S M)%nat ->
  runs (skip_list_sep fuel) s (fun p s' => good (rem s') /\ (length (rem s') <= length ks)%nat /\
    p = nth 0 (rem s') T_EOF).
Proof.
  intros Hs Hg Hl. unfold skip_list_sep.
  apply (runs_loop (fun _ s' => good (rem s') /\ (length (rem s') <= length ks)%nat) (fun _ s' => length (rem s'))).
  - by rewrite Hs.
  - rewrite Hs. lia.
  - intros [] s1 [Hg1 Hl1]. remember (rem s1) as k1 eqn:Hk1. symmetry in Hk1. repeat pstep.
Qed.

Lemma list_step_runs stop h s ks : rem s = ks -> good ks -> (length ks <= S M)%nat ->
  runs (list_step expand fuel plist stop h) s (fun r s' => good (rem s') /\
    match r with inl _ => (length (rem s') < length ks)%nat | inr _ => (length (rem s') <= length ks)%nat end).
Proof.
  intros Hs Hg Hl. unfold list_step. apply runs_bind.
  eapply runs_weaken; [by apply (skip_list_sep_runs s ks)|]. intros p s1 (Hg1 & Hl1 & ->).
  remember (rem s1) as k1 eqn:Hk1. symmetry in Hk1.
  destruct (ends_list stop (nth 0 k1 T_EOF)) eqn:He; [repeat pstep|].
  destruct k1 as [|k k1]; [done|]. simpl in Hl1. apply runs_bind.
  eapply runs_weaken; [apply (parse_and_or_gives s1 (k :: k1)); [done..|simpl; lia]|].
  intros [c|] s2 (Hg2 & Hl2 & Hp2); remember (rem s2) as k2 eqn:Hk2; symmetry in Hk2; simpl in Hl2, Hp2.
  - specialize (Hp2 ltac:(done)). repeat pstep.
  - clear Hp2. repeat pstep.
    exfalso. apply Forall_cons in Hg2 as [[Hk _] _]. by apply bool_decide_eq_true in Heqb.
Qed.
End Commands.
End Parsers.

(** A list over no tokens at all. *)
Lemma list_loop_nil expand fuel plist stop s : rem s = [] -> (0 < fuel)%nat ->
  runs (loop fuel (list_step expand fuel plist stop) None) s (fun _ s' => rem s' = []).
Proof.
  intros Hs Hf. destruct fuel as [|f]; [lia|]. cbn [loop]. apply runs_bind. unfold list_step.
  apply runs_bind. unfold skip_list_sep. cbn [loop]. repeat pstep. done.
Qed.

(** The parser ends when it may open more lists than there are tokens. *)
Lemma parse_list_inner_ends expand fuel d stop s ks : (d <= fuel)%nat ->
  rem s = ks -> good ks -> (length ks < d)%nat ->
  runs (parse_list_inner expand fuel d stop) s (fun _ s' => good (rem s') /\ (length (rem s') <= length ks)%nat).
Proof.
  revert stop s ks. induction d as [|[|d] IH]; intros stop s ks Hd Hs Hg Hl; [lia|..].
  - destruct ks; [|simpl in Hl; lia]. cbn [parse_list_inner].
    eapply runs_weaken; [by apply list_loop_nil; [|lia]|]. intros _ s' ->. simpl. split; [done|lia].
  - change (parse_list_inner expand fuel (S (S d)) stop)
      with (loop fuel (list_step expand fuel (parse_list_inner expand fuel (S d)) stop) None).
    apply (pends_loop (S d)); [lia| |done|done|lia].
    intros h s' ks' Hs' Hg' Hl'. eapply (list_step_runs expand fuel d); [lia| |done..].
    intros stop' s'' ks'' Hs'' Hg'' Hl''. apply IH; [lia|done|done|lia].
Qed.
