(* ===== verification/ParsePrint.v ===== *)
(** A grammar of scripts, and the parser on what it prints.

    [lst], [ao], [pipe] and [cmd] are the lists, and-or chains, pipelines and commands of
    the comment at the head of [parse.c] with its compound commands.  Each has the
    tokens that spell it and the command tree it stands for; [parse_prints] shows that
    the parser builds the second from the first. *)
From S2P Require Import Prelude CString Lex LexSource LexTotal LexPrint Parse ParseTokens ParseTotal.
From stdpp Require Import gmap.
Local Open Scope Z_scope.

(** ** The grammar *)

(** A redirection to its operator's own descriptor; a trailing one may name another. *)
Record rdr := mkRd { rd_mode : RMode; rd_target : Word }.
Record trd := mkTrd { trd_fd : option Z; trd_to : rdr }.

Inductive cmd :=
  | SimpleC (args : list Word) (rs : list rdr)
  | GroupC (l : lst) (rs : list trd)
  | IfC (cond body : lst) (e : els)
  | WhileC (until : bool) (cond body : lst) (rs : list trd)
  | ForC (name : Word) (ws : list Word) (body : lst) (rs : list trd)
  | CaseC (w : Word) (a : arms) (rs : list trd)
  | TestC (ws : list Word)
with els :=
  | NoElse (rs : list trd)
  | ElseE (l : lst) (rs : list trd)
  | ElifE (cond body : lst) (e : els)
with arms :=
  | ANil
  | ACons (p : Word) (ps : list Word) (body : lst) (a : arms)
with pipe := Pipe (c : cmd) (s : stages)
with stages := SNil | SCons (c : cmd) (s : stages)
with ao := AndOr (p : pipe) (r : aor)
with aor := RNil | RCons (isand : bool) (p : pipe) (r : aor)
with lst := LNil | LCons (a : ao) (bg : bool) (l : lst).

(** ** Its trees *)

Definition default_fd (m : RMode) : Z :=
  match m with R_IN | R_DUP_IN | R_HEREDOC => 0 | R_BOTH | R_BOTH_APP => -1 | _ => 1 end.

Definition rtree (r : rdr) : Redir := mkRedir (default_fd (rd_mode r)) (rd_mode r) (Some (rd_target r)) None None false.

Definition ttree (r : trd) : Redir :=
  mkRedir (default (default_fd (rd_mode (trd_to r))) (trd_fd r)) (rd_mode (trd_to r))
    (Some (rd_target (trd_to r))) None None false.

Definition with_redirs (c : Cmd) (rs : list trd) : Cmd := set_redirs c (map ttree rs).

(** A list of commands is one node over them, or nothing. *)
Definition seq_of (h : option Cmd) (items : list Cmd) : option Cmd :=
  match items with
  | [] => h
  | _ => Some (fold_left add_list items (default (cmd_new C_SEQ) h))
  end.

Fixpoint ctree (c : cmd) : Cmd :=
  match c with
  | SimpleC args rs => mkCmd C_SIMPLE (map Plain args) (map rtree rs) None None [] [] None None []
  | GroupC l rs => with_redirs (set_left (cmd_new C_GROUP) (seq_of None (litems l))) rs
  | IfC cond body e => eltree (set_right (set_left (cmd_new C_IF) (seq_of None (litems cond))) (seq_of None (litems body))) e
  | WhileC until cond body rs =>
      with_redirs (set_right (set_left (cmd_new (if until then C_UNTIL else C_WHILE)) (seq_of None (litems cond))) (seq_of None (litems body))) rs
  | ForC name ws body rs =>
      with_redirs (set_right (mkCmd C_FOR [] [] None None [] [] (Some name) None ws) (seq_of None (litems body))) rs
  | CaseC w a rs => with_redirs (fold_left add_list (artrees a) (set_name (cmd_new C_CASE) (Some w))) rs
  | TestC ws => mkCmd C_TEST [] [] None None [] [] None None ws
  end
(** The rest of an [if], on the node of its first branch. *)
with eltree (c : Cmd) (e : els) : Cmd :=
  match e with
  | NoElse rs => with_redirs c rs
  | ElseE l rs => with_redirs (set_init c (seq_of None (litems l))) rs
  | ElifE cond body e' =>
      set_init c (Some (eltree (set_right (set_left (cmd_new C_IF) (seq_of None (litems cond))) (seq_of None (litems body))) e'))
  end
with artrees (a : arms) : list Cmd :=
  match a with
  | ANil => []
  | ACons p ps body a' =>
      set_right (mkCmd C_CASE [] [] None None [] [] None None (p :: ps)) (seq_of None (litems body)) :: artrees a'
  end
with ptree (p : pipe) : Cmd :=
  match p with
  | Pipe c SNil => ctree c
  | Pipe c s => fold_left add_list (strees s) (set_left (cmd_new C_PIPE) (Some (ctree c)))
  end
with strees (s : stages) : list Cmd :=
  match s with SNil => [] | SCons c s' => ctree c :: strees s' end
with atree (a : ao) : Cmd := match a with AndOr p r => rtrees (ptree p) r end
with rtrees (lhs : Cmd) (r : aor) : Cmd :=
  match r with
  | RNil => lhs
  | RCons isand p r' =>
      rtrees (set_right (set_left (cmd_new (if isand then C_AND else C_OR)) (Some lhs)) (Some (ptree p))) r'
  end
with litems (l : lst) : list Cmd :=
  match l with
  | LNil => []
  | LCons a bg l' => (if bg then set_left (cmd_new C_BG) (Some (atree a)) else atree a) :: litems l'
  end.

Definition ltree (l : lst) : option Cmd := seq_of None (litems l).

(** ** Its tokens *)

Definition word (w : Word) : Tok := T_WORD (Some w).
Definition kw (name : list Z) : Tok := word [mkPart W_LIT false name].

Definition op_of (m : RMode) : Op :=
  match m with
  | R_IN => OP_LT | R_OUT => OP_GT | R_APPEND => OP_DGT | R_DUP_IN => OP_LTAMP | R_DUP_OUT => OP_AMPGTAMP
  | R_BOTH => OP_AMPGT | R_BOTH_APP => OP_AMPGTGT | R_HEREDOC => OP_TLT | R_PIPE => OP_PSUB_IN
  end.

Definition show_rd (r : rdr) : list Tok := [T_OP (op_of (rd_mode r)); word (rd_target r)].

(** A trailing redirection, behind the digit of its descriptor if it has one. *)
Definition show_trd (r : trd) : list Tok :=
  match trd_fd r with Some d => [kw [48 + d]] | None => [] end ++ show_rd (trd_to r).

Fixpoint show (c : cmd) : list Tok :=
  match c with
  | SimpleC args rs => map word args ++ flat_map show_rd rs
  | GroupC l rs => [T_OP OP_LBRACE] ++ lshow l ++ [T_OP OP_RBRACE] ++ flat_map show_trd rs
  | IfC cond body e => [kw (cs "if")] ++ lshow cond ++ [kw (cs "then")] ++ lshow body ++ eshow e
  | WhileC until cond body rs =>
      [kw (if until then cs "until" else cs "while")] ++ lshow cond ++ [kw (cs "do")] ++ lshow body ++
      [kw (cs "done")] ++ flat_map show_trd rs
  | ForC name ws body rs =>
      [kw (cs "for"); word name; kw (cs "in")] ++ map word ws ++ [T_NEWLINE; kw (cs "do")] ++ lshow body ++
      [kw (cs "done")] ++ flat_map show_trd rs
  | CaseC w a rs =>
      [kw (cs "case"); word w; kw (cs "in")] ++ arshow a ++ [T_NEWLINE; kw (cs "esac")] ++ flat_map show_trd rs
  | TestC ws => [kw (cs "[[")] ++ map word ws ++ [kw (cs "]]")]
  end
with eshow (e : els) : list Tok :=
  match e with
  | NoElse rs => [kw (cs "fi")] ++ flat_map show_trd rs
  | ElseE l rs => [kw (cs "else")] ++ lshow l ++ [kw (cs "fi")] ++ flat_map show_trd rs
  | ElifE cond body e' => [kw (cs "elif")] ++ lshow cond ++ [kw (cs "then")] ++ lshow body ++ eshow e'
  end
with arshow (a : arms) : list Tok :=
  match a with
  | ANil => []
  | ACons p ps body a' =>
      [T_NEWLINE; word p] ++ flat_map (fun w => [T_OP OP_PIPE; word w]) ps ++ [T_OP OP_RPAREN] ++ lshow body ++
      [T_OP OP_DUP] ++ arshow a'
  end
with pshow (p : pipe) : list Tok := match p with Pipe c s => show c ++ sshow s end
with sshow (s : stages) : list Tok :=
  match s with SNil => [] | SCons c s' => [T_OP OP_PIPE] ++ show c ++ sshow s' end
with ashow (a : ao) : list Tok := match a with AndOr p r => pshow p ++ rshow r end
with rshow (r : aor) : list Tok :=
  match r with
  | RNil => []
  | RCons isand p r' => [T_OP (if isand then OP_AND else OP_OR)] ++ pshow p ++ rshow r'
  end
with lshow (l : lst) : list Tok :=
  match l with
  | LNil => []
  | LCons a bg l' => ashow a ++ (if bg then [T_OP OP_AMP] else []) ++ [T_NEWLINE] ++ lshow l'
  end.

(** ** What may be spelt *)

Definition keywords : list (list Z) :=
  [cs "if"; cs "while"; cs "until"; cs "for"; cs "case"; cs "[["; cs "select"; cs "function"].

Definition closers : list (list Z) :=
  [cs "then"; cs "fi"; cs "elif"; cs "else"; cs "do"; cs "done"; cs "esac"].

(** A word a simple command may start with: no keyword, and not one that ends a list. *)
Definition starts (w : Word) : bool :=
  forallb (fun n => negb (is_reserved (Some w) n)) keywords &&
  match w with
  | mkPart _ false t :: _ => forallb (fun n => negb (strcmp t n =? 0)) closers
  | _ => true
  end.

Definition arg_ok (w : Word) : bool := word_ok w && negb (is_reserved (Some w) (cs "()")).

Definition no_number (w : Word) : bool := match number_prefix (Some w) with None => true | Some _ => false end.

Definition rd_ok (r : rdr) : bool := negb (bool_decide (rd_mode r = R_PIPE)) && word_ok (rd_target r).

Definition trd_ok (r : trd) : bool :=
  match trd_fd r with Some d => (0 <=? d) && (d <=? 9) | None => true end && rd_ok (trd_to r).

(** Something to run or to redirect, and no number in front of a redirection. *)
Definition simple_ok (args : list Word) (rs : list rdr) : bool :=
  forallb arg_ok args && forallb rd_ok rs && negb ((length args =? 0)%nat && (length rs =? 0)%nat) &&
  match args with w :: _ => starts w | [] => true end &&
  match last args, rs with Some w, _ :: _ => no_number w | _, _ => true end.

Fixpoint cmd_ok (c : cmd) : bool :=
  match c with
  | SimpleC args rs => simple_ok args rs
  | GroupC l rs => lst_ok l && forallb trd_ok rs
  | IfC cond body e => lst_ok cond && lst_ok body && els_ok e
  | WhileC _ cond body rs => lst_ok cond && lst_ok body && forallb trd_ok rs
  | ForC name ws body rs =>
      word_ok name && word_is_name name &&
      forallb (fun w => word_ok w && negb (is_reserved (Some w) (cs "do"))) ws && lst_ok body && forallb trd_ok rs
  | CaseC w a rs => word_ok w && arms_ok a && forallb trd_ok rs
  | TestC ws => forallb (fun w => word_ok w && negb (is_reserved (Some w) (cs "]]"))) ws
  end
with els_ok (e : els) : bool :=
  match e with
  | NoElse rs => forallb trd_ok rs
  | ElseE l rs => lst_ok l && forallb trd_ok rs
  | ElifE cond body e' => lst_ok cond && lst_ok body && els_ok e'
  end
with arms_ok (a : arms) : bool :=
  match a with
  | ANil => true
  | ACons p ps body a' =>
      forallb word_ok (p :: ps) && negb (is_reserved (Some p) (cs "esac")) && lst_ok body && arms_ok a'
  end
with pipe_ok (p : pipe) : bool := match p with Pipe c s => cmd_ok c && stages_ok s end
with stages_ok (s : stages) : bool := match s with SNil => true | SCons c s' => cmd_ok c && stages_ok s' end
with ao_ok (a : ao) : bool := match a with AndOr p r => pipe_ok p && aor_ok r end
with aor_ok (r : aor) : bool := match r with RNil => true | RCons _ p r' => pipe_ok p && aor_ok r' end
with lst_ok (l : lst) : bool := match l with LNil => true | LCons a _ l' => ao_ok a && lst_ok l' end.

(** Every word of a grammar is one the lexer can build. *)
Scheme cmd_mut := Induction for cmd Sort Prop
  with els_mut := Induction for els Sort Prop
  with arms_mut := Induction for arms Sort Prop
  with pipe_mut := Induction for pipe Sort Prop
  with stages_mut := Induction for stages Sort Prop
  with ao_mut := Induction for ao Sort Prop
  with aor_mut := Induction for aor Sort Prop
  with lst_mut := Induction for lst Sort Prop.
Combined Scheme script_mut from cmd_mut, els_mut, arms_mut, pipe_mut, stages_mut, ao_mut, aor_mut, lst_mut.

(** ** The parser over known tokens *)

(** Everything of a parser's state but its tokens. *)
Definition side (s : PSt TL) : list Z * list (list Z * option Cmd) * gmap nat (list Z * bool) * nat :=
  (ps_err s, ps_funcs s, ps_docs s, ps_next s).

(** The tokens to come, whether the first has been looked at, and the rest of the state. *)
Definition st (e : _) (s : PSt TL) (b : bool) (ks : list Tok) : Prop :=
  rem s = ks /\ tl_peeked (ps_lex s) = b /\ side s = e.

Section Rules.
Context {e : list Z * list (list Z * option Cmd) * gmap nat (list Z * bool) * nat}.

Lemma st_PEEK s b ks (Q : Tok -> PSt TL -> Prop) : st e s b ks ->
  (forall s', st e s' true ks -> Q (nth 0 ks T_EOF) s') -> runs PEEK s Q.
Proof. intros (<- & <- & <-) HQ. eexists _, _. split; [done|]. by apply HQ. Qed.

Lemma st_NEXT s b ks (Q : unit -> PSt TL -> Prop) : st e s b ks ->
  (forall s', st e s' false (tail ks) -> Q tt s') -> runs NEXT s Q.
Proof. intros (<- & <- & <-) HQ. eexists _, _. split; [done|]. by apply HQ. Qed.

Lemma st_TAKE s w ks (Q : option Word -> PSt TL -> Prop) : st e s true (T_WORD (Some w) :: ks) ->
  (forall s', st e s' true (T_WORD None :: ks) -> Q (Some w) s') -> runs TAKE s Q.
Proof.
  intros (Hr & Hp & <-) HQ. destruct s as [[c p r] er fu do nx]. unfold rem in Hr. simpl in *. subst.
  eexists _, _. split; [reflexivity|]. by apply HQ.
Qed.

Lemma st_collect s b ks (Q : unit -> PSt TL -> Prop) : st e s b ks ->
  (forall s', st e s' b ks -> Q tt s') -> runs collect_docs s Q.
Proof.
  intros (Hr & Hp & <-) HQ. destruct s as [[c p r] er fu do nx]. eexists _, _. split; [done|]. by apply HQ.
Qed.
End Rules.

Lemma runs_again {S A B} n (body : A -> LM S (A + B)) a s Q :
  runs (body a) s (fun r s' => match r with inl a' => runs (loop n body a') s' Q | inr b => Q b s' end) ->
  runs (loop (Datatypes.S n) body a) s Q.
Proof.
  intros Hb. cbn [loop]. apply runs_bind. eapply runs_weaken; [exact Hb|].
  intros [a'|b] s' HQ; [done|by apply runs_ret].
Qed.

(** [m] on the tokens [ks], followed by what may follow, gives [a] and takes exactly
    them, when there are fewer than [fuel] tokens in all. *)
Definition parses (fuel : nat) {A} (follow : Tok -> bool) (m : LM (PSt TL) A) (ks : list Tok) (a : A) : Prop :=
  forall e s b rest, st e s b (ks ++ rest) -> follow (nth 0 rest T_EOF) = true ->
  (length (ks ++ rest) < fuel)%nat ->
  runs m s (fun r s' => r = a /\ exists b', st e s' b' rest).

(** A test whose outcome the known token decides. *)
Ltac decided x :=
  let v := eval vm_compute in x in
  lazymatch v with
  | None => change x with v | Some _ => change x with v
  | true => change x with true | false => change x with false
  end.

(** One step of the parser on a token that is known. *)
Ltac rstep :=
  lazymatch goal with
  | |- runs (_ ≫= _) _ _ => apply runs_bind
  | |- runs (mret _) _ _ => apply runs_ret; cbn beta iota
  | |- runs (again _) _ _ => apply runs_ret; cbn beta iota
  | |- runs (leave _) _ _ => apply runs_ret; cbn beta iota
  | H : st _ ?s _ _ |- runs PEEK ?s _ => eapply st_PEEK; [exact H|]; clear H; cbn [nth app word kw]; intros ? H
  | H : st _ ?s _ _ |- runs NEXT ?s _ => eapply st_NEXT; [exact H|]; clear H; cbn [nth app tail]; intros ? H
  | H : st _ ?s _ _ |- runs TAKE ?s _ => eapply st_TAKE; [exact H|]; clear H; intros ? H
  | H : st _ ?s _ _ |- runs collect_docs ?s _ => eapply st_collect; [exact H|]; clear H; intros ? H
  | |- runs (if ?b then _ else _) _ _ => first [known_value b | decided b | rewrite_test b]; cbn beta iota
  | |- runs (match ?x with _ => _ end) _ _ => first [known_value x | decided x | rewrite_test x | progress cbn [kw word]]; cbn beta iota
  end
with rewrite_test x :=
  match goal with
  | H : x = _ |- _ => rewrite H
  | H : _ |- context [x] => progress rewrite H
  end.

Section Parses.
Variables (expand : Word -> list Z) (fuel : nat).

(** Nothing that goes on with a command: what may stand behind one. *)
Definition ends_cmd (k : Tok) : bool :=
  match k with T_EOF | T_NEWLINE | T_OP (OP_AMP | OP_AND | OP_OR | OP_PIPE) => true | _ => false end.

Lemma ends_cmd_simple k : ends_cmd k = true -> ends_simple k = true.
Proof. by destruct k as [| | |[]]. Qed.

Lemma ends_cmd_redir k : ends_cmd k = true -> redir_op k = None /\ number_prefix (tok_word k) = None.
Proof. by destruct k as [| | |[]]. Qed.

Lemma digit_prefix d : 0 <= d <= 9 ->
  number_prefix (tok_word (kw [48 + d])) = Some [48 + d] /\ atoi [48 + d] = d.
Proof.
  intros Hd. assert (Hc : d = 0 \/ d = 1 \/ d = 2 \/ d = 3 \/ d = 4 \/ d = 5 \/ d = 6 \/ d = 7 \/ d = 8 \/ d = 9) by lia.
  by destruct_or! Hc; subst.
Qed.

Section Lists.
Variable plist : Stop -> LM (PSt TL) (option Cmd).

(** The target of a redirection whose operator has been taken. *)
Lemma redir_rest_parses c fd r e s b rest : rd_ok r = true -> st e s b (word (rd_target r) :: rest) ->
  runs (redir_rest expand plist c (op_of (rd_mode r)) fd (rd_mode r)) s
    (fun x s' => x = inl (add_redir c fd (rd_mode r) (Some (rd_target r))) /\ exists b', st e s' b' rest).
Proof.
  destruct r as [m t]. unfold rd_ok. simpl. intros [Hm _]%andb_prop Hst.
  destruct m; try done; unfold redir_rest, take_redir_target, psub_after; repeat rstep; by eauto.
Qed.

Lemma redir_mode_op m : m <> R_PIPE -> redir_mode_of (op_of m) = Some (default_fd m, m) /\
  redir_op (T_OP (op_of m)) = Some (op_of m).
Proof. by destruct m. Qed.

Lemma rd_ok_mode r : rd_ok r = true -> rd_mode r <> R_PIPE.
Proof. unfold rd_ok. intros [Hm _]%andb_prop. by apply negb_true_iff, bool_decide_eq_false in Hm. Qed.

(** The operator of a trailing redirection, with its descriptor. *)
Lemma trailing_op_parses r e s b rest : trd_ok r = true -> st e s b (show_trd r ++ rest) ->
  runs trailing_op s (fun x s' => x = Some (op_of (rd_mode (trd_to r)), trd_fd r) /\
    exists b', st e s' b' (word (rd_target (trd_to r)) :: rest)).
Proof.
  destruct r as [fd r]. unfold trd_ok, show_trd. cbn [trd_fd trd_to]. intros [Hfd Hr]%andb_prop Hst.
  apply rd_ok_mode in Hr. destruct (redir_mode_op _ Hr) as [_ Hop]. unfold trailing_op.
  destruct fd as [d|]; cbn [app show_rd] in Hst.
  - destruct (digit_prefix d) as [Hn Ha]; [lia|]. rstep. rstep. rewrite Hn.
    cbn beta iota. rstep. rstep. rstep. rstep. rstep. rstep. rewrite Hop. cbn beta iota. rstep. rstep. rstep.
    rewrite Ha. eauto.
  - rstep. rstep. cbn [tok_word number_prefix]. rewrite Hop. cbn beta iota. rstep. rstep. rstep. eauto.
Qed.

Lemma trailing_parses rs c e s b rest n : forallb trd_ok rs = true ->
  st e s b (flat_map show_trd rs ++ rest) -> ends_cmd (nth 0 rest T_EOF) = true -> (length rs < n)%nat ->
  runs (loop n (fun c =>
    o ← trailing_op;
    match o with
    | None => leave c
    | Some (op, num) =>
        match redir_mode_of op with
        | None => leave c
        | Some (dfd, mode) =>
            r ← redir_rest expand plist c op (default dfd num) mode;
            match r with
            | inl c => again c
            | inr true => leave c
            | inr false => again c
            end
        end
    end) c) s (fun r s' => r = set_redirs c (c_redirs c ++ map ttree rs) /\ exists b', st e s' b' rest).
Proof.
  revert c s b n. induction rs as [|r rs IH]; intros c s b n Hok Hst Hend Hn;
    (destruct n as [|n]; [simpl in Hn; lia|]); apply runs_again; rstep.
  - apply ends_cmd_redir in Hend as [Hr Hp]. unfold trailing_op. rstep. rstep.
    cbn [flat_map app nth] in *. rewrite Hp, Hr. cbn beta iota. rstep. rstep. split; [|by eauto].
    destruct c; simpl. by rewrite app_nil_r.
  - cbn [forallb flat_map] in *. apply andb_prop in Hok as [Hr Hok]. rewrite <- app_assoc in Hst.
    eapply runs_weaken; [by eapply trailing_op_parses|]. intros x s1 [-> [b1 Hst1]].
    unfold trd_ok in Hr. apply andb_prop in Hr as [_ Hr].
    destruct (redir_mode_op _ (rd_ok_mode _ Hr)) as [-> _]. cbn beta iota. rstep.
    eapply runs_weaken; [by eapply redir_rest_parses|]. intros x s2 [-> [b2 Hst2]]. rstep.
    eapply runs_weaken; [eapply IH; [done|done|done|simpl in Hn; lia]|].
    intros x s3 [-> [b3 Hst3]]. split; [|by eauto].
    unfold add_redir, set_redirs. simpl. by rewrite <- app_assoc.
Qed.

Lemma show_trd_length rs : (length rs <= length (flat_map show_trd rs))%nat.
Proof.
  induction rs as [|[[d|] r] rs IH]; simpl; lia.
Qed.

Lemma trailing_redirs_parses rs c : forallb trd_ok rs = true ->
  parses fuel ends_cmd (parse_trailing_redirs expand fuel plist c) (flat_map show_trd rs)
    (set_redirs c (c_redirs c ++ map ttree rs)).
Proof.
  intros Hok e s b rest Hst Hend Hf. apply (trailing_parses rs c e s b rest); try done.
  pose proof (show_trd_length rs). rewrite length_app in Hf. lia.
Qed.

(** *** Simple commands *)

Lemma simple_rds_parses rs c saw e s b rest n : forallb rd_ok rs = true ->
  st e s b (flat_map show_rd rs ++ rest) -> ends_cmd (nth 0 rest T_EOF) = true -> (length rs < n)%nat ->
  runs (loop n (simple_step expand fuel plist) (c, saw)) s (fun r s' =>
    r = simple_end (set_redirs c (c_redirs c ++ map rtree rs)) saw /\ exists b', st e s' b' rest).
Proof.
  revert c s b n. induction rs as [|r rs IH]; intros c s b n Hok Hst Hend Hn;
    (destruct n as [|n]; [simpl in Hn; lia|]); apply runs_again; unfold simple_step; rstep; rstep.
  - cbn [flat_map app nth] in *. rewrite (ends_cmd_simple _ Hend). rstep. split; [|by eauto].
    destruct c; simpl. by rewrite app_nil_r.
  - cbn [forallb flat_map show_rd app nth] in *. apply andb_prop in Hok as [Hr Hok].
    destruct (redir_mode_op _ (rd_ok_mode _ Hr)) as [Hm Hop].
    assert (Hes : ends_simple (T_OP (op_of (rd_mode r))) = false) by (by destruct (rd_mode r)).
    rewrite Hes. rewrite !andb_false_r. cbn [tok_word number_prefix]. rewrite Hop. cbn beta iota.
    rstep. rstep. rewrite Hm. cbn beta iota. rstep.
    eapply runs_weaken; [by eapply redir_rest_parses|]. intros x s2 [-> [b2 Hst2]]. rstep.
    eapply runs_weaken; [eapply IH; [done|done|done|simpl in Hn; lia]|].
    intros x s3 [-> [b3 Hst3]]. split; [|by eauto].
    unfold add_redir, set_redirs. simpl. by rewrite <- app_assoc.
Qed.

Lemma starts_keyword w n : starts w = true -> In n keywords -> is_keyword (word w) n = false.
Proof.
  unfold starts. intros [Hk _]%andb_prop Hn. rewrite forallb_forall in Hk. apply Hk in Hn.
  by apply negb_true_iff in Hn.
Qed.

(** One argument, before a token that does not make it something else. *)
Lemma simple_arg_parses w c saw e s b rest :
  (negb saw && (length (c_argv c) =? 0)%nat = true -> starts w = true) ->
  number_prefix (Some w) = None \/ redir_op (nth 0 rest T_EOF) = None ->
  is_op (nth 0 rest T_EOF) OP_LPAREN = false -> is_keyword (nth 0 rest T_EOF) (cs "()") = false ->
  st e s b (word w :: rest) ->
  runs (simple_step expand fuel plist (c, saw)) s
    (fun r s' => r = inl (add_argv c (Plain w), true) /\ exists b', st e s' b' rest).
Proof.
  intros Hfirst Hnum Hlp Hdef Hst. unfold simple_step. rstep. rstep.
  change (ends_simple (word w)) with false. cbn beta iota.
  assert (Hk : forall n, In n keywords -> negb saw && (length (c_argv c) =? 0)%nat && is_keyword (word w) n = false).
  { intros n Hn. destruct (negb saw && (length (c_argv c) =? 0)%nat) eqn:Hf; [|done].
    by apply starts_keyword; [apply Hfirst|]. }
  rewrite (Hk (cs "select")) by (simpl; tauto). rewrite (Hk (cs "function")) by (simpl; tauto).
  cbn [tok_word word]. destruct (number_prefix (Some w)) as [num|] eqn:Hn.
  - destruct Hnum as [|Hr]; [done|]. do 6 rstep. rewrite Hr. rstep. by eauto.
  - cbn [redir_op]. unfold simple_word. do 4 rstep.
    destruct (ends_eq w || _); cbn beta iota; [|repeat rstep; by eauto]. do 3 rstep.
    rewrite Hlp, Hdef, andb_false_r. cbn [orb andb].
    rstep. by eauto.
Qed.

Lemma simple_args_parses args rs c saw e s b rest n : forallb arg_ok args = true -> forallb rd_ok rs = true ->
  (negb saw && (length (c_argv c) =? 0)%nat = true -> match args with w :: _ => starts w | [] => true end = true) ->
  match last args, rs with Some w, _ :: _ => no_number w | _, _ => true end = true ->
  st e s b (map word args ++ flat_map show_rd rs ++ rest) -> ends_cmd (nth 0 rest T_EOF) = true ->
  (length args + length rs < n)%nat ->
  runs (loop n (simple_step expand fuel plist) (c, saw)) s (fun r s' =>
    r = simple_end (mkCmd (c_type c) (c_argv c ++ map Plain args) (c_redirs c ++ map rtree rs) (c_left c) (c_right c)
          (c_list c) (c_text c) (c_name c) (c_init c) (c_words c)) (saw || negb (length args =? 0)%nat) /\
    exists b', st e s' b' rest).
Proof.
  revert c saw s b n. induction args as [|w args IH]; intros c saw s b n Hargs Hrs Hfirst Hlast Hst Hend Hn.
  { eapply runs_weaken; [apply (simple_rds_parses rs c saw e s b rest); [exact Hrs|exact Hst|exact Hend|simpl in Hn; lia]|].
    intros x s' [-> [b' Hs']]. split; [|by eauto].
    simpl. by rewrite app_nil_r, orb_false_r. }
  destruct n as [|n]; [simpl in Hn; lia|]. cbn [forallb map app] in *. apply andb_prop in Hargs as [Hw Hargs].
  apply runs_again. eapply runs_weaken.
  { eapply simple_arg_parses; [done|..|exact Hst].
    - destruct args as [|w' args]; [|by right]. destruct rs as [|r rs].
      + right. by apply ends_cmd_redir.
      + left. simpl in Hlast. unfold no_number in Hlast. by destruct (number_prefix (Some w)).
    - destruct args as [|w' args]; [|done]. destruct rs as [|r rs]; cbn [flat_map app nth show_rd map].
      + by destruct (nth 0 rest T_EOF) as [| | |[]].
      + by destruct (rd_mode r).
    - destruct args as [|w' args].
      + destruct rs as [|r rs]; cbn [flat_map app nth show_rd map].
        * by destruct (nth 0 rest T_EOF) as [| | |[]].
        * done.
      + simpl in Hargs. apply andb_prop in Hargs as [Hw' _]. unfold arg_ok in Hw'.
        apply andb_prop in Hw' as [_ Hw']. by apply negb_true_iff in Hw'. }
  intros x s1 [-> [b1 Hst1]].
  eapply runs_weaken; [eapply IH; [done|done|done| |exact Hst1|done|simpl in Hn; lia]|].
  - destruct args; [by destruct rs|done].
  - intros x s2 [-> [b2 Hst2]]. split; [|by eauto]. simpl. rewrite <- app_assoc. by rewrite orb_true_r.
Qed.

(** *** The closing words *)

Lemma expect_parses name : is_keyword (kw name) name = true ->
  parses fuel (fun _ => true) (expect_reserved fuel name) [kw name] true.
Proof.
  intros Hk e s b rest Hst _ Hf. unfold expect_reserved. rstep. unfold skip_sep.
  destruct fuel as [|f]; [lia|]. apply runs_again. rstep. rstep.
  change (bool_decide (kw name = T_NEWLINE) || is_op (kw name) OP_SEMI) with false. cbn beta iota.
  rstep. rewrite Hk. rstep. rstep. rstep. eauto.
Qed.

Lemma close_parses op msg : parses fuel (fun _ => true) (close_with op msg) [T_OP op] tt.
Proof.
  intros e s b rest Hst _ Hf. unfold close_with. rstep. rstep.
  assert (is_op (T_OP op) op = true) as -> by (by destruct op). rstep. eauto.
Qed.

(** The first token of a command: nothing before it is skipped, and it ends no list. *)
Definition begins (k : Tok) : bool :=
  negb (bool_decide (k = T_NEWLINE)) && negb (is_op k OP_SEMI) && negb (is_op k OP_AMP) &&
  forallb (fun stop => negb (ends_list stop k)) [STOP_ANY; STOP_THEN; STOP_DO; STOP_BODY; STOP_DSEMI].

Lemma show_first c : cmd_ok c = true -> exists k ks, show c = k :: ks /\ begins k = true.
Proof.
  destruct c as [args rs| | |until| | |]; try (intros _; eexists _, _; split; [reflexivity|]; reflexivity).
  - cbn [cmd_ok show]. unfold simple_ok. intros [[[[_ Hrs]%andb_prop Hne]%andb_prop Hw]%andb_prop _]%andb_prop.
    destruct args as [|w args]; [|eexists _, _; split; [reflexivity|]].
    + destruct rs as [|r rs]; [done|]. eexists _, _. split; [reflexivity|].
      simpl in Hrs. apply andb_prop in Hrs as [Hr _]. apply rd_ok_mode in Hr. by destruct r as [[] t].
    + unfold starts in Hw. apply andb_prop in Hw as [_ Hw]. unfold begins.
      assert (Hs : forall stop, stop <> STOP_IN -> stop_word stop (word w) = false).
      { intros stop Hstop. unfold word, stop_word. destruct w as [|[k [] t] w]; try done.
        cbn [forallb closers] in Hw. repeat (apply andb_prop in Hw as [? Hw]).
        repeat match goal with H : negb _ = true |- _ => apply negb_true_iff in H end.
        destruct stop; try done; cbn [stop_names existsb];
          repeat match goal with H : (strcmp t _ =? 0) = false |- _ => rewrite H; clear H end; done. }
      unfold ends_list. cbn [forallb]. rewrite !Hs by done. done.
  - intros _. destruct until; eexists _, _; split; reflexivity.
Qed.
End Lists.

(** *** All of the grammar *)

Lemma use_parses {A} follow (m : LM (PSt TL) A) ks a e s b rest Q :
  parses fuel follow m ks a -> st e s b (ks ++ rest) -> follow (nth 0 rest T_EOF) = true ->
  (length (ks ++ rest) < fuel)%nat -> (forall s' b', st e s' b' rest -> Q a s') ->
  runs m s Q.
Proof.
  intros Hm Hst Hfo Hl HQ. eapply runs_weaken; [by eapply Hm|].
  intros x s' [-> [b' Hst']]. by eapply HQ.
Qed.

Definition ends_pipe (k : Tok) : bool := ends_cmd k && negb (is_op k OP_PIPE).
Definition ends_ao (k : Tok) : bool :=
  match k with T_EOF | T_NEWLINE | T_OP OP_AMP => true | _ => false end.

Abbreviation PL := (parse_list_inner expand fuel).

Definition Pcmd (c : cmd) : Prop := cmd_ok c = true -> forall d, (length (show c) <= d)%nat ->
  parses fuel ends_cmd (parse_command expand fuel (PL d)) (show c) (Some (ctree c)).

Definition Pels (x : els) : Prop := els_ok x = true -> forall d n c, (length (eshow x) <= d)%nat ->
  (length (eshow x) <= n)%nat -> c_redirs c = [] ->
  parses fuel ends_cmd (if_rest expand fuel (PL d) (parse_if_tail expand fuel (PL d) n) c) (eshow x)
    (Some (eltree c x)).

Definition Parms (a : arms) : Prop := arms_ok a = true -> forall d n c, (length (arshow a) <= d)%nat ->
  (length (arshow a) < n)%nat ->
  parses fuel (fun _ => true) (loop n (case_step fuel (PL d)) c) (arshow a ++ [T_NEWLINE; kw (cs "esac")])
    (fold_left add_list (artrees a) c).

Definition Ppipe (p : pipe) : Prop := pipe_ok p = true -> forall d, (length (pshow p) <= d)%nat ->
  parses fuel ends_pipe (parse_pipeline expand fuel (PL d)) (pshow p) (Some (ptree p)).

Definition Pstages (x : stages) : Prop := stages_ok x = true -> forall d n c, (length (sshow x) <= d)%nat ->
  (length (sshow x) < n)%nat ->
  parses fuel ends_pipe (loop n (pipeline_step expand fuel (PL d)) c) (sshow x) (fold_left add_list (strees x) c).

Definition Pao (a : ao) : Prop := ao_ok a = true -> forall d, (length (ashow a) <= d)%nat ->
  parses fuel ends_ao (parse_and_or expand fuel (PL d)) (ashow a) (Some (atree a)).

Definition Paor (r : aor) : Prop := aor_ok r = true -> forall d n c, (length (rshow r) <= d)%nat ->
  (length (rshow r) < n)%nat ->
  parses fuel ends_ao (loop n (and_or_step expand fuel (PL d)) c) (rshow r) (rtrees c r).

(** The newline that ended the command before. *)
Definition nl (pre : list Tok) : Prop := pre = [] \/ pre = [T_NEWLINE].

Definition Plst (l : lst) : Prop := lst_ok l = true -> forall d stop n h pre, (length (lshow l) <= d)%nat ->
  (length (lshow l) < n)%nat -> stop <> STOP_IN -> nl pre ->
  parses fuel (ends_list stop) (loop n (list_step expand fuel (PL d) stop) h) (pre ++ lshow l)
    (seq_of h (litems l)).

Ltac len := repeat (progress (rewrite ?length_app in *; cbn [length] in *)); lia.

Lemma plist_parses l d stop : Plst l -> lst_ok l = true -> stop <> STOP_IN -> (length (lshow l) < d)%nat ->
  parses fuel (ends_list stop) (PL d stop) (lshow l) (ltree l).
Proof.
  intros Hl Hok Hstop Hd. destruct d as [|d]; [lia|].
  change (PL (S d) stop) with (loop fuel (list_step expand fuel (PL d) stop) None).
  intros e s b rest Hst Hfo Hf. apply (Hl Hok d stop fuel None [] ltac:(lia) ltac:(len) Hstop (or_introl eq_refl) e s b rest Hst Hfo Hf).
Qed.

(** The parts of a hypothesis on the tokens of a command, one behind the other. *)
Ltac flat H :=
  cbn [show eshow arshow pshow sshow ashow rshow lshow] in H;
  repeat (progress (cbn [app] in H; rewrite <- ?app_assoc in H)).

Lemma simple_parses args rs : Pcmd (SimpleC args rs).
Proof.
  intros Hok d Hd e s b rest Hst Hend Hf.
  destruct (show_first (SimpleC args rs) Hok) as (k & ks & Hk & _).
  cbn [cmd_ok] in Hok. pose proof Hok as Hok'. unfold simple_ok in Hok'.
  apply andb_prop in Hok' as [[[[Hargs Hrs]%andb_prop Hne]%andb_prop Hs]%andb_prop Hlast].
  unfold parse_command. rstep. eapply st_PEEK; [exact Hst|]. clear Hst. intros s1 Hst.
  assert (Hkw : forall n, In n keywords -> is_keyword k n = false).
  { intros n Hn. cbn [show] in Hk. destruct args as [|w args]; simpl in Hk.
    - destruct rs; [done|]. by injection Hk as <- _.
    - injection Hk as <- _. by apply starts_keyword. }
  assert (Hop : is_op k OP_LBRACE = false /\ is_op k OP_LPAREN = false).
  { cbn [show] in Hk. destruct args as [|w args]; simpl in Hk.
    - destruct rs as [|r rs]; [done|]. injection Hk as <- _. by destruct r as [[] t].
    - by injection Hk as <- _. }
  destruct Hop as [Hlb Hlp]. rewrite Hk in *. cbn [app nth].
  rewrite (Hkw (cs "if")), (Hkw (cs "while")), (Hkw (cs "until")), (Hkw (cs "for")), (Hkw (cs "case")),
    (Hkw (cs "[[")), Hlb, Hlp by (simpl; tauto).
  rewrite <- Hk in *. cbn [show] in Hst. rewrite <- app_assoc in Hst. unfold parse_simple.
  eapply runs_weaken.
  { eapply (simple_args_parses _ args rs); [exact Hargs|exact Hrs|intros _; exact Hs|exact Hlast|exact Hst|exact Hend|].
    assert (Hl : (length args + length rs <= length (show (SimpleC args rs)))%nat).
    { cbn [show]. rewrite length_app, length_map. clear. induction rs; simpl; lia. }
    len. }
  intros x s2 [-> [b2 Hst2]]. split; [|by eauto]. unfold simple_end. cbn [c_redirs c_argv cmd_new app ctree].
  rewrite !length_map. apply negb_true_iff in Hne.
  destruct (length args =? 0)%nat eqn:Ha, (length rs =? 0)%nat eqn:Hr; try done.
Qed.

(** A part of a command, by the lemma on it; then on with the rest. *)
Ltac part lem :=
  lazymatch goal with
  | H : st _ ?s _ _ |- runs _ ?s _ =>
      eapply use_parses;
      [ eapply lem; first [done | len] | exact H | first [done | fail 1] | len
      | clear H; intros ? ? H; cbn beta iota; repeat rstep ]
  end.

Lemma group_parses l rs : Plst l -> Pcmd (GroupC l rs).
Proof.
  intros Hl Hok d Hd e s b rest Hst Hend Hf. cbn [cmd_ok] in Hok. apply andb_prop in Hok as [Hlok Hrs].
  flat Hst. flat Hf. flat Hd. unfold parse_command. repeat rstep.
  part (plist_parses l). part close_parses. part (trailing_redirs_parses (PL d) rs). split; [done|by eauto].
Qed.

Lemma while_parses u cond body rs : Plst cond -> Plst body -> Pcmd (WhileC u cond body rs).
Proof.
  intros Hc Hb Hok d Hd e s b rest Hst Hend Hf. cbn [cmd_ok] in Hok.
  apply andb_prop in Hok as [[Hcok Hbok]%andb_prop Hrs].
  flat Hst. flat Hf. flat Hd. unfold parse_command.
  assert (Hgo : forall s' b', st e s' b' (lshow cond ++ kw (cs "do") :: lshow body ++ kw (cs "done") :: flat_map show_trd rs ++ rest) ->
    runs (parse_while expand fuel (PL d) u) s'
      (fun r s' => r = Some (ctree (WhileC u cond body rs)) /\ exists b', st e s' b' rest)).
  { clear s b Hst. intros s b Hst. unfold parse_while. repeat rstep.
    part (plist_parses cond). part expect_parses. part (plist_parses body). part expect_parses.
    part (trailing_redirs_parses (PL d) rs). split; [done|by eauto]. }
  destruct u; repeat rstep; by eapply Hgo.
Qed.

(** From the condition of a branch to the end of the command. *)
Lemma if_tail_parses cond body x d n : Plst cond -> Plst body -> Pels x ->
  lst_ok cond = true -> lst_ok body = true -> els_ok x = true ->
  (length (lshow cond ++ [kw (cs "then")] ++ lshow body ++ eshow x) < d)%nat -> (length (eshow x) < n)%nat ->
  parses fuel ends_cmd (parse_if_tail expand fuel (PL d) n)
    (lshow cond ++ [kw (cs "then")] ++ lshow body ++ eshow x)
    (Some (eltree (set_right (set_left (cmd_new C_IF) (ltree cond)) (ltree body)) x)).
Proof.
  intros Hc Hb Hx Hcok Hbok Hxok Hd Hn e s b rest Hst Hend Hf. destruct n as [|n]; [lia|].
  flat Hst. flat Hf. cbn [parse_if_tail]. repeat rstep.
  part (plist_parses cond). part expect_parses.
  assert (Hfo : ends_list STOP_BODY (nth 0 (eshow x ++ rest) T_EOF) = true) by (by destruct x).
  eapply use_parses; [eapply (plist_parses body); first [done | len]|exact Hst|exact Hfo|len|].
  clear Hst. intros s1 b1 Hst. cbn beta.
  eapply use_parses; [apply Hx; first [done | len]|exact Hst|exact Hend|len|].
  intros s2 b2 Hst2. by eauto.
Qed.

Lemma if_parses cond body x : Plst cond -> Plst body -> Pels x -> Pcmd (IfC cond body x).
Proof.
  intros Hc Hb Hx Hok d Hd e s b rest Hst Hend Hf. cbn [cmd_ok] in Hok.
  apply andb_prop in Hok as [[Hcok Hbok]%andb_prop Hxok].
  flat Hst. flat Hf. flat Hd. unfold parse_command. repeat rstep.
  eapply (if_tail_parses cond body x d fuel); try done; try len. flat Hst.
  rewrite <- !app_assoc. exact Hst.
Qed.

Lemma noelse_parses rs : Pels (NoElse rs).
Proof.
  intros Hrs d n c Hd Hn Hc e s b rest Hst Hend Hf. flat Hst. flat Hf. unfold if_rest. repeat rstep.
  part expect_parses. part (trailing_redirs_parses (PL d) rs). rewrite Hc. split; [done|by eauto].
Qed.

Lemma else_parses l rs : Plst l -> Pels (ElseE l rs).
Proof.
  intros Hl Hok d n c Hd Hn Hc e s b rest Hst Hend Hf. cbn [els_ok] in Hok. apply andb_prop in Hok as [Hlok Hrs].
  flat Hst. flat Hf. flat Hd. unfold if_rest. repeat rstep.
  part (plist_parses l). part expect_parses. part (trailing_redirs_parses (PL d) rs).
  cbn [set_init c_redirs]. rewrite Hc. split; [done|by eauto].
Qed.

Lemma elif_parses cond body x : Plst cond -> Plst body -> Pels x -> Pels (ElifE cond body x).
Proof.
  intros Hc Hb Hx Hok d n c Hd Hn Hcr e s b rest Hst Hend Hf. cbn [els_ok] in Hok.
  apply andb_prop in Hok as [[Hcok Hbok]%andb_prop Hxok].
  flat Hst. flat Hf. flat Hd. flat Hn. unfold if_rest. repeat rstep.
  eapply use_parses; [eapply (if_tail_parses cond body x d n); first [done | len]| |exact Hend|len|].
  - flat Hst. rewrite <- !app_assoc. exact Hst.
  - intros s2 b2 Hst2. cbn beta. repeat rstep. by eauto.
Qed.

Definition not_nl (k : Tok) : bool := negb (bool_decide (k = T_NEWLINE)).

Lemma skip_nl_none : parses fuel not_nl (skip_nl fuel) [] tt.
Proof.
  intros e s b rest Hst Hfo Hf. unfold skip_nl. destruct fuel as [|f]; [lia|]. apply runs_again.
  rstep. rstep. cbn [app] in *. destruct (nth 0 rest T_EOF); try done; rstep; by eauto.
Qed.

Lemma skip_nl_one : parses fuel not_nl (skip_nl fuel) [T_NEWLINE] tt.
Proof.
  intros e s b rest Hst Hfo Hf. unfold skip_nl. destruct fuel as [|[|f]]; [simpl in Hf; lia..|].
  apply runs_again. repeat rstep. apply runs_again. rstep. rstep.
  destruct (nth 0 rest T_EOF); try done; rstep; by eauto.
Qed.

(** The words of a list of words. *)
Lemma for_words_parses ws c e s b rest n :
  forallb (fun w => word_ok w && negb (is_reserved (Some w) (cs "do"))) ws = true ->
  st e s b (map word ws ++ T_NEWLINE :: rest) -> (length ws < n)%nat ->
  runs (loop n (fun c =>
    q ← PEEK;
    if negb (is_word q) || is_reserved (tok_word q) (cs "do") then leave c
    else w ← TAKE; _ ← NEXT; again (add_word c w)) c) s
    (fun r s' => r = mkCmd (c_type c) (c_argv c) (c_redirs c) (c_left c) (c_right c) (c_list c) (c_text c) (c_name c)
                       (c_init c) (c_words c ++ ws) /\ exists b', st e s' b' (T_NEWLINE :: rest)).
Proof.
  revert c s b n. induction ws as [|w ws IH]; intros c s b n Hok Hst Hn;
    (destruct n as [|n]; [simpl in Hn; lia|]); apply runs_again; cbn [map app] in Hst.
  - repeat rstep. split; [|by eauto]. destruct c; simpl. by rewrite app_nil_r.
  - cbn [forallb] in Hok. apply andb_prop in Hok as [[_ Hw]%andb_prop Hok]. apply negb_true_iff in Hw.
    repeat rstep. change (is_reserved (tok_word (word w)) (cs "do")) with (is_reserved (Some w) (cs "do")).
    rewrite Hw. repeat rstep.
    eapply runs_weaken; [eapply IH; [done|exact Hst|simpl in Hn; lia]|].
    intros x s2 [-> [b2 Hst2]]. split; [|by eauto]. simpl. by rewrite <- app_assoc.
Qed.

Lemma for_parses name ws body rs : Plst body -> Pcmd (ForC name ws body rs).
Proof.
  intros Hb Hok d Hd e s b rest Hst Hend Hf. cbn [cmd_ok] in Hok.
  apply andb_prop in Hok as [[[[Hnok Hname]%andb_prop Hws]%andb_prop Hbok]%andb_prop Hrs].
  flat Hst. flat Hf. flat Hd. unfold parse_command. repeat rstep. unfold parse_for. repeat rstep.
  unfold for_words.
  assert (Hlw : length (map word ws) = length ws) by apply length_map.
  eapply runs_weaken; [eapply (for_words_parses ws); [done|exact Hst|len]|].
  clear Hst. intros c s2 [-> [b2 Hst]]. cbn [c_type c_argv c_redirs c_left c_right c_list c_text c_name c_init c_words].
  unfold for_body, skip_op. repeat rstep. part skip_nl_one. unfold for_brace_body. repeat rstep.
  part expect_parses. part (plist_parses body). part expect_parses. part (trailing_redirs_parses (PL d) rs).
  split; [done|by eauto].
Qed.

Lemma test_parses ws : Pcmd (TestC ws).
Proof.
  intros Hok d Hd e s b rest Hst Hend Hf. cbn [cmd_ok] in Hok. flat Hst. flat Hf.
  unfold parse_command. repeat rstep. unfold parse_dblbracket. rstep.
  assert (Hlw : length (map word ws) = length ws) by apply length_map.
  assert (Hl : forall n c s b, st e s b (map word ws ++ kw (cs "]]") :: rest) -> (length ws < n)%nat ->
    runs (loop n test_step c) s (fun r s' => r = mkCmd (c_type c) (c_argv c) (c_redirs c) (c_left c) (c_right c)
      (c_list c) (c_text c) (c_name c) (c_init c) (c_words c ++ ws) /\ exists b', st e s' b' rest)).
  { clear s b Hst Hf Hlw Hd. induction ws as [|w ws IH]; intros n c s b Hst Hn;
      (destruct n as [|n]; [simpl in Hn; lia|]); apply runs_again; cbn [map app] in Hst; unfold test_step.
    - repeat rstep. split; [|by eauto]. destruct c; simpl. by rewrite app_nil_r.
    - cbn [forallb] in Hok. apply andb_prop in Hok as [[_ Hw]%andb_prop Hok]. apply negb_true_iff in Hw.
      assert (Hk : is_keyword (word w) (cs "]]") = false) by exact Hw. repeat rstep.
      eapply runs_weaken; [eapply IH; [done|exact Hst|simpl in Hn; lia]|].
      intros x s2 [-> [b2 Hst2]]. split; [|by eauto]. simpl. by rewrite <- app_assoc. }
  eapply runs_weaken; [eapply Hl; [exact Hst|len]|]. intros x s2 [-> [b2 Hst2]]. repeat rstep. by eauto.
Qed.

(** The patterns of an arm, the first word taken already or not. *)
Lemma patterns_parses ps w item pat e s b rest n : st e s b (word w :: flat_map (fun w => [T_OP OP_PIPE; word w]) ps ++ T_OP OP_RPAREN :: rest) ->
  (length ps + 1 < n)%nat ->
  runs (loop n (fun '(item, patterns) =>
    p ← PEEK;
    if is_op p OP_RPAREN then _ ← NEXT; leave (item, patterns)
    else if negb (is_word p) then leave (item, patterns)
    else
      w ← TAKE; _ ← NEXT;
      _ ← skip_op OP_PIPE;
      again (add_word item w, true)) (item, pat)) s
    (fun r s' => r = (mkCmd (c_type item) (c_argv item) (c_redirs item) (c_left item) (c_right item) (c_list item)
                        (c_text item) (c_name item) (c_init item) (c_words item ++ w :: ps), true) /\
                 exists b', st e s' b' rest).
Proof.
  revert w item pat s b n. induction ps as [|w' ps IH]; intros w item pat s b n Hst Hn;
    (destruct n as [|n]; [simpl in Hn; lia|]); apply runs_again; cbn [flat_map app] in Hst;
    repeat rstep; unfold skip_op; repeat rstep.
  - destruct n as [|n]; [simpl in Hn; lia|]. apply runs_again. repeat rstep. by eauto.
  - eapply runs_weaken; [eapply IH; [exact Hst|simpl in Hn; lia]|].
    intros x s2 [-> [b2 Hst2]]. split; [|by eauto]. simpl. by rewrite <- app_assoc.
Qed.

(** A newline, and the token behind it. *)
Lemma skip_sep_one e s b k rest Q : st e s b (T_NEWLINE :: k :: rest) -> not_nl k = true -> is_op k OP_SEMI = false ->
  (1 < fuel)%nat -> (forall s', st e s' true (k :: rest) -> Q k s') -> runs (skip_sep fuel) s Q.
Proof.
  intros Hst Hnl Hsemi Hf HQ. unfold skip_sep. destruct fuel as [|[|f]]; [lia..|].
  apply runs_again. repeat rstep. apply runs_again. rstep. rstep. rewrite Hsemi.
  unfold not_nl in Hnl. apply negb_true_iff in Hnl. rewrite Hnl. cbn [orb]. repeat rstep. by apply HQ.
Qed.

Lemma anil_parses : Parms ANil.
Proof.
  intros _ d n c Hd Hn e s b rest Hst _ Hf. destruct n as [|n]; [simpl in Hn; lia|]. apply runs_again.
  flat Hst. unfold case_step at 1. rstep. eapply skip_sep_one; [exact Hst|done|done|len|].
  clear Hst. intros s1 Hst. repeat rstep. by eauto.
Qed.

Lemma acons_parses p ps body a : Plst body -> Parms a -> Parms (ACons p ps body a).
Proof.
  intros Hb Ha Hok d n c Hd Hn e s b rest Hst _ Hf. cbn [arms_ok] in Hok.
  apply andb_prop in Hok as [[[Hps Hesac]%andb_prop Hbok]%andb_prop Haok]. apply negb_true_iff in Hesac.
  assert (Hk : is_keyword (word p) (cs "esac") = false) by exact Hesac.
  assert (Hlp : (length ps <= length (flat_map (fun w => [T_OP OP_PIPE; word w]) ps))%nat)
    by (clear; induction ps; simpl; lia).
  destruct n as [|n]; [simpl in Hn; lia|]. apply runs_again.
  flat Hst. flat Hf. flat Hd. flat Hn. unfold case_step at 1. rstep.
  eapply skip_sep_one; [exact Hst|done|done|len|]. clear Hst. intros s1 Hst. repeat rstep.
  unfold case_patterns. eapply runs_weaken; [eapply (patterns_parses ps); [exact Hst|len]|].
  clear Hst. intros x s2 [-> [b2 Hst]]. cbn beta iota. repeat rstep.
  part (plist_parses body).
  assert (Hgo : parses fuel (fun _ => true) (loop n (case_step fuel (PL d))
    (add_list c (set_right (mkCmd C_CASE [] [] None None [] [] None None (p :: ps)) (ltree body))))
    (arshow a ++ [T_NEWLINE; kw (cs "esac")])
    (fold_left add_list (artrees (ACons p ps body a)) c)) by (apply Ha; first [done | len]).
  eapply Hgo; [|done|len]. rewrite <- app_assoc. exact Hst.
Qed.

Lemma case_parses w a rs : Parms a -> Pcmd (CaseC w a rs).
Proof.
  intros Ha Hok d Hd e s b rest Hst Hend Hf. cbn [cmd_ok] in Hok.
  apply andb_prop in Hok as [[_ Haok]%andb_prop Hrs].
  flat Hst. flat Hf. flat Hd. unfold parse_command. repeat rstep. unfold parse_case. repeat rstep.
  part expect_parses.
  apply (use_parses (fun _ => true) _ (arshow a ++ [T_NEWLINE; kw (cs "esac")])
    (fold_left add_list (artrees a) (set_name (cmd_new C_CASE) (Some w))) e _ b' (flat_map show_trd rs ++ rest)).
  - apply Ha; [done|len|len].
  - rewrite <- app_assoc. exact Hst.
  - done.
  - len.
  - clear Hst. intros s1 b1 Hst. cbn beta. repeat rstep.
    assert (Hc : forall l c, c_redirs (fold_left add_list l c) = c_redirs c).
    { clear. induction l as [|x l IH]; intros c; simpl; [done|]. by rewrite IH. }
    part (trailing_redirs_parses (PL d) rs). rewrite Hc. split; [done|by eauto].
Qed.

(** *** Pipelines, chains and lists *)

Lemma cmd_not_nl c rest : cmd_ok c = true -> not_nl (nth 0 (show c ++ rest) T_EOF) = true.
Proof.
  intros Hok. destruct (show_first c Hok) as (k & ks & -> & Hk). unfold begins in Hk.
  repeat (apply andb_prop in Hk as [Hk _]). exact Hk.
Qed.

Lemma snil_parses : Pstages SNil.
Proof.
  intros _ d n c Hd Hn e s b rest Hst Hend Hf. destruct n as [|n]; [simpl in Hn; lia|]. apply runs_again.
  unfold pipeline_step at 1. rstep. rstep. cbn [app sshow] in *. unfold ends_pipe in Hend.
  apply andb_prop in Hend as [_ Hp%negb_true_iff]. rewrite Hp. repeat rstep. by eauto.
Qed.

Lemma stages_follow x rest : ends_pipe (nth 0 rest T_EOF) = true -> ends_cmd (nth 0 (sshow x ++ rest) T_EOF) = true.
Proof. unfold ends_pipe. destruct x; simpl; [by intros [-> _]%andb_prop|done]. Qed.

Lemma scons_parses c x : Pcmd c -> Pstages x -> Pstages (SCons c x).
Proof.
  intros Hc Hx Hok d n p Hd Hn e s b rest Hst Hend Hf. cbn [stages_ok] in Hok. apply andb_prop in Hok as [Hcok Hxok].
  destruct n as [|n]; [simpl in Hn; lia|]. apply runs_again. flat Hst. flat Hf. flat Hd. flat Hn.
  unfold pipeline_step at 1. repeat rstep.
  eapply use_parses; [apply skip_nl_none|exact Hst|by apply cmd_not_nl|len|].
  clear Hst. intros s1 b1 Hst. cbn beta. repeat rstep.
  eapply use_parses; [apply (Hc Hcok d); len|exact Hst|by apply stages_follow|len|].
  clear Hst. intros s2 b2 Hst. cbn beta iota. repeat rstep.
  eapply (Hx Hxok d n); [len..|exact Hst|exact Hend|len].
Qed.

Lemma pipe_parses c x : Pcmd c -> Pstages x -> Ppipe (Pipe c x).
Proof.
  intros Hc Hx Hok d Hd e s b rest Hst Hend Hf. cbn [pipe_ok] in Hok. apply andb_prop in Hok as [Hcok Hxok].
  flat Hst. flat Hf. flat Hd. unfold parse_pipeline. rstep.
  eapply use_parses; [apply (Hc Hcok d); len|exact Hst|by apply stages_follow|len|].
  clear Hst. intros s2 b2 Hst. cbn beta iota. rstep. rstep.
  destruct x as [|c' x]; cbn [sshow app nth] in *.
  - unfold ends_pipe in Hend. apply andb_prop in Hend as [_ Hp%negb_true_iff]. rewrite Hp. repeat rstep. by eauto.
  - repeat rstep. eapply use_parses; [apply (Hx Hxok d fuel); cbn [sshow app]; len|exact Hst|exact Hend| |].
    + cbn [sshow app]. len.
    + intros s3 b3 Hst3. cbn beta. repeat rstep. by eauto.
Qed.

Lemma rnil_parses : Paor RNil.
Proof.
  intros _ d n c Hd Hn e s b rest Hst Hend Hf. destruct n as [|n]; [simpl in Hn; lia|]. apply runs_again.
  unfold and_or_step at 1. rstep. rstep. cbn [app rshow] in *.
  destruct (nth 0 rest T_EOF) as [| | |[]]; try done; rstep; by eauto.
Qed.

Lemma aor_follow r rest : ends_ao (nth 0 rest T_EOF) = true -> ends_pipe (nth 0 (rshow r ++ rest) T_EOF) = true.
Proof. destruct r as [|[] p r]; simpl; [|done..]. by destruct (nth 0 rest T_EOF) as [| | |[]]. Qed.

Lemma rcons_parses isand p r : Ppipe p -> Paor r -> Paor (RCons isand p r).
Proof.
  intros Hp Hr Hok d n c Hd Hn e s b rest Hst Hend Hf. cbn [aor_ok] in Hok. apply andb_prop in Hok as [Hpok Hrok].
  destruct n as [|n]; [simpl in Hn; lia|]. apply runs_again. flat Hst. flat Hf. flat Hd. flat Hn.
  assert (Hnl : not_nl (nth 0 (pshow p ++ rshow r ++ rest) T_EOF) = true).
  { destruct p as [c' x]. cbn [pshow pipe_ok] in *. apply andb_prop in Hpok as [Hc' _].
    rewrite <- app_assoc. by apply cmd_not_nl. }
  unfold and_or_step at 1.
  destruct isand; repeat rstep;
    (eapply use_parses; [apply skip_nl_none|exact Hst|exact Hnl|len|]);
    clear Hst; intros s1 b1 Hst; cbn beta; repeat rstep;
    (eapply use_parses; [apply (Hp Hpok d); len|exact Hst|by apply aor_follow|len|]);
    clear Hst; intros s2 b2 Hst; cbn beta iota; repeat rstep;
    (eapply (Hr Hrok d n); [len..|exact Hst|exact Hend|len]).
Qed.

Lemma ao_parses p r : Ppipe p -> Paor r -> Pao (AndOr p r).
Proof.
  intros Hp Hr Hok d Hd e s b rest Hst Hend Hf. cbn [ao_ok] in Hok. apply andb_prop in Hok as [Hpok Hrok].
  flat Hst. flat Hf. flat Hd. unfold parse_and_or. rstep.
  eapply use_parses; [apply (Hp Hpok d); len|exact Hst|by apply aor_follow|len|].
  clear Hst. intros s2 b2 Hst. cbn beta iota. repeat rstep.
  eapply use_parses; [apply (Hr Hrok d fuel); len|exact Hst|exact Hend|len|].
  intros s3 b3 Hst3. cbn beta. repeat rstep. by eauto.
Qed.

(** Nothing but that newline is skipped before a token that is no separator. *)
Lemma skip_list_sep_parses e s b pre ks Q : st e s b (pre ++ ks) -> nl pre ->
  bool_decide (nth 0 ks T_EOF = T_NEWLINE) || is_op (nth 0 ks T_EOF) OP_SEMI || is_op (nth 0 ks T_EOF) OP_AMP = false ->
  (length pre < fuel)%nat -> (forall s', st e s' true ks -> Q (nth 0 ks T_EOF) s') -> runs (skip_list_sep fuel) s Q.
Proof.
  intros Hst Hpre Hsep Hf HQ. unfold skip_list_sep. destruct fuel as [|f]; [lia|].
  destruct Hpre as [->| ->]; cbn [app length] in *; apply runs_again.
  - rstep. rstep. rewrite Hsep. repeat rstep. by apply HQ.
  - repeat rstep. destruct f as [|f]; [lia|]. apply runs_again. rstep. rstep. rewrite Hsep. repeat rstep. by apply HQ.
Qed.

Lemma lnil_parses : Plst LNil.
Proof.
  intros _ d stop n h pre Hd Hn Hstop Hpre e s b rest Hst Hend Hf. destruct n as [|n]; [simpl in Hn; lia|].
  apply runs_again. unfold list_step at 1. rstep. rewrite <- app_assoc in Hst. cbn [app lshow] in *.
  eapply skip_list_sep_parses; [exact Hst|done| |len|].
  { clear -Hend. unfold ends_list in Hend. destruct (nth 0 rest T_EOF) as [| | |[]]; try done; by destruct stop. }
  clear Hst. intros s1 Hst. rewrite Hend. rstep. by eauto.
Qed.

Lemma ao_first a rest : ao_ok a = true -> begins (nth 0 (ashow a ++ rest) T_EOF) = true.
Proof.
  destruct a as [[c x] r]. cbn [ao_ok pipe_ok ashow pshow]. intros [[Hc _]%andb_prop _]%andb_prop.
  destruct (show_first c Hc) as (k & ks & -> & Hk). done.
Qed.

Lemma begins_list k stop : begins k = true -> stop <> STOP_IN -> ends_list stop k = false.
Proof.
  unfold begins. intros [_ H]%andb_prop Hs. cbn [forallb] in H.
  repeat (apply andb_prop in H as [?%negb_true_iff H]). by destruct stop.
Qed.

Lemma begins_sep k : begins k = true -> bool_decide (k = T_NEWLINE) || is_op k OP_SEMI || is_op k OP_AMP = false.
Proof.
  unfold begins. intros [[[H1 H2]%andb_prop H3]%andb_prop _]%andb_prop.
  by rewrite (proj1 (negb_true_iff _) H1), (proj1 (negb_true_iff _) H2), (proj1 (negb_true_iff _) H3).
Qed.

Lemma seq_of_cons h x l : seq_of (Some (add_list (default (cmd_new C_SEQ) h) x)) l = seq_of h (x :: l).
Proof. by destruct l. Qed.

Lemma lcons_parses a bg l : Pao a -> Plst l -> Plst (LCons a bg l).
Proof.
  intros Ha Hl Hok d stop n h pre Hd Hn Hstop Hpre e s b rest Hst Hend Hf. cbn [lst_ok] in Hok.
  apply andb_prop in Hok as [Haok Hlok].
  destruct n as [|n]; [simpl in Hn; lia|]. apply runs_again. flat Hst. flat Hf. flat Hd. flat Hn.
  pose proof (ao_first a ((if bg then [T_OP OP_AMP] else []) ++ T_NEWLINE :: lshow l ++ rest) Haok) as Hfirst.
  unfold list_step at 1. rstep. eapply skip_list_sep_parses; [exact Hst|done|by apply begins_sep|len|].
  clear Hst. intros s1 Hst. rewrite (begins_list _ _ Hfirst Hstop). cbn beta iota. rstep.
  eapply use_parses; [apply (Ha Haok d); len|exact Hst|by destruct bg|len|].
  clear Hst. intros s2 b2 Hst. cbn beta iota.
  assert (Hgo : forall x s3 b3, st e s3 b3 ([T_NEWLINE] ++ lshow l ++ rest) ->
    runs (loop n (list_step expand fuel (PL d) stop) (Some (add_list (default (cmd_new C_SEQ) h) x))) s3
      (fun r s' => r = seq_of h (x :: litems l) /\ exists b', st e s' b' rest)).
  { clear s b s1 s2 b2 Hst. intros x s b Hst. rewrite <- seq_of_cons. rewrite app_assoc in Hst.
    apply (Hl Hlok d stop n _ [T_NEWLINE] ltac:(len) ltac:(len) Hstop (or_intror eq_refl) e s b rest Hst Hend).
    len. }
  destruct bg; cbn [app] in Hst; repeat rstep; by eapply Hgo.
Qed.

(** Every part of the grammar is read as its tree. *)
Lemma script_parses :
  (forall c, Pcmd c) /\ (forall x, Pels x) /\ (forall a, Parms a) /\ (forall p, Ppipe p) /\
  (forall x, Pstages x) /\ (forall a, Pao a) /\ (forall r, Paor r) /\ (forall l, Plst l).
Proof.
  apply script_mut; intros;
    eauto using simple_parses, group_parses, if_parses, while_parses, for_parses, case_parses, test_parses,
      noelse_parses, else_parses, elif_parses, anil_parses, acons_parses, pipe_parses, snil_parses, scons_parses,
      ao_parses, rnil_parses, rcons_parses, lnil_parses, lcons_parses.
Qed.
End Parses.

(** The tokens of a list, and nothing else, give its tree and say nothing. *)
Lemma parse_prints expand fuel l k0 : lst_ok l = true -> (length (lshow l) + 1 < fuel)%nat ->
  exists s', parse_list expand fuel (parse_start (mkTL k0 false (lshow l))) = Some (ltree l, s') /\
    ps_err s' = [] /\ ps_funcs s' = [] /\ ps_docs s' = ∅.
Proof.
  intros Hok Hf. destruct (script_parses expand fuel) as (_ & _ & _ & _ & _ & _ & _ & Hl).
  destruct (plist_parses expand fuel l fuel STOP_ANY (Hl l) Hok ltac:(done) ltac:(lia)
    ([], [], ∅, 0%nat) (parse_start (mkTL k0 false (lshow l))) false []) as (r & s' & Hr & -> & b' & Hs').
  - unfold st, rem, side. simpl. by rewrite app_nil_r.
  - done.
  - rewrite app_nil_r. lia.
  - exists s'. split; [done|]. destruct Hs' as (_ & _ & Hs'). unfold side in Hs'. by simplify_eq.
Qed.

(** What stands behind [&] on its line is not read. *)
Lemma background_parses expand fuel a k ks k0 : ao_ok a = true ->
  bool_decide (k = T_NEWLINE) || is_op k OP_SEMI || is_op k OP_AMP = false ->
  (length (ashow a ++ T_OP OP_AMP :: k :: ks) + 1 < fuel)%nat ->
  exists s', parse_list expand fuel (parse_start (mkTL k0 false (ashow a ++ T_OP OP_AMP :: k :: ks))) =
      Some (Some (add_list (cmd_new C_SEQ) (set_left (cmd_new C_BG) (Some (atree a)))), s') /\
    ps_err s' = [] /\ rem s' = k :: ks.
Proof.
  intros Hok Hk Hf. destruct (script_parses expand fuel) as (_ & _ & _ & _ & _ & Ha & _).
  unfold parse_list. destruct fuel as [|d] eqn:Hfuel; [lia|]. rewrite <- Hfuel in *.
  assert (Hsep : is_op k OP_SEMI || is_op k OP_AMP || bool_decide (k = T_NEWLINE) = false).
  { rewrite orb_comm, orb_assoc. exact Hk. }
  pose proof (ao_first a (T_OP OP_AMP :: k :: ks) Hok) as Hfirst.
  set (s0 := parse_start _). assert (Hst : st ([], [], ∅, 0%nat) s0 false (ashow a ++ T_OP OP_AMP :: k :: ks)) by done.
  clearbody s0. replace (parse_list_inner expand fuel fuel STOP_ANY)
    with (loop (S d) (list_step expand fuel (parse_list_inner expand fuel d) STOP_ANY) None) by (by rewrite Hfuel).
  assert (Hr : runs (loop (S d) (list_step expand fuel (parse_list_inner expand fuel d) STOP_ANY) None) s0
    (fun r s' => r = Some (add_list (cmd_new C_SEQ) (set_left (cmd_new C_BG) (Some (atree a)))) /\
      st ([], [], ∅, 0%nat) s' true (k :: ks))).
  { apply runs_again. unfold list_step at 1. rstep.
    eapply (skip_list_sep_parses fuel _ _ _ []); [exact Hst|by left|by apply begins_sep|simpl; lia|].
    clear Hst. intros s1 Hst. rewrite (begins_list _ _ Hfirst) by done. cbn beta iota. rstep.
    eapply use_parses; [apply (Ha a Hok d)|exact Hst|done|lia|].
    { rewrite length_app in Hf. simpl in Hf. lia. }
    clear Hst. intros s2 b2 Hst. cbn beta iota. repeat rstep. by split. }
  destruct Hr as (r & s' & Hr & -> & Hs & _ & Hside). exists s'. split; [done|]. split; [|done].
  unfold side in Hside. by simplify_eq.
Qed.

(** ** Every token of a script can be printed *)

Abbreviation printable ks := (forallb tok_ok ks = true).

Lemma printable_app ks1 ks2 : printable (ks1 ++ ks2) <-> printable ks1 /\ printable ks2.
Proof. rewrite forallb_app. apply andb_true_iff. Qed.

Lemma printable_words (P : Word -> bool) ws : (forall w, P w = true -> word_ok w = true) ->
  forallb P ws = true -> printable (map word ws).
Proof.
  intros HP. induction ws as [|w ws IH]; [done|]. cbn [forallb map]. intros [Hw%HP Hws%IH]%andb_prop.
  by apply andb_true_intro.
Qed.

Lemma printable_flat {A} (P : A -> bool) (f : A -> list Tok) xs : (forall x, P x = true -> printable (f x)) ->
  forallb P xs = true -> printable (flat_map f xs).
Proof.
  intros HP. induction xs as [|x xs IH]; [done|]. cbn [forallb flat_map]. intros [Hx%HP Hxs%IH]%andb_prop.
  by apply printable_app.
Qed.

Lemma printable_rd r : rd_ok r = true -> printable (show_rd r).
Proof. unfold rd_ok. intros [_ Hw]%andb_prop. cbn. by rewrite Hw. Qed.

Lemma printable_trd r : trd_ok r = true -> printable (show_trd r).
Proof.
  unfold trd_ok, show_trd. destruct r as [[d|] r]; cbn [trd_fd trd_to]; intros [Hd Hr%printable_rd]%andb_prop; [|done].
  apply printable_app. split; [|done]. assert (Hrange : 0 <= d <= 9) by lia.
  assert (Hd' : d = 0 \/ d = 1 \/ d = 2 \/ d = 3 \/ d = 4 \/ d = 5 \/ d = 6 \/ d = 7 \/ d = 8 \/ d = 9) by lia.
  by destruct_or? Hd'; subst.
Qed.

Lemma printable_simple args rs : simple_ok args rs = true -> printable (map word args ++ flat_map show_rd rs).
Proof.
  unfold simple_ok. intros [[[[Ha Hr]%andb_prop _]%andb_prop _]%andb_prop _]%andb_prop. apply printable_app. split.
  - eapply printable_words, Ha. unfold arg_ok. by intros w [Hw _]%andb_prop.
  - eapply printable_flat, Hr. apply printable_rd.
Qed.

Ltac printable_tac :=
  repeat match goal with
  | H : (_ && _) = true |- _ => apply andb_prop in H as [? H]
  | IH : ?b = true -> printable _, H : ?b = true |- _ => specialize (IH H)
  end;
  repeat (apply printable_app; split);
  repeat match goal with
  | |- printable (map word _) => eapply printable_words; [|eassumption]; cbn beta; by intros ? [? _]%andb_prop
  | |- printable (flat_map show_trd _) => eapply printable_flat; [apply printable_trd|eassumption]
  end.

Lemma script_printable :
  (forall c, cmd_ok c = true -> printable (show c)) /\ (forall e, els_ok e = true -> printable (eshow e)) /\
  (forall a, arms_ok a = true -> printable (arshow a)) /\ (forall p, pipe_ok p = true -> printable (pshow p)) /\
  (forall s, stages_ok s = true -> printable (sshow s)) /\ (forall a, ao_ok a = true -> printable (ashow a)) /\
  (forall r, aor_ok r = true -> printable (rshow r)) /\ (forall l, lst_ok l = true -> printable (lshow l)).
Proof.
  apply script_mut; cbn [cmd_ok els_ok arms_ok pipe_ok stages_ok ao_ok aor_ok lst_ok
    show eshow arshow pshow sshow ashow rshow lshow]; intros; [by apply printable_simple|..]; printable_tac; try done;
    cbn [forallb] in *; try match goal with |- context [if ?b then _ else _] => by destruct b end;
    try (match goal with H : word_ok ?w = true |- context [word ?w] => change (tok_ok (word w)) with (word_ok w); by rewrite H end).
  - match goal with H : (word_ok p && _) = true |- _ => apply andb_prop in H as [Hp _] end.
    change (tok_ok (word p)) with (word_ok p). by rewrite Hp.
  - eapply (printable_flat word_ok); [intros w Hw; cbn; by rewrite Hw|].
    match goal with H : (word_ok p && _) = true |- _ => by apply andb_prop in H as [_ H] end.
Qed.
