(* ===== verification/VashTheorems.v ===== *)
(** The theorems on the lexer and the parser of the shell. *)
From S2P Require Import Prelude CString Lex LexSource LexTotal LexPrint LexDoc Parse ParseTokens ParseTotal ParsePrint.
From stdpp Require Import gmap.
Local Open Scope Z_scope.

(** The lexer [run_string] sets up over a text. *)
Definition lexer_of (t : list Z) : Lex Src := lex_start (lex_init_str t (Z.of_nat (length t))).

Lemma tokens_of_text fuel n t : bytes t -> tokens fuel n (lexer_of t) = tokens fuel n (lex_start t).
Proof. intros Hb. by apply (tokens_sim reads), reads_start. Qed.

(** The parser over the lexer does what it does over the list of the text's tokens. *)
Lemma parse_over_lexer expand fuel t ks c s2 : bytes t -> (length t < fuel)%nat ->
  tokens fuel (S (length t)) (lex_start t) = Some ks ->
  parse_list expand fuel (parse_start (mkTL T_EOF false ks)) = Some (c, s2) ->
  exists s1, @parse_list _ (lexer_source fuel) expand fuel (parse_start (lexer_of t)) = Some (c, s1) /\
    @prel _ _ (lexes fuel) s1 s2.
Proof.
  intros Hb Hf Hks Hp. assert (Hsim : TokSim (lexes fuel)) by (apply lexer_sim; lia).
  eapply (parse_list_sim (lexes fuel) expand fuel); [|exact Hp]. split_and!; try done. simpl.
  split; simpl; try done. exists t, ks. split_and!; [by apply reads_start| |done].
  by eapply yields_tokens.
Qed.

Lemma print_toks_length ks : (length ks <= length (print_toks ks))%nat.
Proof.
  unfold print_toks. induction ks as [|k ks IH]; [done|]. cbn [flat_map length]. rewrite !length_app. simpl. lia.
Qed.

(** The text of printable tokens, parsed. *)
Lemma parse_printed expand fuel ks c s2 : printable ks -> (length (print_toks ks) + 3 < fuel)%nat ->
  parse_list expand fuel (parse_start (mkTL T_EOF false ks)) = Some (c, s2) ->
  exists s1, @parse_list _ (lexer_source fuel) expand fuel (parse_start (lexer_of (print_toks ks))) = Some (c, s1) /\
    @prel _ _ (lexes fuel) s1 s2.
Proof.
  intros Hks Hf. apply parse_over_lexer; [by apply print_toks_bytes|lia|].
  apply (tokens_print fuel ks []); [by left|done|lia|]. pose proof (print_toks_length ks). lia.
Qed.

(** C26: The lexer comes to the end of every text, whatever bytes it holds: it gives at
    most one token for each byte and then [T_EOF].  The block the characters are copied
    through is invisible: the tokens are those of the plain text, read a character at
    a time, wherever the blocks end. *)
Theorem vash_lexer_total fuel t : bytes t -> (length t < fuel)%nat ->
  exists ks, tokens fuel (S (length t)) (lexer_of t) = Some ks /\
    tokens fuel (S (length t)) (lex_start t) = Some ks /\
    (length ks <= length t)%nat /\ Forall (fun k => k <> T_EOF) ks.
Proof.
  intros Hb Hf. rewrite tokens_of_text by done.
  destruct (tokens_text_total fuel (S (length t)) t T_EOF Hb Hf ltac:(lia)) as (ks & Hks & H). by exists ks.
Qed.

(** Printing and reading tokens are inverse: a list of operators, newlines and words
    made of text, quoted text and expansions, spelt as a script spells them, is read
    back as exactly that list, with the quoting of every part. *)
Theorem vash_tokens_roundtrip fuel ks : forallb tok_ok ks = true -> (length (print_toks ks) + 3 < fuel)%nat ->
  tokens fuel (S (length ks)) (lexer_of (print_toks ks)) = Some ks.
Proof.
  intros Hok Hf. rewrite tokens_of_text by (by apply print_toks_bytes).
  apply (tokens_print fuel ks []); [by left|done|lia|lia].
Qed.


(** C6: The parser inverts printing.  A script built of simple commands, groups, [if],
    [while], [until], [for], [case], tests, pipelines, and-or chains and background
    commands, with its redirections, is read from its text as exactly its tree; nothing
    is reported, no function is defined and no here-document is left. *)
Theorem vash_script_roundtrip expand fuel l : lst_ok l = true -> (length (print_toks (lshow l)) + 3 < fuel)%nat ->
  exists s, @parse_list _ (lexer_source fuel) expand fuel (parse_start (lexer_of (print_toks (lshow l)))) =
      Some (ltree l, s) /\
    ps_err s = [] /\ ps_funcs s = [] /\ ps_docs s = ∅.
Proof.
  intros Hok Hf. pose proof (print_toks_length (lshow l)) as Hlen.
  assert (Hpr : printable (lshow l)) by (by apply script_printable).
  destruct (parse_prints expand fuel l T_EOF Hok) as (s2 & Hs2 & He & Hfu & Hd); [lia|].
  destruct (parse_printed expand fuel _ _ _ Hpr Hf Hs2) as (s1 & Hs1 & _ & E1 & E2 & E3 & _).
  exists s1. by rewrite E1, E2, E3.
Qed.

(** C40: A command behind [&] on the same line is lost.  After [cmd &] a list goes on only
    at a newline, [;] or another [&]; before any other token the parser returns, without
    a message, and whatever follows in the script is not part of the tree. *)
Theorem vash_background_ends_script expand fuel a k ks : ao_ok a = true ->
  bool_decide (k = T_NEWLINE) || is_op k OP_SEMI || is_op k OP_AMP = false ->
  forallb tok_ok (k :: ks) = true -> (length (print_toks (ashow a ++ T_OP OP_AMP :: k :: ks)) + 3 < fuel)%nat ->
  exists s, @parse_list _ (lexer_source fuel) expand fuel
        (parse_start (lexer_of (print_toks (ashow a ++ T_OP OP_AMP :: k :: ks)))) =
      Some (Some (add_list (cmd_new C_SEQ) (set_left (cmd_new C_BG) (Some (atree a)))), s) /\
    ps_err s = [].
Proof.
  intros Hok Hk Hks Hf. pose proof (print_toks_length (ashow a ++ T_OP OP_AMP :: k :: ks)) as Hlen.
  assert (Hpr : printable (ashow a ++ T_OP OP_AMP :: k :: ks)).
  { apply printable_app. split; [by apply script_printable|done]. }
  destruct (background_parses expand fuel a k ks T_EOF Hok Hk) as (s2 & Hs2 & He & _); [lia|].
  destruct (parse_printed expand fuel _ _ _ Hpr Hf Hs2) as (s1 & Hs1 & _ & E1 & _).
  exists s1. by rewrite E1.
Qed.

(** The body of a here-document that the line buffer holds is exactly the lines before
    the first that is the delimiter, without their leading tabs for [<<-]; the newline
    behind the delimiter is left to be read. *)
Theorem vash_heredoc_body fuel delim strip ls d v s : cstring delim -> buf_ok s ->
  ahead s = flat_map (fun l => l ++ [ch_nl]) ls ++ d ++ ch_nl :: v ->
  Forall (fun l => no_nl l /\ stripped strip l <> delim) ls -> no_nl d -> stripped strip d = delim ->
  (length (ahead s) < fuel)%nat ->
  exists s', lex_heredoc fuel delim strip true s = Some (flat_map (fun l => stripped strip l ++ [ch_nl]) ls, s') /\
    ahead s' = ch_nl :: v.
Proof.
  intros Hdelim Hok Ha Hls Hd Heq Hf. unfold lex_heredoc. rewrite (bind_step _ _ _ tt s) by done.
  destruct (heredoc_lines fuel delim strip Hdelim ls d v s [] fuel Hok Ha Hls Hd Heq Hf) as (i & Hi & Hr).
  - assert (length ls <= length (flat_map (fun l => l ++ [ch_nl]) ls))%nat.
    { clear. induction ls; simpl; [lia|]. rewrite length_app in *. rewrite length_app. simpl. lia. }
    rewrite Ha, length_app in Hf. lia.
  - by exists (set_linepos s i).
Qed.

(** ** The theorems at work *)

(** An expansion that takes the text of every part as it is. *)
Definition plain_expand (w : Word) : list Z := flat_map p_text w.

Definition lit (s : string) : Word := [mkPart W_LIT false (cs s)].

Definition one (c : cmd) : ao := AndOr (Pipe c SNil) RNil.

(** [if test -f x; then echo yes > log; else sort < x | wc &; fi 2>> err] over several lines. *)
Definition sample : lst :=
  LCons (one (IfC (LCons (one (SimpleC [lit "test"; lit "-f"; lit "x"] [])) false LNil)
      (LCons (one (SimpleC [lit "echo"; lit "yes"] [mkRd R_OUT (lit "log")])) false LNil)
      (ElseE (LCons (AndOr (Pipe (SimpleC [lit "sort"] [mkRd R_IN (lit "x")]) (SCons (SimpleC [lit "wc"] []) SNil)) RNil)
                true LNil)
         [mkTrd (Some 2) (mkRd R_APPEND (lit "err"))]))) false LNil.

Lemma sample_ok : lst_ok sample = true.
Proof. by vm_compute. Qed.

Lemma vash_lexer_total_witness : let t := cs "a<b; $c" in
  exists ks, tokens 20 (S (length t)) (lexer_of t) = Some ks /\ tokens 20 (S (length t)) (lex_start t) = Some ks /\
    (length ks <= length t)%nat /\ Forall (fun k => k <> T_EOF) ks.
Proof. intros t. apply vash_lexer_total; [by apply bytes_closed|simpl; lia]. Defined.

Lemma vash_tokens_roundtrip_witness :
  let ks := [word (lit "a b"); T_OP OP_PIPE; T_NEWLINE; word [mkPart W_LIT false (cs "x"); mkPart W_VAR true (cs "y")]] in
  tokens 100 (S (length ks)) (lexer_of (print_toks ks)) = Some ks.
Proof. intros ks. apply vash_tokens_roundtrip; [by vm_compute|vm_compute; lia]. Defined.


Lemma vash_script_roundtrip_witness : exists s,
  @parse_list _ (lexer_source 400) plain_expand 400 (parse_start (lexer_of (print_toks (lshow sample)))) =
    Some (ltree sample, s) /\ ps_err s = [] /\ ps_funcs s = [] /\ ps_docs s = ∅.
Proof. apply vash_script_roundtrip; [exact sample_ok|vm_compute; lia]. Defined.

(** [sleep 9 & echo started]: nothing is echoed. *)
Lemma vash_background_ends_script_witness : exists s,
  @parse_list _ (lexer_source 100) plain_expand 100
      (parse_start (lexer_of (print_toks (ashow (one (SimpleC [lit "sleep"; lit "9"] [])) ++
         T_OP OP_AMP :: word (lit "echo") :: [word (lit "started")])))) =
    Some (Some (add_list (cmd_new C_SEQ)
      (set_left (cmd_new C_BG) (Some (atree (one (SimpleC [lit "sleep"; lit "9"] [])))))), s) /\ ps_err s = [].
Proof. apply vash_background_ends_script; [by vm_compute|done|by vm_compute|vm_compute; lia]. Defined.

(** A buffer that holds the body of a here-document and the line behind it. *)
Definition doc_text : list Z := cs "one" ++ [ch_nl] ++ cs "two" ++ [ch_nl] ++ cs "END" ++ [ch_nl] ++ cs "ls".

Definition doc_source : Src := snd (lc_peek (lex_init_str doc_text (Z.of_nat (length doc_text)))).

Lemma vash_heredoc_body_witness : exists s',
  lex_heredoc 30 (cs "END") false true doc_source = Some (cs "one" ++ [ch_nl] ++ cs "two" ++ [ch_nl], s') /\
  ahead s' = ch_nl :: cs "ls".
Proof.
  apply (vash_heredoc_body 30 (cs "END") false [cs "one"; cs "two"] (cs "END") (cs "ls") doc_source).
  - by repeat constructor.
  - constructor; [by apply bytes_closed|vm_compute; by split|by vm_compute].
  - reflexivity.
  - repeat constructor; try discriminate; cbn; discriminate.
  - by repeat constructor.
  - reflexivity.
  - vm_compute. lia.
Defined.

(** ** Scripts that are not read as they are meant *)

(** The tree of a text, what is said about it and the bodies of its here-documents. *)
Definition parsed (t : list Z) : option (option Cmd * list Z * list (nat * (list Z * bool))) :=
  '(c, s) ← @parse_list _ (lexer_source 200) plain_expand 200 (parse_start (lexer_of t));
  Some (c, ps_err s, map_to_list (ps_docs s)).

Definition commands (t : list Z) : list (CType * list Arg * list (Z * RMode)) :=
  match parsed t with
  | Some (Some c, _, _) => map (fun c => (c_type c, c_argv c, map (fun r => (r_fd r, r_mode r)) (c_redirs c))) (c_list c)
  | _ => []
  end.

Definition lines (ls : list string) : list Z := flat_map (fun l => cs l ++ [ch_nl]) ls.

(** [ls 2> f] redirects the standard output: the mode's own descriptor overwrites the number. *)
Example number_ignored : commands (cs "ls 2> f") = [(C_SIMPLE, [Plain (lit "ls")], [(1, R_OUT)])].
Proof. by vm_compute. Qed.

(** [echo 2 > f] loses its argument: the number need not touch the operator. *)
Example argument_taken : commands (cs "echo 2 > f") = [(C_SIMPLE, [Plain (lit "echo")], [(1, R_OUT)])].
Proof. by vm_compute. Qed.

(** The text in front of a backquote comes behind what the command prints. *)
Example backquote_first : tokens 50 9 (lexer_of (cs "x`ls`")) =
  Some [word [mkPart W_LIT false []; mkPart W_CMDSUB false (cs "ls"); mkPart W_LIT false (cs "x")]].
Proof. by vm_compute. Qed.

(** Two here-documents on a line: the body of the second is looked for first, runs over the
    delimiter of the first, and leaves the first an empty line. *)
Example documents_swapped : match parsed (lines ["cat <<A <<B"; "one"; "A"; "two"; "B"]) with
  | Some (_, e, docs) => e = [] /\ docs = [(1%nat, (lines ["one"; "A"; "two"], false)); (0%nat, (lines [EmptyString], false))]
  | None => False
  end.
Proof. by vm_compute. Qed.

(** A here-document on the right of [&&] is empty, and its body is run as commands. *)
Example document_run : commands (lines ["true && cat <<A"; "one"; "A"]) =
  [(C_AND, [], []); (C_SIMPLE, [Plain (lit "one")], [])].
Proof. by vm_compute. Qed.

(** With a command behind it on its line, a here-document loses the first character of its
    body, and the command is lost. *)
Example document_cut : match parsed (lines ["cat <<A; ls"; "one"; "A"]) with
  | Some (_, e, docs) => e = [] /\ docs = [(0%nat, (lines ["ne"], false))]
  | None => False
  end /\ commands (lines ["cat <<A; ls"; "one"; "A"]) = [(C_SIMPLE, [Plain (lit "cat")], [(0, R_HEREDOC)])].
Proof. by vm_compute. Qed.

(** A brace behind a backslash is still the reserved word. *)
Example escaped_brace : tokens 50 9 (lexer_of (cs "\{ a")) = Some [T_OP OP_LBRACE; word (lit "a")].
Proof. by vm_compute. Qed.
