(* ===== verification/Malloc.v ===== *)
(** vlibc's heap allocator ([vlibc/src/stdlib/malloc.c]) and the part of the
    kernel it stands on, the [brk] system call.

    The linked list of headers is a list of blocks in list order; a header is
    its address, its payload size and its free flag, and a [Block*] is the
    address.  [unsigned long] is 32 bits, [sizeof(Block)] is 12. *)
From S2P Require Import Prelude.
Local Open Scope vnu_scope.

(** * The allocator *)

Definition BLOCK_SIZE : Z := 12.
Definition MIN_ALLOC : Z := 16.
Definition HEAP_LUMP : Z := 1024 * 1024.

Record Block := mkBlock { b_addr : Z; b_size : Z; b_free : bool }.

Record Heap := mkHeap { blocks : list Block; brk : Z }.

(** ** The kernel: [brk_current] and [brk_set]

    [extend a n] is whether the kernel can map the [n] pages at [a]. *)
Definition BRK_MIN : Z := 0x03000000.
Definition BRK_MAX : Z := 0x03800000.
Definition PAGE_SIZE : Z := 4096.
Definition ENOMEM : Z := 12.

Definition page_up (x : Z) : Z := Z.land (u32 (x + PAGE_SIZE - 1)) (Z.lxor (PAGE_SIZE - 1) (2 ^ 32 - 1)).

Section Alloc.
Variable extend : Z -> Z -> bool.

Definition brk_set (h : Heap) (requested : Z) : Z * Heap :=
  if BRK_MAX <? requested then (u32 (- ENOMEM), h)
  else
    let prev := brk h in
    let refused :=
      (prev <? requested) &&
      (let mapped := page_up (u32 (prev - BRK_MIN)) in
       let want := page_up (u32 (requested - BRK_MIN)) in
       (mapped <? want) && negb (extend (u32 (BRK_MIN + mapped)) ((want - mapped) / PAGE_SIZE))) in
    if refused then (u32 (- ENOMEM), h) else (requested, mkHeap (blocks h) requested).

Definition sys_brk (h : Heap) (req : Z) : Z * Heap :=
  if req =? 0 then (brk h, h)
  else if (req <? BRK_MIN) || (BRK_MAX <? req) then (u32 (- ENOMEM), h)
  else brk_set h req.

(** ** malloc.c *)

(** [while (grow < limit) grow <<= 1]. *)
Fixpoint grow_loop (fuel : nat) (grow limit : Z) : option Z :=
  if grow <? limit then
    match fuel with
    | O => None
    | S f => grow_loop f (u32 (Z.shiftl grow 1)) limit
    end
  else Some grow.

Definition more_heap (fuel : nat) (h : Heap) (need : Z) : outcome (bool * Heap) :=
  let '(cur, h) := sys_brk h 0 in
  if cur =? 2 ^ 32 - 1 then Done (false, h)
  else
    match grow_loop fuel HEAP_LUMP (u32 (need + BLOCK_SIZE + MIN_ALLOC)) with
    | None => NoFuel
    | Some grow =>
        let want := u32 (cur + grow) in
        let '(got, h) := sys_brk h want in
        if negb (got =? want) then Done (false, h)
        else
          let b := mkBlock cur (u32 (grow - BLOCK_SIZE)) true in
          Done (true, mkHeap (blocks h ++ [b]) (brk h))
    end.

Fixpoint coalesce_from (b : Block) (rest : list Block) : list Block :=
  match rest with
  | [] => [b]
  | n :: r =>
      if b_free b && b_free n
      then coalesce_from (mkBlock (b_addr b) (u32 (b_size b + (BLOCK_SIZE + b_size n))) (b_free b)) r
      else b :: coalesce_from n r
  end.

Definition coalesce (h : Heap) : Heap :=
  match blocks h with
  | [] => h
  | b :: r => mkHeap (coalesce_from b r) (brk h)
  end.

Fixpoint find_in (l : list Block) (size : Z) : option Block :=
  match l with
  | [] => None
  | b :: l' => if b_free b && (size <=? b_size b) then Some b else find_in l' size
  end.

Definition find_block (h : Heap) (size : Z) : option Block := find_in (blocks h) size.

(** [take] acts on the block at [addr]. *)
Definition split_block (b : Block) (size : Z) : list Block :=
  if u32 (size + BLOCK_SIZE + MIN_ALLOC) <? b_size b then
    [mkBlock (b_addr b) size false;
     mkBlock (u32 (b_addr b + BLOCK_SIZE + size)) (u32 (u32 (b_size b - size) - BLOCK_SIZE)) true]
  else [mkBlock (b_addr b) (b_size b) false].

Fixpoint take_in (l : list Block) (addr size : Z) : list Block :=
  match l with
  | [] => []
  | b :: l' => if b_addr b =? addr then split_block b size ++ l' else b :: take_in l' addr size
  end.

Definition take_block (h : Heap) (current : Block) (size : Z) : Z * Heap :=
  (u32 (b_addr current + BLOCK_SIZE), mkHeap (take_in (blocks h) (b_addr current) size) (brk h)).

Definition round8 (size : Z) : Z := Z.land (u32 (size + 7)) (2 ^ 32 - 8).

(** [for (;;)], with the [coalesced] flag; [fuel] also bounds [more_heap]'s loop. *)
Fixpoint malloc_loop (fuel : nat) (h : Heap) (size : Z) (coalesced : bool) : outcome (option Z * Heap) :=
  match fuel with
  | O => NoFuel
  | S f =>
      match find_block h size with
      | Some b => let '(p, h) := take_block h b size in Done (Some p, h)
      | None =>
          if negb coalesced then malloc_loop f (coalesce h) size true
          else
            let* (ok, h) := more_heap f h size in
            if ok then malloc_loop f h size false else Done (None, h)
      end
  end.

Definition malloc (fuel : nat) (h : Heap) (size : Z) : outcome (option Z * Heap) :=
  if size =? 0 then Done (None, h) else malloc_loop fuel h (round8 size) false.

Fixpoint free_in (l : list Block) (addr : Z) : option (list Block) :=
  match l with
  | [] => None
  | b :: l' =>
      if b_addr b =? addr then Some (mkBlock (b_addr b) (b_size b) true :: l')
      else option_map (cons b) (free_in l' addr)
  end.

(** [Trap]: the pointer is not the payload of a block. *)
Definition free (h : Heap) (ptr : Z) : outcome Heap :=
  if ptr =? 0 then Done h
  else
    match free_in (blocks h) (u32 (ptr - BLOCK_SIZE)) with
    | Some l => Done (mkHeap l (brk h))
    | None => Trap
    end.

End Alloc.

Definition heap0 : Heap := mkHeap [] BRK_MIN.
Definition grant_all (a n : Z) : bool := true.

Example malloc_ex1 : malloc grant_all 20 heap0 5 =
  Done (Some (BRK_MIN + 12),
        mkHeap [mkBlock BRK_MIN 8 false; mkBlock (BRK_MIN + 20) (2 ^ 20 - 32) true] (BRK_MIN + 2 ^ 20)).
Proof. vm_compute. reflexivity. Qed.
Example malloc_ex2 : malloc grant_all 20 heap0 (2 ^ 32 - 1) =
  Done (Some (BRK_MIN + 12),
        mkHeap [mkBlock BRK_MIN 0 false; mkBlock (BRK_MIN + 12) (2 ^ 20 - 24) true] (BRK_MIN + 2 ^ 20)).
Proof. vm_compute. reflexivity. Qed.

(** * The heap's invariant

    The blocks tile the heap from [BRK_MIN] to the break, in list order. *)

Fixpoint tiled (a : Z) (l : list Block) (e : Z) : Prop :=
  match l with
  | [] => a = e
  | b :: l' => b_addr b = a /\ 0 <= b_size b /\ tiled (a + BLOCK_SIZE + b_size b) l' e
  end.

Definition wf (h : Heap) : Prop := tiled BRK_MIN (blocks h) (brk h) /\ BRK_MIN <= brk h <= BRK_MAX.

(** The payloads handed out and not freed, as (address, size). *)
Fixpoint live_of (l : list Block) : list (Z * Z) :=
  match l with
  | [] => []
  | b :: l' => if b_free b then live_of l' else (b_addr b + BLOCK_SIZE, b_size b) :: live_of l'
  end.
Definition live (h : Heap) : list (Z * Z) := live_of (blocks h).

(** Ranges that lie in [lo, hi) one after the other. *)
Fixpoint apart (lo : Z) (l : list (Z * Z)) (hi : Z) : Prop :=
  match l with
  | [] => lo <= hi
  | (p, s) :: l' => lo <= p /\ 0 <= s /\ apart (p + s) l' hi
  end.

(** No two neighbours are both free. *)
Fixpoint merged (l : list Block) : Prop :=
  match l with
  | b :: (n :: _) as l' => b_free b && b_free n = false /\ merged l'
  | _ => True
  end.

Lemma tiled_le a l e : tiled a l e -> a <= e.
Proof. revert a; induction l as [|b l IH]; intros a; cbn; [lia|]. unfold BLOCK_SIZE. intros (? & ? & Ht). specialize (IH _ Ht). lia. Qed.

Lemma tiled_app a l1 l2 e : tiled a (l1 ++ l2) e <-> exists m, tiled a l1 m /\ tiled m l2 e.
Proof.
  revert a; induction l1 as [|b l1 IH]; intros a; cbn [app tiled].
  - split; [by exists a|by intros (m & -> & ?)].
  - rewrite IH. split; [intros (? & ? & m & ? & ?); by exists m|intros (m & (? & ? & ?) & ?); eauto].
Qed.

Lemma tiled_addr a l e b : tiled a l e -> In b l -> a <= b_addr b.
Proof.
  revert a; induction l as [|c l IH]; intros a; cbn [tiled]; [done|]. unfold BLOCK_SIZE.
  intros (Ha & ? & Ht) [->|Hin]; [lia|]. specialize (IH _ Ht Hin). lia.
Qed.

Lemma live_of_app l1 l2 : live_of (l1 ++ l2) = live_of l1 ++ live_of l2.
Proof. induction l1 as [|b l1 IH]; cbn; [done|]. rewrite IH. by destruct (b_free b). Qed.

Lemma apart_weaken lo lo' l hi : lo' <= lo -> apart lo l hi -> apart lo' l hi.
Proof. destruct l as [|[p s] l]; cbn; intros; [lia|]. intuition lia. Qed.

Lemma tiled_apart a l e : tiled a l e -> apart a (live_of l) e.
Proof.
  revert a; induction l as [|b l IH]; intros a; cbn [tiled live_of]; [cbn; lia|].
  unfold BLOCK_SIZE in *. intros (Ha & Hs & Ht). specialize (IH _ Ht).
  destruct (b_free b); cbn [apart].
  - eapply apart_weaken; [|exact IH]. lia.
  - split; [lia|]. split; [done|]. by replace (b_addr b + 12 + b_size b) with (a + 12 + b_size b) by lia.
Qed.

Lemma coalesce_from_spec a b r e :
  0 <= a -> e < 2 ^ 32 -> tiled a (b :: r) e ->
  tiled a (coalesce_from b r) e /\ live_of (coalesce_from b r) = live_of (b :: r) /\
  merged (coalesce_from b r) /\ (exists c t, coalesce_from b r = c :: t /\ b_free c = b_free b).
Proof.
  revert a b; induction r as [|n r IH]; intros a b Ha He Ht; cbn [coalesce_from].
  - split; [done|]. split; [done|]. split; [done|]. by exists b, [].
  - cbn [tiled] in Ht. unfold BLOCK_SIZE in *. destruct Ht as (H1 & H2 & H3 & H4 & H5).
    pose proof (tiled_le _ _ _ H5).
    destruct (b_free b && b_free n) eqn:E.
    + apply andb_true_iff in E as [Eb En].
      rewrite u32_id by (unfold is_u32; lia).
      destruct (IH a (mkBlock (b_addr b) (b_size b + (12 + b_size n)) (b_free b)) Ha He) as (Ht & Hl & Hm & c & t & Hc & Hf).
      { cbn [tiled b_addr b_size]. unfold BLOCK_SIZE. split; [done|]. split; [lia|].
        by replace (a + 12 + (b_size b + (12 + b_size n))) with (a + 12 + b_size b + 12 + b_size n) by lia. }
      split; [done|]. split; [rewrite Hl; cbn; by rewrite Eb, En|]. split; [done|]. by exists c, t.
    + destruct (IH (a + 12 + b_size b) n ltac:(lia) He) as (Ht & Hl & Hm & c & t & Hc & Hf).
      { cbn [tiled]. unfold BLOCK_SIZE. done. }
      split; [cbn [tiled]; unfold BLOCK_SIZE; done|]. split; [cbn [live_of]; rewrite Hl; by cbn|].
      split; [|by exists b, (coalesce_from n r)]. rewrite Hc in *. split; [by rewrite Hf|exact Hm].
Qed.

Lemma coalesce_spec h :
  wf h -> wf (coalesce h) /\ live (coalesce h) = live h /\ merged (blocks (coalesce h)) /\ brk (coalesce h) = brk h.
Proof.
  intros [Ht Hb]. unfold coalesce, live, wf. destruct (blocks h) as [|b r] eqn:E; [rewrite E; done|].
  cbn [blocks brk]. destruct (coalesce_from_spec BRK_MIN b r (brk h)) as (? & ? & ? & _);
    [unfold BRK_MIN; lia|unfold BRK_MAX in Hb; lia|done|]. done.
Qed.

Lemma find_in_some l size b :
  find_in l size = Some b -> exists l1 l2, l = l1 ++ b :: l2 /\ b_free b = true /\ size <= b_size b.
Proof.
  induction l as [|c l IH]; cbn; [done|]. bcase.
  - intros [= ->]. by exists [], l.
  - intros H. destruct (IH H) as (l1 & l2 & -> & ? & ?). by exists (c :: l1), l2.
Qed.

Lemma find_in_none l size :
  find_in l size = None -> Forall (fun b => b_free b = true -> b_size b < size) l.
Proof.
  induction l as [|c l IH]; cbn; [done|]. bcase; [done|]. intros H. constructor; [|by apply IH].
  intros Hf. rewrite Hf in E. cbn in E. lia.
Qed.

Lemma take_in_at a l1 b l2 e size :
  tiled a (l1 ++ b :: l2) e -> take_in (l1 ++ b :: l2) (b_addr b) size = l1 ++ split_block b size ++ l2.
Proof.
  revert a; induction l1 as [|c l1 IH]; intros a Ht; cbn [app take_in]; [by rewrite Z.eqb_refl|].
  cbn [app tiled] in Ht. unfold BLOCK_SIZE in Ht. destruct Ht as (Hc & Hs & Ht).
  pose proof (tiled_addr _ _ _ b Ht ltac:(apply in_or_app; right; left; done)).
  destruct (Z.eqb_spec (b_addr c) (b_addr b)); [lia|]. by rewrite (IH _ Ht).
Qed.

(** Cutting a free block of at least [size] bytes. *)
Lemma split_block_spec a b e size :
  0 <= a -> e < 2 ^ 31 -> 0 <= size <= b_size b -> b_free b = true -> tiled a [b] e ->
  tiled a (split_block b size) e /\
  exists sz, size <= sz /\ live_of (split_block b size) = [(b_addr b + BLOCK_SIZE, sz)].
Proof.
  intros Ha He Hsz Hf Ht. cbn [tiled] in Ht. unfold split_block, BLOCK_SIZE, MIN_ALLOC in *.
  destruct Ht as (H1 & H2 & H3). destruct (Z.ltb_spec (u32 (size + 12 + 16)) (b_size b)) as [Hlt|Hge].
  - rewrite u32_id in Hlt by (unfold is_u32; lia).
    rewrite !u32_id by (unfold is_u32; rewrite ?u32_id by (unfold is_u32; lia); lia).
    cbn [tiled b_addr b_size live_of b_free]. unfold BLOCK_SIZE. split; [repeat split; lia|].
    by exists size.
  - cbn [tiled b_addr b_size live_of b_free]. unfold BLOCK_SIZE. split; [done|]. exists (b_size b). split; [lia|done].
Qed.

Lemma take_block_spec h b size :
  wf h -> 0 <= size -> find_block h size = Some b ->
  let '(p, h') := take_block h b size in
  wf h' /\ exists sz l1 l2, size <= sz /\ live h = l1 ++ l2 /\ live h' = l1 ++ (p, sz) :: l2.
Proof.
  intros [Ht Hb] Hs Hf. unfold find_block in Hf. apply find_in_some in Hf as (l1 & l2 & El & Hfree & Hsz).
  unfold take_block, wf, live. cbn [blocks brk]. rewrite El in *.
  rewrite (take_in_at _ _ _ _ _ _ Ht).
  pose proof Ht as Ht'. apply tiled_app in Ht' as (m & Ht1 & Ht2).
  change (b :: l2) with ([b] ++ l2) in Ht2. apply tiled_app in Ht2 as (m2 & Hbb & Ht2).
  pose proof (tiled_le _ _ _ Ht1). pose proof (tiled_le _ _ _ Hbb). pose proof (tiled_le _ _ _ Ht2).
  unfold BRK_MIN, BRK_MAX in *.
  destruct (split_block_spec m b m2 size) as (Hts & sz & Hge & Hlv); [lia|lia|lia|done|done|].
  split.
  - split; [|lia]. apply tiled_app. exists m. split; [done|]. apply tiled_app. by exists m2.
  - exists sz, (live_of l1), (live_of l2). split; [done|]. rewrite !live_of_app. cbn [live_of]. rewrite Hfree, Hlv.
    split; [done|]. cbn [tiled] in Hbb. rewrite u32_id by (unfold is_u32, BLOCK_SIZE in *; lia). done.
Qed.

Section Correctness.
Variable extend : Z -> Z -> bool.

Lemma grow_loop_spec fuel k limit :
  0 <= k <= 31 -> limit <= 2 ^ 31 -> 31 - k <= Z.of_nat fuel ->
  exists j, k <= j <= 31 /\ limit <= 2 ^ j /\ grow_loop fuel (2 ^ k) limit = Some (2 ^ j).
Proof.
  revert k; induction fuel as [|f IH]; intros k Hk Hl Hf; cbn [grow_loop];
    destruct (Z.ltb_spec (2 ^ k) limit) as [Hlt|Hge]; try (exists k; split; [lia|done]).
  - assert (k = 31) as -> by lia. lia.
  - assert (k < 31) as Hk31 by (destruct (Z.eq_dec k 31) as [->|]; lia).
    rewrite Z.shiftl_mul_pow2 by lia. rewrite <- Z.pow_add_r by lia.
    assert (2 ^ (k + 1) <= 2 ^ 31) by (apply Z.pow_le_mono_r; lia).
    rewrite u32_id by (unfold is_u32; pose proof (Z.pow_pos_nonneg 2 (k + 1)); lia).
    destruct (IH (k + 1) ltac:(lia) Hl ltac:(lia)) as (j & ? & ? & ?). exists j. split; [lia|done].
Qed.

(** The doubling never ends once it has shifted the bit out. *)
Lemma grow_loop_stuck fuel limit : 0 < limit -> grow_loop fuel 0 limit = None.
Proof. intros Hl. induction fuel as [|f IH]; cbn [grow_loop]; destruct (Z.ltb_spec 0 limit); lia || done. Qed.

Lemma grow_loop_diverges fuel k limit :
  0 <= k <= 31 -> 2 ^ 31 < limit -> grow_loop fuel (2 ^ k) limit = None.
Proof.
  revert k; induction fuel as [|f IH]; intros k Hk Hl; cbn [grow_loop];
    pose proof (Z.pow_le_mono_r 2 k 31 ltac:(lia) ltac:(lia));
    (destruct (Z.ltb_spec (2 ^ k) limit); [|lia]); [done|].
  rewrite Z.shiftl_mul_pow2 by lia. rewrite <- Z.pow_add_r by lia.
  destruct (Z.eq_dec k 31) as [->|].
  - change (u32 (2 ^ (31 + 1))) with 0. apply grow_loop_stuck. lia.
  - pose proof (Z.pow_le_mono_r 2 (k + 1) 31 ltac:(lia) ltac:(lia)).
    pose proof (Z.pow_pos_nonneg 2 (k + 1) ltac:(lia) ltac:(lia)).
    rewrite u32_id by (unfold is_u32; lia). apply IH; lia.
Qed.

Lemma sys_brk_grow h want :
  BRK_MIN <= brk h -> brk h < want < 2 ^ 32 - ENOMEM ->
  let '(got, h') := sys_brk extend h want in
  (got = want /\ want <= BRK_MAX /\ h' = mkHeap (blocks h) want) \/ (got <> want /\ h' = h).
Proof.
  intros Hm Hw. unfold sys_brk, brk_set, BRK_MIN, BRK_MAX, ENOMEM in *.
  destruct (Z.eqb_spec want 0); [lia|].
  change (u32 (- (12))) with (2 ^ 32 - 12).
  destruct (Z.ltb_spec want 0x03000000); cbn [orb]; [right; split; [lia|done]|].
  destruct (Z.ltb_spec 0x03800000 want); [right; split; [lia|done]|].
  bcase; [right; split; [lia|done]|left; done].
Qed.

Lemma more_heap_spec fuel h need :
  wf h -> 0 <= need <= 2 ^ 31 - 32 -> 11 <= Z.of_nat fuel ->
  exists ok h', more_heap extend fuel h need = Done (ok, h') /\
    if ok then
      exists grow, need + 28 <= grow /\ wf h' /\ brk h' = brk h + grow /\
        blocks h' = blocks h ++ [mkBlock (brk h) (grow - BLOCK_SIZE) true]
    else h' = h /\ exists want, brk h < want /\ fst (sys_brk extend h want) <> want.
Proof.
  intros [Ht Hb] Hn Hf. unfold more_heap. change (sys_brk extend h 0) with (brk h, h). cbv beta iota.
  assert (brk h < 2 ^ 31) as Hb31 by (unfold BRK_MAX in Hb; lia).
  destruct (Z.eqb_spec (brk h) (2 ^ 32 - 1)); [lia|].
  unfold BLOCK_SIZE, MIN_ALLOC. rewrite (u32_id (need + 12 + 16)) by (unfold is_u32; lia).
  destruct (grow_loop_spec fuel 20 (need + 12 + 16)) as (j & Hj & Hlim & Hg); [lia|lia|lia|].
  change HEAP_LUMP with (2 ^ 20). rewrite Hg.
  pose proof (Z.pow_le_mono_r 2 j 31 ltac:(lia) ltac:(lia)).
  pose proof (Z.pow_pos_nonneg 2 j ltac:(lia) ltac:(lia)).
  rewrite (u32_id (brk h + 2 ^ j)) by (unfold is_u32, BRK_MIN in *; lia).
  pose proof (sys_brk_grow h (brk h + 2 ^ j) ltac:(lia) ltac:(unfold ENOMEM, BRK_MAX in *; lia)) as Hs.
  destruct (sys_brk extend h (brk h + 2 ^ j)) as [got h1] eqn:Es.
  destruct Hs as [(-> & Hle & ->)|(Hne & ->)].
  - rewrite Z.eqb_refl. cbn [negb]. eexists true, _. split; [reflexivity|].
    exists (2 ^ j). split; [lia|]. cbn [blocks brk].
    rewrite u32_id by (unfold is_u32; lia). split; [|done]. split; [|cbn; lia].
    cbn [blocks brk]. apply tiled_app. exists (brk h). split; [done|]. cbn. unfold BLOCK_SIZE. lia.
  - destruct (Z.eqb_spec got (brk h + 2 ^ j)); [done|]. cbn [negb].
    eexists false, _. split; [reflexivity|]. split; [done|]. exists (brk h + 2 ^ j).
    rewrite Es. split; [lia|done].
Qed.

Lemma round8_eq n : 0 <= n < 2 ^ 32 - 7 -> round8 n = (n + 7) / 8 * 8.
Proof.
  intros Hn. unfold round8. rewrite u32_id by (unfold is_u32; lia).
  change (2 ^ 32 - 8) with (Z.shiftl (Z.ones 29) 3). change 8 with (2 ^ 3).
  rewrite <- Z.shiftl_mul_pow2 with (n := 3) by lia. rewrite <- (Z.shiftr_div_pow2 (n + 7) 3) by lia.
  apply Z.bits_inj'. intros i Hi. rewrite Z.land_spec, Z.shiftl_spec by lia.
  rewrite Z.shiftl_spec by lia. destruct (decide (i < 3)).
  - rewrite !(Z.testbit_neg_r _ (i - 3)) by lia. apply andb_false_r.
  - rewrite Z.shiftr_spec by lia. replace (i - 3 + 3) with i by lia.
    destruct (decide (i < 32)).
    + rewrite Z.ones_spec_low by lia. apply andb_true_r.
    + rewrite Z.ones_spec_high by lia. rewrite andb_false_r. symmetry.
      apply Z.bits_above_log2; [lia|]. assert (Z.log2 (n + 7) < 32); [|lia]. apply Z.log2_lt_pow2; lia.
Qed.

Lemma round8_bounds n : 0 <= n < 2 ^ 32 - 7 -> n <= round8 n < n + 8.
Proof.
  intros Hn. rewrite round8_eq by done.
  pose proof (Z_div_mod_eq_full (n + 7) 8). pose proof (Z.mod_pos_bound (n + 7) 8 ltac:(lia)). lia.
Qed.

Lemma round8_le n k : 0 <= n <= 8 * k -> 8 * k < 2 ^ 32 - 7 -> round8 n <= 8 * k.
Proof.
  intros Hn Hk. rewrite round8_eq by lia. assert ((n + 7) / 8 < k + 1); [|lia]. apply Z.div_lt_upper_bound; lia.
Qed.

Lemma round8_gt n k : 0 <= n < 2 ^ 32 - 7 -> 8 * k < n -> 8 * (k + 1) <= round8 n.
Proof.
  intros Hn Hk. rewrite round8_eq by lia. assert (k + 1 <= (n + 7) / 8); [|lia]. apply Z.div_le_lower_bound; lia.
Qed.

(** What a call that returned [r] did to the live blocks. *)
Definition served (h : Heap) (size : Z) (r : option Z) (h' : Heap) : Prop :=
  match r with
  | Some p => exists sz l1 l2, size <= sz /\ live h = l1 ++ l2 /\ live h' = l1 ++ (p, sz) :: l2
  | None =>
      live h' = live h /\ brk h' = brk h /\ merged (blocks h') /\
      Forall (fun b => b_free b = true -> b_size b < size) (blocks h') /\
      exists want, brk h' < want /\ fst (sys_brk extend h' want) <> want
  end.

Lemma malloc_loop_take h b size fuel c :
  wf h -> 0 <= size -> find_block h size = Some b -> exists p h',
  malloc_loop extend (S fuel) h size c = Done (Some p, h') /\ wf h' /\ served h size (Some p) h'.
Proof.
  intros Hw Hs Hf. cbn [malloc_loop]. rewrite Hf.
  pose proof (take_block_spec h b size Hw Hs Hf) as H. destruct (take_block h b size) as [p h'].
  exists p, h'. destruct H as [Hw' H]. done.
Qed.

Lemma malloc_loop_spec h size fuel :
  wf h -> 0 <= size <= 2 ^ 31 - 32 -> (14 <= fuel)%nat ->
  exists r h', malloc_loop extend fuel h size false = Done (r, h') /\ wf h' /\ served h size r h'.
Proof.
  intros Hw Hs Hfu. destruct fuel as [|[|fuel]]; [lia..|].
  destruct (find_block h size) as [b|] eqn:F1.
  { destruct (malloc_loop_take h b size (S fuel) false Hw ltac:(lia) F1) as (p & h' & ? & ? & ?). by exists (Some p), h'. }
  rewrite (eq_refl : malloc_loop extend (S (S fuel)) h size false =
    match find_block h size with
    | Some b => let '(p, h) := take_block h b size in Done (Some p, h)
    | None => malloc_loop extend (S fuel) (coalesce h) size true end), F1.
  destruct (coalesce_spec h Hw) as (Hw1 & Hl1 & Hm1 & Hb1).
  destruct (find_block (coalesce h) size) as [b|] eqn:F2.
  { destruct (malloc_loop_take (coalesce h) b size fuel true Hw1 ltac:(lia) F2) as (p & h' & E & Hw' & Hsv).
    exists (Some p), h'. split; [done|]. split; [done|]. unfold served in *. by rewrite Hl1 in Hsv. }
  cbn [malloc_loop negb]. rewrite F2.
  destruct (more_heap_spec fuel (coalesce h) size Hw1 Hs ltac:(lia)) as (ok & h2 & -> & Hok). cbn [obind].
  destruct ok.
  - destruct Hok as (grow & Hg & Hw2 & Hb2 & Hbl2).
    destruct (find_block h2 size) as [b|] eqn:F3.
    + destruct fuel as [|fuel]; [lia|].
      destruct (malloc_loop_take h2 b size fuel false Hw2 ltac:(lia) F3) as (p & h' & E & Hw' & Hsv).
      exists (Some p), h'. split; [done|]. split; [done|]. unfold served in *.
      assert (live h2 = live h) as <-; [|done].
      unfold live at 1. rewrite Hbl2, live_of_app. cbn. rewrite app_nil_r. exact Hl1.
    + exfalso. apply find_in_none in F3. rewrite Hbl2 in F3. apply Forall_app in F3 as [_ F3].
      apply Forall_cons in F3 as [F3 _]. specialize (F3 eq_refl). cbn in F3. unfold BLOCK_SIZE in F3. lia.
  - destruct Hok as (-> & want & Hwant & Hne). exists None, (coalesce h). split; [done|]. split; [done|].
    split; [done|]. split; [done|]. split; [done|]. split; [by apply find_in_none|]. by exists want.
Qed.


Lemma free_in_at a l1 b l2 e :
  tiled a (l1 ++ b :: l2) e ->
  free_in (l1 ++ b :: l2) (b_addr b) = Some (l1 ++ mkBlock (b_addr b) (b_size b) true :: l2).
Proof.
  revert a; induction l1 as [|c l1 IH]; intros a Ht; cbn [app free_in]; [by rewrite Z.eqb_refl|].
  cbn [app tiled] in Ht. unfold BLOCK_SIZE in Ht. destruct Ht as (Hc & Hs & Ht).
  pose proof (tiled_addr _ _ _ b Ht ltac:(apply in_or_app; right; left; done)).
  destruct (Z.eqb_spec (b_addr c) (b_addr b)); [lia|]. by rewrite (IH _ Ht).
Qed.

Lemma live_of_split l p s m1 m2 :
  live_of l = m1 ++ (p, s) :: m2 ->
  exists l1 b l2, l = l1 ++ b :: l2 /\ b_free b = false /\ b_addr b + BLOCK_SIZE = p /\ b_size b = s /\
    live_of l1 = m1 /\ live_of l2 = m2.
Proof.
  revert m1; induction l as [|b l IH]; intros m1 H; cbn [live_of] in H; [by destruct m1|].
  destruct (b_free b) eqn:Eb.
  - destruct (IH _ H) as (l1 & c & l2 & -> & ? & ? & ? & ? & ?). exists (b :: l1), c, l2.
    cbn [live_of]. by rewrite Eb.
  - destruct m1 as [|x m1]; cbn [app] in H.
    + injection H as H1 H2 H3. by exists [], b, l.
    + injection H as H1 H2. destruct (IH _ H2) as (l1 & c & l2 & -> & ? & ? & ? & Hm1 & ?). exists (b :: l1), c, l2.
      cbn [live_of]. rewrite Eb. by subst.
Qed.

(** [free] of a live block succeeds and removes just that block. *)
Lemma free_spec h p s m1 m2 :
  wf h -> live h = m1 ++ (p, s) :: m2 ->
  exists h', free h p = Done h' /\ wf h' /\ live h' = m1 ++ m2.
Proof.
  intros [Ht Hb] Hl. apply live_of_split in Hl as (l1 & b & l2 & El & Hf & Hp & Hs & <- & <-).
  unfold free, wf, live. rewrite El in *. pose proof Ht as Ht'.
  apply tiled_app in Ht' as (m & H1 & H2). cbn [tiled] in H2. destruct H2 as (Ha & Hsz & H2).
  pose proof (tiled_le _ _ _ H1). pose proof (tiled_le _ _ _ H2). unfold BLOCK_SIZE, BRK_MIN, BRK_MAX in *.
  destruct (Z.eqb_spec p 0); [lia|]. replace (p - 12) with (b_addr b) by lia.
  rewrite u32_id by (unfold is_u32; lia). rewrite (free_in_at _ _ _ _ _ Ht).
  eexists. split; [reflexivity|]. cbn [blocks brk]. rewrite live_of_app. cbn [live_of b_free].
  split; [|done]. split; [|done]. apply tiled_app. exists m. split; [done|]. done.
Qed.

(** The heaps a program reaches by calling [malloc] and by freeing, once,
    blocks it holds. *)
Inductive reach : Heap -> Prop :=
  | reach_start : reach heap0
  | reach_malloc h n fuel r h' :
      reach h -> 0 <= n <= 2 ^ 31 - 32 -> malloc extend fuel h n = Done (r, h') -> reach h'
  | reach_free h p s h' : reach h -> In (p, s) (live h) -> free h p = Done h' -> reach h'.

(** Fuel only decides whether the loop gets to its end. *)
Lemma grow_loop_fuel f f' grow limit g :
  grow_loop f grow limit = Some g -> (f <= f')%nat -> grow_loop f' grow limit = Some g.
Proof.
  revert f' grow; induction f as [|f IH]; intros f' grow; cbn [grow_loop]; bcase; try done.
  - intros H Hf. destruct f'; cbn [grow_loop]; rewrite (proj2 (Z.ltb_ge _ _) E); done.
  - intros H Hf. destruct f' as [|f']; [lia|]. cbn [grow_loop]. rewrite (proj2 (Z.ltb_lt _ _) E).
    apply IH; [done|lia].
  - intros H Hf. destruct f'; cbn [grow_loop]; rewrite (proj2 (Z.ltb_ge _ _) E); done.
Qed.

Lemma more_heap_fuel f f' h need r :
  more_heap extend f h need = Done r -> (f <= f')%nat -> more_heap extend f' h need = Done r.
Proof.
  unfold more_heap. destruct (sys_brk extend h 0) as [cur h1]. bcase; [done|].
  destruct (grow_loop f _ _) as [g|] eqn:E1; [|done]. intros H Hf. by rewrite (grow_loop_fuel _ _ _ _ _ E1 Hf).
Qed.

Lemma malloc_loop_fuel f f' h size c r :
  malloc_loop extend f h size c = Done r -> (f <= f')%nat -> malloc_loop extend f' h size c = Done r.
Proof.
  revert f' h c; induction f as [|f IH]; intros f' h c H Hf; [done|]. destruct f' as [|f']; [lia|].
  cbn [malloc_loop] in *. destruct (find_block h size); [done|].
  destruct c; cbn [negb] in *; [|apply IH; [done|lia]].
  destruct (more_heap extend f h size) as [[ok h1]| |] eqn:E; try done.
  rewrite (more_heap_fuel _ f' _ _ _ E ltac:(lia)). cbn [obind] in *. destruct ok; [apply IH; [done|lia]|done].
Qed.

Lemma reach_wf h : reach h -> wf h.
Proof.
  induction 1 as [|h n fuel r h' _ IH Hn Hm|h p s h' _ IH Hin Hf].
  - split; [done|]. cbn. unfold BRK_MIN, BRK_MAX. lia.
  - unfold malloc in Hm. destruct (Z.eqb_spec n 0); [by simplify_eq|].
    pose proof (round8_bounds n ltac:(lia)). pose proof (round8_le n 268435452 ltac:(lia) ltac:(lia)).
    destruct (malloc_loop_spec h (round8 n) (Nat.max 14 fuel) IH ltac:(lia) ltac:(lia)) as (r1 & h1 & E1 & Hw & _).
    rewrite (malloc_loop_fuel fuel (Nat.max 14 fuel) _ _ _ _ Hm ltac:(lia)) in E1. by simplify_eq.
  - apply in_split in Hin as (m1 & m2 & Hl). destruct (free_spec h p s m1 m2 IH Hl) as (h1 & E1 & Hw & _).
    rewrite E1 in Hf. by simplify_eq.
Qed.

(** C17: in every heap reachable from the empty one, the blocks the program
    holds lie one after the other without overlapping, inside the memory
    between [BRK_MIN] and the break, and the break is at most [BRK_MAX];
    freeing one of them succeeds and leaves all the others as they are. *)
Theorem reachable_heap_safe h :
  reach h ->
  apart BRK_MIN (live h) (brk h) /\ brk h <= BRK_MAX /\
  forall p s m1 m2, live h = m1 ++ (p, s) :: m2 ->
    exists h', free h p = Done h' /\ reach h' /\ live h' = m1 ++ m2.
Proof.
  intros Hr. pose proof (reach_wf h Hr) as Hw. destruct Hw as [Ht Hb]. split; [by apply tiled_apart|].
  split; [lia|]. intros p s m1 m2 Hl.
  destruct (free_spec h p s m1 m2 (conj Ht Hb) Hl) as (h' & Hf & _ & Hl'). exists h'.
  split; [done|]. split; [|done]. apply (reach_free h p s); [done| |done].
  rewrite Hl. apply in_or_app. right. by left.
Qed.

Lemma tiled_size a l e b : tiled a l e -> In b l -> b_size b <= e - a.
Proof.
  revert a; induction l as [|c l IH]; intros a; cbn [tiled]; [done|]. unfold BLOCK_SIZE.
  intros (Ha & ? & Ht) [->|Hin]; [pose proof (tiled_le _ _ _ Ht); lia|]. specialize (IH _ Ht Hin). lia.
Qed.

Lemma find_block_none h size : wf h -> BRK_MAX - BRK_MIN < size -> find_block h size = None.
Proof.
  intros [Ht Hb] Hs. destruct (find_block h size) as [b|] eqn:E; [|done]. exfalso.
  apply find_in_some in E as (l1 & l2 & El & _ & Hsz).
  pose proof (tiled_size _ _ _ b Ht ltac:(rewrite El; apply in_or_app; right; left; done)). lia.
Qed.

(** a request of more than 2^31 - 32 and at most 2^32 - 32 bytes is never
    answered: [more_heap] doubles [grow] until it wraps to zero, and then
    doubles zero for ever. *)
Theorem malloc_huge_diverges h n fuel :
  wf h -> 2 ^ 31 - 32 < n <= 2 ^ 32 - 32 -> malloc extend fuel h n = NoFuel.
Proof.
  intros Hw Hn. unfold malloc. destruct (Z.eqb_spec n 0); [lia|].
  pose proof (round8_gt n 268435452 ltac:(lia) ltac:(lia)). pose proof (round8_le n 536870908 ltac:(lia) ltac:(lia)).
  set (size := round8 n) in *.
  assert (forall h, wf h -> find_block h size = None) as Hnf
    by (intros; apply find_block_none; [done|unfold BRK_MAX, BRK_MIN; lia]).
  destruct fuel as [|[|fuel]]; cbn [malloc_loop negb]; rewrite ?(Hnf h) by done; [done|done|].
  destruct (coalesce_spec h Hw) as (Hw1 & _). rewrite Hnf by done.
  unfold more_heap. change (sys_brk extend (coalesce h) 0) with (brk (coalesce h), coalesce h). cbv beta iota.
  destruct Hw1 as [_ Hb1]. destruct (Z.eqb_spec (brk (coalesce h)) (2 ^ 32 - 1)); [unfold BRK_MAX in Hb1; lia|].
  change HEAP_LUMP with (2 ^ 20). unfold BLOCK_SIZE, MIN_ALLOC.
  rewrite (u32_id (size + 12 + 16)) by (unfold is_u32; lia). rewrite grow_loop_diverges by lia. done.
Qed.

End Correctness.

(** a request of 2^32 - 7 to 2^32 - 1 bytes is rounded up to zero and
    succeeds, with a block that has no room at all. *)
Theorem malloc_wraps_to_nothing n :
  2 ^ 32 - 7 <= n < 2 ^ 32 ->
  exists h', malloc grant_all 20 heap0 n = Done (Some (BRK_MIN + 12), h') /\ live h' = [(BRK_MIN + 12, 0)].
Proof.
  intros Hn. assert (round8 n = 0) as E.
  { assert (n = 2^32 - 7 \/ n = 2^32 - 6 \/ n = 2^32 - 5 \/ n = 2^32 - 4 \/ n = 2^32 - 3 \/ n = 2^32 - 2 \/ n = 2^32 - 1)
      as H by lia. by repeat destruct H as [->|H]; subst. }
  unfold malloc. rewrite E. destruct (Z.eqb_spec n 0); [lia|]. eexists. split; vm_compute; reflexivity.
Qed.

Lemma malloc_wraps_to_nothing_witness :
  exists h', malloc grant_all 20 heap0 (2 ^ 32 - 1) = Done (Some (BRK_MIN + 12), h') /\ live h' = [(BRK_MIN + 12, 0)].
Proof. apply (malloc_wraps_to_nothing (2 ^ 32 - 1)). lia. Defined.

Lemma heap0_wf : wf heap0.
Proof. split; [done|]. cbn. unfold BRK_MIN, BRK_MAX. lia. Qed.

Lemma malloc_huge_diverges_witness : malloc grant_all 100 heap0 (2 ^ 31) = NoFuel.
Proof. apply malloc_huge_diverges; [apply heap0_wf|lia]. Defined.


(** Two blocks taken, the first freed. *)
Definition heap_sample : outcome Heap :=
  let* (p, h) := malloc grant_all 20 heap0 100 in
  let* (q, h) := malloc grant_all 20 h 24 in
  match p with Some p => free h p | None => Trap end.

Lemma reachable_heap_safe_witness :
  exists h, heap_sample = Done h /\ live h = [(BRK_MIN + 12 + 104 + 12, 24)] /\
    apart BRK_MIN (live h) (brk h) /\ brk h <= BRK_MAX.
Proof.
  eexists. split; [vm_compute; reflexivity|]. split; [reflexivity|].
  pose proof (reachable_heap_safe grant_all) as H. 
  match goal with |- apart _ (live ?h) _ /\ _ => specialize (H h) end.
  destruct H as (H1 & H2 & _); [|exact (conj H1 H2)].
  eapply (reach_free _ _ (BRK_MIN + 12) 104);
    [eapply (reach_malloc _ _ 24 20); [eapply (reach_malloc _ _ 100 20); [apply reach_start|lia|vm_compute; reflexivity]
      |lia|vm_compute; reflexivity]
    |left; reflexivity|vm_compute; reflexivity].
Defined.

(** The heap as the allocator the string buffer relies on: requests below
    2^31 - 32 bytes; [mem] is what the memory happens to hold. *)
Definition heap_alloc (extend : Z -> Z -> bool) (h : Heap) (mem : Z -> Z) (n : Z) : option (list Z) :=
  if (0 <? n) && (n <=? 2 ^ 31 - 32) then
    match malloc extend 14 h n with
    | Done (Some p, _) => Some (map (fun i => mem (p + Z.of_nat i)) (seq 0 (Z.to_nat n)))
    | _ => None
    end
  else None.

Lemma heap_alloc_length extend h mem n b : heap_alloc extend h mem n = Some b -> length b = Z.to_nat n.
Proof.
  unfold heap_alloc. bcase; [|done]. destruct (malloc extend 14 h n) as [[[p|] h']| |]; try done.
  intros [= <-]. by rewrite length_map, length_seq.
Qed.

Definition heap_allocator (extend : Z -> Z -> bool) (h : Heap) (mem : Z -> Z) : Allocator :=
  {| alloc := heap_alloc extend h mem; alloc_length := heap_alloc_length extend h mem |}.

(** The bytes it hands out are the first of a live block of the new heap. *)
Lemma heap_allocator_live extend h mem n b :
  wf h -> @alloc (heap_allocator extend h mem) n = Some b ->
  exists p sz h', malloc extend 14 h n = Done (Some p, h') /\ wf h' /\ In (p, sz) (live h') /\
    Z.of_nat (length b) <= sz.
Proof.
  intros Hw. cbn [alloc heap_allocator]. unfold heap_alloc. bcase; [|done]. pose proof (round8_bounds n ltac:(lia)).
  pose proof (round8_le n 268435452 ltac:(lia) ltac:(lia)).
  destruct (malloc_loop_spec extend h (round8 n) 14 Hw ltac:(lia) ltac:(lia)) as (r & h' & E1 & Hw' & Hs).
  assert (malloc extend 14 h n = Done (r, h')) as Em by (unfold malloc; destruct (Z.eqb_spec n 0); [lia|done]).
  rewrite Em. destruct r as [p|]; [|done]. intros [= <-]. destruct Hs as (sz & l1 & l2 & Hsz & _ & Hl).
  exists p, sz, h'. split; [done|]. split; [done|]. split; [rewrite Hl; apply in_or_app; right; by left|].
  rewrite length_map, length_seq. lia.
Qed.
