(* ===== verification/Printf.v ===== *)
(** vlibc's formatted output ([vlibc/src/stdio/printf.c], [putchar.c],
    [puts.c]).

    A sink is the C struct together with what has been written to standard
    output; [None] is a store outside the caller's buffer, a conversion with
    no argument of its kind, or a read past the end of the format. *)
From S2P Require Import Prelude CString StrBuf.

Inductive sink_kind := SINK_STDOUT | SINK_BUFFER.

Record sink := mkSink {
  k_kind : sink_kind; k_buf : option (list Z); k_cap : Z; k_len : Z; k_pos : Z;
  k_out : list Z }.

(** The words of a [va_list]: on i386 an [int] and a [long] take one each. *)
Inductive arg :=
  | AWord (w : Z)
  | AStr (s : option (list Z)).

(** [putchar] writes one byte to standard output and returns its argument. *)
Definition putchar (out : list Z) (c : Z) : list Z * Z := (out ++ [u8 c], c).

Definition puts (out : list Z) (str : option (list Z)) : list Z * Z :=
  match str with
  | None => (out, -1)
  | Some str => (fst (putchar (out ++ take (Z.to_nat (strlen str)) str) 10), 0)
  end.

Definition sink_char (s : sink) (c : Z) : option sink :=
  match k_kind s with
  | SINK_STDOUT =>
      Some (mkSink (k_kind s) (k_buf s) (k_cap s) (u32 (k_len s + 1)) (u32 (k_pos s + 1))
              (fst (putchar (k_out s) c)))
  | SINK_BUFFER =>
      let count b := mkSink (k_kind s) b (k_cap s) (u32 (k_len s + 1)) (u32 (k_pos s + 1)) (k_out s) in
      if u32 (k_pos s + 1) <? k_cap s then
        match store (k_buf s) (k_pos s) (u8 c) with
        | Some b => Some (count (Some b))
        | None => None
        end
      else Some (count (k_buf s))
  end.

Fixpoint sink_str (s : sink) (str : list Z) (n : nat) : option sink :=
  match n with
  | O => Some s
  | S n' =>
      match sink_char s (ch str) with
      | Some s => sink_str s (tail str) n'
      | None => None
      end
  end.

Definition hex_digits : list Z := cs "0123456789abcdef".

(** The recursion divides by 16; eight levels are enough for 32 bits. *)
Fixpoint print_hex (fuel : nat) (s : sink) (num : Z) : option sink :=
  let rest s := sink_char s (at_ hex_digits (Z.to_nat (num mod 16))) in
  if 16 <=? num then
    match fuel with
    | O => None
    | S f => match print_hex f s (num / 16) with Some s => rest s | None => None end
    end
  else rest s.

(** The digits written from the back into what is left of [buffer]. *)
Fixpoint back_fill (room : nat) (num : Z) (acc : list Z) : option (list Z) :=
  if num =? 0 then Some acc
  else
    match room with
    | O => None
    | S r => back_fill r (num / 10) (u8 (48 + num mod 10) :: acc)
    end.

Definition print_unsigned (s : sink) (num : Z) : option sink :=
  match (if num =? 0 then Some [48] else back_fill 23 num []) with
  | Some digits => sink_str s digits (length digits)
  | None => None
  end.

Definition print_signed (s : sink) (num : Z) : option sink :=
  if num <? 0 then
    match sink_char s 45 with
    | Some s => print_unsigned s (u32 (u32 (- (num + 1)) + 1))
    | None => None
    end
  else print_unsigned s (u32 num).

(** One conversion: the character after [%] (and after [l]). *)
Definition conversion (s : sink) (is_long : bool) (c : Z) (args : list arg) : option (sink * list arg) :=
  let with_args r args := match r with Some s => Some (s, args) | None => None end in
  if c =? chr "s" then
    match args with
    | AStr str :: args =>
        let str := default (cs "(null)") str in
        with_args (sink_str s str (Z.to_nat (strlen str))) args
    | _ => None
    end
  else if (c =? chr "d") || (c =? chr "i") then
    match args with AWord w :: args => with_args (print_signed s (s32 w)) args | _ => None end
  else if c =? chr "u" then
    match args with AWord w :: args => with_args (print_unsigned s (u32 w)) args | _ => None end
  else if c =? chr "x" then
    match args with AWord w :: args => with_args (print_hex 8 s (u32 w)) args | _ => None end
  else if c =? chr "c" then
    match args with AWord w :: args => with_args (sink_char s w) args | _ => None end
  else if c =? chr "%" then with_args (sink_char s 37) args
  else
    match sink_char s 37 with
    | None => None
    | Some s =>
        match (if is_long then sink_char s 108 else Some s) with
        | None => None
        | Some s => with_args (sink_char s c) args
        end
    end.

(** A format that ends inside a conversion: the loop's [p++] steps over the
    NUL and goes on reading behind the string. *)
Fixpoint vformat (s : sink) (p : list Z) (args : list arg) : option sink :=
  match p with
  | [] => Some s
  | c :: p =>
      if negb (c =? 37) then
        match sink_char s c with Some s => vformat s p args | None => None end
      else
        match p with
        | [] => None
        | d :: p1 =>
            if d =? 108 then
              match p1 with
              | [] => None
              | e :: p2 =>
                  match conversion s true e args with
                  | Some (s, args) => vformat s p2 args
                  | None => None
                  end
              end
            else
              match conversion s false d args with
              | Some (s, args) => vformat s p1 args
              | None => None
              end
        end
  end.

(** What was written to standard output, and the [int] returned. *)
Definition vprintf (out format : list Z) (args : list arg) : option (list Z * Z) :=
  match vformat (mkSink SINK_STDOUT None 0 0 0 out) format args with
  | Some s => Some (k_out s, s32 (k_len s))
  | None => None
  end.

Definition vsnprintf (buf : option (list Z)) (size : Z) (format : list Z) (args : list arg)
    : option (option (list Z) * Z) :=
  match vformat (mkSink SINK_BUFFER buf size 0 0 []) format args with
  | None => None
  | Some s =>
      if (match buf with Some _ => true | None => false end) && (0 <? size) then
        match store (k_buf s) (if k_pos s <? size then k_pos s else size - 1) 0 with
        | Some b => Some (Some b, s32 (k_len s))
        | None => None
        end
      else Some (k_buf s, s32 (k_len s))
  end.

Definition printf (out format : list Z) (args : list arg) : option (list Z * Z) := vprintf out format args.
Definition snprintf (buf : option (list Z)) (size : Z) (format : list Z) (args : list arg)
    : option (option (list Z) * Z) := vsnprintf buf size format args.

Example printf_ex : printf [] (cs "%d-%x:%s%%") [AWord (-42); AWord 255; AStr (Some (cs "ok"))] =
  Some (cs "-42-ff:ok%", 10).
Proof. reflexivity. Qed.
Example snprintf_ex : snprintf (Some [1; 1; 1]) 3 (cs "abc") [] = Some (Some (cs "ab" ++ [0]), 3).
Proof. reflexivity. Qed.

(** * The text of a format *)

Fixpoint hex (fuel : nat) (num : Z) : list Z :=
  match fuel with
  | O => []
  | S f => (if 16 <=? num then hex f (num / 16) else []) ++ [at_ hex_digits (Z.to_nat (num mod 16))]
  end.

Definition conv_text (is_long : bool) (c : Z) (args : list arg) : option (list Z * list arg) :=
  if c =? chr "s" then
    match args with
    | AStr str :: args =>
        let str := default (cs "(null)") str in
        Some (map u8 (take (Z.to_nat (strlen str)) str), args)
    | _ => None
    end
  else if (c =? chr "d") || (c =? chr "i") then
    match args with AWord w :: args => Some (itoa (s32 w), args) | _ => None end
  else if c =? chr "u" then
    match args with AWord w :: args => Some (dec (u32 w), args) | _ => None end
  else if c =? chr "x" then
    match args with AWord w :: args => Some (hex 9 (u32 w), args) | _ => None end
  else if c =? chr "c" then
    match args with AWord w :: args => Some ([u8 w], args) | _ => None end
  else if c =? chr "%" then Some ([37], args)
  else Some ([37] ++ (if is_long then [108] else []) ++ [u8 c], args).

Fixpoint render (p : list Z) (args : list arg) : option (list Z) :=
  match p with
  | [] => Some []
  | c :: p =>
      if negb (c =? 37) then option_map (cons (u8 c)) (render p args)
      else
        match p with
        | [] => None
        | d :: p1 =>
            if d =? 108 then
              match p1 with
              | [] => None
              | e :: p2 =>
                  match conv_text true e args with
                  | Some (t, args) => option_map (app t) (render p2 args)
                  | None => None
                  end
              end
            else
              match conv_text false d args with
              | Some (t, args) => option_map (app t) (render p1 args)
              | None => None
              end
        end
  end.

(** A text put in a sink byte by byte. *)
Fixpoint emits (s : sink) (t : list Z) : option sink :=
  match t with
  | [] => Some s
  | c :: t => match sink_char s c with Some s => emits s t | None => None end
  end.

Lemma emits_app s t1 t2 :
  emits s (t1 ++ t2) = match emits s t1 with Some s => emits s t2 | None => None end.
Proof. revert s; induction t1 as [|c t1 IH]; intros s; cbn; [done|]. by destruct (sink_char s c). Qed.

Lemma u8_u8 c : u8 (u8 c) = u8 c.
Proof. apply u8_id, u8_range. Qed.

Lemma sink_char_u8 s c : sink_char s (u8 c) = sink_char s c.
Proof. unfold sink_char, putchar. by rewrite !u8_u8. Qed.

Lemma emits_u8 s t : emits s (map u8 t) = emits s t.
Proof.
  revert s; induction t as [|c t IH]; intros s; cbn; [done|]. rewrite sink_char_u8.
  destruct (sink_char s c); auto.
Qed.

Lemma strlen_le s : 0 <= strlen s <= Z.of_nat (length s).
Proof. induction s as [|c s IH]; cbn [strlen length]; [lia|]. bcase; lia. Qed.

Lemma sink_str_emits s t n : (n <= length t)%nat -> sink_str s t n = emits s (take n t).
Proof.
  revert s t; induction n as [|n IH]; intros s t Hn; cbn [sink_str]; [by rewrite take_0|].
  destruct t as [|c t]; [simpl in Hn; lia|]. cbn [take emits tail]. change (ch (c :: t)) with c.
  destruct (sink_char s c); [|done]. apply IH. simpl in Hn. lia.
Qed.

Lemma print_hex_emits f s num :
  0 <= num < 16 ^ Z.of_nat (S f) -> print_hex f s num = emits s (hex (S f) num).
Proof.
  revert s num; induction f as [|f IH]; intros s num Hn.
  - change (16 ^ Z.of_nat 1) with 16 in Hn. cbn [print_hex hex]. destruct (Z.leb_spec 16 num); [lia|].
    cbn [app emits]. by destruct (sink_char s _).
  - rewrite Nat2Z.inj_succ, Z.pow_succ_r in Hn by lia.
    change (hex (S (S f)) num) with
      ((if 16 <=? num then hex (S f) (num / 16) else []) ++ [at_ hex_digits (Z.to_nat (num mod 16))]).
    cbn [print_hex]. destruct (Z.leb_spec 16 num).
    + rewrite emits_app, <- IH. 2:{ split; [apply Z.div_pos; lia|apply Z.div_lt_upper_bound; lia]. }
      destruct (print_hex f s (num / 16)); [|done]. cbn [emits]. by destruct (sink_char _ _).
    + cbn [app emits]. by destruct (sink_char s _).
Qed.

Lemma back_fill_digits r k num acc :
  0 <= num < 10 ^ Z.of_nat r -> num < 10 ^ Z.of_nat k ->
  back_fill r num acc = Some (rev (utoa_digits k num) ++ acc).
Proof.
  revert k num acc; induction r as [|r IH]; intros k num acc Hr Hk.
  - change (10 ^ Z.of_nat 0) with 1 in Hr. assert (num = 0) as -> by lia. cbn [back_fill].
    destruct k; done.
  - cbn [back_fill]. destruct (Z.eqb_spec num 0) as [->|]; [by destruct k|].
    destruct k as [|k]; [change (10 ^ Z.of_nat 0) with 1 in Hk; lia|].
    rewrite Nat2Z.inj_succ, Z.pow_succ_r in Hr, Hk by lia.
    rewrite (IH k) by ((split; [apply Z.div_pos; lia|apply Z.div_lt_upper_bound; lia]) ||
      (apply Z.div_lt_upper_bound; lia)).
    cbn [utoa_digits]. destruct (Z.ltb_spec 0 num); [|lia]. cbn [rev]. by rewrite <- app_assoc.
Qed.

Lemma print_unsigned_emits s num : 0 <= num < 2 ^ 32 -> print_unsigned s num = emits s (dec num).
Proof.
  intros Hn. unfold print_unsigned, dec. destruct (Z.eqb_spec num 0).
  - change (length [48]) with 1%nat. by rewrite sink_str_emits.
  - rewrite (back_fill_digits 23 31) by
      (change (10 ^ Z.of_nat 23) with (10 ^ 23); change (10 ^ Z.of_nat 31) with (10 ^ 31); lia).
    rewrite app_nil_r, sink_str_emits by lia. by rewrite firstn_all.
Qed.

Lemma print_signed_emits s num : is_s32 num -> print_signed s num = emits s (itoa num).
Proof.
  unfold is_s32. intros Hn. unfold print_signed, itoa. destruct (Z.ltb_spec num 0).
  - cbn [emits]. destruct (sink_char s 45); [|done].
    rewrite (u32_id (- (num + 1))) by (unfold is_u32; lia). rewrite u32_id by (unfold is_u32; lia).
    replace (- (num + 1) + 1) with (- num) by lia. apply print_unsigned_emits. lia.
  - rewrite u32_id by (unfold is_u32; lia). apply print_unsigned_emits. lia.
Qed.

Lemma conversion_emits s l c args :
  conversion s l c args =
    match conv_text l c args with
    | Some (t, args) => match emits s t with Some s => Some (s, args) | None => None end
    | None => None
    end.
Proof.
  unfold conversion, conv_text. bcase.
  { destruct args as [|[w|str] args]; try done. rewrite emits_u8, sink_str_emits; [done|].
    pose proof (strlen_le (default (cs "(null)") str)). lia. }
  bcase. { destruct args as [|[w|str] args]; try done. by rewrite print_signed_emits by apply s32_range. }
  bcase. { destruct args as [|[w|str] args]; try done. by rewrite print_unsigned_emits by apply u32_range. }
  bcase. { destruct args as [|[w|str] args]; try done. rewrite print_hex_emits; [done|].
           pose proof (u32_range w) as Hw. unfold is_u32 in Hw. change (16 ^ Z.of_nat 9) with (2 ^ 36). lia. }
  bcase. { destruct args as [|[w|str] args]; try done. cbn [emits]. rewrite sink_char_u8. by destruct (sink_char s w). }
  bcase. { cbn [emits]. by destruct (sink_char s 37). }
  cbn [app emits]. destruct (sink_char s 37) as [s1|]; [|done].
  destruct l; cbn [app emits]; [destruct (sink_char s1 108) as [s2|]; [|done]|];
    rewrite sink_char_u8; by destruct (sink_char _ c).
Qed.

Lemma vformat_emits s p args :
  vformat s p args = match render p args with Some t => emits s t | None => None end.
Proof.
  revert s args. induction p as [p IH] using (induction_ltof1 _ (@length Z)); unfold ltof in IH.
  intros s args. destruct p as [|c p]; [done|]. cbn [vformat render]. bcase.
  - assert (forall s, vformat s p args = match render p args with Some t => emits s t | None => None end) as IHp
      by (intros; apply IH; simpl; lia).
    destruct (render p args) as [t|]; cbn [option_map emits]; rewrite ?sink_char_u8;
      destruct (sink_char s c); auto; apply IHp.
  - destruct p as [|d p]; [done|].
    assert (forall l p' e, (length p' <= length p)%nat ->
      match conversion s l e args with Some (s, args) => vformat s p' args | None => None end =
      match match conv_text l e args with
            | Some (t, args) => option_map (app t) (render p' args) | None => None end
      with Some t => emits s t | None => None end) as Hc.
    { intros l p' e Hl. rewrite conversion_emits. destruct (conv_text l e args) as [[t args']|]; [|done].
      assert (forall s, vformat s p' args' = match render p' args' with Some t => emits s t | None => None end) as IHp
        by (intros; apply IH; simpl; lia).
      destruct (render p' args') as [t'|]; cbn [option_map]; rewrite ?emits_app;
        destruct (emits s t); auto; apply IHp. }
    bcase; [destruct p as [|e p]; [done|]|]; apply Hc; simpl; lia.
Qed.

(** * What the entry points leave behind *)

(** The caller's buffer [b] after the text [t] has been put through a sink of
    capacity [cap]. *)
Definition fitted (cap : Z) (t b : list Z) : list Z :=
  let m := take (Z.to_nat (cap - 1)) t in m ++ drop (length m) b.

Lemma fitted_step cap t b c :
  0 < cap -> cap <= Z.of_nat (length b) ->
  fitted cap (t ++ [c]) b =
    if Z.of_nat (length t) + 1 <? cap then <[length t := c]> (fitted cap t b) else fitted cap t b.
Proof.
  intros Hc Hb. unfold fitted. destruct (Z.ltb_spec (Z.of_nat (length t) + 1) cap).
  - rewrite !firstn_all2 by (rewrite ?length_app; simpl; lia).
    rewrite length_app. simpl. rewrite insert_app_r_alt, Nat.sub_diag, <- app_assoc by lia. f_equal.
    destruct (drop (length t) b) as [|x r] eqn:E.
    + apply (f_equal length) in E. rewrite length_drop in E. simpl in E. lia.
    + cbn. f_equal. rewrite <- drop_drop, E. done.
  - rewrite take_app_le by lia. done.
Qed.

Lemma length_fitted cap t b : 0 < cap -> cap <= Z.of_nat (length b) -> length (fitted cap t b) = length b.
Proof. intros. unfold fitted. rewrite length_app, length_drop, length_take. lia. Qed.

Lemma emits_buffer cap b t0 t :
  0 < cap < 2 ^ 32 -> cap <= Z.of_nat (length b) -> bytes t -> Z.of_nat (length t0 + length t) < 2 ^ 32 - 1 ->
  emits (mkSink SINK_BUFFER (Some (fitted cap t0 b)) cap (Z.of_nat (length t0)) (Z.of_nat (length t0)) []) t =
  Some (mkSink SINK_BUFFER (Some (fitted cap (t0 ++ t) b)) cap (Z.of_nat (length t0 + length t))
          (Z.of_nat (length t0 + length t)) []).
Proof.
  intros Hc Hb Ht. revert t0; induction Ht as [|c t Hx Ht IH]; intros t0 Hl.
  - cbn [emits length]. by rewrite app_nil_r, Nat.add_0_r.
  - cbn [length] in Hl. specialize (IH (t0 ++ [c])). rewrite length_app in IH. cbn [length] in IH.
    rewrite <- app_assoc in IH. cbn [app] in IH.
    replace (length t0 + length (c :: t))%nat with (length t0 + 1 + length t)%nat by (simpl; lia).
    rewrite <- IH by lia. cbn [emits]. unfold sink_char at 1. cbn [k_kind k_pos k_cap k_buf k_len k_out].
    rewrite u32_id by (unfold is_u32; lia). rewrite Nat2Z.inj_add. change (Z.of_nat 1) with 1.
    rewrite fitted_step by lia. destruct (Z.ltb_spec (Z.of_nat (length t0) + 1) cap); [|done].
    unfold store. rewrite length_fitted by lia.
    destruct (Z.leb_spec 0 (Z.of_nat (length t0))); [|lia].
    destruct (Z.ltb_spec (Z.of_nat (length t0)) (Z.of_nat (length b))); [|lia]. cbn [andb].
    rewrite u8_u8, Nat2Z.id. by rewrite (u8_id c).
Qed.

Lemma emits_count s t :
  k_kind s = SINK_BUFFER -> k_cap s = 0 -> 0 <= k_len s -> k_len s + Z.of_nat (length t) < 2 ^ 32 ->
  exists p, emits s t = Some (mkSink SINK_BUFFER (k_buf s) 0 (k_len s + Z.of_nat (length t)) p (k_out s)).
Proof.
  revert s; induction t as [|c t IH]; intros s Hk Hc Hp Hl.
  - exists (k_pos s). cbn [emits length]. rewrite Z.add_0_r. destruct s; cbn in *; by subst.
  - cbn [length] in Hl. cbn [emits]. unfold sink_char. rewrite Hk, Hc. pose proof (u32_range (k_pos s + 1)) as Hr.
    unfold is_u32 in Hr. destruct (Z.ltb_spec (u32 (k_pos s + 1)) 0); [lia|].
    edestruct IH as (p & Hp'); [| | | |rewrite Hp'; exists p]; cbn; try done;
      rewrite ?u32_id by (unfold is_u32; lia); try lia. do 2 f_equal. lia.
Qed.

Lemma emits_stdout s t :
  k_kind s = SINK_STDOUT -> 0 <= k_len s -> k_len s + Z.of_nat (length t) < 2 ^ 32 ->
  exists s', emits s t = Some s' /\ k_out s' = k_out s ++ map u8 t /\ k_len s' = k_len s + Z.of_nat (length t).
Proof.
  revert s; induction t as [|c t IH]; intros s Hk Hp Hl.
  - exists s. cbn. rewrite app_nil_r, Z.add_0_r. done.
  - cbn [length] in Hl. cbn [emits]. unfold sink_char. rewrite Hk.
    edestruct IH as (s' & Hs & Ho & Hn); [| | |rewrite Hs; exists s'; split; [done|rewrite Ho, Hn]]; cbn;
      rewrite ?u32_id by (unfold is_u32; lia); try done; try lia.
    split; [|lia]. by rewrite <- app_assoc.
Qed.

Lemma dec_bytes n : 0 <= n -> bytes (dec n).
Proof. intros H. eapply Forall_impl; [by apply dec_digits|]. unfold is_u8. cbn. lia. Qed.

Lemma hex_bytes f n : bytes (hex f n).
Proof.
  revert n; induction f as [|f IH]; intros n; cbn [hex]; [constructor|]. apply Forall_app. split.
  - destruct (16 <=? n); [apply IH|constructor].
  - repeat constructor; apply bytes_at; repeat constructor; unfold is_u8; cbn; lia.
Qed.

Lemma conv_bytes l c args t args' : conv_text l c args = Some (t, args') -> bytes t.
Proof.
  assert (forall x, bytes [u8 x]) as Hu by (intros; repeat constructor; apply u8_range).
  unfold conv_text. bcase.
  { destruct args as [|[w|str] args]; try done; intros [= <- <-].
    apply Forall_map, Forall_forall. intros; apply u8_range. }
  bcase.
  { destruct args as [|[w|str] args]; try done; intros [= <- <-].
    unfold itoa. pose proof (s32_range w) as Hw. unfold is_s32 in Hw.
    destruct (Z.ltb_spec (s32 w) 0); [constructor; [unfold is_u8; lia|]|]; apply dec_bytes; lia. }
  bcase.
  { destruct args as [|[w|str] args]; try done; intros [= <- <-]. apply dec_bytes. apply u32_range. }
  bcase.
  { destruct args as [|[w|str] args]; try done; intros [= <- <-]. exact (hex_bytes 9 (u32 w)). }
  bcase.
  { destruct args as [|[w|str] args]; try done; intros [= <- <-]. apply Hu. }
  bcase; intros [= <- <-]; [repeat constructor; unfold is_u8; lia|].
  destruct l; repeat constructor; unfold is_u8; try lia; apply u8_range.
Qed.

Lemma render_bytes p args t : render p args = Some t -> bytes t.
Proof.
  revert args t. induction p as [p IH] using (induction_ltof1 _ (@length Z)); unfold ltof in IH.
  intros args t. destruct p as [|c p]; cbn [render]; [intros [= <-]; constructor|]. bcase.
  - destruct (render p args) as [t'|] eqn:Er; [|done]. intros [= <-].
    constructor; [apply u8_range|]. eapply (IH p); [simpl; lia|exact Er].
  - assert (forall l p' e, (length p' < length (c :: p))%nat ->
      match conv_text l e args with Some (t, args) => option_map (app t) (render p' args) | None => None end = Some t ->
      bytes t) as Hc.
    { intros l p' e Hl. destruct (conv_text l e args) as [[t1 args']|] eqn:E1; [|done].
      destruct (render p' args') as [t'|] eqn:Er; [|done]. intros [= <-]. apply Forall_app. split.
      - by eapply conv_bytes.
      - by eapply IH. }
    destruct p as [|d p]; [done|]. bcase; [destruct p as [|e p]; [done|]|]; apply Hc; simpl; lia.
Qed.

Lemma map_u8_id t : bytes t -> map u8 t = t.
Proof. induction 1 as [|c t Hc Ht IH]; cbn; [done|]. rewrite u8_id by done. by f_equal. Qed.

Lemma vsnprintf_fits format args t b size :
  render format args = Some t -> bytes t -> Z.of_nat (length t) < 2 ^ 31 ->
  0 < size < 2 ^ 32 -> size <= Z.of_nat (length b) ->
  let k := Nat.min (length t) (Z.to_nat (size - 1)) in
  vsnprintf (Some b) size format args = Some (Some (take k t ++ 0 :: drop (S k) b), Z.of_nat (length t)).
Proof.
  intros Hr Hb Hl Hs Hsb k.
  unfold vsnprintf. rewrite vformat_emits, Hr.
  pose proof (emits_buffer size b [] t Hs Hsb Hb ltac:(simpl; lia)) as He.
  assert (fitted size [] b = b) as E0 by (unfold fitted; by rewrite firstn_nil).
  rewrite E0 in He. cbn [length Nat.add] in He. change (Z.of_nat 0) with 0 in He. rewrite He.
  destruct (Z.ltb_spec 0 size); [|lia]. cbn [andb k_buf k_pos k_len].
  assert ((if Z.of_nat (length t) <? size then Z.of_nat (length t) else size - 1) = Z.of_nat k) as ->
    by (unfold k; destruct (Z.ltb_spec (Z.of_nat (length t)) size); lia).
  unfold store. rewrite length_fitted by lia.
  destruct (Z.leb_spec 0 (Z.of_nat k)); [|lia].
  destruct (Z.ltb_spec (Z.of_nat k) (Z.of_nat (length b))); [|lia]. cbn [andb].
  rewrite s32_id by (unfold is_s32; lia). do 3 f_equal. rewrite Nat2Z.id. change (u8 0) with 0.
  unfold fitted. cbn [app]. assert (take (Z.to_nat (size - 1)) t = take k t) as ->.
  { unfold k. destruct (Nat.le_gt_cases (length t) (Z.to_nat (size - 1))).
    - rewrite !firstn_all2 by lia. done.
    - by rewrite Nat.min_r by lia. }
  assert (length (take k t) = k) as Hk by (rewrite length_take; lia). rewrite Hk.
  rewrite <- Hk at 1. rewrite insert_app_r_alt, Nat.sub_diag by lia. f_equal.
  destruct (drop k b) as [|x r] eqn:E; [apply (f_equal length) in E; rewrite length_drop in E; simpl in E; lia|].
  cbn. f_equal. rewrite <- Nat.add_1_r, <- drop_drop, E. done.
Qed.

Lemma vprintf_text out format args t :
  render format args = Some t -> Z.of_nat (length t) < 2 ^ 31 ->
  vprintf out format args = Some (out ++ t, Z.of_nat (length t)).
Proof.
  intros Hr Hl. unfold vprintf. rewrite vformat_emits, Hr.
  destruct (emits_stdout (mkSink SINK_STDOUT None 0 0 0 out) t) as (s & -> & -> & ->); cbn; try done; try lia.
  rewrite s32_id by (unfold is_s32; lia). by rewrite map_u8_id by (by eapply render_bytes).
Qed.



Lemma render_text p q args :
  Forall (fun c => c <> 37) p -> render (p ++ q) args = option_map (app (map u8 p)) (render q args).
Proof.
  induction 1 as [|c p Hc Hp IH]; cbn [app render map]; [by destruct (render q args)|].
  rewrite (proj2 (Z.eqb_neq _ _) Hc). cbn [negb]. rewrite IH. by destruct (render q args).
Qed.

(** a format that ends in a lone [%] (or in [%l]) makes both entry points
    read past its terminating NUL, whatever comes before. *)
Theorem vformat_dangling_percent p s args :
  Forall (fun c => c <> 37) p ->
  vformat s (p ++ cs "%") args = None /\ vformat s (p ++ cs "%l") args = None.
Proof. intros Hp. rewrite !vformat_emits, !render_text by done. done. Qed.

Lemma vformat_dangling_percent_witness : vprintf [] (cs "100%") [] = None.
Proof.
  unfold vprintf. rewrite (proj1 (vformat_dangling_percent (cs "100") _ [] ltac:(repeat constructor; cbn; lia))).
  reflexivity.
Defined.

Lemma atol_itoa v : is_s32 v -> atol (itoa v) = v /\ atoi (itoa v) = v.
Proof. intros Hv. pose proof (sh_atol_itoa v Hv) as H. split; exact H. Qed.

Definition hex_value (t : list Z) : Z :=
  fold_left (fun a c => a * 16 + (if c <? 97 then c - 48 else c - 87)) t 0.

Lemma hex_digit_value n : 0 <= n < 16 ->
  let c := at_ hex_digits (Z.to_nat n) in (if c <? 97 then c - 48 else c - 87) = n.
Proof.
  intros Hn c. apply Z.eqb_eq. unfold c. clear c. set (P := fun k => (let c := at_ hex_digits k in if c <? 97 then c - 48 else c - 87) =? Z.of_nat k).
  assert (forallb P (seq 0 16) = true) as H by (vm_compute; reflexivity).
  apply forallb_forall with (x := Z.to_nat n) in H; [|apply in_seq; lia]. unfold P in H. by rewrite Z2Nat.id in H by lia.
Qed.

Lemma hex_len f n : (length (hex f n) <= f)%nat.
Proof.
  revert n; induction f as [|f IH]; intros n; cbn [hex]; [simpl; lia|]. rewrite length_app. simpl.
  specialize (IH (n / 16)). destruct (16 <=? n); simpl; lia.
Qed.

Lemma hex_value_hex f n : 0 <= n < 16 ^ Z.of_nat f -> hex_value (hex f n) = n.
Proof.
  revert n; induction f as [|f IH]; intros n Hn; [change (16 ^ Z.of_nat 0) with 1 in Hn; cbn; lia|].
  rewrite Nat2Z.inj_succ, Z.pow_succ_r in Hn by lia. cbn [hex]. unfold hex_value in *. rewrite fold_left_app.
  cbn [fold_left]. pose proof (Z.mod_pos_bound n 16 ltac:(lia)). rewrite hex_digit_value by lia.
  pose proof (Z_div_mod_eq_full n 16). destruct (Z.leb_spec 16 n).
  - rewrite IH; [lia|]. split; [apply Z.div_pos; lia|apply Z.div_lt_upper_bound; lia].
  - cbn. rewrite (Z.div_small n 16) in * by lia. lia.
Qed.

(** numbers survive the trip through text: what [%d] prints is read back
    by [atol] and [atoi] as the same number for every 32-bit value, [%u]'s
    digits have the number as their decimal value and [%x]'s as their
    hexadecimal value. *)
Theorem printf_numbers_roundtrip v w :
  is_s32 v -> is_u32 w ->
  exists td tu tx,
    vprintf [] (cs "%d") [AWord v] = Some (td, Z.of_nat (length td)) /\ atol td = v /\ atoi td = v /\
    vprintf [] (cs "%u") [AWord w] = Some (tu, Z.of_nat (length tu)) /\ dec_val 0 tu = w /\
    vprintf [] (cs "%lx") [AWord w] = Some (tx, Z.of_nat (length tx)) /\ hex_value tx = w.
Proof.
  intros Hv Hw. exists (itoa v), (dec w), (hex 9 w). destruct (atol_itoa v Hv) as [Ha1 Ha2].
  unfold is_s32, is_u32 in *. pose proof (dec_len w Hw). pose proof (hex_len 9 w).
  assert (length (itoa v) <= 11)%nat.
  { unfold itoa. destruct (Z.ltb_spec v 0); cbn [length]; [pose proof (dec_len (- v))|pose proof (dec_len v)]; lia. }
  repeat split; try done; try (apply (vprintf_text []); [cbn [render]; try reflexivity|lia]).
  - change (Some ((itoa (s32 v)) ++ []) = Some (itoa v)). by rewrite app_nil_r, s32_id.
  - change (Some ((dec (u32 w)) ++ []) = Some (dec w)). by rewrite app_nil_r, u32_id.
  - apply dec_value. lia.
  - change (Some ((hex 9 (u32 w)) ++ []) = Some (hex 9 w)). by rewrite app_nil_r, u32_id.
  - apply hex_value_hex. change (16 ^ Z.of_nat 9) with (2 ^ 36). lia.
Qed.

Lemma printf_numbers_roundtrip_witness :
  exists td tu tx,
    vprintf [] (cs "%d") [AWord (- 2 ^ 31)] = Some (td, Z.of_nat (length td)) /\ atol td = - 2 ^ 31 /\
    atoi td = - 2 ^ 31 /\
    vprintf [] (cs "%u") [AWord 4096] = Some (tu, Z.of_nat (length tu)) /\ dec_val 0 tu = 4096 /\
    vprintf [] (cs "%lx") [AWord 4096] = Some (tx, Z.of_nat (length tx)) /\ hex_value tx = 4096.
Proof. apply printf_numbers_roundtrip; unfold is_s32, is_u32; lia. Defined.
