(* ===== verification/Expand.v ===== *)
(** vash's expansion of words ([vnu/userspace/vash/expand.c], with [run_capture] and
    [read_whole_file] of [exec.c]).

    The functions are those of a state monad over [outcome] with the part of the shell
    they use: its variables, its parameters and options, what has been written to
    standard error, and the buffer in which [var_lookup_word] answers for the special
    parameters.  A [const char*] into the variables or into that buffer is a [Val]: it
    is read again where the code reads it again after other words were expanded.

    What the processes and files outside contribute is given: the bytes a command
    writes, the contents of a file, the blocks [/etc/passwd] is read in, the names in
    a directory.  Growable strings are lists and memory does not run out. *)
From S2P Require Import Prelude CString StrBuf FnMatch Vars Arith Lex Parse.
Local Open Scope Z_scope.

(** ** The shell's state *)

Inductive Flow := FLOW_NONE | FLOW_BREAK | FLOW_CONTINUE | FLOW_RETURN | FLOW_EXIT.

Record Sh := mkSh {
  x_vars : Vars;
  x_info : ShellInfo;
  x_nounset : bool;
  x_flow : Flow;
  x_flow_arg : Z;
  x_err : list Z;
  x_buf : list Z }. (* [buf] of [var_lookup_word] *)

Definition with_vars (v : Vars) (s : Sh) : Sh :=
  mkSh v (x_info s) (x_nounset s) (x_flow s) (x_flow_arg s) (x_err s) (x_buf s).
Definition with_buf (b : list Z) (s : Sh) : Sh :=
  mkSh (x_vars s) (x_info s) (x_nounset s) (x_flow s) (x_flow_arg s) (x_err s) b.

Definition XM (A : Type) := Sh -> outcome (A * Sh).

#[export] Instance XM_ret : MRet XM := fun A a s => Done (a, s).
#[export] Instance XM_bind : MBind XM := fun A B k m s =>
  match m s with Done (a, s') => k a s' | Trap => Trap | NoFuel => NoFuel end.

Definition get_sh : XM Sh := fun s => Done (s, s).
Definition put_sh (s : Sh) : XM unit := fun _ => Done (tt, s).
Definition trap {A} : XM A := fun _ => Trap.
Definition no_fuel {A} : XM A := fun _ => NoFuel.

Definition sh_say (msg : list Z) : XM unit := fun s =>
  Done (tt, mkSh (x_vars s) (x_info s) (x_nounset s) (x_flow s) (x_flow_arg s) (x_err s ++ msg) (x_buf s)).

(** [sh_flow = FLOW_EXIT; sh_flow_arg = 1]. *)
Definition flow_exit : XM unit := fun s =>
  Done (tt, mkSh (x_vars s) (x_info s) (x_nounset s) FLOW_EXIT 1 (x_err s) (x_buf s)).

(** ** The expansion buffer: every byte with its tags *)

Definition F_QUOTE : Z := 1.
Definition F_SPLIT : Z := 2.
Definition F_GLOB : Z := 4.

Definition Exp := list (Z * Z).

Definition exp_add (e : Exp) (t : list Z) (n flags : Z) : Exp :=
  if n <=? 0 then e else e ++ map (fun c => (c, flags)) (take (Z.to_nat n) t).

Definition exp_addc (e : Exp) (c flags : Z) : Exp := e ++ [(c, flags)].

Definition add_text (e : Exp) (text : list Z) (quoted from_expansion : bool) : Exp :=
  let flags := if from_expansion then F_SPLIT else 0 in
  let flags := if quoted then Z.lor flags F_QUOTE else Z.lor flags F_GLOB in
  exp_add e text (s32 (strlen text)) flags.

(** [e.p] as a C string. *)
Definition exp_cstr (e : Exp) : list Z := cstr (map fst e).

(** ** The names and values of [${...}] *)

(** What is left of a name's characters. *)
Fixpoint name_chars (p : list Z) : list Z * list Z :=
  match p with
  | c :: p' => if is_name_char c then let '(n, r) := name_chars p' in (c :: n, r) else ([], p)
  | [] => ([], [])
  end.

(** Up to the first [c], or all of it. *)
Fixpoint until_char (c : Z) (p : list Z) : list Z * list Z :=
  match p with
  | d :: p' => if d =? c then ([], p) else let '(a, r) := until_char c p' in (d :: a, r)
  | [] => ([], [])
  end.

Record Name := mkName { n_name : list Z; n_idx : Z; n_is_at : bool; n_rest : list Z }.

Definition parse_name (body : list Z) : Name :=
  let c := ch body in
  let c1 := at_ body 1 in
  let '(name, p) :=
    if ((c =? ch_quest) || (c =? ch_dollar) || (c =? ch_bang) || (c =? ch_hash)) && ((c1 =? 0) || (c1 =? 91))
    then (take 1 body, drop 1 body)
    else if (c =? ch_at) || (c =? ch_star) then (take 1 body, drop 1 body)
    else name_chars body in
  if ch p =? 91 then
    let '(key, q) := until_char 93 (drop 1 p) in
    mkName name (atoi key) ((strcmp key (cs "@") =? 0) || (strcmp key (cs "*") =? 0))
      (if ch q =? 93 then drop 1 q else q)
  else mkName name (-1) false p.

Definition is_alpha (c : Z) : bool := ((97 <=? c) && (c <=? 122)) || ((65 <=? c) && (c <=? 90)).

Definition is_name (s : list Z) : bool :=
  let c := ch s in
  if c =? 0 then false
  else if at_ s 1 =? 0 then
    is_name_char c || (c =? ch_quest) || (c =? ch_hash) || (c =? ch_at) || (c =? ch_star) ||
    (c =? ch_dollar) || (c =? ch_bang)
  else if negb (is_alpha c || (c =? ch_under)) then false
  else
    let '(_, p) := name_chars (drop 1 s) in
    if ch p =? 91 then
      let '(_, close) := until_char 93 (drop 1 p) in
      negb ((ch close =? 0) || negb (at_ close 1 =? 0))
    else ch p =? 0.

(** Where a value stands: in no memory that changes, in the buffer of [var_lookup_word], or
    in the table, as a variable's value or an element's. *)
Inductive Where := Fixed | Buf | Table (name : list Z) (key : option (list Z)).

Record Val := mkVal { val_text : list Z; val_where : Where }.

Definition in_table (name : list Z) (key : option (list Z)) (s : Sh) : list Z :=
  match key with Some k => arr_get (x_vars s) name k | None => var_get (x_vars s) name end.

(** The pointer is followed: what it points to may have been written over since, or released
    by an assignment. *)
Definition read_val (v : Val) : XM (list Z) := fun s =>
  match val_where v with
  | Fixed => Done (val_text v, s)
  | Buf => Done (x_buf s, s)
  | Table name key => if bool_decide (in_table name key s = val_text v) then Done (val_text v, s) else Trap
  end.

Definition uses_buf (name : list Z) : bool :=
  existsb (fun n => strcmp name n =? 0) [cs "?"; cs "#"; cs "$"; cs "*"; cs "@"; cs "-"].

(** [var_lookup_word] of [Vars], with the place of its answer; [None] is NULL. *)
Definition lookup_word (name : list Z) : XM (option Val) := fun s =>
  match var_lookup_word (x_vars s) (x_info s) name with
  | None => Done (None, s)
  | Some t =>
      if uses_buf name then Done (Some (mkVal t Buf), with_buf t s)
      else if is_digit (ch name) then Done (Some (mkVal t Fixed), s)
      else Done (Some (mkVal t (Table name None)), s)
  end.

Definition value_of (name : list Z) (idx : Z) (is_at : bool) : XM Val :=
  s ← get_sh;
  if (0 <=? idx) && (0 <? arr_len (x_vars s) name) then
    let key := if is_at then cs "0" else itoa idx in
    mret (mkVal (arr_get (x_vars s) name key) (Table name (Some key)))
  else
    v ← lookup_word name;
    mret (default (mkVal [] Fixed) v).

(** ** The pieces an expansion can produce *)

Section World.
Variables (child : Sh -> list Z -> list Z) (file : list Z -> option (list Z))
  (passwd : option (list (list Z))) (dirents : list Z -> option (list (list Z))).

(** [while (len > 0 && p[len - 1] == '\n') --len]. *)
Fixpoint drop_newlines (t : list Z) : list Z :=
  match t with
  | [] => []
  | c :: t' => match drop_newlines t' with [] => if c =? ch_nl then [] else [c] | r => c :: r end
  end.

Definition run_capture (text : list Z) : XM (list Z) := fun s =>
  Done (cstr (drop_newlines (child s text)), s).

Definition read_whole_file (path : list Z) : option (list Z) :=
  (fun all => cstr (drop_newlines all)) <$> file path.

Definition SH_PATH_MAX : Z := 256.

(** [while (rest[i] && rest[i] != '/' && i < 31) user[i] = rest[i]]: [i] stays as it is. *)
Fixpoint copy_user (fuel : nat) (rest : list Z) (i : nat) (user : list Z) : XM (list Z) :=
  match fuel with
  | O => no_fuel
  | S f =>
      if negb (at_ rest i =? 0) && negb (at_ rest i =? ch_slash) && (i <? 31)%nat
      then copy_user f rest i (<[i := at_ rest i]> user)
      else mret (take i user)
  end.

(** The fields of the first line of a block; at most [room]. *)
Fixpoint passwd_fields (room : nat) (p : list Z) : list (list Z) :=
  match room with
  | O => []
  | S room' =>
      let fix field (p : list Z) : list Z * option (list Z) :=
        match p with
        | [] => ([], None)
        | c :: p' =>
            if c =? 0 then ([], None)
            else if (c =? 58) || (c =? ch_nl) then ([], Some p')
            else let '(f, r) := field p' in (c :: f, r)
        end in
      let '(f, r) := field p in
      match r with None => [f] | Some p' => f :: passwd_fields room' p' end
  end.

(** The home directory in the first block whose first line is the user's. *)
Fixpoint home_of (user : list Z) (blocks : list (list Z)) : list Z :=
  match blocks with
  | [] => []
  | b :: blocks' =>
      match b with
      | [] => []
      | _ =>
          let f := passwd_fields 7 b in
          if (6 <=? length f)%nat && (strcmp (nth 0 f []) user =? 0)
          then take (Z.to_nat (SH_PATH_MAX - 1)) (nth 5 f [])
          else home_of user blocks'
      end
  end.

Definition home_dir (s : Sh) : list Z :=
  let h := var_get (x_vars s) (cs "HOME") in if ch h =? 0 then cs "/root" else h.

Definition add_tilde (fuel : nat) (e : Exp) (rest : list Z) (quoted : bool) : XM Exp :=
  if ch rest =? 0 then
    s ← get_sh; mret (add_text e (home_dir s) quoted false)
  else
    user ← copy_user fuel rest 0 (repeat 0 32);
    let dir := match passwd with Some blocks => home_of user blocks | None => [] end in
    mret (add_text e (if ch dir =? 0 then ch_slash :: user else dir) quoted false).

(** [sh_ifs ? sh_ifs : default]. *)
Definition ifs_of (s : Sh) : list Z := default [ch_sp; ch_tab; ch_nl] (sh_ifs (x_info s)).

Definition ifs_sep (s : Sh) : Z := if ch (ifs_of s) =? 0 then ch_sp else ch (ifs_of s).

(** [sh_argv[1]] to [sh_argv[sh_argc]]; a NULL among them is not expected. *)
Definition all_args : XM (list (list Z)) :=
  s ← get_sh;
  match mapM (fun i => argv_at (x_info s) i) (seq 1 (Z.to_nat (sh_argc (x_info s)))) with
  | Some args => mret args
  | None => trap
  end.

Fixpoint join_args (sep : Z) (args : list (list Z)) : list Z :=
  match args with
  | [] => []
  | [a] => cstr a
  | a :: args' => cstr a ++ sep :: join_args sep args'
  end.

Fixpoint add_args (e : Exp) (first : bool) (sep : Z) (args : list (list Z)) : Exp :=
  match args with
  | [] => e
  | a :: args' =>
      let e := if first then e else exp_addc e sep F_QUOTE in
      add_args (add_text e a true true) false sep args'
  end.

Definition add_all_args (e : Exp) (quoted : bool) : XM Exp :=
  s ← get_sh;
  args ← all_args;
  mret (if quoted then add_args e true (ifs_sep s) args
        else add_text e (join_args (ifs_sep s) args) false true).

Fixpoint add_elements (st : Vars) (e : Exp) (name : list Z) (quoted first : bool) (sep : Z) (keys : list (list Z)) : Exp :=
  match keys with
  | [] => e
  | k :: keys' =>
      let e := if first then e else exp_addc e sep (if quoted then F_QUOTE else Z.lor F_SPLIT F_GLOB) in
      add_elements st (add_text e (arr_get st name k) quoted true) name quoted false sep keys'
  end.

Definition add_array (e : Exp) (name : list Z) (quoted : bool) : XM Exp :=
  s ← get_sh;
  match arr_keys true (x_vars s) name with
  | None => mret e
  | Some keys => mret (add_elements (x_vars s) e name quoted true (ifs_sep s) keys)
  end.

Definition case_conv_str (text : list Z) (up : bool) (pat : option (list Z)) : list Z :=
  map (fun c =>
    let tk := match pat with Some p => if ch p =? 0 then true else sh_pattern p [c] | None => true end in
    if tk then
      if up && (97 <=? c) && (c <=? 122) then c - 32
      else if negb up && (65 <=? c) && (c <=? 90) then c + 32
      else c
    else c) (cstr text).

(** *** [${...}] *)

Section Recursion.
(** The word an operator carries, expanded: [sub_text_of]. *)
Variable sub_text_of : list Z -> bool -> XM (list Z).

(** [${#name}]. *)
Definition brace_length (e : Exp) (body : list Z) (quoted : bool) : XM Exp :=
  let n := parse_name body in
  s ← get_sh;
  if n_is_at n || ((0 <=? n_idx n) && (0 <? arr_len (x_vars s) (n_name n))) then
    mret (add_text e (itoa (arr_len (x_vars s) (n_name n))) quoted true)
  else
    v ← value_of (n_name n) (n_idx n) false;
    mret (add_text e (itoa (s32 (strlen (val_text v)))) quoted true).

(** [${!name}]. *)
Definition brace_indirect (e : Exp) (body : list Z) (quoted : bool) : XM Exp :=
  named ← lookup_word body;
  match named with
  | None => trap
  | Some v =>
      if ch (val_text v) =? 0 then
        _ ← sh_say (cs "vash: " ++ body ++ cs ": invalid indirect expansion" ++ [ch_nl]);
        mret e
      else
        s ← get_sh;
        mret (add_text e (var_get (x_vars s) (val_text v)) quoted true)
  end.

(** [${!prefix*}]. *)
Fixpoint add_names (e : Exp) (prefix : list Z) (quoted first : bool) (sep : Z) (names : list (list Z)) : Exp :=
  match names with
  | [] => e
  | n :: names' =>
      if sh_starts (Some n) (Some prefix) then
        let e := if first then e else exp_addc e sep (if quoted then F_QUOTE else F_SPLIT) in
        add_names (add_text e n quoted true) prefix quoted false sep names'
      else add_names e prefix quoted first sep names'
  end.

Definition brace_prefix (e : Exp) (body : list Z) (quoted : bool) : XM Exp :=
  s ← get_sh;
  let pn := strlen body - 2 in
  let pn := if 63 <? pn then 63 else pn in
  let prefix := take (Z.to_nat pn) (drop 1 body) in
  let sep := match sh_ifs (x_info s) with Some i => ch i | None => ch_sp end in
  mret (add_names e prefix quoted true sep (default [] (var_names true (x_vars s)))).

(** Whether a parameter counts as unset. *)
Definition is_unset (s : Sh) (name : list Z) (idx : Z) : bool :=
  if (0 <=? idx) && (0 <? arr_len (x_vars s) name) then false
  else if negb (ch name =? 0) && (at_ name 1 =? 0) then
    let c := ch name in
    if (49 <=? c) && (c <=? 57) then sh_argc (x_info s) <? c - 48
    else if (c =? ch_star) || (c =? ch_at) then sh_argc (x_info s) =? 0
    else false
  else match var_find (x_vars s) name with None => true | Some _ => false end.

(** The operator of [${name:-word}] and the like, and whether it has the colon. *)
Definition default_op (op : list Z) : option (Z * bool) :=
  let is_kind c := (c =? ch_minus) || (c =? 61) || (c =? ch_quest) || (c =? 43) in
  if is_kind (ch op) && (at_ op 1 =? 0) then Some (ch op, false)
  else if (ch op =? 58) && is_kind (at_ op 1) then Some (at_ op 1, true)
  else None.

Definition brace_default (e : Exp) (n : Name) (kind : Z) (colon quoted : bool) : XM Exp :=
  word ← sub_text_of (drop (if colon then 2 else 1) (n_rest n)) quoted;
  v ← value_of (n_name n) (n_idx n) false;
  s ← get_sh;
  let empty := ch (val_text v) =? 0 in
  let unset := is_unset s (n_name n) (n_idx n) in
  let bad := if colon then unset || empty else unset in
  let good := if colon then negb (unset || empty) else negb empty in
  if kind =? 43 then mret (if good then add_text e word quoted true else e)
  else if kind =? ch_quest then
    if bad then
      _ ← sh_say (n_name n ++
                  (if colon then if ch word =? 0 then cs ": parameter null" else word
                   else cs ": parameter not set") ++ [ch_nl]);
      _ ← flow_exit;
      mret e
    else mret e
  else if bad then
    _ ← (if kind =? 61 then put_sh (with_vars (fst (var_set true (x_vars s) (n_name n) word)) s) else mret tt);
    mret (add_text e word quoted true)
  else mret (add_text e (val_text v) quoted true).

(** [${name:offset}] and [${name:offset:length}]. *)
Definition slice (v op : list Z) : list Z :=
  let len := s32 (strlen v) in
  let '(num, rest) := until_char 58 (drop 1 op) in
  let start := atol (take 31 num) in
  let start := if start <? 0 then len + start else start in
  let start := if start <? 0 then 0 else start in
  let start := if len <? start then len else start in
  let stop :=
    match rest with
    | [] => len
    | _ :: num =>
        let count := atol (take 31 num) in
        let stop := if count <? 0 then s32 (len + count) else s32 (start + count) in
        let stop := if stop <? start then start else stop in
        if len <? stop then len else stop
    end in
  take (Z.to_nat (stop - start)) (drop (Z.to_nat start) v).

(** [${name#pat}] and its three relatives. *)
Definition brace_strip (e : Exp) (v : Val) (op : list Z) (quoted : bool) : XM Exp :=
  let longest := at_ op 1 =? ch op in
  pat ← sub_text_of (drop (if longest then 2 else 1) op) quoted;
  t ← read_val v;
  let stripped := if ch op =? ch_hash then sh_strip_prefix t pat longest Lex.SH_LINE_MAX
                  else sh_strip_suffix t pat longest Lex.SH_LINE_MAX in
  mret (add_text e (default t stripped) quoted true).

(** The [for (;;)] of [${name/pat/rep}]; [from] is how much of [v] is done. *)
Fixpoint replace_loop (fuel : nat) (v pat rep : list Z) (once : bool) (from : nat) (out : list Z)
    : option (list Z * nat) :=
  match fuel with
  | O => None
  | S f =>
      let '(at_pos, mlen) := sh_find_sub (drop from v) pat 0 in
      if at_pos <? 0 then Some (out, from)
      else
        let out := out ++ take (Z.to_nat at_pos) (drop from v) ++ rep in
        let from := (from + Z.to_nat at_pos + Z.to_nat mlen)%nat in
        if (mlen =? 0) || once then Some (out, from) else replace_loop f v pat rep once from out
  end.

Definition brace_replace (e : Exp) (v : Val) (op : list Z) (quoted : bool) : XM Exp :=
  let c1 := at_ op 1 in
  let all := c1 =? ch_slash in
  let front := c1 =? ch_hash in
  let back := c1 =? 37 in
  let '(patbuf, sep) := until_char ch_slash (drop (if all || front || back then 2 else 1) op) in
  pat ← sub_text_of (take (Z.to_nat (Lex.SH_LINE_MAX - 1)) patbuf) quoted;
  rep ← sub_text_of (drop 1 sep) quoted;
  t ← read_val v;
  if front then
    mret (add_text e (match sh_strip_prefix t pat false Lex.SH_LINE_MAX with Some tmp => rep ++ tmp | None => t end) quoted true)
  else if back then
    mret (add_text e (match sh_strip_suffix t pat false Lex.SH_LINE_MAX with Some tmp => tmp ++ rep | None => t end) quoted true)
  else
    match replace_loop (S (length t)) t pat rep (negb all) 0 [] with
    | Some (out, from) => mret (add_text e (out ++ drop from t) quoted true)
    | None => no_fuel
    end.

(** [${name^^pat}] and its three relatives. *)
Definition is_case_op (op : list Z) : bool :=
  let c := ch op in
  let c1 := at_ op 1 in
  ((c =? 94) && ((c1 =? 94) || (c1 =? 0))) || ((c =? 44) && ((c1 =? 44) || (c1 =? 0))).

Definition brace_case (e : Exp) (v : Val) (op : list Z) (quoted : bool) : XM Exp :=
  pat ← sub_text_of (drop (if at_ op 1 =? 0 then 0 else 1) op) quoted;
  t ← read_val v;
  mret (add_text e (case_conv_str t (ch op =? 94) (if ch pat =? 0 then None else Some pat)) quoted true).

(** The last branch of the function, a second one for [:], is never reached. *)
Definition expand_brace_body (e : Exp) (body : list Z) (quoted : bool) : XM Exp :=
  let c := ch body in
  let blen := strlen body in
  let last_c := at_ body (Z.to_nat (blen - 1)) in
  if (c =? ch_hash) && is_name (drop 1 body) then brace_length e (drop 1 body) quoted
  else if (c =? ch_bang) && is_name (drop 1 body) then brace_indirect e (drop 1 body) quoted
  else if (c =? ch_bang) && (2 <? blen) && ((last_c =? ch_star) || (last_c =? ch_at)) then brace_prefix e body quoted
  else
    let n := parse_name body in
    if n_is_at n then add_array e (n_name n) quoted
    else
      match default_op (n_rest n) with
      | Some (kind, colon) => brace_default e n kind colon quoted
      | None =>
          v ← value_of (n_name n) (n_idx n) false;
          let op := n_rest n in
          if ch op =? 58 then mret (add_text e (slice (val_text v) op) quoted true)
          else if (ch op =? ch_hash) || (ch op =? 37) then brace_strip e v op quoted
          else if ch op =? ch_slash then brace_replace e v op quoted
          else if is_case_op op then brace_case e v op quoted
          else mret (add_text e (val_text v) quoted true)
      end.

End Recursion.

(** *** The dollars of an arithmetic expression *)

(** From an opening bracket on: how far off the one that closes it is. *)
Fixpoint find_close (op cl depth : Z) (q : list Z) : option nat :=
  match q with
  | [] => None
  | c :: q' =>
      if c =? op then S <$> find_close op cl (depth + 1) q'
      else if c =? cl then
        if depth - 1 =? 0 then Some O else S <$> find_close op cl (depth - 1) q'
      else S <$> find_close op cl depth q'
  end.

(** [${...}] is copied into a buffer without room for its end, and read as a string. *)
Fixpoint expand_arith_dollars (fuel : nat) (p out : list Z) : XM (list Z) :=
  match fuel with
  | O => no_fuel
  | S f =>
      match p with
      | [] => mret out
      | c :: p' =>
          if negb (c =? ch_dollar) then expand_arith_dollars f p' (out ++ [c])
          else if ch p' =? ch_lb then
            match find_close ch_lb ch_rb 0 p' with
            | None => expand_arith_dollars f p' (out ++ [c])
            | Some _ => trap
            end
          else if negb (ch p' =? ch_lp) then expand_arith_dollars f p' (out ++ [c])
          else
            let inner := at_ p' 1 =? ch_lp in
            let q := if inner then drop 1 p' else p' in
            match find_close ch_lp ch_rp 0 q with
            | None => expand_arith_dollars f p' (out ++ [c])
            | Some len =>
                let piece := take (len - 1) (drop 1 q) in
                if inner then
                  out ← expand_arith_dollars f piece out;
                  match drop (S len) q with
                  | [] => trap (* [p = q + 1] is the end, and the loop steps over it *)
                  | _ :: p' => expand_arith_dollars f p' out
                  end
                else
                  r ← run_capture piece;
                  expand_arith_dollars f (drop (S len) q) (out ++ r)
            end
      end
  end.

Definition sh_expand_arith (expr : list Z) : XM (list Z) :=
  expand_arith_dollars (S (length expr)) expr [].

(** *** The parts of a word *)

Section Parts.
(** [expand_word_parts], for the words inside a [${...}]. *)
Variable inner : Word -> Exp -> bool -> XM Exp.

Definition lexer_on (t : list Z) : Lex Src := lex_start (lex_init_str t (Z.of_nat (length t))).

Fixpoint sub_words (n lexfuel : nat) (lx : Lex Src) (first : bool) (e : Exp) (quoted : bool) : XM Exp :=
  match n with
  | O => no_fuel
  | S n' =>
      match lex_next lexfuel lx with
      | None => no_fuel
      | Some lx =>
          match lx_tok lx with
          | T_EOF => mret e
          | T_WORD (Some w) =>
              let e := if first then e else exp_addc e ch_sp 0 in
              e ← inner w e quoted;
              sub_words n' lexfuel lx false e quoted
          | _ => sub_words n' lexfuel lx first e quoted
          end
      end
  end.

Definition expand_sub_text (e : Exp) (text : list Z) (quoted : bool) : XM Exp :=
  let fuel := (4 + length text)%nat in sub_words fuel fuel (lexer_on text) true e quoted.

Definition sub_text_of (text : list Z) (quoted : bool) : XM (list Z) :=
  e ← expand_sub_text [] text quoted; mret (exp_cstr e).

(** One part; [inr] is the [return] at an unset variable. *)
Definition expand_part (fuel : nat) (p : Part) (e : Exp) (quoted : bool) : XM (Exp + Exp) :=
  let q := quoted || p_quoted p in
  let text := cstr (p_text p) in
  match p_kind p with
  | W_LIT => mret (inl (add_text e text q false))
  | W_VAR =>
      if (strcmp text (cs "@") =? 0) || (strcmp text (cs "*") =? 0) then e ← add_all_args e q; mret (inl e)
      else
        v ← lookup_word text;
        match v with
        | None => trap
        | Some v =>
            s ← get_sh;
            if x_nounset s && (ch (val_text v) =? 0) &&
               match var_find (x_vars s) text with None => true | Some _ => false end
            then
              _ ← sh_say (text ++ cs ": unbound variable" ++ [ch_nl]);
              _ ← flow_exit;
              mret (inr e)
            else mret (inl (add_text e (val_text v) q true))
        end
  | W_CMDSUB => out ← run_capture text; mret (inl (add_text e out q true))
  | W_FILE =>
      mret (inl (match read_whole_file text with Some t => add_text e t q true | None => e end))
  | W_ARITH =>
      t ← sh_expand_arith text;
      s ← get_sh;
      match arith_eval true (x_vars s) (Some t) with
      | Done (n, _, vars) =>
          _ ← put_sh (with_vars vars s);
          mret (inl (add_text e (itoa n) q true))
      | Trap => trap
      | NoFuel => no_fuel
      end
  | W_TILDE => e ← add_tilde fuel e text q; mret (inl e)
  | W_BRACE => e ← expand_brace_body sub_text_of e text q; mret (inl e)
  | W_ARRAY => mret (inl e)
  end.

Fixpoint parts_loop (fuel : nat) (w : Word) (e : Exp) (quoted : bool) : XM Exp :=
  match w with
  | [] => mret e
  | p :: w' =>
      r ← expand_part fuel p e quoted;
      match r with inl e => parts_loop fuel w' e quoted | inr e => mret e end
  end.
End Parts.

(** [depth] expansions may be open inside one another. *)
Fixpoint expand_word_parts (depth : nat) (w : Word) (e : Exp) (quoted : bool) : XM Exp :=
  match depth with
  | O => no_fuel
  | S d => parts_loop (expand_word_parts d) depth w e quoted
  end.

(** ** Word splitting *)

Definition is_ifs (c : Z) (ifs : list Z) : bool := existsb (fun p => schar p =? c) (cstr ifs).

(** From the byte [e] on, with the field [cur] under way. *)
Fixpoint split_loop (ifs : list Z) (e : Exp) (cur : list Z) (have : bool) : list (list Z) :=
  match e with
  | [] => if have then [cur] else []
  | (c, q) :: e' =>
      let splittable := negb (Z.land q F_SPLIT =? 0) && (Z.land q F_QUOTE =? 0) in
      if splittable && is_ifs c ifs then
        if have then cur :: split_loop ifs e' [] false else split_loop ifs e' cur false
      else split_loop ifs e' (cur ++ [c]) true
  end.

Definition split_exp (ifs : list Z) (e : Exp) : list (list Z) :=
  if ch ifs =? 0 then [map fst e] else split_loop ifs e [] false.

(** ** Globbing *)

(** The tags looked at are those from the start of the expansion, whichever field it is. *)
Fixpoint has_pattern (s : list Z) (e : Exp) : bool :=
  match s, e with
  | c :: s', (_, q) :: e' =>
      if negb (Z.land q F_QUOTE =? 0) || (Z.land q F_GLOB =? 0) then has_pattern s' e'
      else if (c =? ch_star) || (c =? ch_quest) || (c =? 91) then true
      else has_pattern s' e'
  | _, _ => false
  end.

Definition split_dir (path : list Z) : list Z * list Z :=
  match sh_rfind (Some path) (Some (cs "/")) with
  | None => (cs ".", path)
  | Some slash =>
      let n := Z.of_nat (length path - length slash) in
      let n := if n =? 0 then 1 else n in
      let n := if SH_PATH_MAX - 1 <? n then SH_PATH_MAX - 1 else n in
      (take (Z.to_nat n) path, drop 1 slash)
  end.

(** [key] is put behind the last name that is not greater; the names are in reverse. *)
Fixpoint shift_in (key : list Z) (hits : list (list Z)) : list (list Z) :=
  match hits with
  | h :: hits' => if 0 <? strcmp h key then h :: shift_in key hits' else key :: hits
  | [] => [key]
  end.

Definition sort_names (hits : list (list Z)) : list (list Z) :=
  rev (fold_left (fun sorted key => shift_in key sorted) hits []).

(** The names found; the strings they were put together in have been released. *)
Definition sh_glob (pattern : list Z) : option (list (list Z)) :=
  let '(dir, pat) := split_dir pattern in
  match dirents (if ch dir =? 0 then cs "/" else dir) with
  | None => None
  | Some names =>
      let hits := List.filter (fun n => negb ((strcmp n (cs ".") =? 0) || (strcmp n (cs "..") =? 0)) && sh_pattern pat n) names in
      match hits with
      | [] => None
      | _ =>
          let prefix := if negb (ch dir =? 0) && negb (strcmp dir (cs ".") =? 0) then dir ++ [ch_slash] else [] in
          Some (map (fun n => prefix ++ n) (sort_names hits))
      end
  end.

(** ** The entry points *)

(** Each name found is copied out of a string that [sh_glob] has freed. *)
Fixpoint glob_fields (e : Exp) (fields : list (list Z)) : XM (list (list Z)) :=
  match fields with
  | [] => mret []
  | f :: fields' =>
      if has_pattern f e then
        match sh_glob (cstr f) with
        | Some (_ :: _) => trap
        | _ => r ← glob_fields e fields'; mret (f :: r)
        end
      else r ← glob_fields e fields'; mret (f :: r)
  end.

Definition expand_word (depth : nat) (w : Word) : XM (list (list Z)) :=
  e ← expand_word_parts depth w [] false;
  s ← get_sh;
  let fields := split_exp (ifs_of s) e in
  match fields with
  | [] => mret (if existsb p_quoted w then [[]] else [])
  | _ => glob_fields e fields
  end.

Definition expand_word_one (depth : nat) (w : Word) : XM (list Z) :=
  e ← expand_word_parts depth w [] true; mret (map fst e).

(** [if (i) addc ' '] between the fields of one word. *)
Fixpoint join_fields (fields : list (list Z)) : list Z :=
  match fields with
  | [] => []
  | [f] => cstr f
  | f :: fields' => cstr f ++ ch_sp :: join_fields fields'
  end.

Fixpoint str_words (n depth lexfuel : nat) (lx : Lex Src) (out : list Z) : XM (list Z) :=
  match n with
  | O => no_fuel
  | S n' =>
      match lx_tok lx with
      | T_WORD (Some w) =>
          fields ← expand_word depth w;
          match lex_next lexfuel lx with
          | Some lx => str_words n' depth lexfuel lx (out ++ join_fields fields)
          | None => no_fuel
          end
      | _ => mret out
      end
  end.

Definition expand_str (depth : nat) (s : list Z) : XM (list Z) :=
  let fuel := (4 + length s)%nat in
  match lex_next fuel (lexer_on s) with
  | Some lx => out ← str_words fuel depth fuel lx []; mret (cstr out)
  | None => no_fuel
  end.

End World.
