(* ===== verification/ExpandSplit.v ===== *)
(** Quoting and splitting: what becomes of the bytes of an expansion. *)
From S2P Require Import Prelude CString StrBuf FnMatch Vars Arith Lex Parse Expand.
Local Open Scope Z_scope.

(** ** A function's results, whatever the state *)

Definition gives {A} (m : XM A) (Q : A -> Prop) : Prop := forall s a s', m s = Done (a, s') -> Q a.

Lemma gives_ret {A} (a : A) (Q : A -> Prop) : Q a -> gives (mret a) Q.
Proof. intros HQ s a' s' [= <- _]. done. Qed.

Lemma gives_bind {A B} (m : XM A) (k : A -> XM B) (Q : B -> Prop) :
  (forall a, gives (k a) Q) -> gives (m ≫= k) Q.
Proof. intros Hk s b s'. unfold mbind, XM_bind. destruct (m s) as [[a s1]| |]; try done. apply Hk. Qed.

Lemma gives_after {A B} (m : XM A) (k : A -> XM B) (P : A -> Prop) (Q : B -> Prop) :
  gives m P -> (forall a, P a -> gives (k a) Q) -> gives (m ≫= k) Q.
Proof.
  intros Hm Hk s b s'. unfold mbind, XM_bind. destruct (m s) as [[a s1]| |] eqn:E; try done.
  apply Hk. by eapply Hm.
Qed.

Lemma gives_trap {A} (Q : A -> Prop) : gives trap Q.
Proof. by intros s a s'. Qed.

Lemma gives_no_fuel {A} (Q : A -> Prop) : gives no_fuel Q.
Proof. by intros s a s'. Qed.

(** ** Quoted bytes *)

Definition quoted_tag (t : Z * Z) : Prop := Z.land (snd t) F_QUOTE <> 0.

Abbreviation all_quoted := (Forall quoted_tag).

Lemma exp_add_quoted e t n flags : Z.land flags F_QUOTE <> 0 -> all_quoted e -> all_quoted (exp_add e t n flags).
Proof.
  intros Hf He. unfold exp_add. case_match; [done|]. apply Forall_app. split; [done|].
  apply Forall_forall. intros [c q] (c' & [= -> ->] & _)%list_elem_of_fmap. done.
Qed.

Lemma add_text_quoted e t from : all_quoted e -> all_quoted (add_text e t true from).
Proof. apply exp_add_quoted. by destruct from. Qed.

Lemma exp_addc_quoted e c : all_quoted e -> all_quoted (exp_addc e c F_QUOTE).
Proof. intros He. apply Forall_app. split; [done|]. by repeat constructor. Qed.

Create HintDb expand.
Hint Resolve add_text_quoted exp_addc_quoted : expand.

Lemma add_args_quoted args e first sep : all_quoted e -> all_quoted (add_args e first sep args).
Proof. revert e first. induction args as [|a args IH]; intros e first He; simpl; [done|]. apply IH. destruct first; auto with expand. Qed.

Lemma add_elements_quoted st keys e name first sep :
  all_quoted e -> all_quoted (add_elements st e name true first sep keys).
Proof. revert e first. induction keys as [|k keys IH]; intros e first He; simpl; [done|]. apply IH. destruct first; auto with expand. Qed.

Lemma add_names_quoted names e prefix first sep :
  all_quoted e -> all_quoted (add_names e prefix true first sep names).
Proof.
  revert e first. induction names as [|n names IH]; intros e first He; simpl; [done|].
  case_match; [|by apply IH]. apply IH. destruct first; auto with expand.
Qed.

Hint Resolve add_args_quoted add_elements_quoted add_names_quoted : expand.

(** Every result of a function by its text: the steps that add to the buffer keep it quoted. *)
Ltac gives_quoted :=
  repeat match goal with
  | |- gives (_ ≫= _) _ => apply gives_bind; intros ?
  | |- gives (mret _) _ => apply gives_ret
  | |- gives trap _ => apply gives_trap
  | |- gives no_fuel _ => apply gives_no_fuel
  | |- gives (if ?b then _ else _) _ => destruct b
  | |- gives (match ?x with _ => _ end) _ => destruct x
  | |- all_quoted (if ?b then _ else _) => destruct b
  | |- all_quoted (match ?x with _ => _ end) => destruct x
  end; auto with expand.

Section World.
Variables (child : Sh -> list Z -> list Z) (file : list Z -> option (list Z))
  (passwd : option (list (list Z))) (dirents : list Z -> option (list (list Z))).

Lemma brace_quoted sub e body : all_quoted e -> gives (expand_brace_body sub e body true) all_quoted.
Proof.
  intros He. unfold expand_brace_body, brace_length, brace_indirect, brace_prefix, add_array, brace_default,
    brace_strip, brace_replace, brace_case. cbv zeta. gives_quoted.
Qed.

(** A part inside quotes adds quoted bytes only. *)
Lemma part_quoted inner fuel p e b : b || p_quoted p = true -> all_quoted e ->
  gives (expand_part child file passwd inner fuel p e b) (fun r => match r with inl e | inr e => all_quoted e end).
Proof.
  intros Hq He. unfold expand_part. rewrite Hq. destruct (p_kind p).
  - gives_quoted.
  - case_match; [|gives_quoted]. eapply gives_after; [|intros x Hx; by apply gives_ret].
    unfold add_all_args. gives_quoted.
  - gives_quoted.
  - gives_quoted.
  - eapply gives_after; [|intros a Ha; by apply gives_ret]. unfold add_tilde. gives_quoted.
  - eapply gives_after; [by apply brace_quoted|intros a Ha; by apply gives_ret].
  - gives_quoted.
  - gives_quoted.
Qed.

(** ** Words inside quotes *)

(** Quoted, or the empty text a word starts with. *)
Definition quoted_part (p : Part) : bool :=
  p_quoted p || (bool_decide (p_kind p = W_LIT) && (ch (p_text p) =? 0)).

Lemma cstr_nul t : ch t = 0 -> cstr t = [].
Proof. destruct t as [|c t]; [done|]. unfold cstr, at_. simpl. by intros ->. Qed.

Lemma quoted_part_same inner fuel p e : quoted_part p = true ->
  expand_part child file passwd inner fuel p e false = expand_part child file passwd inner fuel p e true.
Proof.
  unfold quoted_part, expand_part. intros [->|[Hk%bool_decide_eq_true Ht%Z.eqb_eq]%andb_prop]%orb_prop; [done|].
  rewrite Hk, cstr_nul by done. done.
Qed.

Lemma quoted_part_gives inner fuel p e : quoted_part p = true -> all_quoted e ->
  gives (expand_part child file passwd inner fuel p e true) (fun r => match r with inl e | inr e => all_quoted e end).
Proof. intros _. by apply part_quoted. Qed.

Lemma parts_same inner fuel w e s : forallb quoted_part w = true ->
  parts_loop child file passwd inner fuel w e false s = parts_loop child file passwd inner fuel w e true s.
Proof.
  revert e s. induction w as [|p w IH]; intros e s; [done|]. cbn [forallb parts_loop]. intros [Hp Hw]%andb_prop.
  rewrite quoted_part_same by done. unfold mbind, XM_bind.
  destruct (expand_part _ _ _ _ _ _ _ _ s) as [[[e1|e1] s1]| |]; try done. by apply IH.
Qed.

Lemma parts_quoted inner fuel w e : all_quoted e ->
  gives (parts_loop child file passwd inner fuel w e true) all_quoted.
Proof.
  revert e. induction w as [|p w IH]; intros e He; [by apply gives_ret|]. cbn [parts_loop].
  eapply gives_after; [by apply part_quoted|]. intros [e1|e1] He1; [by apply IH|by apply gives_ret].
Qed.

Lemma expand_word_parts_same depth w e s : forallb quoted_part w = true ->
  expand_word_parts child file passwd depth w e false s = expand_word_parts child file passwd depth w e true s.
Proof. destruct depth; [done|]. apply parts_same. Qed.

Lemma expand_word_parts_quoted depth w : gives (expand_word_parts child file passwd depth w [] true) all_quoted.
Proof. destruct depth; [apply gives_no_fuel|]. by apply parts_quoted. Qed.

(** Quoted bytes are never split ... *)
Lemma split_quoted ifs e cur have : all_quoted e ->
  split_loop ifs e cur have = if have || negb (length e =? 0)%nat then [cur ++ map fst e] else [].
Proof.
  intros He. revert cur have. induction He as [|[c q] e Hq He IH]; intros cur have; simpl.
  - rewrite app_nil_r, orb_false_r. done.
  - unfold quoted_tag in Hq. simpl in Hq. rewrite (proj2 (Z.eqb_neq _ 0) Hq), andb_false_r. simpl.
    rewrite IH, orb_true_r. simpl. by rewrite <- app_assoc.
Qed.

(** ... and never a pattern. *)
Lemma pattern_quoted f e : all_quoted e -> has_pattern f e = false.
Proof.
  intros He. revert f. induction He as [|[c q] e Hq He IH]; intros [|d f]; simpl; try done.
  unfold quoted_tag in Hq. simpl in Hq. rewrite (proj2 (Z.eqb_neq _ 0) Hq). simpl. apply IH.
Qed.

Lemma glob_quoted e fields s : all_quoted e -> glob_fields dirents e fields s = Done (fields, s).
Proof.
  intros He. induction fields as [|f fields IH]; [done|]. simpl. rewrite pattern_quoted by done.
  unfold mbind, XM_bind. by rewrite IH.
Qed.

(** A word in quotes is one argument, whatever it expands to. *)
Lemma quoted_one_field depth w s : forallb quoted_part w = true -> existsb p_quoted w = true ->
  expand_word child file passwd dirents depth w s =
  match expand_word_one child file passwd depth w s with
  | Done (t, s') => Done ([t], s')
  | Trap => Trap
  | NoFuel => NoFuel
  end.
Proof.
  intros Hw Hq. unfold expand_word, expand_word_one. unfold mbind, XM_bind.
  rewrite expand_word_parts_same by done.
  destruct (expand_word_parts _ _ _ depth w [] true s) as [[e s1]| |] eqn:E; [|done..].
  apply expand_word_parts_quoted in E. unfold get_sh, split_exp. cbn beta iota.
  destruct (ch (ifs_of s1) =? 0); [by rewrite glob_quoted|]. rewrite split_quoted by done. cbn [orb app].
  destruct e as [|t e]; [by rewrite Hq|]. cbn [length Nat.eqb negb]. by rewrite glob_quoted.
Qed.

(** ** Splitting, as a reference has it *)

(** The pieces between the elements that break. *)
Fixpoint pieces {A} (brk : A -> bool) (l : list A) : list (list A) :=
  match l with
  | [] => [[]]
  | a :: l' =>
      if brk a then [] :: pieces brk l'
      else match pieces brk l' with p :: ps => (a :: p) :: ps | [] => [[a]] end
  end.

Definition nonempty {A} (l : list A) : bool := match l with [] => false | _ => true end.

Definition breaks (ifs : list Z) (t : Z * Z) : bool :=
  negb (Z.land (snd t) F_SPLIT =? 0) && (Z.land (snd t) F_QUOTE =? 0) && is_ifs (fst t) ifs.

Lemma pieces_cons {A} (brk : A -> bool) l : exists p ps, pieces brk l = p :: ps.
Proof. induction l as [|a l (p & ps & IH)]; simpl; [by eauto|]. case_match; [by eauto|]. rewrite IH. by eauto. Qed.

Lemma split_loop_pieces ifs e cur have : have = nonempty cur ->
  split_loop ifs e cur have =
  match pieces (breaks ifs) e with
  | p :: ps => List.filter nonempty ((cur ++ map fst p) :: map (map fst) ps)
  | [] => []
  end.
Proof.
  revert cur have. induction e as [|[c q] e IH]; intros cur have ->.
  - cbn. rewrite app_nil_r. by destruct cur.
  - cbn [split_loop pieces]. destruct (pieces_cons (breaks ifs) e) as (p & ps & Hp). rewrite Hp in *.
    change (negb (Z.land q F_SPLIT =? 0) && (Z.land q F_QUOTE =? 0) && is_ifs c ifs) with (breaks ifs (c, q)).
    destruct (breaks ifs (c, q)).
    + cbn [map]. rewrite app_nil_r. destruct cur; cbn [nonempty]; rewrite IH by done; done.
    + rewrite IH; [|by destruct cur]. cbn [map fst]. by rewrite <- app_assoc.
Qed.

Lemma split_exp_pieces ifs e : ch ifs <> 0 ->
  split_exp ifs e = List.filter nonempty (map (map fst) (pieces (breaks ifs) e)).
Proof.
  intros Hifs. unfold split_exp. rewrite (proj2 (Z.eqb_neq _ 0) Hifs), split_loop_pieces by done.
  by destruct (pieces_cons (breaks ifs) e) as (p & ps & ->).
Qed.

(** ** An unquoted variable *)

Lemma cstr_id t : cstring t -> cstr t = t.
Proof.
  unfold cstr. induction 1 as [|c t Hc Ht IH]; [done|]. simpl. destruct (Z.eqb_spec c 0); [lia|]. by f_equal.
Qed.

(** The name of a variable, none of the shell's own. *)
Definition plain_name (x : list Z) : Prop := cstring x /\ uses_buf x = false /\ is_digit (ch x) = false.

(** The text of a variable that a pointer may be held to. *)
Definition value_ok (v : list Z) : Prop := cstring v /\ Z.of_nat (length v) < 2 ^ 31.

Lemma lookup_plain x s : plain_name x ->
  lookup_word x s = Done (Some (mkVal (var_get (x_vars s) x) (Table x None)), s).
Proof.
  intros (_ & Hb & Hd). unfold lookup_word. rewrite Hb, Hd. unfold uses_buf in Hb. cbn [existsb] in Hb.
  repeat apply orb_false_iff in Hb as [? Hb]. unfold var_lookup_word.
  repeat match goal with H : (_ =? 0) = false |- _ => rewrite H; clear H end. by rewrite Hd.
Qed.

Lemma add_text_value e v quoted from : value_ok v ->
  add_text e v quoted from =
  e ++ map (fun c => (c, Z.lor (if from then F_SPLIT else 0) (if quoted then F_QUOTE else F_GLOB))) v.
Proof.
  intros [Hv Hl]. unfold add_text, exp_add. rewrite strlen_length, s32_id by (done || unfold is_s32; lia).
  destruct v as [|c v]; [simpl; by rewrite app_nil_r|]. rewrite Nat2Z.id, take_ge by done.
  destruct (Z.leb_spec (Z.of_nat (length (c :: v))) 0) as [Hle|_]; [simpl in Hle; lia|].
  by destruct from, quoted.
Qed.

Definition var_word (x : list Z) (quoted : bool) : Word := [mkPart W_LIT false []; mkPart W_VAR quoted x].

Lemma expand_var depth x quoted b s : plain_name x -> value_ok (var_get (x_vars s) x) ->
  x_nounset s = false \/ var_find (x_vars s) x <> None ->
  expand_word_parts child file passwd (S depth) (var_word x quoted) [] b s =
  Done (map (fun c => (c, Z.lor F_SPLIT (if b || quoted then F_QUOTE else F_GLOB))) (var_get (x_vars s) x), s).
Proof.
  intros Hx Hv Hset. pose proof Hx as (Hc & Hb & _). unfold uses_buf in Hb. cbn [existsb] in Hb.
  assert (Hat : (strcmp x (cs "@") =? 0) || (strcmp x (cs "*") =? 0) = false).
  { repeat apply orb_false_iff in Hb as [? Hb]. by apply orb_false_iff. }
  cbn [expand_word_parts parts_loop var_word]. unfold mbind, XM_bind.
  change (expand_part _ _ _ _ _ (mkPart W_LIT false []) [] b s) with (Done (inl ([] : Exp) : Exp + Exp, s)).
  cbn beta iota. unfold expand_part. cbn [p_kind p_text p_quoted]. rewrite cstr_id, Hat by done.
  unfold mbind, XM_bind. rewrite lookup_plain by done. cbn beta iota. unfold get_sh. cbn beta iota. cbn [val_text].
  assert (Hns : x_nounset s && (ch (var_get (x_vars s) x) =? 0) &&
    match var_find (x_vars s) x with None => true | Some _ => false end = false).
  { destruct Hset as [->|Hf]; [done|]. destruct (var_find _ _); [by rewrite andb_false_r|done]. }
  rewrite Hns. by rewrite add_text_value.
Qed.

(** No character of it starts a pattern. *)
Definition no_glob (v : list Z) : Prop := Forall (fun c => c <> ch_star /\ c <> ch_quest /\ c <> 91) v.

Lemma pattern_plain f e : no_glob f -> has_pattern f e = false.
Proof.
  intros Hf. revert e. induction Hf as [|c f (H1 & H2 & H3) Hf IH]; intros [|[d q] e]; simpl; try done.
  rewrite IH. repeat case_match; try done. lia.
Qed.

Lemma glob_plain e fields s : Forall no_glob fields -> glob_fields dirents e fields s = Done (fields, s).
Proof.
  induction 1 as [|f fields Hf Hs IH]; [done|]. simpl. rewrite pattern_plain by done.
  unfold mbind, XM_bind. by rewrite IH.
Qed.

(** The words of a text: what stands between the characters of IFS. *)
Definition words (ifs v : list Z) : list (list Z) :=
  if ch ifs =? 0 then [v] else List.filter nonempty (pieces (fun c => is_ifs c ifs) v).

Lemma pieces_map {A B} (f : A -> B) (brk : A -> bool) (brk' : B -> bool) l :
  (forall a, brk' (f a) = brk a) -> pieces brk' (map f l) = map (map f) (pieces brk l).
Proof.
  intros Hb. induction l as [|a l IH]; [done|]. simpl. rewrite Hb, IH. case_match; [done|].
  by destruct (pieces_cons brk l) as (p & ps & ->).
Qed.

Lemma pieces_sub {A} (P : A -> Prop) (brk : A -> bool) l : Forall P l -> Forall (Forall P) (pieces brk l).
Proof.
  induction 1 as [|a l Ha Hl IH]; simpl; [by repeat constructor|]. case_match; [by constructor|].
  destruct (pieces brk l) as [|p ps]; [by repeat constructor|]. apply Forall_cons in IH as [? ?].
  by repeat constructor.
Qed.

Lemma filter_sub {A} (P : A -> Prop) (f : A -> bool) l : Forall P l -> Forall P (List.filter f l).
Proof. induction 1; simpl; [done|]. case_match; [by constructor|done]. Qed.

Lemma words_plain ifs v : no_glob v -> Forall no_glob (words ifs v).
Proof. intros Hv. unfold words. case_match; [by constructor|]. by apply filter_sub, pieces_sub. Qed.

Lemma unquoted_words depth x s : plain_name x -> value_ok (var_get (x_vars s) x) ->
  x_nounset s = false \/ var_find (x_vars s) x <> None -> no_glob (var_get (x_vars s) x) ->
  expand_word child file passwd dirents (S depth) (var_word x false) s =
  Done (words (ifs_of s) (var_get (x_vars s) x), s).
Proof.
  intros Hx Hv Hset Hg. unfold expand_word, mbind, XM_bind. rewrite expand_var by done.
  cbn beta iota. unfold get_sh. cbn beta iota. set (v := var_get _ _) in *.
  set (e := map _ v). assert (Hsp : split_exp (ifs_of s) e = words (ifs_of s) v).
  { unfold words, e. destruct (Z.eqb_spec (ch (ifs_of s)) 0) as [Hz|Hz].
    - unfold split_exp. rewrite Hz, map_map. simpl. by rewrite map_id.
    - rewrite split_exp_pieces by done.
      rewrite (pieces_map _ (fun c => is_ifs c (ifs_of s))) by done. rewrite map_map.
      f_equal. rewrite <- (map_id (pieces _ _)) at 2. apply map_ext. intros l. by rewrite map_map, map_id. }
  rewrite Hsp. pose proof (words_plain (ifs_of s) v Hg) as Hw.
  destruct (words (ifs_of s) v) as [|f fs]; [done|]. by apply glob_plain.
Qed.

(** ** Joining and splitting *)

Lemma pieces_none {A} (brk : A -> bool) w : Forall (fun c => brk c = false) w -> pieces brk w = [w].
Proof. induction 1 as [|c w Hc Hw IH]; [done|]. simpl. by rewrite Hc, IH. Qed.

Lemma pieces_word {A} (brk : A -> bool) w c l : Forall (fun c => brk c = false) w -> brk c = true ->
  pieces brk (w ++ c :: l) = w :: pieces brk l.
Proof. intros Hw Hc. induction Hw as [|d w Hd Hw IH]; simpl; [by rewrite Hc|]. by rewrite Hd, IH. Qed.

(** Words put together with a character of IFS between them. *)
Fixpoint joined (sep : Z) (ws : list (list Z)) : list Z :=
  match ws with
  | [] => []
  | [w] => w
  | w :: ws' => w ++ sep :: joined sep ws'
  end.

Lemma words_joined ifs sep ws : ch ifs <> 0 -> is_ifs sep ifs = true ->
  Forall (fun w => w <> [] /\ Forall (fun c => is_ifs c ifs = false) w) ws -> words ifs (joined sep ws) = ws.
Proof.
  intros Hifs Hsep. unfold words. rewrite (proj2 (Z.eqb_neq _ 0) Hifs).
  induction 1 as [|w ws [Hne Hw] Hws IH]; [done|]. destruct ws as [|w' ws].
  - cbn [joined]. rewrite pieces_none by done. by destruct w.
  - change (joined sep (w :: w' :: ws)) with (w ++ sep :: joined sep (w' :: ws)).
    rewrite pieces_word by done. cbn [List.filter]. rewrite IH. by destruct w.
Qed.
End World.
