(* ===== verification/ExpandBrace.v ===== *)
(** The operators of [${...}] on variables. *)
From S2P Require Import Prelude CString StrBuf FnMatch Vars Arith Printf Lex LexSource LexTotal LexPrint Parse Expand ExpandSplit.
Local Open Scope Z_scope.

(** ** The text behind an operator *)

Lemma tokens_on fuel n t : bytes t -> tokens fuel n (lexer_on t) = tokens fuel n (lex_start t).
Proof. intros Hb. by apply (tokens_sim reads), reads_start. Qed.

Section World.
Variables (child : Sh -> list Z -> list Z) (file : list Z -> option (list Z))
  (passwd : option (list (list Z))) (dirents : list Z -> option (list (list Z))).

Section Words.
Variable inner : Word -> Exp -> bool -> XM Exp.

(** [sub_words] over the tokens of the text. *)
Fixpoint sub_list (ks : list Tok) (first : bool) (e : Exp) (quoted : bool) : XM Exp :=
  match ks with
  | [] => mret e
  | T_WORD (Some w) :: ks' =>
      let e := if first then e else exp_addc e ch_sp 0 in
      e ← inner w e quoted;
      sub_list ks' false e quoted
  | _ :: ks' => sub_list ks' first e quoted
  end.

Lemma sub_words_list n fuel lx ks first e quoted s : tokens fuel n lx = Some ks ->
  sub_words inner n fuel lx first e quoted s = sub_list ks first e quoted s.
Proof.
  revert lx ks first e s. induction n as [|n IH]; intros lx ks first e s; [done|]. cbn [tokens sub_words].
  destruct (lex_next fuel lx) as [lx'|]; [|done]. simpl.
  destruct (lx_tok lx') as [|[w|]| |op] eqn:Hk; [by intros [= <-]|..];
    intros (ks' & Hks & ->)%fmap_Some; cbn [sub_list]; try by apply IH.
  unfold mbind, XM_bind. destruct (inner w _ quoted s) as [[e' s']| |]; try done. by apply IH.
Qed.
End Words.

(** Text as one word of an operator. *)
Definition lit_word (t : list Z) : Word := [mkPart W_LIT false t].

Definition text_ok (t : list Z) : Prop := word_ok (lit_word t) = true /\ value_ok t.

Definition spelt (ts : list (list Z)) : list Z := print_toks (map (fun t => T_WORD (Some (lit_word t))) ts).

Lemma sub_list_texts depth ts first e quoted s : Forall text_ok ts ->
  exists e', sub_list (expand_word_parts child file passwd (S depth))
      (map (fun t => T_WORD (Some (lit_word t))) ts) first e quoted s = Done (e', s) /\
    map fst e' = map fst e ++ (if first then [] else match ts with [] => [] | _ => [ch_sp] end) ++ joined ch_sp ts.
Proof.
  intros Hts. revert first e. induction Hts as [|t ts [Hok Hv] Hts IH]; intros first e.
  - exists e. split; [done|]. destruct first; by rewrite !app_nil_r.
  - cbn [map sub_list]. unfold mbind, XM_bind.
    set (e1 := if first then e else exp_addc e ch_sp 0).
    assert (Hin : expand_word_parts child file passwd (S depth) (lit_word t) e1 quoted s = Done (add_text e1 t quoted false, s)).
    { cbn [expand_word_parts parts_loop lit_word]. unfold mbind, XM_bind, expand_part. cbn [p_kind p_text p_quoted].
      rewrite cstr_id by apply Hv. by rewrite orb_false_r. }
    rewrite Hin. destruct (IH false (add_text e1 t quoted false)) as (e' & -> & He'). exists e'. split; [done|].
    rewrite He', add_text_value, map_app, map_map by done. cbn [fst]. rewrite map_id.
    assert (He1 : map fst e1 = map fst e ++ if first then [] else [ch_sp]).
    { unfold e1, exp_addc. destruct first; [by rewrite app_nil_r|by rewrite map_app]. }
    rewrite He1, <- !app_assoc. f_equal.
    by destruct first, ts as [|t' ts]; cbn [joined app]; rewrite ?app_nil_r.
Qed.

Lemma joined_cstring ts : Forall text_ok ts -> cstring (joined ch_sp ts).
Proof.
  induction 1 as [|t ts [_ [Ht _]] Hts IH]; [by constructor|]. destruct ts as [|t' ts]; [done|].
  change (joined ch_sp (t :: t' :: ts)) with (t ++ ch_sp :: joined ch_sp (t' :: ts)).
  apply Forall_app. split; [done|]. by constructor.
Qed.

Lemma sub_text_spelt depth ts quoted s : Forall text_ok ts ->
  sub_text_of (expand_word_parts child file passwd (S depth)) (spelt ts) quoted s = Done (joined ch_sp ts, s).
Proof.
  intros Hts. unfold sub_text_of, expand_sub_text. unfold mbind, XM_bind.
  set (ks := map (fun t => T_WORD (Some (lit_word t))) ts).
  assert (Hok : forallb tok_ok ks = true).
  { unfold ks. clear -Hts. induction Hts as [|t ts [Ht _] Hts IH]; [done|]. cbn [map forallb tok_ok]. by rewrite Ht. }
  assert (Hlen : (length ks <= length (print_toks ks))%nat).
  { clear. unfold print_toks. induction ks as [|k ks IH]; [done|]. cbn [flat_map length]. rewrite !length_app. simpl. lia. }
  erewrite (sub_words_list _ _ _ _ ks).
  2:{ rewrite tokens_on by (by apply print_toks_bytes). apply (tokens_print _ ks []); [by left|done|unfold spelt; fold ks; lia|].
      unfold spelt. fold ks. lia. }
  destruct (sub_list_texts depth ts true [] quoted s Hts) as (e' & He & He'). fold ks in He. rewrite He.
  unfold exp_cstr. rewrite He'. simpl.
  by rewrite cstr_id by (by apply joined_cstring).
Qed.

(** ** The name in front of an operator *)

(** A variable's name as scripts write it. *)
Definition ident (x : list Z) : Prop := forallb is_name_char x = true /\ x <> [] /\ is_digit (ch x) = false.

Lemma ident_first x : ident x -> exists c x', x = c :: x' /\ is_name_char c = true /\ is_digit c = false.
Proof. intros (Hn & Hne & Hd). destruct x as [|c x]; [done|]. cbn in Hn. apply andb_prop in Hn as [Hc _]. by exists c, x. Qed.

Lemma ident_cstring x : ident x -> cstring x.
Proof.
  intros (Hn & _). rewrite forallb_forall in Hn. apply Forall_forall. intros c Hc%list_elem_of_In%Hn.
  unfold is_name_char in Hc. lia.
Qed.

Lemma ident_plain x : ident x -> plain_name x.
Proof.
  intros Hx. pose proof Hx as (_ & _ & Hd). split; [by apply ident_cstring|]. split; [|done].
  pose proof (ident_cstring x Hx) as Hcs. destruct (ident_first x Hx) as (c & x' & -> & Hc & _).
  unfold uses_buf. cbn [existsb].
  repeat match goal with
  | |- (strcmp _ ?n =? 0) || _ = false =>
      replace (strcmp (c :: x') n =? 0) with false; [cbn [orb]|symmetry; apply Z.eqb_neq;
        rewrite strcmp_0_iff by (done || by repeat constructor); intros [= -> _]; done]
  end. done.
Qed.

(** An operator: it does not go on with the name. *)
Definition op_char (c : Z) : bool := negb (is_name_char c) && negb (c =? 91).

Lemma name_chars_app x c r : forallb is_name_char x = true -> is_name_char c = false ->
  name_chars (x ++ c :: r) = (x, c :: r).
Proof.
  intros Hx Hc. induction x as [|d x IH]; simpl in *; [by rewrite Hc|]. apply andb_prop in Hx as [Hd Hx].
  by rewrite Hd, IH.
Qed.

Lemma parse_ident x c r : ident x -> op_char c = true -> parse_name (x ++ c :: r) = mkName x (-1) false (c :: r).
Proof.
  intros Hx [Hc%negb_true_iff Hb%negb_true_iff]%andb_prop.
  destruct (ident_first x Hx) as (d & x' & -> & Hd & _). destruct Hx as (Hn & _).
  assert (H0 : forall k, is_name_char k = false -> (d =? k) = false).
  { intros k Hk. apply Z.eqb_neq. by intros ->; rewrite Hk in Hd. }
  unfold parse_name. change (ch ((d :: x') ++ c :: r)) with d. rewrite !H0 by done. cbn [orb andb].
  rewrite name_chars_app by done. change (ch (c :: r)) with c. by rewrite Hb.
Qed.

Definition brace_word (body : list Z) (quoted : bool) : Word := [mkPart W_LIT false []; mkPart W_BRACE quoted body].

(** From the word down to the operator. *)
Lemma expand_brace depth x c r s : ident x -> op_char c = true -> cstring (c :: r) ->
  expand_word_one child file passwd (S depth) (brace_word (x ++ c :: r) true) s =
  match (match default_op (c :: r) with
         | Some (kind, colon) =>
             brace_default (sub_text_of (expand_word_parts child file passwd depth)) [] (mkName x (-1) false (c :: r)) kind colon true
         | None =>
             let v := mkVal (var_get (x_vars s) x) (Table x None) in
             let sub := sub_text_of (expand_word_parts child file passwd depth) in
             if c =? 58 then mret (add_text [] (slice (val_text v) (c :: r)) true true)
             else if (c =? ch_hash) || (c =? 37) then brace_strip sub [] v (c :: r) true
             else if c =? ch_slash then brace_replace sub [] v (c :: r) true
             else if is_case_op (c :: r) then brace_case sub [] v (c :: r) true
             else mret (add_text [] (val_text v) true true)
         end s) with
  | Done (e, s') => Done (map fst e, s')
  | Trap => Trap
  | NoFuel => NoFuel
  end.
Proof.
  intros Hx Hc Hr. pose proof (ident_plain x Hx) as Hpl.
  unfold expand_word_one. cbn [expand_word_parts parts_loop brace_word]. unfold mbind, XM_bind.
  change (expand_part _ _ _ _ _ (mkPart W_LIT false []) [] true s) with (Done (inl ([] : Exp) : Exp + Exp, s)).
  cbn beta iota. unfold expand_part. cbn [p_kind p_text p_quoted]. rewrite cstr_id.
  2:{ apply Forall_app. split; [by apply ident_cstring|done]. }
  unfold mbind, XM_bind. cbn [orb]. set (sub := sub_text_of _).
  destruct (ident_first x Hx) as (d & x' & Hd & Hdn & _).
  assert (Hbody : expand_brace_body sub [] (x ++ c :: r) true s =
    match default_op (c :: r) with
    | Some (kind, colon) => brace_default sub [] (mkName x (-1) false (c :: r)) kind colon true
    | None => v ← value_of x (-1) false;
          if c =? 58 then mret (add_text [] (slice (val_text v) (c :: r)) true true)
          else if (c =? ch_hash) || (c =? 37) then brace_strip sub [] v (c :: r) true
          else if c =? ch_slash then brace_replace sub [] v (c :: r) true
          else if is_case_op (c :: r) then brace_case sub [] v (c :: r) true
          else mret (add_text [] (val_text v) true true)
    end s).
  { unfold expand_brace_body. rewrite parse_ident by done.
    assert (Hf : ch (x ++ c :: r) = d) by (by rewrite Hd). rewrite Hf.
    assert (Hh : (d =? ch_hash) = false /\ (d =? ch_bang) = false).
    { unfold is_name_char in Hdn. lia. }
    destruct Hh as [-> ->]. cbn [andb n_is_at n_rest n_name n_idx]. change (ch (c :: r)) with c. done. }
  rewrite Hbody. clear Hbody. destruct (default_op (c :: r)) as [[kind colon]|]; [by destruct (brace_default _ _ _ _ _ _ s) as [[??]| |]|].
  unfold mbind at 1, XM_bind at 1. unfold value_of, mbind, XM_bind, get_sh. cbn [Z.leb Z.compare andb].
  rewrite lookup_plain by done. cbn [default val_text].
  unfold mret at 1, XM_ret at 1. unfold id. cbn beta iota zeta. cbn [val_text].
  match goal with |- context [match ?m s with _ => _ end] => by destruct (m s) as [[??]| |] end.
Qed.

Lemma head_text_cstring t : cstring t -> cstring (head_text t).
Proof.
  induction 1 as [|c t Hc Ht IH]; [by constructor|]. unfold head_text. cbn [flat_map]. apply Forall_app. split; [|done].
  case_match; [|constructor; [done|]]; (constructor; [done|by constructor]).
Qed.

Lemma spelt_cons t ts : spelt (t :: ts) = head_text t ++ ch_sp :: spelt ts.
Proof.
  unfold spelt, print_toks. cbn [map flat_map print_tok lit_word print_word]. by rewrite app_nil_r, <- app_assoc.
Qed.

Lemma spelt_cstring ts : Forall text_ok ts -> cstring (spelt ts).
Proof.
  induction 1 as [|t ts [_ [Ht _]] Hts IH]; [by constructor|]. rewrite spelt_cons. apply Forall_app.
  split; [by apply head_text_cstring|by constructor].
Qed.

(** ** [${x:-word}], [${x:=word}], [${x:+word}] *)

Lemma empty_value v : cstring v -> (ch v =? 0) = negb (nonempty v).
Proof. destruct v as [|c v]; [done|]. intros [Hc _]%Forall_cons. unfold at_. simpl. apply Z.eqb_neq. lia. Qed.

(** A variable that counts as unset has no text. *)
Lemma unset_empty s x : ident x -> is_unset s x (-1) = true -> var_get (x_vars s) x = [].
Proof.
  intros Hx. destruct (ident_first x Hx) as (c & x' & -> & Hc & Hd). unfold is_unset. cbn [Z.leb Z.compare andb].
  change (ch (c :: x')) with c. destruct (negb (c =? 0) && (at_ (c :: x') 1 =? 0)).
  - unfold is_digit in Hd. unfold is_name_char in Hc.
    destruct ((49 <=? c) && (c <=? 57)) eqn:E; [lia|].
    destruct ((c =? ch_star) || (c =? ch_at)) eqn:E'; [lia|done].
  - unfold var_get. by destruct (var_find _ _).
Qed.

Lemma add_text_nil v from : value_ok v -> map fst (add_text [] v true from) = v.
Proof. intros Hv. rewrite add_text_value by done. cbn [app]. rewrite map_map. cbn. apply map_id. Qed.

Definition default_kind (k : Z) : bool := (k =? ch_minus) || (k =? 61) || (k =? 43).

Definition assigned (x w : list Z) (s : Sh) : Sh := with_vars (fst (var_set true (x_vars s) x w)) s.

Lemma default_text depth x k ts s : ident x -> default_kind k = true -> Forall text_ok ts ->
  value_ok (joined ch_sp ts) -> value_ok (var_get (x_vars s) x) ->
  expand_word_one child file passwd (S (S depth)) (brace_word (x ++ 58 :: k :: spelt ts) true) s =
  Done (if nonempty (var_get (x_vars s) x)
        then if k =? 43 then (joined ch_sp ts, s) else (var_get (x_vars s) x, s)
        else if k =? 43 then ([], s)
        else (joined ch_sp ts, if k =? 61 then assigned x (joined ch_sp ts) s else s)).
Proof.
  intros Hx Hk Hts Hw Hv. rewrite expand_brace; [|done|done|].
  2:{ constructor; [done|]. constructor; [|by apply spelt_cstring]. unfold default_kind in Hk. lia. }
  assert (Hop : default_op (58 :: k :: spelt ts) = Some (k, true)).
  { unfold default_op, at_. cbn [nth]. unfold default_kind in Hk.
    replace ((k =? ch_minus) || (k =? 61) || (k =? ch_quest) || (k =? 43)) with true by lia. done. }
  rewrite Hop. unfold brace_default. cbn [n_rest n_name n_idx drop]. unfold mbind, XM_bind.
  change (drop 0 (spelt ts)) with (spelt ts). rewrite sub_text_spelt by done. unfold value_of, mbind, XM_bind, get_sh. cbn [Z.leb Z.compare andb].
  rewrite lookup_plain by (by apply ident_plain). unfold mret, XM_ret, id. cbn [default val_text].
  rewrite empty_value by apply Hv. pose proof (unset_empty s x Hx) as Hun.
  assert (Hbad : is_unset s x (-1) || negb (nonempty (var_get (x_vars s) x)) = negb (nonempty (var_get (x_vars s) x))).
  { destruct (is_unset s x (-1)); [by rewrite Hun|done]. }
  rewrite Hbad. unfold default_kind in Hk.
  destruct (Z.eqb_spec k 43) as [->|H43].
  - destruct (nonempty _); cbn [negb]; by rewrite ?add_text_nil.
  - replace (k =? ch_quest) with false by lia. destruct (nonempty _); cbn [negb]; [by rewrite add_text_nil|].
    destruct (k =? 61); unfold put_sh; by rewrite add_text_nil.
Qed.

(** ** [${x#pat}] and its relatives *)

(** What [extremal] says of the text that is left, or that nothing matches. *)
Definition stripped_ok (front longest : bool) (v pat r : list Z) : Prop :=
  (if front then exists k, r = drop k v /\ extremal longest (length v) (fun k => pattern_matches pat (take k v)) k
   else exists k, r = take k v /\ extremal (negb longest) (length v) (fun k => pattern_matches pat (drop k v)) k) \/
  r = v /\ forall k, (k <= length v)%nat -> ~ pattern_matches pat (if front then take k v else drop k v).

Definition strip_of (front longest : bool) (v pat : list Z) : list Z :=
  default v (if front then sh_strip_prefix v pat longest Lex.SH_LINE_MAX
             else sh_strip_suffix v pat longest Lex.SH_LINE_MAX).

Lemma strip_of_ok front longest v pat : cstring v -> cstring pat -> (length v < 1023)%nat ->
  stripped_ok front longest v pat (strip_of front longest v pat).
Proof.
  intros Hv Hp Hl. destruct (sh_strip_extremal v pat longest Lex.SH_LINE_MAX Hv Hp) as [Hpre Hsuf];
    [unfold Lex.SH_LINE_MAX; lia..|]. unfold strip_of, stripped_ok. destruct front.
  - destruct (sh_strip_prefix _ _ _ _); [by left|by right].
  - destruct (sh_strip_suffix _ _ _ _); [by left|by right].
Qed.

Lemma part_value v r : value_ok v -> (exists k, r = drop k v) \/ (exists k, r = take k v) \/ r = v -> value_ok r.
Proof.
  intros [Hc Hl] [[k ->]|[[k ->]| ->]]; [| |done].
  - split; [by apply Forall_drop|]. rewrite length_drop. lia.
  - split; [by apply Forall_take|]. rewrite length_take. lia.
Qed.

Lemma stripped_value front longest v pat r : value_ok v -> stripped_ok front longest v pat r -> value_ok r.
Proof.
  intros Hv [H|[-> _]]; [|done]. apply (part_value v); [done|]. destruct front; destruct H as (k & -> & _); eauto.
Qed.

Lemma spelt_first pat : text_ok pat -> exists r, spelt [pat] = (if plain (ch pat) then ch pat else ch_bs) :: r.
Proof.
  intros [Hok _]. destruct pat as [|c pat]; [done|]. rewrite spelt_cons. unfold head_text, at_. cbn [flat_map nth].
  destruct (plain c); by eexists.
Qed.

Lemma strip_text depth x (front longest : bool) pat s : ident x -> text_ok pat -> (front = false -> ch pat <> 37) ->
  value_ok (var_get (x_vars s) x) -> (length (var_get (x_vars s) x) < 1023)%nat ->
  let c := if front then ch_hash else 37 in
  expand_word_one child file passwd (S (S depth))
    (brace_word (x ++ c :: (if longest then [c] else []) ++ spelt [pat]) true) s =
  Done (strip_of front longest (var_get (x_vars s) x) pat, s).
Proof.
  intros Hx Hp Hpc Hv Hl c. set (v := var_get _ _) in *.
  assert (Hts : Forall text_ok [pat]) by (by constructor).
  assert (Hr : value_ok (strip_of front longest v pat)).
  { eapply stripped_value; [exact Hv|]. apply strip_of_ok; [apply Hv|apply Hp|done]. }
  assert (Hc : c = ch_hash /\ front = true \/ c = 37 /\ front = false) by (unfold c; destruct front; auto).
  rewrite expand_brace; [|done|by destruct Hc as [[-> _]|[-> _]]|].
  2:{ assert (0 < c < 256) by (destruct Hc as [[-> _]|[-> _]]; lia). constructor; [done|].
      destruct longest; [constructor; [done|]|]; by apply spelt_cstring. }
  assert (Hop : default_op (c :: (if longest then [c] else []) ++ spelt [pat]) = None).
  { unfold default_op, at_. cbn [nth]. by destruct Hc as [[-> _]|[-> _]]. }
  rewrite Hop. clear Hop. cbv zeta. replace (c =? 58) with false by lia.
  replace ((c =? ch_hash) || (c =? 37)) with true by lia. unfold brace_strip.
  destruct (spelt_first pat Hp) as (r & Hfirst).
  assert (Hlong : (at_ (c :: (if longest then [c] else []) ++ spelt [pat]) 1 =? ch (c :: (if longest then [c] else []) ++ spelt [pat])) = longest).
  { destruct longest; unfold at_; cbn [nth app]; [by rewrite Z.eqb_refl|]. rewrite Hfirst. cbn [nth]. apply Z.eqb_neq.
    destruct Hc as [[-> ->]|[-> ->]]; [|by destruct (plain (ch pat)); [apply Hpc|]].
    destruct (plain (ch pat)) eqn:Epl; [|done]. intros Heq. by rewrite Heq in Epl. }
  rewrite Hlong. change (ch (c :: _)) with c. unfold mbind, XM_bind.
  assert (Hdrop : drop (if longest then 2 else 1) (c :: (if longest then [c] else []) ++ spelt [pat]) = spelt [pat])
    by (by destruct longest).
  rewrite Hdrop, sub_text_spelt by done. cbn beta iota.
  assert (Hread : read_val (mkVal v (Table x None)) s = Done (v, s)).
  { unfold read_val. cbn [val_where in_table val_text]. by rewrite bool_decide_true. }
  fold v. rewrite Hread. unfold mret, XM_ret. cbn [joined].
  assert (Hfc : (c =? ch_hash) = front) by (by destruct Hc as [[-> ->]|[-> ->]]).
  rewrite Hfc. fold (strip_of front longest v pat). by rewrite add_text_nil.
Qed.

(** ** [${x:offset:length}] *)

Lemma until_none c l : Forall (fun d => d <> c) l -> until_char c l = (l, []).
Proof. induction 1 as [|d l Hd Hl IH]; [done|]. simpl. rewrite (proj2 (Z.eqb_neq d c) Hd). by rewrite IH. Qed.

Lemma digits_no_colon n : 0 <= n < 2 ^ 31 -> Forall (fun d => d <> 58) (itoa n) /\ take 31 (itoa n) = itoa n /\ atol (itoa n) = n.
Proof.
  intros Hn. split_and!.
  - unfold itoa. destruct (Z.ltb_spec n 0); [lia|]. eapply Forall_impl; [apply dec_digits; lia|]. simpl. lia.
  - apply take_ge. unfold itoa. destruct (Z.ltb_spec n 0); [lia|].
    pose proof (dec_len n ltac:(lia)). lia.
  - apply atol_itoa. unfold is_s32. lia.
Qed.

Lemma slice_from v n : value_ok v -> 0 <= n < 2 ^ 31 -> slice v (58 :: itoa n) = drop (Z.to_nat n) v.
Proof.
  intros [Hv Hl] Hn. destruct (digits_no_colon n Hn) as (Hd & Ht & Ha). unfold slice. cbn [drop].
  change (drop 0 (itoa n)) with (itoa n). rewrite until_none, Ht, Ha, strlen_length, s32_id by (done || unfold is_s32; lia).
  destruct (Z.ltb_spec n 0) as [?|_]; [lia|]. destruct (Z.ltb_spec n 0) as [?|_]; [lia|].
  destruct (Z.ltb_spec (Z.of_nat (length v)) n) as [Hlt|Hge].
  - rewrite Z.sub_diag. simpl. symmetry. apply drop_ge. lia.
  - apply take_ge. rewrite length_drop. lia.
Qed.

Lemma slice_to v n : value_ok v -> 0 <= n < 2 ^ 31 -> slice v (58 :: 48 :: 58 :: itoa n) = take (Z.to_nat n) v.
Proof.
  intros [Hv Hl] Hn. destruct (digits_no_colon n Hn) as (Hd & Ht & Ha). unfold slice. cbn [drop].
  change (until_char 58 (48 :: 58 :: itoa n)) with ([48], 58 :: itoa n). cbn beta iota.
  rewrite Ht, Ha, strlen_length, s32_id by (done || unfold is_s32; lia).
  change (atol (take 31 [48])) with 0. cbn [Z.ltb Z.compare].
  destruct (Z.ltb_spec (Z.of_nat (length v)) 0) as [?|_]; [lia|].
  destruct (Z.ltb_spec n 0) as [?|_]; [lia|]. rewrite Z.add_0_l, s32_id by (unfold is_s32; lia).
  destruct (Z.ltb_spec n 0) as [?|_]; [lia|]. rewrite Z.sub_0_r.
  change (drop (Z.to_nat 0) v) with v.
  destruct (Z.ltb_spec (Z.of_nat (length v)) n) as [Hlt|Hge]; [|done].
  rewrite !take_ge by lia. done.
Qed.

(** ** [${x^^}] and its relatives *)

(** The operator itself is the pattern, and it is no letter. *)
Lemma case_conv_same v up c : cstring v -> c = 94 \/ c = 44 -> case_conv_str v up (Some [c]) = v.
Proof.
  intros Hv Hc. unfold case_conv_str. rewrite cstr_id by done.
  assert (Hone : forall d, 0 < d < 256 -> sh_pattern [c] [d] = (d =? c)).
  { intros d Hd. apply eqb_prop.
    destruct Hc as [-> | ->].
    - apply (all_bytes (fun d => eqb (sh_pattern [94] [d]) (d =? 94))); [unfold is_u8; lia|by vm_compute].
    - apply (all_bytes (fun d => eqb (sh_pattern [44] [d]) (d =? 44))); [unfold is_u8; lia|by vm_compute]. }
  induction Hv as [|d v Hd Hv IH]; [done|]. cbn [map]. f_equal; [|done].
  replace (ch [c] =? 0) with false by (by destruct Hc as [-> | ->]). rewrite Hone by done.
  destruct (Z.eqb_spec d c) as [->|]; [|done]. by destruct Hc as [-> | ->], up.
Qed.
End World.
