(* ===== verification/ExpandTheorems.v ===== *)
(** The theorems on the expansion of words. *)
From S2P Require Import Prelude CString StrBuf FnMatch Vars Arith Lex LexPrint Parse Expand ExpandSplit ExpandBrace.
Local Open Scope Z_scope.

Section World.
Variables (child : Sh -> list Z -> list Z) (file : list Z -> option (list Z))
  (passwd : option (list (list Z))) (dirents : list Z -> option (list (list Z))).

(** C8: A word in quotes is exactly one argument.  Whatever its parts are, commands, files,
    arrays and the operators of [${...}] included, whatever they expand to, and whatever
    IFS and the directories hold, [expand_word] gives one field, the text [expand_word_one]
    gives, and does to the shell what that does; it is never split and never a pattern. *)
Theorem vash_quoted_one_field depth w s : forallb quoted_part w = true -> existsb p_quoted w = true ->
  expand_word child file passwd dirents depth w s =
  match expand_word_one child file passwd depth w s with
  | Done (t, s') => Done ([t], s')
  | Trap => Trap
  | NoFuel => NoFuel
  end.
Proof. apply quoted_one_field. Qed.

(** C27: A variable outside quotes whose value has no pattern character becomes the words of
    its value, the pieces between characters of IFS that are not empty, or the value
    itself when IFS is empty; so words put together with a character of IFS between
    them come back as they were. *)
Theorem vash_unquoted_words depth x s : plain_name x -> value_ok (var_get (x_vars s) x) ->
  x_nounset s = false \/ var_find (x_vars s) x <> None -> no_glob (var_get (x_vars s) x) ->
  expand_word child file passwd dirents (S depth) (var_word x false) s =
    Done (words (ifs_of s) (var_get (x_vars s) x), s) /\
  (forall sep ws, ch (ifs_of s) <> 0 -> is_ifs sep (ifs_of s) = true -> var_get (x_vars s) x = joined sep ws ->
    Forall (fun w => w <> [] /\ Forall (fun c => is_ifs c (ifs_of s) = false) w) ws ->
    expand_word child file passwd dirents (S depth) (var_word x false) s = Done (ws, s)).
Proof.
  intros Hx Hv Hset Hg. split; [by apply unquoted_words|]. intros sep ws Hifs Hsep Hj Hws.
  rewrite unquoted_words, Hj by done. by rewrite words_joined.
Qed.

(** C28: [${x:-word}], [${x:=word}] and [${x:+word}] on a variable and literal words: the
    first two give its value, or the words when it is unset or empty, and the second
    then assigns them; the third gives the words exactly when it is neither. *)
Theorem vash_default_value depth x k ts s : ident x -> default_kind k = true -> Forall text_ok ts ->
  value_ok (joined ch_sp ts) -> value_ok (var_get (x_vars s) x) ->
  expand_word_one child file passwd (S (S depth)) (brace_word (x ++ 58 :: k :: spelt ts) true) s =
  Done (if nonempty (var_get (x_vars s) x)
        then if k =? 43 then (joined ch_sp ts, s) else (var_get (x_vars s) x, s)
        else if k =? 43 then ([], s)
        else (joined ch_sp ts, if k =? 61 then assigned x (joined ch_sp ts) s else s)).
Proof. apply default_text. Qed.

(** C29: [${x#pat}], [${x##pat}], [${x%pat}] and [${x%%pat}] on a value shorter than a line
    cut off the shortest or the longest prefix or suffix that the pattern matches, in the
    declarative meaning of patterns, and leave the value alone exactly when none does. *)
Theorem vash_strip depth x (front longest : bool) pat s : ident x -> text_ok pat -> (front = false -> ch pat <> 37) ->
  value_ok (var_get (x_vars s) x) -> (length (var_get (x_vars s) x) < 1023)%nat ->
  let c := if front then ch_hash else 37 in
  exists r, expand_word_one child file passwd (S (S depth))
      (brace_word (x ++ c :: (if longest then [c] else []) ++ spelt [pat]) true) s = Done (r, s) /\
    stripped_ok front longest (var_get (x_vars s) x) pat r.
Proof.
  intros Hx Hp Hpc Hv Hl c. eexists. split; [by apply strip_text|].
  apply strip_of_ok; [apply Hv|apply Hp|done].
Qed.

(** [${x:0:n}] and [${x:n}] are the two halves of the value. *)
Theorem vash_slices depth x n s : ident x -> 0 <= n < 2 ^ 31 -> value_ok (var_get (x_vars s) x) ->
  exists a b, expand_word_one child file passwd (S depth) (brace_word (x ++ 58 :: 48 :: 58 :: itoa n) true) s = Done (a, s) /\
    expand_word_one child file passwd (S depth) (brace_word (x ++ 58 :: itoa n) true) s = Done (b, s) /\
    a ++ b = var_get (x_vars s) x /\ length a = Nat.min (Z.to_nat n) (length (var_get (x_vars s) x)).
Proof.
  intros Hx Hn Hv. pose proof (itoa_cstring n ltac:(unfold is_s32; lia)) as Hc.
  pose proof (part_value (var_get (x_vars s) x)) as Hp.
  eexists _, _. split_and!.
  - rewrite expand_brace; [|done|done|by repeat constructor].
    change (default_op (58 :: 48 :: 58 :: itoa n)) with (@None (Z * bool)). cbn [val_text Z.eqb Pos.eqb].
    rewrite slice_to by done. unfold mret, XM_ret. rewrite add_text_nil by eauto. done.
  - rewrite expand_brace; [|done|done|by constructor].
    assert (Hop : default_op (58 :: itoa n) = None).
    { assert (Hd : 48 <= at_ (58 :: itoa n) 1 <= 57).
      { change (at_ (58 :: itoa n) 1) with (ch (itoa n)). unfold itoa. destruct (Z.ltb_spec n 0); [lia|]. apply dec_head. lia. }
      unfold default_op. change (ch (58 :: itoa n)) with 58. revert Hd. generalize (at_ (58 :: itoa n) 1). intros d Hd.
      cbn [Z.eqb Pos.eqb orb andb]. by replace ((d =? ch_minus) || (d =? 61) || (d =? ch_quest) || (d =? 43)) with false by lia. }
    rewrite Hop. cbn [val_text Z.eqb Pos.eqb]. rewrite slice_from by done. unfold mret, XM_ret.
    rewrite add_text_nil by eauto. done.
  - apply take_drop.
  - by rewrite length_take.
Qed.

(** [${x^^}], [${x^}], [${x,,}] and [${x,}] change nothing: the operator's own character is
    taken for the pattern. *)
Theorem vash_case_unchanged depth x c (twice : bool) s : ident x -> c = 94 \/ c = 44 -> value_ok (var_get (x_vars s) x) ->
  expand_word_one child file passwd (S (S depth)) (brace_word (x ++ c :: if twice then [c] else []) true) s =
  Done (var_get (x_vars s) x, s).
Proof.
  intros Hx Hc Hv. rewrite expand_brace; [|done|by destruct Hc as [-> | ->]|].
  2:{ destruct Hc as [-> | ->], twice; by repeat constructor. }
  assert (Hsub : forall t, t = [c] -> sub_text_of (expand_word_parts child file passwd (S depth)) t true s = Done ([c], s)).
  { intros t ->. by destruct Hc as [-> | ->]. }
  assert (Hread : read_val (mkVal (var_get (x_vars s) x) (Table x None)) s = Done (var_get (x_vars s) x, s)).
  { unfold read_val. cbn [val_where in_table val_text]. by rewrite bool_decide_true. }
  destruct Hc as [-> | ->], twice; cbn -[brace_case sub_text_of expand_word_parts var_get];
    unfold brace_case, mbind, XM_bind; rewrite Hsub by done; rewrite Hread; cbn -[case_conv_str add_text];
    unfold mret, XM_ret; rewrite (case_conv_same _ _ _ (proj1 Hv)) by auto; by rewrite add_text_nil.
Qed.

(** [~user] never comes back: the loop that copies the name does not count. *)
Theorem vash_tilde_hangs depth user rest s : ch user <> 0 -> ch user <> ch_slash -> cstring user ->
  expand_word child file passwd dirents depth (mkPart W_LIT false [] :: mkPart W_TILDE false user :: rest) s = NoFuel.
Proof.
  intros H0 Hs Hu. destruct depth as [|d]; [done|].
  assert (Hloop : forall f buf, copy_user f user 0 buf s = NoFuel).
  { induction f as [|f IH]; intros buf; [done|]. cbn [copy_user].
    rewrite (proj2 (Z.eqb_neq _ _) H0), (proj2 (Z.eqb_neq _ _) Hs). apply IH. }
  unfold expand_word. cbn [expand_word_parts parts_loop]. unfold mbind, XM_bind.
  change (expand_part _ _ _ _ _ (mkPart W_LIT false []) [] false s) with (Done (inl ([] : Exp) : Exp + Exp, s)).
  cbn beta iota. unfold expand_part. cbn [p_kind p_text p_quoted]. rewrite cstr_id by done.
  unfold add_tilde, mbind, XM_bind. rewrite (proj2 (Z.eqb_neq _ _) H0). by rewrite Hloop.
Qed.
End World.

(** ** The theorems at work *)

(** Commands write their own text, there are no files, and two names in every directory. *)
Definition echo (_ : Sh) (t : list Z) : list Z := t ++ [ch_nl].
Definition no_file (_ : list Z) : option (list Z) := None.
Definition two_names (_ : list Z) : option (list (list Z)) := Some [cs "b.c"; cs "a.c"].

Definition shell_with (x v : list Z) : Sh :=
  mkSh (fst (var_set true (mkVars [] false) x v))
    (mkInfo 0 1 (Some [Some (cs "vash"); Some (cs "arg")]) None false 7) false FLOW_NONE 0 [] [].

Definition sh0 : Sh := shell_with (cs "x") (cs "one  two").

Lemma vash_quoted_one_field_witness :
  let w := [mkPart W_LIT false []; mkPart W_VAR true (cs "x"); mkPart W_CMDSUB true (cs "*")] in
  expand_word echo no_file None two_names 5 w sh0 =
  match expand_word_one echo no_file None 5 w sh0 with
  | Done (t, s') => Done ([t], s')
  | Trap => Trap
  | NoFuel => NoFuel
  end.
Proof. intros w. apply vash_quoted_one_field; reflexivity. Defined.

Lemma vash_unquoted_words_witness :
  expand_word echo no_file None two_names 5 (var_word (cs "x") false) sh0 =
    Done (words (ifs_of sh0) (var_get (x_vars sh0) (cs "x")), sh0).
Proof.
  apply (vash_unquoted_words echo no_file None two_names 4 (cs "x") sh0).
  - split; [by repeat constructor|done].
  - split; [vm_compute; by repeat constructor|by vm_compute].
  - by left.
  - vm_compute. by repeat constructor.
Defined.

Lemma vash_default_value_witness :
  expand_word_one echo no_file None 4 (brace_word (cs "y" ++ 58 :: 61 :: spelt [cs "a"; cs "b*"]) true) sh0 =
  Done (joined ch_sp [cs "a"; cs "b*"], assigned (cs "y") (joined ch_sp [cs "a"; cs "b*"]) sh0).
Proof.
  apply (vash_default_value echo no_file None 2 (cs "y") 61 [cs "a"; cs "b*"] sh0).
  - by split_and!.
  - reflexivity.
  - repeat constructor; vm_compute; by repeat constructor.
  - split; [vm_compute; by repeat constructor|by vm_compute].
  - split; [vm_compute; by repeat constructor|by vm_compute].
Defined.

Lemma vash_strip_witness : exists r,
  expand_word_one echo no_file None 4 (brace_word (cs "x" ++ ch_hash :: [ch_hash] ++ spelt [cs "* "]) true) sh0 = Done (r, sh0) /\
  stripped_ok true true (var_get (x_vars sh0) (cs "x")) (cs "* ") r.
Proof.
  apply (vash_strip echo no_file None 2 (cs "x") true true (cs "* ") sh0).
  - by split_and!.
  - repeat constructor; vm_compute; by repeat constructor.
  - done.
  - split; [vm_compute; by repeat constructor|by vm_compute].
  - vm_compute. lia.
Defined.

(** ** What a script's words become *)

(** The fields of the first word of a text, and what is said about them. *)
Definition fields_of (t : list Z) (s : Sh) : outcome (list (list Z) * list Z) :=
  match lex_next 100 (lexer_on t) with
  | Some lx =>
      match lx_tok lx with
      | T_WORD (Some w) =>
          match expand_word echo no_file None two_names 20 w s with
          | Done (fs, s') => Done (fs, x_err s')
          | Trap => Trap
          | NoFuel => NoFuel
          end
      | _ => Trap
      end
  | None => NoFuel
  end.

Example fields_examples :
  fields_of (cs "a$x") sh0 = Done ([cs "aone"; cs "two"], []) /\
  fields_of (cs "${#x}") sh0 = Done ([cs "8"], []) /\
  fields_of (cs "${y:-$x}") sh0 = Done ([cs "one"; cs "two"], []) /\
  fields_of (cs "${x//o/0}") sh0 = Done ([cs "0ne"; cs "tw0"], []) /\
  fields_of (cs "$(ls)$1") sh0 = Done ([cs "lsarg"], []) /\
  fields_of (cs "$((2+3))") sh0 = Done ([cs "5"], []).
Proof. by vm_compute. Qed.

(** [${x:?message}] gives nothing when the variable is set. *)
Example set_value_lost : fields_of (cs "${x:?unset}") sh0 = Done ([], []).
Proof. by vm_compute. Qed.

(** [${y-word}] is read as an operator only when the word is empty. *)
Example default_ignored : fields_of (cs "${y-word}") sh0 = Done ([], []).
Proof. by vm_compute. Qed.

(** A pattern that matches reads the names from strings that were freed. *)
Example glob_reads_freed : fields_of (cs "*.c") sh0 = Trap /\ fields_of (cs "*.h") sh0 = Done ([cs "*.h"], []).
Proof. by vm_compute. Qed.

(** [${...}] inside an arithmetic expansion is read past the end of its copy. *)
Example arith_reads_past : fields_of (cs "$((${x}+1))") sh0 = Trap.
Proof. by vm_compute. Qed.

(** Whether a field is a pattern depends on the tags of the first bytes of the word, here the
    quoted ones, and not on its own. *)
Example pattern_missed : fields_of (cs "'ab'$x") (shell_with (cs "x") (cs "c *.c")) = Done ([cs "abc"; cs "*.c"], []).
Proof. by vm_compute. Qed.

(** The value of a special parameter is overwritten while the pattern is expanded: [${@#$?}]
    of the argument [arg] is empty. *)
Example value_overwritten : fields_of (cs "${@#$?}") sh0 = Done ([], []) /\ fields_of (cs "${@#0}") sh0 = Done ([cs "arg"], []).
Proof. by vm_compute. Qed.
