(* ===== verification/Regex.v ===== *)
(** The regular expressions of [[[ text =~ pattern ]]]
    ([vnu/userspace/libregex/regex.h]): the pattern parser and the matcher.

    A [Node*] is an optional node; the pool is the number of nodes handed out
    and its capacity; a place in the text is its index. *)
From stdpp Require Import relations.
From S2P Require Import Prelude CString.
Local Open Scope vnu_scope.

Inductive nkind := N_CHAR | N_ANY | N_CLASS | N_BOL | N_EOL | N_CAT | N_ALT | N_STAR | N_PLUS | N_OPT.

Inductive Node :=
  mkNode (kind : nkind) (ch_ : Z) (set : list Z) (lft rgt nxt : option Node).

Record Rx := mkRx { r_p : list Z; r_npool : Z; r_cap : Z; r_bad : bool }.

Definition goto (p : list Z) (r : Rx) : Rx := mkRx p (r_npool r) (r_cap r) (r_bad r).
Definition set_bad (r : Rx) : Rx := mkRx (r_p r) (r_npool r) (r_cap r) true.

(** [rx_node]: whether there was room (the node itself is zeroed). *)
Definition rx_node (r : Rx) : bool * Rx :=
  if r_cap r <=? r_npool r then (false, r)
  else (true, mkRx (r_p r) (r_npool r + 1) (r_cap r) (r_bad r)).

(** ** Sets of characters: 256 bits in 32 bytes *)

Definition empty_set : list Z := replicate 32 0.

Definition set_add (set : list Z) (c : Z) : list Z :=
  let i := Z.to_nat (Z.shiftr c 3) in
  <[i := Z.lor (at_ set i) (u8 (Z.shiftl 1 (Z.land c 7)))]> set.

Definition set_has (set : list Z) (c : Z) : bool :=
  negb (Z.land (Z.shiftr (at_ set (Z.to_nat (Z.shiftr c 3))) (Z.land c 7)) 1 =? 0).

(** [for (c = lo; c <= hi; ++c) set_add(set, c)], [n] characters from [c]. *)
Fixpoint add_range (set : list Z) (c : Z) (n : nat) : list Z :=
  match n with
  | O => set
  | S n' => add_range (set_add set (u8 c)) (c + 1) n'
  end.

Definition set_not (set : list Z) : list Z := map (fun b => u8 (Z.lnot b)) set.

(** One member's character: an escaped one or the next one. *)
Definition class_char (p : list Z) : Z * list Z :=
  if (ch p =? 92) && negb (at_ p 1 =? 0) then (at_ p 1, drop 2 p) else (ch p, tail p).

Fixpoint class_loop (fuel : nat) (p : list Z) (first : bool) (set : list Z) : outcome (list Z * list Z) :=
  if negb (ch p =? 0) && (negb (ch p =? 93) || first) then
    match fuel with
    | O => NoFuel
    | S f =>
        let '(lo, p) := class_char p in
        let '(hi, p) :=
          if (ch p =? 45) && negb (at_ p 1 =? 0) && negb (at_ p 1 =? 93) then class_char (tail p) else (lo, p) in
        class_loop f p false (add_range set lo (Z.to_nat (hi - lo + 1)))
    end
  else Done (set, p).

(** The node, the state and [*ok]. *)
Definition rx_class (r : Rx) : outcome (option Node * Rx * bool) :=
  let '(room, r) := rx_node r in
  if negb room then Done (None, r, true)
  else
    let neg := ch (r_p r) =? 94 in
    let p := if neg then tail (r_p r) else r_p r in
    let* (set, p) := class_loop (length p) p true empty_set in
    if ch p =? 93 then
      let set := if neg then set_not set else set in
      Done (Some (mkNode N_CLASS 0 set None None None), goto (tail p) r, true)
    else Done (None, goto p r, false).

(** ** The pattern *)

Definition Parser : Type := Rx -> outcome (option Node * Rx).

(** A leaf after [n] characters of the pattern. *)
Definition leaf (kind : nkind) (c : Z) (n : nat) (r : Rx) : option Node * Rx :=
  let '(room, r) := rx_node (goto (drop n (r_p r)) r) in
  (if room then Some (mkNode kind c empty_set None None None) else None, r).

Definition rx_atom (alt : Parser) : Parser := fun r =>
  let c := ch (r_p r) in
  if c =? chr "(" then
    let* (inner, r) := alt (goto (tail (r_p r)) r) in
    match inner with
    | None => Done (None, r)
    | Some n =>
        if negb (ch (r_p r) =? chr ")") then Done (None, set_bad r)
        else Done (Some n, goto (tail (r_p r)) r)
    end
  else if c =? chr "[" then
    let* (n, r, ok) := rx_class (goto (tail (r_p r)) r) in
    Done (n, if ok then r else set_bad r)
  else if c =? chr "." then Done (leaf N_ANY 0 1 r)
  else if c =? chr "^" then Done (leaf N_BOL 0 1 r)
  else if c =? chr "$" then Done (leaf N_EOL 0 1 r)
  else if (c =? 92) && negb (at_ (r_p r) 1 =? 0) then Done (leaf N_CHAR (at_ (r_p r) 1) 2 r)
  else if (c =? chr ")") || (c =? chr "|") || (c =? 0) then Done (None, r)
  else Done (leaf N_CHAR c 1 r).

Definition is_rep (c : Z) : bool := (c =? chr "*") || (c =? chr "+") || (c =? chr "?").

Fixpoint skip_reps (p : list Z) : list Z :=
  match p with
  | c :: p' => if is_rep c then skip_reps p' else p
  | [] => []
  end.

Definition rx_piece (alt : Parser) : Parser := fun r =>
  let* (atom, r) := rx_atom alt r in
  match atom with
  | None => Done (None, r)
  | Some a =>
      let rep := ch (r_p r) in
      if is_rep rep then
        let '(room, r) := rx_node (goto (skip_reps (tail (r_p r))) r) in
        if negb room then Done (None, r)
        else
          let kind := if rep =? chr "*" then N_STAR else if rep =? chr "+" then N_PLUS else N_OPT in
          Done (Some (mkNode kind 0 empty_set (Some a) None None), r)
      else Done (Some a, r)
  end.

(** The chain of [N_CAT] nodes from here on. *)
Fixpoint rx_cat (fuel : nat) (alt : Parser) (r : Rx) : outcome (option Node * Rx) :=
  let c := ch (r_p r) in
  if negb (c =? 0) && negb (c =? chr "|") && negb (c =? chr ")") then
    match fuel with
    | O => NoFuel
    | S f =>
        let* (piece, r) := rx_piece alt r in
        match piece with
        | None => Done (None, r)
        | Some n =>
            let '(room, r) := rx_node r in
            if negb room then Done (None, r)
            else
              let* (rest, r) := rx_cat f alt r in
              Done (Some (mkNode N_CAT 0 empty_set (Some n) rest None), r)
        end
    end
  else Done (None, r).

(** The [N_ALT] nodes of the branches after the first. *)
Fixpoint alt_branches (fuel : nat) (alt : Parser) (r : Rx) : outcome (option Node * Rx) :=
  if ch (r_p r) =? chr "|" then
    match fuel with
    | O => NoFuel
    | S f =>
        let r := goto (tail (r_p r)) r in
        let* (branch, r) := rx_cat (length (r_p r)) alt r in
        let '(room, r) := rx_node r in
        if negb room then Done (None, r)
        else
          let* (rest, r) := alt_branches f alt r in
          Done (Some (mkNode N_ALT 0 empty_set branch None rest), r)
    end
  else Done (None, r).

Definition rx_alt_with (alt : Parser) : Parser := fun r =>
  let* (first, r) := rx_cat (length (r_p r)) alt r in
  if negb (ch (r_p r) =? chr "|") then Done (first, r)
  else
    let '(room, r) := rx_node r in
    if negb room then Done (None, r)
    else
      let* (rest, r) := alt_branches (length (r_p r)) alt r in
      Done (Some (mkNode N_ALT 0 empty_set first None rest), r).

(** [rx_alt]; the fuel bounds the nesting of parentheses. *)
Fixpoint rx_alt (fuel : nat) : Parser :=
  match fuel with
  | O => fun _ => NoFuel
  | S f => rx_alt_with (rx_alt f)
  end.

(** ** Matching

    [text] is the whole text; a place is an index into it, 0 is [start] and
    [length text] is [end]. *)
Section Match.
Variable text : list Z.

Definition via (m : option Node) (f : Node -> nat -> option nat) (s : nat) : option nat :=
  match m with None => Some s | Some n => f n s end.

(** The points of a repetition, the last one first: at most [room] more. *)
Fixpoint rep_points (room : nat) (step : nat -> option nat) (point : nat) (earlier : list nat) : list nat :=
  match room with
  | O => point :: earlier
  | S k =>
      match step point with
      | Some next =>
          if (next =? point)%nat then point :: earlier else rep_points k step next (point :: earlier)
      | None => point :: earlier
      end
  end.

Fixpoint first_rest (rest : nat -> option nat) (points : list nat) : option nat :=
  match points with
  | [] => None
  | p :: ps => match rest p with Some e => Some e | None => first_rest rest ps end
  end.

Fixpoint rx_match (n : Node) (s : nat) {struct n} : option nat :=
  match n with
  | mkNode kind c set lft rgt nxt =>
      let step := via lft rx_match in
      let rest := via rgt rx_match in
      match kind with
      | N_CHAR => if (s <? length text)%nat && (at_ text s =? c) then Some (S s) else None
      | N_ANY => if (s <? length text)%nat then Some (S s) else None
      | N_CLASS => if (s <? length text)%nat && set_has set (at_ text s) then Some (S s) else None
      | N_BOL => if (s =? 0)%nat then Some s else None
      | N_EOL => if (s =? length text)%nat then Some s else None
      | N_CAT => match step s with Some here => rest here | None => None end
      | N_ALT =>
          match (match step s with Some here => rest here | None => None end) with
          | Some e => Some e
          | None => match nxt with Some b => rx_match b s | None => None end
          end
      | N_OPT =>
          match (match step s with Some w => rest w | None => None end) with
          | Some e => Some e
          | None => rest s
          end
      | N_STAR => first_rest rest (rep_points 63 step s [])
      | N_PLUS =>
          match step s with
          | Some here => first_rest rest (rep_points 63 step here [])
          | None => None
          end
      end
  end.

(** [for (start = text; start <= end; ++start)], [k] places from [s]. *)
Fixpoint try_from (tree : Node) (s k : nat) : bool :=
  match k with
  | O => false
  | S k' => match rx_match tree s with Some _ => true | None => try_from tree (S s) k' end
  end.
End Match.

Definition parse_start (pattern : list Z) : Rx := mkRx pattern 0 (s32 (s32 (strlen pattern) * 4 + 8)) false.

(** [mem] is whether the pool could be allocated. *)
Definition re_match (mem : bool) (pattern text : option (list Z)) : outcome bool :=
  match pattern, text with
  | Some pattern, Some text =>
      if negb mem then Done false
      else
        let* (tree, r) := rx_alt (S (length pattern)) (parse_start pattern) in
        match tree with
        | Some tree =>
            if negb (r_bad r) && (ch (r_p r) =? 0) then Done (try_from text tree 0 (S (length text)))
            else Done false
        | None => Done false
        end
  | _, _ => Done false
  end.

Definition rm (p t : string) : outcome bool := re_match true (Some (cs p)) (Some (cs t)).
Example re_1 : rm "^h(el|al)+o$" "helalelo" = Done true. Proof. vm_compute. reflexivity. Qed.
Example re_2 : rm "[a-c]+[^0-9]" "xxabc1" = Done false. Proof. vm_compute. reflexivity. Qed.
Example re_3 : rm "a*a" "aa" = Done false. Proof. vm_compute. reflexivity. Qed.
Example re_4 : rm "" "abc" = Done false. Proof. vm_compute. reflexivity. Qed.
Example re_5 : rm "a|" "zzz" = Done true. Proof. vm_compute. reflexivity. Qed.

(** * The parser: termination and the node pool *)

Definition delivered (o : option Node) : Z := match o with Some _ => 1 | None => 0 end.

(** The call returns, does not go back in the pattern, and takes at most two
    nodes for every character it reads ([k] less when it delivers a node). *)
Definition reads (k : Z) (res : outcome (option Node * Rx)) (r : Rx) : Prop :=
  exists o r', res = Done (o, r') /\ r_cap r' = r_cap r /\ r_npool r <= r_npool r' /\
    (length (r_p r') <= length (r_p r))%nat /\
    r_npool r' + 2 * Z.of_nat (length (r_p r')) + k * delivered o
      <= r_npool r + 2 * Z.of_nat (length (r_p r)).

Definition roomy (r : Rx) : Prop := r_npool r + 2 * Z.of_nat (length (r_p r)) < r_cap r.

Definition parser_ok (n : nat) (P : Parser) : Prop :=
  forall r, (length (r_p r) < n)%nat -> roomy r -> reads 0 (P r) r.

Lemma rx_node_roomy r :
  r_npool r < r_cap r -> rx_node r = (true, mkRx (r_p r) (r_npool r + 1) (r_cap r) (r_bad r)).
Proof. intros H. unfold rx_node. destruct (Z.leb_spec (r_cap r) (r_npool r)); [lia|done]. Qed.

Lemma ch_nonempty p : ch p <> 0 -> (0 < length p)%nat.
Proof. destruct p; [done|simpl; lia]. Qed.

Lemma class_char_len p c q : class_char p = (c, q) -> ch p <> 0 -> (length q < length p)%nat.
Proof.
  unfold class_char. intros H Hp%ch_nonempty. destruct p as [|x p]; [simpl in Hp; lia|]. revert H. bcase.
  - intros [= <- <-]. rewrite length_drop. simpl. lia.
  - intros [= <- <-]. simpl. lia.
Qed.

Lemma class_loop_ok fuel p first set :
  (length p <= fuel)%nat -> exists set' q, class_loop fuel p first set = Done (set', q) /\ (length q <= length p)%nat.
Proof.
  revert p first set; induction fuel as [|f IH]; intros p first set Hf; cbn [class_loop].
  - destruct p; [|simpl in Hf; lia]. cbn. by exists set, [].
  - bcase; [|by exists set, p]. destruct (class_char p) as [lo q] eqn:E1.
    apply class_char_len in E1; [|done].
    match goal with |- context [let '(_, _) := ?X in _] => destruct X as [hi q'] eqn:E2 end.
    assert (length q' <= length q)%nat.
    { revert E2. bcase; [|intros [= <- <-]; lia]. intros E2. apply class_char_len in E2.
      - destruct q; simpl in *; lia.
      - destruct q as [|x q]; [done|]. exact H3. }
    destruct (IH q' false (add_range set lo (Z.to_nat (hi - lo + 1))) ltac:(lia)) as (s' & q2 & -> & ?).
    exists s', q2. split; [done|lia].
Qed.

Lemma leaf_ok kind c k r :
  (0 < k)%nat -> (k <= length (r_p r))%nat -> roomy r -> reads 1 (Done (leaf kind c k r)) r.
Proof.
  intros Hk Hl Hr. unfold roomy in Hr. unfold leaf. rewrite rx_node_roomy by (cbn; lia).
  eexists _, _. split; [reflexivity|]. cbn. rewrite length_drop. repeat split; lia.
Qed.

Lemma class_ok r :
  roomy r -> exists o r' ok, rx_class r = Done (o, r', ok) /\ r_cap r' = r_cap r /\ r_npool r <= r_npool r' <= r_npool r + 1 /\
    (length (r_p r') <= length (r_p r))%nat.
Proof.
  intros Hr. unfold roomy in Hr. unfold rx_class. rewrite rx_node_roomy by lia. cbn [negb r_p].
  set (p := if ch (r_p r) =? 94 then tail (r_p r) else r_p r).
  assert (length p <= length (r_p r))%nat as Hp.
  { unfold p. bcase; [|lia]. destruct (r_p r); simpl; lia. }
  destruct (class_loop_ok (length p) p true empty_set ltac:(lia)) as (set & q & -> & Hq). cbn [obind].
  bcase; (eexists _, _, _; split; [reflexivity|]; cbn).
  - destruct q; simpl in *; repeat split; lia.
  - repeat split; lia.
Qed.

Lemma atom_ok n alt r :
  parser_ok n alt -> (length (r_p r) <= n)%nat -> roomy r -> reads 1 (rx_atom alt r) r.
Proof.
  intros Ha Hn Hr. unfold rx_atom. pose proof (ch_nonempty (r_p r)) as Hne.
  destruct (r_p r) as [|c p] eqn:Ep.
  { cbn. exists None, r. rewrite Ep. repeat split; cbn; lia. }
  change (ch (c :: p)) with c in *. cbn [tail]. unfold roomy in Hr. rewrite Ep in Hr. cbn [length] in *.
  bcase.
  { destruct (Ha (goto p r)) as (o & r' & E1 & Hc & Hm & Hl & Hb); [cbn; lia|unfold roomy; cbn; lia|].
    rewrite E1. cbn [obind]. cbn in Hm, Hl, Hb, Hc. unfold reads. rewrite Ep. cbn [length].
    destruct o as [nd|]; [bcase|]; (eexists _, _; split; [reflexivity|]; cbn).
    - repeat split; lia.
    - destruct (r_p r') as [|d q] eqn:Eq; [done|]. cbn in *. repeat split; lia.
    - repeat split; lia. }
  bcase.
  { destruct (class_ok (goto p r)) as (o & r' & ok & E1 & Hc & Hm & Hl); [unfold roomy; cbn; lia|].
    rewrite E1. cbn [obind]. cbn in Hc, Hm, Hl. unfold reads. rewrite Ep. cbn [length].
    eexists _, _. split; [reflexivity|]. destruct ok, o; cbn; repeat split; lia. }
  bcase; [apply leaf_ok; [lia|rewrite Ep; simpl; lia|unfold roomy; rewrite Ep; simpl; lia]|].
  bcase; [apply leaf_ok; [lia|rewrite Ep; simpl; lia|unfold roomy; rewrite Ep; simpl; lia]|].
  bcase; [apply leaf_ok; [lia|rewrite Ep; simpl; lia|unfold roomy; rewrite Ep; simpl; lia]|].
  bcase.
  { destruct p as [|d p]; [done|]. apply leaf_ok; [lia|rewrite Ep; simpl; lia|unfold roomy; rewrite Ep; simpl in *; lia]. }
  bcase; [unfold reads; rewrite Ep; exists None, r; rewrite Ep; repeat split; cbn; lia|].
  apply leaf_ok; [lia|rewrite Ep; simpl; lia|unfold roomy; rewrite Ep; simpl; lia].
Qed.

Lemma skip_reps_len p : (length (skip_reps p) <= length p)%nat.
Proof. induction p as [|c p IH]; cbn; [lia|]. bcase; cbn; lia. Qed.

Lemma piece_ok n alt r :
  parser_ok n alt -> (length (r_p r) <= n)%nat -> roomy r -> reads 1 (rx_piece alt r) r.
Proof.
  intros Ha Hn Hr. unfold rx_piece.
  destruct (atom_ok n alt r Ha Hn Hr) as (o & r' & -> & Hc & Hm & Hl & Hb). cbn [obind]. unfold roomy in Hr.
    unfold delivered in Hb.
  destruct o as [a|]; [|by exists None, r'].
  destruct (is_rep (ch (r_p r'))) eqn:Erep; [|by exists (Some a), r'].
  destruct (r_p r') as [|c q] eqn:Eq; [done|]. cbn [tail length] in *. pose proof (skip_reps_len q).
  rewrite rx_node_roomy by (cbn; lia). cbn [negb].
  eexists _, _. split; [reflexivity|]. cbn. repeat split; lia.
Qed.

Lemma cat_ok n alt fuel r :
  parser_ok n alt -> (length (r_p r) <= n)%nat -> (length (r_p r) <= fuel)%nat -> roomy r ->
  reads 0 (rx_cat fuel alt r) r.
Proof.
  intros Ha. revert r; induction fuel as [|f IH]; intros r Hn Hf Hr; cbn [rx_cat].
  - destruct (r_p r) eqn:Ep; [|simpl in Hf; lia]. cbn. exists None, r. rewrite Ep. repeat split; cbn; lia.
  - bcase; [|exists None, r; repeat split; lia].
    destruct (piece_ok n alt r Ha Hn Hr) as (o & r' & -> & Hc & Hm & Hl & Hb). cbn [obind]. unfold roomy in Hr.
    unfold delivered in Hb.
    destruct o as [nd|]; [|by exists None, r'].
    rewrite rx_node_roomy by (cbn; lia). cbn [negb].
    assert (length (r_p r') < length (r_p r))%nat as Hlt.
    { apply ch_nonempty in H. destruct (Nat.eq_dec (length (r_p r')) (length (r_p r))); lia. }
    destruct (IH (mkRx (r_p r') (r_npool r' + 1) (r_cap r') (r_bad r'))) as (o2 & r2 & -> & Hc2 & Hm2 & Hl2 & Hb2);
      [cbn; lia|cbn; lia|unfold roomy; cbn; lia|].
    cbn [obind]. cbn in Hc2, Hm2, Hl2, Hb2. eexists _, _. split; [reflexivity|]. destruct o2; repeat split; lia.
Qed.

Lemma branches_ok n alt fuel r :
  parser_ok n alt -> (length (r_p r) <= n)%nat -> (length (r_p r) <= fuel)%nat ->
  r_npool r + 2 * Z.of_nat (length (r_p r)) <= r_cap r ->
  (ch (r_p r) = chr "|" -> reads 0 (alt_branches fuel alt r) r /\
     exists o r', alt_branches fuel alt r = Done (o, r') /\
       r_npool r' + 2 * Z.of_nat (length (r_p r')) + 1 <= r_npool r + 2 * Z.of_nat (length (r_p r))) /\
  (ch (r_p r) <> chr "|" -> alt_branches fuel alt r = Done (None, r)).
Proof.
  intros Ha. revert r; induction fuel as [|f IH]; intros r Hn Hf Hr; cbn [alt_branches].
  - destruct (r_p r) eqn:Ep; [|simpl in Hf; lia]. split; done.
  - split; [intros Ec|intros Ec; by rewrite (proj2 (Z.eqb_neq _ _) Ec)].
    rewrite Ec, Z.eqb_refl. destruct (r_p r) as [|c p] eqn:Ep; [done|]. cbn [tail length] in *.
    destruct (cat_ok n alt (length p) (goto p r) Ha) as (o & r' & E1 & Hc & Hm & Hl & Hb);
      [cbn; lia|cbn; lia|unfold roomy; cbn; lia|]. cbn [r_p goto]. rewrite E1. cbn [obind].
    cbn in Hc, Hm, Hl, Hb. rewrite rx_node_roomy by lia. cbn [negb].
    set (r1 := mkRx (r_p r') (r_npool r' + 1) (r_cap r') (r_bad r')).
    destruct (IH r1) as [IH1 IH2]; [cbn; lia|cbn; lia|cbn; destruct o; lia|].
    unfold reads. rewrite Ep. cbn [length].
    destruct (Z.eq_dec (ch (r_p r1)) (chr "|")) as [E|E].
    + destruct (IH1 E) as [(o2 & r2 & -> & Hc2 & Hm2 & Hl2 & Hb2) _]. cbn [obind]. cbn in Hc2, Hm2, Hl2, Hb2.
      split; (eexists _, _; split; [reflexivity|]); destruct o, o2; repeat split; lia.
    + rewrite (IH2 E). cbn [obind]. split; (eexists _, _; split; [reflexivity|]); cbn; destruct o; repeat split; lia.
Qed.

Lemma rx_alt_ok fuel : parser_ok fuel (rx_alt fuel).
Proof.
  induction fuel as [|f IH]; intros r Hl Hr; [lia|]. cbn [rx_alt]. unfold rx_alt_with.
  destruct (cat_ok f (rx_alt f) (length (r_p r)) r IH ltac:(lia) ltac:(lia) Hr) as (o & r' & -> & Hc & Hm & Hl' & Hb).
  cbn [obind]. unfold roomy in Hr. bcase; [by exists o, r'|].
  destruct (r_p r') as [|c q] eqn:Eq; [done|]. cbn [length] in *.
  rewrite rx_node_roomy by lia. cbn [negb].
  set (r1 := mkRx (r_p r') (r_npool r' + 1) (r_cap r') (r_bad r')).
  destruct (branches_ok f (rx_alt f) (length (r_p r1)) r1 IH) as [H1 _];
    [cbn; rewrite Eq; simpl; lia|lia|cbn; rewrite Eq; simpl; destruct o; lia|].
  destruct H1 as [(o2 & r2 & E2 & Hc2 & Hm2 & Hl2 & _) (o3 & r3 & E3 & Hb3)]; [cbn; by rewrite Eq|].
  rewrite E2 in E3. injection E3 as <- <-.
  rewrite E2. cbn [obind]. cbn in Hc2, Hm2, Hl2, Hb3. rewrite Eq in Hl2, Hb3. cbn [length] in *.
  eexists _, _. split; [reflexivity|]. destruct o; repeat split; lia.
Qed.

(** parsing a pattern always ends, and takes at most two of the pool's
    [4 * len + 8] nodes per character, so the pool never runs out. *)
Theorem rx_alt_terminates pattern :
  cstring pattern -> Z.of_nat (length pattern) < 2 ^ 28 ->
  exists tree r, rx_alt (S (length pattern)) (parse_start pattern) = Done (tree, r) /\
    r_npool r <= 2 * Z.of_nat (length pattern) < r_cap r.
Proof.
  intros Hp Hl. unfold parse_start. rewrite strlen_length by done.
  rewrite (s32_id (Z.of_nat _)) by (unfold is_s32; lia). rewrite s32_id by (unfold is_s32; lia).
  destruct (rx_alt_ok (S (length pattern)) (mkRx pattern 0 (Z.of_nat (length pattern) * 4 + 8) false))
    as (o & r & E & Hc & Hm & Hle & Hb); [cbn; lia|unfold roomy; cbn; lia|].
  exists o, r. split; [done|]. cbn in Hc, Hb. lia.
Qed.

Lemma rx_alt_terminates_witness :
  exists tree r, rx_alt 6 (parse_start (cs "(a|b)")) = Done (tree, r) /\ r_npool r <= 2 * 5 < r_cap r.
Proof.
  apply (rx_alt_terminates (cs "(a|b)")); [repeat constructor; cbn; lia|cbn; lia].
Defined.

(** * The language of a pattern *)

Section Node_induction.
Variable P : Node -> Prop.
Definition on_opt (o : option Node) : Prop := match o with Some n => P n | None => True end.
Variable H : forall k c set l r nx, on_opt l -> on_opt r -> on_opt nx -> P (mkNode k c set l r nx).

Fixpoint Node_induct (n : Node) : P n :=
  match n with
  | mkNode k c set l r nx =>
      let go o : on_opt o := match o with Some m => Node_induct m | None => I end in
      H k c set l r nx (go l) (go r) (go nx)
  end.
End Node_induction.

Section Language.
Variable text : list Z.

Definition viaP (m : option Node) (R : Node -> nat -> nat -> Prop) (s e : nat) : Prop :=
  match m with None => s = e | Some n => R n s e end.

(** [den n s e]: the text from [s] to [e] is a match of [n]. *)
Fixpoint den (n : Node) (s e : nat) : Prop :=
  match n with
  | mkNode kind c set l r nx =>
      let L := viaP l den in
      let R := viaP r den in
      match kind with
      | N_CHAR => (s < length text)%nat /\ at_ text s = c /\ e = S s
      | N_ANY => (s < length text)%nat /\ e = S s
      | N_CLASS => (s < length text)%nat /\ set_has set (at_ text s) = true /\ e = S s
      | N_BOL => s = 0%nat /\ e = s
      | N_EOL => s = length text /\ e = s
      | N_CAT => exists m, L s m /\ R m e
      | N_ALT => (exists m, L s m /\ R m e) \/ match nx with Some b => den b s e | None => False end
      | N_OPT => (exists m, L s m /\ R m e) \/ R s e
      | N_STAR => exists m, rtc L s m /\ R m e
      | N_PLUS => exists k m, L s k /\ rtc L k m /\ R m e
      end
  end.

Definition agrees (f : nat -> option nat) (R : nat -> nat -> Prop) : Prop :=
  forall s e, f s = Some e -> R s e.

Lemma via_agrees m : on_opt (fun n => agrees (rx_match text n) (den n)) m ->
  agrees (via m (rx_match text)) (viaP m den).
Proof. destruct m as [n|]; intros H s e; cbn; [apply H|congruence]. Qed.

Lemma first_rest_some rest points e :
  first_rest rest points = Some e -> exists p, In p points /\ rest p = Some e.
Proof.
  induction points as [|p ps IH]; cbn; [done|]. destruct (rest p) eqn:E.
  - intros [= ->]. exists p. auto.
  - intros H. destruct (IH H) as (q & ? & ?). exists q. auto.
Qed.

Lemma rep_points_reach step R s k p earlier :
  agrees step R -> rtc R s p -> Forall (rtc R s) earlier ->
  Forall (rtc R s) (rep_points k step p earlier).
Proof.
  intros Ha. revert p earlier; induction k as [|k IH]; intros p earlier Hp He; cbn [rep_points]; [by constructor|].
  destruct (step p) as [q|] eqn:E; [|by constructor].
  destruct (q =? p)%nat; [by constructor|]. apply IH; [|by constructor].
  eapply rtc_r; [exact Hp|]. by apply Ha.
Qed.

(** The matcher only finds matches. *)
Lemma rx_match_sound n : agrees (rx_match text n) (den n).
Proof.
  induction n as [k c set l r nx Hl Hr Hx] using Node_induct. intros s e.
  pose proof (via_agrees l Hl) as HL. pose proof (via_agrees r Hr) as HR.
  assert (forall e, match via l (rx_match text) s with Some h => via r (rx_match text) h | None => None end = Some e ->
    exists m, viaP l den s m /\ viaP r den m e) as Hlr.
  { intros e'. destruct (via l (rx_match text) s) as [h|] eqn:E; [|done]. intros H2.
    exists h. split; [by apply HL|by apply HR]. }
  assert (forall p e, first_rest (via r (rx_match text)) (rep_points 63 (via l (rx_match text)) p []) = Some e ->
    exists m, rtc (viaP l den) p m /\ viaP r den m e) as Hrep.
  { intros p e' (m & Hin & Hm)%first_rest_some. exists m. split; [|by apply HR].
    pose proof (rep_points_reach _ _ p 63 p [] HL (rtc_refl _ _) (Forall_nil_2 _)) as HF.
    eapply Forall_forall in HF; [exact HF|]. by apply list_elem_of_In. }
  destruct k; cbn [rx_match den].
  - bcase; [|done]. by intros [= <-].
  - bcase; [|done]. by intros [= <-].
  - bcase; [|done]. by intros [= <-].
  - bcase; [|done]. by intros [= <-].
  - bcase; [|done]. by intros [= <-].
  - apply Hlr.
  - specialize (Hlr e). destruct (match via l _ s with Some _ => _ | None => None end) as [e'|].
    + intros [= ->]. left. by apply Hlr.
    + destruct nx as [b|]; [|done]. intros H. right. by apply Hx.
  - apply Hrep.
  - destruct (via l (rx_match text) s) as [h|] eqn:E; [|done]. intros (m & ? & ?)%Hrep.
    exists h, m. split; [by apply HL|done].
  - specialize (Hlr e). destruct (match via l _ s with Some _ => _ | None => None end) as [e'|].
    + intros [= ->]. left. by apply Hlr.
    + intros H. right. by apply HR.
Qed.

Definition optb (f : Node -> bool) (m : option Node) : bool := match m with None => true | Some n => f n end.
Definition is_null (m : option Node) : bool := match m with None => true | Some _ => false end.

(** Nodes with at most one match from any place. *)
Fixpoint single (n : Node) : bool :=
  match n with
  | mkNode kind _ _ l r _ =>
      match kind with
      | N_CHAR | N_ANY | N_CLASS | N_BOL | N_EOL => true
      | N_CAT => optb single l && optb single r
      | _ => false
      end
  end.

(** Patterns in which only the last part of a concatenation can match in more
    than one way. *)
Fixpoint tame (n : Node) : bool :=
  match n with
  | mkNode kind _ _ l r nx =>
      match kind with
      | N_CHAR | N_ANY | N_CLASS | N_BOL | N_EOL => true
      | N_CAT => optb single l && optb tame r || is_null r && optb tame l
      | N_ALT => optb tame l && is_null r && optb tame nx
      | N_OPT | N_STAR => is_null r
      | N_PLUS => optb tame l && is_null r
      end
  end.

Lemma single_complete n : single n = true -> forall s e, den n s e -> rx_match text n s = Some e.
Proof.
  induction n as [k c set l r nx Hl Hr Hx] using Node_induct. intros Hs s e.
  assert (forall m, on_opt (fun n => single n = true -> forall s e, den n s e -> rx_match text n s = Some e) m ->
    optb single m = true -> forall s e, viaP m den s e -> via m (rx_match text) s = Some e) as Hv.
  { intros [m|] Hm Hb s' e'; cbn; [by apply Hm|congruence]. }
  destruct k; cbn [single] in Hs; try done; cbn [rx_match den].
  - intros (H1 & -> & ->). rewrite (proj2 (Nat.ltb_lt _ _) H1), Z.eqb_refl. done.
  - intros (H1 & ->). rewrite (proj2 (Nat.ltb_lt _ _) H1). done.
  - intros (H1 & H2 & ->). rewrite (proj2 (Nat.ltb_lt _ _) H1), H2. done.
  - intros (-> & ->). done.
  - intros (-> & ->). rewrite Nat.eqb_refl. done.
  - apply andb_true_iff in Hs as [H1 H2]. intros (m & Hm1 & Hm2). rewrite (Hv l Hl H1 s m Hm1). by apply (Hv r Hr H2).
Qed.

Lemma first_rest_null points p : In p points -> first_rest (via None (rx_match text)) points <> None.
Proof. destruct points; done. Qed.

Lemma rep_points_nonempty k step p earlier : rep_points k step p earlier <> [].
Proof.
  revert p earlier; induction k as [|k IH]; intros p earlier; cbn; [done|].
  destruct (step p) as [q|]; [|done]. by destruct (q =? p)%nat.
Qed.

Lemma rep_null k step p : first_rest (via None (rx_match text)) (rep_points k step p []) <> None.
Proof.
  pose proof (rep_points_nonempty k step p []). by destruct (rep_points k step p []).
Qed.

Lemma tame_complete n : tame n = true -> forall s e, den n s e -> rx_match text n s <> None.
Proof.
  induction n as [k c set l r nx Hl Hr Hx] using Node_induct. intros Hs s e Hd.
  assert (forall m, on_opt (fun n => tame n = true -> forall s e, den n s e -> rx_match text n s <> None) m ->
    optb tame m = true -> forall s e, viaP m den s e -> via m (rx_match text) s <> None) as Hv.
  { intros [m|] Hm Hb s' e'; cbn; [by apply Hm|congruence]. }
  destruct k;
    try (match goal with |- rx_match _ ?n _ <> _ => rewrite (single_complete n eq_refl s e Hd) end; done);
    cbn [tame] in Hs; cbn [rx_match den] in *.
  - apply orb_true_iff in Hs as [[H1 H2]%andb_true_iff|[H1 H2]%andb_true_iff]; destruct Hd as (m & Hm1 & Hm2).
    2:{ destruct r as [r|]; [done|]. cbn [via]. specialize (Hv l Hl H2 s m Hm1).
        by destruct (via l (rx_match text) s). }
    assert (via l (rx_match text) s = Some m) as ->.
    { destruct l as [l|]; cbn in *; [by apply single_complete|congruence]. }
    by apply (Hv r Hr H2 m e).
  - apply andb_true_iff in Hs as [[H1 H2]%andb_true_iff H3]. destruct r as [r|]; [done|]. cbn [via].
    destruct (via l (rx_match text) s) as [h|] eqn:E; [done|].
    destruct Hd as [(m & Hm & _)|Hd]; [exfalso; by apply (Hv l Hl H1 s m Hm)|].
    destruct nx as [b|]; [|done]. by apply (Hx H3 s e).
  - destruct r as [r|]; [done|]. apply rep_null.
  - apply andb_true_iff in Hs as [H1 H2]. destruct r as [r|]; [done|]. destruct Hd as (k & m & Hk & _).
    destruct (via l (rx_match text) s) as [h|] eqn:E; [apply rep_null|]. exfalso. by apply (Hv l Hl H1 s k Hk).
  - destruct r as [r|]; [done|]. cbn [via]. by destruct (via l (rx_match text) s).
Qed.

Lemma try_from_iff tree s k :
  try_from text tree s k = true <-> exists i, (s <= i < s + k)%nat /\ rx_match text tree i <> None.
Proof.
  revert s; induction k as [|k IH]; intros s; cbn [try_from].
  - split; [done|]. intros (i & ? & _). lia.
  - destruct (rx_match text tree s) as [e|] eqn:E.
    + split; [|done]. intros _. exists s. split; [lia|congruence].
    + rewrite IH. split.
      * intros (i & ? & ?). exists i. split; [lia|done].
      * intros (i & ? & ?). exists i. split; [|done]. destruct (Nat.eq_dec i s); [congruence|lia].
Qed.
End Language.

(** The tree of an accepted pattern. *)
Definition parse (pattern : list Z) : option Node :=
  match rx_alt (S (length pattern)) (parse_start pattern) with
  | Done (Some tree, r) => if negb (r_bad r) && (ch (r_p r) =? 0) then Some tree else None
  | _ => None
  end.

Lemma re_match_eq pattern text :
  cstring pattern -> Z.of_nat (length pattern) < 2 ^ 28 ->
  re_match true (Some pattern) (Some text) =
    Done (match parse pattern with Some tree => try_from text tree 0 (S (length text)) | None => false end).
Proof.
  intros Hp Hl. unfold re_match, parse. unfold parse_start. rewrite strlen_length by done.
  rewrite (s32_id (Z.of_nat _)) by (unfold is_s32; lia). rewrite s32_id by (unfold is_s32; lia).
  destruct (rx_alt_ok (S (length pattern)) (mkRx pattern 0 (Z.of_nat (length pattern) * 4 + 8) false))
    as (o & r & -> & _); [cbn; lia|unfold roomy; cbn; lia|]. cbn [negb obind].
  destruct o as [tree|]; [|done]. by destruct (negb (r_bad r) && (ch (r_p r) =? 0)).
Qed.

(** When [re_match] answers yes, the pattern was a whole well-formed one
    and some stretch of the text is in its language. *)
Theorem re_match_sound pattern text :
  cstring pattern -> Z.of_nat (length pattern) < 2 ^ 28 ->
  re_match true (Some pattern) (Some text) = Done true ->
  exists tree s e, parse pattern = Some tree /\ (s <= length text)%nat /\ den text tree s e.
Proof.
  intros Hp Hl. rewrite re_match_eq by done. destruct (parse pattern) as [tree|]; [|done].
  intros [= H]. change (try_from text tree 0 (S (length text)) = true) in H.
  apply try_from_iff in H as (s & Hs & Hm).
  destruct (rx_match text tree s) as [e|] eqn:E; [|done]. exists tree, s, e.
  split; [done|]. split; [lia|]. by apply rx_match_sound.
Qed.


(** ** Plain patterns: substring search *)

(** Characters that stand for themselves. *)
Definition plain (c : Z) : bool :=
  negb (existsb (Z.eqb c) (0 :: cs "()[.^$|*+?" ++ [92])).

(** The tree of a plain pattern. *)
Fixpoint literal (p : list Z) : option Node :=
  match p with
  | [] => None
  | c :: p' => Some (mkNode N_CAT 0 empty_set (Some (mkNode N_CHAR c empty_set None None None)) (literal p') None)
  end.

Lemma plain_neq c k : plain c = true -> In k (0 :: cs "()[.^$|*+?" ++ [92]) -> (c =? k) = false.
Proof.
  unfold plain. intros H Hk. apply negb_true_iff in H. destruct (Z.eqb_spec c k) as [->|]; [|done].
  rewrite <- H. symmetry. apply existsb_exists. exists k. split; [done|apply Z.eqb_refl].
Qed.

Lemma rx_cat_plain p fuel alt n cap :
  Forall (fun c => plain c = true) p -> (length p <= fuel)%nat -> n + 2 * Z.of_nat (length p) < cap ->
  rx_cat fuel alt (mkRx p n cap false) =
    Done (literal p, mkRx [] (n + 2 * Z.of_nat (length p)) cap false).
Proof.
  intros Hp. revert fuel n; induction Hp as [|c p Hc Hp IH]; intros fuel n Hf Hr.
  - destruct fuel; cbn; by rewrite Z.add_0_r.
  - destruct fuel as [|f]; [simpl in Hf; lia|]. cbn [length] in *.
    assert (forall k, In k (0 :: cs "()[.^$|*+?" ++ [92]) -> (c =? k) = false) as Hk by (intros; by apply plain_neq).
    assert (rx_piece alt (mkRx (c :: p) n cap false) =
      Done (Some (mkNode N_CHAR c empty_set None None None), mkRx p (n + 1) cap false)) as Hpiece.
    { unfold rx_piece, rx_atom. cbn [r_p]. change (ch (c :: p)) with c.
      rewrite (Hk (chr "(")), (Hk (chr "[")), (Hk (chr ".")), (Hk (chr "^")), (Hk (chr "$")), (Hk 92), (Hk (chr ")")),
        (Hk (chr "|")), (Hk 0) by (cbn; tauto). cbn [andb orb]. unfold leaf, goto. cbn [r_p drop r_npool r_cap r_bad].
      rewrite rx_node_roomy by (cbn; lia). cbn [obind r_p r_npool r_cap r_bad]. rewrite drop_0.
      assert (is_rep (ch p) = false) as ->; [|reflexivity].
      destruct Hp as [|d p Hd Hp]; [done|]. change (ch (d :: p)) with d. unfold is_rep.
      rewrite !(plain_neq d) by (done || cbn; tauto). done. }
    cbn [rx_cat r_p]. change (ch (c :: p)) with c. rewrite (Hk 0), (Hk (chr "|")), (Hk (chr ")")) by (cbn; tauto).
    cbn [negb andb]. rewrite Hpiece. cbn [obind]. rewrite rx_node_roomy by (cbn; lia). cbn [negb r_p r_npool r_cap r_bad].
    rewrite IH by lia. cbn [obind literal]. do 3 f_equal. lia.
Qed.

Lemma parse_plain p :
  Forall (fun c => plain c = true) p -> cstring p -> Z.of_nat (length p) < 2 ^ 28 -> parse p = literal p.
Proof.
  intros Hp Hc Hl. unfold parse, parse_start. rewrite strlen_length by done.
  rewrite (s32_id (Z.of_nat _)) by (unfold is_s32; lia). rewrite s32_id by (unfold is_s32; lia).
  cbn [rx_alt]. unfold rx_alt_with. cbn [r_p]. rewrite rx_cat_plain by (done || lia). cbn [obind r_p]. 
  change (ch []) with 0. cbn [negb]. change (0 =? chr "|") with false. cbn [negb].
  by destruct (literal p).
Qed.

Lemma den_literal text p s e :
  viaP (literal p) (den text) s e <-> (forall i, (i < length p)%nat -> (s + i < length text)%nat /\ at_ text (s + i) = at_ p i) /\
    e = (s + length p)%nat.
Proof.
  revert s; induction p as [|c p IH]; intros s.
  - cbn. split; [intros ->; split; [lia|lia]|intros [_ ->]; lia].
  - cbn [literal viaP den length]. split.
    + intros (m & (H1 & H2 & ->) & Hr). apply IH in Hr as [Hr ->]. split; [|lia].
      intros [|i] Hi; [by rewrite Nat.add_0_r|]. rewrite at_cons_S. replace (s + S i)%nat with (S s + i)%nat by lia.
      apply Hr. lia.
    + intros [Hr ->]. exists (S s). split; [|apply IH; split; [|lia]].
      * destruct (Hr 0%nat ltac:(lia)) as [H1 H2]. rewrite Nat.add_0_r in *. done.
      * intros i Hi. specialize (Hr (S i) ltac:(lia)). rewrite at_cons_S in Hr.
        by replace (S s + i)%nat with (s + S i)%nat by lia.
Qed.

Lemma literal_tame p : optb single (literal p) = true /\ optb tame (literal p) = true.
Proof. induction p as [|c p [IH1 IH2]]; [done|]. cbn in *. rewrite IH1, IH2. done. Qed.

(** a non-empty pattern of plain characters matches exactly the texts
    that contain it. *)
Theorem re_match_plain_substring p text :
  Forall (fun c => plain c = true) p -> cstring p -> 0 < Z.of_nat (length p) < 2 ^ 28 ->
  exists b, re_match true (Some p) (Some text) = Done b /\
    (b = true <-> exists pre post, text = pre ++ p ++ post).
Proof.
  intros Hp Hc Hl. rewrite re_match_eq, parse_plain by (done || lia).
  destruct (literal p) as [tree|] eqn:El; [|destruct p; [simpl in Hl; lia|done]].
  destruct (literal_tame p) as [_ Ht]. rewrite El in Ht. cbn in Ht.
  eexists. split; [reflexivity|]. rewrite try_from_iff.
  pose proof (den_literal text p) as Hd. rewrite El in Hd. cbn [viaP] in Hd. split.
  - intros (s & Hs & H). destruct (rx_match text tree s) as [e|] eqn:E; [|done].
    apply rx_match_sound in E. apply Hd in E as [E ->].
    exists (take s text), (drop (s + length p) text).
    assert (s + length p <= length text)%nat as Hsl.
    { destruct (length p) as [|k] eqn:Ek; [lia|]. destruct (E k ltac:(lia)). lia. }
    rewrite <- (take_drop s text) at 1. f_equal. rewrite <- drop_drop.
    rewrite <- (take_drop (length p) (drop s text)) at 1. f_equal.
    apply list_eq_at; [rewrite length_take, length_drop; lia|].
    rewrite length_take, length_drop. intros i Hi. rewrite at_take, at_drop by lia. apply E. lia.
  - intros (pre & post & ->). exists (length pre). rewrite !length_app. split; [lia|].
    apply (tame_complete _ tree Ht (length pre) (length pre + length p)%nat). apply Hd. split; [|done].
    intros i Hi. rewrite !length_app. split; [lia|]. rewrite at_app_r, at_app_l by lia. f_equal. lia.
Qed.

Lemma re_match_plain_substring_witness :
  exists b, re_match true (Some (cs "ell")) (Some (cs "hello")) = Done b /\
    (b = true <-> exists pre post, cs "hello" = pre ++ cs "ell" ++ post).
Proof.
  apply re_match_plain_substring; [repeat constructor; reflexivity|repeat constructor; cbn; lia|cbn; lia].
Defined.

Lemma re_match_sound_witness :
  exists tree s e, parse (cs "b+c?") = Some tree /\ (s <= 4)%nat /\ den (cs "abbc") tree s e.
Proof.
  apply (re_match_sound (cs "b+c?") (cs "abbc")); [repeat constructor; cbn; lia|cbn; lia|vm_compute; reflexivity].
Defined.

Definition tree_of (p : string) : Node :=
  match parse (cs p) with Some t => t | None => mkNode N_CHAR 0 [] None None None end.


(** ** Where the matcher and the language part *)

(** a repetition is not given back to what follows it: [a*a] does not
    match [aa], although the whole of [aa] is in its language. *)
Theorem re_match_no_backtracking :
  parse (cs "a*a") = Some (tree_of "a*a") /\ den (cs "aa") (tree_of "a*a") 0 2 /\
  re_match true (Some (cs "a*a")) (Some (cs "aa")) = Done false.
Proof.
  split; [vm_compute; reflexivity|]. split; [|vm_compute; reflexivity].
  set (t := tree_of "a*a"). vm_compute in t. subst t. cbn [den viaP].
  exists 1%nat. split.
  - exists 1%nat. split; [|done]. apply rtc_once. cbn. split; [lia|done].
  - exists 2%nat. split; [|done]. cbn. split; [lia|done].
Qed.

Lemma rep_points_run k r p earlier :
  (p <= k)%nat ->
  exists l, rep_points r (via (Some (mkNode N_CHAR 97 empty_set None None None)) (rx_match (replicate k 97))) p earlier =
    Nat.min (p + r) k :: l.
Proof.
  revert p earlier; induction r as [|r IH]; intros p earlier Hp; cbn [rep_points].
  - exists earlier. f_equal. lia.
  - cbn [via rx_match]. rewrite length_replicate. destruct (Nat.ltb_spec p k).
    + rewrite (at_lookup _ _ 97) by (apply lookup_replicate; done).
      rewrite Z.eqb_refl. cbn [andb]. destruct (Nat.eqb_spec (S p) p); [lia|].
      destruct (IH (S p) (p :: earlier) ltac:(lia)) as (l & ->). exists l. f_equal. lia.
    + cbn [andb]. exists earlier. f_equal. lia.
Qed.

(** a repetition stops after 63 rounds, so [^a*$] matches the runs of up
    to 63 a's and no longer one. *)
Theorem re_match_star_limit k :
  re_match true (Some (cs "^a*$")) (Some (replicate k 97)) = Done (k <=? 63)%nat.
Proof.
  rewrite re_match_eq by (repeat constructor; cbn; lia).
  set (t := parse (cs "^a*$")). vm_compute in t. subst t. f_equal.
  apply eq_true_iff_eq. rewrite try_from_iff, Nat.leb_le.
  destruct (rep_points_run k 63 0 [] ltac:(lia)) as (l & Hrun).
  change [0; 0; 0; 0; 0; 0; 0; 0; 0; 0; 0; 0; 0; 0; 0; 0; 0; 0; 0; 0; 0; 0; 0; 0; 0; 0; 0; 0; 0; 0; 0; 0] with empty_set.
  split.
  - intros (i & Hi & H). cbn [rx_match via] in H. destruct (Nat.eqb_spec i 0) as [->|]; [|done].
    rewrite Hrun in H. cbn [first_rest via] in H. rewrite length_replicate in H.
    destruct (Nat.eqb_spec (Nat.min (0 + 63) k) k); [lia|done].
  - intros Hk. exists 0%nat. split; [lia|]. cbn [rx_match via]. change ((0 =? 0)%nat) with true. cbv iota.
    rewrite Hrun. cbn [first_rest via]. rewrite length_replicate.
    destruct (Nat.eqb_spec (Nat.min (0 + 63) k) k); [done|lia].
Qed.

(** the empty pattern matches no text at all. *)
Theorem re_match_empty_pattern text : re_match true (Some []) (Some text) = Done false.
Proof. reflexivity. Qed.

(** ** Bracket expressions *)

Lemma set_has_testbit set c :
  0 <= c -> set_has set c = Z.testbit (at_ set (Z.to_nat (c / 8))) (c mod 8).
Proof.
  intros Hc. unfold set_has. rewrite (Z.shiftr_div_pow2 c 3) by lia. change (2 ^ 3) with 8.
  change 7 with (Z.ones 3). rewrite Z.land_ones by lia. change (2 ^ 3) with 8.
  set (b := at_ set _). pose proof (Z.mod_pos_bound c 8 ltac:(lia)).
  change 1 with (Z.ones 1). rewrite Z.land_ones by lia. change (2 ^ 1) with 2.
  rewrite Zmod_odd, <- Z.bit0_odd, Z.shiftr_spec by lia. rewrite Z.add_0_l.
  destruct (Z.testbit b (c mod 8)); reflexivity.
Qed.

Lemma length_set_add set c : length (set_add set c) = length set.
Proof. apply length_insert. Qed.

Lemma set_has_add set c d :
  length set = 32%nat -> is_u8 c -> is_u8 d -> set_has (set_add set c) d = (c =? d) || set_has set d.
Proof.
  unfold is_u8. intros Hl Hc Hd. rewrite !set_has_testbit by lia. unfold set_add.
  rewrite Z.shiftr_div_pow2 by lia. change (2 ^ 3) with 8.
  change 7 with (Z.ones 3). rewrite Z.land_ones by lia. change (2 ^ 3) with 8.
  pose proof (Z.mod_pos_bound c 8 ltac:(lia)). pose proof (Z.mod_pos_bound d 8 ltac:(lia)).
  pose proof (Z_div_mod_eq_full c 8). pose proof (Z_div_mod_eq_full d 8).
  assert (0 <= c / 8 < 32) by (split; [apply Z.div_pos; lia|apply Z.div_lt_upper_bound; lia]).
  assert (0 <= d / 8 < 32) by (split; [apply Z.div_pos; lia|apply Z.div_lt_upper_bound; lia]).
  rewrite at_insert by lia. case_decide as E.
  - assert (c / 8 = d / 8) as E8 by lia. rewrite E, Z.lor_spec, orb_comm. f_equal.
    rewrite Z.shiftl_1_l. rewrite u8_id.
    2:{ unfold is_u8. pose proof (Z.pow_le_mono_r 2 (c mod 8) 7 ltac:(lia) ltac:(lia)).
        pose proof (Z.pow_pos_nonneg 2 (c mod 8) ltac:(lia) ltac:(lia)). lia. }
    rewrite Z.pow2_bits_eqb by lia. destruct (Z.eqb_spec c d), (Z.eqb_spec (c mod 8) (d mod 8)); lia || done.
  - assert (c <> d) by (intros ->; done). by rewrite (proj2 (Z.eqb_neq _ _) H5).
Qed.

Lemma add_range_spec set lo n d :
  length set = 32%nat -> is_u8 d -> 0 <= lo -> lo + Z.of_nat n <= 256 ->
  length (add_range set lo n) = 32%nat /\
  set_has (add_range set lo n) d = (lo <=? d) && (d <? lo + Z.of_nat n) || set_has set d.
Proof.
  intros Hl Hd. revert set lo Hl; induction n as [|n IH]; intros set lo Hl H0 Hn; cbn [add_range].
  - split; [done|]. destruct (Z.leb_spec lo d), (Z.ltb_spec d (lo + Z.of_nat 0)); lia || done.
  - destruct (IH (set_add set (u8 lo)) (lo + 1)) as [H1 H2]; [by rewrite length_set_add|lia|lia|].
    split; [done|]. rewrite H2, u8_id, set_has_add by (done || unfold is_u8; lia).
    rewrite orb_assoc. f_equal.
    destruct (Z.leb_spec (lo + 1) d), (Z.ltb_spec d (lo + 1 + Z.of_nat n)), (Z.eqb_spec lo d),
      (Z.leb_spec lo d), (Z.ltb_spec d (lo + Z.of_nat (S n))); lia || done.
Qed.

Lemma set_has_not set d :
  length set = 32%nat -> is_u8 d -> set_has (set_not set) d = negb (set_has set d).
Proof.
  unfold is_u8. intros Hl Hd. rewrite !set_has_testbit by lia. unfold set_not, at_.
  assert (0 <= d / 8 < 32) by (split; [apply Z.div_pos; lia|apply Z.div_lt_upper_bound; lia]).
  pose proof (Z.mod_pos_bound d 8 ltac:(lia)).
  rewrite (nth_indep _ 0 (u8 (Z.lnot 0))) by (rewrite length_map; lia).
  rewrite (map_nth (fun b => u8 (Z.lnot b))). unfold u8. rewrite Z.mod_pow2_bits_low by lia.
  apply Z.lnot_spec. lia.
Qed.

(** A member [lo-hi] whose ends stand for themselves in brackets. *)
Definition member_char (c : Z) : bool := (0 <? c) && (c <? 256) && negb (existsb (Z.eqb c) (cs "]-^" ++ [92])).
Definition member_text (m : Z * Z) : list Z := [fst m; 45; snd m].
Definition member_has (d : Z) (m : Z * Z) : bool := (fst m <=? d) && (d <=? snd m).

Lemma member_neq c k : member_char c = true -> In k (0 :: cs "]-^" ++ [92]) -> (c =? k) = false.
Proof.
  unfold member_char. intros H Hk. bprop. destruct (Z.eqb_spec c k) as [->|]; [|done].
  destruct Hk as [<-|Hk]; [lia|]. rewrite <- H0. symmetry. apply existsb_exists. exists k.
  split; [done|apply Z.eqb_refl].
Qed.

Lemma class_loop_members ms fuel first set rest d :
  Forall (fun m => member_char (fst m) = true /\ member_char (snd m) = true) ms ->
  (length ms < fuel)%nat -> length set = 32%nat -> is_u8 d -> (ms = [] -> first = false) ->
  exists set', class_loop fuel (concat (map member_text ms) ++ 93 :: rest) first set = Done (set', 93 :: rest) /\
    length set' = 32%nat /\ set_has set' d = existsb (member_has d) ms || set_has set d.
Proof.
  intros Hms. revert fuel first set; induction Hms as [|[lo hi] ms [Hlo Hhi] Hms IH]; intros fuel first set Hf Hl Hd Hne.
  - destruct fuel; [simpl in Hf; lia|]. rewrite (Hne eq_refl). by exists set.
  - destruct fuel as [|f]; [simpl in Hf; lia|]. cbn [fst snd] in *.
    change (concat (map member_text ((lo, hi) :: ms)) ++ 93 :: rest) with
      (lo :: 45 :: hi :: (concat (map member_text ms) ++ 93 :: rest)).
    set (q := concat (map member_text ms) ++ 93 :: rest).
    assert (forall k, In k (0 :: cs "]-^" ++ [92]) -> (lo =? k) = false) as Kl by (intros; by apply member_neq).
    assert (forall k, In k (0 :: cs "]-^" ++ [92]) -> (hi =? k) = false) as Kh by (intros; by apply member_neq).
    assert (0 <= lo < 256 /\ 0 <= hi < 256) as [Blo Bhi] by (unfold member_char in *; bprop; lia).
    cbn [class_loop]. change (ch (lo :: 45 :: hi :: q)) with lo.
    rewrite (Kl 0), (Kl 93) by (cbn; tauto). cbn [negb andb orb].
    unfold class_char at 1. change (ch (lo :: 45 :: hi :: q)) with lo. rewrite (Kl 92) by (cbn; tauto). cbn [andb tail].
    change (ch (45 :: hi :: q)) with 45. change (at_ (45 :: hi :: q) 1) with hi. cbn [Z.eqb Pos.eqb].
    rewrite (Kh 0), (Kh 93) by (cbn; tauto). cbn [negb andb tail]. unfold class_char.
    change (ch (hi :: q)) with hi. rewrite (Kh 92) by (cbn; tauto). cbn [andb tail].
    destruct (add_range_spec set lo (Z.to_nat (hi - lo + 1)) d) as [H1 H2]; [done|done|lia|lia|].
    destruct (IH f false (add_range set lo (Z.to_nat (hi - lo + 1)))) as (set' & E & Hl' & Hh);
      [simpl in Hf; lia|done|done|done|]. exists set'. split; [done|]. split; [done|].
    rewrite Hh, H2. cbn [existsb]. rewrite orb_assoc. f_equal. rewrite orb_comm. f_equal.
    unfold member_has. cbn [fst snd].
    destruct (Z.leb_spec lo d), (Z.leb_spec d hi), (Z.ltb_spec d (lo + Z.of_nat (Z.to_nat (hi - lo + 1)))); lia || done.
Qed.

Definition bracket (neg : bool) (ms : list (Z * Z)) : list Z :=
  91 :: (if neg then [94] else []) ++ concat (map member_text ms) ++ [93].

Lemma rx_class_members ms (neg : bool) n cap d :
  Forall (fun m => member_char (fst m) = true /\ member_char (snd m) = true) ms -> ms <> [] -> n < cap -> is_u8 d ->
  exists set, rx_class (mkRx ((if neg then [94] else []) ++ concat (map member_text ms) ++ [93]) n cap false) =
      Done (Some (mkNode N_CLASS 0 set None None None), mkRx [] (n + 1) cap false, true) /\
    set_has set d = xorb neg (existsb (member_has d) ms).
Proof.
  intros Hms Hne Hn Hd. unfold rx_class. rewrite rx_node_roomy by done. cbn [negb r_p r_npool r_cap r_bad].
  set (p := concat (map member_text ms) ++ [93]).
  assert ((ch ((if neg then [94] else []) ++ p) =? 94) = neg) as ->.
  { destruct neg; [done|]. destruct Hms as [|[lo hi] ms' [Hlo _] Hms]; [done|].
    change (ch ([] ++ p)) with lo. apply member_neq; [done|cbn; tauto]. }
  assert ((if neg then tail ((if neg then [94] else []) ++ p) else (if neg then [94] else []) ++ p) = p) as ->
    by (by destruct neg).
  destruct (class_loop_members ms (length p) true empty_set [] d) as (set & E & Hl & Hh); try done.
  { unfold p. rewrite length_app. simpl. clear. induction ms as [|m ms IH]; [simpl; lia|].
    cbn [map concat]. rewrite length_app. unfold member_text at 1. simpl in *. lia. }
  fold p in E. rewrite E. cbn [obind]. change (ch [93]) with 93. cbn [Z.eqb Pos.eqb tail goto].
  exists (if neg then set_not set else set). split; [done|].
  assert (set_has empty_set d = false) as H0.
  { rewrite set_has_testbit by (unfold is_u8 in Hd; lia). unfold at_, empty_set.
    assert (forall k i, nth i (replicate k 0) 0 = 0) as -> by (induction k; intros [|i]; cbn; auto).
    apply Z.testbit_0_l. }
  rewrite H0, orb_false_r in Hh. destruct neg; [rewrite set_has_not by done|]; rewrite Hh; by destruct (existsb _ ms).
Qed.

Lemma rx_alt_bracket q nd cap :
  8 <= cap -> rx_class (mkRx q 0 cap false) = Done (Some nd, mkRx [] (0 + 1) cap false, true) ->
  rx_alt (S (length (91 :: q))) (mkRx (91 :: q) 0 cap false) =
    Done (Some (mkNode N_CAT 0 empty_set (Some nd) None None), mkRx [] 2 cap false).
Proof.
  intros Hcap Ec. cbn [rx_alt]. unfold rx_alt_with. cbn [r_p length rx_cat].
  change (ch (91 :: q)) with 91. cbn [Z.eqb negb andb].
  change (negb (91 =? chr "|") && negb (91 =? chr ")")) with true. cbn [negb andb].
  unfold rx_piece, rx_atom. cbn [r_p]. change (ch (91 :: q)) with 91.
  change (91 =? chr "(") with false. change (91 =? chr "[") with true. cbv iota.
  unfold goto. cbn [tail r_p r_npool r_cap r_bad]. rewrite Ec. cbn [obind r_p].
  change (is_rep (ch [])) with false. cbv iota. cbn [obind]. rewrite rx_node_roomy by (cbn; lia).
  cbn [negb r_p r_npool r_cap r_bad]. destruct (length q); reflexivity.
Qed.

(** a bracket expression of ranges, negated or not, matches exactly the
    characters in (or outside) them. *)
Theorem re_match_bracket ms (neg : bool) d :
  Forall (fun m => member_char (fst m) = true /\ member_char (snd m) = true) ms -> ms <> [] ->
  Z.of_nat (length ms) < 2 ^ 24 -> 0 < d < 256 ->
  re_match true (Some (bracket neg ms)) (Some [d]) = Done (xorb neg (existsb (member_has d) ms)).
Proof.
  intros Hms Hne Hlen Hd.
  assert (Z.of_nat (length (bracket neg ms)) <= 3 * Z.of_nat (length ms) + 3) as HL.
  { unfold bracket. cbn [length]. rewrite !length_app. cbn [length].
    assert (length (concat (map member_text ms)) = 3 * length ms)%nat as ->.
    { clear. induction ms as [|m ms IH]; [done|]. cbn [map concat]. rewrite length_app. simpl in *. lia. }
    destruct neg; cbn [length]; lia. }
  assert (cstring (bracket neg ms)) as Hcs.
  { unfold bracket. constructor; [lia|]. apply Forall_app. split; [destruct neg; repeat constructor; lia|].
    apply Forall_app. split; [|repeat constructor; lia]. clear - Hms.
    induction Hms as [|[lo hi] ms [Hlo Hhi] Hms IH]; [constructor|]. cbn [map concat]. cbn in Hlo, Hhi.
    unfold member_char in *. bprop. repeat constructor; cbn; try lia. exact IH. }
  rewrite re_match_eq by (done || lia). f_equal.
  set (cap := s32 (s32 (strlen (bracket neg ms)) * 4 + 8)).
  assert (8 <= cap) as Hcap.
  { unfold cap. rewrite strlen_length by done. rewrite (s32_id (Z.of_nat _)) by (unfold is_s32; lia).
    rewrite s32_id by (unfold is_s32; lia). lia. }
  destruct (rx_class_members ms neg 0 cap d Hms Hne ltac:(lia) ltac:(unfold is_u8; lia)) as (set & Ec & Hs).
  assert (parse (bracket neg ms) = Some (mkNode N_CAT 0 empty_set
    (Some (mkNode N_CLASS 0 set None None None)) None None)) as ->.
  { unfold parse, parse_start. fold cap. unfold bracket at 1 2. rewrite (rx_alt_bracket _ _ _ Hcap Ec). done. }
  cbn [try_from rx_match via length]. change (at_ [d] 0) with d. rewrite Hs.
  by destruct (xorb neg (existsb (member_has d) ms)).
Qed.

Lemma re_match_bracket_witness :
  re_match true (Some (bracket true [(97, 122); (48, 57)])) (Some [65]) = Done true.
Proof.
  apply (re_match_bracket [(97, 122); (48, 57)] true 65); [repeat constructor; reflexivity|done|cbn; lia|lia].
Defined.
