(* ===== verification/X509.v ===== *)
(** The DER reader that takes an RSA public key out of a certificate
    ([vlibc/src/tls/tls_x509.c]).

    A pointer into the certificate is the list of the bytes from it to the end
    of the caller's buffer; every read is checked against that list, and a
    read outside of it is [Trap].  [size_t] is 32 bits. *)
From S2P Require Import Prelude CString.
Local Open Scope vnu_scope.

Definition OID_RSA_ENCRYPTION : list Z := [0x2a; 0x86; 0x48; 0x86; 0xf7; 0x0d; 0x01; 0x01; 0x01].

Record der := mkDer { d_tag : Z; d_p : list Z; d_len : Z; d_hlen : Z }.

(** [b[i]]. *)
Definition rd (b : list Z) (i : Z) : outcome Z :=
  if (0 <=? i) && (i <? Z.of_nat (length b)) then Done (at_ b (Z.to_nat i)) else Trap.

(** [while (nb--) l = (l << 8) | b[i++];]. *)
Fixpoint length_loop (nb : nat) (b : list Z) (i l : Z) : outcome (Z * Z) :=
  match nb with
  | O => Done (l, i)
  | S k => let* x := rd b i in length_loop k b (u32 (i + 1)) (Z.lor (u32 (Z.shiftl l 8)) x)
  end.

(** The element at [off] and the offset after it; [None] is -1. *)
Definition der_next (b : list Z) (blen off : Z) : outcome (option (der * Z)) :=
  if blen <=? off then Done None
  else
    let* tag := rd b off in
    if Z.land tag 0x1f =? 0x1f then Done None
    else
      let i := u32 (off + 1) in
      if blen <=? i then Done None
      else
        let* l1 := rd b i in
        let i := u32 (i + 1) in
        let finish l i :=
          if u32 (blen - i) <? l then Done None
          else Done (Some (mkDer tag (drop (Z.to_nat i) b) l (u32 (i - off)), u32 (i + l))) in
        if negb (Z.land l1 0x80 =? 0) then
          let nb := Z.land l1 0x7f in
          if (nb =? 0) || (4 <? nb) || (blen <? u32 (i + nb)) then Done None
          else let* (l, i) := length_loop (Z.to_nat nb) b i 0 in finish l i
        else finish l1 i.

Fixpoint same_bytes (p oid : list Z) (i : nat) (n : nat) : outcome bool :=
  match n with
  | O => Done true
  | S k =>
      let* x := rd p (Z.of_nat i) in
      if negb (x =? at_ oid i) then Done false else same_bytes p oid (S i) k
  end.

Definition oid_eq (d : der) (oid : list Z) : outcome bool :=
  if negb (d_tag d =? 6) || negb (d_len d =? Z.of_nat (length oid)) then Done false
  else same_bytes (d_p d) oid 0 (length oid).

(** [while (n > 1 && v[0] == 0) v++, n--;]. *)
Fixpoint strip_zeros (fuel : nat) (v : list Z) (n : Z) : outcome (list Z * Z) :=
  if 1 <? n then
    let* x := rd v 0 in
    if x =? 0 then
      match fuel with
      | O => NoFuel
      | S f => strip_zeros f (tail v) (n - 1)
      end
    else Done (v, n)
  else Done (v, n).

(** The bytes copied out (their number is the new [*outlen]); [None] is -1. *)
Definition int_bytes (d : der) (outlen : Z) : outcome (option (list Z)) :=
  if negb (d_tag d =? 2) || (d_len d =? 0) then Done None
  else
    let* x := rd (d_p d) 0 in
    let '(v, n) := if negb (Z.land x 0x80 =? 0) then (tail (d_p d), d_len d - 1) else (d_p d, d_len d) in
    let* (v, n) := strip_zeros (Z.to_nat n) v n in
    if (n =? 0) || (outlen <? n) then Done None
    else if Z.of_nat (length v) <? n then Trap
    else Done (Some (take (Z.to_nat n) v)).

(** The key inside the BIT STRING that follows the AlgorithmIdentifier. *)
Definition read_key (child : der) (ao mod_cap exp_cap : Z) : outcome (option (list Z * list Z)) :=
  let* bs := der_next (d_p child) (d_len child) ao in
  match bs with
  | None => Done None
  | Some (bitstr, _) =>
      if negb (d_tag bitstr =? 3) then Done None
      else if d_len bitstr <? 1 then Done None
      else
        let* unused := rd (d_p bitstr) 0 in
        if negb (unused =? 0) then Done None
        else
          let* k := der_next (d_p bitstr) (d_len bitstr) 1 in
          match k with
          | None => Done None
          | Some (key, _) =>
              if negb (d_tag key =? 0x30) then Done None
              else
                let* m := der_next (d_p key) (d_len key) 0 in
                match m with
                | None => Done None
                | Some (ki, ko) =>
                    if negb (d_tag ki =? 2) then Done None
                    else
                      let* mod_ := int_bytes ki mod_cap in
                      match mod_ with
                      | None => Done None
                      | Some mod_ =>
                          let* e := der_next (d_p key) (d_len key) ko in
                          match e with
                          | None => Done None
                          | Some (ki, _) =>
                              if negb (d_tag ki =? 2) then Done None
                              else
                                let* exp := int_bytes ki exp_cap in
                                match exp with
                                | None => Done None
                                | Some exp => Done (Some (mod_, exp))
                                end
                          end
                      end
                end
          end
  end.

(** One child of the TBSCertificate: [None] is [continue]. *)
Definition try_child (child : der) (mod_cap exp_cap : Z) : outcome (option (option (list Z * list Z))) :=
  if negb (d_tag child =? 0x30) then Done None
  else
    let* a := der_next (d_p child) (d_len child) 0 in
    match a with
    | None => Done None
    | Some (alg, ao) =>
        if negb (d_tag alg =? 0x30) then Done None
        else
          let* o := der_next (d_p alg) (d_len alg) 0 in
          match o with
          | None => Done None
          | Some (oid, _) =>
              let* eq := oid_eq oid OID_RSA_ENCRYPTION in
              if negb eq then Done None
              else let* r := read_key child ao mod_cap exp_cap in Done (Some r)
          end
    end.

(** [while (der_next(tbs.p, tbs.len, &off2, &child) == 0)]. *)
Fixpoint children_loop (fuel : nat) (tbs : der) (off mod_cap exp_cap : Z) : outcome (option (list Z * list Z)) :=
  match fuel with
  | O => NoFuel
  | S f =>
      let* c := der_next (d_p tbs) (d_len tbs) off in
      match c with
      | None => Done None
      | Some (child, off) =>
          let* r := try_child child mod_cap exp_cap in
          match r with
          | Some res => Done res
          | None => children_loop f tbs off mod_cap exp_cap
          end
      end
  end.

(** The modulus and the exponent; [None] is -1. *)
Definition tls_x509_rsa_pubkey (b : list Z) (len mod_cap exp_cap : Z) : outcome (option (list Z * list Z)) :=
  let* c := der_next b len 0 in
  match c with
  | None => Done None
  | Some (cert, _) =>
      if negb (d_tag cert =? 0x30) then Done None
      else
        let* t := der_next (d_p cert) (d_len cert) 0 in
        match t with
        | None => Done None
        | Some (tbs, _) =>
            if negb (d_tag tbs =? 0x30) then Done None
            else children_loop (S (Z.to_nat (d_len tbs))) tbs 0 mod_cap exp_cap
        end
  end.

(** * Safety and termination *)

(** An element that lies inside the buffer it was read from. *)
Definition inside (d : der) : Prop := 0 <= d_len d <= Z.of_nat (length (d_p d)) /\ bytes (d_p d).

Lemma rd_in b i : 0 <= i < Z.of_nat (length b) -> rd b i = Done (at_ b (Z.to_nat i)).
Proof. intros H. unfold rd. destruct (Z.leb_spec 0 i), (Z.ltb_spec i (Z.of_nat (length b))); lia || done. Qed.

Lemma bytes_drop n b : bytes b -> bytes (drop n b).
Proof. apply Forall_drop. Qed.

Lemma length_loop_ok nb b i l :
  bytes b -> 0 <= i -> i + Z.of_nat nb <= Z.of_nat (length b) < 2 ^ 32 - 8 -> 0 <= l < 2 ^ 32 ->
  exists l', length_loop nb b i l = Done (l', i + Z.of_nat nb) /\ 0 <= l' < 2 ^ 32.
Proof.
  intros Hb. revert i l; induction nb as [|k IH]; intros i l Hi Hn Hl; cbn [length_loop].
  - exists l. split; [do 2 f_equal; lia|done].
  - rewrite rd_in by lia. cbn [obind]. rewrite u32_id by (unfold is_u32; lia).
    destruct (IH (i + 1) (Z.lor (u32 (Z.shiftl l 8)) (at_ b (Z.to_nat i)))) as (l' & -> & Hl'); [lia|lia| |].
    + pose proof (u32_range (Z.shiftl l 8)) as Hu. pose proof (bytes_at b (Z.to_nat i) Hb) as Hx.
      unfold is_u32, is_u8 in *. split; [apply Z.lor_nonneg; lia|].
      destruct (Z.eq_dec (Z.lor (u32 (Z.shiftl l 8)) (at_ b (Z.to_nat i))) 0) as [->|Hne]; [lia|].
      apply Z.log2_lt_pow2; [assert (0 <= Z.lor (u32 (Z.shiftl l 8)) (at_ b (Z.to_nat i))) by (apply Z.lor_nonneg; lia); lia|].
      rewrite Z.log2_lor by lia. apply Z.max_lub_lt.
      * destruct (Z.eq_dec (u32 (Z.shiftl l 8)) 0) as [->|]; [cbn; lia|]. apply Z.log2_lt_pow2; lia.
      * destruct (Z.eq_dec (at_ b (Z.to_nat i)) 0) as [->|]; [cbn; lia|]. apply Z.log2_lt_pow2; lia.
    + exists l'. split; [do 2 f_equal; lia|done].
Qed.

(** The reader stays inside [blen] bytes, makes progress, and what it
    delivers lies inside them too. *)
Lemma der_next_ok b blen off :
  bytes b -> 0 <= off -> 0 <= blen <= Z.of_nat (length b) -> Z.of_nat (length b) < 2 ^ 32 - 8 ->
  exists r, der_next b blen off = Done r /\
    match r with
    | None => True
    | Some (t, off') => inside t /\ off < off' <= blen /\ d_len t < blen /\ (length (d_p t) < length b)%nat
    end.
Proof.
  intros Hb Ho Hl Hmax. unfold der_next. destruct (Z.leb_spec blen off); [by exists None|].
  rewrite rd_in by lia. cbn [obind]. bcase; [by exists None|].
  rewrite (u32_id (off + 1)) by (unfold is_u32; lia). destruct (Z.leb_spec blen (off + 1)); [by exists None|].
  rewrite rd_in by lia. cbn [obind]. rewrite (u32_id (off + 1 + 1)) by (unfold is_u32; lia).
  set (tag := at_ b (Z.to_nat off)). pose proof (bytes_at b (Z.to_nat (off + 1)) Hb) as Hl1. unfold is_u8 in Hl1.
  set (l1 := at_ b (Z.to_nat (off + 1))) in *.
  assert (forall l i, 0 <= l < 2 ^ 32 -> off + 2 <= i <= blen -> exists r,
    (if u32 (blen - i) <? l then Done None
     else Done (Some (mkDer tag (drop (Z.to_nat i) b) l (u32 (i - off)), u32 (i + l)))) = Done r /\
    match r with
    | None => True
    | Some (t, off') => inside t /\ off < off' <= blen /\ d_len t < blen /\ (length (d_p t) < length b)%nat
    end) as Hfin.
  { intros l i Hlr Hi. rewrite (u32_id (blen - i)) by (unfold is_u32; lia).
    destruct (Z.ltb_spec (blen - i) l); [by exists None|]. eexists. split; [reflexivity|].
    rewrite (u32_id (i + l)) by (unfold is_u32; lia). unfold inside. cbn [d_len d_p]. rewrite length_drop.
    repeat split; try lia. by apply bytes_drop. }
  bcase.
  - set (nb := Z.land l1 127). assert (0 <= nb) by (apply Z.land_nonneg; lia).
    bcase; [by exists None|]. bprop. rewrite (u32_id (off + 1 + 1 + nb)) in * by (unfold is_u32; lia).
    destruct (length_loop_ok (Z.to_nat nb) b (off + 1 + 1) 0) as (l & -> & Hlr); [done|lia|lia|lia|].
    cbn [obind]. apply Hfin; lia.
  - apply Hfin; lia.
Qed.

(** The call ends without reading outside its buffer. *)
Definition returns {A} (m : outcome A) : Prop := exists r, m = Done r.

Lemma returns_bind {A B} (m : outcome A) (f : A -> outcome B) :
  returns m -> (forall r, m = Done r -> returns (f r)) -> returns (obind m f).
Proof. intros [r ->] H. by apply H. Qed.

Lemma der_next_returns b blen off :
  bytes b -> 0 <= off -> 0 <= blen <= Z.of_nat (length b) -> Z.of_nat (length b) < 2 ^ 32 - 8 ->
  returns (der_next b blen off).
Proof. intros. destruct (der_next_ok b blen off) as (r & -> & _); try done. by exists r. Qed.

(** What a successful [der_next] delivered, when the call is in a hypothesis. *)
Lemma der_next_some b blen off t off' :
  bytes b -> 0 <= off -> 0 <= blen <= Z.of_nat (length b) -> Z.of_nat (length b) < 2 ^ 32 - 8 ->
  der_next b blen off = Done (Some (t, off')) ->
  inside t /\ off < off' <= blen /\ d_len t < blen /\ (length (d_p t) < length b)%nat.
Proof. intros ? ? ? ? E. destruct (der_next_ok b blen off) as (r & E2 & Hr); try done. rewrite E in E2. by simplify_eq. Qed.

Lemma same_bytes_returns p oid i n :
  Z.of_nat (i + n) <= Z.of_nat (length p) -> returns (same_bytes p oid i n).
Proof.
  revert i; induction n as [|n IH]; intros i H; cbn [same_bytes]; [by eexists|].
  rewrite rd_in by lia. cbn [obind]. bcase; [by eexists|]. apply IH. lia.
Qed.

Lemma oid_eq_returns d oid : inside d -> returns (oid_eq d oid).
Proof. intros [H _]. unfold oid_eq. bcase; [by eexists|]. apply same_bytes_returns. lia. Qed.

Lemma strip_zeros_ok fuel v n :
  0 <= n <= Z.of_nat fuel -> n <= Z.of_nat (length v) ->
  exists v' n', strip_zeros fuel v n = Done (v', n') /\ n' <= Z.of_nat (length v').
Proof.
  revert v n; induction fuel as [|f IH]; intros v n Hn Hv; cbn [strip_zeros].
  - destruct (Z.ltb_spec 1 n); [lia|]. by exists v, n.
  - destruct (Z.ltb_spec 1 n); [|by exists v, n]. rewrite rd_in by lia. cbn [obind].
    bcase; [|by exists v, n]. apply IH; [lia|]. destruct v; simpl in *; lia.
Qed.

Lemma int_bytes_returns d cap : inside d -> returns (int_bytes d cap).
Proof.
  intros [H Hb]. unfold int_bytes. bcase; [by eexists|]. bprop. rewrite rd_in by lia. cbn [obind].
  match goal with |- context [let '(_, _) := ?X in _] => destruct X as [v n] eqn:E end.
  assert (0 <= n <= Z.of_nat (length v)) as Hn.
  { revert E. bcase; intros [= <- <-]; [|lia]. destruct (d_p d); simpl in *; lia. }
  destruct (strip_zeros_ok (Z.to_nat n) v n ltac:(lia) ltac:(lia)) as (v' & n' & -> & Hn'). cbn [obind].
  bcase; [by eexists|]. destruct (Z.ltb_spec (Z.of_nat (length v')) n'); [lia|by eexists].
Qed.

Section Reader.
Variables mod_cap exp_cap : Z.

Definition small (d : der) : Prop := Z.of_nat (length (d_p d)) < 2 ^ 32 - 8.

Ltac next :=
  match goal with
  | |- returns (obind (der_next _ _ _) _) =>
      apply returns_bind; [apply der_next_returns; (done || lia)|];
      let r := fresh "r" in let E := fresh "E" in
      intros r E; destruct r as [[? ?]|]; [apply der_next_some in E as (? & ? & ? & ?); (done || lia || idtac)|by eexists]
  end.

Lemma read_key_returns child ao :
  inside child -> small child -> 0 <= ao -> returns (read_key child ao mod_cap exp_cap).
Proof.
  intros [Hl Hb] Hs Ha. unfold small in Hs. unfold read_key. next. destruct H as [Hl1 Hb1].
  bcase; [by eexists|]. bcase; [by eexists|]. rewrite rd_in by lia. cbn [obind]. bcase; [by eexists|].
  next. destruct H as [Hl2 Hb2]. bcase; [by eexists|]. next. bcase; [by eexists|].
  apply returns_bind; [by apply int_bytes_returns|]. intros [m|] _; [|by eexists].
  next. bcase; [by eexists|]. apply returns_bind; [by apply int_bytes_returns|].
  intros [e|] _; by eexists.
Qed.

Lemma try_child_returns child : inside child -> small child -> returns (try_child child mod_cap exp_cap).
Proof.
  intros [Hl Hb] Hs. unfold small in Hs. unfold try_child. bcase; [by eexists|]. next. destruct H as [Hl1 Hb1].
  bcase; [by eexists|]. next. apply returns_bind; [by apply oid_eq_returns|]. intros eq _.
  bcase; [by eexists|]. apply returns_bind; [apply read_key_returns; done || lia|]. intros res _. by eexists.
Qed.

Lemma children_loop_returns fuel tbs off :
  inside tbs -> small tbs -> 0 <= off <= d_len tbs -> d_len tbs - off < Z.of_nat fuel ->
  returns (children_loop fuel tbs off mod_cap exp_cap).
Proof.
  intros [Hl Hb] Hs. unfold small in Hs.
  revert off; induction fuel as [|f IH]; intros off Ho Hf; cbn [children_loop]; [lia|].
  next. apply returns_bind; [apply try_child_returns; [done|unfold small; lia]|].
  intros [res|] _; [by eexists|]. apply IH; lia.
Qed.


End Reader.

(** * Reading back what was encoded *)

(** The DER length octets of [n]. *)
Definition enc_len (n : Z) : list Z :=
  if n <? 2 ^ 7 then [n]
  else if n <? 2 ^ 8 then [0x81; n]
  else if n <? 2 ^ 16 then [0x82; n / 2 ^ 8; n mod 2 ^ 8]
  else if n <? 2 ^ 24 then [0x83; n / 2 ^ 16; n / 2 ^ 8 mod 2 ^ 8; n mod 2 ^ 8]
  else [0x84; n / 2 ^ 24; n / 2 ^ 16 mod 2 ^ 8; n / 2 ^ 8 mod 2 ^ 8; n mod 2 ^ 8].

Definition enc (tag : Z) (v : list Z) : list Z := tag :: enc_len (Z.of_nat (length v)) ++ v.

Lemma shift_or l x : 0 <= l -> 0 <= x < 256 -> Z.lor (Z.shiftl l 8) x = l * 256 + x.
Proof. intros. rewrite Z.lor_comm, or_shift by lia. lia. Qed.

Lemma length_loop_fold bs b i l rest :
  drop (Z.to_nat i) b = bs ++ rest -> bytes bs -> 0 <= i -> i + Z.of_nat (length bs) <= Z.of_nat (length b) < 2 ^ 32 - 8 ->
  0 <= l -> (l + 1) * 256 ^ Z.of_nat (length bs) <= 2 ^ 32 ->
  length_loop (length bs) b i l = Done (fold_left (fun a x => a * 256 + x) bs l, i + Z.of_nat (length bs)).
Proof.
  revert i l; induction bs as [|x bs IH]; intros i l Hd Hb Hi Hn Hl Hf; cbn [length length_loop fold_left].
  - do 2 f_equal. lia.
  - apply Forall_cons in Hb as [Hx Hb]. unfold is_u8 in Hx. change (2 ^ 8) with 256 in Hx. cbn [length] in *.
    rewrite rd_in by lia. cbn [obind].
    assert (at_ b (Z.to_nat i) = x) as ->.
    { pose proof (at_drop b (Z.to_nat i) 0) as H. rewrite Hd, Nat.add_0_r in H. symmetry. exact H. }
    rewrite Nat2Z.inj_succ, Z.pow_succ_r in Hf by lia.
    assert (1 <= 256 ^ Z.of_nat (length bs)) by (pose proof (Z.pow_pos_nonneg 256 (Z.of_nat (length bs))); lia).
    assert ((l + 1) * 256 <= 2 ^ 32) by nia.
    rewrite (u32_id (Z.shiftl l 8)) by (rewrite Z.shiftl_mul_pow2 by lia; unfold is_u32; lia).
    rewrite shift_or by lia. rewrite (u32_id (i + 1)) by (unfold is_u32; lia).
    rewrite IH; [do 2 f_equal; lia| |done|lia|lia|lia|nia].
    replace (Z.to_nat (i + 1)) with (Z.to_nat i + 1)%nat by lia. rewrite <- drop_drop, Hd. done.
Qed.

Lemma enc_len_cases n :
  0 <= n < 2 ^ 32 ->
  (n < 128 /\ enc_len n = [n]) \/
  exists bs, enc_len n = (128 + Z.of_nat (length bs)) :: bs /\ (1 <= length bs <= 4)%nat /\ bytes bs /\
    fold_left (fun a x => a * 256 + x) bs 0 = n.
Proof.
  intros Hn. unfold enc_len. change (2 ^ 7) with 128.
  pose proof (Z.mod_pos_bound n 256 ltac:(lia)). pose proof (Z_div_mod_eq_full n 256).
  pose proof (Z.mod_pos_bound (n / 256) 256 ltac:(lia)). pose proof (Z_div_mod_eq_full (n / 256) 256).
  pose proof (Z.mod_pos_bound (n / 65536) 256 ltac:(lia)). pose proof (Z_div_mod_eq_full (n / 65536) 256).
  assert (n / 65536 = n / 256 / 256) as E2 by (rewrite Z.div_div by lia; done).
  assert (n / 16777216 = n / 65536 / 256) as E3 by (rewrite Z.div_div by lia; done).
  assert (0 <= n / 256) by (apply Z.div_pos; lia). assert (0 <= n / 65536) by (apply Z.div_pos; lia).
  assert (0 <= n / 16777216) by (apply Z.div_pos; lia).
  change (2 ^ 8) with 256. change (2 ^ 16) with 65536. change (2 ^ 24) with 16777216.
  destruct (Z.ltb_spec n 128); [by left|right].
  destruct (Z.ltb_spec n 256).
  { exists [n]. repeat split; cbn; try lia. repeat constructor; unfold is_u8; lia. }
  destruct (Z.ltb_spec n 65536).
  { exists [n / 256; n mod 256]. repeat split; cbn; try lia. repeat constructor; unfold is_u8; lia. }
  destruct (Z.ltb_spec n 16777216).
  { exists [n / 65536; n / 256 mod 256; n mod 256]. repeat split; cbn; try lia. repeat constructor; unfold is_u8; lia. }
  exists [n / 16777216; n / 65536 mod 256; n / 256 mod 256; n mod 256].
  repeat split; cbn; try lia. repeat constructor; unfold is_u8; lia.
Qed.

Definition good_tag (t : Z) : Prop := 0 <= t < 256 /\ Z.land t 31 <> 31.

(** Reading at [off] an element that stands there. *)
Lemma der_next_enc b blen off tag v rest :
  0 <= off -> drop (Z.to_nat off) b = enc tag v ++ rest -> good_tag tag ->
  off + Z.of_nat (length (enc tag v)) <= blen <= Z.of_nat (length b) -> Z.of_nat (length b) < 2 ^ 32 - 8 ->
  exists h, der_next b blen off =
    Done (Some (mkDer tag (v ++ rest) (Z.of_nat (length v)) h, off + Z.of_nat (length (enc tag v)))).
Proof.
  intros Ho Hd [Ht Ht31] Hl Hmax. set (n := Z.of_nat (length v)).
  assert (length (enc tag v) = 1 + length (enc_len n) + length v)%nat as HL
    by (unfold enc; cbn [length]; rewrite length_app; fold n; lia).
  assert (0 <= n < 2 ^ 32) as Hn by (unfold n; lia).
  assert (forall k, at_ b (Z.to_nat off + k) = at_ (enc tag v ++ rest) k) as Hat by (intros; by rewrite <- at_drop, Hd).
  assert (forall k, drop (Z.to_nat off + k) b = drop k (enc tag v ++ rest)) as Hdr by (intros; by rewrite <- drop_drop, Hd).
  assert (forall hl, (2 <= hl)%nat -> Z.of_nat hl + n = Z.of_nat (length (enc tag v)) ->
    drop hl (enc tag v ++ rest) = v ++ rest -> exists h,
    (if u32 (blen - (off + Z.of_nat hl)) <? n then Done None
     else Done (Some (mkDer tag (drop (Z.to_nat (off + Z.of_nat hl)) b) n (u32 (off + Z.of_nat hl - off)),
                      u32 (off + Z.of_nat hl + n)))) =
    Done (Some (mkDer tag (v ++ rest) n h, off + Z.of_nat (length (enc tag v))))) as Hfin.
  { intros hl H2 Hhl Hdh. rewrite (u32_id (blen - _)) by (unfold is_u32; lia).
    destruct (Z.ltb_spec (blen - (off + Z.of_nat hl)) n); [lia|].
    exists (u32 (off + Z.of_nat hl - off)). rewrite (u32_id (off + Z.of_nat hl + n)) by (unfold is_u32; lia).
    replace (Z.to_nat (off + Z.of_nat hl)) with (Z.to_nat off + hl)%nat by lia. rewrite Hdr, Hdh.
    do 3 f_equal. lia. }
  pose proof (Hat 0%nat) as H0. rewrite Nat.add_0_r in H0. change (at_ (enc tag v ++ rest) 0) with tag in H0.
  pose proof (Hat 1%nat) as H1.
  unfold der_next. destruct (Z.leb_spec blen off); [lia|]. rewrite rd_in by lia. cbn [obind]. rewrite H0.
  destruct (Z.eqb_spec (Z.land tag 31) 31); [done|].
  assert (2 <= length (enc tag v))%nat as H2 by (destruct (enc_len_cases n Hn) as [[_ E]|(bs & E & _)]; rewrite E in HL; cbn [length] in HL; lia).
  rewrite (u32_id (off + 1)) by (unfold is_u32; lia). destruct (Z.leb_spec blen (off + 1)); [lia|].
  rewrite rd_in by lia. cbn [obind]. replace (Z.to_nat (off + 1)) with (Z.to_nat off + 1)%nat by lia. rewrite H1.
  rewrite (u32_id (off + 1 + 1)) by (unfold is_u32; lia).
  destruct (enc_len_cases n Hn) as [[Hs E]|(bs & E & Hbl & Hbb & Hfold)].
  - assert (at_ (enc tag v ++ rest) 1 = n) as -> by (unfold enc; fold n; rewrite E; done).
    assert (Z.land n 128 = 0) as ->.
    { apply Z.bits_inj'. intros i Hi. rewrite Z.land_spec, Z.bits_0. change 128 with (2 ^ 7). rewrite Z.pow2_bits_eqb by lia.
      destruct (Z.eqb_spec 7 i) as [<-|]; [|apply andb_false_r]. rewrite andb_true_r.
      destruct (Z.eq_dec n 0) as [->|]; [done|]. apply Z.bits_above_log2; [lia|]. apply Z.log2_lt_pow2; lia. }
    cbn [Z.eqb negb]. replace (off + 1 + 1) with (off + Z.of_nat 2) by lia. apply Hfin; [lia|rewrite HL, E; simpl; lia|].
    unfold enc. fold n. rewrite E. done.
  - set (k := length bs) in *.
    assert (at_ (enc tag v ++ rest) 1 = 128 + Z.of_nat k) as -> by (unfold enc; fold n; rewrite E; done).
    assert (Z.land (128 + Z.of_nat k) 128 = 128 /\ Z.land (128 + Z.of_nat k) 127 = Z.of_nat k) as [-> ->].
    { assert (k = 1 \/ k = 2 \/ k = 3 \/ k = 4)%nat as Hk by lia. destruct Hk as [->|[->|[->| ->]]]; done. }
    cbn [Z.eqb negb]. destruct (Z.eqb_spec (Z.of_nat k) 0); [lia|]. destruct (Z.ltb_spec 4 (Z.of_nat k)); [lia|].
    rewrite E in HL. cbn [length] in HL. fold k in HL.
    rewrite (u32_id (off + 1 + 1 + Z.of_nat k)) by (unfold is_u32; lia).
    destruct (Z.ltb_spec blen (off + 1 + 1 + Z.of_nat k)); [lia|]. cbn [orb]. rewrite Nat2Z.id. unfold k.
    rewrite (length_loop_fold bs b (off + 1 + 1) 0 (v ++ rest)); [|..].
    + rewrite Hfold. cbn [obind]. fold k. replace (off + 1 + 1 + Z.of_nat k) with (off + Z.of_nat (2 + k)) by lia.
      apply Hfin; [lia|lia|]. unfold enc. fold n. rewrite E. cbn [app drop Nat.add]. 
      rewrite <- app_assoc. unfold k. by rewrite drop_app_length.
    + replace (Z.to_nat (off + 1 + 1)) with (Z.to_nat off + 2)%nat by lia. rewrite Hdr. unfold enc. fold n. rewrite E.
      cbn [app drop]. by rewrite <- app_assoc.
    + done.
    + lia.
    + fold k. lia.
    + lia.
    + fold k. assert (k = 1 \/ k = 2 \/ k = 3 \/ k = 4)%nat as Hk by lia.
      destruct Hk as [->|[->|[->| ->]]]; cbn; lia.
Qed.

Lemma der_next_after pre tag v rest blen :
  good_tag tag -> Z.of_nat (length pre + length (enc tag v)) <= blen <= Z.of_nat (length (pre ++ enc tag v ++ rest)) ->
  Z.of_nat (length (pre ++ enc tag v ++ rest)) < 2 ^ 32 - 8 ->
  exists h, der_next (pre ++ enc tag v ++ rest) blen (Z.of_nat (length pre)) =
    Done (Some (mkDer tag (v ++ rest) (Z.of_nat (length v)) h, Z.of_nat (length pre + length (enc tag v)))).
Proof.
  intros Ht Hl Hmax.
  destruct (der_next_enc (pre ++ enc tag v ++ rest) blen (Z.of_nat (length pre)) tag v rest) as (h & E);
    [lia|by rewrite Nat2Z.id, drop_app_length|done|lia|done|].
  exists h. rewrite E. do 3 f_equal. lia.
Qed.

Lemma length_enc tag v : (length v + 2 <= length (enc tag v))%nat.
Proof.
  unfold enc. cbn [length]. rewrite length_app. unfold enc_len. repeat bcase; cbn [length]; lia.
Qed.

(** [der_next] reads back every encoded element, wherever it stands in
    the buffer and whichever of the five length forms it needs: its tag, its
    value and the offset behind it. *)
Theorem der_next_roundtrip pre tag v rest :
  good_tag tag -> Z.of_nat (length (pre ++ enc tag v ++ rest)) < 2 ^ 32 - 8 ->
  exists t, der_next (pre ++ enc tag v ++ rest) (Z.of_nat (length (pre ++ enc tag v ++ rest))) (Z.of_nat (length pre)) =
      Done (Some (t, Z.of_nat (length (pre ++ enc tag v)))) /\
    d_tag t = tag /\ take (Z.to_nat (d_len t)) (d_p t) = v.
Proof.
  intros Ht Hl.
  destruct (der_next_after pre tag v rest (Z.of_nat (length (pre ++ enc tag v ++ rest)))) as (h & E);
    [done|rewrite !length_app in *; lia|done|].
  rewrite E, length_app. eexists. split; [reflexivity|]. cbn [d_tag d_len d_p].
  split; [done|]. by rewrite Nat2Z.id, take_app_length.
Qed.

Lemma der_next_roundtrip_witness :
  exists t, der_next ([5; 0] ++ enc 4 [1; 2; 3] ++ [9]) 8 2 = Done (Some (t, 7)) /\
    d_tag t = 4 /\ take (Z.to_nat (d_len t)) (d_p t) = [1; 2; 3].
Proof. apply (der_next_roundtrip [5; 0] 4 [1; 2; 3] [9]); [by split; [lia|]|reflexivity]. Defined.

(** ** A certificate *)

(** A positive INTEGER with the bytes [m], the first of them not zero. *)
Definition magnitude (m : list Z) : Prop := bytes m /\ m <> [] /\ ch m <> 0.
Definition der_int (m : list Z) : list Z := if 128 <=? ch m then 0 :: m else m.

Definition rsa_key (m e : list Z) : list Z := enc 0x30 (enc 2 (der_int m) ++ enc 2 (der_int e)).
Definition spki (params m e : list Z) : list Z :=
  enc 0x30 (enc 0x30 (enc 6 OID_RSA_ENCRYPTION ++ params) ++ enc 3 (0 :: rsa_key m e)).

(** A field the loop steps over: not a SEQUENCE, or one that does not begin
    with a SEQUENCE. *)
Definition skipped (f : Z * list Z) : Prop :=
  let '(tag, v) := f in
  good_tag tag /\ (tag <> 0x30 \/ v = [] \/ exists t w r, v = enc t w ++ r /\ good_tag t /\ t <> 0x30).

Definition fields (fs : list (Z * list Z)) : list Z := concat (map (fun f => enc (fst f) (snd f)) fs).

Definition certificate (before : list (Z * list Z)) (params m e after sig : list Z) : list Z :=
  enc 0x30 (enc 0x30 (fields before ++ spki params m e ++ after) ++ sig).

Lemma land_high x : 0 <= x < 256 -> (Z.land x 128 =? 0) = (x <? 128).
Proof.
  intros Hx. change 128 with (2 ^ 7). destruct (Z.ltb_spec x (2 ^ 7)) as [Hlt|Hge].
  - apply Z.eqb_eq, Z.bits_inj'. intros i Hi. rewrite Z.land_spec, Z.bits_0, Z.pow2_bits_eqb by lia.
    destruct (Z.eqb_spec 7 i) as [<-|]; [|apply andb_false_r]. rewrite andb_true_r.
    destruct (Z.eq_dec x 0) as [->|]; [done|]. apply Z.bits_above_log2; [lia|]. apply Z.log2_lt_pow2; lia.
  - apply Z.eqb_neq. intros H. apply (f_equal (fun z => Z.testbit z 7)) in H.
    rewrite Z.land_spec, Z.pow2_bits_true, Z.bits_0, andb_true_r in H by lia.
    assert (Z.log2 x = 7) as E by (apply Z.log2_unique; lia). rewrite <- E, Z.bit_log2 in H by lia. done.
Qed.

Lemma strip_zeros_id fuel x v n : x <> 0 -> strip_zeros fuel (x :: v) n = Done (x :: v, n).
Proof.
  intros Hx. destruct fuel; cbn [strip_zeros]; (bcase; [|done]); rewrite rd_in by (cbn [length]; lia);
    cbn [obind]; change (at_ (x :: v) (Z.to_nat 0)) with x; by rewrite (proj2 (Z.eqb_neq _ _) Hx).
Qed.

Lemma int_bytes_der_int m rest h cap :
  magnitude m -> Z.of_nat (length m) <= cap ->
  int_bytes (mkDer 2 (der_int m ++ rest) (Z.of_nat (length (der_int m))) h) cap = Done (Some m).
Proof.
  intros (Hb & Hne & Hz) Hc. destruct m as [|x m]; [done|].
  change (ch (x :: m)) with x in Hz. apply Forall_cons in Hb as [Hx Hb]. unfold is_u8 in Hx. change (2 ^ 8) with 256 in Hx.
  assert (forall n : Z, n = Z.of_nat (length (x :: m)) ->
    obind (strip_zeros (Z.to_nat n) ((x :: m) ++ rest) n) (fun r => let '(v, n) := r in
      if (n =? 0) || (cap <? n) then Done None
      else if Z.of_nat (length v) <? n then Trap else Done (Some (take (Z.to_nat n) v))) = Done (Some (x :: m))) as Hfin.
  { intros n ->. cbn [app]. rewrite strip_zeros_id by done. cbn [obind].
    destruct (Z.eqb_spec (Z.of_nat (length (x :: m))) 0); [simpl in *; lia|].
    destruct (Z.ltb_spec cap (Z.of_nat (length (x :: m)))); [lia|]. cbn [orb].
    destruct (Z.ltb_spec (Z.of_nat (length (x :: m ++ rest))) (Z.of_nat (length (x :: m))));
      [cbn [length] in *; rewrite length_app in *; lia|].
    rewrite Nat2Z.id. change (x :: m ++ rest) with ((x :: m) ++ rest). by rewrite take_app_length. }
  unfold int_bytes, der_int. cbn [d_tag d_len d_p Z.eqb Pos.eqb negb orb]. change (ch (x :: m)) with x.
  destruct (Z.leb_spec 128 x).
  - destruct (Z.eqb_spec (Z.of_nat (length (0 :: x :: m))) 0); [simpl in *; lia|].
    rewrite rd_in by (cbn [app length]; lia). cbn [obind]. change (at_ ((0 :: x :: m) ++ rest) (Z.to_nat 0)) with 0.
    change (negb (Z.land 0 128 =? 0)) with false. cbv beta iota. rewrite Nat2Z.id. cbn [length strip_zeros].
    destruct (Z.ltb_spec 1 (Z.of_nat (S (S (length m))))); [|lia].
    rewrite rd_in by (cbn [app length]; lia). cbn [obind]. change (at_ ((0 :: x :: m) ++ rest) (Z.to_nat 0)) with 0.
    cbn [Z.eqb app tail]. specialize (Hfin (Z.of_nat (S (S (length m))) - 1) ltac:(cbn [length]; lia)).
    replace (Z.to_nat (Z.of_nat (S (S (length m))) - 1)) with (S (length m)) in Hfin by lia. exact Hfin.
  - destruct (Z.eqb_spec (Z.of_nat (length (x :: m))) 0); [simpl in *; lia|].
    rewrite rd_in by (cbn [app length]; lia). cbn [obind]. change (at_ ((x :: m) ++ rest) (Z.to_nat 0)) with x.
    rewrite land_high by lia. destruct (Z.ltb_spec x 128); [|lia]. cbn [negb]. by apply Hfin.
Qed.

(** An element at the front of the buffer, and one behind another. *)
Lemma der_next_front tag v rest blen :
  good_tag tag -> Z.of_nat (length (enc tag v)) <= blen <= Z.of_nat (length (enc tag v ++ rest)) ->
  Z.of_nat (length (enc tag v ++ rest)) < 2 ^ 32 - 8 ->
  exists h, der_next (enc tag v ++ rest) blen 0 =
    Done (Some (mkDer tag (v ++ rest) (Z.of_nat (length v)) h, Z.of_nat (length (enc tag v)))).
Proof. intros. apply (der_next_after [] tag v rest blen); done. Qed.

Ltac tags := split; [lia|vm_compute; discriminate].

Lemma same_bytes_refl p oid i n :
  (forall j, (i <= j < i + n)%nat -> at_ p j = at_ oid j /\ (j < length p)%nat) -> same_bytes p oid i n = Done true.
Proof.
  revert i; induction n as [|n IH]; intros i H; cbn [same_bytes]; [done|].
  destruct (H i ltac:(lia)) as [E Hi]. rewrite rd_in by lia. rewrite Nat2Z.id. cbn [obind]. rewrite E, Z.eqb_refl. cbn [negb].
  apply IH. intros; apply H; lia.
Qed.

Section Certificate.
Variables mod_cap exp_cap : Z.
Variables params m e : list Z.
Hypothesis Hm : magnitude m.
Hypothesis He : magnitude e.
Hypothesis Hml : Z.of_nat (length m) <= mod_cap.
Hypothesis Hel : Z.of_nat (length e) <= exp_cap.

Let alg := enc 6 OID_RSA_ENCRYPTION ++ params.
Let bits := 0 :: rsa_key m e.

Lemma read_key_spki rest h :
  Z.of_nat (length ((enc 0x30 alg ++ enc 3 bits) ++ rest)) < 2 ^ 32 - 8 ->
  read_key (mkDer 0x30 ((enc 0x30 alg ++ enc 3 bits) ++ rest) (Z.of_nat (length (enc 0x30 alg ++ enc 3 bits))) h)
    (Z.of_nat (length (enc 0x30 alg))) mod_cap exp_cap = Done (Some (m, e)).
Proof.
  intros Hmax. unfold read_key. cbn [d_p d_len]. rewrite <- app_assoc in *.
  pose proof (length_enc 3 bits). pose proof (length_enc 0x30 alg).
  destruct (der_next_after (enc 0x30 alg) 3 bits rest (Z.of_nat (length (enc 0x30 alg ++ enc 3 bits)))) as (h1 & ->);
    [tags|rewrite !length_app in *; lia|done|]. cbn [obind d_tag d_len d_p].
  assert (length bits = S (length (rsa_key m e)))%nat as Hbl by done.
  destruct (Z.ltb_spec (Z.of_nat (length bits)) 1); [lia|]. cbn [Z.eqb Pos.eqb negb].
  rewrite rd_in by (rewrite length_app; lia). cbn [obind]. change (at_ (bits ++ rest) (Z.to_nat 0)) with 0. cbn [Z.eqb negb].
  set (kv := enc 2 (der_int m) ++ enc 2 (der_int e)) in *.
  change (bits ++ rest) with ([0] ++ enc 0x30 kv ++ rest).
  assert (length (rsa_key m e) = length (enc 0x30 kv)) as Hkl by done.
  pose proof (length_enc 0x30 kv).
  destruct (der_next_after [0] 0x30 kv rest (Z.of_nat (length bits))) as (h2 & E2);
    [tags|cbn [app length]; rewrite !length_app in *; lia|cbn [app length]; rewrite !length_app in *; lia|].
  change (Z.of_nat (length [0])) with 1 in E2. rewrite E2. cbn [obind d_tag d_len d_p Z.eqb Pos.eqb negb].
  unfold kv. rewrite <- !app_assoc.
  pose proof (length_enc 2 (der_int m)). pose proof (length_enc 2 (der_int e)).
  assert (length kv = length (enc 2 (der_int m)) + length (enc 2 (der_int e)))%nat as Hkv by (apply length_app).
  destruct (der_next_front 2 (der_int m) (enc 2 (der_int e) ++ rest) (Z.of_nat (length kv))) as (h3 & E3);
    [tags|rewrite !length_app in *; lia|rewrite !length_app in *; lia|].
  fold kv. rewrite E3. cbn [obind d_tag Z.eqb Pos.eqb negb]. rewrite int_bytes_der_int by done. cbn [obind d_p d_len].
  destruct (der_next_after (enc 2 (der_int m)) 2 (der_int e) rest (Z.of_nat (length kv))) as (h4 & E4);
    [tags|rewrite !length_app in *; lia|rewrite !length_app in *; lia|].
  rewrite E4. cbn [obind d_tag Z.eqb Pos.eqb negb]. by rewrite int_bytes_der_int.
Qed.

Lemma try_child_spki rest h :
  Z.of_nat (length ((enc 0x30 alg ++ enc 3 bits) ++ rest)) < 2 ^ 32 - 8 ->
  try_child (mkDer 0x30 ((enc 0x30 alg ++ enc 3 bits) ++ rest) (Z.of_nat (length (enc 0x30 alg ++ enc 3 bits))) h)
    mod_cap exp_cap = Done (Some (Some (m, e))).
Proof.
  intros Hmax. unfold try_child. cbn [d_p d_len d_tag Z.eqb Pos.eqb negb]. pose proof Hmax as Hmax'. rewrite <- app_assoc in *.
  pose proof (length_enc 3 bits). pose proof (length_enc 0x30 alg).
  destruct (der_next_front 0x30 alg (enc 3 bits ++ rest) (Z.of_nat (length (enc 0x30 alg ++ enc 3 bits)))) as (h1 & ->);
    [tags|rewrite !length_app in *; lia|done|]. cbn [obind d_tag d_p d_len Z.eqb Pos.eqb negb].
  unfold alg at 1 2. pose proof (length_enc 6 OID_RSA_ENCRYPTION).
  assert (length alg = length (enc 6 OID_RSA_ENCRYPTION) + length params)%nat as Ha by (apply length_app).
  rewrite <- app_assoc.
  destruct (der_next_front 6 OID_RSA_ENCRYPTION (params ++ enc 3 bits ++ rest) (Z.of_nat (length alg))) as (h2 & E2);
    [tags|rewrite !length_app in *; lia|rewrite !length_app in *; lia|].
  fold alg. rewrite E2. cbn [obind]. unfold oid_eq. cbn [d_tag d_len d_p Z.eqb Pos.eqb negb orb].
  rewrite Z.eqb_refl. cbn [negb].
  rewrite same_bytes_refl by (intros j Hj; rewrite length_app; split; [apply at_app_l|]; lia). cbn [obind negb].
  pose proof (read_key_spki rest h) as HR. rewrite <- app_assoc in HR. rewrite HR by done. done.
Qed.

Lemma try_child_skipped tag v rest h :
  skipped (tag, v) -> Z.of_nat (length (v ++ rest)) < 2 ^ 32 - 8 ->
  try_child (mkDer tag (v ++ rest) (Z.of_nat (length v)) h) mod_cap exp_cap = Done None.
Proof.
  intros [Ht Hs] Hmax. unfold try_child. cbn [d_tag d_p d_len].
  destruct (Z.eqb_spec tag 0x30) as [->|]; [|done]. cbn [negb].
  destruct Hs as [Hs|[->|(t & w & r & -> & Hgt & Hne)]]; [done|done|].
  rewrite <- app_assoc in *. pose proof (length_enc t w).
  destruct (der_next_front t w (r ++ rest) (Z.of_nat (length (enc t w ++ r)))) as (h1 & ->);
    [done|rewrite !length_app in *; lia|done|]. cbn [obind d_tag].
  by rewrite (proj2 (Z.eqb_neq _ _) Hne).
Qed.

Lemma children_loop_finds before done_ after rest fuel h :
  Forall skipped before -> (length before < fuel)%nat ->
  Z.of_nat (length (done_ ++ fields before ++ spki params m e ++ after ++ rest)) < 2 ^ 32 - 8 ->
  children_loop fuel
    (mkDer 0x30 (done_ ++ fields before ++ spki params m e ++ after ++ rest)
       (Z.of_nat (length (done_ ++ fields before ++ spki params m e ++ after))) h)
    (Z.of_nat (length done_)) mod_cap exp_cap = Done (Some (m, e)).
Proof.
  intros Hb. revert done_ fuel. induction Hb as [|[tag v] before Hs Hb IH]; intros done_ fuel Hf Hmax;
    (destruct fuel as [|f]; [simpl in Hf; lia|]); cbn [children_loop d_p d_len].
  - cbn [fields map concat app] in *. unfold spki in Hmax |- *. fold alg bits in Hmax |- *.
    destruct (der_next_after done_ 0x30 (enc 0x30 alg ++ enc 3 bits) (after ++ rest)
      (Z.of_nat (length (done_ ++ enc 0x30 (enc 0x30 alg ++ enc 3 bits) ++ after)))) as (h1 & ->);
      [tags|rewrite !length_app in *; lia|done|]. cbn [obind].
    rewrite try_child_spki; [done|]. pose proof (length_enc 0x30 (enc 0x30 alg ++ enc 3 bits)).
    rewrite !length_app in *. lia.
  - change (fields ((tag, v) :: before)) with (enc tag v ++ fields before) in *. rewrite <- !app_assoc in *.
    pose proof (length_enc tag v).
    destruct (der_next_after done_ tag v (fields before ++ spki params m e ++ after ++ rest)
      (Z.of_nat (length (done_ ++ enc tag v ++ fields before ++ spki params m e ++ after)))) as (h1 & ->);
      [by destruct Hs|rewrite !length_app in *; lia|done|]. cbn [obind].
    rewrite try_child_skipped; [|done|rewrite !length_app in *; lia]. cbn [obind].
    specialize (IH (done_ ++ enc tag v) f ltac:(simpl in Hf; lia)).
    rewrite <- !app_assoc, (length_app done_ (enc tag v)) in IH. by apply IH.
Qed.

(** from a certificate whose TBSCertificate holds, after any fields that
    are not SEQUENCEs or do not begin with one (version, serial number,
    algorithm, names, validity), the SubjectPublicKeyInfo of an RSA key, the
    reader returns exactly that key's modulus and exponent, whatever else the
    certificate holds, when they fit the caller's buffers. *)
Theorem x509_reads_rsa_key before after sig trailer :
  Forall skipped before ->
  Z.of_nat (length (certificate before params m e after sig ++ trailer)) < 2 ^ 32 - 8 ->
  tls_x509_rsa_pubkey (certificate before params m e after sig ++ trailer)
    (Z.of_nat (length (certificate before params m e after sig ++ trailer))) mod_cap exp_cap = Done (Some (m, e)).
Proof.
  intros Hb Hmax. unfold tls_x509_rsa_pubkey, certificate in *.
  set (tbs := fields before ++ spki params m e ++ after) in *. set (c := enc 0x30 tbs ++ sig) in *.
  pose proof (length_enc 0x30 c). pose proof (length_enc 0x30 tbs).
  assert (length c = length (enc 0x30 tbs) + length sig)%nat by (apply length_app).
  destruct (der_next_front 0x30 c trailer (Z.of_nat (length (enc 0x30 c ++ trailer)))) as (h1 & ->);
    [tags|rewrite !length_app in *; lia|done|]. cbn [obind d_tag d_p d_len Z.eqb Pos.eqb negb].
  unfold c at 1. rewrite <- app_assoc.
  destruct (der_next_front 0x30 tbs (sig ++ trailer) (Z.of_nat (length c))) as (h2 & ->);
    [tags|rewrite !length_app in *; lia|rewrite !length_app in *; lia|].
  cbn [obind d_tag d_p d_len Z.eqb Pos.eqb negb]. rewrite Nat2Z.id. unfold tbs. rewrite <- !app_assoc.
  apply (children_loop_finds before [] after (sig ++ trailer)); [done| |].
  - assert (length before <= length (fields before))%nat.
    { clear. induction before as [|[t v] l IH]; [simpl; lia|]. change (fields ((t, v) :: l)) with (enc t v ++ fields l).
      rewrite length_app. pose proof (length_enc t v). simpl. lia. }
    rewrite !length_app. lia.
  - cbn [app]. unfold tbs in *. rewrite !length_app in *. lia.
Qed.
End Certificate.

Definition sample_cert : list Z :=
  certificate [(0xa0, [2; 1; 2]); (2, [1]); (0x30, enc 6 [1]); (0x30, enc 0x31 [7])] [5; 0] [0x81; 3; 5] [1; 0; 1] [] [1; 2].

Lemma x509_reads_rsa_key_witness :
  tls_x509_rsa_pubkey (sample_cert ++ []) (Z.of_nat (length (sample_cert ++ []))) 512 8 =
    Done (Some ([0x81; 3; 5], [1; 0; 1])).
Proof.
  refine (x509_reads_rsa_key 512 8 [5; 0] [0x81; 3; 5] [1; 0; 1] _ _ _ _
    [(0xa0, [2; 1; 2]); (2, [1]); (0x30, enc 6 [1]); (0x30, enc 0x31 [7])] [] [1; 2] [] _ _).
  - split; [repeat constructor; unfold is_u8; lia|]. split; [done|vm_compute; discriminate].
  - split; [repeat constructor; unfold is_u8; lia|]. split; [done|vm_compute; discriminate].
  - vm_compute. discriminate.
  - vm_compute. discriminate.
  - constructor; [split; [tags|left; lia]|]. constructor; [split; [tags|left; lia]|].
    constructor; [split; [tags|right; right; exists 6, [1], []; split; [done|]; split; [tags|lia]]|].
    constructor; [split; [tags|right; right; exists 0x31, [7], []; split; [done|]; split; [tags|lia]]|constructor].
  - vm_compute. reflexivity.
Defined.


(** of an INTEGER whose first byte has its high bit set, [int_bytes] drops
    that byte, which is the most significant one, not a sign byte. *)
Theorem int_bytes_drops_top_byte x y rest h cap :
  128 <= x < 256 -> 0 < y < 256 -> 1 <= cap ->
  int_bytes (mkDer 2 (x :: y :: rest) 2 h) cap = Done (Some [y]).
Proof.
  intros Hx Hy Hc. unfold int_bytes. cbn [d_tag d_len d_p Z.eqb Pos.eqb negb orb].
  rewrite rd_in by (cbn [length]; lia). cbn [obind]. change (at_ (x :: y :: rest) (Z.to_nat 0)) with x.
  rewrite land_high by lia. destruct (Z.ltb_spec x 128); [lia|]. cbn [negb tail].
  rewrite strip_zeros_id by lia. cbn [obind]. change (2 - 1) with 1. cbn [Z.eqb orb].
  destruct (Z.ltb_spec cap 1); [lia|]. destruct (Z.ltb_spec (Z.of_nat (length (y :: rest))) 1); [cbn [length] in *; lia|].
  done.
Qed.

Lemma int_bytes_drops_top_byte_witness : int_bytes (mkDer 2 [0x80; 1] 2 2) 8 = Done (Some [1]).
Proof. apply int_bytes_drops_top_byte; lia. Defined.
