(* ===== verification/Wav.v ===== *)
(** The RIFF/WAVE reader ([vnu/userspace/libwav/wav.c]).

    The file image is a list of bytes, of which the caller says [len] are
    there; a read outside the image is [Trap].  [size_t] and [uint32_t] are 32
    bits, and so is the arithmetic on offsets. *)
From S2P Require Import Prelude X509.
Local Open Scope vnu_scope.

Record wav_info := mkWav { sample_rate : Z; channels : Z; bits_per_sample : Z; data_off : Z; data_len : Z }.

Definition rd16 (b : list Z) (p : Z) : outcome Z :=
  let* x0 := rd b p in let* x1 := rd b (p + 1) in Done (Z.lor x0 (u32 (Z.shiftl x1 8))).

Definition rd32 (b : list Z) (p : Z) : outcome Z :=
  let* x0 := rd b p in let* x1 := rd b (p + 1) in let* x2 := rd b (p + 2) in let* x3 := rd b (p + 3) in
  Done (Z.lor (Z.lor (Z.lor x0 (u32 (Z.shiftl x1 8))) (u32 (Z.shiftl x2 16))) (u32 (Z.shiftl x3 24))).

(** The comparisons stop at the first difference. *)
Definition is_id (b : list Z) (p : Z) (id : list Z) : outcome bool :=
  let* x0 := rd b p in
  if negb (x0 =? at_ id 0) then Done false else
  let* x1 := rd b (p + 1) in
  if negb (x1 =? at_ id 1) then Done false else
  let* x2 := rd b (p + 2) in
  if negb (x2 =? at_ id 2) then Done false else
  let* x3 := rd b (p + 3) in Done (x3 =? at_ id 3).

(** The locals of [wav_parse] that the loop updates. *)
Record wstate := mkW { w_rate : Z; w_ch : Z; w_bits : Z; w_fmt : bool; w_data : option (Z * Z) }.

(** [inl] is a [return] from inside the loop. *)
Fixpoint chunks (fuel : nat) (b : list Z) (len off : Z) (w : wstate) : outcome (Z + wstate) :=
  if u32 (off + 8) <=? len then
    match fuel with
    | O => NoFuel
    | S f =>
        let* sz := rd32 b (off + 4) in
        let body := u32 (off + 8) in
        let sz := if len <? u32 (body + sz) then u32 (len - body) else sz in
        let next w := chunks f b len (u32 (u32 (body + sz) + Z.land sz 1)) w in
        let* fmt := is_id b off (cs "fmt ") in
        if fmt then
          if 16 <=? sz then
            let* tag := rd16 b body in
            let* c := rd16 b (body + 2) in
            let* rate := rd32 b (body + 4) in
            let* bits := rd16 b (body + 14) in
            if negb (tag =? 1) then Done (inl (-2))
            else next (mkW rate (u16 c) (u16 bits) true (w_data w))
          else next w
        else
          let* data := is_id b off (cs "data") in
          if data then Done (inr (mkW (w_rate w) (w_ch w) (w_bits w) (w_fmt w) (Some (body, sz))))
          else next w
    end
  else Done (inr w).

Definition finish (w : wstate) : Z + wav_info :=
  if negb (w_fmt w) then inl (-1)
  else
    match w_data w with
    | None => inl (-4)
    | Some (off, dlen) =>
        if dlen =? 0 then inl (-4)
        else if (w_rate w <? 8000) || (48000 <? w_rate w) then inl (-3)
        else if negb (w_ch w =? 1) && negb (w_ch w =? 2) then inl (-3)
        else if negb (w_bits w =? 8) && negb (w_bits w =? 16) then inl (-3)
        else inr (mkWav (w_rate w) (w_ch w) (w_bits w) off dlen)
    end.

(** [inl] is the negative code, [inr] is 0 with [*out] filled. *)
Definition wav_parse (fuel : nat) (buf : option (list Z)) (len : Z) : outcome (Z + wav_info) :=
  match buf with
  | None => Done (inl (-1))
  | Some b =>
      if len <? 12 then Done (inl (-1))
      else
        let* riff := is_id b 0 (cs "RIFF") in
        if negb riff then Done (inl (-1)) else
        let* wave := is_id b 8 (cs "WAVE") in
        if negb wave then Done (inl (-1)) else
        let* r := chunks fuel b len 12 (mkW 0 0 0 false None) in
        match r with
        | inl code => Done (inl code)
        | inr w => Done (finish w)
        end
  end.

(** * Chunks *)

(** Little-endian bytes. *)
Definition le16 (n : Z) : list Z := [n mod 2 ^ 8; n / 2 ^ 8].
Definition le32 (n : Z) : list Z := [n mod 2 ^ 8; n / 2 ^ 8 mod 2 ^ 8; n / 2 ^ 16 mod 2 ^ 8; n / 2 ^ 24].

Definition chunk (id body : list Z) : list Z :=
  id ++ le32 (Z.of_nat (length body)) ++ body ++ (if Z.odd (Z.of_nat (length body)) then [0] else []).

Definition fmt_body (rate ch bits extra : Z) (tail : list Z) : list Z :=
  le16 1 ++ le16 ch ++ le32 rate ++ le32 (rate * ch) ++ le16 extra ++ le16 bits ++ tail.

Example wav_ex :
  let f := cs "RIFF" ++ le32 0 ++ cs "WAVE" ++ chunk (cs "LIST") [1; 2; 3] ++
           chunk (cs "fmt ") (fmt_body 44100 2 16 4 []) ++ chunk (cs "data") [9; 9; 9; 9] in
  wav_parse 100 (Some f) (Z.of_nat (length f)) = Done (inr (mkWav 44100 2 16 56 4)).
Proof. vm_compute. reflexivity. Qed.

(** The numbers stored at [p]. *)
Definition val16 (b : list Z) (p : Z) : Z := at_ b (Z.to_nat p) + at_ b (Z.to_nat (p + 1)) * 2 ^ 8.
Definition val32 (b : list Z) (p : Z) : Z :=
  at_ b (Z.to_nat p) + at_ b (Z.to_nat (p + 1)) * 2 ^ 8 + at_ b (Z.to_nat (p + 2)) * 2 ^ 16 + at_ b (Z.to_nat (p + 3)) * 2 ^ 24.

Lemma rd16_val b p :
  bytes b -> 0 <= p -> p + 2 <= Z.of_nat (length b) -> rd16 b p = Done (val16 b p) /\ 0 <= val16 b p < 2 ^ 16.
Proof.
  intros Hb Hp Hl. unfold rd16, val16. rewrite !rd_in by lia. cbn [obind].
  pose proof (bytes_at b (Z.to_nat p) Hb) as H0. pose proof (bytes_at b (Z.to_nat (p + 1)) Hb) as H1. unfold is_u8 in *.
  rewrite u32_id by (rewrite Z.shiftl_mul_pow2 by lia; unfold is_u32; lia).
  rewrite or_shift by lia. split; [done|lia].
Qed.

Lemma rd32_val b p :
  bytes b -> 0 <= p -> p + 4 <= Z.of_nat (length b) -> rd32 b p = Done (val32 b p) /\ 0 <= val32 b p < 2 ^ 32.
Proof.
  intros Hb Hp Hl. unfold rd32, val32. rewrite !rd_in by lia. cbn [obind].
  pose proof (bytes_at b (Z.to_nat p) Hb) as H0. pose proof (bytes_at b (Z.to_nat (p + 1)) Hb) as H1.
  pose proof (bytes_at b (Z.to_nat (p + 2)) Hb) as H2. pose proof (bytes_at b (Z.to_nat (p + 3)) Hb) as H3. unfold is_u8 in *.
  rewrite !u32_id by (rewrite Z.shiftl_mul_pow2 by lia; unfold is_u32; lia).
  rewrite (or_shift _ _ 8), (or_shift _ _ 16), (or_shift _ _ 24) by lia. split; [done|lia].
Qed.

(** Four bytes spell an identifier. *)
Definition spells (b : list Z) (p : Z) (id : list Z) : bool :=
  (at_ b (Z.to_nat p) =? at_ id 0) && (at_ b (Z.to_nat (p + 1)) =? at_ id 1) &&
  (at_ b (Z.to_nat (p + 2)) =? at_ id 2) && (at_ b (Z.to_nat (p + 3)) =? at_ id 3).

Lemma is_id_spells b p id : 0 <= p -> p + 4 <= Z.of_nat (length b) -> is_id b p id = Done (spells b p id).
Proof.
  intros Hp Hl. unfold is_id, spells. rewrite !rd_in by lia. cbn [obind].
  destruct (at_ b (Z.to_nat p) =? at_ id 0); cbn [negb andb]; [|done].
  destruct (at_ b (Z.to_nat (p + 1)) =? at_ id 1); cbn [negb andb]; [|done].
  destruct (at_ b (Z.to_nat (p + 2)) =? at_ id 2); cbn [negb andb]; done.
Qed.

(** Where the chunk after the one at [off] begins. *)
Definition next_off (b : list Z) (len off : Z) : Z :=
  let sz := if len <? u32 (u32 (off + 8) + val32 b (off + 4)) then u32 (len - u32 (off + 8)) else val32 b (off + 4) in
  u32 (u32 (u32 (off + 8) + sz) + Z.land sz 1).

(** The offsets of the chunks the reader meets. *)
Inductive walk (b : list Z) (len : Z) : Z -> Prop :=
  | walk_first : walk b len 12
  | walk_next off : walk b len off -> off + 8 <= len -> walk b len (next_off b len off).

(** No chunk's declared end is beyond 4 GiB. *)
Definition no_wrap (b : list Z) (len : Z) : Prop :=
  forall off, walk b len off -> off + 8 <= len -> off + 8 + val32 b (off + 4) + 1 < 2 ^ 32.

Lemma land1 x : 0 <= x -> 0 <= Z.land x 1 <= 1.
Proof. intros Hx. change 1 with (Z.ones 1) at 1 2. rewrite Z.land_ones by lia. pose proof (Z.mod_pos_bound x (2 ^ 1)). lia. Qed.

Definition payload_ok (len : Z) (d : option (Z * Z)) : Prop :=
  match d with Some (o, n) => 20 <= o /\ 0 <= n /\ o + n <= len | None => True end.

Lemma chunks_safe b len fuel off w :
  bytes b -> len <= Z.of_nat (length b) -> len < 2 ^ 32 - 16 -> no_wrap b len -> walk b len off -> 12 <= off <= len + 1 ->
  len < off + 8 * Z.of_nat fuel + 8 -> payload_ok len (w_data w) ->
  exists r, chunks fuel b len off w = Done r /\ match r with inr w' => payload_ok len (w_data w') | inl c => c = -2 end.
Proof.
  intros Hb Hlb Hl Hnw. revert off w; induction fuel as [|f IH]; intros off w Hw Ho Hf Hp; cbn [chunks];
    rewrite (u32_id (off + 8)) by (unfold is_u32; lia).
  { destruct (Z.leb_spec (off + 8) len); [lia|]. by exists (inr w). }
  destruct (Z.leb_spec (off + 8) len) as [Hle|]; [|by exists (inr w)].
  pose proof (Hnw off Hw Hle) as Hsz. destruct (rd32_val b (off + 4) Hb ltac:(lia) ltac:(lia)) as [E32 Hv].
  rewrite E32. cbn [obind]. pose proof (walk_next b len off Hw Hle) as Hw'. revert Hw'. unfold next_off.
  rewrite !(u32_id (off + 8)) by (unfold is_u32; lia). set (v := val32 b (off + 4)) in *.
  rewrite !(u32_id (off + 8 + v)) by (unfold is_u32; lia).
  rewrite !(u32_id (len - (off + 8))) by (unfold is_u32; lia).
  set (sz := if len <? off + 8 + v then len - (off + 8) else v).
  assert (0 <= sz /\ off + 8 + sz <= len) as [Hs0 Hs1] by (unfold sz; destruct (Z.ltb_spec len (off + 8 + v)); lia).
  pose proof (land1 sz Hs0). rewrite (u32_id (off + 8 + sz)) by (unfold is_u32; lia).
  rewrite (u32_id (off + 8 + sz + Z.land sz 1)) by (unfold is_u32; lia). intros Hw'.
  assert (forall w, payload_ok len (w_data w) -> exists r, chunks f b len (off + 8 + sz + Z.land sz 1) w = Done r /\
    match r with inr w' => payload_ok len (w_data w') | inl c => c = -2 end) as Hnext
    by (intros w' Hp'; apply IH; done || lia).
  rewrite !is_id_spells by lia. cbn [obind]. destruct (spells b off (cs "fmt ")).
  - destruct (Z.leb_spec 16 sz); [|by apply Hnext].
    destruct (rd16_val b (off + 8) Hb ltac:(lia) ltac:(lia)) as [-> _].
    destruct (rd16_val b (off + 8 + 2) Hb ltac:(lia) ltac:(lia)) as [-> _].
    destruct (rd32_val b (off + 8 + 4) Hb ltac:(lia) ltac:(lia)) as [-> _].
    destruct (rd16_val b (off + 8 + 14) Hb ltac:(lia) ltac:(lia)) as [-> _]. cbn [obind].
    bcase; [by exists (inl (-2))|]. by apply Hnext.
  - destruct (spells b off (cs "data")); [|by apply Hnext]. eexists. split; [reflexivity|]. cbn. lia.
Qed.

(** C38: when no chunk header declares an end beyond 4 GiB, the reader comes to
    an end on any bytes without reading outside them, and what it accepts is
    playable: rate, channels and sample size in range, and a non-empty
    payload that lies inside the file. *)
Theorem wav_parse_safe b fuel :
  bytes b -> Z.of_nat (length b) < 2 ^ 32 - 16 -> no_wrap b (Z.of_nat (length b)) ->
  Z.of_nat (length b) < 8 * Z.of_nat fuel + 20 ->
  exists r, wav_parse fuel (Some b) (Z.of_nat (length b)) = Done r /\
    match r with
    | inl code => code = -1 \/ code = -2 \/ code = -3 \/ code = -4
    | inr i => 8000 <= sample_rate i <= 48000 /\ (channels i = 1 \/ channels i = 2) /\
        (bits_per_sample i = 8 \/ bits_per_sample i = 16) /\
        20 <= data_off i /\ 0 < data_len i /\ data_off i + data_len i <= Z.of_nat (length b)
    end.
Proof.
  intros Hb Hl Hnw Hf. unfold wav_parse. destruct (Z.ltb_spec (Z.of_nat (length b)) 12); [by exists (inl (-1)); auto|].
  rewrite !is_id_spells by lia. cbn [obind]. bcase; [by exists (inl (-1)); auto|]. bcase; [by exists (inl (-1)); auto|].
  destruct (chunks_safe b (Z.of_nat (length b)) fuel 12 (mkW 0 0 0 false None)) as (r & -> & Hr);
    [done|lia|lia|done|constructor|lia|lia|done|].
  cbn [obind]. destruct r as [c|w]; [subst c; exists (inl (-2)); auto|].
  exists (finish w). split; [done|]. unfold finish. bcase; [auto|].
  destruct (w_data w) as [[o n]|]; [|auto]. cbn in Hr.
  bcase; [auto|]. bcase; [auto|]. bcase; [auto|]. bcase; [auto|]. cbn.
  repeat split; lia.
Qed.

(** ** Reading back a file *)

Lemma at_off b off p k rest : 0 <= off -> drop (Z.to_nat off) b = p ++ rest -> (k < length p)%nat ->
  at_ b (Z.to_nat (off + Z.of_nat k)) = at_ p k.
Proof.
  intros Ho Hd Hk. replace (Z.to_nat (off + Z.of_nat k)) with (Z.to_nat off + k)%nat by lia.
  rewrite <- at_drop, Hd. by apply at_app_l.
Qed.

Lemma val32_le32 b p n rest :
  0 <= p -> drop (Z.to_nat p) b = le32 n ++ rest -> 0 <= n < 2 ^ 32 -> val32 b p = n.
Proof.
  intros Hp Hd Hn. unfold val32. pose proof (fun k => at_off b p (le32 n) k rest Hp Hd) as Ha.
  pose proof (Ha 0%nat ltac:(simpl; lia)) as H0. pose proof (Ha 1%nat ltac:(simpl; lia)) as H1.
  pose proof (Ha 2%nat ltac:(simpl; lia)) as H2. pose proof (Ha 3%nat ltac:(simpl; lia)) as H3.
  change (Z.of_nat 0) with 0 in H0. rewrite Z.add_0_r in H0.
  change (Z.of_nat 1) with 1 in H1. change (Z.of_nat 2) with 2 in H2. change (Z.of_nat 3) with 3 in H3.
  rewrite H0, H1, H2, H3. cbn [le32 at_ nth]. change (2 ^ 8) with 256. change (2 ^ 16) with 65536. change (2 ^ 24) with 16777216.
  pose proof (Z_div_mod_eq_full n 256). pose proof (Z_div_mod_eq_full (n / 256) 256). pose proof (Z_div_mod_eq_full (n / 65536) 256).
  assert (n / 65536 = n / 256 / 256) as E2 by (rewrite Z.div_div by lia; done).
  assert (n / 16777216 = n / 65536 / 256) as E3 by (rewrite Z.div_div by lia; done). lia.
Qed.

Lemma val16_le16 b p n rest :
  0 <= p -> drop (Z.to_nat p) b = le16 n ++ rest -> 0 <= n < 2 ^ 16 -> val16 b p = n.
Proof.
  intros Hp Hd Hn. unfold val16. pose proof (fun k => at_off b p (le16 n) k rest Hp Hd) as Ha.
  pose proof (Ha 0%nat ltac:(simpl; lia)) as H0. pose proof (Ha 1%nat ltac:(simpl; lia)) as H1.
  change (Z.of_nat 0) with 0 in H0. rewrite Z.add_0_r in H0. change (Z.of_nat 1) with 1 in H1.
  rewrite H0, H1. cbn [le16 at_ nth]. pose proof (Z_div_mod_eq_full n (2 ^ 8)). lia.
Qed.

Lemma spells_at b p id id' rest :
  0 <= p -> drop (Z.to_nat p) b = id ++ rest -> length id = 4%nat ->
  spells b p id' = (at_ id 0 =? at_ id' 0) && (at_ id 1 =? at_ id' 1) && (at_ id 2 =? at_ id' 2) && (at_ id 3 =? at_ id' 3).
Proof.
  intros Hp Hd Hl. unfold spells. pose proof (fun k => at_off b p id k rest Hp Hd) as Ha.
  pose proof (Ha 0%nat ltac:(lia)) as H0. pose proof (Ha 1%nat ltac:(lia)) as H1.
  pose proof (Ha 2%nat ltac:(lia)) as H2. pose proof (Ha 3%nat ltac:(lia)) as H3.
  change (Z.of_nat 0) with 0 in H0. rewrite Z.add_0_r in H0.
  change (Z.of_nat 1) with 1 in H1. change (Z.of_nat 2) with 2 in H2. change (Z.of_nat 3) with 3 in H3.
  by rewrite H0, H1, H2, H3.
Qed.

(** A chunk that is neither [fmt ] nor [data]. *)
Definition other (c : list Z * list Z) : Prop :=
  length (fst c) = 4%nat /\ fst c <> cs "fmt " /\ fst c <> cs "data".

Lemma four_eq (x y : list Z) :
  length x = 4%nat -> length y = 4%nat ->
  ((at_ x 0 =? at_ y 0) && (at_ x 1 =? at_ y 1) && (at_ x 2 =? at_ y 2) && (at_ x 3 =? at_ y 3)) = bool_decide (x = y).
Proof.
  destruct x as [|x0 [|x1 [|x2 [|x3 [|]]]]], y as [|y0 [|y1 [|y2 [|y3 [|]]]]]; try done. intros _ _. unfold at_. cbn [nth].
  case_bool_decide as E.
  - injection E as -> -> -> ->. by rewrite !Z.eqb_refl.
  - destruct (Z.eqb_spec x0 y0), (Z.eqb_spec x1 y1), (Z.eqb_spec x2 y2), (Z.eqb_spec x3 y3); try done. by subst.
Qed.

Section Chunk.
Variables (b : list Z) (off : Z) (id body rest : list Z).
Hypothesis Ho : 0 <= off.
Hypothesis Hd : drop (Z.to_nat off) b = chunk id body ++ rest.
Hypothesis Hid : length id = 4%nat.
Hypothesis Hb : bytes b.
Hypothesis Hlen : Z.of_nat (length b) < 2 ^ 31.

Lemma chunk_bounds :
  off + Z.of_nat (length (chunk id body)) <= Z.of_nat (length b) /\
  Z.of_nat (length (chunk id body)) = 8 + Z.of_nat (length body) + Z.land (Z.of_nat (length body)) 1.
Proof.
  pose proof (f_equal length Hd) as HL. rewrite length_drop, length_app in HL.
  assert (Z.of_nat (length (chunk id body)) = 8 + Z.of_nat (length body) + Z.land (Z.of_nat (length body)) 1) as E.
  { unfold chunk. rewrite !length_app. change (length (le32 _)) with 4%nat. rewrite Hid.
    change 1 with (Z.ones 1) at 1. rewrite Z.land_ones by lia. change (2 ^ 1) with 2. rewrite Zmod_odd.
    destruct (Z.odd (Z.of_nat (length body))); cbn [length]; lia. }
  split; [|done]. pose proof (land1 (Z.of_nat (length body)) ltac:(lia)). lia.
Qed.

Lemma body_at : drop (Z.to_nat (off + 8)) b = body ++ (if Z.odd (Z.of_nat (length body)) then [0] else []) ++ rest.
Proof.
  replace (Z.to_nat (off + 8)) with (Z.to_nat off + 8)%nat by lia. rewrite <- drop_drop, Hd. unfold chunk.
  destruct id as [|i0 [|i1 [|i2 [|i3 [|]]]]]; try done. cbn [app le32 drop]. by rewrite <- app_assoc.
Qed.

Lemma size_at : val32 b (off + 4) = Z.of_nat (length body).
Proof.
  pose proof chunk_bounds. pose proof (land1 (Z.of_nat (length body)) ltac:(lia)).
  apply (val32_le32 _ _ _ (body ++ (if Z.odd (Z.of_nat (length body)) then [0] else []) ++ rest)); [lia| |lia].
  replace (Z.to_nat (off + 4)) with (Z.to_nat off + 4)%nat by lia. rewrite <- drop_drop, Hd. unfold chunk.
  destruct id as [|i0 [|i1 [|i2 [|i3 [|]]]]]; try done. cbn [app drop]. by rewrite <- !app_assoc.
Qed.

(** One round of the loop at this chunk. *)
Lemma chunks_step f w :
  chunks (S f) b (Z.of_nat (length b)) off w =
    let next w := chunks f b (Z.of_nat (length b)) (off + Z.of_nat (length (chunk id body))) w in
    let sz := Z.of_nat (length body) in
    if bool_decide (id = cs "fmt ") then
      if 16 <=? sz then
        let* tag := rd16 b (off + 8) in
        let* c := rd16 b (off + 8 + 2) in
        let* rate := rd32 b (off + 8 + 4) in
        let* bits := rd16 b (off + 8 + 14) in
        if negb (tag =? 1) then Done (inl (-2)) else next (mkW rate (u16 c) (u16 bits) true (w_data w))
      else next w
    else if bool_decide (id = cs "data") then
      Done (inr (mkW (w_rate w) (w_ch w) (w_bits w) (w_fmt w) (Some (off + 8, sz))))
    else next w.
Proof.
  destruct chunk_bounds as [Hle HL]. pose proof (land1 (Z.of_nat (length body)) ltac:(lia)).
  cbn [chunks]. rewrite !(u32_id (off + 8)) by (unfold is_u32; lia).
  destruct (Z.leb_spec (off + 8) (Z.of_nat (length b))); [|lia].
  destruct (rd32_val b (off + 4) Hb ltac:(lia) ltac:(lia)) as [-> _]. cbn [obind]. rewrite size_at.
  rewrite !(u32_id (off + 8 + Z.of_nat (length body))) by (unfold is_u32; lia).
  destruct (Z.ltb_spec (Z.of_nat (length b)) (off + 8 + Z.of_nat (length body))); [lia|].
  rewrite !is_id_spells by lia. cbn [obind].
  assert (exists r, drop (Z.to_nat off) b = id ++ r) as [r Hr] by (rewrite Hd; unfold chunk; rewrite <- !app_assoc; eauto).
  rewrite !(spells_at b off id _ r), !four_eq by done.
  rewrite !(u32_id (off + 8 + Z.of_nat (length body))) by (unfold is_u32; lia).
  rewrite !(u32_id (off + 8 + Z.of_nat (length body) + Z.land (Z.of_nat (length body)) 1)) by (unfold is_u32; lia).
  replace (off + Z.of_nat (length (chunk id body))) with
    (off + 8 + Z.of_nat (length body) + Z.land (Z.of_nat (length body)) 1) by lia.
  done.
Qed.
End Chunk.

Definition chunk_list (cs_ : list (list Z * list Z)) : list Z := concat (map (fun c => chunk (fst c) (snd c)) cs_).

Lemma drop_chunk (b : list Z) off p rest :
  0 <= off -> drop (Z.to_nat off) b = p ++ rest -> drop (Z.to_nat (off + Z.of_nat (length p))) b = rest.
Proof.
  intros Ho Hd. replace (Z.to_nat (off + Z.of_nat (length p))) with (Z.to_nat off + length p)%nat by lia.
  by rewrite <- drop_drop, Hd, drop_app_length.
Qed.

Lemma chunks_skip b off cs_ rest fuel w :
  0 <= off -> drop (Z.to_nat off) b = chunk_list cs_ ++ rest -> Forall other cs_ -> bytes b ->
  Z.of_nat (length b) < 2 ^ 31 ->
  chunks (length cs_ + fuel) b (Z.of_nat (length b)) off w =
    chunks fuel b (Z.of_nat (length b)) (off + Z.of_nat (length (chunk_list cs_))) w.
Proof.
  intros Ho Hd Hc Hb Hl. revert off Ho Hd; induction Hc as [|[id body] l (Hid & Hn1 & Hn2) Hc IH]; intros off Ho Hd.
  - cbn. by rewrite Z.add_0_r.
  - change (chunk_list ((id, body) :: l)) with (chunk id body ++ chunk_list l) in *. rewrite <- app_assoc in Hd. cbn [fst snd] in *.
    cbn [length Nat.add]. rewrite (chunks_step b off id body (chunk_list l ++ rest)) by done. cbv zeta.
    rewrite !bool_decide_eq_false_2 by done.
    rewrite IH; [|lia|by apply (drop_chunk b off (chunk id body))]. f_equal. rewrite length_app. lia.
Qed.

Definition wav_file (n : Z) (before : list (list Z * list Z)) (rate ch bits align : Z) (tail : list Z)
    (between : list (list Z * list Z)) (payload rest : list Z) : list Z :=
  cs "RIFF" ++ le32 n ++ cs "WAVE" ++ chunk_list before ++ chunk (cs "fmt ") (fmt_body rate ch bits align tail) ++
  chunk_list between ++ chunk (cs "data") payload ++ rest.

(** The four fields of a [fmt ] body. *)
Lemma fmt_fields b p rate ch bits align tail rest :
  0 <= p -> drop (Z.to_nat p) b = fmt_body rate ch bits align tail ++ rest -> bytes b ->
  p + 16 <= Z.of_nat (length b) -> 0 <= ch < 2 ^ 16 -> 0 <= rate < 2 ^ 32 -> 0 <= bits < 2 ^ 16 ->
  rd16 b p = Done 1 /\ rd16 b (p + 2) = Done ch /\ rd32 b (p + 4) = Done rate /\ rd16 b (p + 14) = Done bits.
Proof.
  intros Hp Hd Hb Hl H1 H2 H3.
  assert (forall k, drop (Z.to_nat (p + Z.of_nat k)) b = drop k (fmt_body rate ch bits align tail ++ rest)) as Hk.
  { intros k. replace (Z.to_nat (p + Z.of_nat k)) with (Z.to_nat p + k)%nat by lia. by rewrite <- drop_drop, Hd. }
  pose proof (Hk 2%nat) as K2. pose proof (Hk 4%nat) as K4. pose proof (Hk 14%nat) as K14.
  change (Z.of_nat 2) with 2 in K2. change (Z.of_nat 4) with 4 in K4. change (Z.of_nat 14) with 14 in K14.
  destruct (rd16_val b p Hb ltac:(lia) ltac:(lia)) as [-> _].
  destruct (rd16_val b (p + 2) Hb ltac:(lia) ltac:(lia)) as [-> _].
  destruct (rd32_val b (p + 4) Hb ltac:(lia) ltac:(lia)) as [-> _].
  destruct (rd16_val b (p + 14) Hb ltac:(lia) ltac:(lia)) as [-> _].
  unfold fmt_body in *. rewrite <- !app_assoc in *.
  erewrite (val16_le16 b p 1) by (exact Hd || lia). erewrite (val16_le16 b (p + 2) ch) by (exact K2 || lia).
  erewrite (val32_le32 b (p + 4) rate) by (exact K4 || lia). erewrite (val16_le16 b (p + 14) bits) by (exact K14 || lia). done.
Qed.

(** a PCM file with supported parameters is read back exactly, whatever
    other chunks stand before, between and after: its rate, channels and
    sample size, and the place and length of its payload. *)
Theorem wav_parse_roundtrip n before rate ch bits align tail between payload rest fuel :
  let f := wav_file n before rate ch bits align tail between payload rest in
  bytes f -> Z.of_nat (length f) < 2 ^ 31 -> Forall other before -> Forall other between ->
  8000 <= rate <= 48000 -> ch = 1 \/ ch = 2 -> bits = 8 \/ bits = 16 -> payload <> [] ->
  (length before + length between + 2 <= fuel)%nat ->
  exists i, wav_parse fuel (Some f) (Z.of_nat (length f)) = Done (inr i) /\
    sample_rate i = rate /\ channels i = ch /\ bits_per_sample i = bits /\
    take (Z.to_nat (data_len i)) (drop (Z.to_nat (data_off i)) f) = payload.
Proof.
  intros f Hb Hl Hbef Hbet Hrate Hch Hbits Hpay Hf.
  pose proof (eq_refl : f = wav_file n before rate ch bits align tail between payload rest) as Ef. clearbody f.
  unfold wav_file in Ef.
  assert (Z.of_nat (length f) >= 12) as H12 by (rewrite Ef, !length_app; simpl; lia).
  unfold wav_parse. destruct (Z.ltb_spec (Z.of_nat (length f)) 12); [lia|].
  rewrite !is_id_spells by lia. cbn [obind].
  assert (spells f 0 (cs "RIFF") = true /\ spells f 8 (cs "WAVE") = true) as [-> ->] by (rewrite Ef; done). cbn [negb].
  assert (drop (Z.to_nat 12) f = chunk_list before ++ chunk (cs "fmt ") (fmt_body rate ch bits align tail) ++
    chunk_list between ++ chunk (cs "data") payload ++ rest) as H1 by (rewrite Ef; done). clear Ef.
  replace fuel with (length before + S (length between + S (fuel - length before - length between - 2)))%nat by lia.
  erewrite (chunks_skip f 12 before) by (exact H1 || done || lia).
  apply drop_chunk in H1; [|lia]. set (o1 := 12 + Z.of_nat (length (chunk_list before))) in *. assert (0 <= o1) by lia.
  destruct (chunk_bounds f o1 _ _ _ H1 ltac:(done)) as [B1 B2].
  pose proof (body_at f o1 _ _ _ ltac:(lia) H1 ltac:(done)) as Hbody.
  assert (16 <= Z.of_nat (length (fmt_body rate ch bits align tail))) as H16 by (unfold fmt_body; rewrite !length_app; simpl; lia).
  pose proof (land1 (Z.of_nat (length (fmt_body rate ch bits align tail))) ltac:(lia)).
  erewrite (chunks_step f o1 (cs "fmt ")) by (exact H1 || done || lia). cbv zeta.
  rewrite bool_decide_eq_true_2 by done. destruct (Z.leb_spec 16 (Z.of_nat (length (fmt_body rate ch bits align tail)))); [|lia].
  destruct (fmt_fields f (o1 + 8) rate ch bits align tail _ ltac:(lia) Hbody Hb ltac:(lia) ltac:(lia) ltac:(lia) ltac:(lia))
    as (-> & -> & -> & ->). cbn [obind Z.eqb Pos.eqb negb].
  apply drop_chunk in H1; [|lia]. set (o2 := o1 + Z.of_nat (length (chunk (cs "fmt ") _))) in *. assert (0 <= o2) by lia.
  erewrite (chunks_skip f o2 between) by (exact H1 || done || lia).
  apply drop_chunk in H1; [|lia]. set (o3 := o2 + Z.of_nat (length (chunk_list between))) in *. assert (0 <= o3) by lia.
  erewrite (chunks_step f o3 (cs "data")) by (exact H1 || done || lia). cbv zeta.
  rewrite bool_decide_eq_false_2, bool_decide_eq_true_2 by done. cbn [obind].
  unfold finish. cbn [w_fmt w_data w_rate w_ch w_bits negb].
  unfold u16. rewrite !Z.mod_small by lia.
  destruct payload as [|x pl]; [done|]. destruct (Z.eqb_spec (Z.of_nat (length (x :: pl))) 0); [simpl in *; lia|].
  destruct (Z.ltb_spec rate 8000); [lia|]. destruct (Z.ltb_spec 48000 rate); [lia|]. cbn [orb].
  assert (negb (ch =? 1) && negb (ch =? 2) = false) as -> by lia.
  assert (negb (bits =? 8) && negb (bits =? 16) = false) as -> by lia.
  eexists. split; [reflexivity|]. cbn [sample_rate channels bits_per_sample data_len data_off].
  split; [done|]. split; [done|]. split; [done|].
  rewrite (body_at f o3 _ _ _ ltac:(lia) H1 ltac:(done)), Nat2Z.id. by rewrite take_app_length.
Qed.

Lemma wav_parse_roundtrip_witness :
  let f := wav_file 0 [(cs "LIST", [1; 2; 3])] 44100 2 16 4 [] [(cs "fact", [0; 0])] [7; 8; 9] [] in
  exists i, wav_parse 9 (Some f) (Z.of_nat (length f)) = Done (inr i) /\
    sample_rate i = 44100 /\ channels i = 2 /\ bits_per_sample i = 16 /\
    take (Z.to_nat (data_len i)) (drop (Z.to_nat (data_off i)) f) = [7; 8; 9].
Proof.
  apply wav_parse_roundtrip; try done; try lia; try (by right).
  - by apply bytes_closed.
  - by repeat constructor.
Defined.

(** A file whose single chunk header is complete. *)
Definition head_file (id : list Z) (sz : Z) (body : list Z) : list Z :=
  cs "RIFF" ++ le32 0 ++ cs "WAVE" ++ id ++ le32 sz ++ body.

(** a chunk that declares 2^32 - 8 bytes (and is neither [fmt ] nor
    [data]) sends the reader back to itself: it never returns. *)
Theorem wav_parse_endless id body fuel :
  length id = 4%nat -> id <> cs "fmt " -> id <> cs "data" -> bytes id -> bytes body -> Z.of_nat (length body) < 2 ^ 31 ->
  let f := head_file id (2 ^ 32 - 8) body in wav_parse fuel (Some f) (Z.of_nat (length f)) = NoFuel.
Proof.
  intros Hid Hn1 Hn2 Hbi Hbb Hl f.
  assert (length f = 20 + length body)%nat as HL by (unfold f, head_file; rewrite !length_app, Hid; simpl; lia).
  assert (bytes f) as Hb.
  { unfold f, head_file. repeat (apply Forall_app; split); try done; by apply bytes_closed. }
  assert (drop (Z.to_nat 12) f = id ++ le32 (2 ^ 32 - 8) ++ body) as Hd by done.
  assert (drop (Z.to_nat 16) f = le32 (2 ^ 32 - 8) ++ body) as Hd4.
  { change (Z.to_nat 16) with (12 + 4)%nat. rewrite <- drop_drop. change 12%nat with (Z.to_nat 12).
    rewrite Hd, <- Hid. apply drop_app_length. }
  unfold wav_parse. destruct (Z.ltb_spec (Z.of_nat (length f)) 12); [lia|].
  rewrite !is_id_spells by lia. cbn [obind].
  assert (spells f 0 (cs "RIFF") = true /\ spells f 8 (cs "WAVE") = true) as [-> ->] by done. cbn [negb].
  generalize (mkW 0 0 0 false None). intros w. 
  assert (chunks fuel f (Z.of_nat (length f)) 12 w = NoFuel) as ->; [|done].
  induction fuel as [|k IH]; cbn [chunks]; change (u32 (12 + 8)) with 20;
    (destruct (Z.leb_spec 20 (Z.of_nat (length f))); [|lia]); [done|].
  destruct (rd32_val f (12 + 4) Hb ltac:(lia) ltac:(lia)) as [-> _]. cbn [obind].
  rewrite (val32_le32 f (12 + 4) (2 ^ 32 - 8) body) by (done || lia).
  change (u32 (20 + (2 ^ 32 - 8))) with 12. destruct (Z.ltb_spec (Z.of_nat (length f)) 12); [lia|].
  rewrite !is_id_spells by lia. cbn [obind]. rewrite !(spells_at f 12 id _ _ ltac:(lia) Hd Hid), !four_eq by done.
  rewrite !bool_decide_eq_false_2 by done. exact IH.
Qed.

Lemma wav_parse_endless_witness :
  let f := head_file (cs "LIST") (2 ^ 32 - 8) [] in wav_parse 1000 (Some f) (Z.of_nat (length f)) = NoFuel.
Proof.
  apply wav_parse_endless; try done; by apply bytes_closed.
Defined.

(** a [data] chunk whose declared end wraps around 4 GiB is accepted with
    a length far beyond the end of the file. *)
Theorem wav_parse_wraps sz k :
  2 ^ 32 - 44 <= sz < 2 ^ 32 - 8 ->
  let f := cs "RIFF" ++ le32 0 ++ cs "WAVE" ++ chunk (cs "fmt ") (fmt_body 44100 2 16 4 []) ++ cs "data" ++ le32 sz in
  exists i, wav_parse (S (S k)) (Some f) (Z.of_nat (length f)) = Done (inr i) /\
    data_len i = sz /\ Z.of_nat (length f) = 44.
Proof.
  intros Hsz f. assert (length f = 44)%nat as HL by done.
  assert (bytes f) as Hb.
  { apply Forall_app; split; [by apply bytes_closed|].
    apply Forall_app; split; [by apply bytes_closed|].
    apply Forall_app; split; [by apply bytes_closed|].
    apply Forall_app; split; [by apply bytes_closed|].
    apply Forall_app; split; [by apply bytes_closed|].
    unfold le32. pose proof (Z.mod_pos_bound sz (2 ^ 8)). pose proof (Z.mod_pos_bound (sz / 2 ^ 8) (2 ^ 8)).
    pose proof (Z.mod_pos_bound (sz / 2 ^ 16) (2 ^ 8)).
    assert (0 <= sz / 2 ^ 24 < 2 ^ 8) by (split; [apply Z.div_pos; lia|apply Z.div_lt_upper_bound; lia]).
    repeat constructor; unfold is_u8; lia. }
  unfold wav_parse. rewrite HL. change (Z.of_nat 44) with 44. cbn [Z.ltb Z.compare Pos.compare Pos.compare_cont].
  rewrite !is_id_spells by lia. cbn [obind].
  assert (spells f 0 (cs "RIFF") = true /\ spells f 8 (cs "WAVE") = true) as [-> ->] by done. cbn [negb].
  assert (drop (Z.to_nat 12) f = chunk (cs "fmt ") (fmt_body 44100 2 16 4 []) ++ cs "data" ++ le32 sz) as Hd by done.
  pose proof (chunks_step f 12 _ _ _ ltac:(lia) Hd ltac:(done) Hb ltac:(lia) (S k) (mkW 0 0 0 false None)) as Hst.
  rewrite HL in Hst. change (Z.of_nat 44) with 44 in Hst. rewrite Hst. clear Hst. cbv zeta.
  rewrite bool_decide_eq_true_2 by done.
  change (Z.of_nat (length (fmt_body 44100 2 16 4 []))) with 16. change (16 <=? 16) with true. cbv iota.
  assert (rd16 f (12 + 8) = Done 1 /\ rd16 f (12 + 8 + 2) = Done 2 /\ rd32 f (12 + 8 + 4) = Done 44100 /\
    rd16 f (12 + 8 + 14) = Done 16) as (-> & -> & -> & ->) by done.
  cbn [obind Z.eqb Pos.eqb negb]. change (12 + Z.of_nat (length (chunk (cs "fmt ") (fmt_body 44100 2 16 4 [])))) with 36.
  cbn [chunks]. change (u32 (36 + 8)) with 44. change (44 <=? 44) with true. cbv iota.
  destruct (rd32_val f (36 + 4) Hb ltac:(lia) ltac:(lia)) as [-> _]. cbn [obind].
  rewrite (val32_le32 f (36 + 4) sz []) by (done || lia).
  assert (u32 (44 + sz) = 44 + sz - 2 ^ 32) as ->.
  { unfold u32. symmetry. apply (Z.mod_unique_pos _ _ 1); lia. }
  destruct (Z.ltb_spec 44 (44 + sz - 2 ^ 32)); [lia|].
  assert (is_id f 36 (cs "fmt ") = Done false /\ is_id f 36 (cs "data") = Done true) as [-> ->] by done. cbn [obind].
  unfold finish. cbn [w_fmt w_data w_rate w_ch w_bits negb].
  destruct (Z.eqb_spec sz 0); [lia|]. eexists. split; [reflexivity|]. done.
Qed.

Lemma wav_parse_wraps_witness :
  let f := cs "RIFF" ++ le32 0 ++ cs "WAVE" ++ chunk (cs "fmt ") (fmt_body 44100 2 16 4 []) ++ cs "data" ++ le32 (2 ^ 32 - 16) in
  exists i, wav_parse 9 (Some f) (Z.of_nat (length f)) = Done (inr i) /\ data_len i = 2 ^ 32 - 16 /\ Z.of_nat (length f) = 44.
Proof. apply (wav_parse_wraps (2 ^ 32 - 16) 7). lia. Defined.

Definition small_file : list Z := head_file (cs "LIST") 2 [1; 2].

Lemma small_file_no_wrap : no_wrap small_file 22.
Proof.
  assert (forall off, walk small_file 22 off -> off = 12 \/ off = 22) as Hw.
  { induction 1 as [|off _ IH Hle]; [by left|]. destruct IH as [->| ->]; [right; vm_compute; reflexivity|lia]. }
  intros off Ho Hle. destruct (Hw off Ho) as [->| ->]; [vm_compute; reflexivity|lia].
Qed.

Lemma wav_parse_safe_witness :
  exists r, wav_parse 3 (Some small_file) 22 = Done r /\
    match r with
    | inl code => code = -1 \/ code = -2 \/ code = -3 \/ code = -4
    | inr i => 8000 <= sample_rate i <= 48000 /\ (channels i = 1 \/ channels i = 2) /\
        (bits_per_sample i = 8 \/ bits_per_sample i = 16) /\
        20 <= data_off i /\ 0 < data_len i /\ data_off i + data_len i <= 22
    end.
Proof.
  apply (wav_parse_safe small_file 3); [by apply bytes_closed|vm_compute; reflexivity|apply small_file_no_wrap|vm_compute; reflexivity].
Defined.
