(* ===== verification/BigNum.v ===== *)
(** The big integers of the TLS library and its RSA ([vlibc/src/tls/tls_bn.c]).

    A number is a list of 32-bit limbs, least significant first; an output
    array is the list the function returns.  A loop that walks arrays by index
    from a start position is a recursion on the lists from that position on.
    [Trap] is a store past the end of an array. *)
From Stdlib Require Import Zpow_facts.
From S2P Require Import Prelude.
Local Open Scope vnu_scope.

Definition TLS_RSA_MAX_MODULUS : nat := 512.
Definition BN_LIMBS : nat := 128.

Definition bn_zero (a : list Z) (n : nat) : list Z := replicate n 0 ++ drop n a.

(** [for (i = 0; i < blen; ++i)], from the byte [x] with [rest] after it. *)
Fixpoint from_loop (a : list Z) (n : nat) (b : list Z) : list Z :=
  match b with
  | [] => a
  | x :: rest =>
      let pos := u32 (Z.of_nat (length rest) * 8) in
      let limb := Z.to_nat (Z.shiftr pos 5) in
      let shift := Z.land pos 31 in
      from_loop (if (limb <? n)%nat then <[limb := Z.lor (at_ a limb) (u32 (Z.shiftl x shift))]> a else a) n rest
  end.

Definition bn_from_bytes (a : list Z) (n : nat) (b : list Z) : list Z := from_loop (bn_zero a n) n b.

(** The bytes [out[n - k .. n - 1]]. *)
Fixpoint to_loop (a : list Z) (na k : nat) : list Z :=
  match k with
  | O => []
  | S k' =>
      let pos := u32 (Z.of_nat k' * 8) in
      let limb := Z.to_nat (Z.shiftr pos 5) in
      let shift := Z.land pos 31 in
      (if (limb <? na)%nat then u8 (Z.shiftr (at_ a limb) shift) else 0) :: to_loop a na k'
  end.

Definition bn_to_bytes (a : list Z) (na : nat) (n : nat) : list Z := to_loop a na n.

Fixpoint bn_used (a : list Z) (n : nat) : nat :=
  match n with
  | O => O
  | S k => if at_ a k =? 0 then bn_used a k else S k
  end.

Fixpoint bn_cmp (a b : list Z) (n : nat) : Z :=
  match n with
  | O => 0
  | S i =>
      if negb (at_ a i =? at_ b i) then (if at_ b i <? at_ a i then 1 else -1)
      else bn_cmp a b i
  end.

Fixpoint sub_loop (a b : list Z) (n : nat) (borrow : Z) : list Z :=
  match n, a with
  | S k, ai :: a' =>
      let sub := u64 (ch b + borrow) in
      u32 (u64 (ai - sub)) :: sub_loop a' (tail b) k (if ai <? sub then 1 else 0)
  | _, _ => a
  end.

Definition bn_sub (a b : list Z) (n : nat) : list Z := sub_loop a b n 0.

(** [while ((v & 0x80000000) == 0) { v <<= 1; --bits; }]. *)
Fixpoint norm_loop (fuel : nat) (v bits : Z) : Z :=
  if Z.land v (2 ^ 31) =? 0 then
    match fuel with
    | O => bits
    | S f => norm_loop f (u32 (Z.shiftl v 1)) (bits - 1)
    end
  else bits.

Definition bn_bitlen (a : list Z) (n : nat) : Z :=
  let top := bn_used a n in
  if (top =? 0)%nat then 0 else norm_loop 32 (at_ a (top - 1)) (Z.of_nat top * 32).

Definition bn_getbit (a : list Z) (bit : Z) : Z :=
  Z.land (Z.shiftr (at_ a (Z.to_nat (Z.shiftr bit 5))) (Z.land bit 31)) 1.

(** [while (carry)]: the carry out of a row of [bn_mul]. *)
Fixpoint spill (p : list Z) (carry : Z) : outcome (list Z) :=
  if carry =? 0 then Done p
  else
    match p with
    | [] => Trap
    | x :: p' =>
        let cur := u64 (x + carry) in
        let* r := spill p' (Z.shiftr cur 32) in Done (u32 cur :: r)
    end.

(** [while (carry && k <= 2n)]: the list ends with limb [2n]. *)
Fixpoint spill_bounded (p : list Z) (carry : Z) : outcome (list Z) :=
  if carry =? 0 then Done p
  else
    match p with
    | [] => Done []
    | x :: p' =>
        let cur := u64 (x + carry) in
        let* r := spill_bounded p' (Z.shiftr cur 32) in Done (u32 cur :: r)
    end.

(** One row: [p[j] += x * b[j] + carry], then the carry by [last]. *)
Fixpoint row (last : list Z -> Z -> outcome (list Z)) (x : Z) (b p : list Z) (carry : Z) : outcome (list Z) :=
  match b with
  | [] => last p carry
  | bj :: b' =>
      match p with
      | [] => Trap
      | pj :: p' =>
          let cur := u64 (u64 (x * bj + pj) + carry) in
          let* r := row last x b' p' (Z.shiftr cur 32) in Done (u32 cur :: r)
      end
  end.

(** The rows of [bn_mul], [p] from limb [i] on. *)
Fixpoint mul_rows (a b p : list Z) : outcome (list Z) :=
  match a with
  | [] => Done p
  | ai :: a' =>
      let* p := (if ai =? 0 then Done p else row spill ai b p 0) in
      match p with
      | [] => Trap
      | x :: p' => let* r := mul_rows a' b p' in Done (x :: r)
      end
  end.

(** The first [alim + blim + 1] limbs of [prod]. *)
Definition bn_mul (a : list Z) (alim : nat) (b : list Z) (blim : nat) : outcome (list Z) :=
  mul_rows (take alim a) (take blim b) (replicate (alim + blim + 1) 0).

Fixpoint shl_loop (n : nat) (r : list Z) (carry : Z) : list Z :=
  match n, r with
  | S k, x :: r' => Z.lor (u32 (Z.shiftl x 1)) carry :: shl_loop k r' (Z.shiftr x 31)
  | _, _ => r
  end.

(** [for (i = bits; i > 0; --i)]. *)
Fixpoint div_loop (i : nat) (rem x m : list Z) (mlimbs : nat) : list Z :=
  match i with
  | O => rem
  | S bit =>
      let rem := shl_loop (S mlimbs) rem (bn_getbit x (Z.of_nat bit)) in
      let rem := if 0 <=? bn_cmp rem m (S mlimbs) then bn_sub rem m (S mlimbs) else rem in
      div_loop bit rem x m mlimbs
  end.

Definition bn_mod (x : list Z) (xlimbs : nat) (m : list Z) (mlimbs : nat) : list Z :=
  let bits := bn_bitlen x xlimbs in
  let rem := replicate (S BN_LIMBS) 0 in
  if (bn_used x xlimbs <=? mlimbs)%nat && (bn_cmp x m mlimbs <? 0) then
    let k := Nat.min (bn_used x xlimbs) mlimbs in take k x ++ drop k rem
  else div_loop (Z.to_nat bits) rem x m mlimbs.

(** Five rounds of [x *= 2 - m0 * x]. *)
Definition mprime_step (m0 x : Z) : Z := u32 (x * u32 (2 - u32 (m0 * x))).
Definition bn_mprime (m0 : Z) : Z := u32 (0 - Nat.iter 5 (mprime_step m0) 1).

(** [for (i = 0; i < n; ++i)] of the reduction, [t] from limb [i] on. *)
Fixpoint redc_rows (k : nat) (m t : list Z) (nprime : Z) : outcome (list Z) :=
  match k with
  | O => Done t
  | S k' =>
      let ui := u32 (ch t * nprime) in
      let* t := row spill_bounded ui m t 0 in
      match t with
      | [] => Trap
      | x :: t' => let* r := redc_rows k' m t' nprime in Done (x :: r)
      end
  end.

(** [t[0 .. n-1]] on return. *)
Definition bn_mont_mul (a b m : list Z) (n : nat) (nprime : Z) : outcome (list Z) :=
  let* t := bn_mul a n b n in
  let* t := redc_rows n (take n m) t nprime in
  let ql := at_ t (2 * n) in
  let q := take n (drop n t) in
  Done (if (ql =? 1) || (0 <=? bn_cmp q m n) then bn_sub q m n else q).

(** [for (bi = elen; bi > 0; --bi)]. *)
Fixpoint pow_loop (bi : nat) (r ar e m : list Z) (n : nat) (nprime : Z) : outcome (list Z) :=
  match bi with
  | O => Done r
  | S bit =>
      let* r := bn_mont_mul r r m n nprime in
      let* r := (if negb (bn_getbit e (Z.of_nat bit) =? 0) then bn_mont_mul r ar m n nprime else Done r) in
      pow_loop bit r ar e m n nprime
  end.

(** [junk] is what the stack holds where [m[BN_LIMBS]] lies. *)
Definition tls_modpow (junk : Z) (base exp mod_ : list Z) : outcome (list Z) :=
  let mod_ := take TLS_RSA_MAX_MODULUS mod_ in
  let zeros := replicate BN_LIMBS 0 in
  let m := bn_from_bytes (zeros ++ [junk]) BN_LIMBS mod_ in
  let mlimbs := bn_used m BN_LIMBS in
  if (mlimbs =? 0)%nat || (Z.land (at_ m 0) 1 =? 0) then Done (replicate (length mod_) 0)
  else
    let n := mlimbs in
    let nprime := bn_mprime (at_ m 0) in
    let e := bn_from_bytes zeros BN_LIMBS exp in
    let elen := bn_bitlen e BN_LIMBS in
    let b := bn_from_bytes zeros BN_LIMBS base in
    let b := if 0 <=? bn_cmp b m mlimbs then take BN_LIMBS (bn_mod b BN_LIMBS m mlimbs) else b in
    let xr := <[(2 * n)%nat := 1]> (replicate (2 * BN_LIMBS + 2) 0) in
    let r2 := bn_mod xr (2 * n + 1) m mlimbs in
    let one := <[0%nat := 1]> zeros in
    let* ar := bn_mont_mul b r2 m n nprime in
    let* r := bn_mont_mul one r2 m n nprime in
    let* r := pow_loop (Z.to_nat elen) r ar e m n nprime in
    let* r := bn_mont_mul r one m n nprime in
    Done (bn_to_bytes r n (length mod_)).

Definition pad_byte (i : nat) : Z := u8 (1 + Z.land (u32 (Z.of_nat i * 37 + 11)) 0xFE).

(** [None] is -1. *)
Definition tls_rsa_encrypt_pkcs1 (junk : Z) (n m : list Z) : outcome (option (list Z)) :=
  let nlen := length n in
  let mlen := length m in
  if (TLS_RSA_MAX_MODULUS <? nlen)%nat || (nlen <? 12)%nat then Done None
  else if (nlen - 11 <? mlen)%nat then Done None
  else
    let pslen := (nlen - mlen - 3)%nat in
    let block := 0 :: 2 :: map pad_byte (seq 0 pslen) ++ 0 :: m in
    let* out := tls_modpow junk block [1; 0; 1] n in Done (Some out).

(** [while (i < nlen && block[i] != 0) ++i], the number of steps. *)
Fixpoint pad_len (b : list Z) : nat :=
  match b with
  | x :: b' => if x =? 0 then O else S (pad_len b')
  | [] => O
  end.

Definition tls_rsa_decrypt_pkcs1 (junk : Z) (n d input : list Z) : outcome (option (list Z)) :=
  let nlen := length n in
  if (TLS_RSA_MAX_MODULUS <? nlen)%nat || (nlen <? 12)%nat then Done None
  else
    let* block := tls_modpow junk (take nlen input) d n in
    if negb (at_ block 0 =? 0) || negb (at_ block 1 =? 2) then Done None
    else
      let i := (2 + pad_len (drop 2 block))%nat in
      if (i =? nlen)%nat || (i - 2 <? 8)%nat then Done None
      else
        let i := S i in
        if (nlen <=? i)%nat then Done None else Done (Some (drop i block)).

Example modpow_ex :
  tls_modpow 7 [0x12; 0x34] [3] [1; 0; 0; 0; 0; 0; 0x0f] = Done [0; 0; 23; 143; 172; 133; 64].
Proof. vm_compute. reflexivity. Qed.

(** * Values *)

Abbreviation B := (2 ^ 32).
Definition limbs (a : list Z) : Prop := Forall is_u32 a.

Fixpoint bval (a : list Z) : Z :=
  match a with
  | [] => 0
  | x :: a' => x + B * bval a'
  end.

Lemma B_pos n : 0 < B ^ Z.of_nat n.
Proof. apply Z.pow_pos_nonneg; lia. Qed.

Lemma B_succ n : B ^ Z.of_nat (S n) = B * B ^ Z.of_nat n.
Proof. rewrite Nat2Z.inj_succ, Z.pow_succ_r by lia. done. Qed.

Lemma bval_bound a : limbs a -> 0 <= bval a < B ^ Z.of_nat (length a).
Proof.
  induction 1 as [|x a Hx Ha IH]; [cbn; lia|]. cbn [length bval]. rewrite B_succ. unfold is_u32 in Hx. nia.
Qed.

Lemma bval_app a b : bval (a ++ b) = bval a + B ^ Z.of_nat (length a) * bval b.
Proof.
  induction a as [|x a IH]; [cbn [app bval length]; lia|]. cbn [app bval length]. rewrite IH, B_succ. ring.
Qed.

Lemma bval_zeros n : bval (replicate n 0) = 0.
Proof. induction n as [|n IH]; [done|]. cbn [replicate bval]. lia. Qed.

Lemma at_zeros n i : at_ (replicate n 0) i = 0.
Proof. unfold at_. revert i; induction n as [|n IH]; intros [|i]; cbn; auto. Qed.

Lemma limbs_zeros n : limbs (replicate n 0).
Proof. apply Forall_replicate. unfold is_u32. lia. Qed.

Lemma limbs_at a i : limbs a -> is_u32 (at_ a i).
Proof.
  intros H. destruct (decide (i < length a)%nat).
  - eapply Forall_lookup_1; [exact H|]. apply lookup_at. lia.
  - rewrite at_ge by lia. unfold is_u32. lia.
Qed.

Lemma bval_take_S a n : bval (take (S n) a) = bval (take n a) + at_ a n * B ^ Z.of_nat n.
Proof.
  destruct (decide (n < length a)%nat) as [Hn|Hn].
  - rewrite (take_S_r _ _ (at_ a n)) by (apply lookup_at; lia). rewrite bval_app, length_take. cbn [bval].
    rewrite Nat.min_l by lia. ring.
  - rewrite !firstn_all2 by lia. rewrite at_ge by lia. ring.
Qed.

Lemma limbs_take a n : limbs a -> limbs (take n a).
Proof. apply Forall_take. Qed.
Lemma limbs_drop a n : limbs a -> limbs (drop n a).
Proof. apply Forall_drop. Qed.

Lemma bval_take_bound a n : limbs a -> 0 <= bval (take n a) < B ^ Z.of_nat n.
Proof.
  intros H. pose proof (bval_bound _ (limbs_take a n H)) as Hb. rewrite length_take in Hb.
  pose proof (Z.pow_le_mono_r B (Z.of_nat (Nat.min n (length a))) (Z.of_nat n) ltac:(lia) ltac:(lia)). lia.
Qed.

Lemma bval_split a n : (n <= length a)%nat -> bval a = bval (take n a) + B ^ Z.of_nat n * bval (drop n a).
Proof. intros H. rewrite <- (take_drop n a) at 1. rewrite bval_app, length_take, Nat.min_l by lia. done. Qed.

(** A limb is a digit of the value. *)
Lemma limb_digit a i : limbs a -> at_ a i = bval a / B ^ Z.of_nat i mod B.
Proof.
  intros H. revert i; induction H as [|x a Hx Ha IH]; intros i.
  - rewrite at_nil. cbn [bval]. by rewrite Z.div_0_l, Z.mod_0_l by (pose proof (B_pos i); lia).
  - unfold is_u32 in Hx. pose proof (bval_bound a Ha). destruct i as [|i].
    + change (B ^ Z.of_nat 0) with 1. rewrite Z.div_1_r. cbn [bval]. change (at_ (x :: a) 0) with x.
      rewrite Z.mul_comm, Z_mod_plus_full, Z.mod_small by lia. done.
    + rewrite at_cons_S, IH, B_succ, <- Z.div_div by (pose proof (B_pos i); lia). cbn [bval].
      do 2 f_equal. rewrite Z.mul_comm, Z.div_add by lia. rewrite Z.div_small by lia. lia.
Qed.

Lemma mod_digit h y M : 0 <= h < B -> 0 < M -> (h + B * y) mod (B * M) = h + B * (y mod M).
Proof.
  intros Hh HM. symmetry. apply (Z.mod_unique_pos _ _ (y / M)).
  - pose proof (Z.mod_pos_bound y M HM). nia.
  - pose proof (Z_div_mod_eq_full y M). nia.
Qed.

(** ** Comparison and subtraction *)

Lemma bn_cmp_spec a b n :
  limbs a -> limbs b ->
  bn_cmp a b n = match bval (take n a) ?= bval (take n b) with Eq => 0 | Lt => -1 | Gt => 1 end.
Proof.
  intros Ha Hb. induction n as [|n IH]; [done|]. cbn [bn_cmp]. rewrite !bval_take_S.
  pose proof (bval_take_bound a n Ha). pose proof (bval_take_bound b n Hb). pose proof (B_pos n).
  destruct (Z.eqb_spec (at_ a n) (at_ b n)) as [->|Hne]; cbn [negb].
  - rewrite IH, !(Z.add_comm (bval _)). by rewrite Z.add_compare_mono_l.
  - destruct (Z.ltb_spec (at_ b n) (at_ a n)); symmetry.
    + replace (_ ?= _) with Gt; [done|]. symmetry. apply Z.compare_gt_iff. nia.
    + replace (_ ?= _) with Lt; [done|]. symmetry. apply Z.compare_lt_iff. nia.
Qed.

Lemma bn_cmp_ge a b n : limbs a -> limbs b -> (0 <=? bn_cmp a b n) = (bval (take n b) <=? bval (take n a)).
Proof.
  intros. rewrite bn_cmp_spec by done. destruct (Z.compare_spec (bval (take n a)) (bval (take n b)));
    destruct (Z.leb_spec (bval (take n b)) (bval (take n a))); lia || done.
Qed.

Lemma bn_cmp_lt a b n : limbs a -> limbs b -> (bn_cmp a b n <? 0) = (bval (take n a) <? bval (take n b)).
Proof.
  intros. rewrite bn_cmp_spec by done. destruct (Z.compare_spec (bval (take n a)) (bval (take n b)));
    destruct (Z.ltb_spec (bval (take n a)) (bval (take n b))); lia || done.
Qed.

Lemma sub_loop_spec a b n bor :
  limbs a -> limbs b -> (n <= length a)%nat -> 0 <= bor <= 1 ->
  limbs (sub_loop a b n bor) /\ length (sub_loop a b n bor) = length a /\
  drop n (sub_loop a b n bor) = drop n a /\
  bval (take n (sub_loop a b n bor)) = (bval (take n a) - bval (take n b) - bor) mod B ^ Z.of_nat n.
Proof.
  intros Ha. revert b n bor; induction Ha as [|x a Hx Ha IH]; intros b n bor Hb Hn Hbor.
  - destruct n; [|simpl in Hn; lia]. cbn. split; [constructor|]. split; [done|]. split; [done|].
    rewrite Z.mod_1_r. done.
  - destruct n as [|n]; cbn [sub_loop].
    { split; [by constructor|]. split; [done|]. split; [done|]. change (B ^ Z.of_nat 0) with 1. by rewrite Z.mod_1_r. }
    assert (is_u32 (ch b)) as Hc by (by apply limbs_at). unfold is_u32 in *.
    assert (limbs (tail b)) as Hb' by (destruct b; [done|]; by apply Forall_cons in Hb as [_ ?]).
    rewrite (u64_id (ch b + bor)) by lia.
    set (bor' := if x <? ch b + bor then 1 else 0).
    destruct (IH (tail b) n bor' Hb' ltac:(simpl in Hn; lia) ltac:(unfold bor'; bcase; lia)) as (H1 & H2 & H3 & H4).
    assert (u32 (u64 (x - (ch b + bor))) = x - ch b - bor + B * bor') as Hh.
    { unfold u32, u64, bor'. rewrite Z.mod_mod_divide by (by exists (2 ^ 32)).
      symmetry. destruct (Z.ltb_spec x (ch b + bor)).
      - apply (Z.mod_unique_pos _ _ (-1)); lia.
      - apply (Z.mod_unique_pos _ _ 0); lia. }
    rewrite Hh. split; [constructor; [unfold is_u32, bor' in *; bcase; lia|done]|].
    split; [simpl; by rewrite H2|]. split; [done|]. cbn [take bval]. rewrite H4, B_succ.
    rewrite <- mod_digit by (apply B_pos || (unfold bor'; bcase; lia)). f_equal.
    assert (bval (take (S n) b) = ch b + B * bval (take n (tail b))) as ->.
    { destruct b as [|y b]; [rewrite !firstn_nil; done|]. done. }
    ring.
Qed.

Lemma bn_sub_spec a b n :
  limbs a -> limbs b -> (n <= length a)%nat ->
  limbs (bn_sub a b n) /\ length (bn_sub a b n) = length a /\ drop n (bn_sub a b n) = drop n a /\
  bval (take n (bn_sub a b n)) = (bval (take n a) - bval (take n b)) mod B ^ Z.of_nat n.
Proof.
  intros Ha Hb Hn. destruct (sub_loop_spec a b n 0 Ha Hb Hn ltac:(lia)) as (H1 & H2 & H3 & H4).
  rewrite Z.sub_0_r in H4. done.
Qed.

(** ** Multiplication *)

(** The call ends with a list as long as [p], of limbs, with the value [v]. *)
Definition yields (m : outcome (list Z)) (p : list Z) (v : Z) : Prop :=
  exists r, m = Done r /\ limbs r /\ length r = length p /\ bval r = v.

Lemma split64 x : 0 <= x < 2 ^ 64 -> x = u32 x + B * Z.shiftr x 32 /\ 0 <= Z.shiftr x 32 < B.
Proof.
  intros Hx. rewrite Z.shiftr_div_pow2 by lia. unfold u32. pose proof (Z_div_mod_eq_full x B).
  split; [lia|]. split; [apply Z.div_pos; lia|apply Z.div_lt_upper_bound; lia].
Qed.

Lemma yields_cons m p x y v :
  is_u32 y -> yields m p v -> yields (let* r := m in Done (y :: r)) (x :: p) (y + B * v).
Proof.
  intros Hy (r & -> & Hr & Hl & Hv). exists (y :: r). split; [done|]. split; [by constructor|].
  split; [simpl; by rewrite Hl|]. cbn [bval]. by rewrite Hv.
Qed.

(** The value of the tail fits when the whole does. *)
Lemma fits_tail (p : list Z) h v : 0 <= h -> h + B * v < B ^ Z.of_nat (S (length p)) -> v < B ^ Z.of_nat (length p).
Proof. rewrite B_succ. intros. pose proof (B_pos (length p)). nia. Qed.

Definition spills (last : list Z -> Z -> outcome (list Z)) : Prop :=
  forall p c, limbs p -> 0 <= c < B -> bval p + c < B ^ Z.of_nat (length p) -> yields (last p c) p (bval p + c).

Lemma spill_spec : spills spill.
Proof.
  intros p c Hp. revert c; induction Hp as [|x p Hx Hp IH]; intros c Hc Hf; cbn [spill];
    (destruct (Z.eqb_spec c 0) as [->|Hne]; [eexists; split; [reflexivity|]; split; [by try constructor|split; [done|lia]]|]).
  - cbn in Hf. lia.
  - unfold is_u32 in Hx. rewrite (u64_id (x + c)) by lia. destruct (split64 (x + c) ltac:(lia)) as [E Hs].
    cbn [length bval] in *.
    replace (x + B * bval p + c) with (u32 (x + c) + B * (bval p + Z.shiftr (x + c) 32)) by lia.
    apply yields_cons; [apply u32_range|]. apply IH; [lia|].
    apply (fits_tail p (u32 (x + c))); [apply u32_range|]. lia.
Qed.

Lemma spill_bounded_spec : spills spill_bounded.
Proof.
  intros p c Hp. revert c; induction Hp as [|x p Hx Hp IH]; intros c Hc Hf; cbn [spill_bounded];
    (destruct (Z.eqb_spec c 0) as [->|Hne]; [eexists; split; [reflexivity|]; split; [by try constructor|split; [done|lia]]|]).
  - cbn in Hf. lia.
  - unfold is_u32 in Hx. rewrite (u64_id (x + c)) by lia. destruct (split64 (x + c) ltac:(lia)) as [E Hs].
    cbn [length bval] in *.
    replace (x + B * bval p + c) with (u32 (x + c) + B * (bval p + Z.shiftr (x + c) 32)) by lia.
    apply yields_cons; [apply u32_range|]. apply IH; [lia|].
    apply (fits_tail p (u32 (x + c))); [apply u32_range|]. lia.
Qed.

Lemma row_spec last x b p c :
  spills last -> limbs b -> limbs p -> (length b <= length p)%nat -> 0 <= x < B -> 0 <= c < B ->
  bval p + x * bval b + c < B ^ Z.of_nat (length p) -> yields (row last x b p c) p (bval p + x * bval b + c).
Proof.
  intros Hlast Hb. revert p c; induction Hb as [|y b Hy Hb IH]; intros p c Hp Hl Hx Hc Hf; cbn [row].
  - cbn [bval] in *. rewrite Z.mul_0_r, Z.add_0_r in *. by apply Hlast.
  - destruct Hp as [|z p Hz Hp]; [simpl in Hl; lia|]. unfold is_u32 in Hy, Hz. cbn [bval length] in *.
    assert (0 <= x * y <= (B - 1) * (B - 1)) by nia.
    rewrite (u64_id (x * y + z)) by lia. rewrite (u64_id (x * y + z + c)) by lia.
    destruct (split64 (x * y + z + c) ltac:(lia)) as [E Hs].
    replace (z + B * bval p + x * (y + B * bval b) + c) with
      (u32 (x * y + z + c) + B * (bval p + x * bval b + Z.shiftr (x * y + z + c) 32)) by lia.
    apply yields_cons; [apply u32_range|]. apply IH; try done; [lia|].
    apply (fits_tail p (u32 (x * y + z + c))); [apply u32_range|]. lia.
Qed.

Lemma mul_rows_spec a b p :
  limbs a -> limbs b -> limbs p -> (length a + length b <= length p)%nat ->
  bval p + bval a * bval b < B ^ Z.of_nat (length p) -> yields (mul_rows a b p) p (bval p + bval a * bval b).
Proof.
  intros Ha Hb. revert p; induction Ha as [|x a Hx Ha IH]; intros p Hp Hl Hf; cbn [mul_rows].
  { exists p. split; [done|]. split; [done|]. split; [done|]. cbn [bval]. lia. }
  unfold is_u32 in Hx. cbn [length bval] in *. pose proof (bval_bound a Ha). pose proof (bval_bound b Hb).
  assert (yields (if x =? 0 then Done p else row spill x b p 0) p (bval p + x * bval b)) as (r & -> & Hr & Hrl & Hrv).
  { destruct (Z.eqb_spec x 0) as [->|].
    - exists p. split; [done|]. split; [done|]. split; [done|lia].
    - rewrite <- (Z.add_0_r (bval p + x * bval b)).
      apply row_spec; [apply spill_spec|done|done|lia|lia|lia|nia]. }
  cbn [obind]. destruct Hr as [|y r Hy Hr]; [simpl in Hrl; lia|]. destruct p as [|z p]; [simpl in Hrl; lia|].
  cbn [length bval] in *. injection Hrl as Hrl.
  replace (z + B * bval p + (x + B * bval a) * bval b) with (y + B * (bval r + bval a * bval b)) by lia.
  apply yields_cons; [done|]. destruct (IH r Hr ltac:(lia)) as (r' & E & H1 & H2 & H3).
  { rewrite Hrl. apply (fits_tail p y); [unfold is_u32 in Hy; lia|]. rewrite <- Hrl. rewrite Hrl. lia. }
  exists r'. split; [done|]. split; [done|]. split; [by rewrite H2|done].
Qed.

Lemma bn_mul_spec a b n :
  limbs a -> limbs b -> (n <= length a)%nat -> (n <= length b)%nat ->
  exists t, bn_mul a n b n = Done t /\ limbs t /\ length t = (2 * n + 1)%nat /\
    bval t = bval (take n a) * bval (take n b).
Proof.
  intros Ha Hb Hla Hlb. unfold bn_mul. pose proof (bval_take_bound a n Ha). pose proof (bval_take_bound b n Hb).
  destruct (mul_rows_spec (take n a) (take n b) (replicate (n + n + 1) 0)) as (t & -> & H1 & H2 & H3);
    [by apply limbs_take|by apply limbs_take|apply limbs_zeros|rewrite !length_take, length_replicate; lia| |].
  - rewrite bval_zeros, length_replicate.
    replace (Z.of_nat (n + n + 1)) with (Z.of_nat n + Z.of_nat n + 1) by lia. rewrite !Z.pow_add_r by lia.
    pose proof (B_pos n). nia.
  - exists t. split; [done|]. split; [done|]. rewrite H2, length_replicate. split; [lia|]. rewrite H3, bval_zeros. lia.
Qed.

(** ** Montgomery reduction *)

Lemma u32_mul_mod x y : u32 (x * u32 y) = u32 (x * y).
Proof. unfold u32. by rewrite Z.mul_mod_idemp_r by lia. Qed.

(** Each Newton round doubles the number of correct bits of the inverse. *)
Lemma mprime_round m0 x k :
  0 <= k -> 2 * k <= 32 -> (2 ^ k | m0 * x - 1) -> (2 ^ (2 * k) | m0 * mprime_step m0 x - 1).
Proof.
  intros Hk H32 [q Hq].
  assert ((2 ^ (2 * k) | mprime_step m0 x - x * (2 - m0 * x))) as [d Hd].
  { unfold mprime_step. rewrite u32_mul_mod. unfold u32 at 1.
    assert ((2 ^ (2 * k) | B)) as [c Hc].
    { exists (2 ^ (32 - 2 * k)). rewrite <- Z.pow_add_r by lia. f_equal. lia. }
    assert (u32 (m0 * x) = m0 * x - B * (m0 * x / B)) as E by (unfold u32; pose proof (Z_div_mod_eq_full (m0 * x) B); lia).
    rewrite E. generalize (m0 * x / B). intros kk. set (y := x * (2 - (m0 * x - B * kk))).
    pose proof (Z_div_mod_eq_full y B) as Ey. generalize dependent (y / B). intros yq Ey.
    exists (c * (x * kk - yq)). transitivity (B * (x * kk - yq)); [unfold y in *; lia|]. rewrite Hc. ring. }
  exists (- q * q + m0 * d).
  replace (2 * k) with (k + k) in * by lia. rewrite Z.pow_add_r in * by lia.
  replace (mprime_step m0 x) with (x * (2 - m0 * x) + d * (2 ^ k * 2 ^ k)) by lia.
  replace (m0 * (x * (2 - m0 * x) + d * (2 ^ k * 2 ^ k)) - 1) with
    (- (m0 * x - 1) * (m0 * x - 1) + m0 * d * (2 ^ k * 2 ^ k)) by ring.
  rewrite Hq. ring.
Qed.

(** [bn_mprime] is the negated inverse of an odd word. *)
Lemma bn_mprime_spec m0 : Z.odd m0 = true -> 0 <= bn_mprime m0 < B /\ (B | m0 * bn_mprime m0 + 1).
Proof.
  intros Hodd. split; [apply u32_range|].
  set (x := Nat.iter 5 (mprime_step m0) 1).
  assert ((B | m0 * x - 1)) as [q Hq].
  { assert ((2 ^ 1 | m0 * 1 - 1)) as H0.
    { apply Z.odd_spec in Hodd as [h ->]. exists h. ring. }
    apply (mprime_round m0 _ 1) in H0; [|lia|lia]. apply (mprime_round m0 _ (2 * 1)) in H0; [|lia|lia].
    apply (mprime_round m0 _ (2 * (2 * 1))) in H0; [|lia|lia].
    apply (mprime_round m0 _ (2 * (2 * (2 * 1)))) in H0; [|lia|lia].
    apply (mprime_round m0 _ (2 * (2 * (2 * (2 * 1))))) in H0; [|lia|lia]. exact H0. }
  unfold bn_mprime. fold x. unfold u32. pose proof (Z_div_mod_eq_full (0 - x) B).
  exists (- q - m0 * ((0 - x) / B)). replace ((0 - x) mod B) with (0 - x - B * ((0 - x) / B)) by lia.
  clear H. generalize ((0 - x) / B). intros z. clearbody x.
  transitivity (- (m0 * x - 1) - m0 * z * B); [ring|]. rewrite Hq. ring.
Qed.

Lemma redc_rows_spec k m t np :
  limbs m -> limbs t -> (0 < length m)%nat -> (k + length m <= length t)%nat -> 0 <= np ->
  (B | at_ m 0 * np + 1) -> bval t + (B ^ Z.of_nat k - 1) * bval m < B ^ Z.of_nat (length t) ->
  exists r u, redc_rows k m t np = Done r /\ limbs r /\ length r = length t /\
    0 <= u < B ^ Z.of_nat k /\ bval r = bval t + u * bval m /\ take k r = replicate k 0.
Proof.
  intros Hm Ht Hlm. revert t Ht; induction k as [|k IH]; intros t Ht Hl Hnp Hinv Hf; cbn [redc_rows].
  { exists t, 0. split; [done|]. split; [done|]. split; [done|]. split; [lia|]. split; [lia|done]. }
  pose proof (bval_bound m Hm) as HM. rewrite B_succ in *. pose proof (B_pos k) as HBk.
  set (ui := u32 (ch t * np)). pose proof (u32_range (ch t * np)) as Hui. fold ui in Hui. unfold is_u32 in Hui.
  destruct (row_spec spill_bounded ui m t 0) as (r & E & Hr & Hrl & Hrv);
    [apply spill_bounded_spec|done|done|lia|done|lia|nia|]. rewrite E. cbn [obind].
  destruct Hr as [|x r Hx Hr]; [simpl in Hrl; lia|]. destruct t as [|t0 t]; [simpl in Hrl; lia|].
  cbn [length] in *. injection Hrl as Hrl. rewrite Z.add_0_r in Hrv.
  assert (x = 0) as ->.
  { destruct m as [|m0 m']; [simpl in Hlm; lia|]. cbn [bval] in Hrv. change (at_ (m0 :: m') 0) with m0 in Hinv.
    change (ch (t0 :: t)) with t0 in ui.
    assert ((B | t0 + ui * m0)) as [d Hd].
    { unfold ui, u32. pose proof (Z_div_mod_eq_full (t0 * np) B) as Em. destruct Hinv as [c Hc].
      exists (t0 * c - (t0 * np / B) * m0).
      replace ((t0 * np) mod B) with (t0 * np - B * (t0 * np / B)) by lia. nia. }
    unfold is_u32 in Hx. assert ((B | x)) as [d' Hd'].
    { exists (d + bval t + ui * bval m' - bval r). nia. }
    nia. }
  cbn [bval] in Hrv, Hf |- *.
  destruct (IH r Hr ltac:(lia) Hnp Hinv) as (r' & u & E' & Hr' & Hl' & Hu & Hv' & Hz).
  { rewrite Hrl. apply (fits_tail t 0); [lia|]. nia. }
  rewrite E'. cbn [obind]. exists (0 :: r'), (ui + B * u). split; [done|]. split; [by constructor|].
  split; [simpl; lia|]. split; [nia|]. split; [cbn [bval]; rewrite Hv'; nia|]. cbn. by rewrite Hz.
Qed.

(** The Montgomery product: [r * R = a * b] modulo [m], reduced. *)
Lemma bn_mont_mul_spec a b m n np :
  limbs a -> limbs b -> limbs m -> (0 < n)%nat -> (n <= length a)%nat -> (n <= length b)%nat -> (n <= length m)%nat ->
  0 <= np -> (B | at_ m 0 * np + 1) ->
  bval (take n a) * bval (take n b) < bval (take n m) * B ^ Z.of_nat n ->
  exists r, bn_mont_mul a b m n np = Done r /\ limbs r /\ length r = n /\ 0 <= bval r < bval (take n m) /\
    (bval (take n m) | bval r * B ^ Z.of_nat n - bval (take n a) * bval (take n b)).
Proof.
  intros Ha Hb Hm Hn Hla Hlb Hlm Hnp Hinv Hf. unfold bn_mont_mul.
  destruct (bn_mul_spec a b n Ha Hb Hla Hlb) as (t & -> & Ht & Htl & Htv). cbn [obind].
  set (A := bval (take n a)) in *. set (C := bval (take n b)) in *. set (M := bval (take n m)) in *.
  pose proof (bval_take_bound m n Hm) as HM. fold M in HM. pose proof (bval_take_bound a n Ha) as HA. fold A in HA.
  pose proof (bval_take_bound b n Hb) as HC. fold C in HC. set (R := B ^ Z.of_nat n) in *.
  assert (B ^ Z.of_nat (2 * n + 1) = R * R * B) as Epow.
  { unfold R. replace (Z.of_nat (2 * n + 1)) with (Z.of_nat n + Z.of_nat n + 1) by lia. rewrite !Z.pow_add_r by lia.
    by rewrite Z.pow_1_r. }
  destruct (redc_rows_spec n (take n m) t np) as (r & u & -> & Hr & Hrl & Hu & Hrv & Hz).
  { by apply limbs_take. } { done. } { rewrite length_take. lia. } { rewrite length_take. lia. } { done. }
  { by rewrite at_take by lia. }
  { fold M R. rewrite Htl, Epow, Htv. nia. }
  cbn [obind]. fold R M in Hu, Hrv. rewrite Htv in Hrv.
  (* the high part of the accumulator *)
  assert (bval r = R * bval (drop n r)) as Hhi.
  { rewrite (bval_split r n) by lia. rewrite Hz, bval_zeros. fold R. lia. }
  set (q := bval (drop n r)) in *.
  assert (limbs (take n (drop n r))) as Hq by (by apply limbs_take, limbs_drop).
  assert (length (take n (drop n r)) = n) as Hql by (rewrite length_take, length_drop; lia).
  assert (q = bval (take n (drop n r)) + R * at_ r (2 * n)) as Hqv.
  { unfold q. rewrite (bval_split (drop n r) n) by (rewrite length_drop; lia). fold R. f_equal. f_equal.
    rewrite drop_drop. replace (n + n)%nat with (2 * n)%nat by lia.
    destruct (drop (2 * n) r) as [|z [|z' l]] eqn:Ed.
    - apply (f_equal length) in Ed. rewrite length_drop in Ed. simpl in Ed. lia.
    - cbn [bval]. pose proof (at_drop r (2 * n) 0) as H0. rewrite Ed, Nat.add_0_r in H0. change (at_ [z] 0) with z in H0. lia.
    - apply (f_equal length) in Ed. rewrite length_drop in Ed. simpl in Ed. lia. }
  pose proof (limbs_at r (2 * n) Hr) as Hlim. unfold is_u32 in Hlim.
  pose proof (bval_bound _ Hq) as Hlow. rewrite Hql in Hlow. fold R in Hlow.
  set (low := bval (take n (drop n r))) in *. set (ql := at_ r (2 * n)) in *.
  assert (q < 2 * M) as Hq2 by nia. assert (ql <= 1) as Hql1 by nia.
  rewrite bn_cmp_ge by done. fold M. rewrite (firstn_all2 (take n (drop n r))) by lia. fold low.
  destruct ((ql =? 1) || (M <=? low)) eqn:Ec.
  - destruct (bn_sub_spec (take n (drop n r)) m n Hq Hm ltac:(lia)) as (H1 & H2 & _ & H4).
    eexists. split; [reflexivity|]. split; [done|]. split; [lia|].
    rewrite firstn_all2 in H4 by lia. rewrite (firstn_all2 (take n (drop n r))) in H4 by lia. fold low M R in H4.
    assert (bval (bn_sub (take n (drop n r)) m n) = q - M) as ->.
    { rewrite H4. symmetry. apply (Z.mod_unique_pos _ _ (- ql)); nia. }
    split; [nia|]. exists (u - R). nia.
  - eexists. split; [reflexivity|]. split; [done|]. split; [done|]. fold low.
    assert (ql = 0) as Hq0 by lia. split; [nia|]. exists u. nia.
Qed.

(** ** Bytes *)

Lemma bval_insert a i y : (i < length a)%nat -> bval (<[i := y]> a) = bval a + (y - at_ a i) * B ^ Z.of_nat i.
Proof.
  revert i; induction a as [|x a IH]; intros i Hi; [simpl in Hi; lia|]. destruct i as [|i].
  - cbn. lia.
  - change (<[S i := y]> (x :: a)) with (x :: <[i := y]> a). cbn [bval]. rewrite IH by (simpl in Hi; lia).
    rewrite at_cons_S, B_succ. ring.
Qed.

(** The limb and the shift of byte [k]. *)
Lemma byte_pos k :
  Z.of_nat k < 2 ^ 28 -> let pos := u32 (Z.of_nat k * 8) in
  let s := 8 * (Z.of_nat k mod 4) in
  Z.to_nat (Z.shiftr pos 5) = (k / 4)%nat /\ Z.land pos 31 = s /\ 0 <= s <= 24 /\
  B ^ Z.of_nat (k / 4) * 2 ^ s = 256 ^ Z.of_nat k.
Proof.
  intros Hk pos s. unfold pos. rewrite u32_id by (unfold is_u32; lia).
  pose proof (Z_div_mod_eq_full (Z.of_nat k) 4) as Ek. pose proof (Z.mod_pos_bound (Z.of_nat k) 4 ltac:(lia)).
  assert (Z.of_nat (k / 4) = Z.of_nat k / 4) as Ed by (by rewrite Nat2Z.inj_div).
  split; [|split; [|split]].
  - rewrite Z.shiftr_div_pow2 by lia. change (2 ^ 5) with 32.
    assert (Z.of_nat k * 8 / 32 = Z.of_nat k / 4) as ->; [|lia].
    symmetry. apply (Z.div_unique _ _ _ (8 * (Z.of_nat k mod 4))); lia.
  - change 31 with (Z.ones 5). rewrite Z.land_ones by lia. change (2 ^ 5) with 32. unfold s.
    symmetry. apply (Z.mod_unique_pos _ _ (Z.of_nat k / 4)); lia.
  - unfold s. lia.
  - rewrite Ed. unfold s. change 256 with (2 ^ 8). rewrite <- !Z.pow_mul_r, <- Z.pow_add_r by lia. f_equal. lia.
Qed.

Lemma from_loop_spec a n b :
  limbs a -> bytes b -> (n <= length a)%nat -> (length b <= 4 * n)%nat -> Z.of_nat n < 2 ^ 25 ->
  (256 ^ Z.of_nat (length b) | bval (take n a)) ->
  limbs (from_loop a n b) /\ length (from_loop a n b) = length a /\ drop n (from_loop a n b) = drop n a /\
  bval (take n (from_loop a n b)) = bval (take n a) + be b.
Proof.
  intros Ha Hb. revert a Ha; induction Hb as [|x b Hx Hb IH]; intros a Ha Hn Hl Hn25 Hdiv.
  { cbn [from_loop be]. split; [done|]. split; [done|]. split; [done|lia]. }
  cbn [from_loop be length] in *. unfold is_u8 in Hx. change (2 ^ 8) with 256 in Hx.
  destruct (byte_pos (length b) ltac:(lia)) as (-> & -> & Hs & Hpow). set (s := 8 * (Z.of_nat (length b) mod 4)) in *.
  set (i := (length b / 4)%nat) in *.
  assert (i < n)%nat as Hi by (apply Nat.Div0.div_lt_upper_bound; lia).
  rewrite (proj2 (Nat.ltb_lt i n) Hi). rewrite Nat2Z.inj_succ, Z.pow_succ_r in Hdiv by lia. destruct Hdiv as [w Hw].
  set (V := bval (take n a)) in *. pose proof (B_pos i) as HBi. pose proof (Z.pow_pos_nonneg 2 s ltac:(lia) ltac:(lia)) as H2s.
  (* the limb's bits from the new byte down are clear *)
  assert (exists w', 0 <= w' /\ at_ a i = w' * 2 ^ (s + 8) /\ w' * 2 ^ (s + 8) <= B - 2 ^ (s + 8)) as (w' & Hw0 & Hw' & Hwb).
  { exists (w mod 2 ^ (24 - s)). pose proof (Z.mod_pos_bound w (2 ^ (24 - s)) ltac:(apply Z.pow_pos_nonneg; lia)).
    assert (2 ^ (24 - s) * 2 ^ (s + 8) = B) as EB by (rewrite <- Z.pow_add_r by lia; f_equal; lia).
    split; [lia|]. split; [|nia].
    rewrite <- (at_take a n i) by lia. rewrite (limb_digit (take n a) i) by (by apply limbs_take). fold V. rewrite Hw, <- Hpow.
    replace (w * (256 * (B ^ Z.of_nat i * 2 ^ s))) with (w * 2 ^ (s + 8) * B ^ Z.of_nat i)
      by (rewrite Z.pow_add_r by lia; ring).
    rewrite Z.div_mul by lia. rewrite <- EB. apply Z.mul_mod_distr_r;
      [pose proof (Z.pow_pos_nonneg 2 (24 - s))|pose proof (Z.pow_pos_nonneg 2 (s + 8))]; lia. }
  assert (x * 2 ^ s < 2 ^ (s + 8)) as Hxs by (rewrite Z.pow_add_r by lia; nia).
  assert (2 ^ (s + 8) <= B) as HsB by (apply Z.pow_le_mono_r; lia).
  rewrite Z.shiftl_mul_pow2 by lia. rewrite u32_id by (unfold is_u32; lia).
  assert (Z.lor (at_ a i) (x * 2 ^ s) = at_ a i + x * 2 ^ s) as ->.
  { rewrite Hw', Z.lor_comm, <- (Z.shiftl_mul_pow2 w') by lia. rewrite or_shift, Z.shiftl_mul_pow2 by lia. ring. }
  set (a' := <[i := at_ a i + x * 2 ^ s]> a).
  assert (bval (take n a') = V + x * 256 ^ Z.of_nat (length b)) as HV.
  { unfold a'. rewrite take_insert_lt by lia. rewrite bval_insert by (rewrite length_take; lia).
    rewrite at_take by lia. fold V. rewrite <- Hpow. ring. }
  destruct (IH a') as (H1 & H2 & H3 & H4).
  - unfold a'. apply Forall_insert; [done|]. unfold is_u32. lia.
  - unfold a'. rewrite length_insert. lia.
  - lia.
  - done.
  - rewrite HV, Hw. exists (w * 256 + x). ring.
  - split; [done|]. split; [rewrite H2; apply length_insert|]. split; [|rewrite H4, HV; ring].
    rewrite H3. unfold a'. apply drop_insert_lt || apply drop_insert_gt. lia.
Qed.

Lemma bn_from_bytes_spec a n b :
  limbs a -> bytes b -> (n <= length a)%nat -> (length b <= 4 * n)%nat -> Z.of_nat n < 2 ^ 25 ->
  limbs (bn_from_bytes a n b) /\ length (bn_from_bytes a n b) = length a /\ drop n (bn_from_bytes a n b) = drop n a /\
  bval (take n (bn_from_bytes a n b)) = be b.
Proof.
  intros Ha Hb Hn Hl H25. unfold bn_from_bytes, bn_zero.
  assert (take n (replicate n 0 ++ drop n a) = replicate n 0) as Ez
    by (rewrite <- (length_replicate n 0) at 1; apply take_app_length).
  assert (length (replicate n 0 ++ drop n a) = length a) as EL by (rewrite length_app, length_replicate, length_drop; lia).
  destruct (from_loop_spec (replicate n 0 ++ drop n a) n b) as (H1 & H2 & H3 & H4).
  - apply Forall_app. split; [apply limbs_zeros|by apply limbs_drop].
  - done.
  - lia.
  - done.
  - done.
  - rewrite Ez, bval_zeros. by exists 0.
  - rewrite EL in H2. rewrite Ez, bval_zeros in H4. split; [done|]. split; [done|]. split; [|done].
    rewrite H3. rewrite <- (length_replicate n 0) at 1. apply drop_app_length.
Qed.

Lemma digit_byte X s : 0 <= s <= 24 -> X mod B / 2 ^ s mod 256 = X / 2 ^ s mod 256.
Proof.
  intros Hs. pose proof (Z_div_mod_eq_full X B) as E. pose proof (Z.pow_pos_nonneg 2 s ltac:(lia) ltac:(lia)).
  assert (B = 256 * 2 ^ (24 - s) * 2 ^ s) as EB
    by (change 256 with (2 ^ 8); rewrite <- !Z.pow_add_r by lia; f_equal; lia).
  replace (X mod B) with (X + (- (256 * 2 ^ (24 - s) * (X / B))) * 2 ^ s) by (rewrite E at 1; rewrite EB at 1; ring).
  rewrite Z.div_add by lia.
  replace (X / 2 ^ s + - (256 * 2 ^ (24 - s) * (X / B))) with (X / 2 ^ s + (- (2 ^ (24 - s) * (X / B))) * 256) by ring.
  apply Z_mod_plus_full.
Qed.

Lemma to_loop_spec a na k :
  limbs a -> Z.of_nat k < 2 ^ 28 ->
  bytes (to_loop a na k) /\ length (to_loop a na k) = k /\
  be (to_loop a na k) = bval (take na a) mod 256 ^ Z.of_nat k.
Proof.
  intros Ha. induction k as [|k IH]; intros Hk; cbn [to_loop].
  { split; [constructor|]. split; [done|]. change (256 ^ Z.of_nat 0) with 1. by rewrite Z.mod_1_r. }
  destruct (IH ltac:(lia)) as (H1 & H2 & H3). destruct (byte_pos k ltac:(lia)) as (-> & -> & Hs & Hpow).
  set (s := 8 * (Z.of_nat k mod 4)) in *. set (i := (k / 4)%nat) in *. set (V := bval (take na a)) in *.
  pose proof (bval_take_bound a na Ha) as HV. fold V in HV. pose proof (B_pos i). pose proof (Z.pow_pos_nonneg 2 s ltac:(lia) ltac:(lia)).
  assert ((if (i <? na)%nat then u8 (Z.shiftr (at_ a i) s) else 0) = V / 256 ^ Z.of_nat k mod 256) as ->.
  { rewrite <- Hpow, <- Z.div_div by lia. destruct (Nat.ltb_spec i na).
    - unfold u8. rewrite Z.shiftr_div_pow2 by lia. change (2 ^ 8) with 256.
      rewrite <- (at_take a na i) by lia. rewrite (limb_digit (take na a) i) by (by apply limbs_take). fold V.
      by apply digit_byte.
    - rewrite (Z.div_small V) by (pose proof (Z.pow_le_mono_r B (Z.of_nat na) (Z.of_nat i)); lia).
      by rewrite Z.div_0_l by lia. }
  split; [constructor; [apply Z.mod_pos_bound; lia|done]|]. split; [simpl; by rewrite H2|]. cbn [be]. rewrite H2, H3.
  rewrite Nat2Z.inj_succ, Z.pow_succ_r by lia. pose proof (Z.pow_pos_nonneg 256 (Z.of_nat k) ltac:(lia) ltac:(lia)).
  rewrite (Z.mul_comm 256), Z.rem_mul_r by lia. ring.
Qed.

(** ** Bits *)

Lemma bn_getbit_spec a bit : limbs a -> 0 <= bit -> bn_getbit a bit = bval a / 2 ^ bit mod 2.
Proof.
  intros Ha Hb. unfold bn_getbit. pose proof (Z_div_mod_eq_full bit 32). pose proof (Z.mod_pos_bound bit 32 ltac:(lia)).
  assert (0 <= bit / 32) by (apply Z.div_pos; lia).
  rewrite (Z.shiftr_div_pow2 bit) by lia. change (2 ^ 5) with 32.
  change 31 with (Z.ones 5). rewrite Z.land_ones by lia. change (2 ^ 5) with 32.
  change 1 with (Z.ones 1). rewrite Z.land_ones by lia. change (2 ^ 1) with 2.
  rewrite limb_digit by done. rewrite Z2Nat.id by lia. rewrite Z.shiftr_div_pow2 by lia.
  set (s := bit mod 32) in *. set (q := bit / 32) in *.
  replace (2 ^ bit) with (B ^ q * 2 ^ s) by (rewrite <- Z.pow_mul_r, <- Z.pow_add_r by lia; f_equal; lia).
  pose proof (Z.pow_pos_nonneg B q ltac:(lia) ltac:(lia)). pose proof (Z.pow_pos_nonneg 2 s ltac:(lia) ltac:(lia)).
  rewrite <- Z.div_div by lia. set (X := bval a / B ^ q). pose proof (Z_div_mod_eq_full X B) as E.
  assert (B = 2 * 2 ^ (31 - s) * 2 ^ s) as EB
    by (transitivity (2 ^ (1 + (31 - s) + s)); [f_equal; lia|rewrite !Z.pow_add_r by lia; ring]).
  replace (X mod B) with (X + (- (2 * 2 ^ (31 - s) * (X / B))) * 2 ^ s) by (rewrite E at 1; rewrite EB at 1; ring).
  rewrite Z.div_add by lia.
  replace (X / 2 ^ s + - (2 * 2 ^ (31 - s) * (X / B))) with (X / 2 ^ s + (- (2 ^ (31 - s) * (X / B))) * 2) by ring.
  apply Z_mod_plus_full.
Qed.

Lemma bn_used_spec a n :
  (bn_used a n <= n)%nat /\ bval (take (bn_used a n) a) = bval (take n a) /\
  (bn_used a n <> 0%nat -> at_ a (bn_used a n - 1) <> 0).
Proof.
  induction n as [|n (IH1 & IH2 & IH3)]; [done|]. cbn [bn_used]. destruct (Z.eqb_spec (at_ a n) 0) as [E|E].
  - split; [lia|]. split; [rewrite IH2, bval_take_S, E; lia|done].
  - split; [lia|]. split; [done|]. intros _. by replace (S n - 1)%nat with n by lia.
Qed.

Lemma land_top v : 0 <= v < B -> (Z.land v (2 ^ 31) =? 0) = (v <? 2 ^ 31).
Proof.
  intros Hv. destruct (Z.ltb_spec v (2 ^ 31)) as [Hlt|Hge].
  - apply Z.eqb_eq, Z.bits_inj'. intros i Hi. rewrite Z.land_spec, Z.bits_0, Z.pow2_bits_eqb by lia.
    destruct (Z.eqb_spec 31 i) as [<-|]; [|apply andb_false_r]. rewrite andb_true_r.
    destruct (Z.eq_dec v 0) as [->|]; [done|]. apply Z.bits_above_log2; [lia|]. apply Z.log2_lt_pow2; lia.
  - apply Z.eqb_neq. intros H. apply (f_equal (fun z => Z.testbit z 31)) in H.
    rewrite Z.land_spec, Z.pow2_bits_true, Z.bits_0, andb_true_r in H by lia.
    assert (Z.log2 v = 31) as E by (apply Z.log2_unique; lia). rewrite <- E, Z.bit_log2 in H by lia. done.
Qed.

Lemma norm_loop_spec fuel v bits :
  0 < v < B -> exists k, norm_loop fuel v bits = bits - k /\ 0 <= k <= 31 /\ v < 2 ^ (32 - k).
Proof.
  revert v bits; induction fuel as [|f IH]; intros v bits Hv; cbn [norm_loop]; rewrite land_top by lia;
    destruct (Z.ltb_spec v (2 ^ 31)); try (exists 0; split; [lia|]; split; [lia|]; change (2 ^ (32 - 0)) with B; lia).
  rewrite Z.shiftl_mul_pow2 by lia. change (2 ^ 1) with 2. rewrite u32_id by (unfold is_u32; lia).
  destruct (IH (v * 2) (bits - 1) ltac:(lia)) as (k & -> & Hk & Hlt). exists (k + 1). split; [lia|].
  assert (k <= 30) as Hk30.
  { destruct (Z.eq_dec k 31) as [->|]; [change (2 ^ (32 - 31)) with 2 in Hlt; lia|lia]. }
  split; [lia|]. replace (32 - k) with (32 - (k + 1) + 1) in Hlt by lia. rewrite Z.pow_add_r in Hlt by lia. lia.
Qed.

Lemma bn_bitlen_spec a n :
  limbs a -> 0 <= bn_bitlen a n /\ bval (take n a) < 2 ^ bn_bitlen a n.
Proof.
  intros Ha. unfold bn_bitlen. destruct (bn_used_spec a n) as (H1 & H2 & H3). set (top := bn_used a n) in *.
  rewrite <- H2. destruct (Nat.eqb_spec top 0) as [E|Hne]; [rewrite E; split; [lia|reflexivity]|].
  pose proof (limbs_at a (top - 1) Ha) as Hv. unfold is_u32 in Hv. specialize (H3 Hne).
  destruct (norm_loop_spec 32 (at_ a (top - 1)) (Z.of_nat top * 32) ltac:(lia)) as (k & -> & Hk & Hlt).
  split; [lia|]. replace top with (S (top - 1)) at 1 by lia. rewrite bval_take_S.
  pose proof (bval_take_bound a (top - 1) Ha). pose proof (B_pos (top - 1)).
  replace (2 ^ (Z.of_nat top * 32 - k)) with (2 ^ (32 - k) * B ^ Z.of_nat (top - 1)).
  - nia.
  - rewrite <- Z.pow_mul_r, <- Z.pow_add_r by lia. f_equal. lia.
Qed.

(** ** Division *)

Lemma shl_loop_spec n r c :
  limbs r -> (n <= length r)%nat -> 0 <= c <= 1 ->
  limbs (shl_loop n r c) /\ length (shl_loop n r c) = length r /\ drop n (shl_loop n r c) = drop n r /\
  bval (take n (shl_loop n r c)) = (2 * bval (take n r) + c) mod B ^ Z.of_nat n.
Proof.
  revert r c; induction n as [|n IH]; intros r c Hr Hn Hc; cbn [shl_loop].
  { split; [done|]. split; [done|]. split; [done|]. change (B ^ Z.of_nat 0) with 1. by rewrite Z.mod_1_r. }
  destruct Hr as [|x r Hx Hr]; [simpl in Hn; lia|]. unfold is_u32 in Hx.
  assert (x * 2 = u32 (x * 2) + B * Z.shiftr x 31 /\ 0 <= Z.shiftr x 31 <= 1) as [Ex Hs].
  { rewrite Z.shiftr_div_pow2 by lia. unfold u32. pose proof (Z_div_mod_eq_full (x * 2) B).
    assert (x * 2 / B = x / 2 ^ 31) as E by (change B with (2 ^ 31 * 2); apply Z.div_mul_cancel_r; lia).
    split; [lia|]. split; [apply Z.div_pos; lia|]. assert (x / 2 ^ 31 < 2); [apply Z.div_lt_upper_bound; lia|lia]. }
  destruct (IH r (Z.shiftr x 31) Hr ltac:(simpl in Hn; lia) Hs) as (H1 & H2 & H3 & H4).
  assert (Z.lor (u32 (Z.shiftl x 1)) c = u32 (x * 2) + c /\ u32 (x * 2) + c < B) as [-> Hlt].
  { rewrite Z.shiftl_mul_pow2 by lia. change (2 ^ 1) with 2.
    pose proof (u32_range (x * 2)) as Hu. unfold is_u32 in Hu.
    assert (exists h, u32 (x * 2) = h * 2 ^ 1 /\ 0 <= h) as (h & Eh & Hh) by (exists (x - 2 ^ 31 * Z.shiftr x 31); lia).
    split; [|lia]. rewrite Eh, Z.lor_comm, <- (Z.shiftl_mul_pow2 h) by lia.
    rewrite or_shift, Z.shiftl_mul_pow2 by lia. lia. }
  pose proof (u32_range (x * 2)) as Hu. unfold is_u32 in Hu.
  split; [constructor; [unfold is_u32; lia|done]|]. split; [simpl; by rewrite H2|]. split; [done|].
  cbn [take bval]. rewrite H4, B_succ, <- mod_digit by (apply B_pos || lia). f_equal. lia.
Qed.

Lemma half_step X i M r :
  0 < M -> 0 <= i -> r = X / 2 ^ (i + 1) mod M ->
  let v := 2 * r + X / 2 ^ i mod 2 in X / 2 ^ i mod M = (if M <=? v then v - M else v) /\ 0 <= v < 2 * M.
Proof.
  intros HM Hi -> v. pose proof (Z.pow_pos_nonneg 2 i ltac:(lia) ltac:(lia)).
  assert (X / 2 ^ (i + 1) = X / 2 ^ i / 2) as E by (rewrite Z.pow_add_r, <- Z.div_div by lia; done).
  set (Y := X / 2 ^ i) in *. pose proof (Z_div_mod_eq_full Y 2) as EY. pose proof (Z.mod_pos_bound Y 2 ltac:(lia)).
  pose proof (Z.mod_pos_bound (Y / 2) M HM). pose proof (Z_div_mod_eq_full (Y / 2) M) as Eq. unfold v. rewrite E.
  split; [|lia]. symmetry. destruct (Z.leb_spec M (2 * (Y / 2 mod M) + Y mod 2)).
  - apply (Z.mod_unique_pos _ _ (2 * (Y / 2 / M) + 1)); nia.
  - apply (Z.mod_unique_pos _ _ (2 * (Y / 2 / M))); nia.
Qed.

Lemma div_loop_spec i rem x m ml :
  limbs rem -> limbs x -> limbs m -> (S ml <= length rem)%nat -> at_ m ml = 0 -> 0 < bval (take ml m) ->
  bval (take (S ml) rem) = bval x / 2 ^ Z.of_nat i mod bval (take ml m) ->
  let r := div_loop i rem x m ml in
  limbs r /\ length r = length rem /\ drop (S ml) r = drop (S ml) rem /\ bval (take (S ml) r) = bval x mod bval (take ml m).
Proof.
  intros Hr Hx Hm. revert rem Hr; induction i as [|i IH]; intros rem Hr Hl Hz HM Hv; cbn [div_loop].
  { change (2 ^ Z.of_nat 0) with 1 in Hv. rewrite Z.div_1_r in Hv. done. }
  set (M := bval (take ml m)) in *. pose proof (bval_take_bound m ml Hm) as HMb. fold M in HMb.
  assert (bval (take (S ml) m) = M) as EM by (rewrite bval_take_S, Hz; fold M; lia).
  rewrite bn_getbit_spec by (done || lia).
  rewrite Nat2Z.inj_succ in Hv. destruct (half_step (bval x) (Z.of_nat i) M _ HM ltac:(lia) Hv) as [Hstep Hb2].
  pose proof (Z.mod_pos_bound (bval x / 2 ^ Z.of_nat i) 2 ltac:(lia)) as Hbit.
  set (bit := bval x / 2 ^ Z.of_nat i mod 2) in *. set (v := 2 * bval (take (S ml) rem) + bit) in *.
  destruct (shl_loop_spec (S ml) rem bit Hr Hl ltac:(lia)) as (H1 & H2 & H3 & H4). fold v in H4.
  assert (v < B ^ Z.of_nat (S ml)) as Hfit by (rewrite B_succ; pose proof (B_pos ml); lia).
  rewrite Z.mod_small in H4 by lia. set (rem1 := shl_loop (S ml) rem bit) in *.
  rewrite bn_cmp_ge by done. rewrite EM, H4.
  assert (let rem2 := if M <=? v then bn_sub rem1 m (S ml) else rem1 in
    limbs rem2 /\ length rem2 = length rem /\ drop (S ml) rem2 = drop (S ml) rem /\
    bval (take (S ml) rem2) = bval x / 2 ^ Z.of_nat i mod M) as (G1 & G2 & G3 & G4).
  { cbv zeta. rewrite Hstep. destruct (Z.leb_spec M v).
    - destruct (bn_sub_spec rem1 m (S ml) H1 Hm ltac:(lia)) as (S1 & S2 & S3 & S4).
      split; [done|]. split; [congruence|]. split; [congruence|]. rewrite S4, H4, EM. apply Z.mod_small. lia.
    - split; [done|]. split; [done|]. split; [done|]. done. }
  destruct (IH _ G1 ltac:(lia) Hz HM G4) as (F1 & F2 & F3 & F4).
  split; [done|]. split; [congruence|]. split; [congruence|done].
Qed.

(** [x mod m], in [BN_LIMBS + 1] limbs. *)
Lemma bn_mod_spec x xl m ml :
  limbs x -> limbs m -> (ml <= BN_LIMBS)%nat -> (ml <= length x)%nat -> bval (take xl x) = bval x -> at_ m ml = 0 -> 0 < bval (take ml m) ->
  limbs (bn_mod x xl m ml) /\ length (bn_mod x xl m ml) = S BN_LIMBS /\
  bval (bn_mod x xl m ml) = bval x mod bval (take ml m).
Proof.
  intros Hx Hm Hml Hmx Hxl Hz HM. unfold bn_mod. destruct (bn_used_spec x xl) as (U1 & U2 & _).
  set (k := bn_used x xl) in *. rewrite bn_cmp_lt by done.
  destruct ((k <=? ml)%nat && (bval (take ml x) <? bval (take ml m))) eqn:Ec.
  - bprop. rewrite Nat.min_l by lia.
    assert (bval (take ml x) = bval x) as Eml.
    { rewrite <- Hxl, <- U2. destruct (decide (k = ml)) as [->|]; [done|].
      rewrite <- (take_drop k (take ml x)), take_take, Nat.min_l by lia. rewrite bval_app.
      assert (bval (drop k (take ml x)) = 0) as ->; [|lia].
      pose proof (bval_split x ml Hmx) as Es. rewrite (bval_split (take ml x) k) in Es by (rewrite length_take; lia).
      rewrite take_take, Nat.min_l, U2, Hxl in Es by lia.
      pose proof (bval_bound _ (limbs_drop (take ml x) k (limbs_take x ml Hx))). pose proof (bval_bound _ (limbs_drop x ml Hx)).
      pose proof (B_pos k). pose proof (B_pos ml). nia. }
    rewrite Z.mod_small by (rewrite <- Eml; pose proof (bval_take_bound x ml Hx); lia).
    unfold k at 1 2. fold k.
    split; [apply Forall_app; split; [by apply limbs_take|apply limbs_drop, limbs_zeros]|].
    split; [rewrite length_app, length_drop, length_take, length_replicate; lia|].
    rewrite bval_app, U2, Hxl, drop_replicate, bval_zeros. lia.
  - destruct (bn_bitlen_spec x xl Hx) as [Hb0 Hb]. rewrite Hxl in Hb. pose proof (bval_bound x Hx).
    destruct (div_loop_spec (Z.to_nat (bn_bitlen x xl)) (replicate (S BN_LIMBS) 0) x m ml) as (H1 & H2 & H3 & H4);
      try done; [apply limbs_zeros|rewrite length_replicate; lia| |].
    + rewrite Z2Nat.id by done. rewrite Z.div_small, Z.mod_0_l by lia.
      rewrite take_replicate. apply bval_zeros.
    + split; [done|]. rewrite H2, length_replicate. split; [done|].
      rewrite (bval_split _ (S ml)) by (rewrite H2, length_replicate; lia).
      rewrite H3, H4, drop_replicate, bval_zeros. lia.
Qed.

(** ** Exponentiation *)

Lemma odd_halve M y : Z.odd M = true -> (M | 2 * y) -> (M | y).
Proof.
  intros Ho [q Hq]. apply Z.odd_spec in Ho as [h Hh]. exists (y - q * h).
  transitivity (y * M - h * (q * M)); [rewrite <- Hq, Hh|]; ring.
Qed.

Lemma odd_cancel M k z : Z.odd M = true -> (M | 2 ^ Z.of_nat k * z) -> (M | z).
Proof.
  intros Ho. induction k as [|k IH]; [by rewrite Z.mul_1_l|].
  rewrite Nat2Z.inj_succ, Z.pow_succ_r, <- Z.mul_assoc by lia. intros H. by apply IH, odd_halve.
Qed.

Section Montgomery.
Variables (m : list Z) (n : nat) (np : Z).
Hypothesis Hm : limbs m.
Hypothesis Hn : (0 < n <= length m)%nat.
Hypothesis Hnp : 0 <= np.
Hypothesis Hinv : (B | at_ m 0 * np + 1).
Let M := bval (take n m).
Let R := B ^ Z.of_nat n.
Hypothesis Hodd : Z.odd M = true.
Hypothesis HM : 0 < M.

(** [r] is the Montgomery form of [v]. *)
Definition mont (r : list Z) (v : Z) : Prop :=
  limbs r /\ length r = n /\ 0 <= bval r < M /\ (M | bval r - v * R).

Lemma R_cancel z : (M | R * z) -> (M | z).
Proof.
  intros H. apply (odd_cancel M (32 * n) z Hodd). unfold R in H. rewrite <- Z.pow_mul_r in H by lia.
  by replace (Z.of_nat (32 * n)) with (32 * Z.of_nat n) by lia.
Qed.

Lemma M_lt_R : M < R.
Proof. by apply bval_take_bound. Qed.

Lemma mont_mul a b u v :
  mont a u -> mont b v -> exists r, bn_mont_mul a b m n np = Done r /\ mont r (u * v).
Proof.
  intros (Ha & Hla & Hba & Hda) (Hb & Hlb & Hbb & Hdb). pose proof M_lt_R.
  destruct (bn_mont_mul_spec a b m n np) as (r & E & Hr & Hlr & Hbr & Hdr); try done; try lia.
  { rewrite !firstn_all2 by lia. fold M R. nia. }
  rewrite (take_ge a), (take_ge b) in Hdr by lia. fold M R in Hbr, Hdr.
  exists r. split; [done|]. split; [done|]. split; [done|]. split; [done|]. apply R_cancel.
  destruct Hda as [ka Hka], Hdb as [kb Hkb], Hdr as [kr Hkr].
  exists (kr + ka * bval b + u * R * kb).
  transitivity (kr * M + (ka * M) * bval b + u * R * (kb * M)); [rewrite <- Hka, <- Hkb, <- Hkr|]; ring.
Qed.

Lemma pow_loop_spec bi r ar e base :
  limbs e -> mont ar base -> 0 <= base -> mont r (base ^ (bval e / 2 ^ Z.of_nat bi)) ->
  exists r', pow_loop bi r ar e m n np = Done r' /\ mont r' (base ^ bval e).
Proof.
  intros He Har Hbase. revert r; induction bi as [|bi IH]; intros r Hr; cbn [pow_loop].
  { change (2 ^ Z.of_nat 0) with 1 in Hr. rewrite Z.div_1_r in Hr. by exists r. }
  destruct (mont_mul r r _ _ Hr Hr) as (r1 & -> & Hr1). cbn [obind].
  rewrite bn_getbit_spec by (done || lia). rewrite Nat2Z.inj_succ in Hr1. pose proof (bval_bound e He).
  pose proof (Z.pow_pos_nonneg 2 (Z.of_nat bi) ltac:(lia) ltac:(lia)).
  assert (bval e / 2 ^ Z.succ (Z.of_nat bi) = bval e / 2 ^ Z.of_nat bi / 2) as E2
    by (rewrite Z.pow_succ_r, Z.mul_comm, <- Z.div_div by lia; done).
  rewrite E2 in Hr1. set (Y := bval e / 2 ^ Z.of_nat bi) in *.
  assert (0 <= Y) by (apply Z.div_pos; lia). assert (0 <= Y / 2) by (apply Z.div_pos; lia).
  pose proof (Z_div_mod_eq_full Y 2) as EY. pose proof (Z.mod_pos_bound Y 2 ltac:(lia)).
  rewrite <- Z.pow_add_r in Hr1 by lia.
  destruct (Z.eqb_spec (Y mod 2) 0) as [E0|E0]; cbn [negb].
  - cbn [obind]. apply IH. by replace Y with (Y / 2 + Y / 2) by lia.
  - destruct (mont_mul r1 ar _ _ Hr1 Har) as (r3 & -> & Hr3). cbn [obind]. apply IH.
    replace Y with (Y / 2 + Y / 2 + 1) by lia. rewrite Z.pow_add_r, Z.pow_1_r by lia. done.
Qed.

(** Into Montgomery form, given [R * R mod M], and out of it. *)
Lemma mont_in a r2 v :
  limbs a -> (n <= length a)%nat -> limbs r2 -> (n <= length r2)%nat -> bval (take n r2) = (R * R) mod M ->
  (M | bval (take n a) - v) -> exists r, bn_mont_mul a r2 m n np = Done r /\ mont r v.
Proof.
  intros Ha Hla Hr2 Hlr2 Er2 [k Hk]. pose proof (bval_take_bound a n Ha) as Hba. fold R in Hba.
  pose proof (Z.mod_pos_bound (R * R) M HM).
  destruct (bn_mont_mul_spec a r2 m n np) as (r & E & Hr & Hlr & Hbr & Hdr); try done; try lia.
  { fold M R. rewrite Er2. nia. }
  fold M R in Hbr, Hdr. rewrite Er2 in Hdr.
  exists r. split; [done|]. split; [done|]. split; [done|]. split; [done|]. apply R_cancel.
  pose proof (Z_div_mod_eq_full (R * R) M) as Eq. destruct Hdr as [kr Hkr].
  exists (kr - bval (take n a) * (R * R / M) + k * R * R).
  transitivity (kr * M - bval (take n a) * (M * (R * R / M)) + (k * M) * R * R); [|ring].
  replace (M * (R * R / M)) with (R * R - (R * R) mod M) by lia. rewrite <- Hkr, <- Hk. ring.
Qed.

Lemma mont_out r one v :
  mont r v -> limbs one -> (n <= length one)%nat -> bval (take n one) = 1 ->
  exists r', bn_mont_mul r one m n np = Done r' /\ limbs r' /\ length r' = n /\ bval r' = v mod M.
Proof.
  intros (Hr & Hlr & Hbr & Hdr) Ho Hlo Eo. pose proof M_lt_R.
  destruct (bn_mont_mul_spec r one m n np) as (r' & E & Hr' & Hlr' & Hbr' & Hdr'); try done; try lia.
  { fold M R. rewrite Eo, (take_ge r) by lia. nia. }
  fold M R in Hbr', Hdr'. rewrite Eo, (take_ge r) in Hdr' by lia.
  exists r'. split; [done|]. split; [done|]. split; [done|].
  assert ((M | bval r' - v)) as [k Hk].
  { apply R_cancel. destruct Hdr as [a Ha], Hdr' as [b Hb]. exists (a + b).
    transitivity (a * M + b * M); [rewrite <- Ha, <- Hb|]; ring. }
  apply (Z.mod_unique_pos _ _ (- k)); nia.
Qed.
End Montgomery.

Lemma bval_take_small a k : limbs a -> bval a < B ^ Z.of_nat k -> (k <= length a)%nat -> bval (take k a) = bval a.
Proof.
  intros Ha Hb Hk. pose proof (bval_split a k Hk). pose proof (bval_bound _ (limbs_drop a k Ha)).
  pose proof (bval_take_bound a k Ha). assert (bval (drop k a) = 0) as E0; [nia|]. rewrite E0 in H. lia.
Qed.

Lemma bn_used_above a n : (bn_used a n < n)%nat -> at_ a (bn_used a n) = 0.
Proof.
  induction n as [|n IH]; [lia|]. cbn [bn_used]. destruct (Z.eqb_spec (at_ a n) 0) as [E|E]; [|lia]. intros H.
  destruct (decide (bn_used a n < n)%nat) as [Hlt|]; [by apply IH|].
  destruct (bn_used_spec a n) as (H1 & _ & _). by replace (bn_used a n) with n by lia.
Qed.

Lemma bn_used_low a n :
  limbs a -> bn_used a n <> 0%nat -> B ^ Z.of_nat (bn_used a n - 1) <= bval (take n a).
Proof.
  intros Ha H0. destruct (bn_used_spec a n) as (H1 & <- & H3). specialize (H3 H0).
  replace (bn_used a n) with (S (bn_used a n - 1)) at 2 by lia. rewrite bval_take_S.
  pose proof (limbs_at a (bn_used a n - 1) Ha) as Hx. unfold is_u32 in Hx.
  pose proof (bval_take_bound a (bn_used a n - 1) Ha). pose proof (B_pos (bn_used a n - 1)). nia.
Qed.

Lemma odd_low m n : (0 < n)%nat -> (Z.land (at_ m 0) 1 =? 0) = negb (Z.odd (bval (take n m))).
Proof.
  intros Hn. destruct n as [|n]; [lia|]. change 1 with (Z.ones 1). rewrite Z.land_ones by lia. change (2 ^ 1) with 2.
  assert (Z.odd (bval (take (S n) m)) = Z.odd (at_ m 0)) as ->.
  { destruct m as [|x m]; [done|]. change (at_ (x :: m) 0) with x. cbn [take bval]. rewrite Z.odd_add_mul_even; [done|].
    by exists (2 ^ 31). }
  rewrite Zmod_odd. destruct (Z.odd (at_ m 0)); done.
Qed.

(** The modulus as the code holds it. *)
Definition mod_limbs (junk : Z) (md : list Z) : list Z := bn_from_bytes (replicate BN_LIMBS 0 ++ [junk]) BN_LIMBS md.

Lemma from_zeros b :
  bytes b -> (length b <= TLS_RSA_MAX_MODULUS)%nat ->
  let e := bn_from_bytes (replicate BN_LIMBS 0) BN_LIMBS b in limbs e /\ length e = BN_LIMBS /\ bval e = be b.
Proof.
  intros Hb Hl. unfold TLS_RSA_MAX_MODULUS in Hl.
  destruct (bn_from_bytes_spec (replicate BN_LIMBS 0) BN_LIMBS b) as (H1 & H2 & _ & H4);
    rewrite ?length_replicate in *; try (done || (unfold BN_LIMBS; lia) || apply limbs_zeros).
  rewrite take_ge in H4 by lia. done.
Qed.

Section ModPow.
Variables (junk : Z) (md : list Z).
Hypothesis Hj : is_u32 junk.
Hypothesis Hmd : bytes md.
Hypothesis Lmd : (length md <= TLS_RSA_MAX_MODULUS)%nat.
Hypothesis Hodd : Z.odd (be md) = true.
(** The limb above the modulus is zero where the division reads it. *)
Hypothesis Htop : junk = 0 \/ (length md <= TLS_RSA_MAX_MODULUS - 4)%nat.

Let m := mod_limbs junk md.
Let n := bn_used m BN_LIMBS.

Lemma modulus_facts :
  limbs m /\ length m = S BN_LIMBS /\ (0 < n <= BN_LIMBS)%nat /\ bval (take n m) = be md /\ 0 < be md /\ at_ m n = 0.
Proof.
  unfold TLS_RSA_MAX_MODULUS in Lmd, Htop.
  destruct (bn_from_bytes_spec (replicate BN_LIMBS 0 ++ [junk]) BN_LIMBS md) as (H1 & H2 & H3 & H4);
    rewrite ?length_app, ?length_replicate in *; try (done || (unfold BN_LIMBS; simpl; lia)).
  { apply Forall_app. split; [apply limbs_zeros|by apply Forall_singleton]. }
  fold (mod_limbs junk md) in H1, H2, H3, H4. fold m in H1, H2, H3, H4.
  destruct (bn_used_spec m BN_LIMBS) as (U1 & U2 & _). fold n in U1, U2. rewrite H4 in U2.
  pose proof (be_bound md Hmd) as Hbe.
  assert (0 < be md) by (destruct (Z.eq_dec (be md) 0) as [E|]; [rewrite E in Hodd; done|lia]).
  assert (n <> 0%nat) as Hn0 by (intros E; rewrite E in U2; change (bval (take 0 m)) with 0 in U2; lia).
  split; [done|]. split; [rewrite H2; apply Nat.add_1_r|]. split; [lia|]. split; [done|]. split; [done|].
  destruct (decide (n < BN_LIMBS)%nat) as [Hlt|Hge]; [by apply bn_used_above|].
  assert (n = BN_LIMBS) as En by lia. destruct Htop as [Ej|Hs].
  - rewrite En. replace BN_LIMBS with (BN_LIMBS + 0)%nat at 1 by lia. rewrite <- at_drop, H3.
    rewrite <- (length_replicate BN_LIMBS 0) at 1. rewrite drop_app_length. done.
  - exfalso. pose proof (bn_used_low m BN_LIMBS H1 Hn0) as Hlow. fold n in Hlow. rewrite H4, En in Hlow.
    change (BN_LIMBS - 1)%nat with 127%nat in Hlow.
    pose proof (Z.pow_le_mono_r 256 (Z.of_nat (length md)) 508 ltac:(lia) ltac:(lia)).
    change (B ^ Z.of_nat 127) with (256 ^ 508) in Hlow. lia.
Qed.

Variables (base exp : list Z).
Hypothesis Hbase : bytes base.
Hypothesis Hexp : bytes exp.
Hypothesis Lbase : (length base <= TLS_RSA_MAX_MODULUS)%nat.
Hypothesis Lexp : (length exp <= TLS_RSA_MAX_MODULUS)%nat.
(** The base fits in the limbs the modulus uses. *)
Hypothesis Hfit : be base < B ^ Z.of_nat (bn_used (mod_limbs junk md) BN_LIMBS).

(** The base, reduced when the comparison says so. *)
Lemma base_facts :
  let b := bn_from_bytes (replicate BN_LIMBS 0) BN_LIMBS base in
  let b := if 0 <=? bn_cmp b m n then take BN_LIMBS (bn_mod b BN_LIMBS m n) else b in
  limbs b /\ length b = BN_LIMBS /\ (be md | bval (take n b) - be base).
Proof.
  destruct modulus_facts as (Hm & Hlm & Hn & HM & HMpos & Hz). destruct (from_zeros base Hbase Lbase) as (H1 & H2 & H3).
  set (b := bn_from_bytes _ BN_LIMBS base) in *. cbv zeta. destruct (0 <=? bn_cmp b m n).
  - destruct (bn_mod_spec b BN_LIMBS m n) as (R1 & R2 & R3); try (done || lia || (rewrite take_ge by lia; done)).
    rewrite HM in R3. split; [by apply limbs_take|]. split; [rewrite length_take; lia|].
    rewrite take_take, Nat.min_l by lia. pose proof (Z.mod_pos_bound (bval b) (be md) HMpos).
    pose proof (bval_take_bound m n Hm). rewrite bval_take_small by (done || lia). rewrite R3, H3.
    exists (- (be base / be md)). pose proof (Z_div_mod_eq_full (be base) (be md)). lia.
  - split; [done|]. split; [done|]. rewrite bval_take_small; [|done|by rewrite H3|lia]. rewrite H3. exists 0. lia.
Qed.

Lemma r2_facts :
  let r2 := bn_mod (<[(2 * n)%nat := 1]> (replicate (2 * BN_LIMBS + 2) 0)) (2 * n + 1) m n in
  limbs r2 /\ length r2 = S BN_LIMBS /\ bval (take n r2) = (B ^ Z.of_nat n * B ^ Z.of_nat n) mod be md.
Proof.
  destruct modulus_facts as (Hm & Hlm & Hn & HM & HMpos & Hz). set (xr := <[_ := 1]> _).
  assert (limbs xr) as Hx by (apply Forall_insert; [apply limbs_zeros|unfold is_u32; lia]).
  assert (length xr = (2 * BN_LIMBS + 2)%nat) as Hxl by (unfold xr; rewrite length_insert, length_replicate; done).
  assert (bval xr = B ^ Z.of_nat n * B ^ Z.of_nat n) as Hxv.
  { unfold xr. rewrite bval_insert by (rewrite length_replicate; lia). rewrite bval_zeros.
    rewrite at_zeros. rewrite <- Z.pow_add_r by lia. replace (Z.of_nat n + Z.of_nat n) with (Z.of_nat (2 * n)) by lia. ring. }
  assert (bval (take (2 * n + 1) xr) = bval xr) as Ht.
  { apply bval_take_small; [done| |lia]. rewrite Hxv, <- Z.pow_add_r by lia. apply Z.pow_lt_mono_r; lia. }
  destruct (bn_mod_spec xr (2 * n + 1) m n) as (R1 & R2 & R3); try (done || lia).
  cbv zeta. split; [done|]. split; [done|]. rewrite HM in R3. pose proof (Z.mod_pos_bound (bval xr) (be md) HMpos).
  pose proof (bval_take_bound m n Hm). rewrite bval_take_small by (done || lia). by rewrite R3, Hxv.
Qed.

Lemma tls_modpow_spec :
  exists out, tls_modpow junk base exp md = Done out /\ bytes out /\ length out = length md /\
    be out = be base ^ be exp mod be md.
Proof.
  destruct modulus_facts as (Hm & Hlm & Hn & HM & HMpos & Hz). destruct (from_zeros exp Hexp Lexp) as (He & Hle & Hve).
  pose proof base_facts as (Hb & Hlb & Hdb). pose proof r2_facts as (Hr & Hlr & Hvr).
  unfold tls_modpow. cbv zeta. rewrite (take_ge md) by lia. fold (mod_limbs junk md). fold m. fold n.
  rewrite (odd_low m n) by lia. rewrite HM, Hodd. replace (n =? 0)%nat with false by (symmetry; apply Nat.eqb_neq; lia).
  cbn [negb orb]. cbv zeta in Hb, Hlb, Hdb, Hr, Hlr, Hvr.
  match goal with |- context [if 0 <=? ?c then ?x else ?y] => set (b := if 0 <=? c then x else y) in * end.
  set (r2 := bn_mod (<[_ := 1]> _) _ m n) in *. set (e := bn_from_bytes _ _ exp) in *.
  set (one := <[0%nat := 1]> _).
  destruct (bn_mprime_spec (at_ m 0)) as [Hnp Hinv].
  { assert ((Z.land (at_ m 0) 1 =? 0) = false) as E by (rewrite (odd_low m n), HM, Hodd by lia; done).
    change 1 with (Z.ones 1) in E. rewrite Z.land_ones in E by lia. change (2 ^ 1) with 2 in E.
    rewrite Zmod_odd in E. destruct (Z.odd (at_ m 0)); [done|discriminate]. }
  set (np := bn_mprime (at_ m 0)) in *. rewrite <- HM in Hvr, Hdb, Hodd, HMpos.
  assert (limbs one /\ length one = BN_LIMBS /\ bval (take n one) = 1) as (Ho & Hlo & Hvo).
  { unfold one. split; [apply Forall_insert; [apply limbs_zeros|unfold is_u32; lia]|].
    split; [by rewrite length_insert, length_replicate|]. rewrite take_insert_lt by lia. rewrite take_replicate.
    rewrite Nat.min_l, bval_insert, bval_zeros by (rewrite ?length_replicate; lia).
    by rewrite at_zeros. }
  destruct (mont_in m n np Hm ltac:(lia) ltac:(lia) Hinv Hodd HMpos b r2 (be base)) as (ar & -> & Har); try (done || lia).
  destruct (mont_in m n np Hm ltac:(lia) ltac:(lia) Hinv Hodd HMpos one r2 1) as (r0 & -> & Hr0); try (done || lia).
  { rewrite Hvo. by exists 0. }
  cbn [obind]. destruct (bn_bitlen_spec e BN_LIMBS He) as [Hb0 Hb1]. rewrite take_ge in Hb1 by lia.
  pose proof (bval_bound e He). pose proof (be_bound base Hbase).
  destruct (pow_loop_spec m n np Hm ltac:(lia) ltac:(lia) Hinv Hodd HMpos (Z.to_nat (bn_bitlen e BN_LIMBS)) r0 ar e (be base))
    as (r1 & -> & Hr1); try (done || lia).
  { rewrite Z2Nat.id, Z.div_small by lia. exact Hr0. }
  cbn [obind]. destruct (mont_out m n np Hm ltac:(lia) ltac:(lia) Hinv Hodd HMpos r1 one _ Hr1) as (r' & -> & Hr' & Hlr' & Hvr');
    try (done || lia).
  cbn [obind]. eexists. split; [reflexivity|]. unfold TLS_RSA_MAX_MODULUS in Lmd.
  destruct (to_loop_spec r' n (length md) Hr' ltac:(lia)) as (T1 & T2 & T3). split; [done|]. split; [done|].
  unfold bn_to_bytes. rewrite T3, take_ge, Hvr', Hve, HM by lia. apply Z.mod_small.
  pose proof (be_bound md Hmd). rewrite <- HM. rewrite <- HM in H1.
  pose proof (Z.mod_pos_bound (be base ^ be exp) (bval (take n m)) HMpos). lia.
Qed.
End ModPow.

Lemma fits_modulus junk base md :
  is_u32 junk -> bytes base -> bytes md -> (length base <= length md <= TLS_RSA_MAX_MODULUS)%nat ->
  at_ md 0 <> 0 -> Z.odd (be md) = true -> junk = 0 \/ (length md <= TLS_RSA_MAX_MODULUS - 4)%nat ->
  be base < B ^ Z.of_nat (bn_used (mod_limbs junk md) BN_LIMBS).
Proof.
  intros Hj Hb Hmd Hl H0 Hodd Htop.
  destruct (modulus_facts junk md Hj Hmd ltac:(lia) Hodd Htop) as (Hm & _ & Hn & HM & _ & _).
  set (n := bn_used (mod_limbs junk md) BN_LIMBS) in *.
  pose proof (bval_take_bound (mod_limbs junk md) n Hm) as HMn. rewrite HM in HMn.
  pose proof (be_bound base Hb) as Hbb. destruct Hmd as [|x md Hx Hmd]; [done|]. cbn [be length] in *.
  change (at_ (x :: md) 0) with x in H0. unfold is_u8 in Hx. pose proof (be_bound md Hmd).
  pose proof (Z.pow_pos_nonneg 256 (Z.of_nat (length md)) ltac:(lia) ltac:(lia)).
  destruct (decide (length md < 4 * n)%nat) as [Hlt|Hge].
  - change B with (256 ^ 4). rewrite <- Z.pow_mul_r by lia.
    pose proof (Z.pow_le_mono_r 256 (Z.of_nat (length base)) (4 * Z.of_nat n) ltac:(lia) ltac:(lia)). lia.
  - exfalso. change B with (256 ^ 4) in HMn. rewrite <- Z.pow_mul_r in HMn by lia.
    pose proof (Z.pow_le_mono_r 256 (4 * Z.of_nat n) (Z.of_nat (length md)) ltac:(lia) ltac:(lia)). nia.
Qed.

(** C14: [tls_modpow] computes modular exponentiation.  For an odd modulus
    without leading zero bytes, a base no longer than the modulus and an
    exponent of at most 512 bytes, it returns, without a store out of bounds,
    the big-endian encoding of [base ^ exp mod modulus], exactly as long as the
    modulus.  The limb above a full 4096-bit modulus is read uninitialised, so
    moduli longer than 508 bytes need it to be zero. *)
Theorem tls_modpow_correct junk base exp md :
  is_u32 junk -> bytes base -> bytes exp -> bytes md ->
  (length base <= length md <= TLS_RSA_MAX_MODULUS)%nat -> (length exp <= TLS_RSA_MAX_MODULUS)%nat ->
  at_ md 0 <> 0 -> Z.odd (be md) = true -> junk = 0 \/ (length md <= TLS_RSA_MAX_MODULUS - 4)%nat ->
  exists out, tls_modpow junk base exp md = Done out /\ bytes out /\ length out = length md /\
    be out = be base ^ be exp mod be md.
Proof. intros. apply tls_modpow_spec; try done; try lia. by apply fits_modulus. Qed.

Lemma tls_modpow_correct_witness :
  exists out, tls_modpow 12345 [0x12; 0x34; 0x56] [0x01; 0x00; 0x01] [0xC3; 0x10; 0x20; 0x30; 0x45] = Done out /\
    bytes out /\ length out = 5%nat /\
    be out = be [0x12; 0x34; 0x56] ^ be [0x01; 0x00; 0x01] mod be [0xC3; 0x10; 0x20; 0x30; 0x45].
Proof.
  apply tls_modpow_correct; try (by vm_compute); try (vm_compute; lia); try (by apply bytes_closed).
Defined.

(** ** RSA with PKCS#1 padding *)

Lemma pad_byte_range i : 1 <= pad_byte i <= 255.
Proof.
  unfold pad_byte. set (x := u32 _).
  assert (Z.land x 0xFE mod 256 = Z.land x 0xFE) as E1
    by (change 256 with (2 ^ 8); rewrite <- Z.land_ones, <- Z.land_assoc by lia; done).
  assert (Z.land x 0xFE mod 2 = 0) as E2
    by (change 2 with (2 ^ 1); rewrite <- Z.land_ones, <- Z.land_assoc, Z.land_0_r by lia; done).
  set (y := Z.land x 0xFE) in *. pose proof (Z.mod_pos_bound y 256 ltac:(lia)).
  pose proof (Z_div_mod_eq_full y 2). unfold u8. change (2 ^ 8) with 256. rewrite Z.mod_small; lia.
Qed.

(** The padded block. *)
Definition pkcs1_block (nlen : nat) (m : list Z) : list Z :=
  0 :: 2 :: map pad_byte (seq 0 (nlen - length m - 3)) ++ 0 :: m.

Lemma pkcs1_block_facts nlen m :
  bytes m -> (length m + 11 <= nlen)%nat ->
  bytes (pkcs1_block nlen m) /\ length (pkcs1_block nlen m) = nlen /\ be (pkcs1_block nlen m) < 256 ^ Z.of_nat (nlen - 1).
Proof.
  intros Hm Hl. unfold pkcs1_block. set (ps := map _ _).
  assert (bytes ps) as Hps.
  { apply Forall_map, Forall_forall. intros i _. pose proof (pad_byte_range i). unfold is_u8. lia. }
  assert (length ps = (nlen - length m - 3)%nat) as Hlp by (unfold ps; rewrite length_map, length_seq; done).
  assert (bytes (2 :: ps ++ 0 :: m)) as Hb.
  { constructor; [unfold is_u8; lia|]. apply Forall_app. split; [done|]. constructor; [unfold is_u8; lia|done]. }
  split; [constructor; [unfold is_u8; lia|done]|]. split; [cbn [length]; rewrite length_app; cbn [length]; lia|].
  pose proof (be_bound _ Hb) as Hbb. cbn [length] in Hbb. rewrite length_app in Hbb. cbn [length] in Hbb.
  change (be (0 :: 2 :: ps ++ 0 :: m)) with (be (2 :: ps ++ 0 :: m)).
  replace (nlen - 1)%nat with (S (length ps + S (length m))) by lia. lia.
Qed.

Lemma pad_len_app ps m : Forall (fun x => x <> 0) ps -> pad_len (ps ++ 0 :: m) = length ps.
Proof.
  induction 1 as [|x ps Hx _ IH]; [done|]. cbn [app pad_len length]. destruct (Z.eqb_spec x 0); [done|]. by rewrite IH.
Qed.

(** The exponents undo each other modulo [n]. *)
Definition rsa_key (n d : list Z) : Prop :=
  forall x, 0 <= x < be n -> (x ^ 65537) ^ be d mod be n = x.

Section Rsa.
Variables (junk junk' : Z) (n d : list Z).
Hypothesis Hj : is_u32 junk.
Hypothesis Hj' : is_u32 junk'.
Hypothesis Hn : bytes n.
Hypothesis Hd : bytes d.
Hypothesis Ln : (12 <= length n <= TLS_RSA_MAX_MODULUS - 4)%nat.
Hypothesis Ld : (length d <= TLS_RSA_MAX_MODULUS)%nat.
Hypothesis H0 : at_ n 0 <> 0.
Hypothesis Hodd : Z.odd (be n) = true.
Hypothesis Hkey : rsa_key n d.

Lemma top_byte b : bytes b -> at_ b 0 <> 0 -> 256 ^ Z.of_nat (length b - 1) <= be b.
Proof.
  intros Hb Hz. destruct Hb as [|x b Hx Hb]; [done|]. change (at_ (x :: b) 0) with x in Hz. unfold is_u8 in Hx.
  cbn [be length]. rewrite Nat.sub_succ, Nat.sub_0_r. pose proof (be_bound b Hb).
  pose proof (Z.pow_pos_nonneg 256 (Z.of_nat (length b)) ltac:(lia) ltac:(lia)). nia.
Qed.

(** C15: RSA encryption and decryption with PKCS#1 v1.5 padding undo each
    other.  With a modulus of 12 to 508 bytes, odd and without leading zeros,
    and a private exponent that inverts 65537 modulo it, decrypting what
    [tls_rsa_encrypt_pkcs1] made of a message of at most [nlen - 11] bytes gives
    the message, and an empty message is refused.  Neither call leaves its
    arrays. *)
Theorem rsa_pkcs1_roundtrip m :
  bytes m -> (length m + 11 <= length n)%nat ->
  exists c, tls_rsa_encrypt_pkcs1 junk n m = Done (Some c) /\ length c = length n /\
    tls_rsa_decrypt_pkcs1 junk' n d c = Done (match m with [] => None | _ => Some m end).
Proof.
  intros Hm Lm. destruct (pkcs1_block_facts (length n) m Hm Lm) as (Hb & Lb & Vb).
  pose proof (top_byte n Hn H0) as Htop.
  assert (length n <= TLS_RSA_MAX_MODULUS)%nat as Ln' by lia.
  assert (forall j b e, is_u32 j -> bytes b -> bytes e -> (length b <= length n)%nat -> (length e <= TLS_RSA_MAX_MODULUS)%nat ->
    exists out, tls_modpow j b e n = Done out /\ bytes out /\ length out = length n /\ be out = be b ^ be e mod be n) as Hpow.
  { intros. apply tls_modpow_spec; try done; try lia. apply fits_modulus; try done; lia. }
  unfold tls_rsa_encrypt_pkcs1, tls_rsa_decrypt_pkcs1.
  replace ((TLS_RSA_MAX_MODULUS <? length n)%nat || (length n <? 12)%nat) with false
    by (symmetry; apply orb_false_iff; split; apply Nat.ltb_ge; lia).
  rewrite (proj2 (Nat.ltb_ge (length n - 11) (length m))) by lia. fold (pkcs1_block (length n) m).
  destruct (Hpow junk (pkcs1_block (length n) m) [1; 0; 1]) as (c & -> & Hc & Lc & Vc); try done; [by apply bytes_closed|lia|simpl; lia|].
  cbn [obind]. exists c. split; [done|]. split; [done|]. rewrite take_ge by lia.
  destruct (Hpow junk' c d) as (blk & -> & Hk & Lk & Vk); try done; [lia|]. cbn [obind].
  assert (blk = pkcs1_block (length n) m) as ->.
  { apply be_inj; try done; [lia|]. rewrite Vk, Vc. pose proof (be_bound _ Hb) as [Hpos _].
    change (be [1; 0; 1]) with 65537. rewrite <- (Hkey (be (pkcs1_block (length n) m))) at 2 by lia.
    symmetry. apply Zpower_mod. pose proof (be_bound n Hn). pose proof (Z.pow_pos_nonneg 256 (Z.of_nat (length n - 1)) ltac:(lia) ltac:(lia)). lia. }
  unfold pkcs1_block. set (ps := map pad_byte _).
  assert (Forall (fun x => x <> 0) ps) as Hps.
  { apply Forall_map, Forall_forall. intros i _. pose proof (pad_byte_range i). lia. }
  assert (length ps = (length n - length m - 3)%nat) as Hlp by (unfold ps; rewrite length_map, length_seq; done).
  change (at_ (0 :: 2 :: ps ++ 0 :: m) 0) with 0. change (at_ (0 :: 2 :: ps ++ 0 :: m) 1) with 2.
  change (drop 2 (0 :: 2 :: ps ++ 0 :: m)) with (ps ++ 0 :: m). rewrite pad_len_app by done. cbn [Z.eqb negb orb].
  change (drop (S (2 + length ps)) (0 :: 2 :: ps ++ 0 :: m)) with (drop (S (length ps)) (ps ++ 0 :: m)).
  rewrite (proj2 (Nat.eqb_neq (2 + length ps) (length n))), (proj2 (Nat.ltb_ge (2 + length ps - 2) 8)) by lia. cbn [orb].
  replace (drop (S (length ps)) (ps ++ 0 :: m)) with m
    by (replace (S (length ps)) with (length ps + 1)%nat by lia; rewrite <- drop_drop, drop_app_length; done).
  destruct m as [|x m]; cbn [length] in Lm, Hlp; destruct (Nat.leb_spec (length n) (S (2 + length ps))); done || lia.
Qed.

End Rsa.

(** A key on the product of small primes: 65537 and [d] undo each other modulo each of them. *)
Definition small_primes : list Z :=
  [3; 5; 7; 11; 13; 17; 19; 23; 29; 31; 37; 41; 43; 47; 53; 59; 61; 67; 71; 73; 79].
Definition key_n : list Z := [20; 78; 98; 175; 79; 239; 47; 249; 226; 0; 214; 159; 201].
Definition key_d : list Z := [24; 55; 244; 225].

Definition undone_mod (p : Z) : bool :=
  forallb (fun x => Zpow_mod x (65537 * be key_d) p =? x) (map Z.of_nat (seq 0 (Z.to_nat p))).

Lemma undone_mod_divides p x : 1 < p -> undone_mod p = true -> (p | (x ^ 65537) ^ be key_d - x).
Proof.
  intros Hp H. apply forallb_forall with (x := x mod p) in H.
  - rewrite Zpow_mod_correct in H by lia. apply Z.eqb_eq in H. rewrite <- Zpower_mod in H by lia.
    rewrite <- Z.pow_mul_r by (vm_compute; discriminate). apply Z.mod_divide; [lia|].
    rewrite Zminus_mod, H, Z.sub_diag. apply Z.mod_0_l. lia.
  - pose proof (Z.mod_pos_bound x p ltac:(lia)). apply in_map_iff. exists (Z.to_nat (x mod p)).
    split; [lia|]. apply in_seq. lia.
Qed.

Fixpoint coprime_all (ps : list Z) : bool :=
  match ps with
  | [] => true
  | p :: r => (Z.gcd (foldr Z.mul 1 r) p =? 1) && coprime_all r
  end.

Lemma product_divides ps y : Forall (fun p => (p | y)) ps -> coprime_all ps = true -> (foldr Z.mul 1 ps | y).
Proof.
  induction 1 as [|p ps [q Hq] _ IH]; [intros _; apply Z.divide_1_l|]. cbn [coprime_all foldr]. intros [Hg Hr]%andb_true_iff.
  apply Z.eqb_eq in Hg. specialize (IH Hr). rewrite Hq, Z.mul_comm in IH. apply Z.gauss in IH; [|done].
  rewrite Hq, (Z.mul_comm q). by apply Z.mul_divide_mono_l.
Qed.

Lemma key_ok : rsa_key key_n key_d.
Proof.
  intros x Hx. symmetry. apply (Z.mod_unique_pos _ _ (((x ^ 65537) ^ be key_d - x) / be key_n)); [done|].
  assert (be key_n <> 0) by lia.
  enough ((be key_n | (x ^ 65537) ^ be key_d - x)) as Hd.
  { apply Z.mod_divide, Z_div_exact_full_2 in Hd; [|done|done]. rewrite <- Hd. symmetry. apply Z.sub_add. }
  replace (be key_n) with (foldr Z.mul 1 small_primes) by (vm_compute; reflexivity).
  apply product_divides; [|vm_compute; reflexivity]. apply Forall_forall. intros p Hp.
  assert (forallb (fun p => (1 <? p) && undone_mod p) small_primes = true) as Hall by (vm_compute; reflexivity).
  apply forallb_forall with (x := p) in Hall; [|by apply list_elem_of_In]. apply andb_true_iff in Hall as [H1 H2].
  apply undone_mod_divides; [lia|done].
Qed.

Lemma rsa_pkcs1_roundtrip_witness :
  exists c, tls_rsa_encrypt_pkcs1 99 key_n [72; 105] = Done (Some c) /\ length c = 13%nat /\
    tls_rsa_decrypt_pkcs1 7 key_n key_d c = Done (Some [72; 105]).
Proof.
  apply (rsa_pkcs1_roundtrip 99 7 key_n key_d);
    first [exact key_ok|by apply bytes_closed|unfold is_u32; lia|vm_compute; done || lia].
Defined.

(** the private array [m] of [tls_modpow] has one limb more than
    [bn_from_bytes] clears, and for a 4096-bit modulus the division reads it: what
    the stack happened to hold there changes the result. *)
Theorem tls_modpow_reads_uninitialised :
  let md := replicate 512 255 in
  tls_modpow 0 [2] [1] md = Done (replicate 511 0 ++ [2]) /\ tls_modpow 1 [2] [1] md <> Done (replicate 511 0 ++ [2]).
Proof. split; [vm_compute; reflexivity|vm_compute; discriminate]. Qed.

(** A base longer than the modulus is reduced only when its low limbs reach the modulus: the rest is dropped. *)
Example tls_modpow_drops_long_base :
  tls_modpow 0 [1; 0; 0; 0; 2] [1] [7] = Done [2] /\ be [1; 0; 0; 0; 2] ^ be [1] mod be [7] = 6.
Proof. vm_compute. split; reflexivity. Qed.
