(* ===== verification/Sha256.v ===== *)
(** SHA-256, HMAC and the TLS 1.2 pseudo-random function
    ([vlibc/src/tls/tls_crypto.c], first half).

    A context is a record, an output array the list a function returns.  [Trap]
    is a [memcpy] past the end of the 64-byte buffer, [NoFuel] a loop that does
    not end; the theorems show that neither happens. *)
From S2P Require Import Prelude.
Local Open Scope vnu_scope.

Definition SHA_K : list Z :=
  [0x428A2F98; 0x71374491; 0xB5C0FBCF; 0xE9B5DBA5; 0x3956C25B; 0x59F111F1; 0x923F82A4; 0xAB1C5ED5;
   0xD807AA98; 0x12835B01; 0x243185BE; 0x550C7DC3; 0x72BE5D74; 0x80DEB1FE; 0x9BDC06A7; 0xC19BF174;
   0xE49B69C1; 0xEFBE4786; 0x0FC19DC6; 0x240CA1CC; 0x2DE92C6F; 0x4A7484AA; 0x5CB0A9DC; 0x76F988DA;
   0x983E5152; 0xA831C66D; 0xB00327C8; 0xBF597FC7; 0xC6E00BF3; 0xD5A79147; 0x06CA6351; 0x14292967;
   0x27B70A85; 0x2E1B2138; 0x4D2C6DFC; 0x53380D13; 0x650A7354; 0x766A0ABB; 0x81C2C92E; 0x92722C85;
   0xA2BFE8A1; 0xA81A664B; 0xC24B8B70; 0xC76C51A3; 0xD192E819; 0xD6990624; 0xF40E3585; 0x106AA070;
   0x19A4C116; 0x1E376C08; 0x2748774C; 0x34B0BCB5; 0x391C0CB3; 0x4ED8AA4A; 0x5B9CCA4F; 0x682E6FF3;
   0x748F82EE; 0x78A5636F; 0x84C87814; 0x8CC70208; 0x90BEFFFA; 0xA4506CEB; 0xBEF9A3F7; 0xC67178F2].

Definition rotr32 (x n : Z) : Z := Z.lor (Z.shiftr x n) (u32 (Z.shiftl x (32 - n))).

Definition be32_load (p : list Z) : Z :=
  Z.lor (Z.lor (Z.lor (u32 (Z.shiftl (at_ p 0) 24)) (u32 (Z.shiftl (at_ p 1) 16))) (u32 (Z.shiftl (at_ p 2) 8))) (at_ p 3).

Definition be32_store (v : Z) : list Z := [u8 (Z.shiftr v 24); u8 (Z.shiftr v 16); u8 (Z.shiftr v 8); u8 v].

Record sha256_ctx := Ctx { h : list Z; bits : Z; buf : list Z; buflen : Z }.

(** [for (i = 16; i < 64; ++i)]: the next words of the schedule. *)
Fixpoint schedule (k : nat) (w : list Z) : list Z :=
  match k with
  | O => w
  | S k' =>
      let i := length w in
      let w15 := at_ w (i - 15) in
      let w2 := at_ w (i - 2) in
      let s0 := Z.lxor (Z.lxor (rotr32 w15 7) (rotr32 w15 18)) (Z.shiftr w15 3) in
      let s1 := Z.lxor (Z.lxor (rotr32 w2 17) (rotr32 w2 19)) (Z.shiftr w2 10) in
      schedule k' (w ++ [u32 (u32 (u32 (at_ w (i - 16) + s0) + at_ w (i - 7)) + s1)])
  end.

Definition vars : Type := Z * Z * Z * Z * Z * Z * Z * Z.

(** One step of [for (i = 0; i < 64; ++i)] with [SHA_K[i]] and [w[i]]. *)
Definition sha_round (v : vars) (kw : Z * Z) : vars :=
  let '(a, b, cc, d, e, f, g, hh) := v in
  let S1 := Z.lxor (Z.lxor (rotr32 e 6) (rotr32 e 11)) (rotr32 e 25) in
  let choose := Z.lxor (Z.land e f) (Z.land (u32 (Z.lnot e)) g) in
  let S0 := Z.lxor (Z.lxor (rotr32 a 2) (rotr32 a 13)) (rotr32 a 22) in
  let maj := Z.lxor (Z.lxor (Z.land a b) (Z.land a cc)) (Z.land b cc) in
  let t1 := u32 (u32 (u32 (u32 (hh + S1) + choose) + fst kw) + snd kw) in
  let t2 := u32 (S0 + maj) in
  (u32 (t1 + t2), a, b, cc, u32 (d + t1), e, f, g).

(** The new [c->h]. *)
Definition sha256_block (hs p : list Z) : list Z :=
  let w := schedule 48 (map (fun i => be32_load (drop (4 * i) p)) (seq 0 16)) in
  let v0 := (at_ hs 0, at_ hs 1, at_ hs 2, at_ hs 3, at_ hs 4, at_ hs 5, at_ hs 6, at_ hs 7) in
  let '(a, b, cc, d, e, f, g, hh) := fold_left sha_round (combine SHA_K w) v0 in
  [u32 (at_ hs 0 + a); u32 (at_ hs 1 + b); u32 (at_ hs 2 + cc); u32 (at_ hs 3 + d);
   u32 (at_ hs 4 + e); u32 (at_ hs 5 + f); u32 (at_ hs 6 + g); u32 (at_ hs 7 + hh)].

(** [b] is what the caller's memory holds in [buf]. *)
Definition tls_sha256_init (b : list Z) : sha256_ctx :=
  Ctx [0x6a09e667; 0xbb67ae85; 0x3c6ef372; 0xa54ff53a; 0x510e527f; 0x9b05688c; 0x1f83d9ab; 0x5be0cd19] 0 b 0.

(** [while (len)]. *)
Fixpoint update_loop (fuel : nat) (c : sha256_ctx) (m : list Z) : outcome sha256_ctx :=
  match m with
  | [] => Done c
  | _ =>
      match fuel with
      | O => NoFuel
      | S fuel' =>
          let len := Z.of_nat (length m) in
          let tk := u32 (64 - buflen c) in
          let tk := if len <? tk then len else tk in
          if 64 <? buflen c + tk then Trap
          else
            let b := take (Z.to_nat (buflen c)) (buf c) ++ take (Z.to_nat tk) m ++ drop (Z.to_nat (buflen c + tk)) (buf c) in
            let bl := u32 (buflen c + tk) in
            let c := if bl =? 64 then Ctx (sha256_block (h c) b) (bits c) b 0 else Ctx (h c) (bits c) b bl in
            update_loop fuel' c (drop (Z.to_nat tk) m)
      end
  end.

Definition tls_sha256_update (c : sha256_ctx) (m : list Z) : outcome sha256_ctx :=
  update_loop (length m) (Ctx (h c) (u64 (bits c + u64 (Z.of_nat (length m) * 8))) (buf c) (buflen c)) m.

(** The context and the digest. *)
Definition tls_sha256_final (c : sha256_ctx) : outcome (sha256_ctx * list Z) :=
  let bl := be64 (bits c) in
  let pad := 0x80 :: replicate 63 0 in
  let zero_count := Z.land (u32 (56 - u32 (buflen c + 1))) 63 in
  let* c := tls_sha256_update c (take (Z.to_nat (zero_count + 1)) pad) in
  let* c := tls_sha256_update c bl in
  Done (c, flat_map (fun i => be32_store (at_ (h c) i)) (seq 0 8)).

(** A context on the stack starts with what the stack held. *)
Definition tls_sha256 (stk m : list Z) : outcome (list Z) :=
  let* c := tls_sha256_update (tls_sha256_init stk) m in
  let* r := tls_sha256_final c in Done (snd r).

Definition tls_hmac_sha256 (stk key msg : list Z) : outcome (list Z) :=
  let* k := (if (64 <? length key)%nat
             then let* d := tls_sha256 stk key in Done (d ++ replicate 32 0)
             else Done (key ++ replicate (64 - length key) 0)) in
  let ipad := map (fun x => Z.lxor x 0x36) k in
  let opad := map (fun x => Z.lxor x 0x5c) k in
  let* c := tls_sha256_update (tls_sha256_init stk) ipad in
  let* c := tls_sha256_update c msg in
  let* r := tls_sha256_final c in
  let* c := tls_sha256_update (tls_sha256_init (buf (fst r))) opad in
  let* c := tls_sha256_update c (snd r) in
  let* r := tls_sha256_final c in Done (snd r).

(** [while (off < out_len)], [out] from [off] on. *)
Fixpoint prf_loop (fuel : nat) (stk secret seed a out : list Z) : outcome (list Z) :=
  match out with
  | [] => Done []
  | _ =>
      match fuel with
      | O => NoFuel
      | S fuel' =>
          let n := Nat.min 32 (length out) in
          if (128 <? length seed)%nat then Done out
          else
            let* block := tls_hmac_sha256 stk secret (take 32 a ++ seed) in
            let* a_next := tls_hmac_sha256 stk secret (take 32 a) in
            let* rest := prf_loop fuel' stk secret seed a_next (drop n out) in
            Done (take n block ++ rest)
      end
  end.

(** [out] is the buffer before the call; the result is the buffer after it. *)
Definition tls_prf (stk secret seed out : list Z) : outcome (list Z) :=
  let* a := tls_hmac_sha256 stk secret seed in prf_loop (length out) stk secret seed a out.


Example sha256_abc :
  tls_sha256 (replicate 64 7) (cs "abc") =
  Done [0xba; 0x78; 0x16; 0xbf; 0x8f; 0x01; 0xcf; 0xea; 0x41; 0x41; 0x40; 0xde; 0x5d; 0xae; 0x22; 0x23;
        0xb0; 0x03; 0x61; 0xa3; 0x96; 0x17; 0x7a; 0x9c; 0xb4; 0x10; 0xff; 0x61; 0xf2; 0x00; 0x15; 0xad].
Proof. vm_compute. reflexivity. Qed.

(** * What the code computes *)

Definition H0 : list Z := h (tls_sha256_init []).

(** The chaining value after [n] blocks of [m]. *)
Fixpoint absorb (n : nat) (hs m : list Z) : list Z :=
  match n with
  | O => hs
  | S n' => absorb n' (sha256_block hs (take 64 m)) (drop 64 m)
  end.

(** The padding of FIPS 180-4: a one bit, zeros, the length in bits, to a multiple of 64 bytes. *)
Definition pad_message (m : list Z) : list Z :=
  let len := Z.of_nat (length m) in
  m ++ 0x80 :: replicate (Z.to_nat ((55 - len) mod 64)) 0 ++ be64 (8 * len).

Definition sha256_spec (m : list Z) : list Z :=
  let p := pad_message m in flat_map be32_store (absorb (length p / 64) H0 p).

Definition key_block (key : list Z) : list Z :=
  let k := if (64 <? length key)%nat then sha256_spec key else key in k ++ replicate (64 - length k) 0.

Definition hmac_spec (key msg : list Z) : list Z :=
  let k := key_block key in
  sha256_spec (map (fun x => Z.lxor x 0x5c) k ++ sha256_spec (map (fun x => Z.lxor x 0x36) k ++ msg)).

(** [k] blocks of the data expansion of RFC 5246, section 5, from [A(i) = a] on. *)
Fixpoint p_hash (k : nat) (secret seed a : list Z) : list Z :=
  match k with
  | O => []
  | S k' => hmac_spec secret (a ++ seed) ++ p_hash k' secret seed (hmac_spec secret a)
  end.

Definition prf_spec (secret seed : list Z) (n : nat) : list Z :=
  take n (p_hash n secret seed (hmac_spec secret seed)).

(** ** The hash *)

Lemma length_sha256_block hs p : length (sha256_block hs p) = 8%nat.
Proof. unfold sha256_block. destruct (fold_left _ _ _) as [[[[[[[? ?] ?] ?] ?] ?] ?] ?]. done. Qed.

Local Opaque sha256_block.

Lemma absorb_app n k hs x y : length x = (64 * n)%nat -> absorb (n + k) hs (x ++ y) = absorb k (absorb n hs x) y.
Proof.
  revert hs x; induction n as [|n IH]; intros hs x Hx.
  - destruct x; [done|simpl in Hx; lia].
  - cbn [Nat.add absorb]. rewrite take_app_le, drop_app_le by lia. apply IH. rewrite length_drop. lia.
Qed.

Lemma length_absorb n hs x : length hs = 8%nat -> length (absorb n hs x) = 8%nat.
Proof. revert hs x; induction n as [|n IH]; intros hs x H; [done|]. cbn [absorb]. apply IH, length_sha256_block. Qed.

(** The context has taken in [msg]: [q] full blocks, the rest in the buffer. *)
Definition absorbed (c : sha256_ctx) (msg : list Z) : Prop :=
  exists q full rest, msg = full ++ rest /\ length full = (64 * q)%nat /\ h c = absorb q H0 full /\
    (length rest < 64)%nat /\ buflen c = Z.of_nat (length rest) /\ length (buf c) = 64%nat /\
    take (length rest) (buf c) = rest.

Lemma update_loop_spec fuel c msg m :
  absorbed c msg -> (length m <= fuel)%nat ->
  exists c', update_loop fuel c m = Done c' /\ absorbed c' (msg ++ m) /\ bits c' = bits c.
Proof.
  revert c msg m; induction fuel as [|fuel IH]; intros c msg m Hc Hl.
  { destruct m; [|simpl in Hl; lia]. rewrite app_nil_r. by exists c. }
  destruct m as [|x m0]; [rewrite app_nil_r; by exists c|]. set (m := x :: m0) in *.
  assert (0 < length m)%nat as Hpos by (simpl; lia). destruct Hc as (q & full & rest & -> & Hf & Hh & Hr & Hbl & Hb & Ht).
  cbn [update_loop]. fold m. rewrite Hbl, (u32_id (64 - _)) by (unfold is_u32; lia).
  set (tk := if Z.of_nat (length m) <? _ then _ else _). set (k := Z.to_nat tk).
  assert (tk = Z.of_nat k /\ k = Nat.min (length m) (64 - length rest)) as [Etk Ek].
  { unfold k, tk. destruct (Z.ltb_spec (Z.of_nat (length m)) (64 - Z.of_nat (length rest))); lia. }
  clearbody tk k. subst tk. destruct (Z.ltb_spec 64 (Z.of_nat (length rest) + Z.of_nat k)); [lia|].
  rewrite (u32_id (_ + _)) by (unfold is_u32; lia).
  rewrite <- !Nat2Z.inj_add, !Nat2Z.id, Ht. set (b := rest ++ take k m ++ _).
  assert (length b = 64%nat) as Lb by (unfold b; rewrite !length_app, length_take, length_drop; lia).
  assert (forall c1, absorbed c1 ((full ++ rest) ++ take k m) -> bits c1 = bits c ->
    exists c', update_loop fuel c1 (drop k m) = Done c' /\ absorbed c' ((full ++ rest) ++ m) /\ bits c' = bits c) as Hnext.
  { intros c1 H1 E1. destruct (IH c1 _ (drop k m) H1) as (c' & E & H' & Eb); [rewrite length_drop; lia|].
    exists c'. rewrite <- app_assoc, take_drop in H'. split; [done|]. split; [done|congruence]. }
  destruct (Z.eqb_spec (Z.of_nat (length rest + k)) 64) as [E64|E64].
  - apply Hnext; [|done]. assert (b = rest ++ take k m) as Eb.
    { unfold b. rewrite drop_ge by lia. by rewrite app_nil_r. }
    exists (S q), (full ++ b), []. cbn [h buf buflen length]. split; [by rewrite Eb, app_nil_r, app_assoc|].
    split; [rewrite length_app; lia|]. split; [|split; [lia|by split]].
    replace (S q) with (q + 1)%nat by lia. rewrite absorb_app by done. cbn [absorb]. rewrite (take_ge b) by lia. by rewrite <- Hh.
  - apply Hnext; [|done]. exists q, full, (rest ++ take k m). cbn [h buf buflen]. rewrite length_app, length_take, Nat.min_l by lia.
    split; [by rewrite app_assoc|]. split; [done|]. split; [done|]. split; [lia|]. split; [done|]. split; [done|].
    unfold b. rewrite app_assoc. replace (length rest + k)%nat with (length (rest ++ take k m)) by (rewrite length_app, length_take; lia).
    apply take_app_length.
Qed.

Lemma absorbed_init stk : length stk = 64%nat -> absorbed (tls_sha256_init stk) [].
Proof. intros H. exists 0%nat, [], []. by repeat split; simpl; try lia. Qed.

(** The context after [msg]: what is absorbed and the count of bits. *)
Definition after (c : sha256_ctx) (msg : list Z) : Prop :=
  absorbed c msg /\ bits c = u64 (8 * Z.of_nat (length msg)).

Lemma after_init stk : length stk = 64%nat -> after (tls_sha256_init stk) [].
Proof. intros H. split; [by apply absorbed_init|done]. Qed.

Lemma update_after c msg m :
  after c msg -> exists c', tls_sha256_update c m = Done c' /\ after c' (msg ++ m).
Proof.
  intros [Ha Hb]. unfold tls_sha256_update.
  destruct (update_loop_spec (length m) (Ctx (h c) (u64 (bits c + u64 (Z.of_nat (length m) * 8))) (buf c) (buflen c)) msg m Ha)
    as (c' & E & Hc & Eb); [lia|]. exists c'. split; [done|]. split; [done|]. rewrite Eb. cbn [bits]. rewrite Hb. unfold u64.
  rewrite <- Z.add_mod by lia. f_equal. rewrite length_app. lia.
Qed.

Lemma u8_u64_shift x s : 0 <= s <= 56 -> u8 (Z.shiftr (u64 x) s) = u8 (Z.shiftr x s).
Proof.
  intros Hs. unfold u8, u64. rewrite <- !Z.land_ones by lia. apply Z.bits_inj'. intros i Hi.
  rewrite !Z.land_spec, !Z.shiftr_spec, Z.land_spec by lia. rewrite !Z.testbit_ones_nonneg by lia.
  destruct (Z.ltb_spec i 8); [|by rewrite !andb_false_r]. destruct (Z.ltb_spec (i + s) 64); [by rewrite !andb_true_r|lia].
Qed.

Lemma be64_u64 x : be64 (u64 x) = be64 x.
Proof. apply map_ext_in. intros i [_ Hi]%in_seq. apply u8_u64_shift. lia. Qed.

(** The [zero_count] of the code pads to 56 modulo 64. *)
Lemma zero_count_spec len : 0 <= len ->
  Z.land (u32 (56 - u32 (len mod 64 + 1))) 63 = (55 - len) mod 64.
Proof.
  intros Hl. change 63 with (Z.ones 6). rewrite Z.land_ones by lia. change (2 ^ 6) with 64.
  pose proof (Z.mod_pos_bound len 64 ltac:(lia)). rewrite (u32_id (_ + 1)) by (unfold is_u32; lia).
  unfold u32. rewrite Z.mod_mod_divide by (by exists (2 ^ 26)). rewrite <- (Zminus_mod_idemp_r 55 len). f_equal. lia.
Qed.

Lemma digest_flat hs : length hs = 8%nat -> flat_map (fun i => be32_store (at_ hs i)) (seq 0 8) = flat_map be32_store hs.
Proof. intros H. do 9 (destruct hs as [|? hs]; [try done|]); done. Qed.

(** Whole blocks absorbed: the chaining value. *)
Lemma absorbed_whole c p : absorbed c p -> (length p mod 64 = 0)%nat -> h c = absorb (length p / 64) H0 p.
Proof.
  intros (q & full & rest & -> & Hf & Hh & Hr & _) Hm. rewrite length_app, Hf in Hm |- *.
  rewrite Nat.add_comm, Nat.mul_comm, Nat.Div0.mod_add, Nat.mod_small in Hm by lia.
  destruct rest; [|done]. rewrite app_nil_r. cbn [length]. rewrite Nat.add_0_r, Nat.mul_comm, Nat.div_mul by lia. done.
Qed.

Lemma length_pad_message m : (length (pad_message m) mod 64 = 0)%nat.
Proof.
  unfold pad_message. rewrite length_app. cbn [length]. rewrite length_app, length_replicate, length_be64.
  set (L := Z.of_nat (length m)). pose proof (Z.mod_pos_bound (55 - L) 64 ltac:(lia)).
  pose proof (Z_div_mod_eq_full (55 - L) 64) as E.
  apply Nat.Div0.mod_divides. exists (Z.to_nat (1 - (55 - L) / 64)). nia.
Qed.

Lemma final_after c msg :
  after c msg -> exists c', tls_sha256_final c = Done (c', sha256_spec msg) /\ length (buf c') = 64%nat.
Proof.
  intros Hc. pose proof Hc as [(q & full & rest & Em & Hf & _ & Hr & Hbl & _) Hb]. unfold tls_sha256_final.
  assert (buflen c = Z.of_nat (length msg) mod 64) as Emod.
  { rewrite Hbl. apply (Z.mod_unique_pos _ _ (Z.of_nat q)); [lia|]. rewrite Em, length_app. lia. }
  rewrite Emod, zero_count_spec, Hb, be64_u64 by lia. set (L := Z.of_nat (length msg)) in *.
  pose proof (Z.mod_pos_bound (55 - L) 64 ltac:(lia)) as Hz. set (z := (55 - L) mod 64) in *.
  replace (take _ (0x80 :: _)) with (0x80 :: replicate (Z.to_nat z) 0)
    by (replace (Z.to_nat (z + 1)) with (S (Z.to_nat z)) by lia; cbn [take]; rewrite take_replicate, Nat.min_l by lia; done).
  destruct (update_after c msg (0x80 :: replicate (Z.to_nat z) 0) Hc) as (c1 & -> & H1). cbn [obind].
  destruct (update_after c1 _ (be64 (8 * L)) H1) as (c2 & -> & H2). cbn [obind]. exists c2.
  replace ((msg ++ 128 :: replicate (Z.to_nat z) 0) ++ be64 (8 * L)) with (pad_message msg) in H2
    by (unfold pad_message; rewrite <- app_assoc; done).
  pose proof (absorbed_whole c2 _ (proj1 H2) (length_pad_message msg)) as Hh.
  split; [|destruct H2 as [(? & ? & ? & _ & _ & _ & _ & _ & ? & _) _]; done].
  rewrite digest_flat; [by rewrite Hh|]. rewrite Hh. by apply length_absorb.
Qed.

Lemma length_digest hs : length (flat_map be32_store hs) = (4 * length hs)%nat.
Proof. induction hs as [|x hs IH]; [done|]. cbn [flat_map]. rewrite length_app, IH. simpl. lia. Qed.

Lemma length_sha256_spec m : length (sha256_spec m) = 32%nat.
Proof. unfold sha256_spec. rewrite length_digest, length_absorb by done. done. Qed.

(** The updates one after the other. *)
Fixpoint updates (c : sha256_ctx) (ms : list (list Z)) : outcome sha256_ctx :=
  match ms with
  | [] => Done c
  | m :: ms' => let* c := tls_sha256_update c m in updates c ms'
  end.

Lemma updates_after ms c msg : after c msg -> exists c', updates c ms = Done c' /\ after c' (msg ++ concat ms).
Proof.
  revert c msg; induction ms as [|m ms IH]; intros c msg Hc; cbn [updates concat].
  - rewrite app_nil_r. by exists c.
  - destruct (update_after c msg m Hc) as (c1 & -> & H1). cbn [obind]. rewrite app_assoc. by apply IH.
Qed.

Lemma tls_sha256_spec stk m : length stk = 64%nat -> tls_sha256 stk m = Done (sha256_spec m).
Proof.
  intros Hs. unfold tls_sha256. destruct (update_after _ [] m (after_init stk Hs)) as (c & -> & Hc). cbn [obind].
  destruct (final_after c m Hc) as (c' & -> & _). done.
Qed.



(** ** HMAC and the pseudo-random function *)

Lemma tls_hmac_spec stk key msg : length stk = 64%nat -> tls_hmac_sha256 stk key msg = Done (hmac_spec key msg).
Proof.
  intros Hs. unfold tls_hmac_sha256.
  assert ((if (64 <? length key)%nat then let* d := tls_sha256 stk key in Done (d ++ replicate 32 0)
           else Done (key ++ replicate (64 - length key) 0)) = Done (key_block key)) as ->.
  { unfold key_block. destruct (64 <? length key)%nat; [|done]. rewrite tls_sha256_spec by done. cbn [obind].
    by rewrite length_sha256_spec. }
  cbn [obind]. set (k := key_block key).
  destruct (update_after _ [] (map (fun x => Z.lxor x 0x36) k) (after_init stk Hs)) as (c1 & -> & H1). cbn [obind].
  destruct (update_after c1 _ msg H1) as (c2 & -> & H2). cbn [obind].
  destruct (final_after c2 _ H2) as (c3 & -> & H3). cbn [obind fst snd].
  destruct (update_after _ [] (map (fun x => Z.lxor x 0x5c) k) (after_init _ H3)) as (c4 & -> & H4). cbn [obind].
  match goal with |- context [tls_sha256_update c4 ?x] => destruct (update_after c4 _ x H4) as (c5 & -> & H5) end. cbn [obind].
  destruct (final_after c5 _ H5) as (c6 & -> & _). done.
Qed.

Lemma length_hmac key msg : length (hmac_spec key msg) = 32%nat.
Proof. apply length_sha256_spec. Qed.

Lemma p_hash_enough j k n secret seed a :
  (n <= 32 * j)%nat -> (j <= k)%nat -> take n (p_hash j secret seed a) = take n (p_hash k secret seed a).
Proof.
  revert k n a; induction j as [|j IH]; intros k n a Hn Hk; [replace n with 0%nat by lia; done|].
  destruct k as [|k]; [lia|]. cbn [p_hash]. rewrite !take_app, length_hmac. f_equal. apply IH; lia.
Qed.

Lemma prf_loop_spec fuel stk secret seed a out :
  length stk = 64%nat -> (length seed <= 128)%nat -> length a = 32%nat -> (length out <= fuel)%nat ->
  prf_loop fuel stk secret seed a out = Done (take (length out) (p_hash (length out) secret seed a)).
Proof.
  intros Hs Hseed. revert a out; induction fuel as [|fuel IH]; intros a out Ha Hl.
  { destruct out; [done|simpl in Hl; lia]. }
  destruct out as [|x out0]; [done|]. set (out := x :: out0) in *. cbn [prf_loop]. fold out.
  rewrite (proj2 (Nat.ltb_ge 128 (length seed))) by lia. rewrite !take_ge by lia. rewrite !tls_hmac_spec by done. cbn [obind].
  set (n := Nat.min 32 (length out)). rewrite IH by (rewrite ?length_hmac, ?length_drop; simpl in *; lia). cbn [obind].
  f_equal. rewrite length_drop. change (length out) with (S (length out0)) at 4. cbn [p_hash]. rewrite take_app, length_hmac.
  f_equal.
  - destruct (decide (length out <= 32)%nat).
    + by replace n with (length out) by lia.
    + rewrite !take_ge by (rewrite length_hmac; lia). done.
  - replace (length out - n)%nat with (length out - 32)%nat by lia. apply p_hash_enough; [lia|simpl; lia].
Qed.

(** HMAC-SHA-256 is RFC 2104 over the hash above, for keys of every
    length (a key over 64 bytes is hashed first), and the TLS 1.2 PRF fills its
    whole output buffer with the data expansion of RFC 5246: the prefix, of the
    requested length, of HMAC(A(1) seed), HMAC(A(2) seed), and so on.  A seed
    over 128 bytes leaves the buffer as it was. *)
Theorem hmac_prf_correct stk secret seed out :
  length stk = 64%nat ->
  tls_hmac_sha256 stk secret seed = Done (hmac_spec secret seed) /\
  tls_prf stk secret seed out =
    Done (if (length seed <=? 128)%nat then prf_spec secret seed (length out) else out).
Proof.
  intros Hs. split; [by apply tls_hmac_spec|]. unfold tls_prf. rewrite tls_hmac_spec by done. cbn [obind].
  destruct (Nat.leb_spec (length seed) 128) as [Hle|Hgt].
  - by apply prf_loop_spec; rewrite ?length_hmac.
  - destruct out as [|x out]; [done|]. cbn [prf_loop length]. by rewrite (proj2 (Nat.ltb_lt 128 (length seed))) by lia.
Qed.

Lemma hmac_prf_correct_witness :
  tls_hmac_sha256 (replicate 64 1) (cs "key") (cs "seed") = Done (hmac_spec (cs "key") (cs "seed")) /\
  tls_prf (replicate 64 1) (cs "key") (cs "seed") (replicate 40 0) =
    Done (if (length (cs "seed") <=? 128)%nat then prf_spec (cs "key") (cs "seed") 40 else replicate 40 0).
Proof. apply (hmac_prf_correct (replicate 64 1) (cs "key") (cs "seed") (replicate 40 0)). reflexivity. Defined.

(** RFC 4231, test case 2. *)
Example hmac_jefe :
  tls_hmac_sha256 (replicate 64 0) (cs "Jefe") (cs "what do ya want for nothing?") =
  Done [0x5b; 0xdc; 0xc1; 0x46; 0xbf; 0x60; 0x75; 0x4e; 0x6a; 0x04; 0x24; 0x26; 0x08; 0x95; 0x75; 0xc7;
        0x5a; 0x00; 0x3f; 0x08; 0x9d; 0x27; 0x39; 0x83; 0x9d; 0xec; 0x58; 0xb9; 0x64; 0xec; 0x38; 0x43].
Proof. vm_compute. reflexivity. Qed.
