(* ===== verification/Aes.v ===== *)
(** AES-128 ([vlibc/src/tls/tls_crypto.c], second half).

    A 16-byte array is a list of 16 bytes; a function that changes an array
    returns it. *)
From Stdlib Require Import Btauto.
From S2P Require Import Prelude.
Local Open Scope vnu_scope.

Definition SBOX : list Z :=
  [0x63; 0x7c; 0x77; 0x7b; 0xf2; 0x6b; 0x6f; 0xc5; 0x30; 0x01; 0x67; 0x2b; 0xfe; 0xd7; 0xab; 0x76;
   0xca; 0x82; 0xc9; 0x7d; 0xfa; 0x59; 0x47; 0xf0; 0xad; 0xd4; 0xa2; 0xaf; 0x9c; 0xa4; 0x72; 0xc0;
   0xb7; 0xfd; 0x93; 0x26; 0x36; 0x3f; 0xf7; 0xcc; 0x34; 0xa5; 0xe5; 0xf1; 0x71; 0xd8; 0x31; 0x15;
   0x04; 0xc7; 0x23; 0xc3; 0x18; 0x96; 0x05; 0x9a; 0x07; 0x12; 0x80; 0xe2; 0xeb; 0x27; 0xb2; 0x75;
   0x09; 0x83; 0x2c; 0x1a; 0x1b; 0x6e; 0x5a; 0xa0; 0x52; 0x3b; 0xd6; 0xb3; 0x29; 0xe3; 0x2f; 0x84;
   0x53; 0xd1; 0x00; 0xed; 0x20; 0xfc; 0xb1; 0x5b; 0x6a; 0xcb; 0xbe; 0x39; 0x4a; 0x4c; 0x58; 0xcf;
   0xd0; 0xef; 0xaa; 0xfb; 0x43; 0x4d; 0x33; 0x85; 0x45; 0xf9; 0x02; 0x7f; 0x50; 0x3c; 0x9f; 0xa8;
   0x51; 0xa3; 0x40; 0x8f; 0x92; 0x9d; 0x38; 0xf5; 0xbc; 0xb6; 0xda; 0x21; 0x10; 0xff; 0xf3; 0xd2;
   0xcd; 0x0c; 0x13; 0xec; 0x5f; 0x97; 0x44; 0x17; 0xc4; 0xa7; 0x7e; 0x3d; 0x64; 0x5d; 0x19; 0x73;
   0x60; 0x81; 0x4f; 0xdc; 0x22; 0x2a; 0x90; 0x88; 0x46; 0xee; 0xb8; 0x14; 0xde; 0x5e; 0x0b; 0xdb;
   0xe0; 0x32; 0x3a; 0x0a; 0x49; 0x06; 0x24; 0x5c; 0xc2; 0xd3; 0xac; 0x62; 0x91; 0x95; 0xe4; 0x79;
   0xe7; 0xc8; 0x37; 0x6d; 0x8d; 0xd5; 0x4e; 0xa9; 0x6c; 0x56; 0xf4; 0xea; 0x65; 0x7a; 0xae; 0x08;
   0xba; 0x78; 0x25; 0x2e; 0x1c; 0xa6; 0xb4; 0xc6; 0xe8; 0xdd; 0x74; 0x1f; 0x4b; 0xbd; 0x8b; 0x8a;
   0x70; 0x3e; 0xb5; 0x66; 0x48; 0x03; 0xf6; 0x0e; 0x61; 0x35; 0x57; 0xb9; 0x86; 0xc1; 0x1d; 0x9e;
   0xe1; 0xf8; 0x98; 0x11; 0x69; 0xd9; 0x8e; 0x94; 0x9b; 0x1e; 0x87; 0xe9; 0xce; 0x55; 0x28; 0xdf;
   0x8c; 0xa1; 0x89; 0x0d; 0xbf; 0xe6; 0x42; 0x68; 0x41; 0x99; 0x2d; 0x0f; 0xb0; 0x54; 0xbb; 0x16].

Definition INV_SBOX : list Z :=
  [0x52; 0x09; 0x6a; 0xd5; 0x30; 0x36; 0xa5; 0x38; 0xbf; 0x40; 0xa3; 0x9e; 0x81; 0xf3; 0xd7; 0xfb;
   0x7c; 0xe3; 0x39; 0x82; 0x9b; 0x2f; 0xff; 0x87; 0x34; 0x8e; 0x43; 0x44; 0xc4; 0xde; 0xe9; 0xcb;
   0x54; 0x7b; 0x94; 0x32; 0xa6; 0xc2; 0x23; 0x3d; 0xee; 0x4c; 0x95; 0x0b; 0x42; 0xfa; 0xc3; 0x4e;
   0x08; 0x2e; 0xa1; 0x66; 0x28; 0xd9; 0x24; 0xb2; 0x76; 0x5b; 0xa2; 0x49; 0x6d; 0x8b; 0xd1; 0x25;
   0x72; 0xf8; 0xf6; 0x64; 0x86; 0x68; 0x98; 0x16; 0xd4; 0xa4; 0x5c; 0xcc; 0x5d; 0x65; 0xb6; 0x92;
   0x6c; 0x70; 0x48; 0x50; 0xfd; 0xed; 0xb9; 0xda; 0x5e; 0x15; 0x46; 0x57; 0xa7; 0x8d; 0x9d; 0x84;
   0x90; 0xd8; 0xab; 0x00; 0x8c; 0xbc; 0xd3; 0x0a; 0xf7; 0xe4; 0x58; 0x05; 0xb8; 0xb3; 0x45; 0x06;
   0xd0; 0x2c; 0x1e; 0x8f; 0xca; 0x3f; 0x0f; 0x02; 0xc1; 0xaf; 0xbd; 0x03; 0x01; 0x13; 0x8a; 0x6b;
   0x3a; 0x91; 0x11; 0x41; 0x4f; 0x67; 0xdc; 0xea; 0x97; 0xf2; 0xcf; 0xce; 0xf0; 0xb4; 0xe6; 0x73;
   0x96; 0xac; 0x74; 0x22; 0xe7; 0xad; 0x35; 0x85; 0xe2; 0xf9; 0x37; 0xe8; 0x1c; 0x75; 0xdf; 0x6e;
   0x47; 0xf1; 0x1a; 0x71; 0x1d; 0x29; 0xc5; 0x89; 0x6f; 0xb7; 0x62; 0x0e; 0xaa; 0x18; 0xbe; 0x1b;
   0xfc; 0x56; 0x3e; 0x4b; 0xc6; 0xd2; 0x79; 0x20; 0x9a; 0xdb; 0xc0; 0xfe; 0x78; 0xcd; 0x5a; 0xf4;
   0x1f; 0xdd; 0xa8; 0x33; 0x88; 0x07; 0xc7; 0x31; 0xb1; 0x12; 0x10; 0x59; 0x27; 0x80; 0xec; 0x5f;
   0x60; 0x51; 0x7f; 0xa9; 0x19; 0xb5; 0x4a; 0x0d; 0x2d; 0xe5; 0x7a; 0x9f; 0x93; 0xc9; 0x9c; 0xef;
   0xa0; 0xe0; 0x3b; 0x4d; 0xae; 0x2a; 0xf5; 0xb0; 0xc8; 0xeb; 0xbb; 0x3c; 0x83; 0x53; 0x99; 0x61;
   0x17; 0x2b; 0x04; 0x7e; 0xba; 0x77; 0xd6; 0x26; 0xe1; 0x69; 0x14; 0x63; 0x55; 0x21; 0x0c; 0x7d].

Definition RCON : list Z := [0x00; 0x01; 0x02; 0x04; 0x08; 0x10; 0x20; 0x40; 0x80; 0x1b; 0x36].

(** [for (i = 0; i < 16; ++i) a[i] = f(i)]. *)
Definition tab16 (f : nat -> Z) : list Z := map f (seq 0 16).

Definition xtime (v : Z) : Z :=
  Z.lxor (u32 (Z.shiftl v 1)) (if negb (Z.land (Z.shiftr v 7) 1 =? 0) then 0x1b else 0).

Definition aes_addroundkey (s rk : list Z) : list Z := tab16 (fun i => Z.lxor (at_ s i) (at_ rk i)).

Definition aes_subbytes (s box : list Z) : list Z := tab16 (fun i => at_ box (Z.to_nat (at_ s i))).

Definition aes_shiftrows (s : list Z) : list Z :=
  let t := at_ s 1 in
  let s := <[1%nat := at_ s 5]> s in
  let s := <[5%nat := at_ s 9]> s in
  let s := <[9%nat := at_ s 13]> s in
  let s := <[13%nat := t]> s in
  let t := at_ s 2 in
  let s := <[2%nat := at_ s 10]> s in
  let s := <[10%nat := t]> s in
  let t := at_ s 6 in
  let s := <[6%nat := at_ s 14]> s in
  let s := <[14%nat := t]> s in
  let t := at_ s 15 in
  let s := <[15%nat := at_ s 11]> s in
  let s := <[11%nat := at_ s 7]> s in
  let s := <[7%nat := at_ s 3]> s in
  <[3%nat := t]> s.

Definition aes_invshiftrows (s : list Z) : list Z :=
  let t := at_ s 13 in
  let s := <[13%nat := at_ s 9]> s in
  let s := <[9%nat := at_ s 5]> s in
  let s := <[5%nat := at_ s 1]> s in
  let s := <[1%nat := t]> s in
  let t := at_ s 2 in
  let s := <[2%nat := at_ s 10]> s in
  let s := <[10%nat := t]> s in
  let t := at_ s 6 in
  let s := <[6%nat := at_ s 14]> s in
  let s := <[14%nat := t]> s in
  let t := at_ s 3 in
  let s := <[3%nat := at_ s 7]> s in
  let s := <[7%nat := at_ s 11]> s in
  let s := <[11%nat := at_ s 15]> s in
  <[15%nat := t]> s.

Definition gm2 (b : Z) : Z := u8 (xtime b).
Definition gm3 (b : Z) : Z := u8 (Z.lxor (gm2 b) b).

Fixpoint gmul_loop (k : nat) (a b p : Z) : Z :=
  match k with
  | O => p
  | S k' => gmul_loop k' (gm2 a) (Z.shiftr b 1) (if negb (Z.land b 1 =? 0) then Z.lxor p a else p)
  end.
Definition gmul (a b : Z) : Z := gmul_loop 8 a b 0.

Definition xor4 (a b c d : Z) : Z := Z.lxor (Z.lxor (Z.lxor a b) c) d.

(** One column. *)
Definition mix_col (x : list Z) : list Z :=
  let a0 := at_ x 0 in let a1 := at_ x 1 in let a2 := at_ x 2 in let a3 := at_ x 3 in
  [u8 (xor4 (gm2 a0) (gm3 a1) a2 a3);
   u8 (xor4 a0 (gm2 a1) (gm3 a2) a3);
   u8 (xor4 a0 a1 (gm2 a2) (gm3 a3));
   u8 (xor4 (gm3 a0) a1 a2 (gm2 a3))].

Definition inv_mix_col (x : list Z) : list Z :=
  let a0 := at_ x 0 in let a1 := at_ x 1 in let a2 := at_ x 2 in let a3 := at_ x 3 in
  [u8 (xor4 (gmul a0 0x0e) (gmul a1 0x0b) (gmul a2 0x0d) (gmul a3 0x09));
   u8 (xor4 (gmul a0 0x09) (gmul a1 0x0e) (gmul a2 0x0b) (gmul a3 0x0d));
   u8 (xor4 (gmul a0 0x0d) (gmul a1 0x09) (gmul a2 0x0e) (gmul a3 0x0b));
   u8 (xor4 (gmul a0 0x0b) (gmul a1 0x0d) (gmul a2 0x09) (gmul a3 0x0e))].

Definition columns (f : list Z -> list Z) (s : list Z) : list Z :=
  flat_map (fun c => f (take 4 (drop (4 * c) s))) (seq 0 4).

Definition aes_mixcolumns (s : list Z) : list Z := columns mix_col s.
Definition aes_invmixcolumns (s : list Z) : list Z := columns inv_mix_col s.

(** [a->rk[i]] from [a->rk[i - 1]]. *)
Definition next_key (i : nat) (p : list Z) : list Z :=
  let sb j := at_ SBOX (Z.to_nat (at_ p j)) in
  let w0 := [Z.lxor (Z.lxor (sb 13%nat) (at_ RCON i)) (at_ p 0); Z.lxor (sb 14%nat) (at_ p 1);
             Z.lxor (sb 15%nat) (at_ p 2); Z.lxor (sb 12%nat) (at_ p 3)] in
  let w1 := zip_with Z.lxor w0 (drop 4 p) in
  let w2 := zip_with Z.lxor w1 (drop 8 p) in
  let w3 := zip_with Z.lxor w2 (drop 12 p) in
  w0 ++ w1 ++ w2 ++ w3.

(** [for (i = 1; i < 11; ++i)]. *)
Fixpoint key_loop (k i : nat) (p : list Z) : list (list Z) :=
  match k with
  | O => []
  | S k' => let r := next_key i p in r :: key_loop k' (S i) r
  end.

Definition tls_aes128_setkey (key : list Z) : list (list Z) := take 16 key :: key_loop 10 1 (take 16 key).

Definition rk (a : list (list Z)) (i : nat) : list Z := nth i a [].

Definition enc_round (a : list (list Z)) (s : list Z) (round : nat) : list Z :=
  aes_addroundkey (aes_mixcolumns (aes_shiftrows (aes_subbytes s SBOX))) (rk a round).

Definition tls_aes128_enc (a : list (list Z)) (input : list Z) : list Z :=
  let s := tab16 (at_ input) in
  let s := aes_addroundkey s (rk a 0) in
  let s := fold_left (enc_round a) (seq 1 9) s in
  let s := aes_subbytes s SBOX in
  let s := aes_shiftrows s in
  let s := aes_addroundkey s (rk a 10) in
  tab16 (at_ s).

Definition dec_round (a : list (list Z)) (s : list Z) (round : nat) : list Z :=
  aes_invmixcolumns (aes_addroundkey (aes_subbytes (aes_invshiftrows s) INV_SBOX) (rk a round)).

Definition tls_aes128_dec (a : list (list Z)) (input : list Z) : list Z :=
  let s := tab16 (at_ input) in
  let s := aes_addroundkey s (rk a 10) in
  let s := fold_left (dec_round a) (rev (seq 1 9)) s in
  let s := aes_invshiftrows s in
  let s := aes_subbytes s INV_SBOX in
  let s := aes_addroundkey s (rk a 0) in
  tab16 (at_ s).

(** FIPS 197, appendix C.1. *)
Example aes_fips197 :
  tls_aes128_enc (tls_aes128_setkey (map Z.of_nat (seq 0 16))) (map (fun i => 0x11 * Z.of_nat i) (seq 0 16)) =
  [0x69; 0xc4; 0xe0; 0xd8; 0x6a; 0x7b; 0x04; 0x30; 0xd8; 0xcd; 0xb7; 0x80; 0x70; 0xb4; 0xc5; 0x5a].
Proof. vm_compute. reflexivity. Qed.

(** * Decryption undoes encryption *)

Lemma at_tab16 f i : (i < 16)%nat -> at_ (tab16 f) i = f i.
Proof. intros H. do 16 (destruct i as [|i]; [done|]). lia. Qed.

Lemma tab16_at s : length s = 16%nat -> tab16 (at_ s) = s.
Proof. intros H. do 17 (destruct s as [|? s]; try done). Qed.

Definition block (s : list Z) : Prop := length s = 16%nat /\ bytes s.

Lemma tab16_block f : (forall i, (i < 16)%nat -> is_u8 (f i)) -> block (tab16 f).
Proof. intros H. split; [done|]. apply Forall_map, Forall_forall. intros i Hi%list_elem_of_In%in_seq. apply H. lia. Qed.

Lemma lxor_u8 a b : is_u8 a -> is_u8 b -> is_u8 (Z.lxor a b).
Proof.
  unfold is_u8. intros Ha Hb. assert (0 <= Z.lxor a b) by (apply Z.lxor_nonneg; lia). split; [done|].
  destruct (Z.eq_dec (Z.lxor a b) 0) as [->|]; [lia|]. apply Z.log2_lt_pow2; [lia|].
  pose proof (Z.log2_lxor a b ltac:(lia) ltac:(lia)).
  assert (forall x, 0 <= x < 2 ^ 8 -> Z.log2 x < 8) as Hl.
  { intros x Hx. destruct (Z.eq_dec x 0) as [->|]; [done|]. apply Z.log2_lt_pow2; lia. }
  pose proof (Hl a Ha). pose proof (Hl b Hb). lia.
Qed.

Definition byte_range : list Z := map Z.of_nat (seq 0 256).

Lemma all_byte_pairs (P : Z -> Z -> bool) x y :
  is_u8 x -> is_u8 y -> forallb (fun a => forallb (P a) byte_range) byte_range = true -> P x y = true.
Proof. intros Hx Hy H. apply (all_bytes (P x) y Hy), (all_bytes (fun a => forallb (P a) byte_range) x Hx H). Qed.

Ltac by_bytes :=
  match goal with
  | H : is_u8 ?x |- ?a = ?b =>
      apply Z.eqb_eq;
      match goal with
      | |- ?e = true =>
          match eval pattern x in e with ?P _ => refine (all_bytes P x H _); vm_compute; reflexivity end
      end
  end.

Lemma gm2_linear a b : is_u8 a -> is_u8 b -> gm2 (Z.lxor a b) = Z.lxor (gm2 a) (gm2 b).
Proof.
  intros Ha Hb. apply Z.eqb_eq.
  apply (all_byte_pairs (fun a b => gm2 (Z.lxor a b) =? Z.lxor (gm2 a) (gm2 b))); [done|done|vm_compute; reflexivity].
Qed.

Lemma gm2_u8 a : is_u8 (gm2 a).
Proof. apply u8_range. Qed.

Lemma lxor_swap a b c d : Z.lxor (Z.lxor a b) (Z.lxor c d) = Z.lxor (Z.lxor a c) (Z.lxor b d).
Proof. apply Z.bits_inj'. intros i _. rewrite !Z.lxor_spec. btauto. Qed.

Lemma gmul_loop_linear k c a b p q :
  is_u8 a -> is_u8 b ->
  gmul_loop k (Z.lxor a b) c (Z.lxor p q) = Z.lxor (gmul_loop k a c p) (gmul_loop k b c q).
Proof.
  revert a b c p q; induction k as [|k IH]; intros a b c p q Ha Hb; [done|]. cbn [gmul_loop].
  rewrite gm2_linear by done. rewrite <- IH by apply gm2_u8. f_equal. destruct (Z.land c 1 =? 0); [done|]. apply lxor_swap.
Qed.

Lemma gmul_linear a b c : is_u8 a -> is_u8 b -> gmul (Z.lxor a b) c = Z.lxor (gmul a c) (gmul b c).
Proof. intros. unfold gmul. by rewrite <- gmul_loop_linear. Qed.

Lemma xor4_u8 a b c d : is_u8 a -> is_u8 b -> is_u8 c -> is_u8 d -> is_u8 (xor4 a b c d).
Proof. intros. unfold xor4. by repeat apply lxor_u8. Qed.

Lemma gmul_xor4 a b c d k :
  is_u8 a -> is_u8 b -> is_u8 c -> is_u8 d -> gmul (xor4 a b c d) k = xor4 (gmul a k) (gmul b k) (gmul c k) (gmul d k).
Proof. intros. unfold xor4. rewrite !gmul_linear by (repeat apply lxor_u8; done). done. Qed.

Lemma xor4_transpose a0 a1 a2 a3 b0 b1 b2 b3 c0 c1 c2 c3 d0 d1 d2 d3 :
  xor4 (xor4 a0 a1 a2 a3) (xor4 b0 b1 b2 b3) (xor4 c0 c1 c2 c3) (xor4 d0 d1 d2 d3) =
  xor4 (xor4 a0 b0 c0 d0) (xor4 a1 b1 c1 d1) (xor4 a2 b2 c2 d2) (xor4 a3 b3 c3 d3).
Proof. unfold xor4. apply Z.bits_inj'. intros i _. rewrite !Z.lxor_spec. btauto. Qed.

Lemma gmul_u8 a c : is_u8 a -> is_u8 (gmul a c).
Proof.
  unfold gmul. assert (forall k a c p, is_u8 a -> is_u8 p -> is_u8 (gmul_loop k a c p)) as H.
  { induction k as [|k IH]; intros a' c' p Ha Hp; [done|]. cbn [gmul_loop]. apply IH; [apply gm2_u8|].
    destruct (negb _); [by apply lxor_u8|done]. }
  intros Ha. apply H; [done|]. unfold is_u8. lia.
Qed.

Lemma gm3_u8 a : is_u8 (gm3 a).
Proof. apply u8_range. Qed.

Local Hint Resolve gm2_u8 gm3_u8 gmul_u8 xor4_u8 : core.

(** A row of the inverse matrix against the columns of the matrix: 1 on the diagonal, 0 elsewhere. *)
Lemma row_0 a : is_u8 a -> xor4 (gmul (gm2 a) 14) (gmul a 11) (gmul a 13) (gmul (gm3 a) 9) = a.
Proof. intros. by_bytes. Qed.
Lemma row_1 a : is_u8 a -> xor4 (gmul (gm3 a) 14) (gmul (gm2 a) 11) (gmul a 13) (gmul a 9) = 0.
Proof. intros. by_bytes. Qed.
Lemma row_2 a : is_u8 a -> xor4 (gmul a 14) (gmul (gm3 a) 11) (gmul (gm2 a) 13) (gmul a 9) = 0.
Proof. intros. by_bytes. Qed.
Lemma row_3 a : is_u8 a -> xor4 (gmul a 14) (gmul a 11) (gmul (gm3 a) 13) (gmul (gm2 a) 9) = 0.
Proof. intros. by_bytes. Qed.

(** The matrices are circulant: every other entry is one of these up to rotation. *)
Lemma xor4_rot a b c d : xor4 a b c d = xor4 b c d a.
Proof. unfold xor4. apply Z.bits_inj'. intros i _. rewrite !Z.lxor_spec. btauto. Qed.

Lemma xor4_rot2 a b c d : xor4 a b c d = xor4 c d a b.
Proof. by rewrite xor4_rot, xor4_rot. Qed.
Lemma xor4_rot3 a b c d : xor4 a b c d = xor4 d a b c.
Proof. by rewrite xor4_rot, xor4_rot2. Qed.

Lemma inv_row a0 a1 a2 a3 :
  is_u8 a0 -> is_u8 a1 -> is_u8 a2 -> is_u8 a3 ->
  u8 (xor4 (gmul (xor4 (gm2 a0) (gm3 a1) a2 a3) 14) (gmul (xor4 a0 (gm2 a1) (gm3 a2) a3) 11)
           (gmul (xor4 a0 a1 (gm2 a2) (gm3 a3)) 13) (gmul (xor4 (gm3 a0) a1 a2 (gm2 a3)) 9)) = a0.
Proof.
  intros. rewrite !gmul_xor4, xor4_transpose by auto. rewrite row_0, row_1, row_2, row_3 by done.
  unfold xor4. rewrite !Z.lxor_0_r. by apply u8_id.
Qed.

Lemma mix_col_inv a0 a1 a2 a3 :
  is_u8 a0 -> is_u8 a1 -> is_u8 a2 -> is_u8 a3 -> inv_mix_col (mix_col [a0; a1; a2; a3]) = [a0; a1; a2; a3].
Proof.
  intros H0 H1 H2 H3. unfold inv_mix_col, mix_col. cbn [at_ nth].
  rewrite (u8_id (xor4 (gm2 a0) _ _ _)), (u8_id (xor4 a0 (gm2 a1) _ _)), (u8_id (xor4 a0 a1 _ _)),
    (u8_id (xor4 (gm3 a0) _ _ _)) by auto.
  f_equal; [by apply inv_row|]. f_equal; [|f_equal; [|f_equal]].
  - etransitivity; [|by apply (inv_row a1 a2 a3 a0)]. f_equal. rewrite (xor4_rot (gmul _ _)), (xor4_rot (gm2 a0)),
      (xor4_rot a0 (gm2 a1)), (xor4_rot a0 a1), (xor4_rot (gm3 a0)). done.
  - etransitivity; [|by apply (inv_row a2 a3 a0 a1)]. f_equal. rewrite (xor4_rot2 (gmul _ _)), (xor4_rot2 (gm2 a0)),
      (xor4_rot2 a0 (gm2 a1)), (xor4_rot2 a0 a1), (xor4_rot2 (gm3 a0)). done.
  - etransitivity; [|by apply (inv_row a3 a0 a1 a2)]. f_equal. rewrite (xor4_rot3 (gmul _ _)), (xor4_rot3 (gm2 a0)),
      (xor4_rot3 a0 (gm2 a1)), (xor4_rot3 a0 a1), (xor4_rot3 (gm3 a0)). done.
Qed.

Lemma columns_app f a b c d :
  length a = 4%nat -> length b = 4%nat -> length c = 4%nat -> length d = 4%nat ->
  columns f (a ++ b ++ c ++ d) = f a ++ f b ++ f c ++ f d.
Proof.
  intros. repeat match goal with H : length ?l = 4%nat |- _ => do 5 (destruct l as [|? l]; try done); clear H end.
  unfold columns. cbn [flat_map seq Nat.mul Nat.add take drop app]. by rewrite app_nil_r.
Qed.

Lemma mixcolumns_inv s : block s -> aes_invmixcolumns (aes_mixcolumns s) = s.
Proof.
  intros [Hl Hb]. do 17 (destruct s as [|? s]; try done). repeat (apply Forall_cons in Hb as [? Hb]).
  unfold aes_invmixcolumns, aes_mixcolumns.
  match goal with |- _ = ?s => change s with (take 4 s ++ take 4 (drop 4 s) ++ take 4 (drop 8 s) ++ drop 12 s) end.
  cbn [take drop]. rewrite !columns_app by done. by rewrite !mix_col_inv by done.
Qed.

Lemma addroundkey_inv s k : block s -> aes_addroundkey (aes_addroundkey s k) k = s.
Proof.
  intros [Hl _]. rewrite <- (tab16_at s Hl) at 2. apply map_ext_in. intros i [_ Hi]%in_seq.
  unfold aes_addroundkey. rewrite at_tab16 by lia. by rewrite Z.lxor_assoc, Z.lxor_nilpotent, Z.lxor_0_r.
Qed.

Lemma sbox_inv x : is_u8 x -> at_ INV_SBOX (Z.to_nat (at_ SBOX (Z.to_nat x))) = x.
Proof. intros. by_bytes. Qed.

Lemma subbytes_inv s : block s -> aes_subbytes (aes_subbytes s SBOX) INV_SBOX = s.
Proof.
  intros [Hl Hb]. rewrite <- (tab16_at s Hl) at 2. apply map_ext_in. intros i [_ Hi]%in_seq.
  unfold aes_subbytes. rewrite at_tab16 by lia. apply sbox_inv. by apply bytes_at.
Qed.

Lemma shiftrows_inv s : block s -> aes_invshiftrows (aes_shiftrows s) = s.
Proof. intros [Hl _]. do 17 (destruct s as [|? s]; try done). Qed.

Lemma addroundkey_block s k : block s -> block k -> block (aes_addroundkey s k).
Proof. intros [_ Hs] [_ Hk]. apply tab16_block. intros. apply lxor_u8; by apply bytes_at. Qed.

Lemma sbox_bytes : bytes SBOX.
Proof. by apply bytes_closed. Qed.

Lemma subbytes_block s : block (aes_subbytes s SBOX).
Proof. apply tab16_block. intros. apply bytes_at, sbox_bytes. Qed.

Lemma shiftrows_block s : block s -> block (aes_shiftrows s).
Proof.
  intros [Hl Hb]. split; [unfold aes_shiftrows; rewrite !length_insert; done|].
  unfold aes_shiftrows. repeat apply Forall_insert; try done; by repeat (apply bytes_at || apply Forall_insert).
Qed.

Lemma mixcolumns_block s : block (aes_mixcolumns s).
Proof.
  split; [done|]. apply Forall_flat_map, Forall_forall. intros c _. unfold mix_col. repeat constructor; apply u8_range.
Qed.

Lemma zip_xor_bytes a b : bytes a -> bytes b -> bytes (zip_with Z.lxor a b).
Proof.
  intros Ha. revert b; induction Ha as [|x a Hx Ha IH]; intros b Hb; [constructor|]. destruct Hb as [|y b Hy Hb]; [constructor|].
  cbn [zip_with]. constructor; [by apply lxor_u8|by apply IH].
Qed.

Lemma next_key_block i p : block p -> block (next_key i p).
Proof.
  intros [Hl Hb]. assert (bytes RCON) as Hr by (by apply bytes_closed). pose proof sbox_bytes as Hs.
  split; [do 17 (destruct p as [|? p]; try done)|]. unfold next_key.
  set (w0 := [_; _; _; _]).
  assert (bytes w0) as H0 by (repeat (apply Forall_cons; split); try apply Forall_nil; try done; repeat apply lxor_u8; by apply bytes_at).
  clearbody w0. repeat apply Forall_app_2; repeat apply zip_xor_bytes; done || by apply Forall_drop.
Qed.

Lemma key_loop_blocks k i p : block p -> Forall block (key_loop k i p).
Proof.
  revert i p; induction k as [|k IH]; intros i p Hp; [constructor|]. cbn [key_loop].
  constructor; [by apply next_key_block|by apply IH, next_key_block].
Qed.

Lemma length_key_loop k i p : length (key_loop k i p) = k.
Proof. revert i p; induction k as [|k IH]; intros i p; [done|]. cbn [key_loop length]. by rewrite IH. Qed.

Lemma rk_block key i : block key -> (i <= 10)%nat -> block (rk (tls_aes128_setkey key) i).
Proof.
  intros [Hl Hb] Hi. unfold tls_aes128_setkey. rewrite take_ge by lia.
  assert (Forall block (key :: key_loop 10 1 key)) as Hf by (constructor; [done|by apply key_loop_blocks]).
  unfold rk. eapply (proj1 (Stdlib.Lists.List.Forall_forall _ _)); [exact Hf|]. apply nth_In. cbn [length].
  rewrite length_key_loop. lia.
Qed.

(** ** The rounds *)

Lemma fold_left_cons {A C} (f : A -> C -> A) x l s : fold_left f (x :: l) s = fold_left f l (f s x).
Proof. done. Qed.
Lemma fold_left_nil {A C} (f : A -> C -> A) s : fold_left f [] s = s.
Proof. done. Qed.

Section Rounds.
Variable a : list (list Z).
Hypothesis Hrk : forall i, (i <= 10)%nat -> block (rk a i).

Lemma enc_round_block s i : (i <= 10)%nat -> block (enc_round a s i).
Proof. intros Hi. apply addroundkey_block; [apply mixcolumns_block|by apply Hrk]. Qed.

(** A decryption round undoes an encryption round, one half-round out of phase. *)
Lemma dec_round_undoes s i :
  block s -> (i <= 10)%nat ->
  dec_round a (aes_shiftrows (aes_subbytes (enc_round a s i) SBOX)) i = aes_shiftrows (aes_subbytes s SBOX).
Proof.
  intros Hs Hi. unfold dec_round. rewrite shiftrows_inv by apply subbytes_block.
  rewrite subbytes_inv by (by apply enc_round_block). unfold enc_round.
  rewrite addroundkey_inv by apply mixcolumns_block. apply mixcolumns_inv, shiftrows_block, subbytes_block.
Qed.

Lemma rounds_block l s : block s -> Forall (fun i => (i <= 10)%nat) l -> block (fold_left (enc_round a) l s).
Proof.
  intros Hs Hl. revert s Hs; induction Hl as [|i l Hi Hl IH]; intros s Hs; [done|].
  rewrite fold_left_cons. by apply IH, enc_round_block.
Qed.

Lemma rounds_undone l s :
  block s -> Forall (fun i => (i <= 10)%nat) l ->
  fold_left (dec_round a) (rev l) (aes_shiftrows (aes_subbytes (fold_left (enc_round a) l s) SBOX)) =
  aes_shiftrows (aes_subbytes s SBOX).
Proof.
  intros Hs. induction l as [|i l IH] using rev_ind; intros Hl; [done|]. apply Forall_app in Hl as [Hl Hi].
  apply Forall_cons_1 in Hi as [Hi _]. rewrite rev_unit, fold_left_app, !fold_left_cons, fold_left_nil.
  rewrite dec_round_undoes by (done || by apply rounds_block). by apply IH.
Qed.

Lemma aes_dec_enc s : block s -> tls_aes128_dec a (tls_aes128_enc a s) = s /\ block (tls_aes128_enc a s).
Proof.
  intros Hs. unfold tls_aes128_enc, tls_aes128_dec. rewrite !(tab16_at s) by apply Hs.
  assert (Forall (fun i => (i <= 10)%nat) (seq 1 9)) as Hl by (repeat constructor).
  pose proof (addroundkey_block s (rk a 0) Hs (Hrk 0%nat ltac:(lia))) as H0.
  set (s0 := aes_addroundkey s (rk a 0)) in *. set (s9 := fold_left (enc_round a) (seq 1 9) s0).
  assert (block (aes_shiftrows (aes_subbytes s9 SBOX))) as H9 by apply shiftrows_block, subbytes_block.
  pose proof (addroundkey_block _ _ H9 (Hrk 10%nat ltac:(lia))) as H10.
  rewrite (tab16_at (aes_addroundkey _ (rk a 10))) by done. split; [|done].
  rewrite (tab16_at (aes_addroundkey _ (rk a 10))), addroundkey_inv by done. unfold s9. rewrite rounds_undone by done.
  rewrite shiftrows_inv, subbytes_inv by (done || apply subbytes_block). unfold s0. rewrite addroundkey_inv by done.
  by apply tab16_at, Hs.
Qed.
End Rounds.

(** C35: AES-128 decryption undoes encryption, for every key and every block:
    the tables are inverse permutations, ShiftRows and MixColumns have their
    inverses in [aes_invshiftrows] and [aes_invmixcolumns], and the rounds of
    [tls_aes128_dec] take the expanded key in the opposite order. *)
Theorem aes_roundtrip key s :
  block key -> block s ->
  tls_aes128_dec (tls_aes128_setkey key) (tls_aes128_enc (tls_aes128_setkey key) s) = s /\
  block (tls_aes128_enc (tls_aes128_setkey key) s).
Proof. intros Hk Hs. apply aes_dec_enc; [|done]. intros i Hi. by apply rk_block. Qed.

Lemma aes_roundtrip_witness :
  tls_aes128_dec (tls_aes128_setkey (cs "0123456789abcdef")) (tls_aes128_enc (tls_aes128_setkey (cs "0123456789abcdef")) (cs "attack at dawn!!"))
    = cs "attack at dawn!!" /\
  block (tls_aes128_enc (tls_aes128_setkey (cs "0123456789abcdef")) (cs "attack at dawn!!")).
Proof. apply aes_roundtrip; (split; [reflexivity|by apply bytes_closed]). Defined.
