(* ===== verification/Gcm.v ===== *)
(** AES-128-GCM ([vlibc/src/tls/tls_crypto.c], from [gcm_inc32] on).

    A 16-byte array is a list of 16 bytes and a buffer written through a
    pointer is a list passed in and handed back.  [tls_gcm_open] gets a pointer
    to a tag buffer that its callers aim at their own stack, at nothing, or into
    the ciphertext buffer itself: [tag_ptr] says which.  [Trap] is a store past
    the end of the plaintext buffer. *)
From Stdlib Require Import Btauto.
From S2P Require Import Prelude Aes.
Local Open Scope vnu_scope.

(** [for (i = 0; i < 4; ++i)] from index [i] on: [if (++ctr[15 - i]) break]. *)
Fixpoint inc_loop (k i : nat) (ctr : list Z) : list Z :=
  match k with
  | O => ctr
  | S k' =>
      let idx := (15 - i)%nat in
      let v := u8 (at_ ctr idx + 1) in
      let ctr := <[idx := v]> ctr in
      if negb (v =? 0) then ctr else inc_loop k' (S i) ctr
  end.
Definition gcm_inc32 (ctr : list Z) : list Z := inc_loop 4 0 ctr.

Definition rev_byte (v : Z) : Z :=
  let v := u8 (Z.lor (Z.shiftl (Z.land v 0x0f) 4) (Z.shiftr (Z.land v 0xf0) 4)) in
  let v := u8 (Z.lor (Z.shiftl (Z.land v 0x33) 2) (Z.shiftr (Z.land v 0xcc) 2)) in
  u8 (Z.lor (Z.shiftl (Z.land v 0x55) 1) (Z.shiftr (Z.land v 0xaa) 1)).

Definition gcm_rev128 (input : list Z) : list Z := tab16 (fun i => rev_byte (at_ input (15 - i))).

Definition gf_xor (z x : list Z) : list Z := tab16 (fun i => Z.lxor (at_ z i) (at_ x i)).

(** [v *= x]. *)
Definition gf_double (v : list Z) : list Z :=
  let carry := Z.shiftr (at_ v 0) 7 in
  let v' := map (fun j => u8 (Z.lor (Z.shiftl (at_ v j) 1) (Z.shiftr (at_ v (S j)) 7))) (seq 0 15) ++
            [u8 (Z.shiftl (at_ v 15) 1)] in
  if negb (carry =? 0) then <[15%nat := Z.lxor (at_ v' 15) 0x87]> v' else v'.

(** [for (bit = 0; bit < 128; ++bit)], from [bit] on. *)
Fixpoint ghash_loop (k bit : nat) (x z v : list Z) : list Z :=
  match k with
  | O => z
  | S k' =>
      let xb := u8 (Z.land (Z.shiftr (at_ x (15 - bit / 8)) (Z.of_nat (bit mod 8))) 1) in
      let z := if negb (xb =? 0) then gf_xor z v else z in
      ghash_loop k' (S bit) x z (gf_double v)
  end.

Definition ghash_absorb (acc blk H : list Z) : list Z :=
  let bf := gcm_rev128 blk in
  let x := tab16 (fun i => Z.lxor (at_ acc i) (at_ bf i)) in
  ghash_loop 128 0 x (replicate 16 0) (take 16 H).

(** [while (off < len)]: the counter and the output. *)
Fixpoint gctr_loop (fuel : nat) (a : list (list Z)) (ctr input : list Z) : list Z * list Z :=
  match fuel, input with
  | S fuel', _ :: _ =>
      let e := tls_aes128_enc a ctr in
      let n := Nat.min 16 (length input) in
      let out := zip_with Z.lxor (take n input) e in
      let r := gctr_loop fuel' a (gcm_inc32 ctr) (drop n input) in
      (fst r, out ++ snd r)
  | _, _ => (ctr, [])
  end.
Definition gcm_gctr (a : list (list Z)) (ctr input : list Z) : list Z * list Z := gctr_loop (length input) a ctr input.

(** [while (off < aadlen)] and [while (off < ctlen)]. *)
Fixpoint hash_loop (fuel : nat) (S_ data Hf : list Z) : list Z :=
  match fuel, data with
  | S fuel', _ :: _ =>
      let n := Nat.min 16 (length data) in
      let blk := take n data ++ replicate (16 - n) 0 in
      hash_loop fuel' (ghash_absorb S_ blk Hf) (drop n data) Hf
  | _, _ => S_
  end.

Definition gcm_hash_final (aad ct H S_ : list Z) : list Z :=
  let Hf := gcm_rev128 H in
  let S_ := hash_loop (length aad) S_ aad Hf in
  let S_ := hash_loop (length ct) S_ ct Hf in
  let lenblk := be64 (u64 (Z.of_nat (length aad) * 8)) ++ be64 (u64 (Z.of_nat (length ct) * 8)) in
  gcm_rev128 (ghash_absorb S_ lenblk Hf).

Definition J0 (nonce : list Z) : list Z := take 12 nonce ++ [0; 0; 0; 1].

(** [ct] on return: the ciphertext and the tag. *)
Definition tls_gcm_seal (key nonce aad pt : list Z) : list Z :=
  let a := tls_aes128_setkey key in
  let H := tls_aes128_enc a (replicate 16 0) in
  let ct := snd (gcm_gctr a (gcm_inc32 (J0 nonce)) pt) in
  let S_ := gcm_hash_final aad ct H (replicate 16 0) in
  ct ++ snd (gcm_gctr a (J0 nonce) S_).

Inductive tag_ptr := TagNull | TagBuf | TagInCt (off : nat).

(** What [tls_gcm_open] leaves: its result, the two buffers, the tag stored in a buffer of its own. *)
Record opened := Opened { o_ret : Z; o_ct : list Z; o_pt : list Z; o_tag : option (list Z) }.

Definition TLS_GCM_TAG : nat := 16.

(** [memcpy(p, s, |s|)] over the start of the buffer [p]. *)
Definition over (s p : list Z) : list Z := s ++ drop (length s) p.

(** [for (i = 0; i < TLS_GCM_TAG; ++i) bad |= T[i] ^ ct[ptlen + i]]. *)
Definition tag_diff (T ct : list Z) (ptlen : nat) : Z :=
  fold_left (fun bad i => Z.lor bad (Z.lxor (at_ T i) (at_ ct (ptlen + i)))) (seq 0 16) 0.

Definition tls_gcm_open (key nonce aad ct pt : list Z) (tag : tag_ptr) : outcome opened :=
  if (length ct <? TLS_GCM_TAG)%nat then Done (Opened (-1) ct pt None)
  else
    let ptlen := (length ct - TLS_GCM_TAG)%nat in
    let a := tls_aes128_setkey key in
    let H := tls_aes128_enc a (replicate 16 0) in
    let p := snd (gcm_gctr a (gcm_inc32 (J0 nonce)) (take ptlen ct)) in
    if (length pt <? ptlen)%nat then Trap
    else
      let pt := over p pt in
      let S_ := gcm_hash_final aad (take ptlen ct) H (replicate 16 0) in
      let T := snd (gcm_gctr a (J0 nonce) S_) in
      let ct := match tag with TagInCt off => take off ct ++ over T (drop off ct) | _ => ct end in
      let o_tag := match tag with TagBuf => Some T | _ => None end in
      if negb (tag_diff T ct ptlen =? 0) then Done (Opened (-1) ct (over (replicate ptlen 0) pt) o_tag)
      else Done (Opened 0 ct pt o_tag).

(** The GCM specification, test case 2. *)
Example gcm_test_case_2 :
  tls_gcm_seal (replicate 16 0) (replicate 12 0) [] (replicate 16 0) =
  [0x03; 0x88; 0xda; 0xce; 0x60; 0xb6; 0xa3; 0x92; 0xf3; 0x28; 0xc2; 0xb9; 0x71; 0xb2; 0xfe; 0x78;
   0xab; 0x6e; 0x47; 0xd4; 0x2c; 0xec; 0x13; 0xbd; 0xf5; 0x3a; 0x67; 0xb2; 0x12; 0x57; 0xbd; 0xdf].
Proof. vm_compute. reflexivity. Qed.

(** * The counter *)

Definition ctr_val (c : list Z) : Z := be (drop 12 c).

Lemma be4 a b c d : be [a; b; c; d] = a * 16777216 + b * 65536 + c * 256 + d.
Proof.
  cbn [be length]. change (256 ^ Z.of_nat 3) with 16777216. change (256 ^ Z.of_nat 2) with 65536.
  change (256 ^ Z.of_nat 1) with 256. change (256 ^ Z.of_nat 0) with 1. ring.
Qed.

(** the counter block is a 32-bit big-endian counter: [gcm_inc32] adds one
    to its last four bytes modulo 2^32 and leaves the nonce alone. *)
Theorem gcm_inc32_counts c :
  block c -> block (gcm_inc32 c) /\ take 12 (gcm_inc32 c) = take 12 c /\ ctr_val (gcm_inc32 c) = (ctr_val c + 1) mod 2 ^ 32.
Proof.
  intros [Hl Hb]. do 17 (destruct c as [|? c]; try done). repeat (apply Forall_cons in Hb as [? Hb]). clear Hl Hb.
  unfold is_u8 in *. change (2 ^ 8) with 256 in *. unfold gcm_inc32, ctr_val.
  assert (forall x, 0 <= x < 256 -> u8 (x + 1) = if x =? 255 then 0 else x + 1) as Hu.
  { intros x Hx. unfold u8. change (2 ^ 8) with 256. destruct (Z.eqb_spec x 255) as [->|]; [done|]. apply Z.mod_small. lia. }
  unfold at_. cbn -[u8 be Z.add Z.eqb Z.pow]. rewrite (Hu z14), (Hu z13), (Hu z12), (Hu z11) by done. rewrite be4. change (2 ^ 32) with 4294967296.
  destruct (Z.eqb_spec z14 255) as [->|];
    [change (0 =? 0) with true; cbn [negb]; destruct (Z.eqb_spec z13 255) as [->|];
      [change (0 =? 0) with true; cbn [negb]; destruct (Z.eqb_spec z12 255) as [->|];
        [change (0 =? 0) with true; cbn [negb]; destruct (Z.eqb_spec z11 255) as [->|]; [change (0 =? 0) with true; cbn [negb]|]|]|]|].
  all: repeat match goal with |- context [?x + 1 =? 0] => rewrite (proj2 (Z.eqb_neq (x + 1) 0)) by lia end; cbn [negb].
  all: split; [split; [done|repeat (apply Forall_cons; split); try apply Forall_nil; unfold is_u8; lia]|split; [done|]].
  all: cbn [drop]; rewrite be4; (reflexivity || (rewrite Z.mod_small; lia)).
Qed.

Lemma length_cipher a s : length (tls_aes128_enc a s) = 16%nat.
Proof. done. Qed.

(** * Counter mode *)

Lemma zip_xor_twice x e : (length x <= length e)%nat -> zip_with Z.lxor (zip_with Z.lxor x e) e = x.
Proof.
  revert e; induction x as [|a x IH]; intros [|b e] Hl; try done; simpl in Hl; try lia. cbn [zip_with].
  rewrite IH by lia. by rewrite Z.lxor_assoc, Z.lxor_nilpotent, Z.lxor_0_r.
Qed.

Lemma length_zip_xor x e : (length x <= length e)%nat -> length (zip_with Z.lxor x e) = length x.
Proof. intros. rewrite length_zip_with. lia. Qed.

Lemma gctr_loop_twice fuel a ctr x :
  (length x <= fuel)%nat ->
  length (snd (gctr_loop fuel a ctr x)) = length x /\ snd (gctr_loop fuel a ctr (snd (gctr_loop fuel a ctr x))) = x.
Proof.
  revert ctr x; induction fuel as [|fuel IH]; intros ctr x Hl; [destruct x; [done|simpl in Hl; lia]|].
  destruct x as [|c x0] eqn:E; [done|]. rewrite <- E in *. assert (0 < length x)%nat as Hpos by (subst; simpl; lia). clear E.
  cbn [gctr_loop]. destruct x as [|c0 x1]; [simpl in Hpos; lia|]. set (y := c0 :: x1) in *.
  set (n := Nat.min 16 (length y)). set (e := tls_aes128_enc a ctr). pose proof (length_cipher a ctr) as He. fold e in He.
  destruct (IH (gcm_inc32 ctr) (drop n y)) as [H1 H2]; [rewrite length_drop; lia|]. cbn [fst snd].
  set (o1 := zip_with Z.lxor (take n y) e). set (o2 := snd (gctr_loop fuel a (gcm_inc32 ctr) (drop n y))) in *.
  assert (length o1 = n) as L1 by (unfold o1; rewrite length_zip_xor; rewrite length_take; lia).
  assert (length (o1 ++ o2) = length y) as L by (rewrite length_app, L1, H1, length_drop; lia).
  split; [done|]. destruct (o1 ++ o2) as [|w ws] eqn:Ew; [simpl in L; lia|]. rewrite <- Ew. rewrite <- Ew in L.
  rewrite L. fold n. rewrite (take_app_le o1 o2), (take_ge o1), (drop_app_ge o1 o2) by lia.
  replace (n - length o1)%nat with 0%nat by lia. rewrite drop_0. cbn [snd]. rewrite H2. unfold o1.
  rewrite zip_xor_twice by (rewrite length_take; lia). apply take_drop.
Qed.

Lemma gcm_gctr_twice a ctr x :
  length (snd (gcm_gctr a ctr x)) = length x /\ snd (gcm_gctr a ctr (snd (gcm_gctr a ctr x))) = x.
Proof.
  unfold gcm_gctr. destruct (gctr_loop_twice (length x) a ctr x ltac:(lia)) as [H1 H2]. rewrite H1. done.
Qed.

(** * Sealing and opening *)

Definition gcm_crypt (key nonce x : list Z) : list Z :=
  snd (gcm_gctr (tls_aes128_setkey key) (gcm_inc32 (J0 nonce)) x).

(** The tag of a ciphertext. *)
Definition gcm_tag (key nonce aad ct : list Z) : list Z :=
  let a := tls_aes128_setkey key in
  snd (gcm_gctr a (J0 nonce) (gcm_hash_final aad ct (tls_aes128_enc a (replicate 16 0)) (replicate 16 0))).

Local Opaque tls_aes128_enc tls_aes128_setkey gcm_hash_final gcm_gctr.

Lemma length_gcm_tag key nonce aad ct : length (gcm_tag key nonce aad ct) = 16%nat.
Proof. unfold gcm_tag. rewrite (proj1 (gcm_gctr_twice _ _ _)). done. Qed.

Lemma seal_split key nonce aad pt :
  tls_gcm_seal key nonce aad pt = gcm_crypt key nonce pt ++ gcm_tag key nonce aad (gcm_crypt key nonce pt).
Proof. unfold tls_gcm_seal, gcm_crypt, gcm_tag. cbv zeta. reflexivity. Qed.

Lemma tag_diff_spec T c t :
  length T = 16%nat -> length t = 16%nat -> (tag_diff T (c ++ t) (length c) =? 0) = bool_decide (T = t).
Proof.
  intros HT Ht. unfold tag_diff.
  assert (forall l b, fold_left (fun bad i => Z.lor bad (Z.lxor (at_ T i) (at_ (c ++ t) (length c + i)))) l b = 0 <->
    b = 0 /\ forall i, In i l -> at_ T i = at_ (c ++ t) (length c + i)) as Hf.
  { induction l as [|i l IH]; intros b; cbn [fold_left]; [cbn; tauto|]. rewrite IH, Z.lor_eq_0_iff, Z.lxor_eq_0_iff. cbn.
    split; [intros [[-> E] H]; split; [done|]; intros j [<-|Hj]; auto|intros [-> H]; auto]. }
  apply eq_true_iff_eq. rewrite Z.eqb_eq, Hf, bool_decide_eq_true. split.
  - intros [_ H]. apply list_eq_at; [lia|]. intros i Hi. rewrite H by (apply in_seq; lia). rewrite at_app_r by lia. f_equal. lia.
  - intros ->. split; [done|]. intros i _. rewrite at_app_r by lia. f_equal. lia.
Qed.

Lemma length_gcm_crypt key nonce x : length (gcm_crypt key nonce x) = length x.
Proof. apply gcm_gctr_twice. Qed.

Lemma gcm_crypt_twice key nonce x : gcm_crypt key nonce (gcm_crypt key nonce x) = x.
Proof. apply gcm_gctr_twice. Qed.

Section Open.
Variables (key nonce aad c t pt : list Z).
Hypothesis Ht : length t = 16%nat.
Hypothesis Hpt : (length c <= length pt)%nat.

(** The call up to the store of the tag. *)
Lemma open_start tag :
  tls_gcm_open key nonce aad (c ++ t) pt tag =
  let T := gcm_tag key nonce aad c in
  let ct := match tag with TagInCt off => take off (c ++ t) ++ over T (drop off (c ++ t)) | _ => c ++ t end in
  let o_tag := match tag with TagBuf => Some T | _ => None end in
  let p := over (gcm_crypt key nonce c) pt in
  Done (if negb (tag_diff T ct (length c) =? 0) then Opened (-1) ct (over (replicate (length c) 0) p) o_tag
        else Opened 0 ct p o_tag).
Proof.
  unfold tls_gcm_open, TLS_GCM_TAG. rewrite length_app, Ht. rewrite (proj2 (Nat.ltb_ge _ _)) by lia.
  replace (length c + 16 - 16)%nat with (length c) by lia. rewrite (proj2 (Nat.ltb_ge _ _)) by lia.
  rewrite take_app_length. fold (gcm_crypt key nonce c). fold (gcm_tag key nonce aad c). cbv zeta.
  by destruct (negb _).
Qed.

(** With the tag buffer apart from the ciphertext. *)
Lemma open_tagbuf :
  tls_gcm_open key nonce aad (c ++ t) pt TagBuf =
  let T := gcm_tag key nonce aad c in
  Done (if decide (T = t) then Opened 0 (c ++ t) (gcm_crypt key nonce c ++ drop (length c) pt) (Some T)
        else Opened (-1) (c ++ t) (replicate (length c) 0 ++ drop (length c) pt) (Some T)).
Proof.
  rewrite open_start. cbv zeta. rewrite tag_diff_spec by (done || apply length_gcm_tag).
  unfold over. rewrite length_gcm_crypt, length_replicate.
  destruct (decide (gcm_tag key nonce aad c = t)) as [E|E]; [by rewrite bool_decide_true by done|].
  rewrite bool_decide_false by done.
  cbn [negb]. do 3 f_equal. rewrite <- (length_gcm_crypt key nonce c) at 1. by rewrite drop_app_length.
Qed.

(** C9: [tls_gcm_open] accepts exactly the tag that sealing gives.  With
    the tag buffer apart from the ciphertext, it returns 0 and the decrypted
    bytes when the 16 bytes after the ciphertext are the GCM tag of it, and
    otherwise -1 with the plaintext area cleared; nothing but those bytes of the
    plaintext buffer changes. *)
Theorem gcm_open_authenticates :
  tls_gcm_open key nonce aad (c ++ t) pt TagBuf =
  let T := gcm_tag key nonce aad c in
  Done (if decide (T = t) then Opened 0 (c ++ t) (gcm_crypt key nonce c ++ drop (length c) pt) (Some T)
        else Opened (-1) (c ++ t) (replicate (length c) 0 ++ drop (length c) pt) (Some T)).
Proof. apply open_tagbuf. Qed.

(** A call whose tag pointer is aimed at the received tag accepts every
    record.  [tls_gcm_open] stores the computed tag before it compares, so the
    comparison reads what it has just written: any tag at all, under any key,
    opens.  [tls_connect] and [tls_accept] call it that way for the peer's
    Finished record. *)
Theorem gcm_open_alias_accepts :
  tls_gcm_open key nonce aad (c ++ t) pt (TagInCt (length c)) =
  Done (Opened 0 (c ++ gcm_tag key nonce aad c) (gcm_crypt key nonce c ++ drop (length c) pt) None).
Proof.
  rewrite open_start. cbv zeta. rewrite take_app_length, drop_app_length. unfold over.
  rewrite length_gcm_tag, (drop_ge t), app_nil_r by lia.
  rewrite tag_diff_spec by apply length_gcm_tag. rewrite bool_decide_true by done. cbn [negb]. by rewrite length_gcm_crypt.
Qed.
End Open.

(** Opening what was sealed gives the plaintext back, for every key,
    nonce, associated data and plaintext that fits the buffer. *)
Theorem gcm_open_seal key nonce aad m pt :
  (length m <= length pt)%nat ->
  exists tag, tls_gcm_open key nonce aad (tls_gcm_seal key nonce aad m) pt TagBuf =
    Done (Opened 0 (tls_gcm_seal key nonce aad m) (m ++ drop (length m) pt) (Some tag)).
Proof.
  intros Hl. rewrite seal_split. set (c := gcm_crypt key nonce m). pose proof (length_gcm_crypt key nonce m) as Lc. fold c in Lc.
  exists (gcm_tag key nonce aad c). rewrite open_start by (apply length_gcm_tag || lia). cbv zeta.
  rewrite tag_diff_spec by apply length_gcm_tag. rewrite bool_decide_true by done. cbn [negb]. unfold over.
  rewrite length_gcm_crypt, Lc. unfold c. by rewrite gcm_crypt_twice.
Qed.

Lemma gcm_inc32_counts_witness :
  block (gcm_inc32 (replicate 14 7 ++ [255; 255])) /\ take 12 (gcm_inc32 (replicate 14 7 ++ [255; 255])) = replicate 12 7 /\
  ctr_val (gcm_inc32 (replicate 14 7 ++ [255; 255])) = (ctr_val (replicate 14 7 ++ [255; 255]) + 1) mod 2 ^ 32.
Proof. apply (gcm_inc32_counts (replicate 14 7 ++ [255; 255])). split; [reflexivity|by apply bytes_closed]. Defined.

Lemma gcm_open_authenticates_witness :
  tls_gcm_open (replicate 16 1) (replicate 12 2) [3] (cs "abc" ++ replicate 16 0) (replicate 4 9) TagBuf =
  let T := gcm_tag (replicate 16 1) (replicate 12 2) [3] (cs "abc") in
  Done (if decide (T = replicate 16 0)
        then Opened 0 (cs "abc" ++ replicate 16 0) (gcm_crypt (replicate 16 1) (replicate 12 2) (cs "abc") ++ [9]) (Some T)
        else Opened (-1) (cs "abc" ++ replicate 16 0) [0; 0; 0; 9] (Some T)).
Proof. apply (gcm_open_authenticates (replicate 16 1) (replicate 12 2) [3] (cs "abc") (replicate 16 0) (replicate 4 9)); [reflexivity|simpl; lia]. Defined.

Lemma gcm_open_alias_accepts_witness :
  tls_gcm_open (replicate 16 1) (replicate 12 2) [3] (cs "abc" ++ replicate 16 0) (replicate 4 9) (TagInCt 3) =
  Done (Opened 0 (cs "abc" ++ gcm_tag (replicate 16 1) (replicate 12 2) [3] (cs "abc"))
                 (gcm_crypt (replicate 16 1) (replicate 12 2) (cs "abc") ++ [9]) None).
Proof. apply (gcm_open_alias_accepts (replicate 16 1) (replicate 12 2) [3] (cs "abc") (replicate 16 0) (replicate 4 9)); [reflexivity|simpl; lia]. Defined.

Lemma gcm_open_seal_witness :
  exists tag, tls_gcm_open (replicate 16 1) (replicate 12 2) [3] (tls_gcm_seal (replicate 16 1) (replicate 12 2) [3] (cs "abc")) (replicate 4 9) TagBuf =
    Done (Opened 0 (tls_gcm_seal (replicate 16 1) (replicate 12 2) [3] (cs "abc")) (cs "abc" ++ [9]) (Some tag)).
Proof. apply (gcm_open_seal (replicate 16 1) (replicate 12 2) [3] (cs "abc") (replicate 4 9)). simpl. lia. Defined.
