(* ===== verification/Ghash.v ===== *)
(** [ghash_absorb] multiplies in GF(2^128).

    A field element is the number its 16 bytes spell, bit [i] the coefficient
    of [x^i].  The reference is the carry-less product, and congruence modulo
    the polynomial [x^128 + x^7 + x^2 + x + 1]: two numbers are congruent when
    their difference (exclusive or) is a sum of shifts of the polynomial. *)
From Stdlib Require Import Btauto.
From S2P Require Import Prelude Aes Gcm.

(** ** Bits of a byte string *)

Lemma split_lxor a x k : 0 <= k -> 0 <= a < 2 ^ k -> 0 <= x -> x * 2 ^ k + a = Z.lxor (Z.shiftl x k) a.
Proof.
  intros Hk Ha Hx. rewrite Z.add_comm, <- or_shift, Z.lor_comm by done. symmetry. apply Z.lxor_lor.
  apply Z.bits_inj'. intros i Hi. rewrite Z.land_spec, Z.bits_0. destruct (Z.ltb_spec i k).
  - by rewrite Z.shiftl_spec_low.
  - destruct (Z.eq_dec a 0) as [->|]; [by rewrite Z.bits_0, andb_false_r|].
    assert (Z.log2 a < k) by (apply Z.log2_lt_pow2; lia). rewrite (Z.bits_above_log2 a i) by lia. apply andb_false_r.
Qed.

Lemma lxor_split a b x y k :
  0 <= k -> 0 <= a < 2 ^ k -> 0 <= b < 2 ^ k -> 0 <= x -> 0 <= y ->
  Z.lxor (x * 2 ^ k + a) (y * 2 ^ k + b) = Z.lxor (Z.shiftl (Z.lxor x y) k) (Z.lxor a b).
Proof.
  intros. rewrite !split_lxor by done. rewrite Z.shiftl_lxor. apply lxor_swap.
Qed.

Lemma lxor_bound a b k : 0 <= k -> 0 <= a < 2 ^ k -> 0 <= b < 2 ^ k -> 0 <= Z.lxor a b < 2 ^ k.
Proof.
  intros Hk Ha Hb. assert (0 <= Z.lxor a b) by (apply Z.lxor_nonneg; lia). split; [done|].
  assert (forall x, 0 <= x < 2 ^ k -> forall i, k <= i -> Z.testbit x i = false) as Hh.
  { intros x Hx i Hi. destruct (Z.eq_dec x 0) as [->|]; [apply Z.bits_0|].
    apply Z.bits_above_log2; [lia|]. assert (Z.log2 x < k); [apply Z.log2_lt_pow2|]; lia. }
  destruct (Z.ltb_spec (Z.lxor a b) (2 ^ k)) as [|Hge]; [done|]. exfalso.
  assert (k <= Z.log2 (Z.lxor a b)) as Hlog by (apply Z.log2_le_pow2; lia).
  pose proof (Z.bit_log2 (Z.lxor a b) ltac:(pose proof (Z.pow_pos_nonneg 2 k ltac:(lia) Hk); lia)) as Hbit.
  rewrite Z.lxor_spec, (Hh a), (Hh b) in Hbit by done. done.
Qed.

Lemma pow256 n : 256 ^ Z.of_nat n = 2 ^ (8 * Z.of_nat n).
Proof. change 256 with (2 ^ 8). by rewrite <- Z.pow_mul_r by lia. Qed.

Lemma be_zip_lxor a b : bytes a -> bytes b -> length a = length b -> be (zip_with Z.lxor a b) = Z.lxor (be a) (be b).
Proof.
  intros Ha. revert b; induction Ha as [|x a Hx Ha IH]; intros b Hb Hl; destruct Hb as [|y b Hy Hb]; try done.
  injection Hl as Hl. cbn [zip_with be]. rewrite IH by done. rewrite length_zip_with, Hl, Nat.min_id, !pow256.
  pose proof (be_bound a Ha) as H1. pose proof (be_bound b Hb) as H2. rewrite Hl in H1. rewrite pow256 in H1, H2. unfold is_u8 in *.
  rewrite lxor_split by lia. apply split_lxor; [lia| |apply Z.lxor_nonneg; lia]. apply lxor_bound; lia.
Qed.

(** Bit [8 q + r] of the number is bit [r] of byte [q] from the end. *)
Lemma be_testbit v q r :
  bytes v -> (q < length v)%nat -> 0 <= r < 8 ->
  Z.testbit (be v) (8 * Z.of_nat q + r) = Z.testbit (at_ v (length v - 1 - q)) r.
Proof.
  intros Hv. induction Hv as [|x v Hx Hv IH]; intros Hq Hr; [simpl in Hq; lia|]. cbn [be length] in *.
  pose proof (be_bound v Hv) as Hb. rewrite pow256 in Hb |- *. unfold is_u8 in Hx.
  rewrite split_lxor by lia. rewrite Z.lxor_spec. destruct (decide (q = length v)) as [->|Hne].
  - replace (S (length v) - 1 - length v)%nat with 0%nat by lia. change (at_ (x :: v) 0) with x.
    rewrite Z.shiftl_spec by lia. replace (8 * Z.of_nat (length v) + r - 8 * Z.of_nat (length v)) with r by lia.
    destruct (Z.eq_dec (be v) 0) as [->|]; [by rewrite Z.bits_0, xorb_false_r|].
    assert (Z.log2 (be v) < 8 * Z.of_nat (length v)) by (apply Z.log2_lt_pow2; lia).
    rewrite (Z.bits_above_log2 (be v)) by lia. apply xorb_false_r.
  - rewrite Z.shiftl_spec_low by lia. rewrite xorb_false_l, IH by lia.
    replace (S (length v) - 1 - q)%nat with (S (length v - 1 - q)) by lia. by rewrite at_cons_S.
Qed.

(** ** The reference *)

Definition gcm_poly : Z := 2 ^ 128 + 0x87.

(** Sums of shifts of the polynomial. *)
Inductive multiple : Z -> Prop :=
| multiple_0 : multiple 0
| multiple_add a k : multiple a -> 0 <= k -> multiple (Z.lxor a (Z.shiftl gcm_poly k)).

Definition congruent (a b : Z) : Prop := multiple (Z.lxor a b).

(** The carry-less product of the [n] low bits of [x] with [h]. *)
Fixpoint clmul (n : nat) (x h : Z) : Z :=
  match n with
  | O => 0
  | S k => Z.lxor (clmul k x h) (if Z.testbit x (Z.of_nat k) then Z.shiftl h (Z.of_nat k) else 0)
  end.

Lemma multiple_lxor a b : multiple a -> multiple b -> multiple (Z.lxor a b).
Proof.
  intros Ha. induction 1 as [|b k Hb IH Hk]; [by rewrite Z.lxor_0_r|]. rewrite <- Z.lxor_assoc. by constructor.
Qed.

Lemma multiple_shift a : multiple a -> multiple (Z.shiftl a 1).
Proof.
  induction 1 as [|a k Ha IH Hk]; [constructor|]. rewrite Z.shiftl_lxor, Z.shiftl_shiftl by done. constructor; [done|lia].
Qed.

Lemma congruent_lxor a b c d : congruent a b -> congruent c d -> congruent (Z.lxor a c) (Z.lxor b d).
Proof. unfold congruent. intros. rewrite lxor_swap. by apply multiple_lxor. Qed.

(** ** The code *)

Lemma block_bound v : block v -> 0 <= be v < 2 ^ 128.
Proof. intros [Hl Hb]. pose proof (be_bound v Hb) as H. rewrite Hl in H. exact H. Qed.

Lemma gf_xor_spec z v : block z -> block v -> block (gf_xor z v) /\ be (gf_xor z v) = Z.lxor (be z) (be v).
Proof.
  intros [Hlz Hz] [Hlv Hv]. split; [apply tab16_block; intros; apply lxor_u8; by apply bytes_at|].
  rewrite <- be_zip_lxor by (done || congruence). f_equal. do 17 (destruct z as [|? z]; try done). do 17 (destruct v as [|? v]; try done).
Qed.

Lemma double_byte x y : is_u8 x -> is_u8 y -> u8 (Z.lor (Z.shiftl x 1) (Z.shiftr y 7)) = 2 * x - 256 * (x / 128) + y / 128.
Proof.
  intros Hx Hy. apply Z.eqb_eq.
  apply (all_byte_pairs (fun x y => u8 (Z.lor (Z.shiftl x 1) (Z.shiftr y 7)) =? 2 * x - 256 * (x / 128) + y / 128));
    [done|done|vm_compute; reflexivity].
Qed.

Lemma double_last x : is_u8 x -> u8 (Z.shiftl x 1) = 2 * x - 256 * (x / 128).
Proof. intros. by_bytes. Qed.

Lemma gf_double_spec v :
  block v -> block (gf_double v) /\ exists c, be (gf_double v) = Z.lxor (Z.shiftl (be v) 1) (if c : bool then gcm_poly else 0).
Proof.
  intros [Hl Hb]. unfold gf_double. set (v' := map _ _ ++ _).
  assert (block v') as Hv'.
  { split; [done|]. apply Forall_app. split; [|constructor; [apply u8_range|constructor]].
    apply Forall_map, Forall_forall. intros i _. apply u8_range. }
  assert (be v' = 2 * be v - 2 ^ 128 * (at_ v 0 / 128)) as E.
  { unfold v'. clear Hv' v'. do 17 (destruct v as [|? v]; try done). repeat (apply Forall_cons in Hb as [? Hb]).
    cbn [map seq app at_ nth]. rewrite !double_byte, double_last by done. cbn [be length].
    repeat match goal with |- context [256 ^ Z.of_nat ?n] =>
      let p := eval vm_compute in (256 ^ Z.of_nat n) in change (256 ^ Z.of_nat n) with p end.
    ring. }
  pose proof (block_bound v (conj Hl Hb)) as Hv. pose proof (block_bound _ Hv') as Hbv'. pose proof (bytes_at v 0 Hb) as H0. unfold is_u8 in H0.
  rewrite Z.shiftr_div_pow2, Z.shiftl_mul_pow2 by lia. change (2 ^ 7) with 128. change (2 ^ 1) with 2.
  assert (0 <= at_ v 0 / 128 < 2) as Hc by (split; [apply Z.div_pos; lia|apply Z.div_lt_upper_bound; lia]).
  destruct (Z.eqb_spec (at_ v 0 / 128) 0) as [Ec|Ec]; cbn [negb].
  - split; [done|]. exists false. rewrite Z.lxor_0_r, E, Ec. lia.
  - set (last := replicate 15 0 ++ [0x87]).
    assert (<[15%nat := Z.lxor (at_ v' 15) 0x87]> v' = zip_with Z.lxor v' last) as ->.
    { clearbody v'. destruct Hv' as [Hl' _]. do 17 (destruct v' as [|? v']; try done). cbn. by rewrite ?Z.lxor_0_r. }
    assert (bytes last) as Hlast by (by apply bytes_closed).
    split; [split; [done|by apply zip_xor_bytes, Hlast; apply Hv']|]. exists true.
    rewrite be_zip_lxor by (done || apply Hv'). change (be last) with 0x87. rewrite E.
    replace (2 * be v - 2 ^ 128 * (at_ v 0 / 128)) with (be v * 2 - 2 ^ 128) in * by lia.
    replace (be v * 2) with (1 * 2 ^ 128 + (be v * 2 - 2 ^ 128)) at 2 by lia.
    change gcm_poly with (1 * 2 ^ 128 + 0x87). rewrite lxor_split by lia. done.
Qed.

Lemma ghash_loop_spec k bit x z v h :
  block x -> block z -> block v -> (bit + k = 128)%nat ->
  congruent (be v) (Z.shiftl h (Z.of_nat bit)) -> congruent (be z) (clmul bit (be x) h) ->
  block (ghash_loop k bit x z v) /\ congruent (be (ghash_loop k bit x z v)) (clmul 128 (be x) h).
Proof.
  intros Hx. revert bit z v; induction k as [|k IH]; intros bit z v Hz Hv Hk Hcv Hcz; cbn [ghash_loop].
  { by replace 128%nat with bit by lia. }
  pose proof (Nat.div_mod_eq bit 8) as Ed. pose proof (Nat.mod_upper_bound bit 8 ltac:(lia)).
  assert (bit / 8 < 16)%nat by (apply Nat.Div0.div_lt_upper_bound; lia).
  assert (negb (u8 (Z.land (Z.shiftr (at_ x (15 - bit / 8)) (Z.of_nat (bit mod 8))) 1) =? 0) = Z.testbit (be x) (Z.of_nat bit)) as ->.
  { change 1 with (Z.ones 1). rewrite Z.land_ones, <- Z.bit0_mod, Z.shiftr_spec by lia.
    replace (Z.of_nat bit) with (8 * Z.of_nat (bit / 8) + Z.of_nat (bit mod 8)) by lia.
    rewrite be_testbit by (try apply Hx; rewrite ?(proj1 Hx); lia). rewrite (proj1 Hx).
    rewrite Z.add_0_l. by destruct (Z.testbit _ _). }
  destruct (gf_double_spec v Hv) as (Hd & c & Ed2).
  destruct (gf_xor_spec z v Hz Hv) as (Hgx & Egx).
  apply IH; [by destruct (Z.testbit _ _)|done|lia| |].
  - rewrite Ed2, Nat2Z.inj_succ. unfold Z.succ. rewrite <- Z.shiftl_shiftl by lia. rewrite <- (Z.lxor_0_r (Z.shiftl (Z.shiftl h _) 1)).
    apply congruent_lxor; [unfold congruent; rewrite <- Z.shiftl_lxor; by apply multiple_shift|].
    unfold congruent. rewrite Z.lxor_0_r. destruct c; [|constructor].
    rewrite <- (Z.lxor_0_l gcm_poly), <- (Z.shiftl_0_r gcm_poly). by repeat constructor.
  - cbn [clmul]. destruct (Z.testbit (be x) (Z.of_nat bit)); [rewrite Egx; by apply congruent_lxor|by rewrite Z.lxor_0_r].
Qed.

Lemma rev_byte_bit v r : is_u8 v -> 0 <= r < 8 -> Z.testbit (rev_byte v) r = Z.testbit v (7 - r).
Proof.
  intros Hv Hr. set (P := fun v => forallb (fun r => Bool.eqb (Z.testbit (rev_byte v) r) (Z.testbit v (7 - r))) [0; 1; 2; 3; 4; 5; 6; 7]).
  assert (P v = true) as H by (refine (all_bytes P v Hv _); vm_compute; reflexivity).
  apply forallb_forall with (x := r) in H; [by apply eqb_prop|]. simpl. lia.
Qed.

(** Bit [i] of the string is the coefficient of [x^(127-i)]. *)
Lemma rev128_spec b : block b -> block (gcm_rev128 b) /\
  forall i, 0 <= i < 128 -> Z.testbit (be (gcm_rev128 b)) i = Z.testbit (be b) (127 - i).
Proof.
  intros Hb. assert (block (gcm_rev128 b)) as Hr by (apply tab16_block; intros; apply u8_range). split; [done|]. intros i Hi.
  pose proof (Z_div_mod_eq_full i 8) as Ei. pose proof (Z.mod_pos_bound i 8 ltac:(lia)).
  assert (0 <= i / 8 < 16) by (split; [apply Z.div_pos; lia|apply Z.div_lt_upper_bound; lia]).
  replace i with (8 * Z.of_nat (Z.to_nat (i / 8)) + i mod 8) at 1 by lia.
  rewrite be_testbit by (try apply Hr; rewrite ?(proj1 Hr); lia). rewrite (proj1 Hr).
  unfold gcm_rev128. rewrite at_tab16 by lia. rewrite rev_byte_bit by (done || apply bytes_at, Hb).
  replace (127 - i) with (8 * Z.of_nat (15 - Z.to_nat (i / 8)) + (7 - i mod 8)) by lia.
  rewrite be_testbit by (try apply Hb; rewrite ?(proj1 Hb); lia). rewrite (proj1 Hb). by do 2 f_equal; lia.
Qed.

(** C36: GHASH is multiplication in GF(2^128).  [ghash_absorb] replaces the
    accumulator by a field element, below 2^128, congruent modulo [x^128 + x^7 +
    x^2 + x + 1] to the carry-less product of [H] and of the accumulator with the
    block added to it; and the string of a block is turned into a field element
    by reversing all of its 128 bits. *)
Theorem ghash_absorb_correct acc blk H :
  block acc -> block blk -> block H ->
  block (ghash_absorb acc blk H) /\
  congruent (be (ghash_absorb acc blk H)) (clmul 128 (Z.lxor (be acc) (be (gcm_rev128 blk))) (be H)) /\
  (forall i, 0 <= i < 128 -> Z.testbit (be (gcm_rev128 blk)) i = Z.testbit (be blk) (127 - i)).
Proof.
  intros Ha Hb HH. destruct (rev128_spec blk Hb) as [Hr Hbits]. unfold ghash_absorb.
  fold (gf_xor acc (gcm_rev128 blk)). destruct (gf_xor_spec acc _ Ha Hr) as [Hx Ex]. rewrite take_ge by (rewrite (proj1 HH); lia).
  assert (forall a, congruent a a) as Hrefl by (intros; unfold congruent; rewrite Z.lxor_nilpotent; constructor).
  destruct (ghash_loop_spec 128 0 (gf_xor acc (gcm_rev128 blk)) (replicate 16 0) H (be H)) as [H1 H2]; try done.
  - split; [done|by apply bytes_closed].
  - rewrite Ex in H2. done.
Qed.

Lemma ghash_absorb_correct_witness :
  let b := cs "0123456789abcdef" in
  block (ghash_absorb (replicate 16 0) b b) /\
  congruent (be (ghash_absorb (replicate 16 0) b b)) (clmul 128 (Z.lxor (be (replicate 16 0)) (be (gcm_rev128 b))) (be b)) /\
  (forall i, 0 <= i < 128 -> Z.testbit (be (gcm_rev128 b)) i = Z.testbit (be b) (127 - i)).
Proof. apply ghash_absorb_correct; (split; [reflexivity|by apply bytes_closed]). Defined.
