(* ===== verification/Record.v ===== *)
(** TLS 1.2 records and application data ([vlibc/src/tls/tls.c]).

    The transport is the caller's: [send_fn] and [recv_fn] are arguments, on a
    context of any type, and what the library relies on of them is the class
    [Transport].  A buffer is the list of its bytes, so [c->in_cap] is the length
    of [inbuf].  [Trap] is a store past the end of a buffer. *)
From S2P Require Import Prelude Gcm.
Local Open Scope vnu_scope.

Definition TLS_VERSION : Z := 0x0303.
Definition MAX_PLAIN : Z := 16384.
Definition AES_EXPLICIT : Z := 8.
Definition MAX_RECORD_RX : Z := MAX_PLAIN + 256 + 16.
Definition CT_CCS : Z := 0x14.
Definition CT_ALERT : Z := 0x15.
Definition CT_HANDSHAKE : Z := 0x16.
Definition CT_APP : Z := 0x17.
Definition HS_FINISHED : Z := 20.
Definition ALERT_CLOSE_NOTIFY : Z := 0.
Definition ST_ESTABLISHED : Z := 3.
Definition TAG : Z := 16.

Definition be16 (p : list Z) : Z := Z.lor (Z.shiftl (at_ p 0) 8) (at_ p 1).
Definition put16 (v : Z) : list Z := [u8 (Z.shiftr v 8); u8 v].

Definition gcm_nonce (iv : list Z) (seq : Z) : list Z := take 4 iv ++ be64 seq.
Definition gcm_nonce_wire (iv rec : list Z) : list Z := take 4 iv ++ take 8 rec.
Definition gcm_aad (seq type ptlen : Z) : list Z :=
  be64 seq ++ [type; u8 (Z.shiftr TLS_VERSION 8); u8 TLS_VERSION] ++ put16 ptlen.

(** [while (ncap < need) ncap *= 2]. *)
Fixpoint grow_cap (fuel : nat) (ncap need : Z) : outcome Z :=
  if ncap <? need then
    match fuel with
    | O => NoFuel
    | S fuel' => grow_cap fuel' (u32 (ncap * 2)) need
    end
  else Done ncap.

Section Conn.
Context {T : Type} (send_fn : T -> list Z -> Z -> T * Z) (recv_fn : T -> Z -> Z -> T * Z * list Z) `{Allocator}.

(** The part of [struct tls_conn] the record layer and the data phase use. *)
Record tls_conn := mkConn {
  ctx : T; err : string;
  ckey : list Z; skey : list Z; civ : list Z; siv : list Z;
  seq_w : Z; seq_r : Z;
  inbuf : list Z; in_len : Z; in_off : Z;
  stage : Z; closed : bool; is_server : bool; write_enc : bool }.

Definition set_ctx (x : T) (c : tls_conn) : tls_conn :=
  mkConn x (err c) (ckey c) (skey c) (civ c) (siv c) (seq_w c) (seq_r c) (inbuf c) (in_len c) (in_off c) (stage c) (closed c) (is_server c) (write_enc c).
Definition seterr (m : string) (c : tls_conn) : tls_conn :=
  mkConn (ctx c) m (ckey c) (skey c) (civ c) (siv c) (seq_w c) (seq_r c) (inbuf c) (in_len c) (in_off c) (stage c) (closed c) (is_server c) (write_enc c).
Definition set_seq (w r : Z) (c : tls_conn) : tls_conn :=
  mkConn (ctx c) (err c) (ckey c) (skey c) (civ c) (siv c) w r (inbuf c) (in_len c) (in_off c) (stage c) (closed c) (is_server c) (write_enc c).
Definition set_in (b : list Z) (n o : Z) (c : tls_conn) : tls_conn :=
  mkConn (ctx c) (err c) (ckey c) (skey c) (civ c) (siv c) (seq_w c) (seq_r c) b n o (stage c) (closed c) (is_server c) (write_enc c).
Definition set_closed (c : tls_conn) : tls_conn :=
  mkConn (ctx c) (err c) (ckey c) (skey c) (civ c) (siv c) (seq_w c) (seq_r c) (inbuf c) (in_len c) (in_off c) (stage c) true (is_server c) (write_enc c).

(** A result and the connection. *)
Definition result (A : Type) : Type := outcome (A * tls_conn).

(** [while (n > 0)]: a callback that claims more bytes than it was given makes the count wrap. *)
Fixpoint send_all (fuel : nat) (c : tls_conn) (p : list Z) (to : Z) : result Z :=
  match p with
  | [] => Done (0, c)
  | _ :: _ =>
      match fuel with
      | O => NoFuel
      | S fuel' =>
          let '(x, r) := send_fn (ctx c) p to in
          let c := set_ctx x c in
          if r <=? 0 then Done (-1, seterr "transport error" c)
          else if Z.of_nat (length p) <? r then Trap
          else send_all fuel' c (drop (Z.to_nat r) p) to
      end
  end.

(** The bytes received are the second component. *)
Fixpoint recv_all (fuel : nat) (c : tls_conn) (n : Z) (to : Z) : result (Z * list Z) :=
  if n <=? 0 then Done ((0, []), c)
  else
    match fuel with
    | O => NoFuel
    | S fuel' =>
        let '(x, r, b) := recv_fn (ctx c) n to in
        let c := set_ctx x c in
        if r <=? 0 then Done ((-1, []), seterr "transport error" c)
        else if (n <? r) || negb (Z.of_nat (length b) =? r) then Trap
        else
          let* (r', c) := recv_all fuel' c (n - r) to in
          Done ((fst r', b ++ snd r'), c)
    end.

(** The type and the payload of a record, or an error. *)
Definition read_record (c : tls_conn) (to outcap : Z) : result (option (Z * list Z)) :=
  let* (r, c) := recv_all 5 c 5 to in
  if negb (fst r =? 0) then Done (None, c)
  else
    let hdr := snd r in
    if negb (at_ hdr 1 =? u8 (Z.shiftr TLS_VERSION 8)) || (u8 TLS_VERSION <? at_ hdr 2)
    then Done (None, seterr "version mismatch" c)
    else
      let n := be16 (drop 3 hdr) in
      if outcap <? n then Done (None, seterr "peer violation (record too large)" c)
      else
        let* (r, c) := recv_all (Z.to_nat n) c n to in
        if negb (fst r =? 0) then Done (None, c) else Done (Some (at_ hdr 0, snd r), c).

(** [buf], as [tls_send_record] fills it for an encrypted record. *)
Definition protect (key iv : list Z) (seq type : Z) (pt : list Z) : list Z :=
  let ptlen := Z.of_nat (length pt) in
  let ct := tls_gcm_seal key (gcm_nonce iv seq) (gcm_aad seq type (u16 ptlen)) pt in
  [type] ++ put16 TLS_VERSION ++ put16 (AES_EXPLICIT + ptlen + TAG) ++ be64 seq ++ ct.

Definition tls_send_record (c : tls_conn) (type : Z) (pt : list Z) (to : Z) : result Z :=
  let ptlen := Z.of_nat (length pt) in
  if MAX_PLAIN <? ptlen then Done (-1, seterr "peer violation (bad length)" c)
  else
    let buf :=
      if write_enc c then
        protect (if is_server c then skey c else ckey c) (if is_server c then siv c else civ c) (seq_w c) type pt
      else [type] ++ put16 TLS_VERSION ++ put16 ptlen ++ pt in
    let* (r, c) := send_all (length buf) c buf to in
    if negb (r =? 0) then Done (-1, c) else Done (0, set_seq (u64 (seq_w c + 1)) (seq_r c) c).

(** [grow] for [c->inbuf]. *)
Definition grow (c : tls_conn) (need : Z) : result Z :=
  let cap := Z.of_nat (length (inbuf c)) in
  let* ncap := grow_cap 32 (if cap =? 0 then 4096 else cap) need in
  match alloc ncap with
  | None => Done (-1, seterr "out of memory" c)
  | Some nb => Done (0, set_in (inbuf c ++ drop (length (inbuf c)) nb) (in_len c) (in_off c) c)
  end.

(** [if (c->in_len + ptlen > c->in_cap && grow(...) != 0)]. *)
Definition make_room (c : tls_conn) (ptlen : Z) : result Z :=
  if Z.of_nat (length (inbuf c)) <? u32 (in_len c + ptlen) then grow c (u32 (in_len c + ptlen)) else Done (0, c).

Definition decrypt_record (c : tls_conn) (type : Z) (rec : list Z) : result Z :=
  let rlen := Z.of_nat (length rec) in
  let seq := seq_r c in
  if rlen <? AES_EXPLICIT + TAG then Done (-1, seterr "peer violation (record too short)" c)
  else
    let ptlen := rlen - AES_EXPLICIT - TAG in
    if MAX_PLAIN <? ptlen then Done (-1, seterr "peer violation (bad length)" c)
    else
      let* (r, c) := make_room c ptlen in
      if negb (r =? 0) then Done (-1, c)
      else
        let rkey := if is_server c then ckey c else skey c in
        let riv := if is_server c then civ c else siv c in
        let* o := tls_gcm_open rkey (gcm_nonce_wire riv rec) (gcm_aad seq type (u16 ptlen)) (drop 8 rec) (drop (Z.to_nat (in_len c)) (inbuf c)) TagBuf in
        let c := set_in (take (Z.to_nat (in_len c)) (inbuf c) ++ o_pt o) (in_len c) (in_off c) c in
        if negb (o_ret o =? 0) then Done (-1, seterr "record authentication failed" c)
        else Done (0, set_in (inbuf c) (in_len c + ptlen) (in_off c) (set_seq (seq_w c) (u64 (seq + 1)) c)).

(** [while (len > 0)]: the bytes not yet sent. *)
Fixpoint write_loop (fuel : nat) (c : tls_conn) (p : list Z) (to : Z) : result bool :=
  match p with
  | [] => Done (true, c)
  | _ :: _ =>
      match fuel with
      | O => NoFuel
      | S fuel' =>
          let len := Z.of_nat (length p) in
          let chunk := Z.to_nat (if MAX_PLAIN <? len then MAX_PLAIN else len) in
          let* (r, c) := tls_send_record c CT_APP (take chunk p) to in
          if negb (r =? 0) then Done (false, c) else write_loop fuel' c (drop chunk p) to
      end
  end.

Definition tls_write (c : tls_conn) (buf : list Z) (to : Z) : result Z :=
  if negb (stage c =? ST_ESTABLISHED) then Done (0, c)
  else
    let* (ok, c) := write_loop (length buf) c buf to in
    Done (if ok : bool then Z.of_nat (length buf) else 0, c).

(** One turn of the loop when nothing is buffered: [Some r] is a return. *)
Definition read_step (c : tls_conn) (to : Z) : result (option Z) :=
  let* (r, c) := read_record c to (MAX_RECORD_RX + 8) in
  match r with
  | None => Done (Some (-1), c)
  | Some (rtype, rec) =>
      if rtype =? CT_APP then
        let* (r, c) := decrypt_record c CT_APP rec in
        Done (if negb (r =? 0) then Some (-1) else None, c)
      else if rtype =? CT_ALERT then
        let* (r, c) := decrypt_record c CT_ALERT rec in
        if negb (r =? 0) then Done (Some (-1), c)
        else if 2 <=? u32 (in_len c - in_off c) then
          let desc := at_ (inbuf c) (Z.to_nat (in_off c + 1)) in
          let c := set_in (inbuf c) (in_len c) (in_off c + 2) c in
          if desc =? ALERT_CLOSE_NOTIFY then
            let c := set_closed c in
            Done (None, if in_off c =? in_len c then set_in (inbuf c) 0 0 c else c)
          else Done (Some 0, seterr "received fatal alert" c)
        else Done (None, c)
      else if rtype =? CT_HANDSHAKE then Done (Some (-1), seterr "unsolicited handshake (renegotiation?)" c)
      else Done (Some (-1), seterr "peer violation (bad record type)" c)
  end.

(** The return value and the bytes copied to the caller. *)
Fixpoint read_loop (fuel : nat) (c : tls_conn) (len to : Z) : result (Z * list Z) :=
  let avail := u32 (in_len c - in_off c) in
  if 0 <? avail then
    let n := if len <? avail then len else avail in
    let out := take (Z.to_nat n) (drop (Z.to_nat (in_off c)) (inbuf c)) in
    let off := in_off c + n in
    Done ((n, out), if off =? in_len c then set_in (inbuf c) 0 0 c else set_in (inbuf c) (in_len c) off c)
  else if closed c then Done ((0, []), c)
  else
    match fuel with
    | O => NoFuel
    | S fuel' =>
        let* (r, c) := read_step c to in
        match r with
        | Some v => Done ((v, []), c)
        | None => read_loop fuel' c len to
        end
    end.

Definition tls_read (fuel : nat) (c : tls_conn) (len to : Z) : result (Z * list Z) :=
  if negb (stage c =? ST_ESTABLISHED) then Done ((-1, []), c) else read_loop fuel c len to.

(** The bytes [tls_close] sends; the connection is freed after that. *)
Definition tls_close (c : tls_conn) : outcome (T * Z) :=
  if (stage c =? ST_ESTABLISHED) && negb (closed c) then
    let* (_, c) := tls_send_record c CT_ALERT [1; ALERT_CLOSE_NOTIFY] 2000 in
    Done (ctx c, 0)
  else Done (ctx c, 0).
End Conn.

(** ** The peer's Finished record

    Both handshakes open it into [uint8_t pt\[32\]], with the tag pointer aimed at
    the tag in the record: [None] is a handshake failure, otherwise the 16 bytes. *)
Definition open_finished (key iv : list Z) (seq : Z) (rec pt : list Z) : outcome (option (list Z)) :=
  let rlen := Z.of_nat (length rec) in
  if rlen <? AES_EXPLICIT + TAG then Done None
  else
    let ptlen := rlen - AES_EXPLICIT - TAG in
    let* o := tls_gcm_open key (gcm_nonce_wire iv rec) (gcm_aad seq CT_HANDSHAKE (u16 ptlen)) (drop 8 rec) pt (TagInCt (Z.to_nat ptlen)) in
    if negb (o_ret o =? 0) then Done None
    else if negb (ptlen =? 16) || negb (at_ (o_pt o) 0 =? HS_FINISHED) then Done None
    else Done (Some (take 16 (o_pt o))).

(** ** The transport

    What the comment on [tls_stream] asks of the callbacks, where the peer is
    still there: a call moves at least one byte, and no more than asked for. *)
Class Transport {T : Type} (send_fn : T -> list Z -> Z -> T * Z) (recv_fn : T -> Z -> Z -> T * Z * list Z) := {
  sent : T -> list Z;
  pending : T -> list Z;
  send_law : forall x p to, p <> [] ->
    let '(x', r) := send_fn x p to in
    1 <= r <= Z.of_nat (length p) /\ sent x' = sent x ++ take (Z.to_nat r) p /\ pending x' = pending x;
  recv_law : forall x n to, 0 < n -> pending x <> [] ->
    let '(x', r, b) := recv_fn x n to in
    1 <= r <= n /\ Z.of_nat (length b) = r /\ pending x = b ++ pending x' /\ sent x' = sent x
}.

Lemma put16_be16 v rest : 0 <= v < 2 ^ 16 -> be16 (put16 v ++ rest) = v.
Proof.
  intros Hv. unfold be16, put16. cbn [app at_ nth]. unfold at_. cbn [nth]. unfold u8.
  rewrite Z.shiftr_div_pow2 by lia. change (2 ^ 8) with 256. change (2 ^ 16) with 65536 in Hv.
  rewrite (Z.mod_small (v / 256)) by (split; [apply Z.div_pos; lia|apply Z.div_lt_upper_bound; lia]).
  rewrite Z.lor_comm, or_shift; [|lia|apply Z.mod_pos_bound; lia|apply Z.div_pos; lia].
  change (2 ^ 8) with 256. pose proof (Z_div_mod_eq_full v 256). lia.
Qed.

Section Channel.
Context {T : Type} (send_fn : T -> list Z -> Z -> T * Z) (recv_fn : T -> Z -> Z -> T * Z * list Z).
Context `{!Transport send_fn recv_fn} `{Allocator}.
Abbreviation conn := (@tls_conn T).

Lemma send_all_ok fuel (c : conn) p to :
  (length p <= fuel)%nat ->
  exists x, send_all send_fn fuel c p to = Done (0, set_ctx x c) /\ sent x = sent (ctx c) ++ p /\ pending x = pending (ctx c).
Proof.
  revert c p; induction fuel as [|fuel IH]; intros c p Hl; (destruct p as [|b p]; [exists (ctx c); rewrite app_nil_r; by destruct c|]); [cbn in Hl; lia|].
  cbn [send_all]. pose proof (send_law (ctx c) (b :: p) to ltac:(done)) as Hs.
  destruct (send_fn (ctx c) (b :: p) to) as [x r]. destruct Hs as (Hr & Hs & Hp).
  rewrite (proj2 (Z.leb_gt r 0)), (proj2 (Z.ltb_ge _ r)) by lia.
  destruct (IH (set_ctx x c) (drop (Z.to_nat r) (b :: p))) as (x' & E & Hs' & Hp'); [rewrite length_drop; cbn [length] in *; lia|].
  exists x'. split; [exact E|]. cbn [ctx set_ctx] in *. rewrite Hs', Hp', Hs, <- app_assoc, take_drop. done.
Qed.

Lemma recv_all_ok fuel (c : conn) n to :
  0 <= n -> (Z.to_nat n <= fuel)%nat -> n <= Z.of_nat (length (pending (ctx c))) ->
  exists x, recv_all recv_fn fuel c n to = Done ((0, take (Z.to_nat n) (pending (ctx c))), set_ctx x c) /\
    pending x = drop (Z.to_nat n) (pending (ctx c)) /\ sent x = sent (ctx c).
Proof.
  revert c n; induction fuel as [|fuel IH]; intros c n Hn Hf Hl; cbn [recv_all].
  - assert (n = 0) as -> by lia. exists (ctx c). by destruct c.
  - destruct (Z.leb_spec n 0); [assert (n = 0) as -> by lia; exists (ctx c); by destruct c|].
    pose proof (recv_law (ctx c) n to ltac:(lia) ltac:(intros E; rewrite E in Hl; cbn in Hl; lia)) as Hs.
    destruct (recv_fn (ctx c) n to) as [[x r] b]. destruct Hs as (Hr & Hb & Hp & Hs).
    rewrite (proj2 (Z.leb_gt r 0)), (proj2 (Z.ltb_ge n r)), Hb, Z.eqb_refl by lia. cbn [orb negb].
    rewrite Hp, length_app in Hl.
    destruct (IH (set_ctx x c) (n - r)) as (x' & E & Hp' & Hs'); [lia|lia|cbn [ctx set_ctx]; lia|].
    exists x'. cbn [ctx set_ctx] in *. rewrite E. cbn [obind fst snd]. rewrite Hp, Hp', Hs', Hs.
    replace (Z.to_nat n) with (length b + Z.to_nat (n - r))%nat by lia.
    rewrite take_app_add, drop_app_add. done.
Qed.

(** *** One record *)

Lemma length_seal key nonce aad m : length (tls_gcm_seal key nonce aad m) = (length m + 16)%nat.
Proof. rewrite seal_split, length_app, length_gcm_crypt, length_gcm_tag. done. Qed.

(** What [protect] puts after the header. *)
Definition payload (key iv : list Z) (seq type : Z) (pt : list Z) : list Z :=
  be64 seq ++ tls_gcm_seal key (gcm_nonce iv seq) (gcm_aad seq type (u16 (Z.of_nat (length pt)))) pt.

Definition header (type n : Z) : list Z := [type; 3; 3] ++ put16 n.

Lemma protect_split key iv seq type pt :
  protect key iv seq type pt = header type (24 + Z.of_nat (length pt)) ++ payload key iv seq type pt.
Proof.
  unfold protect, payload, header, AES_EXPLICIT, TAG.
  replace (8 + Z.of_nat (length pt) + 16) with (24 + Z.of_nat (length pt)) by lia. done.
Qed.

Lemma length_payload key iv seq type pt : Z.of_nat (length (payload key iv seq type pt)) = 24 + Z.of_nat (length pt).
Proof. unfold payload. rewrite length_app, length_be64, length_seal. lia. Qed.

Lemma read_record_ok (c : conn) to outcap type b rest :
  pending (ctx c) = header type (Z.of_nat (length b)) ++ b ++ rest -> Z.of_nat (length b) < 2 ^ 16 -> Z.of_nat (length b) <= outcap ->
  exists x, read_record recv_fn c to outcap = Done (Some (type, b), set_ctx x c) /\ pending x = rest /\ sent x = sent (ctx c).
Proof.
  intros Hp H16 Hcap. unfold read_record.
  destruct (recv_all_ok 5 c 5 to) as (x & E & Hx & Hs); [lia|lia|rewrite Hp, length_app; cbn [length header app put16]; lia|].
  rewrite E. cbn [obind fst snd]. rewrite Hp in Hx |- *.
  change (Z.to_nat 5) with (length (header type (Z.of_nat (length b)))) in *. rewrite take_app_length. rewrite drop_app_length in Hx.
  change (0 =? 0) with true. cbn [negb].
  change (at_ (header type _) 1) with 3. change (at_ (header type _) 2) with 3.
  change (negb (3 =? u8 (Z.shiftr TLS_VERSION 8)) || (u8 TLS_VERSION <? 3)) with false. cbv iota.
  change (drop 3 (header type (Z.of_nat (length b)))) with (put16 (Z.of_nat (length b)) ++ []).
  rewrite put16_be16 by lia. rewrite (proj2 (Z.ltb_ge outcap _)) by lia.
  destruct (recv_all_ok (Z.to_nat (Z.of_nat (length b))) (set_ctx x c) (Z.of_nat (length b)) to) as (x' & E' & Hx' & Hs');
    [lia|lia|cbn [ctx set_ctx]; rewrite Hx, length_app; lia|].
  rewrite E'. cbn [obind fst snd negb ctx set_ctx] in *. change (0 =? 0) with true. cbn [negb].
  exists x'. rewrite Nat2Z.id, Hx in *. rewrite take_app_length. rewrite drop_app_length in Hx'. by rewrite Hx', Hs', Hs.
Qed.

(** The keys a side writes and reads with. *)
Definition wkey (c : conn) : list Z := if is_server c then skey c else ckey c.
Definition wiv (c : conn) : list Z := if is_server c then siv c else civ c.
Definition rkey (c : conn) : list Z := if is_server c then ckey c else skey c.
Definition riv (c : conn) : list Z := if is_server c then civ c else siv c.

(** [malloc] does not refuse the sizes the input buffer takes. *)
Definition alloc_ready : Prop := forall n, 0 <= n <= 2 ^ 15 -> alloc n <> None.

(** The input buffer: the bytes between [in_off] and [in_len] wait to be read. *)
Definition in_ok (c : conn) : Prop :=
  0 <= in_off c <= in_len c /\ in_len c <= Z.of_nat (length (inbuf c)) /\ (inbuf c = [] \/ 4096 <= Z.of_nat (length (inbuf c)) <= 2 ^ 15) /\
  (in_off c = in_len c -> in_len c = 0).
Definition waiting (c : conn) : list Z := drop (Z.to_nat (in_off c)) (take (Z.to_nat (in_len c)) (inbuf c)).

Lemma grow_cap_ok fuel ncap need :
  4096 <= ncap <= 2 ^ 15 -> need <= 2 ^ 14 -> need <= ncap * 2 ^ Z.of_nat fuel ->
  exists n, grow_cap fuel ncap need = Done n /\ need <= n <= 2 ^ 15 /\ ncap <= n.
Proof.
  revert ncap; induction fuel as [|fuel IH]; intros ncap Hc Hn Hf; cbn [grow_cap].
  - rewrite (proj2 (Z.ltb_ge ncap need)) by lia. exists ncap. repeat split; lia.
  - destruct (Z.ltb_spec ncap need); [|exists ncap; repeat split; lia].
    rewrite u32_id by (unfold is_u32; lia). destruct (IH (ncap * 2)) as (n & E & ? & ?); [lia|lia| |exists n; repeat split; auto; lia].
    rewrite Nat2Z.inj_succ, Z.pow_succ_r in Hf by lia. lia.
Qed.

(** Room for a record in an empty input buffer. *)
Lemma room_ok (c : conn) n :
  alloc_ready -> in_ok c -> in_len c = 0 -> 0 <= n <= MAX_PLAIN ->
  exists b, make_room c n = Done (0, set_in b 0 0 c) /\
    n <= Z.of_nat (length b) /\ (b = [] \/ 4096 <= Z.of_nat (length b) <= 2 ^ 15).
Proof.
  intros Ha (H1 & H2 & H3 & H4) H0 Hn. unfold make_room, MAX_PLAIN in *.
  assert (in_off c = 0) as Ho by lia. rewrite H0, u32_id, Z.add_0_l by (unfold is_u32; lia).
  destruct (Z.ltb_spec (Z.of_nat (length (inbuf c))) n) as [Hlt|Hge].
  - unfold grow. set (cap := if Z.of_nat (length (inbuf c)) =? 0 then 4096 else Z.of_nat (length (inbuf c))).
    assert (4096 <= cap <= 2 ^ 15 /\ Z.of_nat (length (inbuf c)) <= cap) as [Hc Hc'].
    { subst cap. destruct H3 as [E|?]; [rewrite E in *; cbn [length] in *; change (Z.of_nat 0 =? 0) with true; cbv iota; lia|]. bcase; lia. }
    destruct (grow_cap_ok 32 cap n) as (m & E & Hm & Hcm); [lia|lia|change (2 ^ Z.of_nat 32) with 4294967296; lia|].
    rewrite E. cbn [obind]. destruct (alloc m) as [nb|] eqn:Ea; [|by apply Ha in Ea; [|lia]].
    apply alloc_length in Ea. eexists. rewrite H0, Ho. split; [reflexivity|]. rewrite length_app, length_drop, Ea. lia.
  - exists (inbuf c). split; [destruct c; cbn in *; by subst|]. split; [lia|done].
Qed.

(** The plaintext of a received record, and whether its tag is the right one. *)
Definition nonce_of (c : conn) (e : list Z) : list Z := gcm_nonce_wire (riv c) e.
Definition aad_of (c : conn) (type : Z) (ct : list Z) : list Z := gcm_aad (seq_r c) type (u16 (Z.of_nat (length ct))).

Lemma decrypt_run (c : conn) type e ct t :
  alloc_ready -> in_ok c -> in_len c = 0 -> length e = 8%nat -> length t = 16%nat -> Z.of_nat (length ct) <= MAX_PLAIN ->
  exists b, Z.of_nat (length ct) <= Z.of_nat (length b) /\ (b = [] \/ 4096 <= Z.of_nat (length b) <= 2 ^ 15) /\
  decrypt_record c type (e ++ ct ++ t) =
    Done (if decide (gcm_tag (rkey c) (nonce_of c e) (aad_of c type ct) ct = t)
          then (0, set_in (gcm_crypt (rkey c) (nonce_of c e) ct ++ drop (length ct) b) (Z.of_nat (length ct)) 0
                     (set_seq (seq_w c) (u64 (seq_r c + 1)) c))
          else (-1, seterr "record authentication failed" (set_in (replicate (length ct) 0 ++ drop (length ct) b) 0 0 c))).
Proof.
  intros Ha Hin H0 He Ht Hl. destruct (room_ok c (Z.of_nat (length ct)) Ha Hin H0) as (b & Eb & Hb & Hb'); [lia|].
  exists b. split; [done|]. split; [done|]. unfold decrypt_record, AES_EXPLICIT, TAG. cbv zeta.
  rewrite !length_app, He, Ht. replace (Z.of_nat (8 + (length ct + 16)) - 8 - 16) with (Z.of_nat (length ct)) by lia.
  rewrite (proj2 (Z.ltb_ge _ (8 + 16))), (proj2 (Z.ltb_ge MAX_PLAIN _)) by lia. rewrite Eb. cbn [obind].
  change (0 =? 0) with true. cbn [negb in_len in_off inbuf is_server ckey skey civ siv seq_w set_in]. rewrite drop_0, take_0, Z.add_0_l.
  assert (drop 8 (e ++ ct ++ t) = ct ++ t) as -> by (by rewrite <- He, drop_app_length).
  assert (gcm_nonce_wire (if is_server c then civ c else siv c) (e ++ ct ++ t) = nonce_of c e) as ->
    by (unfold nonce_of, gcm_nonce_wire, riv; by rewrite (take_app_le e) by lia).
 fold (aad_of c type ct). fold (rkey c).
  rewrite open_tagbuf by (done || lia). cbn [obind]. destruct (decide _); done.
Qed.

(** *** Writing *)

Fixpoint records (key iv : list Z) (seq : Z) (chunks : list (list Z)) : list Z :=
  match chunks with
  | [] => []
  | m :: ms => protect key iv seq CT_APP m ++ records key iv (u64 (seq + 1)) ms
  end.

Definition chunk_ok (m : list Z) : Prop := 1 <= Z.of_nat (length m) <= MAX_PLAIN.

(** The sequence number after [n] more records. *)
Fixpoint seq_after (n : nat) (seq : Z) : Z := match n with O => seq | S n' => seq_after n' (u64 (seq + 1)) end.

Lemma send_record_ok (c : conn) m to :
  write_enc c = true -> Z.of_nat (length m) <= MAX_PLAIN ->
  exists x, tls_send_record send_fn c CT_APP m to = Done (0, set_seq (u64 (seq_w c + 1)) (seq_r c) (set_ctx x c)) /\
    sent x = sent (ctx c) ++ protect (wkey c) (wiv c) (seq_w c) CT_APP m /\ pending x = pending (ctx c).
Proof.
  intros Hw Hl. unfold tls_send_record. rewrite (proj2 (Z.ltb_ge MAX_PLAIN _)), Hw by lia. fold (wkey c) (wiv c).
  set (buf := protect _ _ _ _ _). destruct (send_all_ok (length buf) c buf to ltac:(lia)) as (x & E & Hs & Hp).
  exists x. rewrite E. cbn [obind]. done.
Qed.

Lemma write_loop_ok fuel (c : conn) p to :
  write_enc c = true -> (length p <= fuel)%nat ->
  exists chunks x, write_loop send_fn fuel c p to = Done (true, set_seq (seq_after (length chunks) (seq_w c)) (seq_r c) (set_ctx x c)) /\
    Forall chunk_ok chunks /\ concat chunks = p /\
    sent x = sent (ctx c) ++ records (wkey c) (wiv c) (seq_w c) chunks /\ pending x = pending (ctx c).
Proof.
  revert c p; induction fuel as [|fuel IH]; intros c p Hw Hl;
    (destruct p as [|a p]; [exists [], (ctx c); cbn [write_loop records seq_after concat length]; rewrite app_nil_r; split; [by destruct c|done]|]);
    [cbn in Hl; lia|].
  cbn [write_loop]. set (q := a :: p) in *.
  set (k := Z.to_nat (if MAX_PLAIN <? Z.of_nat (length q) then MAX_PLAIN else Z.of_nat (length q))).
  assert (1 <= length q)%nat as Hq by (unfold q; cbn; lia).
  assert ((1 <= k <= length q)%nat /\ Z.of_nat k <= MAX_PLAIN) as [Hk Hk'].
  { subst k. unfold MAX_PLAIN in *. bcase; lia. }
  assert (length (take k q) = k) as Lk by (rewrite length_take; lia).
  destruct (send_record_ok c (take k q) to Hw) as (x & E & Hs & Hp); [rewrite Lk; lia|].
  rewrite E. cbn [obind]. change (0 =? 0) with true. cbn [negb].
  destruct (IH (set_seq (u64 (seq_w c + 1)) (seq_r c) (set_ctx x c)) (drop k q) Hw) as (ms & x' & E' & Hf & Hc & Hs' & Hp'); [rewrite length_drop; lia|].
  exists (take k q :: ms), x'. split; [exact E'|]. split; [constructor; [unfold chunk_ok; rewrite Lk; lia|done]|].
  cbn [concat records]. rewrite Hc, take_drop. split; [done|]. split; [|exact (eq_trans Hp' Hp)].
  rewrite Hs'. cbn [ctx set_seq set_ctx]. rewrite Hs, <- app_assoc. done.
Qed.

(** *** Reading *)

Lemma length_waiting c : in_ok c -> Z.of_nat (length (waiting c)) = in_len c - in_off c.
Proof. intros (H1 & H2 & _). unfold waiting. rewrite length_drop, length_take. lia. Qed.

(** Bytes that wait are handed over at once. *)
Lemma read_waiting fuel (c : conn) len to :
  in_ok c -> waiting c <> [] -> 0 < len ->
  exists n b l o, read_loop recv_fn fuel c len to = Done ((n, take (Z.to_nat n) (waiting c)), set_in b l o c) /\
    1 <= n <= len /\ n <= Z.of_nat (length (waiting c)) /\ in_ok (set_in b l o c) /\
    waiting (set_in b l o c) = drop (Z.to_nat n) (waiting c).
Proof.
  intros Hin Hne Hlen. pose proof (length_waiting c Hin) as Lw. assert (Hin' := Hin). destruct Hin' as (H1 & H2 & H3 & H4).
  assert (0 < Z.of_nat (length (waiting c))) by (destruct (waiting c); [done|cbn; lia]).
  assert (in_len c <= 2 ^ 15) by (destruct H3 as [E|?]; [rewrite E in H2; cbn in H2; lia|lia]).
  set (n := if len <? in_len c - in_off c then len else in_len c - in_off c).
  assert (1 <= n <= len /\ n <= in_len c - in_off c) as [Hn Hn'] by (subst n; bcase; lia).
  assert (take (Z.to_nat n) (drop (Z.to_nat (in_off c)) (inbuf c)) = take (Z.to_nat n) (waiting c)) as Et.
  { unfold waiting. rewrite <- (take_drop (Z.to_nat (in_len c)) (inbuf c)) at 1.
    rewrite drop_app_le by (rewrite length_take; lia). rewrite take_app_le by (rewrite length_drop, length_take; lia). done. }
  exists n. destruct fuel; cbn [read_loop]; rewrite u32_id by (unfold is_u32; lia); rewrite (proj2 (Z.ltb_lt 0 _)) by lia;
    cbv zeta; fold n; rewrite Et; (destruct (Z.eqb_spec (in_off c + n) (in_len c)) as [E|E];
    [exists (inbuf c), 0, 0|exists (inbuf c), (in_len c), (in_off c + n)]; (split; [done|]); (split; [lia|]); (split; [lia|])).
  1,3: split; [repeat split; cbn; auto; lia|]; unfold waiting; cbn [inbuf in_len in_off set_in]; rewrite take_0, drop_nil;
    symmetry; apply drop_ge; rewrite length_drop, length_take; lia.
  all: split; [repeat split; cbn; auto; lia|]; unfold waiting; cbn [inbuf in_len in_off set_in]; rewrite drop_drop; f_equal; lia.
Qed.

(** A record of application data that the peer protected is decrypted. *)
Lemma read_step_ok (c : conn) m rest to :
  alloc_ready -> in_ok c -> in_len c = 0 -> chunk_ok m ->
  pending (ctx c) = protect (rkey c) (riv c) (seq_r c) CT_APP m ++ rest ->
  exists x b, read_step recv_fn c to = Done (None, set_in (m ++ b) (Z.of_nat (length m)) 0 (set_seq (seq_w c) (u64 (seq_r c + 1)) (set_ctx x c))) /\
    pending x = rest /\ sent x = sent (ctx c) /\
    in_ok (set_in (m ++ b) (Z.of_nat (length m)) 0 (set_seq (seq_w c) (u64 (seq_r c + 1)) (set_ctx x c))).
Proof.
  intros Ha Hin H0 Hm Hp. unfold chunk_ok, MAX_PLAIN in Hm. rewrite protect_split in Hp. set (pl := payload _ _ _ _ _) in Hp.
  pose proof (length_payload (rkey c) (riv c) (seq_r c) CT_APP m) as Lp. fold pl in Lp. rewrite <- Lp, <- app_assoc in Hp.
  destruct (read_record_ok c to (MAX_RECORD_RX + 8) CT_APP pl rest Hp) as (x & E & Hx & Hs); [lia|unfold MAX_RECORD_RX, MAX_PLAIN; lia|].
  unfold read_step. rewrite E. cbn [obind]. change (CT_APP =? CT_APP) with true. cbv iota.
  set (key := rkey c) in *. set (nonce := gcm_nonce (riv c) (seq_r c)). set (ct := gcm_crypt key nonce m).
  assert (length ct = length m) as Lc by apply length_gcm_crypt.
  set (aad := gcm_aad (seq_r c) CT_APP (u16 (Z.of_nat (length m)))).
  assert (pl = be64 (seq_r c) ++ ct ++ gcm_tag key nonce aad ct) as -> by (unfold pl, payload; by rewrite seal_split).
  destruct (decrypt_run (set_ctx x c) CT_APP (be64 (seq_r c)) ct (gcm_tag key nonce aad ct)) as (b & Lb & Lb' & Ed);
    [done|done|done|apply length_be64|apply length_gcm_tag|unfold MAX_PLAIN; lia|].
  rewrite Ed. clear Ed. change (rkey (set_ctx x c)) with key. change (nonce_of (set_ctx x c) (be64 (seq_r c))) with nonce.
  assert (aad_of (set_ctx x c) CT_APP ct = aad) as -> by (unfold aad_of; by rewrite Lc). rewrite decide_True by done.
  cbn [obind]. change (0 =? 0) with true. cbn [negb]. rewrite Lc. unfold ct at 1. rewrite gcm_crypt_twice.
  exists x, (drop (length m) b). split; [done|]. split; [done|]. split; [done|].
  unfold in_ok. cbn [in_off in_len inbuf set_in]. rewrite length_app, length_drop.
  destruct Lb' as [->|?]; [cbn in Lb; lia|]. repeat split; try lia.
Qed.

(** *** The channel *)

(** [B] has yet to read the bytes [q] that [A] wrote: those that wait in its
    buffer, then those of the records under way. *)
Definition channel (A B : conn) (q : list Z) : Prop :=
  stage A = ST_ESTABLISHED /\ stage B = ST_ESTABLISHED /\ write_enc A = true /\ closed B = false /\
  wkey A = rkey B /\ wiv A = riv B /\ in_ok B /\
  exists chunks, Forall chunk_ok chunks /\ pending (ctx B) = records (rkey B) (riv B) (seq_r B) chunks /\
    seq_w A = seq_after (length chunks) (seq_r B) /\ q = waiting B ++ concat chunks.

Lemma records_app key iv seq ms ms' :
  records key iv seq (ms ++ ms') = records key iv seq ms ++ records key iv (seq_after (length ms) seq) ms'.
Proof. revert seq; induction ms as [|m ms IH]; intros seq; [done|]. cbn [app records length seq_after]. by rewrite IH, app_assoc. Qed.

Lemma seq_after_add n k seq : seq_after (n + k) seq = seq_after k (seq_after n seq).
Proof. revert seq; induction n as [|n IH]; intros seq; [done|]. apply IH. Qed.

Lemma channel_write (A B : conn) q p to :
  channel A B q ->
  exists A' w, tls_write send_fn A p to = Done (Z.of_nat (length p), A') /\ sent (ctx A') = sent (ctx A) ++ w /\
    forall x, pending x = pending (ctx B) ++ w -> channel A' (set_ctx x B) (q ++ p).
Proof.
  intros (H1 & H2 & H3 & H4 & H5 & H6 & H7 & chunks & C1 & C2 & C3 & C4). unfold tls_write. rewrite H1. change (ST_ESTABLISHED =? ST_ESTABLISHED) with true.
  cbn [negb]. destruct (write_loop_ok (length p) A p to H3 ltac:(lia)) as (ms & x & E & M1 & M2 & M3 & M4).
  rewrite E. cbn [obind]. do 2 eexists. split; [reflexivity|]. split; [exact M3|]. intros y Hy.
  do 7 (split; [done|]). exists (chunks ++ ms). split; [by apply Forall_app|]. split.
  - change (pending (ctx (set_ctx y B))) with (pending y). rewrite Hy, records_app, C2, H5, H6, C3. done.
  - split; [|change (waiting (set_ctx y B)) with (waiting B); by rewrite C4, concat_app, M2, app_assoc].
    rewrite length_app, seq_after_add. change (seq_r (set_ctx y B)) with (seq_r B). by rewrite <- C3.
Qed.

Lemma channel_read k (A B : conn) q len to :
  alloc_ready -> channel A B q -> q <> [] -> 0 < len ->
  exists n B', tls_read recv_fn (S k) B len to = Done ((n, take (Z.to_nat n) q), B') /\ 1 <= n <= len /\ channel A B' (drop (Z.to_nat n) q).
Proof.
  intros Ha (H1 & H2 & H3 & H4 & H5 & H6 & H7 & chunks & C1 & C2 & C3 & C4) Hq Hlen.
  unfold tls_read. rewrite H2. change (ST_ESTABLISHED =? ST_ESTABLISHED) with true. cbn [negb].
  destruct (decide (waiting B = [])) as [Ew|Ew].
  - assert (in_len B = 0) as H0.
    { pose proof (length_waiting B H7) as L. rewrite Ew in L. cbn in L. apply H7. lia. }
    destruct C1 as [|m ms Hm Hms]; [by rewrite Ew in C4|]. cbn [records] in C2.
    destruct (read_step_ok B m (records (rkey B) (riv B) (u64 (seq_r B + 1)) ms) to Ha H7 H0 Hm C2) as (x & b & E & Hx & _ & Hin').
    assert (in_off B = 0) as Ho by (destruct H7; lia).
    cbn [read_loop]. rewrite H0, Ho. change (0 <? u32 (0 - 0)) with false. cbv iota. rewrite H4, E. cbn [obind].
    set (B1 := set_in _ _ _ _) in *. assert (waiting B1 = m) as Ew1.
    { unfold B1, waiting. cbn [inbuf in_len in_off set_in]. rewrite drop_0, Nat2Z.id. apply take_app_length. }
    destruct (read_waiting k B1 len to Hin') as (n & b' & l & o & E' & Hn & Hn' & Hin2 & Hw2); [rewrite Ew1; unfold chunk_ok in Hm; destruct m; [cbn in Hm; lia|done]|done|].
    rewrite Ew1 in E', Hn', Hw2. rewrite E'. exists n, (set_in b' l o B1).
    assert (q = m ++ concat ms) as -> by (by rewrite C4, Ew). rewrite take_app_le by lia. split; [done|]. split; [done|].
    do 7 (split; [done|]). exists ms. split; [done|]. split; [exact Hx|]. split; [exact C3|].
    rewrite Hw2, drop_app_le by lia. done.
  - destruct (read_waiting (S k) B len to H7 Ew Hlen) as (n & b' & l & o & E' & Hn & Hn' & Hin2 & Hw2).
    exists n, (set_in b' l o B). rewrite E', C4, take_app_le by lia. split; [done|]. split; [done|].
    do 7 (split; [done|]). exists chunks. split; [done|]. split; [exact C2|]. split; [exact C3|].
    rewrite Hw2, drop_app_le by lia. done.
Qed.
End Channel.


(** C10: an established connection is a byte queue, reading end.  While bytes are
    to be read, [tls_read] returns at least one of them and at most as many as
    asked for, in order, and takes exactly those from the queue, as long as
    [malloc] gives it an input buffer. *)
Theorem tls_read_dequeues {T : Type} (send_fn : T -> list Z -> Z -> T * Z) recv_fn (X : Transport send_fn recv_fn) (M : Allocator)
    k (A B : @tls_conn T) q len to :
  alloc_ready -> channel send_fn recv_fn A B q -> q <> [] -> 0 < len ->
  exists n B', tls_read recv_fn (S k) B len to = Done ((n, take (Z.to_nat n) q), B') /\ 1 <= n <= len /\
    channel send_fn recv_fn A B' (drop (Z.to_nat n) q).
Proof. apply channel_read. Qed.


(** C13: the peer's Finished record is opened without being authenticated.  A
    record of 16 bytes of ciphertext is decrypted and accepted whatever its tag,
    and one of more than 32 overruns the 32 bytes on the stack it is decrypted
    into, before anything in it has been checked. *)
Theorem finished_not_authenticated key iv seq e ct t pt :
  length e = 8%nat -> length t = 16%nat -> length pt = 32%nat ->
  (length ct = 16%nat ->
   open_finished key iv seq (e ++ ct ++ t) pt =
     let p := gcm_crypt key (gcm_nonce_wire iv e) ct in
     Done (if at_ p 0 =? HS_FINISHED then Some p else None)) /\
  ((32 < length ct)%nat -> open_finished key iv seq (e ++ ct ++ t) pt = Trap).
Proof.
  intros He Ht Hp. unfold open_finished, AES_EXPLICIT, TAG. cbv zeta. rewrite !length_app, He, Ht.
  replace (Z.of_nat (8 + (length ct + 16)) - 8 - 16) with (Z.of_nat (length ct)) by lia.
  rewrite (proj2 (Z.ltb_ge _ (8 + 16))) by lia.
  assert (drop 8 (e ++ ct ++ t) = ct ++ t) as -> by (by rewrite <- He, drop_app_length).
  assert (gcm_nonce_wire iv (e ++ ct ++ t) = gcm_nonce_wire iv e) as ->
    by (unfold gcm_nonce_wire; by rewrite (take_app_le e) by lia).
  rewrite Nat2Z.id. split; intros Hc.
  - rewrite gcm_open_alias_accepts by (done || lia). cbn [obind o_ret o_pt]. rewrite Hc. change (0 =? 0) with true.
    change (Z.of_nat 16 =? 16) with true. cbn [negb orb]. set (p := gcm_crypt _ _ _).
    assert (length p = 16%nat) as Lp by (unfold p; by rewrite length_gcm_crypt).
    rewrite at_app_l, <- Lp, take_app_length by lia. by destruct (at_ p 0 =? HS_FINISHED).
  - assert (tls_gcm_open key (gcm_nonce_wire iv e) (gcm_aad seq CT_HANDSHAKE (u16 (Z.of_nat (length ct)))) (ct ++ t) pt (TagInCt (length ct)) = Trap) as ->; [|done].
    unfold tls_gcm_open, TLS_GCM_TAG. rewrite length_app, Ht. rewrite (proj2 (Nat.ltb_ge _ _)) by lia.
    replace (length ct + 16 - 16)%nat with (length ct) by lia. rewrite (proj2 (Nat.ltb_lt (length pt) _)) by lia. done.
Qed.

(** *** A transport that moves at most three bytes at a time *)

Definition pair_send (x : list Z * list Z) (p : list Z) (to : Z) : (list Z * list Z) * Z :=
  ((x.1 ++ take 3 p, x.2), Z.of_nat (length (take 3 p))).
Definition pair_recv (x : list Z * list Z) (n to : Z) : (list Z * list Z) * Z * list Z :=
  let b := take (Z.to_nat (Z.min 3 n)) x.2 in ((x.1, drop (length b) x.2), Z.of_nat (length b), b).

#[export] Instance pair_transport : Transport pair_send pair_recv.
Proof.
  refine {| sent := fst; pending := snd |}.
  - intros [s q] p to Hp. unfold pair_send. rewrite length_take. cbn [fst snd]. destruct p as [|a p]; [done|].
    split; [cbn [length]; lia|]. split; [|done]. f_equal. rewrite Nat2Z.id. symmetry.
    destruct (decide (3 <= length (a :: p))%nat); [f_equal; lia|rewrite !take_ge by lia; done].
  - intros [s q] n to Hn Hq. unfold pair_recv. cbn [fst snd] in *. set (b := take _ q).
    assert (1 <= Z.of_nat (length b) <= n) by (unfold b; rewrite length_take; destruct q; [done|cbn [length]; lia]).
    split; [done|]. split; [done|]. split; [|done]. cbn [snd].
    unfold b at 2. rewrite length_take. destruct (decide (Z.to_nat (Z.min 3 n) <= length q)%nat).
    + rewrite Nat.min_l by lia. unfold b. by rewrite take_drop.
    + unfold b. rewrite take_ge, drop_ge by lia. by rewrite app_nil_r.
Defined.

Definition end_of (server : bool) (x : list Z * list Z) : tls_conn :=
  mkConn x "" (replicate 16 1) (replicate 16 2) (replicate 4 3) (replicate 4 4) 1 1 [] 0 0 ST_ESTABLISHED false server true.

Lemma new_channel x : x.2 = [] -> channel pair_send pair_recv (end_of false ([], [])) (end_of true x) [].
Proof.
  intros Hx. do 6 (split; [done|]). split; [repeat split; cbn; auto; lia|]. exists []. split; [done|]. by split.
Qed.


(** The client's record of "hello", on its way. *)
Definition hello_wire : list Z := protect (replicate 16 1) (replicate 4 3) 1 CT_APP (cs "hello").

Lemma tls_read_dequeues_witness :
  exists n B', tls_read (H := zero_allocator) pair_recv 1 (end_of true ([], hello_wire)) 4 0 = Done ((n, take (Z.to_nat n) (cs "hello")), B') /\ 1 <= n <= 4.
Proof.
  destruct (tls_read_dequeues pair_send pair_recv pair_transport zero_allocator 0
              (set_seq 2 1 (end_of false ([], []))) (end_of true ([], hello_wire)) (cs "hello") 4 0) as (n & B' & E & Hn & _).
  - intros n _. discriminate.
  - do 6 (split; [reflexivity|]). split; [repeat split; cbn; auto; lia|].
    exists [cs "hello"]. split; [apply Forall_singleton; split; vm_compute; congruence|].
    split; [symmetry; apply app_nil_r|]. split; reflexivity.
  - discriminate.
  - lia.
  - exists n, B'. split; [exact E|exact Hn].
Defined.


Lemma finished_not_authenticated_witness :
  open_finished (replicate 16 1) (replicate 4 2) 0 (replicate 8 5 ++ replicate 33 7 ++ replicate 16 0) (replicate 32 9) = Trap.
Proof. apply (finished_not_authenticated (replicate 16 1) (replicate 4 2) 0 (replicate 8 5) (replicate 33 7) (replicate 16 0) (replicate 32 9)); try reflexivity. cbn. lia. Defined.
