(* ===== verification/Pipe.v ===== *)
(** The kernel's pipes ([vnu/kernel/fs/pipe.cpp]).

    Eight pipes, each a ring of 256 bytes with counts of its readers and
    writers, and one descriptor table per process.  The state is passed
    explicitly; [pid] is what [vnu::proc::current_pid()] answers.  A pointer to
    a table is its index. *)
From S2P Require Import Prelude.

Definition MAX_PIPES : nat := 8.
Definition MAX_FD : nat := 64.
Definition MAX_TABLES : nat := 16.
Definition BUF : Z := 256.

Definition VNU_EBADF : Z := 9.
Definition VNU_EAGAIN : Z := 11.
Definition VNU_ENOSPC : Z := 28.
Definition VNU_EPIPE : Z := 32.

Record Pipe := mkPipe { p_used : bool; data : list Z; p_r : Z; p_w : Z; p_len : Z; readers : Z; writers : Z }.
Record Fd := mkFd { f_used : bool; is_pipe : bool; pipe_id : nat; write_end : bool }.
Record Table := mkTable { t_used : bool; t_pid : Z; t_e : list Fd }.
Record State := mkState { pipes : list Pipe; tables : list Table }.

(** [Pipe{}], [Fd{}] and [Table{}]. *)
Definition pipe0 : Pipe := mkPipe false (replicate 256 0) 0 0 0 0 0.
Definition fd0 : Fd := mkFd false false 0 false.
Definition table0 : Table := mkTable false 0 (replicate MAX_FD fd0).

Definition pipe_at (st : State) (k : nat) : Pipe := nth k (pipes st) pipe0.
Definition table_at (st : State) (t : nat) : Table := nth t (tables st) table0.
Definition fd_at (t : Table) (i : nat) : Fd := nth i (t_e t) fd0.
Definition entry (st : State) (t i : nat) : Fd := fd_at (table_at st t) i.

Definition set_pipe (st : State) (k : nat) (p : Pipe) : State := mkState (<[k := p]> (pipes st)) (tables st).
Definition set_table (st : State) (t : nat) (x : Table) : State := mkState (pipes st) (<[t := x]> (tables st)).
Definition set_entry (st : State) (t i : nat) (e : Fd) : State :=
  let x := table_at st t in set_table st t (mkTable (t_used x) (t_pid x) (<[i := e]> (t_e x))).

(** The first index below [i + n], from [i] on, that passes the test. *)
Fixpoint first_from (test : nat -> bool) (i n : nat) : option nat :=
  match n with
  | O => None
  | S n' => if test i then Some i else first_from test (S i) n'
  end.

Definition alloc_in (t : Table) : option nat := first_from (fun i => negb (f_used (fd_at t i))) 3 (MAX_FD - 3).

Definition find (st : State) (pid : Z) : option nat :=
  first_from (fun i => t_used (table_at st i) && (t_pid (table_at st i) =? pid)) 0 MAX_TABLES.

Definition table_for (st : State) (pid : Z) : option nat * State :=
  match find st pid with
  | Some t => (Some t, st)
  | None =>
      match first_from (fun i => negb (t_used (table_at st i))) 0 MAX_TABLES with
      | Some i => (Some i, set_table st i (mkTable true pid (t_e table0)))
      | None => (None, st)
      end
  end.

(** [++p.writers] or [++p.readers], and [--]. *)
Definition count (p : Pipe) (we : bool) (d : Z) : Pipe :=
  mkPipe (p_used p) (data p) (p_r p) (p_w p) (p_len p)
    (if we then readers p else readers p + d) (if we then writers p + d else writers p).

(** One descriptor given back: the count, the entry, the pipe when nobody holds it. *)
Definition drop_entry (st : State) (t i : nat) : State :=
  let e := entry st t i in
  let p := count (pipe_at st (pipe_id e)) (write_end e) (-1) in
  let p := if (readers p <=? 0) && (writers p <=? 0)
           then mkPipe false (data p) (p_r p) (p_w p) (p_len p) (readers p) (writers p) else p in
  set_entry (set_pipe st (pipe_id e) p) t i fd0.

(** [for (int i = 0; i < MAX_FD; ++i)], [n] entries from [i] on. *)
Fixpoint release_from (st : State) (t i n : nat) : State :=
  match n with
  | O => st
  | S n' => release_from (if f_used (entry st t i) then drop_entry st t i else st) t (S i) n'
  end.
Definition release (st : State) (t : nat) : State := release_from st t 0 MAX_FD.

Definition init : State := mkState (replicate MAX_PIPES pipe0) (replicate MAX_TABLES table0).

(** The result, [fds] and the state. *)
Definition create (st : State) (pid : Z) : Z * option (nat * nat) * State :=
  match first_from (fun i => negb (p_used (pipe_at st i))) 0 MAX_PIPES with
  | None => (- VNU_ENOSPC, None, st)
  | Some pi =>
      match table_for st pid with
      | (None, st) => (- VNU_ENOSPC, None, st)
      | (Some t, st) =>
          match alloc_in (table_at st t) with
          | None => (- VNU_ENOSPC, None, st)
          | Some rfd =>
              let st := set_entry st t rfd (mkFd true true pi false) in
              match alloc_in (table_at st t) with
              | None => (- VNU_ENOSPC, None, set_entry st t rfd fd0)
              | Some wfd =>
                  let st := set_entry st t wfd (mkFd true true pi true) in
                  (0, Some (rfd, wfd), set_pipe st pi (mkPipe true (data pipe0) 0 0 0 1 1))
              end
          end
      end
  end.

(** The caller's table and entry when [fd] is a pipe of it. *)
Definition is_pipe_fd (st : State) (pid fd : Z) : option (nat * nat) :=
  match find st pid with
  | Some t =>
      let e := entry st t (Z.to_nat fd) in
      if (0 <=? fd) && (fd <? Z.of_nat MAX_FD) && f_used e && is_pipe e then Some (t, Z.to_nat fd) else None
  | None => None
  end.

(** [while (got < n && p.len > 0)]. *)
Fixpoint read_loop (n : nat) (p : Pipe) : list Z * Pipe :=
  match n with
  | O => ([], p)
  | S n' =>
      if 0 <? p_len p then
        let r := read_loop n' (mkPipe (p_used p) (data p) (u32 (p_r p + 1) mod BUF) (p_w p) (p_len p - 1) (readers p) (writers p)) in
        (at_ (data p) (Z.to_nat (p_r p)) :: fst r, snd r)
      else ([], p)
  end.

(** The result, the bytes stored in [buf], the state. *)
Definition read_fd (st : State) (pid fd : Z) (n : nat) : Z * list Z * State :=
  match is_pipe_fd st pid fd with
  | None => (- VNU_EBADF, [], st)
  | Some (t, i) =>
      let e := entry st t i in
      if write_end e then (- VNU_EBADF, [], st)
      else
        let r := read_loop n (pipe_at st (pipe_id e)) in
        let got := fst r in
        let st := set_pipe st (pipe_id e) (snd r) in
        if (length got =? 0)%nat && (writers (snd r) =? 0) then (0, [], st)
        else if (length got =? 0)%nat then (- VNU_EAGAIN, [], st)
        else (Z.of_nat (length got), got, st)
  end.

(** [while (put < n && p.len < BUF)]: how many, and the pipe. *)
Fixpoint write_loop (input : list Z) (p : Pipe) : nat * Pipe :=
  match input with
  | [] => (O, p)
  | c :: input' =>
      if p_len p <? BUF then
        let r := write_loop input' (mkPipe (p_used p) (<[Z.to_nat (p_w p) := c]> (data p)) (p_r p) (u32 (p_w p + 1) mod BUF)
                                      (p_len p + 1) (readers p) (writers p)) in
        (S (fst r), snd r)
      else (O, p)
  end.

Definition write_fd (st : State) (pid fd : Z) (input : list Z) : Z * State :=
  match is_pipe_fd st pid fd with
  | None => (- VNU_EBADF, st)
  | Some (t, i) =>
      let e := entry st t i in
      if negb (write_end e) then (- VNU_EBADF, st)
      else if readers (pipe_at st (pipe_id e)) =? 0 then (- VNU_EPIPE, st)
      else
        let r := write_loop input (pipe_at st (pipe_id e)) in
        (Z.of_nat (fst r), set_pipe st (pipe_id e) (snd r))
  end.

Definition close_fd (st : State) (pid fd : Z) : Z * State :=
  match is_pipe_fd st pid fd with
  | None => (- VNU_EBADF, st)
  | Some (t, i) => (0, drop_entry st t i)
  end.

(** Entry [i] of table [t] becomes one more reference to what [e] refers to. *)
Definition copy_entry (st : State) (t i : nat) (e : Fd) : State :=
  let st := set_entry st t i e in
  set_pipe st (pipe_id e) (count (pipe_at st (pipe_id e)) (write_end e) 1).

Definition dup_fd (st : State) (pid oldfd : Z) : Z * State :=
  match is_pipe_fd st pid oldfd with
  | None => (- VNU_EBADF, st)
  | Some (t, i) =>
      match alloc_in (table_at st t) with
      | None => (- VNU_ENOSPC, st)
      | Some n => (Z.of_nat n, copy_entry st t n (entry st t i))
      end
  end.

Definition dup2_fd (st : State) (pid oldfd newfd : Z) : Z * State :=
  match is_pipe_fd st pid oldfd with
  | None => (- VNU_EBADF, st)
  | Some (t, i) =>
      if (newfd <? 0) || (Z.of_nat MAX_FD <=? newfd) then (- VNU_EBADF, st)
      else if oldfd =? newfd then (newfd, st)
      else
        let n := Z.to_nat newfd in
        let st := if f_used (entry st t n) && is_pipe (entry st t n) then snd (close_fd st pid newfd) else st in
        (newfd, copy_entry st t n (entry st t i))
  end.

Definition close_all_of (st : State) (pid : Z) : State :=
  match find st pid with
  | None => st
  | Some t => set_table (release st t) t table0
  end.

(** [for (int i = 0; i < MAX_FD; ++i)]: the counts of the copied entries. *)
Fixpoint raise_from (st : State) (t i n : nat) : State :=
  match n with
  | O => st
  | S n' =>
      let e := entry st t i in
      raise_from (if f_used e then set_pipe st (pipe_id e) (count (pipe_at st (pipe_id e)) (write_end e) 1) else st) t (S i) n'
  end.

Definition fork_copy (st : State) (pid child : Z) : State :=
  match find st pid with
  | None => st
  | Some src =>
      match table_for st child with
      | (None, st) => st
      | (Some dst, st) =>
          let st := if t_used (table_at st dst) then release st dst else st in
          let x := table_at st dst in
          let st := set_table st dst (mkTable (t_used x) (t_pid x) (t_e (table_at st src))) in
          raise_from st dst 0 MAX_FD
      end
  end.

Example pipe_ex :
  let '(_, fds, st) := create init 7 in
  let '(n, st) := write_fd st 7 4 (cs "hello") in
  let st := fork_copy st 7 8 in
  let '(_, st) := close_fd st 7 4 in
  let '(m, got, st) := read_fd st 8 3 99 in
  let '(e, _, st) := read_fd st 8 3 99 in
  let '(_, st) := close_fd st 8 4 in
  let '(z, _, st) := read_fd st 8 3 99 in
  (fds, n, m, got, e, z) = (Some (3, 4)%nat, 5, 5, cs "hello", - VNU_EAGAIN, 0).
Proof. vm_compute. reflexivity. Qed.

(** * Reading and writing the state *)

Lemma nth_insert {A} (l : list A) i j x d :
  (i < length l)%nat -> nth j (<[i := x]> l) d = if decide (i = j) then x else nth j l d.
Proof.
  intros Hi. rewrite !nth_lookup. destruct (decide (i = j)) as [->|Hne].
  - by rewrite list_lookup_insert_eq.
  - by rewrite list_lookup_insert_ne.
Qed.

Lemma first_from_spec test i n :
  match first_from test i n with
  | Some k => (i <= k < i + n)%nat /\ test k = true /\ forall j, (i <= j < k)%nat -> test j = false
  | None => forall j, (i <= j < i + n)%nat -> test j = false
  end.
Proof.
  revert i; induction n as [|n IH]; intros i; cbn [first_from]; [intros; lia|]. destruct (test i) eqn:E.
  - split; [lia|]. split; [done|]. intros; lia.
  - specialize (IH (S i)). destruct (first_from test (S i) n) as [k|].
    + destruct IH as (H1 & H2 & H3). split; [lia|]. split; [done|]. intros j Hj. destruct (decide (j = i)) as [->|]; [done|]. apply H3. lia.
    + intros j Hj. destruct (decide (j = i)) as [->|]; [done|]. apply IH. lia.
Qed.

(** The sum of [f] over a list. *)
Definition tally {A} (f : A -> Z) (l : list A) : Z := foldr (fun x s => f x + s) 0 l.

Lemma tally_insert {A} (f : A -> Z) l i x d :
  (i < length l)%nat -> tally f (<[i := x]> l) = tally f l - f (nth i l d) + f x.
Proof.
  revert i; induction l as [|y l IH]; intros i Hi; [simpl in Hi; lia|]. destruct i as [|i]; cbn; [lia|].
  change (foldr (fun x s => f x + s) 0 (<[i := x]> l)) with (tally f (<[i := x]> l)).
  rewrite IH by (simpl in Hi; lia). unfold tally. lia.
Qed.

Lemma tally_nonneg {A} (f : A -> Z) l : (forall x, 0 <= f x) -> 0 <= tally f l.
Proof. intros Hf. induction l as [|y l IH]; cbn; [lia|]. pose proof (Hf y). unfold tally in IH. lia. Qed.

Lemma tally_bounds {A} (f : A -> Z) l i d :
  (forall x, 0 <= f x) -> (i < length l)%nat -> 0 <= f (nth i l d) <= tally f l.
Proof.
  intros Hf. revert i; induction l as [|y l IH]; intros i Hi; [simpl in Hi; lia|]. cbn.
  change (foldr (fun x s => f x + s) 0 l) with (tally f l).
  pose proof (tally_nonneg f l Hf).
  destruct i as [|i]; [pose proof (Hf y); lia|]. specialize (IH i ltac:(simpl in Hi; lia)). pose proof (Hf y). lia.
Qed.

Lemma tally_pos {A} (f : A -> Z) l d : 0 < tally f l -> exists i, (i < length l)%nat /\ 0 < f (nth i l d).
Proof.
  induction l as [|y l IH]; cbn; [lia|]. change (foldr (fun x s => f x + s) 0 l) with (tally f l). intros H.
  destruct (Z.ltb_spec 0 (f y)); [exists 0%nat; simpl; split; [lia|done]|].
  destruct IH as (i & Hi & H'); [lia|]. exists (S i). simpl. split; [lia|done].
Qed.

Lemma tally_zero {A} (f : A -> Z) l d : (forall i, (i < length l)%nat -> f (nth i l d) = 0) -> tally f l = 0.
Proof.
  induction l as [|y l IH]; intros H; [done|]. cbn. change (foldr (fun x s => f x + s) 0 l) with (tally f l).
  rewrite IH; [pose proof (H 0%nat ltac:(simpl; lia)); simpl in *; lia|]. intros i Hi. apply (H (S i)). simpl. lia.
Qed.

Definition holds (k : nat) (we : bool) (e : Fd) : bool := f_used e && (pipe_id e =? k)%nat && Bool.eqb (write_end e) we.
Definition in_table (k : nat) (we : bool) (t : Table) : Z := tally (fun e => b2z (holds k we e)) (t_e t).

(** How many descriptors, of all processes, hold the reading or the writing end of pipe [k]. *)
Definition refs (st : State) (k : nat) (we : bool) : Z := tally (in_table k we) (tables st).

Definition held (p : Pipe) (we : bool) : Z := if we then writers p else readers p.

Definition ring_ok (p : Pipe) : Prop :=
  length (data p) = 256%nat /\ 0 <= p_r p < BUF /\ 0 <= p_len p <= BUF /\ p_w p = (p_r p + p_len p) mod BUF.

(** Everything but the counts. *)
Record shape (st : State) : Prop := {
  sh_pipes : length (pipes st) = MAX_PIPES;
  sh_tables : length (tables st) = MAX_TABLES;
  sh_entries : forall t, length (t_e (table_at st t)) = MAX_FD;
  sh_fd : forall t i, f_used (entry st t i) = true -> is_pipe (entry st t i) = true /\ (pipe_id (entry st t i) < MAX_PIPES)%nat;
  sh_free : forall t i, t_used (table_at st t) = false -> f_used (entry st t i) = false;
  sh_pid : forall t t', t_used (table_at st t) = true -> t_used (table_at st t') = true ->
             t_pid (table_at st t) = t_pid (table_at st t') -> t = t';
  sh_ring : forall k, ring_ok (pipe_at st k) }.

(** The counts of every pipe are the numbers of descriptors that hold it, and
    a pipe is in use exactly while somebody holds it. *)
Record inv (st : State) : Prop := {
  inv_shape : shape st;
  inv_count : forall k we, (k < MAX_PIPES)%nat -> held (pipe_at st k) we = refs st k we;
  inv_used : forall k, (k < MAX_PIPES)%nat -> p_used (pipe_at st k) = (0 <? refs st k false + refs st k true) }.

Lemma table_range st t : shape st -> t_used (table_at st t) = true -> (t < MAX_TABLES)%nat.
Proof.
  intros Hs H. destruct (decide (t < MAX_TABLES)%nat); [done|]. unfold table_at in H.
  rewrite nth_overflow in H by (rewrite (sh_tables _ Hs); lia). done.
Qed.

Lemma entry_range st t i : shape st -> f_used (entry st t i) = true -> (t < MAX_TABLES)%nat /\ (i < MAX_FD)%nat /\ t_used (table_at st t) = true.
Proof.
  intros Hs H. assert (t_used (table_at st t) = true) as Ht.
  { destruct (t_used (table_at st t)) eqn:E; [done|]. by rewrite (sh_free _ Hs t i E) in H. }
  split; [by eapply table_range|]. split; [|done]. destruct (decide (i < MAX_FD)%nat); [done|].
  unfold entry, fd_at in H. rewrite nth_overflow in H by (rewrite (sh_entries _ Hs); lia). done.
Qed.

Lemma pipe_at_set st k p j : (k < length (pipes st))%nat -> pipe_at (set_pipe st k p) j = if decide (k = j) then p else pipe_at st j.
Proof. intros H. unfold pipe_at, set_pipe. cbn [pipes]. by apply nth_insert. Qed.

Lemma table_at_set st t x j : (t < length (tables st))%nat -> table_at (set_table st t x) j = if decide (t = j) then x else table_at st j.
Proof. intros H. unfold table_at, set_table. cbn [tables]. by apply nth_insert. Qed.

Lemma refs_set_pipe st j p k we : refs (set_pipe st j p) k we = refs st k we.
Proof. done. Qed.

Lemma refs_set_table st t x k we :
  (t < length (tables st))%nat -> refs (set_table st t x) k we = refs st k we - in_table k we (table_at st t) + in_table k we x.
Proof. intros H. unfold refs, set_table. cbn [tables]. by rewrite (tally_insert _ _ _ _ table0). Qed.

Section Entry.
Variables (st : State) (t i : nat) (e : Fd).
Hypothesis Hs : shape st.
Hypothesis Ht : (t < MAX_TABLES)%nat.
Hypothesis Hi : (i < MAX_FD)%nat.

Lemma table_set_entry j :
  table_at (set_entry st t i e) j =
  if decide (t = j) then mkTable (t_used (table_at st t)) (t_pid (table_at st t)) (<[i := e]> (t_e (table_at st t))) else table_at st j.
Proof. unfold set_entry. by rewrite table_at_set by (rewrite (sh_tables _ Hs); done). Qed.

Lemma entry_set_entry t' i' : entry (set_entry st t i e) t' i' = if decide (t = t' /\ i = i') then e else entry st t' i'.
Proof.
  unfold entry, fd_at. rewrite table_set_entry. destruct (decide (t = t')) as [->|Hne].
  - cbn [t_e]. rewrite nth_insert by (rewrite (sh_entries _ Hs); done). destruct (decide (i = i')), (decide _); tauto || done.
  - destruct (decide _); [tauto|done].
Qed.

Lemma refs_set_entry k we :
  refs (set_entry st t i e) k we = refs st k we - b2z (holds k we (entry st t i)) + b2z (holds k we e).
Proof.
  unfold set_entry. rewrite refs_set_table by (rewrite (sh_tables _ Hs); done). unfold in_table at 2. cbn [t_e].
  rewrite (tally_insert _ _ _ _ fd0) by (rewrite (sh_entries _ Hs); done). unfold entry, fd_at, in_table. lia.
Qed.

Lemma shape_set_entry :
  (f_used e = true -> is_pipe e = true /\ (pipe_id e < MAX_PIPES)%nat /\ t_used (table_at st t) = true) -> shape (set_entry st t i e).
Proof.
  intros He. assert (forall j, t_used (table_at (set_entry st t i e) j) = t_used (table_at st j)) as Hu.
  { intros j. rewrite table_set_entry. by destruct (decide (t = j)) as [->|]. }
  split.
  - apply Hs.
  - unfold set_entry, set_table. cbn [tables]. rewrite length_insert. apply Hs.
  - intros j. rewrite table_set_entry. destruct (decide (t = j)) as [->|]; [cbn [t_e]; rewrite length_insert|]; apply Hs.
  - intros t' i'. rewrite entry_set_entry. destruct (decide _); [intros H; by destruct (He H) as (? & ? & _)|apply Hs].
  - intros t' i'. rewrite Hu, entry_set_entry. destruct (decide _) as [[-> ->]|]; [|apply Hs].
    intros Hf. destruct (f_used e); [|done]. destruct (He eq_refl) as (_ & _ & H). congruence.
  - intros a b. rewrite !Hu, !table_set_entry. intros Ha Hb. pose proof (sh_pid _ Hs a b Ha Hb).
    destruct (decide (t = a)), (decide (t = b)); subst; cbn [t_pid]; auto.
  - apply Hs.
Qed.
End Entry.

Lemma shape_set_pipe st k p : shape st -> ring_ok p -> shape (set_pipe st k p).
Proof.
  intros [H1 H2 H3 H4 H5 H6 H7] Hp. split; [|exact H2|exact H3|exact H4|exact H5|exact H6|].
  - unfold set_pipe. cbn [pipes]. by rewrite length_insert.
  - intros j. destruct (decide (k < MAX_PIPES)%nat).
    + rewrite pipe_at_set by lia. destruct (decide _); [done|apply H7].
    + unfold pipe_at, set_pipe. cbn [pipes]. rewrite list_insert_ge by lia. apply H7.
Qed.

Lemma in_table_nonneg k we t : 0 <= in_table k we t.
Proof. apply tally_nonneg. intros e. destruct (holds k we e); simpl; lia. Qed.

Lemma refs_nonneg st k we : 0 <= refs st k we.
Proof. apply tally_nonneg, in_table_nonneg. Qed.

Lemma holds_self e : f_used e = true -> holds (pipe_id e) (write_end e) e = true.
Proof. intros H. unfold holds. by rewrite H, Nat.eqb_refl, eqb_reflx. Qed.

(** An entry in use is counted. *)
Lemma refs_pos st t i : shape st -> f_used (entry st t i) = true -> 0 < refs st (pipe_id (entry st t i)) (write_end (entry st t i)).
Proof.
  intros Hs H. destruct (entry_range st t i Hs H) as (Ht & Hi & _).
  pose proof (refs_set_entry st t i fd0 Hs Ht Hi (pipe_id (entry st t i)) (write_end (entry st t i))) as E.
  rewrite holds_self in E by done. pose proof (refs_nonneg (set_entry st t i fd0) (pipe_id (entry st t i)) (write_end (entry st t i))).
  change (b2z (holds _ _ fd0)) with 0 in E. simpl in E. lia.
Qed.

(** ** One entry and its pipe change together *)

Lemma inv_change st t i e k p :
  inv st -> (t < MAX_TABLES)%nat -> (i < MAX_FD)%nat -> (k < MAX_PIPES)%nat -> ring_ok p ->
  (f_used e = true -> is_pipe e = true /\ (pipe_id e < MAX_PIPES)%nat /\ t_used (table_at st t) = true) ->
  (forall k' we, k' <> k -> holds k' we e = holds k' we (entry st t i)) ->
  (forall we, held p we = refs (set_entry st t i e) k we) -> p_used p = (0 <? held p false + held p true) ->
  inv (set_pipe (set_entry st t i e) k p).
Proof.
  intros Hv Ht Hi Hk Hp He Hne Hheld Hused. pose proof (inv_shape _ Hv) as Hs.
  assert (forall j, pipe_at (set_pipe (set_entry st t i e) k p) j = if decide (k = j) then p else pipe_at st j) as Hpipe.
  { intros j. rewrite pipe_at_set by (cbn; rewrite (sh_pipes _ Hs); done). done. }
  assert (forall k' we, k' <> k -> refs (set_entry st t i e) k' we = refs st k' we) as Hrefs.
  { intros k' we H. rewrite (refs_set_entry st t i e Hs Ht Hi). rewrite Hne by done. lia. }
  split.
  - apply shape_set_pipe; [|done]. by apply shape_set_entry.
  - intros k' we Hk'. rewrite Hpipe, refs_set_pipe. destruct (decide (k = k')) as [<-|Hn]; [apply Hheld|].
    rewrite Hrefs by done. by apply Hv.
  - intros k' Hk'. rewrite Hpipe, !refs_set_pipe. destruct (decide (k = k')) as [<-|Hn].
    + by rewrite Hused, !Hheld.
    + rewrite !Hrefs by done. by apply Hv.
Qed.

Lemma holds_other k we e : k <> pipe_id e -> holds k we e = false.
Proof. intros H. unfold holds. rewrite (proj2 (Nat.eqb_neq _ _)) by done. by rewrite andb_false_r. Qed.

Lemma holds_unused k we e : f_used e = false -> holds k we e = false.
Proof. intros H. unfold holds. by rewrite H. Qed.

Lemma holds_we e we : f_used e = true -> b2z (holds (pipe_id e) we e) = b2z (Bool.eqb (write_end e) we).
Proof. intros H. unfold holds. by rewrite H, Nat.eqb_refl. Qed.

Lemma drop_entry_inv st t i : inv st -> f_used (entry st t i) = true -> inv (drop_entry st t i).
Proof.
  intros Hv H. pose proof (inv_shape _ Hv) as Hs. destruct (entry_range st t i Hs H) as (Ht & Hi & Hu).
  destruct (sh_fd _ Hs t i H) as [_ Hk]. pose proof (holds_we (entry st t i)) as Hw. set (e := entry st t i) in *.
  unfold drop_entry. fold e. set (q := count (pipe_at st (pipe_id e)) (write_end e) (-1)).
  change (set_entry (set_pipe st (pipe_id e) ?p) t i fd0) with (set_pipe (set_entry st t i fd0) (pipe_id e) p).
  assert (forall we, held q we = refs (set_entry st t i fd0) (pipe_id e) we) as Hq.
  { intros we. rewrite (refs_set_entry st t i fd0 Hs Ht Hi). fold e. rewrite Hw, <- (inv_count _ Hv) by done.
    change (b2z (holds _ _ fd0)) with 0. unfold q, count, held. destruct (write_end e), we; cbn; lia. }
  pose proof (refs_nonneg (set_entry st t i fd0) (pipe_id e) false) as H0. rewrite <- Hq in H0. cbn [held] in H0.
  pose proof (refs_nonneg (set_entry st t i fd0) (pipe_id e) true) as H1. rewrite <- Hq in H1. cbn [held] in H1.
  assert (ring_ok q) as Hr by apply (sh_ring _ Hs).
  pose proof (refs_pos st t i Hs H) as Hpos. fold e in Hpos.
  assert (p_used q = true) as Hqu.
  { unfold q, count. cbn [p_used]. rewrite (inv_used _ Hv) by done. apply Z.ltb_lt.
    pose proof (refs_nonneg st (pipe_id e) false). pose proof (refs_nonneg st (pipe_id e) true). destruct (write_end e); lia. }
  apply inv_change; try done.
  - by destruct (_ && _).
  - intros k' we Hne. fold e. rewrite holds_unused, holds_other by done. done.
  - intros we. rewrite <- Hq. by destruct (_ && _).
  - cbn [held]. destruct (Z.leb_spec (readers q) 0), (Z.leb_spec (writers q) 0); cbn [andb p_used readers writers];
      rewrite ?Hqu; symmetry; (apply Z.ltb_lt || apply Z.ltb_ge); lia.
Qed.

Lemma copy_entry_inv st t i e :
  inv st -> (t < MAX_TABLES)%nat -> (i < MAX_FD)%nat -> t_used (table_at st t) = true -> f_used (entry st t i) = false ->
  f_used e = true -> is_pipe e = true -> (pipe_id e < MAX_PIPES)%nat -> p_used (pipe_at st (pipe_id e)) = true ->
  inv (copy_entry st t i e).
Proof.
  intros Hv Ht Hi Hu Hfree He Hp Hk Hused. pose proof (inv_shape _ Hv) as Hs. unfold copy_entry.
  change (pipe_at (set_entry st t i e) (pipe_id e)) with (pipe_at st (pipe_id e)).
  set (q := count (pipe_at st (pipe_id e)) (write_end e) 1).
  assert (forall we, held q we = refs (set_entry st t i e) (pipe_id e) we) as Hq.
  { intros we. rewrite (refs_set_entry st t i e Hs Ht Hi), (holds_unused _ _ (entry st t i)), holds_we by done.
    rewrite <- (inv_count _ Hv) by done. unfold q, count, held. destruct (write_end e), we; cbn; lia. }
  apply inv_change; try done.
  - apply (sh_ring _ Hs).
  - intros k' we Hne. rewrite (holds_unused _ _ (entry st t i)), holds_other by done. done.
  - change (p_used q) with (p_used (pipe_at st (pipe_id e))). rewrite Hused. symmetry. apply Z.ltb_lt.
    rewrite (inv_used _ Hv), <- !(inv_count _ Hv) in Hused by done. apply Z.ltb_lt in Hused.
    unfold q, count, held in *. destruct (write_end e); cbn in *; lia.
Qed.

Lemma nth_replicate_fd0 j n : nth j (replicate n fd0) fd0 = fd0.
Proof. revert j; induction n as [|n IH]; intros [|j]; cbn; auto. Qed.

(** An empty table replaced by an empty table. *)
Lemma empty_in_table k we x : (forall i, f_used (fd_at x i) = false) -> in_table k we x = 0.
Proof. intros H. apply (tally_zero _ _ fd0). intros i _. rewrite holds_unused by apply H. done. Qed.

Lemma set_table_inv st t x :
  inv st -> (t < MAX_TABLES)%nat -> (forall i, f_used (entry st t i) = false) -> (forall i, f_used (fd_at x i) = false) ->
  length (t_e x) = MAX_FD ->
  (t_used x = true -> forall t', t' <> t -> t_used (table_at st t') = true -> t_pid (table_at st t') <> t_pid x) ->
  inv (set_table st t x).
Proof.
  intros Hv Ht Hold Hnew Hl Hpid. pose proof (inv_shape _ Hv) as Hs.
  assert (forall j, table_at (set_table st t x) j = if decide (t = j) then x else table_at st j) as Htab
    by (intros; apply table_at_set; rewrite (sh_tables _ Hs); done).
  assert (forall k we, refs (set_table st t x) k we = refs st k we) as Hrefs.
  { intros. rewrite refs_set_table by (rewrite (sh_tables _ Hs); done). rewrite !empty_in_table by done. lia. }
  split; [split|..].
  - apply Hs.
  - unfold set_table. cbn [tables]. rewrite length_insert. apply Hs.
  - intros j. rewrite Htab. destruct (decide _); [done|apply Hs].
  - intros t' i. unfold entry. rewrite Htab. destruct (decide _); [by rewrite Hnew|apply Hs].
  - intros t' i. unfold entry. rewrite Htab. destruct (decide _); [intros _; apply Hnew|apply Hs].
  - intros a b. rewrite !Htab. destruct (decide (t = a)) as [<-|Ha], (decide (t = b)) as [<-|Hb]; intros Ua Ub E; [done|..].
    + exfalso. by apply (Hpid Ua b).
    + exfalso. by apply (Hpid Ub a).
    + by apply (sh_pid _ Hs).
  - apply Hs.
  - intros k we Hk. rewrite Hrefs. by apply Hv.
  - intros k Hk. rewrite !Hrefs. by apply Hv.
Qed.

Lemma find_spec st pid t : find st pid = Some t -> (t < MAX_TABLES)%nat /\ t_used (table_at st t) = true /\ t_pid (table_at st t) = pid.
Proof.
  unfold find. pose proof (first_from_spec (fun i => t_used (table_at st i) && (t_pid (table_at st i) =? pid)) 0 MAX_TABLES) as H.
  intros E. rewrite E in H. destruct H as (H1 & H2 & _). bprop. split; [lia|done].
Qed.

Lemma find_none st pid t : shape st -> find st pid = None -> t_used (table_at st t) = true -> t_pid (table_at st t) <> pid.
Proof.
  unfold find. pose proof (first_from_spec (fun i => t_used (table_at st i) && (t_pid (table_at st i) =? pid)) 0 MAX_TABLES) as H.
  intros Hs E Hu. rewrite E in H. specialize (H t). cbv beta in H. rewrite Hu in H.
  pose proof (table_range st t Hs Hu). destruct (Z.eqb_spec (t_pid (table_at st t)) pid); [|done]. discriminate (H ltac:(lia)).
Qed.

Lemma table_for_inv st pid :
  inv st ->
  let r := table_for st pid in
  inv (snd r) /\ (forall k, pipe_at (snd r) k = pipe_at st k) /\
  match fst r with
  | Some t => (t < MAX_TABLES)%nat /\ t_used (table_at (snd r) t) = true /\ t_pid (table_at (snd r) t) = pid
  | None => snd r = st
  end /\ (forall t, t_used (table_at st t) = true -> table_at (snd r) t = table_at st t).
Proof.
  intros Hv. pose proof (inv_shape _ Hv) as Hs. unfold table_for. destruct (find st pid) as [t|] eqn:E.
  { cbn. split; [done|]. split; [done|]. split; [by apply find_spec|done]. }
  pose proof (first_from_spec (fun i => negb (t_used (table_at st i))) 0 MAX_TABLES) as H.
  destruct (first_from _ 0 MAX_TABLES) as [i|]; [|done]. destruct H as (H1 & H2 & _). apply negb_true_iff in H2. cbn [fst snd].
  assert (i < length (tables st))%nat as Hl by (rewrite (sh_tables _ Hs); lia).
  split; [|split; [done|split]].
  - apply set_table_inv; [done|lia|intros; by apply Hs| |done|].
    + intros j. unfold fd_at, table0. cbn [t_e]. by rewrite nth_replicate_fd0.
    + cbn [t_pid]. intros _ t' _ Hu. by apply find_none.
  - rewrite table_at_set by done. rewrite decide_True by done. split; [lia|done].
  - intros t Ht. rewrite table_at_set by done. rewrite decide_False; [done|]. intros ->. congruence.
Qed.

(** ** The operations *)

Lemma set_entry_twice st t i e e' : shape st -> (t < MAX_TABLES)%nat -> set_entry (set_entry st t i e) t i e' = set_entry st t i e'.
Proof.
  intros Hs Ht. unfold set_entry at 1. unfold set_entry at 1 2 3 4. rewrite table_at_set by (rewrite (sh_tables _ Hs); done).
  rewrite decide_True by done. cbn [t_used t_pid t_e]. unfold set_entry, set_table. cbn [tables pipes].
  by rewrite !list_insert_insert_eq.
Qed.

Lemma set_unused_inv st t i e :
  inv st -> (t < MAX_TABLES)%nat -> (i < MAX_FD)%nat -> f_used (entry st t i) = false -> f_used e = false -> inv (set_entry st t i e).
Proof.
  intros Hv Ht Hi Hold Hnew. pose proof (inv_shape _ Hv) as Hs.
  assert (set_entry st t i e = set_pipe (set_entry st t i e) 0 (pipe_at st 0)) as ->.
  { unfold set_pipe, set_entry, set_table. cbn [pipes tables]. f_equal. symmetry. apply list_insert_id. unfold pipe_at.
    rewrite nth_lookup. destruct (pipes st !! 0%nat) eqn:E; [done|]. apply lookup_ge_None in E. rewrite (sh_pipes _ Hs) in E. unfold MAX_PIPES in E. lia. }
  apply inv_change; try done; [unfold MAX_PIPES; lia|apply Hs|by rewrite Hnew| | |].
  - intros. by rewrite !holds_unused.
  - intros we. rewrite (refs_set_entry st t i e Hs Ht Hi), !holds_unused, (inv_count _ Hv) by (done || unfold MAX_PIPES; lia). lia.
  - rewrite (inv_used _ Hv), !(inv_count _ Hv) by (unfold MAX_PIPES; lia). done.
Qed.

Lemma alloc_in_spec t n : alloc_in t = Some n -> (3 <= n < MAX_FD)%nat /\ f_used (fd_at t n) = false.
Proof.
  unfold alloc_in. pose proof (first_from_spec (fun i => negb (f_used (fd_at t i))) 3 (MAX_FD - 3)) as H. intros E. rewrite E in H.
  destruct H as (H1 & H2 & _). apply negb_true_iff in H2. unfold MAX_FD in *. split; [lia|done].
Qed.

Lemma create_inv st pid : inv st -> inv (snd (create st pid)).
Proof.
  intros Hv. unfold create.
  pose proof (first_from_spec (fun i => negb (p_used (pipe_at st i))) 0 MAX_PIPES) as H.
  destruct (first_from _ 0 MAX_PIPES) as [k|]; [|done]. destruct H as (Hk & Hfree & _). apply negb_true_iff in Hfree.
  destruct (table_for_inv st pid Hv) as (Hv1 & Hsame & Htab & _). destruct (table_for st pid) as [[t|] st1]; cbn [fst snd] in *; [|done].
  destruct Htab as (Ht & Hu & _). rewrite <- Hsame in Hfree. clear Hsame Hv st. rename st1 into st, Hv1 into Hv. pose proof (inv_shape _ Hv) as Hs.
  destruct (alloc_in (table_at st t)) as [rfd|] eqn:Er; [|done]. apply alloc_in_spec in Er as [Hr Hrf].
  set (e1 := mkFd true true k false). set (e2 := mkFd true true k true).
  destruct (alloc_in (table_at (set_entry st t rfd e1) t)) as [wfd|] eqn:Ew; cbn [snd];
    [|rewrite set_entry_twice by done; apply set_unused_inv; done || lia].
  apply alloc_in_spec in Ew as [Hw Hwf]. fold (entry (set_entry st t rfd e1) t wfd) in Hwf.
  rewrite (inv_used _ Hv) in Hfree by lia. apply Z.ltb_ge in Hfree.
  pose proof (refs_nonneg st k false). pose proof (refs_nonneg st k true).
  set (p1 := mkPipe true (data pipe0) 0 0 0 1 0). set (p2 := mkPipe true (data pipe0) 0 0 0 1 1).
  assert (ring_ok p1 /\ ring_ok p2) as [Hp1 Hp2] by (unfold ring_ok, BUF; cbn [p1 p2 data p_r p_len p_w]; repeat split; try lia; done).
  assert (inv (set_pipe (set_entry st t rfd e1) k p1)) as Hv1.
  { apply inv_change; try done; try lia; [intros _; split; [done|]; split; [cbn; lia|done]| |].
    - intros k' we Hne. fold (entry st t rfd) in Hrf. rewrite (holds_unused _ _ (entry st t rfd)), holds_other by done. done.
    - intros we. rewrite (refs_set_entry st t rfd e1) by (done || lia). fold (entry st t rfd) in Hrf. rewrite (holds_unused _ _ (entry st t rfd)) by done.
      change k with (pipe_id e1) at 2. rewrite holds_we by done. destruct we; cbn; lia. }
  assert (set_pipe (set_entry (set_entry st t rfd e1) t wfd e2) k p2 =
          set_pipe (set_entry (set_pipe (set_entry st t rfd e1) k p1) t wfd e2) k p2) as ->.
  { unfold set_pipe, set_entry, set_table, table_at. cbn [pipes tables]. by rewrite !list_insert_insert_eq. }
  set (st1 := set_pipe (set_entry st t rfd e1) k p1) in *. pose proof (inv_shape _ Hv1) as Hs1.
  assert (f_used (entry st1 t wfd) = false) as Hwf1 by exact Hwf.
  apply inv_change; try done; try lia.
  - intros _. split; [done|]. split; [cbn; lia|]. unfold st1. change (table_at (set_pipe ?s ?a ?b) t) with (table_at s t).
    rewrite table_set_entry by (done || lia). by rewrite decide_True.
  - intros k' we Hne. rewrite (holds_unused _ _ (entry st1 t wfd)), holds_other by done. done.
  - intros we. rewrite (refs_set_entry st1 t wfd e2) by (done || lia). rewrite (holds_unused _ _ (entry st1 t wfd)) by done.
    change k with (pipe_id e2) at 2. rewrite holds_we by done. rewrite <- (inv_count _ Hv1) by lia.
    unfold st1. rewrite pipe_at_set by (cbn; rewrite (sh_pipes _ Hs); lia). rewrite decide_True by done. by destruct we.
Qed.


Lemma is_pipe_fd_spec st pid fd t i :
  is_pipe_fd st pid fd = Some (t, i) ->
  find st pid = Some t /\ i = Z.to_nat fd /\ 0 <= fd < Z.of_nat MAX_FD /\ f_used (entry st t i) = true.
Proof.
  unfold is_pipe_fd. destruct (find st pid) as [t'|]; [|done].
  destruct (0 <=? fd) eqn:E1, (fd <? Z.of_nat MAX_FD) eqn:E2, (f_used (entry st t' (Z.to_nat fd))) eqn:E3,
    (is_pipe (entry st t' (Z.to_nat fd))); try done. cbn [andb]. intros [= <- <-]. bprop. done.
Qed.

(** What is in use is held by somebody. *)
Lemma entry_pipe_used st t i : inv st -> f_used (entry st t i) = true -> p_used (pipe_at st (pipe_id (entry st t i))) = true.
Proof.
  intros Hv H. pose proof (inv_shape _ Hv) as Hs. destruct (sh_fd _ Hs t i H) as [_ Hk]. rewrite (inv_used _ Hv) by done.
  apply Z.ltb_lt. pose proof (refs_pos st t i Hs H). pose proof (refs_nonneg st (pipe_id (entry st t i)) false).
  pose proof (refs_nonneg st (pipe_id (entry st t i)) true). destruct (write_end (entry st t i)); lia.
Qed.

Lemma close_fd_inv st pid fd : inv st -> inv (snd (close_fd st pid fd)).
Proof.
  intros Hv. unfold close_fd. destruct (is_pipe_fd st pid fd) as [[t i]|] eqn:E; [|done].
  apply is_pipe_fd_spec in E as (_ & _ & _ & H). by apply drop_entry_inv.
Qed.

Lemma copy_used_inv st t i n :
  inv st -> f_used (entry st t i) = true -> (n < MAX_FD)%nat -> f_used (entry st t n) = false -> inv (copy_entry st t n (entry st t i)).
Proof.
  intros Hv H Hn Hfree. pose proof (inv_shape _ Hv) as Hs. destruct (entry_range st t i Hs H) as (Ht & Hi & Hu).
  destruct (sh_fd _ Hs t i H) as [Hp Hk]. apply copy_entry_inv; try done. by apply entry_pipe_used.
Qed.

Lemma dup_fd_inv st pid fd : inv st -> inv (snd (dup_fd st pid fd)).
Proof.
  intros Hv. unfold dup_fd. destruct (is_pipe_fd st pid fd) as [[t i]|] eqn:E; [|done].
  apply is_pipe_fd_spec in E as (_ & _ & _ & H). destruct (alloc_in (table_at st t)) as [n|] eqn:En; [|done].
  apply alloc_in_spec in En as [Hn Hf]. apply copy_used_inv; done || lia.
Qed.

Lemma entry_drop st t i t' i' :
  shape st -> f_used (entry st t i) = true ->
  entry (drop_entry st t i) t' i' = if decide (t = t' /\ i = i') then fd0 else entry st t' i'.
Proof.
  intros Hs H. destruct (entry_range st t i Hs H) as (Ht & Hi & _). unfold drop_entry. set (p := if _ && _ then _ else _).
  change (set_entry (set_pipe st ?k p) t i fd0) with (set_pipe (set_entry st t i fd0) k p).
  change (entry (set_pipe ?s ?k p) t' i') with (entry s t' i'). by apply entry_set_entry.
Qed.

Lemma table_drop st t i j :
  shape st -> f_used (entry st t i) = true ->
  t_used (table_at (drop_entry st t i) j) = t_used (table_at st j) /\ t_pid (table_at (drop_entry st t i) j) = t_pid (table_at st j).
Proof.
  intros Hs H. destruct (entry_range st t i Hs H) as (Ht & Hi & _). unfold drop_entry. set (p := if _ && _ then _ else _).
  change (table_at (set_entry (set_pipe st ?k p) t i fd0) j) with (table_at (set_entry st t i fd0) j).
  rewrite table_set_entry by done. by destruct (decide (t = j)) as [->|].
Qed.

Lemma dup2_fd_inv st pid oldfd newfd : inv st -> inv (snd (dup2_fd st pid oldfd newfd)).
Proof.
  intros Hv. unfold dup2_fd. destruct (is_pipe_fd st pid oldfd) as [[t i]|] eqn:E; [|done].
  apply is_pipe_fd_spec in E as (Hf & Hi & Hr & H). destruct ((newfd <? 0) || _) eqn:Eb; [done|]. bprop.
  destruct (Z.eqb_spec oldfd newfd) as [|Hne]; [done|]. cbn [snd]. set (n := Z.to_nat newfd).
  assert (n <> i) as Hni by lia. assert (n < MAX_FD)%nat as Hn by lia. pose proof (inv_shape _ Hv) as Hs.
  destruct (f_used (entry st t n)) eqn:En; [|by apply copy_used_inv].
  destruct (sh_fd _ Hs t n En) as [Hp _]. rewrite Hp. cbn [andb].
  unfold close_fd, is_pipe_fd. rewrite Hf. fold n. rewrite En, Hp.
  rewrite (proj2 (Z.leb_le 0 newfd)), (proj2 (Z.ltb_lt newfd (Z.of_nat MAX_FD))) by lia. cbn [andb snd].
  assert (entry (drop_entry st t n) t i = entry st t i) as Ei by (rewrite entry_drop by done; rewrite decide_False; [done|tauto || (intros [_ ?]; congruence)]).
  apply copy_used_inv; [by apply drop_entry_inv|by rewrite Ei|done|]. rewrite entry_drop by done. by rewrite decide_True.
Qed.

Lemma release_from_spec n st t i :
  inv st -> t_used (table_at st t) = true -> (i + n <= MAX_FD)%nat ->
  let st' := release_from st t i n in
  inv st' /\ (forall j, t_used (table_at st' j) = t_used (table_at st j) /\ t_pid (table_at st' j) = t_pid (table_at st j)) /\
  (forall t' j, t' <> t \/ (j < i)%nat -> entry st' t' j = entry st t' j) /\
  (forall j, (i <= j < i + n)%nat -> f_used (entry st' t j) = false).
Proof.
  revert st i; induction n as [|n IH]; intros st i Hv Hu Hle; cbn [release_from].
  { split; [done|]. split; [done|]. split; [done|]. intros; lia. }
  pose proof (inv_shape _ Hv) as Hs. set (st1 := if f_used (entry st t i) then drop_entry st t i else st).
  assert (inv st1 /\ (forall j, t_used (table_at st1 j) = t_used (table_at st j) /\ t_pid (table_at st1 j) = t_pid (table_at st j)) /\
    (forall t' j, t' <> t \/ j <> i -> entry st1 t' j = entry st t' j) /\ f_used (entry st1 t i) = false) as (V1 & T1 & E1 & F1).
  { unfold st1. destruct (f_used (entry st t i)) eqn:E; [|done].
    split; [by apply drop_entry_inv|]. split; [intros; by apply table_drop|]. split.
    - intros t' j Hne. rewrite entry_drop by done. rewrite decide_False; [done|]. intros [-> ->]. tauto.
    - rewrite entry_drop by done. by rewrite decide_True. }
  destruct (IH st1 (S i) V1) as (V2 & T2 & E2 & F2); [by rewrite (proj1 (T1 t))|lia|].
  split; [done|]. split; [intros j; destruct (T1 j), (T2 j); split; congruence|]. split.
  - intros t' j Hj. rewrite E2 by (destruct Hj; [by left|right; lia]). apply E1. destruct Hj; [by left|right; lia].
  - intros j Hj. destruct (decide (j = i)) as [->|]; [|apply F2; lia]. rewrite E2 by (right; lia). done.
Qed.

Lemma release_spec st t :
  inv st -> t_used (table_at st t) = true ->
  inv (release st t) /\ (forall j, t_used (table_at (release st t) j) = t_used (table_at st j) /\ t_pid (table_at (release st t) j) = t_pid (table_at st j)) /\
  (forall t' j, t' <> t -> entry (release st t) t' j = entry st t' j) /\ (forall j, f_used (entry (release st t) t j) = false).
Proof.
  intros Hv Hu. unfold release. destruct (release_from_spec MAX_FD st t 0 Hv Hu ltac:(lia)) as (V & T & E & F).
  split; [done|]. split; [done|]. split; [intros; apply E; by left|]. intros j. destruct (decide (j < MAX_FD)%nat); [apply F; lia|].
  unfold entry, fd_at. rewrite nth_overflow by (rewrite (sh_entries _ (inv_shape _ V)); lia). done.
Qed.

Local Opaque release.

Lemma close_all_of_inv st pid : inv st -> inv (close_all_of st pid).
Proof.
  intros Hv. unfold close_all_of. destruct (find st pid) as [t|] eqn:E; [|done]. apply find_spec in E as (Ht & Hu & _).
  destruct (release_spec st t Hv Hu) as (V & _ & _ & F).
  set (s := release st t) in *. clearbody s. apply set_table_inv; [exact V|exact Ht|exact F| |reflexivity|discriminate].
  intros j. unfold fd_at, table0. cbn [t_e]. by rewrite nth_replicate_fd0.
Qed.

(** ** A fork *)

Lemma tally_take_S {A} (f : A -> Z) l i d : (i < length l)%nat -> tally f (take (S i) l) = tally f (take i l) + f (nth i l d).
Proof.
  revert i; induction l as [|y l IH]; intros i Hi; [simpl in Hi; lia|]. destruct i as [|i]; [cbn; destruct l; cbn; lia|].
  change (take (S (S i)) (y :: l)) with (y :: take (S i) l). change (take (S i) (y :: l)) with (y :: take i l). cbn.
  change (foldr (fun x s => f x + s) 0 ?l) with (tally f l). rewrite IH by (simpl in Hi; lia). lia.
Qed.

(** The counts while the loop of [fork_copy] raises them: [base], and the first [i] entries. *)
Lemma raise_from_spec base n st t i :
  shape st -> (i + n = MAX_FD)%nat ->
  (forall k we, (k < MAX_PIPES)%nat ->
     held (pipe_at st k) we = base k we + tally (fun e => b2z (holds k we e)) (take i (t_e (table_at st t)))) ->
  let st' := raise_from st t i n in
  shape st' /\ tables st' = tables st /\ (forall k, p_used (pipe_at st' k) = p_used (pipe_at st k)) /\
  (forall k we, (k < MAX_PIPES)%nat -> held (pipe_at st' k) we = base k we + in_table k we (table_at st t)).
Proof.
  revert st i; induction n as [|n IH]; intros st i Hs Hin Hc; cbn [raise_from].
  { split; [done|]. split; [done|]. split; [done|]. intros k we Hk. rewrite Hc by done. rewrite take_ge by (rewrite (sh_entries _ Hs); lia). done. }
  set (e := entry st t i). set (st1 := if f_used e then _ else st).
  assert (i < length (t_e (table_at st t)))%nat as Hi by (rewrite (sh_entries _ Hs); lia).
  assert (shape st1 /\ tables st1 = tables st /\ (forall k, p_used (pipe_at st1 k) = p_used (pipe_at st k)) /\
    (forall k we, (k < MAX_PIPES)%nat -> held (pipe_at st1 k) we = held (pipe_at st k) we + b2z (holds k we e))) as (S1 & T1 & U1 & C1).
  { unfold st1. destruct (f_used e) eqn:Eu.
    - destruct (sh_fd _ Hs t i Eu) as [_ Hk]. fold e in Hk.
      assert (forall j, pipe_at (set_pipe st (pipe_id e) (count (pipe_at st (pipe_id e)) (write_end e) 1)) j =
        if decide (pipe_id e = j) then count (pipe_at st (pipe_id e)) (write_end e) 1 else pipe_at st j) as Hp
        by (intros; apply pipe_at_set; rewrite (sh_pipes _ Hs); done).
      split; [apply shape_set_pipe; [done|apply (sh_ring _ Hs)]|]. split; [done|]. split.
      + intros k. rewrite Hp. by destruct (decide (pipe_id e = k)) as [<-|].
      + intros k we _. rewrite Hp. destruct (decide (pipe_id e = k)) as [<-|Hne].
        * rewrite holds_we by done. unfold count, held. destruct (write_end e), we; cbn; lia.
        * rewrite holds_other by done. cbn. lia.
    - split; [done|]. split; [done|]. split; [done|]. intros. rewrite holds_unused by done. cbn. lia. }
  assert (table_at st1 t = table_at st t) as Tt by (unfold table_at; by rewrite T1).
  destruct (IH st1 (S i) S1 ltac:(lia)) as (S2 & T2 & U2 & C2).
  { intros k we Hk. rewrite C1, Hc, Tt, (tally_take_S _ _ _ fd0) by done. unfold e, entry, fd_at. lia. }
  split; [done|]. split; [congruence|]. split; [intros; congruence|]. intros. rewrite C2, Tt by done. done.
Qed.

Lemma fork_table_inv st2 dst src n :
  inv st2 -> (0 + n = MAX_FD)%nat -> (dst < MAX_TABLES)%nat -> t_used (table_at st2 dst) = true -> (forall i, f_used (entry st2 dst i) = false) ->
  inv (raise_from (set_table st2 dst (mkTable (t_used (table_at st2 dst)) (t_pid (table_at st2 dst)) (t_e (table_at st2 src)))) dst 0 n).
Proof.
  intros V Hn Ht Hu2 F. pose proof (inv_shape _ V) as Hs.
  set (x := mkTable (t_used (table_at st2 dst)) (t_pid (table_at st2 dst)) (t_e (table_at st2 src))).
  assert (forall j, table_at (set_table st2 dst x) j = if decide (dst = j) then x else table_at st2 j) as Htab
    by (intros; apply table_at_set; rewrite (sh_tables _ Hs); done).
  assert (forall t' i, entry (set_table st2 dst x) t' i = entry st2 (if decide (dst = t') then src else t') i) as Hent.
  { intros. unfold entry. rewrite Htab. by destruct (decide (dst = t')) as [<-|]. }
  assert (shape (set_table st2 dst x)) as Hs3.
  { split.
    - apply Hs.
    - unfold set_table. cbn [tables]. rewrite length_insert. apply Hs.
    - intros j. rewrite Htab. destruct (decide _); apply Hs.
    - intros t' i. rewrite Hent. apply Hs.
    - intros t' i. rewrite Htab, Hent. destruct (decide _); [cbn [t_used x]; congruence|apply Hs].
    - intros a b. rewrite !Htab. pose proof (sh_pid _ Hs a b). destruct (decide (dst = a)), (decide (dst = b)); subst; cbn [t_used t_pid x] in *; auto.
    - apply Hs. }
  assert (forall k we, in_table k we (table_at st2 dst) = 0) as Hzero by (intros; by apply empty_in_table).
  assert (forall k we, refs (set_table st2 dst x) k we = refs st2 k we + in_table k we (table_at st2 src)) as Hrefs.
  { intros. rewrite refs_set_table by (rewrite (sh_tables _ Hs); done). rewrite Hzero. unfold in_table at 1. cbn [t_e x]. unfold in_table. lia. }
  destruct (raise_from_spec (refs st2) n (set_table st2 dst x) dst 0 Hs3 Hn) as (S4 & T4 & U4 & C4).
  { intros k we Hk. cbn [take tally foldr]. rewrite Z.add_0_r. by apply (inv_count _ V). }
  set (st4 := raise_from _ _ _ _) in *. clearbody st4.
  assert (forall k we, refs st4 k we = refs (set_table st2 dst x) k we) as R4 by (intros; unfold refs; by rewrite T4).
  split; [done|..].
  - intros k we Hk. rewrite C4, R4, Hrefs, Htab, decide_True by done. done.
  - intros k Hk. rewrite U4, !R4, !Hrefs. change (pipe_at (set_table st2 dst x) k) with (pipe_at st2 k). rewrite (inv_used _ V) by done.
    assert (forall we, 0 <= in_table k we (table_at st2 src) <= refs st2 k we) as Hb.
    { intros we. destruct (decide (src < MAX_TABLES)%nat).
      - apply (tally_bounds (in_table k we) (tables st2) src table0); [apply in_table_nonneg|rewrite (sh_tables _ Hs); done].
      - unfold table_at. rewrite nth_overflow by (rewrite (sh_tables _ Hs); lia). rewrite empty_in_table; [pose proof (refs_nonneg st2 k we); lia|].
        intros j. unfold fd_at, table0. cbn [t_e]. by rewrite nth_replicate_fd0. }
    pose proof (Hb false). pose proof (Hb true). apply eq_true_iff_eq. rewrite !Z.ltb_lt. lia.
Qed.

Lemma fork_copy_inv st pid child : inv st -> inv (fork_copy st pid child).
Proof.
  intros Hv. unfold fork_copy. destruct (find st pid) as [src|] eqn:E; [|exact Hv].
  destruct (table_for_inv st child Hv) as (Hv1 & _ & Htab & _). destruct (table_for st child) as [[dst|] st1]; cbn [fst snd] in *; [|exact Hv1].
  destruct Htab as (Ht & Hu & _). rewrite Hu. destruct (release_spec st1 dst Hv1 Hu) as (V & T & _ & F).
  destruct (T dst) as [Hu2 _]. rewrite Hu in Hu2. exact (fork_table_inv (release st1 dst) dst src MAX_FD V eq_refl Ht Hu2 F).
Qed.

(** * The bytes in a pipe *)

Definition slot (p : Pipe) (j : nat) : Z := at_ (data p) (Z.to_nat ((p_r p + Z.of_nat j) mod BUF)).

(** What has been written and not yet read, in order. *)
Definition contents (p : Pipe) : list Z := map (slot p) (seq 0 (Z.to_nat (p_len p))).

Lemma length_contents p : length (contents p) = Z.to_nat (p_len p).
Proof. unfold contents. by rewrite length_map, length_seq. Qed.

Lemma ring_next x : 0 <= x < BUF -> u32 (x + 1) mod BUF = (x + 1) mod BUF.
Proof. intros H. rewrite u32_id; [done|]. unfold is_u32, BUF in *. lia. Qed.

(** Same holders, same use. *)
Definition same_held (p q : Pipe) : Prop := p_used q = p_used p /\ readers q = readers p /\ writers q = writers p.

Lemma read_loop_spec n p :
  ring_ok p ->
  fst (read_loop n p) = take n (contents p) /\ ring_ok (snd (read_loop n p)) /\ contents (snd (read_loop n p)) = drop n (contents p) /\
  same_held p (snd (read_loop n p)).
Proof.
  revert p; induction n as [|n IH]; intros p Hp; cbn [read_loop]; [done|]. destruct (Z.ltb_spec 0 (p_len p)) as [Hl|Hl].
  - destruct Hp as (Hd & Hr & Hb & Hw). rewrite ring_next by done. set (p' := mkPipe _ _ _ _ _ _ _).
    assert (contents p = at_ (data p) (Z.to_nat (p_r p)) :: contents p') as Ec.
    { unfold contents. replace (Z.to_nat (p_len p)) with (S (Z.to_nat (p_len p'))) by (unfold p'; cbn; lia). cbn [seq map]. f_equal.
      - unfold slot. rewrite Z.add_0_r, Z.mod_small by done. done.
      - rewrite <- seq_shift, map_map. apply map_ext. intros j. unfold slot, p'. cbn [data p_r]. do 2 f_equal.
        rewrite Zplus_mod_idemp_l. f_equal. lia. }
    assert (ring_ok p') as Hp'.
    { split; [done|]. split; [apply Z.mod_pos_bound; unfold BUF; lia|]. split; [unfold p'; cbn [p_len]; lia|].
      unfold p'. cbn [p_w p_r p_len]. rewrite Hw, Zplus_mod_idemp_l. f_equal. lia. }
    destruct (IH p' Hp') as (H1 & H2 & H3 & H4). cbn [fst snd]. rewrite Ec, H1. done.
  - assert (contents p = []) as E by (unfold contents; by replace (Z.to_nat (p_len p)) with 0%nat by lia).
    cbn [fst snd]. rewrite E. by split_and!.
Qed.

Lemma write_loop_spec input p :
  ring_ok p ->
  let n := Nat.min (length input) (256 - Z.to_nat (p_len p)) in
  fst (write_loop input p) = n /\ ring_ok (snd (write_loop input p)) /\ contents (snd (write_loop input p)) = contents p ++ take n input /\
  same_held p (snd (write_loop input p)).
Proof.
  revert p; induction input as [|c input IH]; intros p Hp; cbn [write_loop]; [cbn; by rewrite app_nil_r|].
  pose proof Hp as (Hd & Hr & Hb & Hw). destruct (Z.ltb_spec (p_len p) BUF) as [Hl|Hl]; unfold BUF in Hl, Hb.
  - assert (0 <= p_w p < BUF) as Hwb by (rewrite Hw; apply Z.mod_pos_bound; unfold BUF; lia).
    rewrite ring_next by done. set (p' := mkPipe _ _ _ _ _ _ _).
    assert (contents p' = contents p ++ [c]) as Ec.
    { unfold contents. replace (Z.to_nat (p_len p')) with (S (Z.to_nat (p_len p))) by (unfold p'; cbn; lia).
      rewrite seq_S, map_app. cbn [map Nat.add]. f_equal.
      - apply map_ext_in. intros j [_ Hj]%in_seq. unfold slot, p'. cbn [data p_r]. unfold BUF in Hwb.
        pose proof (Z.mod_pos_bound (p_r p + Z.of_nat j) BUF ltac:(unfold BUF; lia)) as Hm. unfold BUF in Hm.
        rewrite at_insert by (rewrite Hd; lia). rewrite decide_False; [done|]. intros Heq.
        assert (p_w p = (p_r p + Z.of_nat j) mod BUF) as E by (apply Z2Nat.inj; [lia|apply Hm|exact Heq]). rewrite Hw in E. unfold BUF in *.
        pose proof (Z_div_mod_eq_full (p_r p + Z.of_nat j) 256). pose proof (Z_div_mod_eq_full (p_r p + p_len p) 256). nia.
      - unfold slot, p'. cbn [data p_r]. rewrite Z2Nat.id by lia. rewrite <- Hw. unfold BUF in Hwb. rewrite at_insert by (rewrite Hd; lia).
        by rewrite decide_True. }
    assert (ring_ok p') as Hp'.
    { split; [unfold p'; cbn [data]; by rewrite length_insert|]. split; [done|]. split; [unfold p', BUF; cbn [p_len]; lia|].
      unfold p'. cbn [p_w p_r p_len]. rewrite Hw, Zplus_mod_idemp_l. f_equal. lia. }
    destruct (IH p' Hp') as (H1 & H2 & H3 & H4). cbn [fst snd length].
    replace (Nat.min (S (length input)) (256 - Z.to_nat (p_len p))) with (S (Nat.min (length input) (256 - Z.to_nat (p_len p'))))
      by (unfold p'; cbn [p_len]; lia).
    split; [by rewrite H1|]. split; [done|]. split; [|done]. rewrite H3, Ec, <- app_assoc. done.
  - replace (Nat.min _ _) with 0%nat by lia. cbn. by rewrite app_nil_r.
Qed.

(** A pipe whose holders stay the same. *)
Lemma set_pipe_inv st k p : inv st -> (k < MAX_PIPES)%nat -> ring_ok p -> same_held (pipe_at st k) p -> inv (set_pipe st k p).
Proof.
  intros Hv Hk Hp (H1 & H2 & H3). pose proof (inv_shape _ Hv) as Hs.
  assert (forall j, pipe_at (set_pipe st k p) j = if decide (k = j) then p else pipe_at st j) as Hpipe
    by (intros; apply pipe_at_set; rewrite (sh_pipes _ Hs); done).
  split; [by apply shape_set_pipe|..].
  - intros j we Hj. rewrite Hpipe, refs_set_pipe, <- (inv_count _ Hv) by done. destruct (decide (k = j)) as [<-|]; [|done].
    unfold held. by rewrite H2, H3.
  - intros j Hj. rewrite Hpipe, !refs_set_pipe, <- (inv_used _ Hv) by done. by destruct (decide (k = j)) as [<-|].
Qed.

Lemma read_fd_inv st pid fd n : inv st -> inv (snd (read_fd st pid fd n)).
Proof.
  intros Hv. pose proof (inv_shape _ Hv) as Hs. unfold read_fd. destruct (is_pipe_fd st pid fd) as [[t i]|] eqn:E; [|done].
  apply is_pipe_fd_spec in E as (_ & _ & _ & H). destruct (sh_fd _ Hs t i H) as [_ Hk]. destruct (write_end _); [done|].
  destruct (read_loop_spec n (pipe_at st (pipe_id (entry st t i))) (sh_ring _ Hs _)) as (_ & H2 & _ & H4).
  pose proof (set_pipe_inv st _ _ Hv Hk H2 H4). repeat destruct (_ && _); repeat destruct (_ =? _)%nat; done.
Qed.

Lemma write_fd_inv st pid fd input : inv st -> inv (snd (write_fd st pid fd input)).
Proof.
  intros Hv. pose proof (inv_shape _ Hv) as Hs. unfold write_fd. destruct (is_pipe_fd st pid fd) as [[t i]|] eqn:E; [|done].
  apply is_pipe_fd_spec in E as (_ & _ & _ & H). destruct (sh_fd _ Hs t i H) as [_ Hk]. destruct (negb _); [done|]. destruct (_ =? 0); [done|].
  destruct (write_loop_spec input (pipe_at st (pipe_id (entry st t i))) (sh_ring _ Hs _)) as (_ & H2 & _ & H4). by apply set_pipe_inv.
Qed.

(** * Every sequence of system calls *)

Inductive op :=
| OCreate
| ORead (fd : Z) (n : nat)
| OWrite (fd : Z) (input : list Z)
| OClose (fd : Z)
| ODup (fd : Z)
| ODup2 (oldfd newfd : Z)
| OExit
| OFork (child : Z).

(** The call [o] made by process [pid]. *)
Definition run (st : State) (c : Z * op) : State :=
  let pid := fst c in
  match snd c with
  | OCreate => snd (create st pid)
  | ORead fd n => snd (read_fd st pid fd n)
  | OWrite fd input => snd (write_fd st pid fd input)
  | OClose fd => snd (close_fd st pid fd)
  | ODup fd => snd (dup_fd st pid fd)
  | ODup2 a b => snd (dup2_fd st pid a b)
  | OExit => close_all_of st pid
  | OFork child => fork_copy st pid child
  end.

Lemma run_inv st c : inv st -> inv (run st c).
Proof.
  intros H. destruct c as [pid [|fd n|fd input|fd|fd|a b| |child]]; cbn [run fst snd];
    [by apply create_inv|by apply read_fd_inv|by apply write_fd_inv|by apply close_fd_inv|by apply dup_fd_inv|by apply dup2_fd_inv
    |by apply close_all_of_inv|by apply fork_copy_inv].
Qed.

Lemma init_inv : inv init.
Proof.
  assert (forall k, pipe_at init k = pipe0) as Hp.
  { intros k. unfold pipe_at, init. cbn [pipes]. do 9 (destruct k as [|k]; [done|]). done. }
  assert (forall t, table_at init t = table0) as Ht.
  { intros t. unfold table_at, init. cbn [tables]. do 17 (destruct t as [|t]; [done|]). done. }
  assert (forall t i, entry init t i = fd0) as He.
  { intros t i. unfold entry, fd_at. rewrite Ht. unfold table0. cbn [t_e]. apply nth_replicate_fd0. }
  assert (forall k we, refs init k we = 0) as Hr by (by intros k [|]).
  split; [split|..]; intros.
  - done.
  - done.
  - by rewrite Ht.
  - by rewrite He in H.
  - by rewrite He.
  - by rewrite Ht in H.
  - rewrite Hp. unfold ring_ok, BUF. cbn [pipe0 data p_r p_len p_w]. split; [done|]. split; [lia|]. split; [lia|done].
  - rewrite Hp, Hr. by destruct we.
  - by rewrite Hp, !Hr.
Qed.

(** C20: the pipe tables are consistent after any sequence of system calls by
    any processes: the reader and writer counts of every pipe are exactly the
    numbers of descriptors, over all processes, that hold its ends; a pipe is in
    use exactly while somebody holds it; every descriptor in use refers to one of
    the eight pipes; no process has two tables; and every ring buffer is in
    bounds with its write position [len] bytes after its read position. *)
Theorem pipes_consistent calls : inv (fold_left run calls init).
Proof.
  assert (forall st, inv st -> inv (fold_left run calls st)) as H; [|apply H, init_inv].
  induction calls as [|c calls IH]; intros st Hst; [done|]. cbn [fold_left]. by apply IH, run_inv.
Qed.

(** The pipe a descriptor of the process refers to. *)
Definition pipe_of (st : State) (pid fd : Z) : option (nat * bool) :=
  match is_pipe_fd st pid fd with
  | Some (t, i) => Some (pipe_id (entry st t i), write_end (entry st t i))
  | None => None
  end.

Lemma pipe_of_spec st pid fd k we :
  inv st -> pipe_of st pid fd = Some (k, we) ->
  exists t i, is_pipe_fd st pid fd = Some (t, i) /\ pipe_id (entry st t i) = k /\ write_end (entry st t i) = we /\ (k < MAX_PIPES)%nat /\
    0 < refs st k we.
Proof.
  intros Hv. unfold pipe_of. destruct (is_pipe_fd st pid fd) as [[t i]|] eqn:E; [|done]. intros [= <- <-]. exists t, i.
  apply is_pipe_fd_spec in E as (_ & _ & _ & H). pose proof (inv_shape _ Hv) as Hs. destruct (sh_fd _ Hs t i H) as [_ Hk].
  by pose proof (refs_pos st t i Hs H).
Qed.

(** C21: reading is first in, first out, and end of file is exact.  A read of
    [n] bytes through a reading descriptor delivers and removes the oldest [n]
    bytes that were written (all of them when there are fewer); when there are
    none it reports end of file exactly if no descriptor of any process still
    holds the writing end, and EAGAIN otherwise. *)
Theorem pipe_read_correct st pid fd n k :
  inv st -> pipe_of st pid fd = Some (k, false) ->
  let q := contents (pipe_at st k) in
  let '(r, got, st') := read_fd st pid fd n in
  got = take n q /\ contents (pipe_at st' k) = drop n q /\
  r = (if decide (take n q = []) then (if decide (refs st k true = 0) then 0 else - VNU_EAGAIN) else Z.of_nat (length got)) /\
  (forall j, j <> k -> pipe_at st' j = pipe_at st j) /\ tables st' = tables st.
Proof.
  intros Hv Hp q. destruct (pipe_of_spec st pid fd k false Hv Hp) as (t & i & E & Ek & Ew & Hk & _).
  unfold read_fd. rewrite E, Ew, Ek. pose proof (inv_shape _ Hv) as Hs.
  destruct (read_loop_spec n (pipe_at st k) (sh_ring _ Hs k)) as (H1 & H2 & H3 & _ & _ & H4).
  assert (forall j p, pipe_at (set_pipe st k p) j = if decide (k = j) then p else pipe_at st j) as Hpipe
    by (intros; apply pipe_at_set; rewrite (sh_pipes _ Hs); done).
  pose proof (inv_count _ Hv k true Hk) as Hc. cbn [held] in Hc. rewrite H1, H4, Hc. fold q in H3 |- *.
  assert (contents (pipe_at (set_pipe st k (snd (read_loop n (pipe_at st k)))) k) = drop n q /\
    (forall j, j <> k -> pipe_at (set_pipe st k (snd (read_loop n (pipe_at st k)))) j = pipe_at st j)) as [Hd Ho].
  { rewrite Hpipe, decide_True by done. split; [done|]. intros j Hj. rewrite Hpipe, decide_False by done. done. }
  destruct (decide (take n q = [])) as [Et|Et].
  - rewrite Et. cbn [length Nat.eqb andb]. destruct (decide (refs st k true = 0)) as [Er|Er].
    + rewrite Er. by split_and!.
    + rewrite (proj2 (Z.eqb_neq _ _)) by done. by split_and!.
  - destruct (take n q) as [|x l] eqn:El; [done|]. cbn [length Nat.eqb andb]. by split_and!.
Qed.

(** C22: writing appends what fits.  A write through a writing descriptor
    fails with EPIPE exactly when no descriptor of any process holds the reading
    end; otherwise it appends as many of the bytes as the 256-byte ring has room
    for, in order, and returns how many. *)
Theorem pipe_write_correct st pid fd input k :
  inv st -> pipe_of st pid fd = Some (k, true) ->
  let q := contents (pipe_at st k) in
  let n := Nat.min (length input) (256 - length q) in
  write_fd st pid fd input =
    (if decide (refs st k false = 0) then (- VNU_EPIPE, st) else (Z.of_nat n, snd (write_fd st pid fd input))) /\
  (refs st k false <> 0 -> contents (pipe_at (snd (write_fd st pid fd input)) k) = q ++ take n input).
Proof.
  intros Hv Hp q n. destruct (pipe_of_spec st pid fd k true Hv Hp) as (t & i & E & Ek & Ew & Hk & _).
  unfold write_fd. rewrite E, Ew, Ek. cbn [negb]. pose proof (inv_shape _ Hv) as Hs.
  destruct (write_loop_spec input (pipe_at st k) (sh_ring _ Hs k)) as (H1 & H2 & H3 & _).
  pose proof (inv_count _ Hv k false Hk) as Hc. cbn [held] in Hc. rewrite Hc.
  assert (Nat.min (length input) (256 - Z.to_nat (p_len (pipe_at st k))) = n) as En by (unfold n, q; by rewrite length_contents).
  rewrite En in H1, H3. destruct (decide (refs st k false = 0)) as [Er|Er].
  - rewrite Er. done.
  - rewrite (proj2 (Z.eqb_neq _ _)) by done. cbn [snd]. rewrite H1. split; [done|]. intros _.
    rewrite pipe_at_set by (rewrite (sh_pipes _ Hs); done). by rewrite decide_True.
Qed.

Definition sample : State := fold_left run [(7, OCreate); (7, OWrite 4 (cs "hello")); (7, OFork 8)] init.

Lemma sample_inv : inv sample.
Proof.
  unfold sample. cbn [fold_left]. do 3 apply run_inv. apply init_inv.
Qed.

Lemma pipe_read_correct_witness :
  let q := contents (pipe_at sample 0) in
  let '(r, got, st') := read_fd sample 8 3 3 in
  got = take 3 q /\ contents (pipe_at st' 0) = drop 3 q /\
  r = (if decide (take 3 q = []) then (if decide (refs sample 0 true = 0) then 0 else - VNU_EAGAIN) else Z.of_nat (length got)) /\
  (forall j, j <> 0%nat -> pipe_at st' j = pipe_at sample j) /\ tables st' = tables sample.
Proof. apply (pipe_read_correct sample 8 3 3 0); [exact sample_inv|vm_compute; reflexivity]. Defined.

Lemma pipe_write_correct_witness :
  let q := contents (pipe_at sample 0) in
  let n := Nat.min 2 (256 - length q) in
  write_fd sample 8 4 [1; 2] =
    (if decide (refs sample 0 false = 0) then (- VNU_EPIPE, sample) else (Z.of_nat n, snd (write_fd sample 8 4 [1; 2]))) /\
  (refs sample 0 false <> 0 -> contents (pipe_at (snd (write_fd sample 8 4 [1; 2])) 0) = q ++ take n [1; 2]).
Proof. apply (pipe_write_correct sample 8 4 [1; 2] 0); [exact sample_inv|vm_compute; reflexivity]. Defined.
