(* ===== verification/Pmm.v ===== *)
(** The kernel's physical frame allocator, [vnu/kernel/mm/pmm.cpp].

    The bitmap is the list of its 32-bit words; physical memory is a function of
    the address.  [__bss_end] comes from the linker and is an argument of [init]. *)
From S2P Require Import Prelude.
Local Open Scope vnu_scope.

Definition FRAME_SIZE : Z := 4096.
Definition POOL_END : Z := 0x01F70000.
Definition POOL_MIN_BASE : Z := 0x00A00000.
Definition MAX_POOL_FRAMES : Z := (POOL_END - POOL_MIN_BASE) / FRAME_SIZE.
Definition BITMAP_WORDS : Z := (MAX_POOL_FRAMES + 31) / 32.

Record Pmm := mkPmm { g_bitmap : list Z; g_pool_base : Z; g_pool_frames : Z; mem : Z -> Z }.

Definition memset (dst val count : Z) (m : Z -> Z) : Z -> Z := fun a => if (dst <=? a) && (a <? dst + count) then val else m a.

(** [bss_end] is the address of [__bss_end]. *)
Definition init (bss_end : Z) (s : Pmm) : Pmm :=
  let base := Z.land (u32 (bss_end + FRAME_SIZE - 1)) (u32 (Z.lnot (FRAME_SIZE - 1))) in
  let base := if base <? POOL_MIN_BASE then POOL_MIN_BASE else base in
  mkPmm (replicate (Z.to_nat BITMAP_WORDS) 0) base (if base <? POOL_END then (POOL_END - base) / FRAME_SIZE else 0) (mem s).

(** [g_bitmap\[idx / 32\] & (1u << (idx % 32))] is not zero. *)
Definition bit_set (s : Pmm) (idx : Z) : bool :=
  negb (Z.land (at_ (g_bitmap s) (Z.to_nat (idx / 32))) (Z.shiftl 1 (idx mod 32)) =? 0).

Definition upd_word (s : Pmm) (w : nat) (x : Z) : Pmm :=
  mkPmm (<[w := x]> (g_bitmap s)) (g_pool_base s) (g_pool_frames s) (mem s).

(** [g_bitmap\[idx / 32\] |= (1u << (idx % 32))]. *)
Definition set_bit (s : Pmm) (idx : Z) : Pmm :=
  let w := Z.to_nat (idx / 32) in upd_word s w (Z.lor (at_ (g_bitmap s) w) (Z.shiftl 1 (idx mod 32))).

Definition zero_frame (s : Pmm) (phys : Z) : Pmm :=
  mkPmm (g_bitmap s) (g_pool_base s) (g_pool_frames s) (memset phys 0 FRAME_SIZE (mem s)).

(** [for (b = 0; b < 32; ++b)] in word [w], [k] bits from [b] on: the index of a free frame. *)
Fixpoint scan_word (k : nat) (s : Pmm) (w b : Z) : option Z :=
  match k with
  | O => None
  | S k' =>
      let idx := w * 32 + b in
      if g_pool_frames s <=? idx then None
      else if Z.land (at_ (g_bitmap s) (Z.to_nat w)) (Z.shiftl 1 b) =? 0 then Some idx
      else scan_word k' s w (b + 1)
  end.

(** [for (w = 0; w < BITMAP_WORDS; ++w)], [k] words from [w] on. *)
Fixpoint scan (k : nat) (s : Pmm) (w : Z) : option Z :=
  match k with
  | O => None
  | S k' =>
      if at_ (g_bitmap s) (Z.to_nat w) =? 0xFFFFFFFF then scan k' s (w + 1)
      else match scan_word 32 s w 0 with
           | Some idx => Some idx
           | None => scan k' s (w + 1)
           end
  end.

Definition alloc_frame (s : Pmm) : Z * Pmm :=
  match scan (Z.to_nat BITMAP_WORDS) s 0 with
  | Some idx =>
      let phys := u32 (g_pool_base s + idx * FRAME_SIZE) in
      (phys, zero_frame (set_bit s idx) phys)
  | None => (0, s)
  end.

(** [for (k = 0; k < n; ++k)]: whether the [n] frames from [i] are free. *)
Fixpoint free_run (n : nat) (s : Pmm) (i : Z) : bool :=
  match n with
  | O => true
  | S n' => if bit_set s i then false else free_run n' s (i + 1)
  end.

(** The marking loop of [alloc_contig]: [n] frames from index [i], address [phys]. *)
Fixpoint take_run (n : nat) (s : Pmm) (i phys : Z) : Pmm :=
  match n with
  | O => s
  | S n' => take_run n' (zero_frame (set_bit s i) phys) (i + 1) (u32 (phys + FRAME_SIZE))
  end.

(** [for (i = 0; i + n <= g_pool_frames; ++i)], [k] starts from [i] on. *)
Fixpoint find_run (k : nat) (s : Pmm) (n i : Z) : option Z :=
  match k with
  | O => None
  | S k' =>
      if g_pool_frames s <? u32 (i + n) then None
      else if free_run (Z.to_nat n) s i then Some i
      else find_run k' s n (i + 1)
  end.

Definition alloc_contig (n : Z) (s : Pmm) : Z * Pmm :=
  if (n =? 0) || (g_pool_frames s <? n) then (0, s)
  else match find_run (Z.to_nat (g_pool_frames s + 1)) s n 0 with
       | Some i =>
           let phys := u32 (g_pool_base s + i * FRAME_SIZE) in
           (phys, take_run (Z.to_nat n) s i phys)
       | None => (0, s)
       end.

Definition free_frame (s : Pmm) (phys_addr : Z) : Pmm :=
  if (phys_addr <? g_pool_base s) || (POOL_END <=? phys_addr) then s
  else
    let idx := (phys_addr - g_pool_base s) / FRAME_SIZE in
    let w := Z.to_nat (idx / 32) in
    upd_word s w (Z.land (at_ (g_bitmap s) w) (u32 (Z.lnot (Z.shiftl 1 (idx mod 32))))).

(** [n] frames from [phys_addr] on. *)
Fixpoint free_contig (s : Pmm) (phys_addr : Z) (n : nat) : Pmm :=
  match n with
  | O => s
  | S n' => free_contig (free_frame s phys_addr) (u32 (phys_addr + FRAME_SIZE)) n'
  end.

Definition total_frames (s : Pmm) : Z := g_pool_frames s.

(** [for (i = 0; i < g_pool_frames; ++i)], [k] frames from [i] on. *)
Fixpoint count_used (k : nat) (s : Pmm) (i used : Z) : Z :=
  match k with
  | O => used
  | S k' => count_used k' s (i + 1) (if bit_set s i then used + 1 else used)
  end.

Definition free_frames (s : Pmm) : Z := g_pool_frames s - count_used (Z.to_nat (g_pool_frames s)) s 0 0.

(** ** The pool *)

(** Words are words, the pool lies between the kernel and [POOL_END], frames past it are never taken. *)
Record pmm_ok (s : Pmm) : Prop := {
  pool_words : length (g_bitmap s) = Z.to_nat BITMAP_WORDS;
  pool_u32 : Forall is_u32 (g_bitmap s);
  pool_base : POOL_MIN_BASE <= g_pool_base s < 2 ^ 32;
  pool_aligned : g_pool_base s mod FRAME_SIZE = 0;
  pool_frames : g_pool_frames s = if g_pool_base s <? POOL_END then (POOL_END - g_pool_base s) / FRAME_SIZE else 0;
  pool_past : forall i, g_pool_frames s <= i < BITMAP_WORDS * 32 -> bit_set s i = false
}.

(** The frame with index [i]. *)
Definition frame (s : Pmm) (i : Z) : Z := g_pool_base s + i * FRAME_SIZE.

Lemma pool_end_aligned : POOL_END mod FRAME_SIZE = 0.
Proof. done. Qed.

Lemma pool_size s : pmm_ok s -> 0 <= g_pool_frames s <= MAX_POOL_FRAMES /\
  (g_pool_frames s <> 0 -> g_pool_base s + g_pool_frames s * FRAME_SIZE = POOL_END).
Proof.
  intros [_ _ Hb Ha Hf _]. rewrite Hf. change MAX_POOL_FRAMES with 5488. unfold POOL_MIN_BASE, FRAME_SIZE, POOL_END in *.
  bcase; [|split; [lia|done]].
  pose proof (Z_div_mod_eq_full (g_pool_base s) 4096). rewrite Ha in *.
  replace (32964608 - g_pool_base s) with ((8048 - g_pool_base s / 4096) * 4096) by lia. rewrite Z.div_mul by lia. split; [lia|]. intros _. lia.
Qed.

(** ** Bits *)

Lemma land_bit x b : 0 <= b -> (Z.land x (Z.shiftl 1 b) =? 0) = negb (Z.testbit x b).
Proof.
  intros Hb. rewrite Z.shiftl_1_l. destruct (Z.testbit x b) eqn:E; cbn [negb].
  - apply Z.eqb_neq. intros H. apply (f_equal (fun y => Z.testbit y b)) in H.
    by rewrite Z.land_spec, E, Z.pow2_bits_true, Z.bits_0 in H by lia.
  - apply Z.eqb_eq, Z.bits_inj'. intros i Hi. rewrite Z.land_spec, Z.pow2_bits_eqb, Z.bits_0 by lia.
    destruct (Z.eqb_spec b i) as [<-|]; [by rewrite E|apply andb_false_r].
Qed.

Lemma bit_set_testbit s i : bit_set s i = Z.testbit (at_ (g_bitmap s) (Z.to_nat (i / 32))) (i mod 32).
Proof. unfold bit_set. rewrite land_bit by (pose proof (Z.mod_pos_bound i 32); lia). apply negb_involutive. Qed.

(** The frames the bitmap can name. *)
Definition named (i : Z) : Prop := 0 <= i < BITMAP_WORDS * 32.

Lemma named_word s i : pmm_ok s -> named i -> (Z.to_nat (i / 32) < length (g_bitmap s))%nat.
Proof.
  intros Hok Hi. rewrite (pool_words s Hok). unfold named in Hi.
  assert (0 <= i / 32 < BITMAP_WORDS) by (split; [apply Z.div_pos; lia|apply Z.div_lt_upper_bound; lia]). lia.
Qed.

(** Two frames share a bit only if they are the same. *)
Lemma same_bit i j : 0 <= i -> 0 <= j -> Z.to_nat (i / 32) = Z.to_nat (j / 32) -> i mod 32 = j mod 32 -> i = j.
Proof.
  intros Hi Hj Hw Hb. pose proof (Z.div_pos i 32 Hi ltac:(lia)). pose proof (Z.div_pos j 32 Hj ltac:(lia)).
  rewrite (Z_div_mod_eq_full i 32), (Z_div_mod_eq_full j 32). lia.
Qed.

Lemma upd_word_bit s w x j :
  (w < length (g_bitmap s))%nat ->
  bit_set (upd_word s w x) j = if decide (w = Z.to_nat (j / 32)) then Z.testbit x (j mod 32) else bit_set s j.
Proof. intros Hw. rewrite !bit_set_testbit. cbn [g_bitmap upd_word]. rewrite at_insert by done. by case_decide. Qed.

Lemma set_bit_bit s i j :
  pmm_ok s -> named i -> 0 <= j -> bit_set (set_bit s i) j = (i =? j) || bit_set s j.
Proof.
  intros Hok Hi Hj. unfold set_bit. rewrite upd_word_bit by (by apply named_word). unfold named in Hi.
  pose proof (Z.mod_pos_bound i 32 ltac:(lia)). case_decide as E.
  - rewrite Z.lor_spec, Z.shiftl_1_l, Z.pow2_bits_eqb, E, <- bit_set_testbit, orb_comm by lia. f_equal.
    destruct (Z.eqb_spec i j) as [->|Hne]; [apply Z.eqb_refl|]. apply Z.eqb_neq. intros Hm. apply Hne, same_bit; auto; lia.
  - destruct (Z.eqb_spec i j) as [->|]; [done|done].
Qed.

Lemma at_u32 s i : pmm_ok s -> is_u32 (at_ (g_bitmap s) i).
Proof.
  intros Hok. destruct (decide (i < length (g_bitmap s))%nat) as [Hi|].
  - eapply Forall_lookup_1; [exact (pool_u32 s Hok)|by apply lookup_at].
  - rewrite at_ge by lia. unfold is_u32. lia.
Qed.

Lemma lor_u32 x y : is_u32 x -> is_u32 y -> is_u32 (Z.lor x y).
Proof.
  unfold is_u32. intros Hx Hy. split; [apply Z.lor_nonneg; lia|].
  destruct (Z.eq_dec (Z.lor x y) 0) as [->|]; [lia|]. apply Z.log2_lt_pow2; [pose proof (proj2 (Z.lor_nonneg x y)); lia|].
  rewrite Z.log2_lor by lia. apply Z.max_lub_lt; (destruct (Z.eq_dec x 0) as [->|]; destruct (Z.eq_dec y 0) as [->|]; try (cbn; lia); apply Z.log2_lt_pow2; lia).
Qed.

Lemma bit_u32 b : 0 <= b < 32 -> is_u32 (Z.shiftl 1 b).
Proof. intros Hb. rewrite Z.shiftl_1_l. split; [apply Z.pow_nonneg; lia|apply Z.pow_lt_mono_r; lia]. Qed.

(** The word of a frame with its bit cleared. *)
Definition cleared (s : Pmm) (i : Z) : Pmm :=
  let w := Z.to_nat (i / 32) in upd_word s w (Z.land (at_ (g_bitmap s) w) (u32 (Z.lnot (Z.shiftl 1 (i mod 32))))).

Lemma cleared_bit s i j :
  pmm_ok s -> named i -> 0 <= j -> bit_set (cleared s i) j = negb (i =? j) && bit_set s j.
Proof.
  intros Hok Hi Hj. unfold cleared. rewrite upd_word_bit by (by apply named_word). unfold named in Hi.
  pose proof (Z.mod_pos_bound i 32 ltac:(lia)). pose proof (Z.mod_pos_bound j 32 ltac:(lia)). case_decide as E.
  - rewrite Z.land_spec. unfold u32. rewrite Z.mod_pow2_bits_low, Z.lnot_spec, Z.shiftl_1_l, Z.pow2_bits_eqb by lia.
    rewrite E, <- bit_set_testbit, andb_comm. f_equal. f_equal.
    destruct (Z.eqb_spec i j) as [->|Hne]; [apply Z.eqb_refl|]. apply Z.eqb_neq. intros Hm. apply Hne, same_bit; auto; lia.
  - destruct (Z.eqb_spec i j) as [->|]; [done|done].
Qed.

Lemma land_u32 x y : is_u32 x -> is_u32 y -> is_u32 (Z.land x y).
Proof.
  unfold is_u32. intros Hx Hy. split; [apply Z.land_nonneg; lia|].
  destruct (Z.eq_dec (Z.land x y) 0) as [->|]; [lia|].
  pose proof (proj2 (Z.land_nonneg x y) (or_introl (proj1 Hx))).
  apply Z.log2_lt_pow2; [lia|]. eapply Z.le_lt_trans; [apply Z.log2_land; lia|].
  destruct (Z.eq_dec x 0) as [->|]; [rewrite Z.land_0_l in *; lia|].
  apply Z.min_lt_iff. left. apply Z.log2_lt_pow2; lia.
Qed.

Lemma pmm_upd s w x :
  pmm_ok s -> is_u32 x -> (forall i, g_pool_frames s <= i < BITMAP_WORDS * 32 -> bit_set (upd_word s w x) i = false) ->
  pmm_ok (upd_word s w x).
Proof.
  intros [Hw Hu Hb Ha Hf Hp] Hx Hn. constructor; cbn; auto; [by rewrite length_insert|by apply Forall_insert].
Qed.

Lemma pool_named s i : pmm_ok s -> 0 <= i < g_pool_frames s -> named i.
Proof.
  intros Hok Hi. destruct (pool_size s Hok) as [Hs _]. unfold named. change (BITMAP_WORDS * 32) with 5504.
  change MAX_POOL_FRAMES with 5488 in Hs. lia.
Qed.

Lemma set_bit_ok s i : pmm_ok s -> 0 <= i < g_pool_frames s -> pmm_ok (set_bit s i).
Proof.
  intros Hok Hi. pose proof (pool_named s i Hok Hi) as Hn. apply pmm_upd; auto.
  - apply lor_u32; [by apply at_u32|apply bit_u32, Z.mod_pos_bound; lia].
  - intros j Hj. change (bit_set (set_bit s i) j = false). rewrite set_bit_bit by (auto; lia).
    rewrite (pool_past s Hok j Hj), orb_false_r. apply Z.eqb_neq. lia.
Qed.

Lemma cleared_ok s i : pmm_ok s -> 0 <= i < g_pool_frames s -> pmm_ok (cleared s i).
Proof.
  intros Hok Hi. pose proof (pool_named s i Hok Hi) as Hn. apply pmm_upd; auto.
  - apply land_u32; [by apply at_u32|apply u32_range].
  - intros j Hj. change (bit_set (cleared s i) j = false). rewrite cleared_bit by (auto; lia).
    rewrite (pool_past s Hok j Hj). apply andb_false_r.
Qed.

(** ** The searches *)

Lemma word_bit s w b : 0 <= w -> 0 <= b < 32 ->
  (Z.land (at_ (g_bitmap s) (Z.to_nat w)) (Z.shiftl 1 b) =? 0) = negb (bit_set s (w * 32 + b)).
Proof.
  intros Hw Hb. rewrite land_bit, bit_set_testbit by lia.
  replace ((w * 32 + b) / 32) with w by (apply Z.div_unique with b; lia).
  by replace ((w * 32 + b) mod 32) with b by (apply Z.mod_unique with w; lia).
Qed.

Lemma scan_word_spec k s w b :
  0 <= w -> 0 <= b -> b + Z.of_nat k = 32 ->
  match scan_word k s w b with
  | Some i => w * 32 + b <= i < w * 32 + 32 /\ i < g_pool_frames s /\ bit_set s i = false /\
              (forall j, w * 32 + b <= j < i -> bit_set s j = true)
  | None => forall j, w * 32 + b <= j < w * 32 + 32 -> j < g_pool_frames s -> bit_set s j = true
  end.
Proof.
  intros Hw. revert b; induction k as [|k IH]; intros b Hb Hk; cbn [scan_word]; [intros; lia|].
  bcase; [intros; lia|]. rewrite word_bit by lia. destruct (bit_set s (w * 32 + b)) eqn:Eb; cbn [negb].
  - specialize (IH (b + 1) ltac:(lia) ltac:(lia)). destruct (scan_word k s w (b + 1)) as [i|].
    + destruct IH as (H1 & H2 & H3 & H4). repeat split; auto; try lia.
      intros j Hj. destruct (decide (j = w * 32 + b)) as [->|]; [done|apply H4; lia].
    + intros j Hj Hf. destruct (decide (j = w * 32 + b)) as [->|]; [done|apply IH; lia].
  - repeat split; auto; try lia.
Qed.

(** A word of ones has every frame taken. *)
Lemma full_word s w j : 0 <= w -> at_ (g_bitmap s) (Z.to_nat w) = 0xFFFFFFFF -> w * 32 <= j < w * 32 + 32 -> bit_set s j = true.
Proof.
  intros Hw E Hj. rewrite bit_set_testbit. replace (j / 32) with w by (apply Z.div_unique with (j - w * 32); lia).
  rewrite E. change 0xFFFFFFFF with (Z.ones 32). apply Z.ones_spec_low. pose proof (Z.mod_pos_bound j 32). lia.
Qed.

Lemma scan_spec k s w :
  0 <= w ->
  match scan k s w with
  | Some i => w * 32 <= i < g_pool_frames s /\ bit_set s i = false /\ (forall j, w * 32 <= j < i -> bit_set s j = true)
  | None => forall j, w * 32 <= j < (w + Z.of_nat k) * 32 -> j < g_pool_frames s -> bit_set s j = true
  end.
Proof.
  revert w; induction k as [|k IH]; intros w Hw; cbn [scan]; [intros; lia|].
  specialize (IH (w + 1) ltac:(lia)).
  assert ((forall j, w * 32 <= j < w * 32 + 32 -> j < g_pool_frames s -> bit_set s j = true) ->
    match scan k s (w + 1) with
    | Some i => w * 32 <= i < g_pool_frames s /\ bit_set s i = false /\ (forall j, w * 32 <= j < i -> bit_set s j = true)
    | None => forall j, w * 32 <= j < (w + Z.of_nat (S k)) * 32 -> j < g_pool_frames s -> bit_set s j = true
    end) as Next.
  { intros Hall. destruct (scan k s (w + 1)) as [i|].
    - destruct IH as (H1 & H2 & H3). repeat split; auto; try lia.
      intros j Hj. destruct (decide (j < w * 32 + 32)); [apply Hall|apply H3]; lia.
    - intros j Hj Hf. destruct (decide (j < w * 32 + 32)); [apply Hall|apply IH]; lia. }
  bcase; [apply Next; intros; by apply (full_word s w)|].
  pose proof (scan_word_spec 32 s w 0 Hw ltac:(lia) eq_refl) as Hs. rewrite Z.add_0_r in Hs.
  destruct (scan_word 32 s w 0) as [i|]; [|by apply Next].
  destruct Hs as (H1 & H2 & H3 & H4). repeat split; auto; lia.
Qed.

Lemma free_run_spec n s i :
  if free_run n s i then forall j, i <= j < i + Z.of_nat n -> bit_set s j = false
  else exists j, i <= j < i + Z.of_nat n /\ bit_set s j = true.
Proof.
  revert i; induction n as [|n IH]; intros i; cbn [free_run]; [intros; lia|].
  destruct (bit_set s i) eqn:E; [exists i; split; [lia|done]|]. specialize (IH (i + 1)). destruct (free_run n s (i + 1)).
  - intros j Hj. destruct (decide (j = i)) as [->|]; [done|apply IH; lia].
  - destruct IH as (j & Hj & Hb). exists j. split; [lia|done].
Qed.

(** A run of [n] free frames of the pool. *)
Definition run_free (s : Pmm) (n i : Z) : Prop :=
  0 <= i /\ i + n <= g_pool_frames s /\ forall j, i <= j < i + n -> bit_set s j = false.

Lemma find_run_spec k s n i :
  0 <= i -> 0 < n -> g_pool_frames s < i + n + Z.of_nat k -> g_pool_frames s + Z.of_nat k + n < 2 ^ 32 -> i <= g_pool_frames s ->
  match find_run k s n i with
  | Some i' => i <= i' /\ run_free s n i' /\ forall j, i <= j < i' -> ~ run_free s n j
  | None => forall j, i <= j -> ~ run_free s n j
  end.
Proof.
  revert i; induction k as [|k IH]; intros i Hi Hn Hk Hb Hf; cbn [find_run].
  { intros j Hj (_ & H & _). lia. }
  rewrite u32_id by (unfold is_u32; lia). bcase; [intros j Hj (_ & H & _); lia|].
  pose proof (free_run_spec (Z.to_nat n) s i) as Hr. rewrite Z2Nat.id in Hr by lia.
  destruct (free_run (Z.to_nat n) s i).
  - repeat split; auto; try lia.
  - assert (~ run_free s n i) as Hno by (destruct Hr as (j & Hj & Hb'); intros (_ & _ & H); rewrite (H j Hj) in Hb'; done).
    specialize (IH (i + 1)). destruct (decide (i + 1 <= g_pool_frames s)) as [Hle|Hgt]; [|lia].
    specialize (IH ltac:(lia) Hn ltac:(lia) ltac:(lia) Hle). destruct (find_run k s n (i + 1)) as [i'|].
    + destruct IH as (H1 & H2 & H3). repeat split; auto; try lia; try apply H2.
      intros j Hj. destruct (decide (j = i)) as [->|]; [done|apply H3; lia].
    + intros j Hj. destruct (decide (j = i)) as [->|]; [done|apply IH; lia].
Qed.

(** ** What an allocation and a release do *)

(** Frames [i] to [i + n - 1] of the pool are taken, and zeroed; nothing else changes. *)
Record granted (s s' : Pmm) (p i n : Z) : Prop := {
  g_addr : p = frame s i;
  g_inside : POOL_MIN_BASE <= p /\ p + n * FRAME_SIZE <= POOL_END;
  g_ok : pmm_ok s';
  g_pool : g_pool_base s' = g_pool_base s /\ g_pool_frames s' = g_pool_frames s;
  g_bits : forall j, 0 <= j -> bit_set s' j = ((i <=? j) && (j <? i + n)) || bit_set s j;
  g_mem : forall a, mem s' a = if (p <=? a) && (a <? p + n * FRAME_SIZE) then 0 else mem s a
}.

Lemma frame_bound s i n : pmm_ok s -> 0 <= i -> 0 < n -> i + n <= g_pool_frames s ->
  POOL_MIN_BASE <= frame s i /\ frame s i + n * FRAME_SIZE <= POOL_END.
Proof.
  intros Hok Hi Hn Hf. destruct (pool_size s Hok) as [Hs He]. specialize (He ltac:(lia)).
  pose proof (pool_base s Hok). unfold frame, FRAME_SIZE in *. lia.
Qed.

Lemma frame_u32 s i : pmm_ok s -> 0 <= i < g_pool_frames s -> is_u32 (frame s i).
Proof.
  intros Hok Hi. pose proof (frame_bound s i 1 Hok ltac:(lia) ltac:(lia) ltac:(lia)) as [H1 H2].
  unfold is_u32, POOL_MIN_BASE, POOL_END, FRAME_SIZE in *. lia.
Qed.

Lemma zero_frame_ok s p : pmm_ok s -> pmm_ok (zero_frame s p).
Proof. intros []. by constructor. Qed.

Lemma granted_one s i : pmm_ok s -> 0 <= i < g_pool_frames s -> granted s (zero_frame (set_bit s i) (frame s i)) (frame s i) i 1.
Proof.
  intros Hok Hi. pose proof (frame_bound s i 1 Hok ltac:(lia) ltac:(lia) ltac:(lia)) as Hb. constructor; auto.
  - by apply zero_frame_ok, set_bit_ok.
  - intros j Hj. change (bit_set (set_bit s i) j = (i <=? j) && (j <? i + 1) || bit_set s j).
    rewrite set_bit_bit by eauto using pool_named. f_equal. destruct (Z.eqb_spec i j); symmetry; [apply andb_true_iff; lia|].
    apply andb_false_iff. lia.
Qed.

Lemma granted_cons s s1 s2 p i n :
  0 < n -> granted s s1 p i 1 -> granted s1 s2 (p + FRAME_SIZE) (i + 1) n -> 0 <= i -> i + (1 + n) <= g_pool_frames s -> pmm_ok s ->
  granted s s2 p i (1 + n).
Proof.
  intros Hn [A1 A2 A3 [A4 A4'] A5 A6] [B1 B2 B3 [B4 B4'] B5 B6] Hi Hf Hok. constructor; auto.
  - rewrite A1. apply frame_bound; auto; lia.
  - split; congruence.
  - intros j Hj. rewrite B5, A5 by done. rewrite orb_assoc. f_equal.
    destruct (Z.leb_spec i j), (Z.ltb_spec j (i + 1)), (Z.leb_spec (i + 1) j), (Z.ltb_spec j (i + 1 + n)), (Z.ltb_spec j (i + (1 + n)));
      try done; lia.
  - intros a. rewrite B6, A6. unfold FRAME_SIZE.
    destruct (Z.leb_spec p a), (Z.ltb_spec a (p + 1 * 4096)), (Z.leb_spec (p + 4096) a), (Z.ltb_spec a (p + 4096 + n * 4096)),
      (Z.ltb_spec a (p + (1 + n) * 4096)); cbn [andb]; try done; lia.
Qed.

Lemma take_run_granted n s i :
  pmm_ok s -> 0 <= i -> (0 < n)%nat -> i + Z.of_nat n <= g_pool_frames s ->
  granted s (take_run n s i (frame s i)) (frame s i) i (Z.of_nat n).
Proof.
  revert s i; induction n as [|n IH]; intros s i Hok Hi Hn Hf; [lia|]. cbn [take_run].
  pose proof (granted_one s i Hok ltac:(lia)) as H1. destruct n as [|n]; [exact H1|].
  rewrite Nat2Z.inj_succ. replace (Z.succ (Z.of_nat (S n))) with (1 + Z.of_nat (S n)) by lia.
  set (s1 := zero_frame _ _) in *.
  assert (u32 (frame s i + FRAME_SIZE) = frame s1 (i + 1)) as Ea.
  { pose proof (frame_u32 s (i + 1) Hok ltac:(lia)) as Hu.
    replace (frame s1 (i + 1)) with (frame s i + FRAME_SIZE) by (unfold frame; cbn; unfold FRAME_SIZE; lia).
    apply u32_id. replace (frame s i + FRAME_SIZE) with (frame s (i + 1)) by (unfold frame, FRAME_SIZE; lia). done. }
  rewrite Ea. apply (granted_cons s s1); auto; try lia.
  replace (frame s i + FRAME_SIZE) with (frame s1 (i + 1)) by (unfold frame; cbn; unfold FRAME_SIZE; lia).
  apply IH; [apply (g_ok _ _ _ _ _ H1)|lia|lia|]. change (g_pool_frames s1) with (g_pool_frames s). lia.
Qed.

(** [alloc_frame] hands out the lowest free frame of the pool, zeroed, and
    takes nothing else; it refuses, and changes nothing, exactly when every frame
    of the pool is in use. *)
Theorem alloc_frame_correct s :
  pmm_ok s ->
  match alloc_frame s with
  | (p, s') =>
      (p = 0 /\ s' = s /\ forall i, 0 <= i < g_pool_frames s -> bit_set s i = true) \/
      (exists i, 0 <= i < g_pool_frames s /\ bit_set s i = false /\
                 (forall j, 0 <= j < i -> bit_set s j = true) /\ granted s s' p i 1)
  end.
Proof.
  intros Hok. unfold alloc_frame. pose proof (scan_spec (Z.to_nat BITMAP_WORDS) s 0 ltac:(lia)) as Hs.
  destruct (scan _ s 0) as [i|].
  - right. destruct Hs as (H1 & H2 & H3). exists i. repeat split; auto; try lia; try apply H3.
    all: rewrite (u32_id (g_pool_base s + i * FRAME_SIZE)) by (apply (frame_u32 s i); auto; lia).
    all: apply (granted_one s i Hok); lia.
  - left. split; [done|]. split; [done|]. intros i Hi. pose proof (pool_named s i Hok Hi) as Hn.
    unfold named in Hn. apply Hs; lia.
Qed.

Lemma alloc_contig_cases n s :
  pmm_ok s -> is_u32 n ->
  match alloc_contig n s with
  | (p, s') =>
      (p = 0 /\ s' = s /\ (n = 0 \/ forall i, ~ run_free s n i)) \/
      (exists i, 0 < n /\ run_free s n i /\ (forall j, 0 <= j < i -> ~ run_free s n j) /\ granted s s' p i n)
  end.
Proof.
  intros Hok Hn. destruct (pool_size s Hok) as [Hs _]. unfold is_u32 in Hn. change MAX_POOL_FRAMES with 5488 in Hs.
  unfold alloc_contig. destruct (_ || _) eqn:E.
  - left. split; [done|]. split; [done|]. apply orb_true_iff in E as [E|E]; bprop; [by left|right].
    intros i (? & ? & _). lia.
  - bprop. pose proof (find_run_spec (Z.to_nat (g_pool_frames s + 1)) s n 0) as Hf.
    specialize (Hf ltac:(lia) ltac:(lia) ltac:(lia) ltac:(lia) ltac:(lia)).
    destruct (find_run _ s n 0) as [i|].
    + destruct Hf as (H1 & H2 & H3). right. exists i. split; [lia|]. split; [done|]. split; [done|].
      destruct H2 as (H4 & H5 & _). rewrite (u32_id (g_pool_base s + i * FRAME_SIZE)) by (apply (frame_u32 s i); auto; lia).
      pose proof (take_run_granted (Z.to_nat n) s i Hok ltac:(lia) ltac:(lia) ltac:(lia)) as G.
      rewrite Z2Nat.id in G by lia. exact G.
    + left. repeat split; auto. right. intros i Hr. apply (Hf i); [apply Hr|done].
Qed.

(** C23: [alloc_contig n] hands out the first run of [n] free frames, zeroed, and
    takes nothing else; it refuses, and changes nothing, exactly when [n] is zero
    or the pool has no such run. *)
Theorem alloc_contig_correct n s :
  pmm_ok s -> is_u32 n ->
  match alloc_contig n s with
  | (p, s') =>
      (p = 0 /\ s' = s /\ (n = 0 \/ forall i, ~ run_free s n i)) \/
      (exists i, 0 < n /\ run_free s n i /\ (forall j, 0 <= j < i -> ~ run_free s n j) /\ granted s s' p i n)
  end.
Proof. apply alloc_contig_cases. Qed.

(** *** Release *)

Lemma free_frame_run s i : pmm_ok s -> 0 <= i < g_pool_frames s -> free_frame s (frame s i) = cleared s i.
Proof.
  intros Hok Hi. pose proof (frame_bound s i 1 Hok ltac:(lia) ltac:(lia) ltac:(lia)) as [H1 H2].
  unfold free_frame. destruct (_ || _) eqn:E.
  - apply orb_true_iff in E. unfold frame, FRAME_SIZE in *. lia.
  - replace ((frame s i - g_pool_base s) / FRAME_SIZE) with i; [done|].
    unfold frame. rewrite Z.add_simpl_l, Z.div_mul by done. done.
Qed.

Lemma free_contig_spec n s i :
  pmm_ok s -> 0 <= i -> i + Z.of_nat n <= g_pool_frames s ->
  let s' := free_contig s (frame s i) n in
  pmm_ok s' /\ g_pool_base s' = g_pool_base s /\ g_pool_frames s' = g_pool_frames s /\ mem s' = mem s /\
  forall j, 0 <= j -> bit_set s' j = negb ((i <=? j) && (j <? i + Z.of_nat n)) && bit_set s j.
Proof.
  revert s i; induction n as [|n IH]; intros s i Hok Hi Hf; cbn [free_contig].
  { do 4 (split; [done|]). intros j Hj. destruct (Z.leb_spec i j), (Z.ltb_spec j (i + Z.of_nat 0)); try done; lia. }
  rewrite free_frame_run by (auto; lia). set (s1 := cleared s i).
  assert (pmm_ok s1) as Hok1 by (apply cleared_ok; auto; lia).
  assert (forall j, 0 <= j -> bit_set s1 j = negb (i =? j) && bit_set s j) as Hb by (intros; apply cleared_bit; auto; apply (pool_named s); auto; lia).
  destruct n as [|n].
  { cbn [free_contig]. do 4 (split; [done|]). intros j Hj. rewrite Hb by done. f_equal. f_equal.
    destruct (Z.leb_spec i j), (Z.ltb_spec j (i + Z.of_nat 1)), (Z.eqb_spec i j); try done; lia. }
  assert (u32 (frame s i + FRAME_SIZE) = frame s1 (i + 1)) as Ea.
  { assert (frame s1 (i + 1) = frame s i + FRAME_SIZE) as E1 by (unfold frame; cbn; unfold FRAME_SIZE; lia). rewrite E1. apply u32_id.
    rewrite <- E1. apply frame_u32; [done|]. change (g_pool_frames s1) with (g_pool_frames s). lia. }
  rewrite Ea. destruct (IH s1 (i + 1) Hok1) as (A1 & A2 & A3 & A4 & A5); [lia|change (g_pool_frames s1) with (g_pool_frames s); lia|].
  do 4 (split; [done|]). intros j Hj. rewrite A5, Hb by done. rewrite andb_assoc. f_equal. rewrite <- negb_orb. f_equal.
  destruct (Z.leb_spec i j), (Z.leb_spec (i + 1) j), (Z.ltb_spec j (i + 1 + Z.of_nat (S n))), (Z.ltb_spec j (i + Z.of_nat (S (S n)))), (Z.eqb_spec i j);
    try done; lia.
Qed.

(** States with the same bits have the same bitmap. *)
Lemma bitmap_ext s s' : pmm_ok s -> pmm_ok s' -> (forall j, 0 <= j -> bit_set s' j = bit_set s j) -> g_bitmap s' = g_bitmap s.
Proof.
  intros Hok Hok' Hb. apply list_eq_at; [by rewrite (pool_words s Hok), (pool_words s' Hok')|]. intros i _.
  pose proof (at_u32 s i Hok) as U. pose proof (at_u32 s' i Hok') as U'. apply Z.bits_inj'. intros b Hb0.
  destruct (decide (b < 32)).
  - specialize (Hb (Z.of_nat i * 32 + b) ltac:(lia)). rewrite !bit_set_testbit in Hb.
    replace ((Z.of_nat i * 32 + b) / 32) with (Z.of_nat i) in Hb by (apply Z.div_unique with b; lia).
    replace ((Z.of_nat i * 32 + b) mod 32) with b in Hb by (apply Z.mod_unique with (Z.of_nat i); lia).
    by rewrite Nat2Z.id in Hb.
  - unfold is_u32 in *. rewrite <- (Z.mod_small _ _ U), <- (Z.mod_small _ _ U').
    by rewrite !Z.mod_pow2_bits_high by lia.
Qed.

(** *** Counting *)

Fixpoint count (k : nat) (f : Z -> bool) (i : Z) : Z :=
  match k with
  | O => 0
  | S k' => (if f i then 1 else 0) + count k' f (i + 1)
  end.

Lemma count_used_count k s i u : count_used k s i u = u + count k (bit_set s) i.
Proof. revert i u; induction k as [|k IH]; intros i u; cbn [count_used count]; [lia|]. rewrite IH. bcase; lia. Qed.

Lemma count_bound k f i : 0 <= count k f i <= Z.of_nat k.
Proof. revert i; induction k as [|k IH]; intros i; cbn [count]; [lia|]. specialize (IH (i + 1)). bcase; lia. Qed.

(** Taking a run of [n] free frames adds [n], less what is outside the range. *)
Lemma count_run k f g i a n :
  0 <= n -> (forall j, i <= j -> g j = ((a <=? j) && (j <? a + n)) || f j) -> (forall j, a <= j < a + n -> f j = false) ->
  count k g i = count k f i + Z.max 0 (Z.min (i + Z.of_nat k) (a + n) - Z.max i a).
Proof.
  intros Hn Hg Hf. revert i Hg; induction k as [|k IH]; intros i Hg; cbn [count]; [lia|].
  rewrite (IH (i + 1)) by (intros; apply Hg; lia). rewrite (Hg i) by lia.
  destruct (Z.leb_spec a i), (Z.ltb_spec i (a + n)); cbn [andb orb]; try (destruct (f i); lia).
  rewrite (Hf i) by lia. lia.
Qed.

(** the run [alloc_contig] granted can be given back with [free_contig]: the
    bitmap is then what it was.  While it is out, [free_frames] is smaller by
    exactly [n], and [total_frames] never changes. *)
Theorem contig_roundtrip n s p s' :
  pmm_ok s -> is_u32 n -> alloc_contig n s = (p, s') -> p <> 0 ->
  pmm_ok s' /\ g_bitmap (free_contig s' p (Z.to_nat n)) = g_bitmap s /\
  free_frames s' = free_frames s - n /\ free_frames (free_contig s' p (Z.to_nat n)) = free_frames s /\
  total_frames s' = total_frames s.
Proof.
  intros Hok Hn Ea Hp. pose proof (alloc_contig_cases n s Hok Hn) as Hc. rewrite Ea in Hc.
  destruct Hc as [(-> & _)|(i & H0 & (R1 & R2 & R3) & _ & [A1 A2 A3 [A4 A5] A6 A7])]; [done|].
  assert (p = frame s' i) as -> by (rewrite A1; unfold frame; by rewrite A4).
  destruct (free_contig_spec (Z.to_nat n) s' i A3 R1) as (B1 & B2 & B3 & _ & B5); [lia|]. rewrite Z2Nat.id in B5 by lia.
  set (s2 := free_contig s' _ _) in *.
  assert (g_bitmap s2 = g_bitmap s) as Eb.
  { apply bitmap_ext; auto. intros j Hj. rewrite B5, A6 by done.
    destruct (Z.leb_spec i j), (Z.ltb_spec j (i + n)); cbn [andb orb negb]; try done. by rewrite R3 by lia. }
  split; [done|]. split; [done|]. unfold free_frames, total_frames. rewrite B3, A5, !count_used_count.
  rewrite (count_run _ (bit_set s) (bit_set s') 0 i n); [|lia|intros; by apply A6|by intros; apply R3].
  split; [lia|]. split; [|done]. do 2 f_equal. f_equal. unfold bit_set. by rewrite Eb.
Qed.

(** *** Initialisation *)

Lemma align_up x : 0 <= x -> Z.land (u32 x) (u32 (Z.lnot 4095)) = u32 x / 4096 * 4096.
Proof.
  intros Hx. change (u32 (Z.lnot 4095)) with (Z.shiftl (Z.ones 20) 12). set (y := u32 x).
  assert (is_u32 y) as Hy by apply u32_range. unfold is_u32 in Hy.
  change 4096 with (2 ^ 12). rewrite <- Z.shiftr_div_pow2, <- Z.shiftl_mul_pow2 by lia.
  apply Z.bits_inj'. intros i Hi. rewrite Z.land_spec. destruct (Z.ltb_spec i 12).
  - rewrite !Z.shiftl_spec_low by lia. apply andb_false_r.
  - rewrite !Z.shiftl_spec_high, Z.shiftr_spec by lia. replace (i - 12 + 12) with i by lia.
    destruct (Z.ltb_spec i 32).
    + rewrite Z.ones_spec_low by lia. apply andb_true_r.
    + rewrite <- (Z.mod_small y (2 ^ 32)) by lia. rewrite Z.mod_pow2_bits_high by lia. done.
Qed.

Lemma count_none k i : count k (fun _ => false) i = 0.
Proof. revert i; induction k as [|k IH]; intros i; cbn [count]; [done|]. by rewrite IH. Qed.

Lemma count_ext k f g i : (forall j, f j = g j) -> count k f i = count k g i.
Proof. intros E. revert i; induction k as [|k IH]; intros i; cbn [count]; [done|]. by rewrite E, IH. Qed.

Lemma init_clear bss s j : bit_set (init bss s) j = false.
Proof.
  rewrite bit_set_testbit. cbn [g_bitmap init].
  assert (forall n i, at_ (replicate n 0) i = 0) as ->; [|apply Z.bits_0].
  intros n i. destruct (decide (i < n)%nat); [|by rewrite at_ge by (rewrite length_replicate; lia)].
  apply at_lookup, lookup_replicate. by split.
Qed.

(** wherever the linker put [__bss_end] (short of the last page of the address
    space), [init] leaves a well-formed pool that starts on a page boundary at or
    above it, ends at [POOL_END], and is entirely free. *)
Theorem pmm_init_correct bss s :
  0 <= bss -> bss + FRAME_SIZE <= 2 ^ 32 ->
  let s' := init bss s in
  pmm_ok s' /\ bss <= g_pool_base s' /\ free_frames s' = total_frames s' /\
  (g_pool_base s' < POOL_END -> g_pool_base s' + total_frames s' * FRAME_SIZE = POOL_END).
Proof.
  intros H0 Hb s'.
  assert (bss <= g_pool_base s' /\ POOL_MIN_BASE <= g_pool_base s' < 2 ^ 32 /\ g_pool_base s' mod FRAME_SIZE = 0) as (B1 & B2 & B3).
  { subst s'. cbn [g_pool_base init]. unfold FRAME_SIZE in *. change (4096 - 1) with 4095. rewrite align_up by lia.
    rewrite (u32_id (bss + 4096 - 1)) by (unfold is_u32; lia).
    pose proof (Z_div_mod_eq_full (bss + 4096 - 1) 4096). pose proof (Z.mod_pos_bound (bss + 4096 - 1) 4096 ltac:(lia)).
    bcase; unfold POOL_MIN_BASE in *; (split; [lia|split; [lia|]]); [reflexivity|by apply Z.mod_mul]. }
  assert (pmm_ok s') as Hok.
  { constructor; auto; [apply Forall_replicate; unfold is_u32; lia|].
    intros i _. apply init_clear. }
  split; [done|]. split; [done|]. split.
  - unfold free_frames, total_frames. rewrite count_used_count, (count_ext _ _ (fun _ => false)), count_none by (intros; apply init_clear). lia.
  - intros Hlt. destruct (pool_size s' Hok) as [_ He]. apply He. rewrite (pool_frames s' Hok).
    destruct (Z.ltb_spec (g_pool_base s') POOL_END); [|lia]. unfold FRAME_SIZE, POOL_END in *.
    pose proof (Z_div_mod_eq_full (g_pool_base s') 4096). rewrite B3 in *.
    replace (32964608 - g_pool_base s') with ((8048 - g_pool_base s' / 4096) * 4096) by lia. rewrite Z.div_mul by lia. lia.
Qed.

(** A pool of three frames, for the examples. *)
Definition blank_pmm : Pmm := mkPmm [] 0 0 (fun _ => 7).
Definition pool3 : Pmm := init (POOL_END - 3 * FRAME_SIZE) blank_pmm.

Lemma pool3_ok : pmm_ok pool3.
Proof.
  constructor; try done; [apply Forall_replicate; unfold is_u32; lia|]. intros i _. apply init_clear.
Qed.

Lemma pmm_init_correct_witness : pmm_ok (init 0x00AE1234 blank_pmm) /\ g_pool_base (init 0x00AE1234 blank_pmm) = 0x00AE2000.
Proof. split; [|reflexivity]. apply (pmm_init_correct 0x00AE1234 blank_pmm); [lia|unfold FRAME_SIZE; lia]. Defined.

Lemma alloc_frame_correct_witness : exists i, granted pool3 (snd (alloc_frame pool3)) (fst (alloc_frame pool3)) i 1.
Proof.
  destruct (alloc_frame pool3) as [p s'] eqn:E. pose proof (alloc_frame_correct pool3 pool3_ok) as Hc. rewrite E in Hc.
  destruct Hc as [(_ & _ & Hall)|(i & _ & _ & _ & G)]; [|by exists i].
  exfalso. specialize (Hall 0 ltac:(split; reflexivity || lia)). discriminate Hall.
Defined.

Lemma alloc_contig_correct_witness : exists i, granted pool3 (snd (alloc_contig 2 pool3)) (fst (alloc_contig 2 pool3)) i 2.
Proof.
  destruct (alloc_contig 2 pool3) as [p s'] eqn:E.
  pose proof (alloc_contig_correct 2 pool3 pool3_ok ltac:(unfold is_u32; lia)) as Hc. rewrite E in Hc.
  destruct Hc as [(_ & _ & [?|Hall])|(i & _ & _ & _ & G)]; [lia| |by exists i].
  exfalso. apply (Hall 0). split; [lia|]. split; [by vm_compute|]. intros j _. apply init_clear.
Defined.

Lemma contig_roundtrip_witness :
  g_bitmap (free_contig (snd (alloc_contig 2 pool3)) (fst (alloc_contig 2 pool3)) 2) = g_bitmap pool3.
Proof.
  apply (contig_roundtrip 2 pool3 (fst (alloc_contig 2 pool3)) (snd (alloc_contig 2 pool3)) pool3_ok);
    [unfold is_u32; lia|by destruct (alloc_contig 2 pool3)|by vm_compute].
Defined.
