(* ===== verification/Term.v ===== *)
(** The consoles' terminal: the escape-sequence parser and cell grid of
    [vnu/kernel/include/vnu/ansiterm.h], with the VGA console of
    [vnu/kernel/console/tty.cpp] as the client that supplies the scrolling.

    The grid is the list of its cells; [Trap] is a store outside it.  [on_scroll]
    is the console's own scrolling function, if it has one. *)
From S2P Require Import Prelude StrBuf.
Local Open Scope vnu_scope.

Record Term := mkTerm {
  cells : list Z; rows : Z; cols : Z; row : Z; col : Z; attr : Z;
  fg : Z; bg : Z; bright : bool; blink : bool;
  esc : bool; csi : bool; params : list Z; nparams : Z; cur : Z;
  bs_erase : bool; dirty : Z; cursor_moved : bool }.

Definition set_cells (x : list Z) (t : Term) : Term :=
  mkTerm x (rows t) (cols t) (row t) (col t) (attr t) (fg t) (bg t) (bright t) (blink t) (esc t) (csi t) (params t) (nparams t) (cur t)
    (bs_erase t) (dirty t) (cursor_moved t).
Definition set_pos (r c : Z) (t : Term) : Term :=
  mkTerm (cells t) (rows t) (cols t) r c (attr t) (fg t) (bg t) (bright t) (blink t) (esc t) (csi t) (params t) (nparams t) (cur t)
    (bs_erase t) (dirty t) (cursor_moved t).
Definition set_sgr (a f b : Z) (br bl : bool) (t : Term) : Term :=
  mkTerm (cells t) (rows t) (cols t) (row t) (col t) a f b br bl (esc t) (csi t) (params t) (nparams t) (cur t)
    (bs_erase t) (dirty t) (cursor_moved t).
Definition set_parse (e c : bool) (p : list Z) (n k : Z) (t : Term) : Term :=
  mkTerm (cells t) (rows t) (cols t) (row t) (col t) (attr t) (fg t) (bg t) (bright t) (blink t) e c p n k
    (bs_erase t) (dirty t) (cursor_moved t).
Definition set_dirty (d : Z) (t : Term) : Term :=
  mkTerm (cells t) (rows t) (cols t) (row t) (col t) (attr t) (fg t) (bg t) (bright t) (blink t) (esc t) (csi t) (params t) (nparams t) (cur t)
    (bs_erase t) d (cursor_moved t).
Definition moved (t : Term) : Term :=
  mkTerm (cells t) (rows t) (cols t) (row t) (col t) (attr t) (fg t) (bg t) (bright t) (blink t) (esc t) (csi t) (params t) (nparams t) (cur t)
    (bs_erase t) (dirty t) true.

Definition term_all_rows (t : Term) : Z := if 32 <=? rows t then 0xFFFFFFFF else u32 (Z.shiftl 1 (rows t)) - 1.

Definition term_mark (t : Term) (r : Z) : Term :=
  if (0 <=? r) && (r <? rows t) && (r <? 32) then set_dirty (Z.lor (dirty t) (Z.shiftl 1 r)) t else t.

Definition cell_of (ch_ a : Z) : Z := Z.lor ch_ (Z.shiftl a 8).
Definition term_blank (t : Term) : Z := cell_of 32 (attr t).

(** [params] keeps what it held. *)
Definition term_init (t : Term) (x : list Z) (r c : Z) (bs : bool) : Term :=
  mkTerm x r c 0 0 0x07 7 0 false false false false (params t) 0 0 bs 0 true.

(** [t.cells[i] = v]. *)
Definition poke (t : Term) (i v : Z) : outcome Term :=
  if (0 <=? i) && (i <? Z.of_nat (length (cells t))) then Done (set_cells (<[Z.to_nat i := v]> (cells t)) t) else Trap.

(** [for (; k > 0; --k) t.cells[i++] = v]. *)
Fixpoint fill (k : nat) (t : Term) (i v : Z) : outcome Term :=
  match k with
  | O => Done t
  | S k' => let* t := poke t i v in fill k' t (i + 1) v
  end.

(** [k] rows from [r] on: [for (c = 0; c < cols; ++c) t.cells[r * cols + c] = v]. *)
Fixpoint fill_rows (k : nat) (t : Term) (r v : Z) : outcome Term :=
  match k with
  | O => Done t
  | S k' => let* t := fill (Z.to_nat (cols t)) t (r * cols t) v in fill_rows k' t (r + 1) v
  end.

Definition term_clear (t : Term) : outcome Term :=
  let* t := fill_rows (Z.to_nat (rows t)) t 0 (term_blank t) in
  let t := set_pos 0 0 t in
  Done (moved (set_dirty (term_all_rows t) t)).

Definition clamp (x n : Z) : Z := if x <? 0 then 0 else if n <=? x then n - 1 else x.
Definition term_set_cursor (t : Term) (r c : Z) : Term := moved (set_pos (clamp r (rows t)) (clamp c (cols t)) t).

Definition term_ansi_to_pc (an : Z) : Z := at_ [0; 4; 2; 6; 1; 5; 3; 7] (Z.to_nat (Z.land an 7)).

(** One parameter of [term_sgr]. *)
Definition sgr_step (s : Z * Z * bool * bool) (p : Z) : Z * Z * bool * bool :=
  let '(f, b, br, bl) := s in
  if p =? 0 then (7, 0, false, false)
  else if p =? 1 then (f, b, true, bl)
  else if p =? 5 then (f, b, br, true)
  else if p =? 7 then (b, f, br, bl)
  else if (30 <=? p) && (p <=? 37) then (term_ansi_to_pc (u8 (p - 30)), b, false, bl)
  else if p =? 39 then (7, b, false, bl)
  else if (40 <=? p) && (p <=? 47) then (f, term_ansi_to_pc (u8 (p - 40)), br, bl)
  else if p =? 49 then (f, 0, br, bl)
  else if (90 <=? p) && (p <=? 97) then (term_ansi_to_pc (u8 (p - 90)), b, true, bl)
  else s.

Definition term_sgr (t : Term) (p : list Z) (n : Z) : Term :=
  let '(f, b, br, bl) := fold_left sgr_step (take (Z.to_nat n) p) (fg t, bg t, bright t, blink t) in
  let a := u8 (Z.lor (Z.lor (f + (if br then 8 else 0)) (Z.shiftl b 4)) (if bl then 0x80 else 0)) in
  set_sgr a f b br bl t.

Definition term_erase_line (t : Term) (mode : Z) : outcome Term :=
  let from := if mode =? 0 then col t else 0 in
  let to := if mode =? 0 then cols t - 1 else if mode =? 1 then col t else cols t - 1 in
  let* t := fill (Z.to_nat (to - from + 1)) t (row t * cols t + from) (term_blank t) in
  Done (term_mark t (row t)).

Definition term_erase_display (t : Term) (mode : Z) : outcome Term :=
  let blank := term_blank t in
  let* t :=
    (if (mode =? 2) || (mode =? 3) then
       let* t := fill_rows (Z.to_nat (rows t)) t 0 blank in Done (set_pos 0 0 t)
     else if mode =? 1 then
       let* t := fill_rows (Z.to_nat (row t)) t 0 blank in
       fill (Z.to_nat (Z.min (col t + 1) (cols t))) t (row t * cols t) blank
     else
       let* t := fill (Z.to_nat (cols t - col t)) t (row t * cols t + col t) blank in
       fill_rows (Z.to_nat (rows t - (row t + 1))) t (row t + 1) blank) in
  Done (moved (set_dirty (term_all_rows t) t)).

(** [t.cells[i] = t.cells[j]], [k] times, with both running up. *)
Fixpoint copy_up (k : nat) (t : Term) (i j : Z) : outcome Term :=
  match k with
  | O => Done t
  | S k' =>
      if (0 <=? j) && (j <? Z.of_nat (length (cells t))) then
        let* t := poke t i (at_ (cells t) (Z.to_nat j)) in copy_up k' t (i + 1) (j + 1)
      else Trap
  end.

(** [for (int r = 1; r < t.rows; ++r)]: [k] rows from [r] on. *)
Fixpoint shift_rows (k : nat) (t : Term) (r : Z) : outcome Term :=
  match k with
  | O => Done t
  | S k' => let* t := copy_up (Z.to_nat (cols t)) t ((r - 1) * cols t) (r * cols t) in shift_rows k' t (r + 1)
  end.

Section Console.
Context (on_scroll : option (Term -> outcome Term)).

Definition term_scroll_up (t : Term) : outcome Term :=
  match on_scroll with
  | Some f => f t
  | None =>
      let* t := shift_rows (Z.to_nat (rows t - 1)) t 1 in
      let* t := fill (Z.to_nat (cols t)) t ((rows t - 1) * cols t) (term_blank t) in
      Done (set_dirty (term_all_rows t) t)
  end.

Definition term_param (t : Term) (i : nat) (def : Z) : Z :=
  if (Z.of_nat i <? nparams t) && negb (at_ (params t) i =? 0) then at_ (params t) i else def.

(** [if (t.nparams < 8) t.params[t.nparams++] = t.cur; t.cur = 0]. *)
Definition push_param (t : Term) : Term :=
  if nparams t <? 8
  then set_parse (esc t) (csi t) (<[Z.to_nat (nparams t) := u8 (cur t)]> (params t)) (nparams t + 1) 0 t
  else set_parse (esc t) (csi t) (params t) (nparams t) 0 t.

Definition term_csi (t : Term) (final : Z) : outcome Term :=
  let t := push_param t in
  let t := set_parse (esc t) false (params t) (nparams t) (cur t) t in
  let p0 := term_param t 0 1 in
  if final =? chr "m" then Done (term_sgr t (params t) (nparams t))
  else if (final =? chr "H") || (final =? chr "f") then Done (term_set_cursor t (p0 - 1) (term_param t 1 1 - 1))
  else if final =? chr "A" then Done (term_set_cursor t (row t - p0) (col t))
  else if final =? chr "B" then Done (term_set_cursor t (row t + p0) (col t))
  else if final =? chr "C" then Done (term_set_cursor t (row t) (col t + p0))
  else if final =? chr "D" then Done (term_set_cursor t (row t) (col t - p0))
  else if final =? chr "G" then Done (term_set_cursor t (row t) (p0 - 1))
  else if final =? chr "d" then Done (term_set_cursor t (p0 - 1) (col t))
  else if final =? chr "J" then term_erase_display t (if nparams t =? 0 then 2 else term_param t 0 0)
  else if final =? chr "K" then term_erase_line t (term_param t 0 0)
  else Done t.

(** [if (++t.row >= t.rows) { term_scroll_up(t); t.row = t.rows - 1; }] at column 0. *)
Definition next_line (t : Term) : outcome Term :=
  let t := set_pos (row t + 1) 0 t in
  if rows t <=? row t then let* t := term_scroll_up t in Done (set_pos (rows t - 1) (col t) t) else Done t.

(** The cell a backspace moves onto. *)
Definition bs_cell (t : Term) : outcome Term :=
  if bs_erase t then let* t := poke t (row t * cols t + col t) (term_blank t) in Done (term_mark t (row t)) else Done t.

Fixpoint repeat_step (n : nat) (step : Term -> outcome Term) (t : Term) : outcome Term :=
  match n with
  | O => Done t
  | S n' => let* t := step t in repeat_step n' step t
  end.

(** An ordinary character. *)
Definition put_char (t : Term) (c : Z) : outcome Term :=
  let* t := (if cols t <=? col t then next_line t else Done t) in
  let* t := poke t (row t * cols t + col t) (cell_of c (attr t)) in
  let t := term_mark t (row t) in
  Done (moved (set_pos (row t) (col t + 1) t)).

(** A tab calls [term_putc] again, with a space: [depth] is the depth of that. *)
Fixpoint term_putc_at (depth : nat) (t : Term) (c : Z) : outcome Term :=
  let s := schar c in
  if esc t then
    Done (moved (if s =? chr "[" then set_parse false true (params t) 0 0 t
                 else set_parse false (csi t) (params t) (nparams t) (cur t) t))
  else if csi t then
    let* t :=
      (if (48 <=? s) && (s <=? 57) then
         let k := cur t * 10 + (s - 48) in
         Done (set_parse (esc t) (csi t) (params t) (nparams t) (if 255 <? k then 255 else k) t)
       else if s =? chr ";" then Done (push_param t)
       else if s =? 0x1B then Done (set_parse true false (params t) (nparams t) (cur t) t)
       else if (0x40 <=? s) && (s <=? 0x7E) then term_csi t (u8 s)
       else Done (set_parse (esc t) false (params t) (nparams t) (cur t) t)) in
    Done (moved t)
  else if s =? 0x1B then Done (moved (set_parse true (csi t) (params t) (nparams t) (cur t) t))
  else if s =? 10 then let* t := next_line t in Done (moved t)
  else if s =? 13 then Done (moved (set_pos (row t) 0 t))
  else if s =? 8 then
    let* t :=
      (if 0 <? col t then bs_cell (set_pos (row t) (col t - 1) t)
       else if 0 <? row t then bs_cell (set_pos (row t - 1) (cols t - 1) t)
       else Done t) in
    Done (moved t)
  else if s =? 9 then
    match depth with
    | O => NoFuel
    | S d => repeat_step (Z.to_nat (4 - Z.rem (col t) 4)) (fun t => term_putc_at d t 32) t
    end
  else put_char t (u8 s).

Definition term_putc (t : Term) (c : Z) : outcome Term := term_putc_at 1 t c.

Fixpoint term_write (t : Term) (s : list Z) : outcome Term :=
  match s with
  | [] => Done t
  | c :: s' => let* t := term_putc t c in term_write t s'
  end.
End Console.

(** ** The VGA console *)

Definition W : Z := 80.
Definition H : Z := 25.

(** [dst[i] = src[i]] on 32-bit words, two cells each: [k] of them from cell [i] on. *)
Fixpoint copy_dwords (k : nat) (x : list Z) (i : nat) : list Z :=
  match k with
  | O => x
  | S k' =>
      let a := at_ x (i + 80) in
      let b := at_ x (i + 81) in
      copy_dwords k' (<[S i := b]> (<[i := a]> x)) (i + 2)
  end.

(** [last[i] = blank], [k] words from cell [i] on. *)
Fixpoint fill_dwords (k : nat) (x : list Z) (i : nat) (c : Z) : list Z :=
  match k with
  | O => x
  | S k' => fill_dwords k' (<[S i := c]> (<[i := c]> x)) (i + 2) c
  end.

(** [t->cells] is the text plane [vga]. *)
Definition vga_scroll (t : Term) : outcome Term :=
  let x := copy_dwords (Z.to_nat ((H - 1) * W / 2)) (cells t) 0 in
  let c := Z.lor 0x20 (Z.shiftl (attr t) 8) in
  let x := fill_dwords (Z.to_nat (W / 2)) x (Z.to_nat ((H - 1) * W)) c in
  let t := set_cells x t in
  Done (set_dirty (term_all_rows t) t).

(** ** The sequence builders of [vlibc/include/vlibc/term.h]

    A builder's result is the list of the bytes it wrote, empty when the buffer
    of [cap] bytes is too small.  [push] is
    [if (n + 1 >= cap) return 0; buf\[n++\] = c]. *)
Definition push (cap : Z) (buf : list Z) (c : Z) : option (list Z) :=
  if cap <=? Z.of_nat (length buf) + 1 then None else Some (buf ++ [c]).

(** [while (div > 0)], over the values of [div]. *)
Fixpoint goto_digits (cap : Z) (divs : list Z) (buf : list Z) (v : Z) (started : bool) : option (list Z) :=
  match divs with
  | [] => Some buf
  | div :: divs' =>
      let d := (v / div) mod 10 in
      if negb (d =? 0) || started || (div =? 1) then
        buf ← push cap buf (48 + d); goto_digits cap divs' buf v true
      else goto_digits cap divs' buf v started
  end.

Definition tnu_goto (cap r c : Z) : list Z :=
  if cap <? 4 then []
  else default []
    (buf ← goto_digits cap [100; 10; 1] [27; chr "["] r false;
     buf ← push cap buf (chr ";");
     buf ← goto_digits cap [100; 10; 1] buf c false;
     push cap buf (chr "H")).

(** [if (n + 2 >= cap) return 0] before each byte. *)
Fixpoint sgr_copy (cap : Z) (buf ps : list Z) : option (list Z) :=
  match ps with
  | [] => Some buf
  | p :: ps' => if cap <=? Z.of_nat (length buf) + 2 then None else sgr_copy cap (buf ++ [p]) ps'
  end.

Definition tnu_sgr (cap : Z) (ps : list Z) : list Z :=
  if cap <? 4 then []
  else default []
    (buf ← sgr_copy cap [27; chr "["] ps;
     if cap <=? Z.of_nat (length buf) + 2 then None else Some (buf ++ [chr "m"])).

Definition tnu_erase_eol (cap : Z) : list Z := if cap <? 3 then [] else [27; chr "["; chr "K"].
Definition tnu_clear (cap : Z) : list Z := if cap <? 4 then [] else [27; chr "["; chr "2"; chr "J"].

(** A small grid for the examples. *)
Definition term0 (r c : Z) : Term :=
  term_init (mkTerm [] 0 0 0 0 0 0 0 false false false false (replicate 8 0) 0 0 false 0 false) (replicate (Z.to_nat (r * c)) 0x720) r c true.

Definition shown (t : outcome Term) : list Z :=
  match t with Done t => map (fun x => Z.land x 255) (cells t) | _ => [] end.

Example term_ex : shown (term_write None (term0 2 4) (cs "ab" ++ [10] ++ cs "cdefg" ++ [0x1B] ++ cs "[1;2HX")) = cs "cXefg   ".
Proof. vm_compute. reflexivity. Qed.

(** ** Writing a run of cells *)

(** [x] with [ys] stored from index [i] on. *)
Definition over (x : list Z) (i : nat) (ys : list Z) : list Z := take i x ++ ys ++ drop (i + length ys) x.

Lemma over_length x i ys : (i + length ys <= length x)%nat -> length (over x i ys) = length x.
Proof. intros Hl. unfold over. rewrite !length_app, length_take, length_drop. lia. Qed.

Lemma over_nil x i : over x i [] = x.
Proof. unfold over. cbn [length app]. rewrite Nat.add_0_r. apply take_drop. Qed.

Lemma at_over x i ys j :
  (i + length ys <= length x)%nat ->
  at_ (over x i ys) j = if decide (i <= j < i + length ys)%nat then at_ ys (j - i) else at_ x j.
Proof.
  intros Hl. unfold over. case_decide.
  - rewrite at_app_r, at_app_l by (rewrite length_take; lia). f_equal. rewrite length_take. lia.
  - destruct (decide (j < i)%nat).
    + rewrite at_app_l by (rewrite length_take; lia). apply at_take. lia.
    + rewrite !at_app_r, at_drop by (rewrite ?length_take; lia). f_equal. rewrite length_take. lia.
Qed.

Lemma over_over x i ys zs :
  (i + length ys + length zs <= length x)%nat -> over (over x i ys) (i + length ys) zs = over x i (ys ++ zs).
Proof.
  intros Hl. apply list_eq_at.
  - rewrite !over_length; rewrite ?length_app, ?over_length; lia.
  - intros j Hj. rewrite at_over by (rewrite over_length; lia). rewrite !at_over by (rewrite ?length_app; lia).
    rewrite length_app. repeat case_decide; try lia; try reflexivity.
    + rewrite at_app_r by lia. f_equal. lia.
    + rewrite at_app_l by lia. reflexivity.
Qed.

Lemma over_all x ys : length ys = length x -> over x 0 ys = ys.
Proof. intros Hl. unfold over. cbn [take app Nat.add]. rewrite drop_ge by lia. apply app_nil_r. Qed.

Lemma insert_over x i v : (i < length x)%nat -> <[i := v]> x = over x i [v].
Proof.
  intros Hi. apply list_eq_at; [rewrite length_insert, over_length; cbn [length]; lia|].
  intros j Hj. rewrite at_insert by lia. rewrite at_over by (cbn [length]; lia). cbn [length].
  repeat case_decide; subst; try lia; by rewrite ?Nat.sub_diag.
Qed.

Lemma set_cells_id t : set_cells (cells t) t = t.
Proof. by destruct t. Qed.

Lemma set_cells_twice x y t : set_cells y (set_cells x t) = set_cells y t.
Proof. done. Qed.

Lemma poke_ok t i v :
  0 <= i < Z.of_nat (length (cells t)) -> poke t i v = Done (set_cells (over (cells t) (Z.to_nat i) [v]) t).
Proof.
  intros Hi. unfold poke. rewrite insert_over by lia.
  destruct (_ && _) eqn:E; [done|]. apply andb_false_iff in E as [?|?]; bprop; lia.
Qed.

Lemma poke_trap t i v : Z.of_nat (length (cells t)) <= i -> poke t i v = Trap.
Proof. intros Hi. unfold poke. destruct (_ && _) eqn:E; [|done]. bprop; lia. Qed.

Lemma fill_ok k t i v :
  0 <= i -> i + Z.of_nat k <= Z.of_nat (length (cells t)) ->
  fill k t i v = Done (set_cells (over (cells t) (Z.to_nat i) (replicate k v)) t).
Proof.
  revert t i; induction k as [|k IH]; intros t i Hi Hl; cbn [fill replicate].
  - by rewrite over_nil, set_cells_id.
  - rewrite poke_ok by lia. cbn [obind]. rewrite IH; cbn [cells set_cells]; rewrite ?over_length by (cbn [length]; lia); [|lia..].
    rewrite set_cells_twice. do 2 f_equal. replace (Z.to_nat (i + 1)) with (Z.to_nat i + length [v])%nat by (cbn [length]; lia).
    apply over_over. rewrite length_replicate. cbn [length]. lia.
Qed.

(** A run that starts in the grid and leaves it traps. *)
Lemma fill_trap k t i v :
  0 <= i <= Z.of_nat (length (cells t)) -> Z.of_nat (length (cells t)) < i + Z.of_nat k -> fill k t i v = Trap.
Proof.
  revert t i; induction k as [|k IH]; intros t i Hi Hl; [lia|]. cbn [fill].
  destruct (decide (i = Z.of_nat (length (cells t)))); [by rewrite poke_trap by lia|].
  rewrite poke_ok by lia. cbn [obind].
  apply IH; cbn [cells set_cells]; rewrite over_length by (cbn [length]; lia); lia.
Qed.

(** The grid has [rows * cols] cells. *)
Definition grid_ok (t : Term) : Prop :=
  0 < rows t /\ 0 < cols t /\ length (cells t) = Z.to_nat (rows t * cols t).

Lemma fill_rows_ok k t r v :
  0 <= r -> 0 < cols t -> (r + Z.of_nat k) * cols t <= Z.of_nat (length (cells t)) ->
  fill_rows k t r v =
    Done (set_cells (over (cells t) (Z.to_nat (r * cols t)) (replicate (k * Z.to_nat (cols t)) v)) t).
Proof.
  revert t r; induction k as [|k IH]; intros t r Hr Hc Hl; cbn [fill_rows].
  - by rewrite over_nil, set_cells_id.
  - rewrite fill_ok by nia. cbn [obind].
    rewrite IH; cbn [cells cols set_cells]; rewrite ?over_length by (rewrite length_replicate; nia); [|nia..].
    rewrite set_cells_twice. do 2 f_equal.
    replace (Z.to_nat ((r + 1) * cols t)) with (Z.to_nat (r * cols t) + length (replicate (Z.to_nat (cols t)) v))%nat
      by (rewrite length_replicate; nia).
    rewrite over_over by (rewrite !length_replicate; nia). f_equal. rewrite <- replicate_add. f_equal.
Qed.

(** ** Scrolling *)

Lemma drop_over x i ys j :
  (i + length ys <= length x)%nat -> (i + length ys <= j)%nat -> drop j (over x i ys) = drop j x.
Proof.
  intros Hl Hj. apply list_eq_at; [rewrite !length_drop, over_length; lia|]. intros k _.
  rewrite !at_drop, at_over by lia. case_decide; [lia|done].
Qed.

Lemma take_S_drop (x : list Z) j k : (j < length x)%nat -> take (S k) (drop j x) = at_ x j :: take k (drop (S j) x).
Proof. intros Hj. rewrite (drop_S x (at_ x j) j) by (by apply lookup_at). done. Qed.

Lemma copy_up_ok k t i j :
  0 <= i < j -> j + Z.of_nat k <= Z.of_nat (length (cells t)) ->
  copy_up k t i j = Done (set_cells (over (cells t) (Z.to_nat i) (take k (drop (Z.to_nat j) (cells t)))) t).
Proof.
  revert t i j; induction k as [|k IH]; intros t i j Hi Hl; cbn [copy_up].
  - by rewrite take_0, over_nil, set_cells_id.
  - destruct (_ && _) eqn:E; [clear E|apply andb_false_iff in E as [?|?]; bprop; lia].
    rewrite poke_ok by lia. cbn [obind].
    rewrite IH; cbn [cells set_cells]; rewrite ?over_length by (cbn [length]; lia); [|lia..].
    rewrite set_cells_twice. do 2 f_equal. rewrite drop_over by (cbn [length]; lia). rewrite take_S_drop by lia.
    replace (Z.to_nat (i + 1)) with (Z.to_nat i + length [at_ (cells t) (Z.to_nat j)])%nat by (cbn [length]; lia).
    replace (Z.to_nat (j + 1)) with (S (Z.to_nat j)) by lia.
    apply over_over. rewrite length_take, length_drop. cbn [length]. lia.
Qed.

Lemma shift_rows_ok k t r :
  1 <= r -> 0 < cols t -> (r + Z.of_nat k) * cols t <= Z.of_nat (length (cells t)) ->
  shift_rows k t r =
    Done (set_cells (over (cells t) (Z.to_nat ((r - 1) * cols t))
                       (take (k * Z.to_nat (cols t)) (drop (Z.to_nat (r * cols t)) (cells t)))) t).
Proof.
  revert t r; induction k as [|k IH]; intros t r Hr Hc Hl; cbn [shift_rows].
  - by rewrite take_0, over_nil, set_cells_id.
  - rewrite copy_up_ok by nia. cbn [obind].
    set (ys := take (Z.to_nat (cols t)) _).
    assert (length ys = Z.to_nat (cols t)) as Ly by (unfold ys; rewrite length_take, length_drop; nia).
    rewrite IH; cbn [cells cols set_cells]; rewrite ?over_length by nia; [|nia..].
    rewrite set_cells_twice. do 2 f_equal. rewrite drop_over by nia.
    replace (Z.to_nat ((r + 1 - 1) * cols t)) with (Z.to_nat ((r - 1) * cols t) + length ys)%nat by nia.
    replace (Z.to_nat ((r + 1) * cols t)) with (Z.to_nat (r * cols t) + Z.to_nat (cols t))%nat by nia.
    rewrite over_over by (rewrite length_take, length_drop; nia). f_equal. unfold ys.
    cbn [Nat.mul]. rewrite <- take_take_drop, drop_drop. done.
Qed.

(** What a console owes the terminal when a line leaves the top: every row moves
    up one, the last is blank, every row is marked. *)
Definition scrolled (t : Term) : Term :=
  set_dirty (term_all_rows t) (set_cells (drop (Z.to_nat (cols t)) (cells t) ++ replicate (Z.to_nat (cols t)) (term_blank t)) t).

(** A console whose grid is [r] rows of [c] cells and which scrolls that way. *)
Class Scrolls (on_scroll : option (Term -> outcome Term)) (r c : Z) : Prop :=
  scrolls : forall t, rows t = r -> cols t = c -> grid_ok t -> term_scroll_up on_scroll t = Done (scrolled t).

Lemma over_shift (x ys : list Z) n :
  length ys = n -> (n <= length x)%nat ->
  over (over x 0 (drop n x)) (length x - n) ys = drop n x ++ ys.
Proof.
  intros Hy Hn. pose proof (over_over x 0 (drop n x) ys) as E. rewrite length_drop in E.
  cbn [Nat.add] in E. rewrite E by lia. apply over_all. rewrite length_app, length_drop. lia.
Qed.

(** The terminal's own scrolling, for a console that supplies none. *)
#[export] Instance scrolls_default r c : Scrolls None r c.
Proof.
  intros t <- <- (Hr & Hc & Hl). unfold term_scroll_up. rewrite shift_rows_ok by nia. cbn [obind].
  replace (Z.to_nat ((1 - 1) * cols t)) with 0%nat by lia. rewrite Z.mul_1_l, take_ge by (rewrite length_drop; nia).
  assert (length (over (cells t) 0 (drop (Z.to_nat (cols t)) (cells t))) = length (cells t)) as Lo
    by (apply over_length; rewrite length_drop; nia).
  rewrite fill_ok; cbn [cells rows cols set_cells]; rewrite ?Lo; [|nia..]. cbn [obind]. unfold scrolled.
  rewrite set_cells_twice. do 3 f_equal.
  replace (Z.to_nat ((rows t - 1) * cols t)) with (length (cells t) - Z.to_nat (cols t))%nat by nia.
  rewrite over_shift; [done|apply length_replicate|nia].
Qed.

Lemma copy_dwords_ok k x i :
  (i + 2 * k + 80 <= length x)%nat -> copy_dwords k x i = over x i (take (2 * k) (drop (i + 80) x)).
Proof.
  revert x i; induction k as [|k IH]; intros x i Hl; cbn [copy_dwords].
  - by rewrite take_0, over_nil.
  - set (a := at_ x (i + 80)). set (b := at_ x (i + 81)).
    assert (<[S i := b]> (<[i := a]> x) = over x i [a; b]) as E.
    { rewrite (insert_over x i a) by lia. rewrite insert_over by (rewrite over_length; cbn [length]; lia).
      replace (S i) with (i + length [a])%nat by (cbn [length]; lia). apply over_over. cbn [length]. lia. }
    rewrite E, IH by (rewrite over_length; cbn [length]; lia).
    rewrite drop_over by (cbn [length]; lia). replace (2 * S k)%nat with (S (S (2 * k))) by lia.
    rewrite !take_S_drop by lia. replace (S (i + 80)) with (i + 81)%nat by lia. fold a b.
    replace (S (i + 81)) with (i + 2 + 80)%nat by lia.
    replace (i + 2)%nat with (i + length [a; b])%nat at 1 by (cbn [length]; lia).
    apply over_over. rewrite length_take, length_drop. cbn [length]. lia.
Qed.

Lemma fill_dwords_ok k x i c :
  (i + 2 * k <= length x)%nat -> fill_dwords k x i c = over x i (replicate (2 * k) c).
Proof.
  revert x i; induction k as [|k IH]; intros x i Hl; cbn [fill_dwords].
  - by rewrite over_nil.
  - assert (<[S i := c]> (<[i := c]> x) = over x i [c; c]) as E.
    { rewrite (insert_over x i c) by lia. rewrite insert_over by (rewrite over_length; cbn [length]; lia).
      replace (S i) with (i + length [c])%nat by (cbn [length]; lia). apply over_over. cbn [length]. lia. }
    rewrite E, IH by (rewrite over_length; cbn [length]; lia).
    replace (i + 2)%nat with (i + length [c; c])%nat by (cbn [length]; lia).
    rewrite over_over by (rewrite length_replicate; cbn [length]; lia). f_equal.
    replace (2 * S k)%nat with (S (S (2 * k))) by lia. done.
Qed.

#[export] Instance scrolls_vga : Scrolls (Some vga_scroll) H W.
Proof.
  intros t Hr Hc (_ & _ & Hl). rewrite Hr, Hc in Hl. change (Z.to_nat (H * W)) with (25 * 80)%nat in Hl.
  cbn [term_scroll_up]. unfold vga_scroll, scrolled. rewrite Hc.
  change (Z.to_nat ((H - 1) * W / 2)) with (24 * 40)%nat. change (Z.to_nat (W / 2)) with 40%nat.
  change (Z.to_nat ((H - 1) * W)) with (24 * 80)%nat. change (Z.to_nat W) with 80%nat.
  rewrite copy_dwords_ok by lia. rewrite take_ge by (rewrite length_drop; lia). cbn [Nat.add].
  rewrite fill_dwords_ok by (rewrite over_length by (rewrite length_drop; lia); lia).
  replace (24 * 80)%nat with (length (cells t) - 80)%nat by lia.
  rewrite over_shift; [done|apply length_replicate|lia].
Qed.

(** the VGA console's word-at-a-time scroll is the terminal's cell-by-cell
    one on its 25 rows of 80: same plane, same marks, nothing else touched. *)
Theorem vga_scroll_correct t :
  rows t = H -> cols t = W -> length (cells t) = Z.to_nat (H * W) ->
  vga_scroll t = term_scroll_up None t.
Proof.
  intros Hr Hc Hl. assert (grid_ok t) as G by (unfold grid_ok; rewrite Hr, Hc; done).
  rewrite (scrolls_default H W t) by done. apply (scrolls_vga t); done.
Qed.

Lemma vga_scroll_correct_witness :
  vga_scroll (term0 25 80) = term_scroll_up None (term0 25 80).
Proof. apply vga_scroll_correct; reflexivity. Defined.

(** ** Invariant of a terminal *)

Definition attr_of (t : Term) : Z :=
  u8 (Z.lor (Z.lor (fg t + (if bright t then 8 else 0)) (Z.shiftl (bg t) 4)) (if blink t then 0x80 else 0)).

Definition is_cell (x : Z) : Prop := 0 <= x < 2 ^ 16.

(** The cursor is on the grid, or one past the end of its row. *)
Record term_ok (t : Term) : Prop := {
  ok_grid : grid_ok t;
  ok_cells : Forall is_cell (cells t);
  ok_row : 0 <= row t < rows t;
  ok_col : 0 <= col t <= cols t;
  ok_fg : 0 <= fg t < 8;
  ok_bg : 0 <= bg t < 8;
  ok_attr : attr t = attr_of t;
  ok_params : length (params t) = 8%nat;
  ok_bytes : bytes (params t);
  ok_nparams : 0 <= nparams t <= 8;
  ok_cur : 0 <= cur t <= 255;
  ok_parse : esc t = true -> csi t = false
}.

(** Every cell of rows 0 to 31 that differs is in a row marked dirty, and no mark is lost. *)
Definition marked (t t' : Term) : Prop :=
  rows t' = rows t /\ cols t' = cols t /\
  (forall r, 0 <= r < rows t -> r < 32 -> Z.testbit (dirty t) r = true -> Z.testbit (dirty t') r = true) /\
  (forall j, (j < length (cells t))%nat -> Z.of_nat j / cols t < 32 -> at_ (cells t') j <> at_ (cells t) j ->
             Z.testbit (dirty t') (Z.of_nat j / cols t) = true).

Definition fine (t : Term) (m : outcome Term) : Prop := exists t', m = Done t' /\ term_ok t' /\ marked t t'.

Lemma row_of_index t j : grid_ok t -> (j < length (cells t))%nat -> 0 <= Z.of_nat j / cols t < rows t.
Proof.
  intros (Hr & Hc & Hl) Hj. split; [apply Z.div_pos; lia|]. apply Z.div_lt_upper_bound; lia.
Qed.

Lemma all_rows_testbit t r : 0 <= r < rows t -> r < 32 -> Z.testbit (term_all_rows t) r = true.
Proof.
  intros Hr H32. unfold term_all_rows. bcase.
  - change 0xFFFFFFFF with (Z.ones 32). apply Z.ones_spec_low. lia.
  - rewrite Z.shiftl_1_l. unfold u32.
    rewrite Z.mod_small by (split; [apply Z.pow_nonneg; lia|apply Z.pow_lt_mono_r; lia]).
    rewrite Z.sub_1_r, <- Z.ones_equiv. apply Z.ones_spec_low. lia.
Qed.

Lemma marked_same t t' : rows t' = rows t -> cols t' = cols t -> dirty t' = dirty t -> cells t' = cells t -> marked t t'.
Proof. intros Hr Hc Hd Hx. unfold marked. rewrite Hd, Hx. repeat split; auto; done. Qed.

Lemma marked_all t t' :
  grid_ok t -> rows t' = rows t -> cols t' = cols t -> dirty t' = term_all_rows t -> marked t t'.
Proof.
  intros G Hr Hc Hd. unfold marked. rewrite Hd. repeat split; auto.
  - intros. by apply all_rows_testbit.
  - intros j Hj ? _. apply all_rows_testbit; [by apply row_of_index|done].
Qed.

Lemma mark_testbit t r k : 0 <= k -> Z.testbit (dirty t) k = true -> Z.testbit (dirty (term_mark t r)) k = true.
Proof.
  intros Hk Hd. unfold term_mark. bcase; [|done]. cbn [dirty set_dirty]. by rewrite Z.lor_spec, Hd.
Qed.

Lemma mark_row t r : 0 <= r < rows t -> r < 32 -> Z.testbit (dirty (term_mark t r)) r = true.
Proof.
  intros Hr H32. unfold term_mark. destruct (_ && _) eqn:E; [|by lia].
  cbn [dirty set_dirty]. rewrite Z.lor_spec, Z.shiftl_1_l, Z.pow2_bits_true, orb_true_r by lia. done.
Qed.

(** A run of cells inside row [r], with the row marked. *)
Lemma marked_over t t' i ys r :
  grid_ok t -> 0 <= r < rows t -> r * cols t <= Z.of_nat i -> Z.of_nat i + Z.of_nat (length ys) <= (r + 1) * cols t ->
  rows t' = rows t -> cols t' = cols t -> cells t' = over (cells t) i ys -> dirty t' = dirty (term_mark t r) ->
  marked t t'.
Proof.
  intros (Gr & Gc & Gl) Hr H1 H2 Er Ec Ex Ed. unfold marked. rewrite Ed, Ex. repeat split; auto.
  - intros k Hk _ Hd. by apply mark_testbit; [lia|].
  - intros j Hj H32 Hne. rewrite at_over in Hne by nia. case_decide as E; [|done].
    assert (Z.of_nat j / cols t = r) as Ej by (symmetry; apply Z.div_unique with (Z.of_nat j - r * cols t); lia).
    rewrite Ej in *. by apply mark_row.
Qed.

#[export] Instance marked_refl : Reflexive marked.
Proof. intros t. by apply marked_same. Qed.

Lemma marked_trans t1 t2 t3 :
  grid_ok t1 -> length (cells t2) = length (cells t1) -> marked t1 t2 -> marked t2 t3 -> marked t1 t3.
Proof.
  intros G Hl (R1 & C1 & D1 & X1) (R2 & C2 & D2 & X2). unfold marked. rewrite R2, C2, R1, C1 in *.
  repeat split; auto.
  intros j Hj H32 Hne. destruct (decide (at_ (cells t2) j = at_ (cells t1) j)) as [E|E].
  - apply X2; [lia|done|congruence].
  - apply D2; [by apply row_of_index|done|]. by apply X1.
Qed.

(** *** Preservation, setter by setter *)

Lemma cells_over x i ys : Forall is_cell x -> Forall is_cell ys -> Forall is_cell (over x i ys).
Proof. intros Hx Hy. unfold over. rewrite !Forall_app. auto using Forall_take, Forall_drop. Qed.

Lemma cell_of_cell c a : is_u8 c -> is_u8 a -> is_cell (cell_of c a).
Proof.
  unfold is_u8, is_cell, cell_of. intros Hc Ha. rewrite or_shift by lia.
  change (2 ^ 8) with 256 in *. change (2 ^ 16) with 65536. lia.
Qed.

Lemma ok_attr_u8 t : term_ok t -> is_u8 (attr t).
Proof. intros Hok. rewrite (ok_attr _ Hok). apply u8_range. Qed.

Lemma blank_cell t : term_ok t -> is_cell (term_blank t).
Proof. intros Hok. apply cell_of_cell; [unfold is_u8; lia|by apply ok_attr_u8]. Qed.

Lemma ok_set_cells t y : term_ok t -> length y = length (cells t) -> Forall is_cell y -> term_ok (set_cells y t).
Proof. intros [] Hl Hy. unfold grid_ok in *. constructor; cbn; auto. unfold grid_ok. cbn. by rewrite Hl. Qed.

Lemma ok_set_pos t r c : term_ok t -> 0 <= r < rows t -> 0 <= c <= cols t -> term_ok (set_pos r c t).
Proof. intros [] Hr Hc. constructor; auto. Qed.

Lemma ok_moved t : term_ok t -> term_ok (moved t).
Proof. intros []. constructor; auto. Qed.

Lemma ok_set_dirty t d : term_ok t -> term_ok (set_dirty d t).
Proof. intros []. constructor; auto. Qed.

Lemma ok_mark t r : term_ok t -> term_ok (term_mark t r).
Proof. intros Hok. unfold term_mark. bcase; auto using ok_set_dirty. Qed.

Lemma ok_set_parse t e c p n k :
  term_ok t -> length p = 8%nat -> bytes p -> 0 <= n <= 8 -> 0 <= k <= 255 -> (e = true -> c = false) ->
  term_ok (set_parse e c p n k t).
Proof. intros [] **. constructor; auto. Qed.

Lemma over_ok t i ys :
  term_ok t -> (i + length ys <= length (cells t))%nat -> Forall is_cell ys -> term_ok (set_cells (over (cells t) i ys) t).
Proof. intros Hok Hl Hy. apply ok_set_cells; auto using over_length. apply cells_over; auto using ok_cells. Qed.

#[local] Hint Resolve ok_moved ok_set_dirty ok_mark ok_grid blank_cell : vnu.

Lemma fine_done t t' : term_ok t' -> marked t t' -> fine t (Done t').
Proof. intros. by exists t'. Qed.

Lemma ok_length t t' : term_ok t -> term_ok t' -> marked t t' -> length (cells t') = length (cells t).
Proof. intros [(_ & _ & E) ] [(_ & _ & E') ] (R & C & _). by rewrite E, E', R, C. Qed.

Lemma fine_bind t m k :
  term_ok t -> fine t m -> (forall t', term_ok t' -> marked t t' -> fine t' (k t')) -> fine t (let* t' := m in k t').
Proof.
  intros Hok (t1 & -> & Hok1 & Hm1) Hk. destruct (Hk t1 Hok1 Hm1) as (t2 & E & Hok2 & Hm2).
  exists t2. split; [exact E|]. split; [done|]. apply (marked_trans t t1 t2); auto using ok_grid. by apply ok_length.
Qed.

Lemma fine_moved t m : term_ok t -> fine t m -> fine t (let* t' := m in Done (moved t')).
Proof.
  intros Hok Hm. apply fine_bind; auto. intros t' Hok' _. apply fine_done; [by apply ok_moved|by apply marked_same].
Qed.

(** [ys] stored at column [c] of row [r], and the row marked. *)
Lemma fine_row t r c ys :
  term_ok t -> 0 <= r < rows t -> 0 <= c -> c + Z.of_nat (length ys) <= cols t -> Forall is_cell ys ->
  fine t (Done (term_mark (set_cells (over (cells t) (Z.to_nat (r * cols t + c)) ys) t) r)).
Proof.
  intros Hok Hr Hc Hl Hy. destruct (ok_grid t Hok) as (G1 & G2 & G3). apply fine_done.
  - apply ok_mark, over_ok; auto. nia.
  - eapply (marked_over t _ (Z.to_nat (r * cols t + c)) ys r); auto with vnu; try nia.
    all: unfold term_mark; cbn [rows cols dirty set_cells]; bcase; reflexivity.
Qed.

Lemma in_row t r c : grid_ok t -> 0 <= r < rows t -> 0 <= c < cols t -> 0 <= r * cols t + c < Z.of_nat (length (cells t)).
Proof. intros (G1 & G2 & G3) Hr Hc. rewrite G3. nia. Qed.

Lemma set_cursor_fine t r c : term_ok t -> fine t (Done (term_set_cursor t r c)).
Proof.
  intros Hok. destruct (ok_grid t Hok) as (G1 & G2 & _). apply fine_done; [|by apply marked_same].
  apply ok_moved, ok_set_pos; [done|unfold clamp; repeat bcase; lia..].
Qed.

(** The columns [term_erase_line] blanks are in the row, except the one past its end in mode 1. *)
Lemma erase_line_fine t mode : term_ok t -> ~ (mode = 1 /\ col t = cols t) -> fine t (term_erase_line t mode).
Proof.
  intros Hok Hne. pose proof (ok_row t Hok). pose proof (ok_col t Hok). destruct (ok_grid t Hok) as (G1 & G2 & G3).
  unfold term_erase_line.
  set (from := if mode =? 0 then col t else 0).
  set (to := if mode =? 0 then cols t - 1 else if mode =? 1 then col t else cols t - 1).
  assert (0 <= from <= cols t /\ to < cols t /\ from <= to + 1) as (? & ? & ?) by (subst from to; repeat bcase; lia).
  rewrite fill_ok by nia. cbn [obind]. change (row (set_cells _ t)) with (row t).
  apply fine_row; auto; [lia|rewrite length_replicate; lia|apply Forall_replicate, blank_cell; auto].
Qed.

(** A fill that stays in the grid keeps the invariant. *)
Lemma fill_inv k t i v :
  term_ok t -> is_cell v -> 0 <= i -> i + Z.of_nat k <= rows t * cols t ->
  exists x, fill k t i v = Done (set_cells x t) /\ term_ok (set_cells x t).
Proof.
  intros Hok Hv Hi Hl. destruct (ok_grid t Hok) as (G1 & G2 & G3). eexists. split; [apply fill_ok; nia|].
  apply over_ok; [done|rewrite length_replicate; nia|by apply Forall_replicate].
Qed.

Lemma fill_rows_inv k t r v :
  term_ok t -> is_cell v -> 0 <= r -> r + Z.of_nat k <= rows t ->
  exists x, fill_rows k t r v = Done (set_cells x t) /\ term_ok (set_cells x t).
Proof.
  intros Hok Hv Hi Hl. destruct (ok_grid t Hok) as (G1 & G2 & G3). eexists. split; [apply fill_rows_ok; nia|].
  apply over_ok; [done|rewrite length_replicate; nia|by apply Forall_replicate].
Qed.

Lemma erase_display_fine t mode : term_ok t -> fine t (term_erase_display t mode).
Proof.
  intros Hok. pose proof (ok_row t Hok). pose proof (ok_col t Hok). destruct (ok_grid t Hok) as (G1 & G2 & G3).
  pose proof (blank_cell t Hok) as Hb. unfold term_erase_display.
  assert (forall t', term_ok t' -> rows t' = rows t -> cols t' = cols t ->
            fine t (Done (moved (set_dirty (term_all_rows t') t')))) as Last.
  { intros t' Hok' Er Ec. apply fine_done; [auto with vnu|]. apply marked_all; auto with vnu.
    cbn [dirty moved set_dirty]. unfold term_all_rows. by rewrite Er. }
  repeat bcase.
  - destruct (fill_rows_inv (Z.to_nat (rows t)) t 0 (term_blank t)) as (x & -> & Hx); auto; [lia..|].
    cbn [obind]. apply Last; auto. apply ok_set_pos; cbn; auto; lia.
  - destruct (fill_rows_inv (Z.to_nat (row t)) t 0 (term_blank t)) as (x & -> & Hx); auto; [lia..|]. cbn [obind].
    destruct (fill_inv (Z.to_nat (Z.min (col t + 1) (cols t))) (set_cells x t) (row t * cols t) (term_blank t))
      as (y & E2 & Hy); auto; cbn [rows cols set_cells]; [nia..|]. cbn [row col cols set_cells]. rewrite E2.
    cbn [obind]. by apply Last.
  - destruct (fill_inv (Z.to_nat (cols t - col t)) t (row t * cols t + col t) (term_blank t)) as (x & -> & Hx); auto; [nia..|].
    cbn [obind]. destruct (fill_rows_inv (Z.to_nat (rows t - (row t + 1))) (set_cells x t) (row t + 1) (term_blank t))
      as (y & E2 & Hy); auto; cbn [rows set_cells]; [lia..|]. cbn [row rows set_cells]. rewrite E2.
    cbn [obind]. by apply Last.
Qed.

Lemma bytes_insert p i x : bytes p -> is_u8 x -> bytes (<[i := x]> p).
Proof. intros Hp Hx. by apply Forall_insert. Qed.

Lemma push_param_ok t : term_ok t -> term_ok (push_param t).
Proof.
  intros Hok. destruct Hok eqn:E; clear E. unfold push_param. bcase; apply ok_set_parse; auto; try lia.
  - by rewrite length_insert.
  - apply bytes_insert; auto using u8_range.
Qed.

Lemma push_param_marked t : marked t (push_param t).
Proof. unfold push_param. bcase; by apply marked_same. Qed.

Lemma ansi_to_pc_range a : 0 <= term_ansi_to_pc a < 8.
Proof.
  unfold term_ansi_to_pc. change (Z.land a 7) with (Z.land a (Z.ones 3)). rewrite Z.land_ones by lia.
  pose proof (Z.mod_pos_bound a (2 ^ 3) ltac:(lia)) as Hb. revert Hb. generalize (a mod 2 ^ 3). intros x Hx.
  change (2 ^ 3) with 8 in Hx.
  assert (x = 0 \/ x = 1 \/ x = 2 \/ x = 3 \/ x = 4 \/ x = 5 \/ x = 6 \/ x = 7) as Hc by lia.
  repeat destruct Hc as [-> | Hc]; subst; split; by vm_compute.
Qed.

Definition colours_ok (s : Z * Z * bool * bool) : Prop := let '(f, b, _, _) := s in 0 <= f < 8 /\ 0 <= b < 8.

Lemma sgr_fold_ok ps s : colours_ok s -> colours_ok (fold_left sgr_step ps s).
Proof.
  revert s; induction ps as [|p ps IH]; intros [[[f b] br] bl] Hs; [done|]. apply IH.
  unfold colours_ok, sgr_step in *. repeat bcase; split; auto using ansi_to_pc_range; try lia; apply Hs.
Qed.

Lemma sgr_fine t p n : term_ok t -> fine t (Done (term_sgr t p n)).
Proof.
  intros Hok. unfold term_sgr. pose proof (sgr_fold_ok (take (Z.to_nat n) p) (fg t, bg t, bright t, blink t)) as Hf.
  destruct (fold_left _ _ _) as [[[f b] br] bl]. destruct Hf as [Hf Hb]; [split; [apply (ok_fg t Hok)|apply (ok_bg t Hok)]|].
  apply fine_done; [|by apply marked_same]. destruct Hok. constructor; auto.
Qed.

(** The one byte that writes past a row: the [K] of [ESC\[1K] with the cursor one past the end. *)
Definition overruns (t : Term) (c : Z) : bool :=
  negb (esc t) && csi t && (schar c =? chr "K") && (col t =? cols t) && (term_param (push_param t) 0 0 =? 1).

Lemma csi_prefix_ok t :
  term_ok t -> let t1 := push_param t in fine t (Done (set_parse (esc t1) false (params t1) (nparams t1) (cur t1) t1)).
Proof.
  intros Hok t1. assert (term_ok t1) as Hok1 by (by apply push_param_ok). assert (marked t t1) as Hm by apply push_param_marked.
  apply fine_done; [destruct Hok1 eqn:E; clear E; by apply ok_set_parse|].
  apply (marked_trans t t1); auto using ok_grid; [by apply ok_length|by apply marked_same].
Qed.

Lemma fine_trans t t1 m : term_ok t -> fine t (Done t1) -> (term_ok t1 -> fine t1 m) -> fine t m.
Proof.
  intros Hok (t1' & [= <-] & Hok1 & Hm) Hf. destruct (Hf Hok1) as (t2 & -> & Hok2 & Hm2).
  apply fine_done; [done|]. apply (marked_trans t t1); auto using ok_grid. by apply ok_length.
Qed.

Lemma csi_fine t final :
  term_ok t -> ~ (final = chr "K" /\ col t = cols t /\ term_param (push_param t) 0 0 = 1) -> fine t (term_csi t final).
Proof.
  intros Hok Hne. unfold term_csi. pose proof (csi_prefix_ok t Hok) as Hp. cbv zeta in Hp.
  assert (col (push_param t) = col t /\ cols (push_param t) = cols t) as [Ec Ew] by (unfold push_param; bcase; done).
  set (t2 := set_parse _ _ _ _ _ (push_param t)) in *.
  assert (~ (final = chr "K" /\ col t2 = cols t2 /\ term_param t2 0 0 = 1)) as Hne2.
  { change (col t2) with (col (push_param t)). change (cols t2) with (cols (push_param t)). by rewrite Ec, Ew. }
  apply (fine_trans t t2); auto. clearbody t2. intros Hok2.
  destruct (final =? chr "m"); [by apply sgr_fine|].
  destruct (_ || _); [by apply set_cursor_fine|].
  do 6 (destruct (final =? _); [by apply set_cursor_fine|]).
  destruct (final =? chr "J"); [by apply erase_display_fine|].
  destruct (final =? chr "K") eqn:E; bprop; [|by apply fine_done].
  apply erase_line_fine; auto. intros [? ?]. by apply Hne2.
Qed.

Section ConsoleSafe.
Context (on_scroll : option (Term -> outcome Term)) (R C : Z) `{!Scrolls on_scroll R C}.

Lemma scroll_run t r c :
  rows t = R -> cols t = C -> grid_ok t -> term_scroll_up on_scroll (set_pos r c t) = Done (set_pos r c (scrolled t)).
Proof. intros HR HC G. by rewrite (scrolls (set_pos r c t) HR HC G). Qed.

Lemma scrolled_fine t : term_ok t -> fine t (Done (scrolled t)).
Proof.
  intros Hok. destruct (ok_grid t Hok) as (G1 & G2 & G3). apply fine_done; [|by apply marked_all; auto with vnu].
  unfold scrolled. apply ok_set_dirty, ok_set_cells; [done| |].
  - rewrite length_app, length_drop, length_replicate. nia.
  - apply Forall_app. split; [apply Forall_drop, ok_cells; done|apply Forall_replicate; by apply blank_cell].
Qed.

(** The new line: the next row, or a scrolled grid. *)
Lemma next_line_run t :
  rows t = R -> cols t = C -> grid_ok t ->
  next_line on_scroll t =
    Done (if rows t <=? row t + 1 then set_pos (rows t - 1) 0 (scrolled t) else set_pos (row t + 1) 0 t).
Proof.
  intros HR HC G. unfold next_line. cbn [rows row set_pos]. bcase; [|done]. by rewrite scroll_run.
Qed.

Lemma next_line_fine t : rows t = R -> cols t = C -> term_ok t -> fine t (next_line on_scroll t).
Proof.
  intros HR HC Hok. pose proof (ok_row t Hok). destruct (ok_grid t Hok) as (G1 & G2 & _).
  rewrite next_line_run by auto with vnu. bcase.
  - apply (fine_trans t (scrolled t)); auto using scrolled_fine. intros Hok'.
    apply fine_done; [|by apply marked_same]. apply ok_set_pos; cbn; auto; lia.
  - apply fine_done; [|by apply marked_same]. apply ok_set_pos; auto; lia.
Qed.

Lemma put_char_at t c :
  term_ok t -> col t < cols t -> is_u8 c ->
  fine t (let* t := poke t (row t * cols t + col t) (cell_of c (attr t)) in
          let t := term_mark t (row t) in Done (moved (set_pos (row t) (col t + 1) t))).
Proof.
  intros Hok Hlt Hc. pose proof (ok_row t Hok). pose proof (ok_col t Hok).
  rewrite poke_ok by (apply in_row; auto with vnu; lia). cbn [obind]. cbv zeta.
  set (t1 := term_mark _ _). assert (fine t (Done t1)) as Hf.
  { subst t1. change (row (set_cells _ t)) with (row t).
    apply fine_row; auto; [lia|cbn [length]; lia|]. constructor; [|done]. apply cell_of_cell; auto using ok_attr_u8. }
  assert (row t1 = row t /\ col t1 = col t /\ rows t1 = rows t /\ cols t1 = cols t) as (E1 & E2 & E3 & E4).
  { subst t1. unfold term_mark. bcase; done. }
  apply (fine_trans t t1); auto. clearbody t1. intros Hok1.
  apply fine_done; [|by apply marked_same]. apply ok_moved, ok_set_pos; auto; lia.
Qed.

Lemma put_char_fine t c : rows t = R -> cols t = C -> term_ok t -> is_u8 c -> fine t (put_char on_scroll t c).
Proof.
  intros HR HC Hok Hc. pose proof (ok_row t Hok). pose proof (ok_col t Hok). destruct (ok_grid t Hok) as (G1 & G2 & _).
  unfold put_char. bcase; [|by apply put_char_at].
  rewrite next_line_run by auto with vnu. cbn [obind]. pose proof (next_line_fine t HR HC Hok) as Hf.
  rewrite next_line_run in Hf by auto with vnu. set (t1 := if _ <=? row t + 1 then _ else _) in *.
  assert (col t1 = 0 /\ cols t1 = cols t) as [E1 E2] by (subst t1; bcase; done).
  apply (fine_trans t t1); auto. intros Hok1. apply put_char_at; auto. lia.
Qed.

Lemma bs_cell_fine t r c :
  term_ok t -> 0 <= r < rows t -> 0 <= c < cols t -> fine t (bs_cell (set_pos r c t)).
Proof.
  intros Hok Hr Hc. assert (term_ok (set_pos r c t)) as Hok' by (apply ok_set_pos; auto; lia).
  apply (fine_trans t (set_pos r c t)); auto; [apply fine_done; [done|by apply marked_same]|]. intros _.
  unfold bs_cell. bcase; [|apply fine_done; [done|by apply marked_same]]. set (t1 := set_pos r c t) in *.
  rewrite poke_ok by (apply in_row; auto with vnu). cbn [obind]. change (row (set_cells _ t1)) with (row t1).
  apply fine_row; auto; [cbn; lia|cbn; lia|]. constructor; [by apply blank_cell|done].
Qed.

(** A terminal that has only changed its parser. *)
Lemma parse_fine t e c p n k :
  term_ok t -> length p = 8%nat -> bytes p -> 0 <= n <= 8 -> 0 <= k <= 255 -> (e = true -> c = false) ->
  fine t (Done (moved (set_parse e c p n k t))).
Proof. intros. apply fine_done; [by apply ok_moved, ok_set_parse|by apply marked_same]. Qed.

Lemma csi_byte_fine d t c :
  rows t = R -> cols t = C -> term_ok t -> esc t = false -> csi t = true -> overruns t c = false ->
  fine t (term_putc_at on_scroll d t c).
Proof.
  intros HR HC Hok He Hc Ho. assert (term_ok t) as [_ _ Hr Hk _ _ _ Hl Hb Hn Hcur Hp] by done.
  unfold overruns in Ho. rewrite He, Hc in Ho.
  destruct d; cbn [term_putc_at]; rewrite He, Hc; repeat bcase; cbn [obind].
  all: try (apply parse_fine; auto; try lia; done).
  1,3: apply fine_done; [by apply ok_moved, push_param_ok|];
    apply (marked_trans t (push_param t)); auto using ok_grid, push_param_marked;
    [apply ok_length; auto using push_param_ok, push_param_marked|by apply marked_same].
  all: apply fine_moved; auto; apply csi_fine; auto; rewrite u8_id by (unfold is_u8; lia); intros (F1 & F2 & F3);
    rewrite F1, F2, F3, !Z.eqb_refl in Ho; discriminate Ho.
Qed.

Lemma byte_fine d t c :
  rows t = R -> cols t = C -> term_ok t -> schar c <> 9 -> overruns t c = false ->
  fine t (term_putc_at on_scroll d t c).
Proof.
  intros HR HC Hok H9 Ho. destruct (esc t) eqn:He.
  { assert (term_ok t) as [_ _ Hr Hk _ _ _ Hl Hb Hn Hcur Hp] by done.
    destruct d; cbn [term_putc_at]; rewrite He; bcase; apply parse_fine; auto; try lia; done. }
  destruct (csi t) eqn:Hc; [by apply csi_byte_fine|].
  assert (term_ok t) as [(G1 & G2 & _) _ Hr Hk _ _ _ Hl Hb Hn Hcur Hp] by done.
  destruct d; cbn [term_putc_at]; rewrite He, Hc; repeat (lazymatch goal with |- context [schar c =? ?k] => destruct (schar c =? k) eqn:?; bprop end; try lia).
  all: try (apply parse_fine; auto; try lia; done).
  all: try (apply fine_moved; auto; by apply next_line_fine).
  all: try (apply fine_done; [apply ok_moved, ok_set_pos; auto; lia|by apply marked_same]).
  all: try (by apply put_char_fine; auto using u8_range).
  all: apply fine_moved; auto; repeat bcase; [apply bs_cell_fine; auto; lia|apply bs_cell_fine; auto; lia|].
  all: by apply fine_done.
Qed.

Lemma repeat_fine n step t :
  rows t = R -> cols t = C -> term_ok t ->
  (forall t, rows t = R -> cols t = C -> term_ok t -> fine t (step t)) -> fine t (repeat_step n step t).
Proof.
  intros HR HC Hok Hs. revert t HR HC Hok; induction n as [|n IH]; intros t HR HC Hok; cbn [repeat_step]; [by apply fine_done|].
  apply fine_bind; auto. intros t' Hok' (E1 & E2 & _). apply IH; congruence.
Qed.

(** Any byte, a tab included, unless it overruns. *)
Lemma putc_fine t c :
  rows t = R -> cols t = C -> term_ok t -> overruns t c = false -> fine t (term_putc on_scroll t c).
Proof.
  intros HR HC Hok Ho. unfold term_putc. destruct (decide (schar c = 9)) as [E9|]; [|by apply byte_fine].
  destruct (esc t) eqn:He.
  { assert (term_ok t) as [_ _ Hr Hk _ _ _ Hl Hb Hn Hcur Hp] by done. cbn [term_putc_at]. rewrite He, E9.
    apply parse_fine; auto; lia. }
  destruct (csi t) eqn:Hc; [by apply csi_byte_fine|].
  cbn [term_putc_at]. rewrite He, Hc, E9.
  apply repeat_fine; auto. intros t' HR' HC' Hok'. apply (byte_fine 0); auto.
  unfold overruns. change (schar 32 =? chr "K") with false. by rewrite andb_false_r, !andb_false_l.
Qed.

(** ** Escape sequences in the ground state *)

Lemma write_app t s s' : term_write on_scroll t (s ++ s') = (let* t := term_write on_scroll t s in term_write on_scroll t s').
Proof.
  revert t; induction s as [|c s IH]; intros t; [done|]. cbn [app term_write].
  destruct (term_putc on_scroll t c); cbn [obind]; auto.
Qed.

Definition sat (v : Z) : Z := Z.min v 255.

(** Digits accumulate in [cur], up to 255. *)
Lemma write_digits t ds v :
  esc t = false -> csi t = true -> cur t = sat v -> 0 <= v -> Forall (fun c => 48 <= c <= 57) ds ->
  exists m, term_write on_scroll t ds = Done (set_parse false true (params t) (nparams t) (sat (dec_val v ds)) (if m : bool then moved t else t)).
Proof.
  intros He Hc Hv Hp Hd. revert t v He Hc Hv Hp; induction Hd as [|d ds Hd Hds IH]; intros t v He Hc Hv Hp.
  - exists false. cbn [term_write dec_val fold_left]. rewrite <- He, <- Hc at 1. unfold dec_val. cbn [fold_left]. rewrite <- Hv. by destruct t.
  - exists true. cbn [term_write]. unfold term_putc. cbn [term_putc_at].
    assert (schar d = d) as -> by (unfold schar; rewrite Z.mod_small; lia). rewrite He, Hc.
    rewrite (proj2 (Z.leb_le 48 d)), (proj2 (Z.leb_le d 57)) by lia. cbn [andb obind].
    edestruct (IH (moved (set_parse false true (params t) (nparams t) (sat (v * 10 + (d - 48))) t)) (v * 10 + (d - 48))) as [m E]; auto; [lia|].
    assert ((if 255 <? cur t * 10 + (d - 48) then 255 else cur t * 10 + (d - 48)) = sat (v * 10 + (d - 48))) as ->
      by (rewrite Hv; unfold sat; bcase; lia).
    rewrite E. cbn [params nparams moved set_parse]. unfold dec_val. cbn [fold_left]. by destruct m.
Qed.

Lemma push_some cap buf c : Z.of_nat (length buf) + 1 < cap -> push cap buf c = Some (buf ++ [c]).
Proof. intros Hl. unfold push. bcase; [lia|done]. Qed.

(** The digits [tnu_goto] writes for a number of up to three of them. *)
Lemma goto_digits_value cap buf v :
  0 <= v < 1000 -> Z.of_nat (length buf) + 3 < cap ->
  exists ds, goto_digits cap [100; 10; 1] buf v false = Some (buf ++ ds) /\ (length ds <= 3)%nat /\
             Forall (fun c => 48 <= c <= 57) ds /\ dec_val 0 ds = v.
Proof.
  intros Hv Hl. cbn [goto_digits]. change (100 =? 1) with false. change (10 =? 1) with false. change (1 =? 1) with true.
  rewrite !Z.div_1_r. rewrite !orb_false_r, !orb_true_r.
  pose proof (Z_div_mod_eq_full v 10). pose proof (Z_div_mod_eq_full (v / 10) 10).
  replace (v / 100) with (v / 10 / 10) by (rewrite Z.div_div by lia; done).
  pose proof (Z.mod_pos_bound v 10 ltac:(lia)). pose proof (Z.mod_pos_bound (v / 10) 10 ltac:(lia)).
  rewrite (Z.mod_small (v / 10 / 10)) by lia.
  set (a := v / 10 / 10) in *. set (b := (v / 10) mod 10) in *. set (c := v mod 10) in *.
  repeat bcase; rewrite ?orb_true_r in *; try discriminate.
  all: repeat (rewrite push_some by (rewrite ?length_app; cbn [length]; lia); cbn [mbind option_bind]); rewrite <- ?app_assoc; cbn [app].
  all: eexists; split; [reflexivity|]; split; [cbn; lia|]; split; [repeat constructor; lia|unfold dec_val; cbn [fold_left]; lia].
Qed.

Definition ground (t : Term) : Prop := esc t = false /\ csi t = false.

(** [ESC \[] and a first parameter. *)
Lemma write_csi t ds :
  ground t -> Forall (fun c => 48 <= c <= 57) ds ->
  term_write on_scroll t (27 :: chr "[" :: ds) =
    Done (moved (set_parse false true (params t) 0 (sat (dec_val 0 ds)) t)).
Proof.
  intros [He Hc] Hd. cbn [term_write]. unfold term_putc. cbn [term_putc_at]. rewrite He, Hc. cbn [obind].
  change (schar (chr "[") =? chr "[") with true. cbv iota.
  edestruct (write_digits (moved (set_parse false true (params t) 0 0 t)) ds 0) as [m E]; auto; [done..|].
  destruct m; exact E.
Qed.

(** [;] and one more parameter. *)
Lemma write_next_param t ds :
  esc t = false -> csi t = true -> nparams t < 8 -> Forall (fun c => 48 <= c <= 57) ds ->
  term_write on_scroll t (chr ";" :: ds) =
    Done (moved (set_parse false true (<[Z.to_nat (nparams t) := u8 (cur t)]> (params t)) (nparams t + 1) (sat (dec_val 0 ds)) t)).
Proof.
  intros He Hc Hn Hd. cbn [term_write]. unfold term_putc. cbn [term_putc_at]. rewrite He, Hc.
  change (schar (chr ";")) with 59. cbn [Z.leb Z.compare Pos.compare Pos.compare_cont andb].
  change (59 =? chr ";") with true. cbv iota. cbn [obind]. unfold push_param.
  rewrite (proj2 (Z.ltb_lt (nparams t) 8)) by lia. rewrite He, Hc.
  edestruct (write_digits (moved (set_parse false true (<[Z.to_nat (nparams t):=u8 (cur t)]> (params t)) (nparams t + 1) 0 t)) ds 0)
    as [m E]; auto; [done..|]. rewrite E. by destruct m.
Qed.

Lemma write_final t :
  esc t = false -> csi t = true ->
  term_write on_scroll t [chr "H"] = (let* t := term_csi t (chr "H") in Done (moved t)).
Proof.
  intros He Hc. cbn [term_write]. unfold term_putc. cbn [term_putc_at]. rewrite He, Hc.
  change (schar (chr "H")) with 72. cbn [Z.leb Z.compare Pos.compare Pos.compare_cont andb].
  change (72 =? chr ";") with false. change (72 =? 27) with false. cbv iota. change (u8 72) with (chr "H").
  destruct (term_csi t (chr "H")); reflexivity.
Qed.

Lemma csi_H t p0 p1 :
  esc t = false -> length (params t) = 8%nat -> nparams t = 1 -> at_ (params t) 0 = u8 p0 -> cur t = p1 -> is_u8 p0 -> is_u8 p1 ->
  term_csi t (chr "H") =
    Done (term_set_cursor (set_parse false false (<[1%nat := p1]> (params t)) 2 0 t)
            ((if p0 =? 0 then 1 else p0) - 1) ((if p1 =? 0 then 1 else p1) - 1)).
Proof.
  intros He Hl Hn H0 H1 U0 U1. unfold term_csi, push_param. rewrite Hn. change (1 <? 8) with true. cbv iota.
  rewrite H1, (u8_id p1 U1), He. change (chr "H" =? chr "m") with false.
  change ((chr "H" =? chr "H") || (chr "H" =? chr "f")) with true. cbv iota.
  change (Z.to_nat 1) with 1%nat. change (1 + 1) with 2.
  unfold term_param. cbn [params nparams set_parse]. rewrite !at_insert by lia.
  case_decide; [lia|]. case_decide; [|lia]. rewrite H0, (u8_id p0 U0).
  change (Z.of_nat 0 <? 2) with true. change (Z.of_nat 1 <? 2) with true. cbn [andb].
  by destruct (p0 =? 0), (p1 =? 0).
Qed.

Lemma sat_u8 v : 0 <= v -> is_u8 (sat v).
Proof. unfold is_u8, sat. lia. Qed.

Lemma goto_bytes cap r c :
  0 <= r < 1000 -> 0 <= c < 1000 -> 11 <= cap ->
  exists d1 d2, tnu_goto cap r c = (27 :: chr "[" :: d1) ++ (chr ";" :: d2) ++ [chr "H"] /\
    Forall (fun c => 48 <= c <= 57) d1 /\ dec_val 0 d1 = r /\ Forall (fun c => 48 <= c <= 57) d2 /\ dec_val 0 d2 = c.
Proof.
  intros Hr Hc Hcap. destruct (goto_digits_value cap [27; chr "["] r Hr) as (d1 & E1 & L1 & D1 & V1); [cbn; lia|].
  destruct (goto_digits_value cap (([27; chr "["] ++ d1) ++ [chr ";"]) c Hc) as (d2 & E2 & L2 & D2 & V2);
    [rewrite !length_app; cbn [length]; lia|].
  exists d1, d2. split; [|done]. unfold tnu_goto. bcase; [lia|]. rewrite E1. cbn [mbind option_bind].
  rewrite push_some by (rewrite length_app; cbn [length]; lia). cbn [mbind option_bind]. rewrite E2. cbn [mbind option_bind].
  rewrite push_some by (rewrite !length_app; cbn [length]; lia). cbn [default]. by rewrite <- !app_assoc.
Qed.

Lemma clamp_sat v n : 0 <= v -> 0 < n <= 255 -> clamp ((if sat v =? 0 then 1 else sat v) - 1) n = clamp (v - 1) n.
Proof. intros Hv Hn. unfold clamp, sat. destruct (Z.eqb_spec (Z.min v 255) 0); repeat bcase; lia. Qed.

(** What the library's cursor sequence does to a terminal in the ground state. *)
Lemma goto_run t cap r c :
  term_ok t -> ground t -> rows t <= 255 -> cols t <= 255 -> 0 <= r < 1000 -> 0 <= c < 1000 -> 11 <= cap ->
  exists p, term_write on_scroll t (tnu_goto cap r c) =
    Done (moved (set_pos (clamp (r - 1) (rows t)) (clamp (c - 1) (cols t)) (set_parse false false p 2 0 t))) /\
    length p = 8%nat /\ bytes p.
Proof.
  intros Hok [He Hc] HR HC Hr Hcc Hcap. destruct (ok_grid t Hok) as (G1 & G2 & _). pose proof (ok_params t Hok) as Hl.
  destruct (goto_bytes cap r c Hr Hcc Hcap) as (d1 & d2 & -> & D1 & V1 & D2 & V2).
  rewrite write_app, write_csi by done. cbn [obind]. rewrite write_app, write_next_param by done. cbn [obind].
  rewrite write_final by done. cbn [params nparams cur moved set_parse]. rewrite V1, V2.
  rewrite (csi_H _ (sat r) (sat c)); cbn [params nparams cur moved set_parse]; auto using sat_u8.
  - cbn [obind]. exists (<[1%nat := sat c]> (<[Z.to_nat 0 := u8 (sat r)]> (params t))). unfold term_set_cursor. cbn [rows cols moved set_parse].
    rewrite !clamp_sat by lia. split; [reflexivity|].
    rewrite !length_insert. split; [done|]. apply bytes_insert; [apply bytes_insert|]; [apply (ok_bytes t Hok)|apply u8_range|apply sat_u8; lia].
  - by rewrite length_insert.
  - change (Z.to_nat 0) with 0%nat. rewrite at_insert by lia. by case_decide.
  - apply sat_u8; lia.
  - apply sat_u8; lia.
Qed.

(** The bytes that are simply shown. *)
Definition plain (c : Z) : Prop := is_u8 c /\ ~ In (schar c) [27; 10; 13; 8; 9].

(** For closed strings. *)
Lemma plain_closed s :
  forallb (fun c => (0 <=? c) && (c <? 256) && negb (existsb (Z.eqb (schar c)) [27; 10; 13; 8; 9])) s = true -> Forall plain s.
Proof.
  intros E. apply Forall_forall. intros c Hc%list_elem_of_In. eapply forallb_forall in E; [|exact Hc]. cbv beta in E.
  rewrite !andb_true_iff, negb_true_iff in E. destruct E as [[E1 E2] E3]. split; [unfold is_u8; lia|].
  intros Hin. apply not_true_iff_false in E3. apply E3, existsb_exists. exists (schar c). split; [exact Hin|apply Z.eqb_refl].
Qed.

Lemma putc_plain t c :
  ground t -> plain c -> term_putc on_scroll t c = put_char on_scroll t c.
Proof.
  intros [He Hc] [Hu Hp]. unfold term_putc. cbn [term_putc_at]. rewrite He, Hc. cbn [In] in Hp.
  repeat (lazymatch goal with |- context [schar c =? ?k] => destruct (Z.eqb_spec (schar c) k) end; [intuition lia|]).
  f_equal. unfold is_u8, schar, u8 in *.
  rewrite <- (Zminus_mod_idemp_l), Zmod_mod, Zminus_mod_idemp_l. replace (c + 2 ^ 7 - 2 ^ 7) with c by lia. apply Z.mod_small. lia.
Qed.

(** A line of plain bytes that fits the row is stored from the cursor on. *)
Lemma write_plain t s :
  term_ok t -> ground t -> Forall plain s -> col t + Z.of_nat (length s) <= cols t ->
  exists t', term_write on_scroll t s = Done t' /\
    cells t' = over (cells t) (Z.to_nat (row t * cols t + col t)) (map (fun c => cell_of c (attr t)) s) /\
    row t' = row t /\ col t' = col t + Z.of_nat (length s).
Proof.
  intros Hok Hg Hs. revert t Hok Hg; induction Hs as [|c s Hc Hs IH]; intros t Hok Hg Hl.
  { exists t. cbn [map length]. rewrite over_nil. repeat split; auto. lia. }
  cbn [length] in Hl. pose proof (ok_row t Hok). pose proof (ok_col t Hok). destruct (ok_grid t Hok) as (G1 & G2 & G3).
  cbn [term_write]. rewrite putc_plain by done. unfold put_char. rewrite (proj2 (Z.leb_gt (cols t) (col t))) by lia. cbn [obind].
  pose proof (put_char_at t c Hok ltac:(lia) (proj1 Hc)) as Hf. rewrite poke_ok in Hf |- * by (apply in_row; auto with vnu; lia).
  cbn [obind] in Hf |- *. cbv zeta in Hf |- *. set (x := over _ _ _) in *. set (t1 := moved _) in *.
  destruct Hf as (? & [= <-] & Hok1 & _).
  assert (cells t1 = x /\ row t1 = row t /\ col t1 = col t + 1 /\ cols t1 = cols t /\ attr t1 = attr t /\ ground t1)
    as (X1 & X2 & X3 & X4 & X5 & X6).
  { subst t1. unfold term_mark. bcase; repeat split; auto; apply Hg. }
  destruct (IH t1 Hok1 X6) as (t' & E & F1 & F2 & F3); [lia|]. exists t'. split; [done|].
  split; [|split; [congruence|cbn [length]; lia]]. rewrite F1, X1, X2, X3, X4, X5. cbn [map]. subst x.
  replace (Z.to_nat (row t * cols t + (col t + 1))) with (Z.to_nat (row t * cols t + col t) + length [cell_of c (attr t)])%nat
    by (cbn [length]; nia).
  apply over_over. rewrite length_map. cbn [length]. nia.
Qed.
End ConsoleSafe.

(** ** What the consoles promise *)

Lemma term0_ok r c : 0 < r -> 0 < c -> term_ok (term0 r c).
Proof.
  intros Hr Hc. constructor; cbn; try lia; try done.
  - unfold grid_ok. cbn. rewrite length_replicate. auto.
  - apply Forall_replicate. done.
  - apply bytes_closed. done.
Qed.



(** the byte [term_write_safe] excepts writes one cell too many: on the last
    row the store is outside the grid; on any other it blanks the first cell of the
    next row, which is not marked. *)
Theorem erase_line_overruns on_scroll t c :
  term_ok t -> overruns t c = true ->
  if row t + 1 =? rows t then term_putc on_scroll t c = Trap
  else exists t', term_putc on_scroll t c = Done t' /\
       at_ (cells t') (Z.to_nat ((row t + 1) * cols t)) = term_blank t /\ dirty t' = dirty (term_mark t (row t)).
Proof.
  intros Hok Ho. pose proof (ok_row t Hok). destruct (ok_grid t Hok) as (G1 & G2 & G3).
  unfold overruns in Ho. rewrite !andb_true_iff in Ho. destruct Ho as ((((He & Hc) & HK) & Hcol) & Hp). bprop.
  assert (term_putc on_scroll t c = (let* t := term_csi t (chr "K") in Done (moved t))) as ->.
  { unfold term_putc. cbn [term_putc_at]. rewrite He, Hc, HK. change (chr "K") with 75.
    cbn [Z.leb Z.compare Pos.compare Pos.compare_cont andb]. change (75 =? chr ";") with false.
    change (75 =? 27) with false. by change (u8 75) with 75. }
  set (t2 := let t1 := push_param t in set_parse (esc t1) false (params t1) (nparams t1) (cur t1) t1).
  assert (term_csi t (chr "K") = term_erase_line t2 (term_param t2 0 0)) as -> by reflexivity.
  assert (row t2 = row t /\ col t2 = cols t /\ rows t2 = rows t /\ cols t2 = cols t /\ cells t2 = cells t /\
          dirty t2 = dirty t /\ attr t2 = attr t /\ term_param t2 0 0 = 1) as (E1 & E2 & E3 & E4 & E5 & E6 & E7 & ->).
  { subst t2. rewrite <- Hp. unfold push_param. bcase; repeat split; auto. }
  clearbody t2. unfold term_erase_line. change (1 =? 0) with false. change (1 =? 1) with true. cbv iota. rewrite E1, E2, E4, Z.sub_0_r, Z.add_0_r.
  assert (term_blank t2 = term_blank t) as -> by (unfold term_blank; by rewrite E7). bcase.
  - rewrite fill_trap; [done|rewrite E5; nia..].
  - rewrite fill_ok by (rewrite ?E5; nia). cbn [obind row set_cells]. rewrite E1. eexists. split; [reflexivity|]. split.
    + transitivity (at_ (over (cells t) (Z.to_nat (row t * cols t)) (replicate (Z.to_nat (cols t + 1)) (term_blank t))) (Z.to_nat ((row t + 1) * cols t))).
      { unfold term_mark. bcase; cbn [cells moved set_cells set_dirty]; by rewrite E5. }
      rewrite at_over by (rewrite length_replicate; nia). rewrite length_replicate. case_decide; [|nia].
      apply at_lookup, lookup_replicate. split; [done|nia].
    + unfold term_mark. cbn [rows set_cells]. rewrite E3. bcase; cbn [dirty moved set_cells set_dirty]; by rewrite E6.
Qed.

(** A terminal two columns wide after two characters and [ESC\[1]. *)
Definition full_row : Term :=
  match term_write None (term0 2 2) (cs "01" ++ [27; 91; 49]) with Done t => t | _ => term0 2 2 end.

Lemma erase_line_overruns_witness :
  overruns full_row 75 = true /\
  exists t', term_putc None full_row 75 = Done t' /\ at_ (cells t') 2 = term_blank full_row /\
             dirty t' = dirty (term_mark full_row (row full_row)).
Proof.
  split; [by vm_compute|]. refine (erase_line_overruns None full_row 75 _ _); [|by vm_compute].
  constructor; try by vm_compute.
  all: try (vm_compute; repeat constructor; done).
Defined.

(** a program that moves the cursor with the library's [tnu_goto] and then
    writes a line of plain bytes that fits has drawn exactly that: the cells from
    (r, c) on hold the bytes in the current attribute, and no other cell of the
    console has changed. *)
Theorem draw_text_at on_scroll t cap r c s :
  term_ok t -> ground t -> rows t <= 255 -> cols t <= 255 ->
  1 <= r <= rows t -> 1 <= c -> c - 1 + Z.of_nat (length s) <= cols t -> s <> [] -> 11 <= cap -> Forall plain s ->
  exists t', term_write on_scroll t (tnu_goto cap r c ++ s) = Done t' /\
    cells t' = over (cells t) (Z.to_nat ((r - 1) * cols t + (c - 1))) (map (fun b => cell_of b (attr t)) s) /\
    row t' = r - 1 /\ col t' = c - 1 + Z.of_nat (length s).
Proof.
  intros Hok Hg HR HC Hr Hc Hl Hne Hcap Hp. assert (1 <= Z.of_nat (length s)) by (destruct s; [done|cbn; lia]).
  destruct (goto_run on_scroll t cap r c Hok Hg HR HC ltac:(lia) ltac:(lia) Hcap) as (p & E & Lp & Bp).
  assert (clamp (r - 1) (rows t) = r - 1 /\ clamp (c - 1) (cols t) = c - 1) as [E1 E2] by (unfold clamp; split; repeat bcase; lia).
  rewrite E1, E2 in E. rewrite write_app, E. cbn [obind].
  apply (write_plain on_scroll (moved (set_pos (r - 1) (c - 1) (set_parse false false p 2 0 t))) s); auto; [|done].
  apply ok_moved, ok_set_pos; [apply ok_set_parse; auto; lia|cbn; lia..].
Qed.

Lemma draw_text_at_witness :
  exists t', term_write None (term0 4 20) (tnu_goto 24 3 10 ++ cs "VNU") = Done t' /\ row t' = 2 /\ col t' = 12.
Proof.
  destruct (draw_text_at None (term0 4 20) 24 3 10 (cs "VNU")) as (t' & E & _ & E1 & E2).
  - by apply term0_ok.
  - split; reflexivity.
  - cbn; lia.
  - cbn; lia.
  - cbn; lia.
  - lia.
  - cbn; lia.
  - discriminate.
  - lia.
  - apply plain_closed. reflexivity.
  - exists t'. split; [exact E|]. split; [exact E1|exact E2].
Defined.
