(* ===== verification/Fat16.v ===== *)
(** The FAT16 file system, [vnu/kernel/fs/fat16.cpp]: the operations.

    The device is the caller's: [dev_rd] and [dev_wr] are the callbacks of
    [struct Device], which the code only ever asks for one sector.  An operation
    runs in a state and failure monad: it returns [None] where the C++ returns
    [false], and the state (the device and the scratch sector [fs.sec] included)
    is what it left behind in either case.  Sectors are lists of 512 bytes, names
    the byte lists of [Prelude].  Loops take fuel from the bound the code itself
    enforces. *)
From S2P Require Import Prelude.
Local Open Scope vnu_scope.

Definition SECTOR : Z := 512.
Definition NAME_MAX : Z := 256.
Definition ATTR_VOLUME : Z := 0x08.
Definition ATTR_DIR : Z := 0x10.
Definition ATTR_ARCH : Z := 0x20.
Definition NUM_FATS : Z := 2.
Definition RESERVED : Z := 1.
Definition ROOT_ENTRIES : Z := 512.
Definition FAT_FREE : Z := 0x0000.
Definition FAT_EOC : Z := 0xFFFF.
Definition FAT_BAD : Z := 0xFFF7.
Definition FAT16_MIN_CLUSTERS : Z := 4085.
Definition FAT16_MAX_CLUSTER : Z := 0xFFF4.
Definition MAX_LFN : Z := 20.

(** [p] is the buffer from the pointer on. *)
Definition rd16 (p : list Z) : Z := u16 (Z.lor (at_ p 0) (Z.shiftl (at_ p 1) 8)).
Definition rd32 (p : list Z) : Z :=
  Z.lor (Z.lor (Z.lor (at_ p 0) (Z.shiftl (at_ p 1) 8)) (Z.shiftl (at_ p 2) 16)) (Z.shiftl (at_ p 3) 24).

(** [p\[i..\] = bs]. *)
Fixpoint put (p : list Z) (i : nat) (bs : list Z) : list Z :=
  match bs with
  | [] => p
  | b :: bs' => put (<[i := b]> p) (S i) bs'
  end.
Definition wr16 (p : list Z) (i : nat) (v : Z) : list Z := put p i [u8 v; u8 (Z.shiftr v 8)].
Definition wr32 (p : list Z) (i : nat) (v : Z) : list Z :=
  put p i [u8 v; u8 (Z.shiftr v 8); u8 (Z.shiftr v 16); u8 (Z.shiftr v 24)].

Definition upper (c : Z) : Z := if (97 <=? c) && (c <=? 122) then c - 97 + 65 else c.
Definition is_lower (c : Z) : bool := (97 <=? c) && (c <=? 122).
Definition is_upper (c : Z) : bool := (65 <=? c) && (c <=? 90).

Fixpoint ci_equal (a b : list Z) : bool :=
  match a, b with
  | x :: a', y :: b' => if upper x =? upper y then ci_equal a' b' else false
  | [], [] => true
  | _, _ => false
  end.

Definition sfn_equal (a b : list Z) : bool := forallb (fun i => upper (at_ a i) =? upper (at_ b i)) (seq 0 11).

Definition sfn_bad : list Z := map (fun s => chr s) [" "; "*"; "+"; ","; "/"; ":"; ";"; "<"; "="; ">"; "?"; "["; "\"; "]"; "|"]%string ++ [34].
Definition sfn_char_ok (c : Z) : bool := if schar c <? 0x20 then false else negb (existsb (Z.eqb c) sfn_bad).

Section Volume.
Context {D : Type} (dev_rd : D -> Z -> option (list Z)) (dev_wr : D -> Z -> list Z -> option D).

Record Fs := mkFs {
  dev : D; part_lba : Z; total_sectors : Z; spc : Z; fatsz : Z; num_fats : Z;
  root_entries : Z; root_dir_sectors : Z; first_fat : Z; first_root : Z; first_data : Z;
  max_cluster : Z; mounted : bool; sec : list Z }.

Definition set_dev (d : D) (fs : Fs) : Fs :=
  mkFs d (part_lba fs) (total_sectors fs) (spc fs) (fatsz fs) (num_fats fs) (root_entries fs) (root_dir_sectors fs)
    (first_fat fs) (first_root fs) (first_data fs) (max_cluster fs) (mounted fs) (sec fs).
Definition set_sec (b : list Z) (fs : Fs) : Fs :=
  mkFs (dev fs) (part_lba fs) (total_sectors fs) (spc fs) (fatsz fs) (num_fats fs) (root_entries fs) (root_dir_sectors fs)
    (first_fat fs) (first_root fs) (first_data fs) (max_cluster fs) (mounted fs) b.

Definition M (A : Type) : Type := Fs -> option A * Fs.
Definition ret {A} (a : A) : M A := fun fs => (Some a, fs).
Definition fail {A} : M A := fun fs => (None, fs).
Definition bind {A B} (m : M A) (k : A -> M B) : M B :=
  fun fs => let '(r, fs) := m fs in match r with Some a => k a fs | None => (None, fs) end.
Notation "'let!' x := m 'in' k" := (bind m (fun x => k)) (at level 10, x pattern, m at level 100, k at level 200).
Notation "m ;; k" := (bind m (fun _ => k)) (at level 100, right associativity).
(** The result of [m] is not looked at. *)
Definition attempt {A B} (m : M A) (k : option A -> M B) : M B := fun fs => let '(r, fs) := m fs in k r fs.
Definition gets {A} (f : Fs -> A) : M A := fun fs => (Some (f fs), fs).
Definition upd_sec (f : list Z -> list Z) : M unit := fun fs => (Some tt, set_sec (f (sec fs)) fs).
Definition guard (b : bool) : M unit := if b then ret tt else fail.

Definition dev_read (rel : Z) : M (list Z) := fun fs => (dev_rd (dev fs) (u32 (part_lba fs + rel)), fs).
Definition dev_write (rel : Z) (b : list Z) : M unit :=
  fun fs => match dev_wr (dev fs) (u32 (part_lba fs + rel)) b with Some d => (Some tt, set_dev d fs) | None => (None, fs) end.

(** [dev_read(fs, rel, 1, fs.sec)] and [dev_write(fs, rel, 1, fs.sec)]. *)
Definition load (rel : Z) : M unit := let! b := dev_read rel in upd_sec (fun _ => b).
Definition store (rel : Z) : M unit := let! b := gets sec in dev_write rel b.

Definition cluster_to_sector (fs : Fs) (cluster : Z) : Z := u32 (first_data fs + (cluster - 2) * spc fs).

Definition fat_get (cluster : Z) : M Z :=
  let off := u32 (cluster * 2) in
  let! ff := gets first_fat in
  let! tmp := dev_read (u32 (ff + off / SECTOR)) in
  ret (rd16 (drop (Z.to_nat (off mod SECTOR)) tmp)).

(** [for (copy = 0; copy < fs.num_fats; ++copy)], [k] copies from [copy] on. *)
Fixpoint fat_set_loop (k : nat) (copy cluster value : Z) : M unit :=
  match k with
  | O => ret tt
  | S k' =>
      let off := u32 (cluster * 2) in
      let! s := gets (fun fs => u32 (first_fat fs + copy * fatsz fs + off / SECTOR)) in
      load s ;; upd_sec (fun b => wr16 b (Z.to_nat (off mod SECTOR)) value) ;; store s ;; fat_set_loop k' (copy + 1) cluster value
  end.
Definition fat_set (cluster value : Z) : M unit :=
  let! n := gets num_fats in fat_set_loop (Z.to_nat n) 0 cluster value.

Definition fat_next (cluster : Z) : M Z :=
  let! v := fat_get cluster in
  ret (if (v =? 0) || (v =? FAT_BAD) || (0xFFF8 <=? v) then 0 else v).

Definition in_range (fs : Fs) (c : Z) : bool := (2 <=? c) && (c <=? max_cluster fs).

(** [n] clusters have been counted; running out of fuel is [n > fs.max_cluster + 2]. *)
Fixpoint chain_len_loop (fuel : nat) (c n : Z) : M Z :=
  let! live := gets (fun fs => in_range fs c) in
  if live : bool then
    match fuel with
    | O => fail
    | S fuel' =>
        let! nx := fat_next c in
        if nx =? 0 then ret (n + 1) else chain_len_loop fuel' nx (n + 1)
    end
  else ret n.
Definition chain_len (first : Z) : M Z :=
  let! m := gets max_cluster in chain_len_loop (Z.to_nat (m + 2)) first 0.

Fixpoint chain_at_loop (n : nat) (c : Z) : M Z :=
  match n with
  | O => if c =? 0 then fail else ret c
  | S n' => let! nx := fat_next c in if nx =? 0 then fail else chain_at_loop n' nx
  end.
Definition chain_at (first n : Z) : M Z := chain_at_loop (Z.to_nat n) first.

Fixpoint zero_loop (k : nat) (rel : Z) : M unit :=
  match k with
  | O => ret tt
  | S k' => store rel ;; zero_loop k' (u32 (rel + 1))
  end.
Definition zero_sectors (rel count : Z) : M unit :=
  upd_sec (fun _ => replicate 512 0) ;; zero_loop (Z.to_nat count) rel.
Definition zero_cluster (cluster : Z) : M unit :=
  let! s := gets (fun fs => cluster_to_sector fs cluster) in let! n := gets spc in zero_sectors s n.

(** Running out of fuel is [++guard > fs.max_cluster + 2]. *)
Fixpoint free_loop (fuel : nat) (c : Z) : M unit :=
  let! live := gets (fun fs => in_range fs c) in
  if live : bool then
    match fuel with
    | O => fail
    | S fuel' => let! nx := fat_next c in fat_set c FAT_FREE ;; free_loop fuel' nx
    end
  else ret tt.
Definition free_chain (first : Z) : M unit :=
  let! m := gets max_cluster in free_loop (Z.to_nat (m + 2)) first.

(** [for (i = 0; i < SECTOR / 2; ++i)] in the FAT sector [s], [k] entries from [i] on. *)
Fixpoint find_in_sector (k : nat) (fs : Fs) (s i : Z) : Z :=
  match k with
  | O => 0
  | S k' =>
      let cluster := s * 256 + i in
      if (cluster <? 2) || (max_cluster fs <? cluster) then find_in_sector k' fs s (i + 1)
      else if (at_ (sec fs) (Z.to_nat (i * 2)) =? 0) && (at_ (sec fs) (Z.to_nat (i * 2 + 1)) =? 0) then cluster
      else find_in_sector k' fs s (i + 1)
  end.

(** [for (sec = 0; sec < fs.fatsz && !found; ++sec)], [k] sectors from [s] on. *)
Fixpoint find_free (k : nat) (s : Z) : M Z :=
  match k with
  | O => ret 0
  | S k' =>
      let! ff := gets first_fat in
      load (u32 (ff + s)) ;;
      let! found := gets (fun fs => find_in_sector 256 fs s 0) in
      if found =? 0 then find_free k' (s + 1) else ret found
  end.

Definition cluster_alloc (prev : Z) : M Z :=
  let! n := gets fatsz in
  let! found := find_free (Z.to_nat n) 0 in
  guard (negb (found =? 0)) ;;
  fat_set found FAT_EOC ;;
  (if prev =? 0 then ret tt else fat_set prev (u16 found)) ;;
  zero_cluster found ;;
  ret found.

(** [while (len < need)], [k] clusters. *)
Fixpoint grow_loop (k : nat) (last : Z) : M unit :=
  match k with
  | O => ret tt
  | S k' => let! nc := cluster_alloc last in grow_loop k' nc
  end.

Definition ensure_chain (first need : Z) : M Z :=
  if need =? 0 then ret first
  else
    let! len := (if first =? 0 then ret 0 else chain_len first) in
    if need <=? len then ret first
    else if len =? 0 then
      let! nc := cluster_alloc 0 in
      grow_loop (Z.to_nat (need - 1)) nc ;; ret nc
    else
      let! last := chain_at first (len - 1) in
      grow_loop (Z.to_nat (need - len)) last ;; ret first.

(** [while (done < len)] on what is left of the bytes to write, [todo]: [None] are zeros.  [fuel] bounds the turns by the length. *)
Fixpoint write_loop (fuel : nat) (clu within : Z) (src : option (list Z)) (todo : Z) : M unit :=
  if todo <=? 0 then ret tt
  else
    match fuel with
    | O => fail
    | S fuel' =>
        let! cb := gets (fun fs => u32 (spc fs * SECTOR)) in
        let s := within / SECTOR in
        let so := within mod SECTOR in
        let chunk := if todo <? SECTOR - so then todo else SECTOR - so in
        let piece := match src with Some b => take (Z.to_nat chunk) b | None => replicate (Z.to_nat chunk) 0 end in
        let! base := gets (fun fs => cluster_to_sector fs clu) in
        let abs := u32 (base + s) in
        (if (so =? 0) && (chunk =? SECTOR) then dev_write abs piece
         else load abs ;; upd_sec (fun b => put b (Z.to_nat so) piece) ;; store abs) ;;
        let todo := todo - chunk in
        let src := match src with Some b => Some (drop (Z.to_nat chunk) b) | None => None end in
        let within := within + chunk in
        if (cb <=? within) && (0 <? todo) then
          let! nx := fat_next clu in
          if nx =? 0 then fail else write_loop fuel' nx (within - cb) src todo
        else write_loop fuel' clu within src todo
    end.

Definition range_write (first off : Z) (src : option (list Z)) (len : Z) : M unit :=
  let! cb := gets (fun fs => u32 (spc fs * SECTOR)) in
  let! clu := chain_at first (off / cb) in
  write_loop (Z.to_nat len) clu (off mod cb) src len.

(** The reading loop of [read]: the bytes read. *)
Fixpoint read_file_loop (fuel : nat) (clu within todo : Z) : M (list Z) :=
  if todo <=? 0 then ret []
  else
    match fuel with
    | O => fail
    | S fuel' =>
        let! cb := gets (fun fs => u32 (spc fs * SECTOR)) in
        let s := within / SECTOR in
        let so := within mod SECTOR in
        let! base := gets (fun fs => cluster_to_sector fs clu) in
        load (u32 (base + s)) ;;
        let chunk := if todo <? SECTOR - so then todo else SECTOR - so in
        let! piece := gets (fun fs => take (Z.to_nat chunk) (drop (Z.to_nat so) (sec fs))) in
        let todo := todo - chunk in
        let within := within + chunk in
        if (cb <=? within) && (0 <? todo) then
          attempt (fat_next clu) (fun nx =>
            match nx with
            | None => ret piece
            | Some nx => if nx =? 0 then ret piece else let! rest := read_file_loop fuel' nx (within - cb) todo in ret (piece ++ rest)
            end)
        else let! rest := read_file_loop fuel' clu within todo in ret (piece ++ rest)
    end.

(** The bytes of the file whose first cluster is [first]; none when the chain ends before [off]. *)
Definition read_range (first off len : Z) : M (list Z) :=
  let! cb := gets (fun fs => u32 (spc fs * SECTOR)) in
  attempt (chain_at first (off / cb)) (fun clu =>
    match clu with
    | None => ret []
    | Some clu => if clu =? 0 then ret [] else read_file_loop (Z.to_nat len) clu (off mod cb) len
    end).
End Volume.
#[global] Arguments mkFs {D}.
#[global] Arguments M D A : clear implicits.
Notation "'let!' x := m 'in' k" := (bind m (fun x => k)) (at level 10, x pattern, m at level 100, k at level 200) : vnu_scope.
Notation "m ;; k" := (bind m (fun _ => k)) (at level 100, right associativity) : vnu_scope.
