(* ===== verification/FatChain.v ===== *)
(** The FAT and the cluster chains of [Fat16]: allocation, growth, release, and
    the contents of a chain. *)
From S2P Require Import Prelude Fat16.
Local Open Scope vnu_scope.

(** A device that works: [dsize] sectors that keep what is written to them. *)
Class Disk {D : Type} (dev_rd : D -> Z -> option (list Z)) (dev_wr : D -> Z -> list Z -> option D) := {
  sector : D -> Z -> list Z;
  dsize : Z;
  sector_ok : forall d l, length (sector d l) = 512%nat /\ bytes (sector d l);
  rd_law : forall d l, 0 <= l < dsize -> dev_rd d l = Some (sector d l);
  wr_law : forall d l b, 0 <= l < dsize -> length b = 512%nat -> bytes b ->
    exists d', dev_wr d l b = Some d' /\ forall l', sector d' l' = if l' =? l then b else sector d l'
}.

(** ** Bytes and words *)

Lemma length_put bs p i : length (put p i bs) = length p.
Proof. revert p i; induction bs as [|b bs IH]; intros p i; [done|]. cbn [put]. by rewrite IH, length_insert. Qed.

Lemma at_put bs p i j :
  (i + length bs <= length p)%nat ->
  at_ (put p i bs) j = if decide (i <= j < i + length bs)%nat then at_ bs (j - i) else at_ p j.
Proof.
  revert p i; induction bs as [|b bs IH]; intros p i Hl; cbn [put length] in *.
  - case_decide; [lia|done].
  - rewrite IH by (rewrite length_insert; lia). rewrite at_insert by lia.
    repeat case_decide; subst; try lia; try done.
    + replace (j - i)%nat with (S (j - S i)) by lia. done.
    + by rewrite Nat.sub_diag.
Qed.

Lemma bytes_put bs p i : bytes p -> bytes bs -> bytes (put p i bs).
Proof.
  intros Hp Hb. revert p i Hp; induction Hb as [|b bs Hb Hbs IH]; intros p i Hp; [done|]. cbn [put].
  apply IH. by apply Forall_insert.
Qed.

Lemma put_split bs p i : (i + length bs <= length p)%nat -> put p i bs = take i p ++ bs ++ drop (i + length bs) p.
Proof.
  intros Hl. apply list_eq_at.
  - rewrite length_put, !length_app, length_take, length_drop. lia.
  - intros j Hj. rewrite length_put in Hj. rewrite at_put by done. case_decide as E.
    + rewrite at_app_r, at_app_l by (rewrite length_take; lia). f_equal. rewrite length_take. lia.
    + destruct (decide (j < i)%nat).
      * rewrite at_app_l by (rewrite length_take; lia). symmetry. apply at_take. lia.
      * rewrite !at_app_r, at_drop by (rewrite ?length_take; lia). f_equal. rewrite length_take. lia.
Qed.

(** The 16-bit word at offset [i] of a sector. *)
Definition word (b : list Z) (i : Z) : Z := at_ b (Z.to_nat i) + 256 * at_ b (Z.to_nat (i + 1)).

Lemma rd16_word b i : bytes b -> 0 <= i -> rd16 (drop (Z.to_nat i) b) = word b i.
Proof.
  intros Hb Hi. unfold rd16, word. rewrite !at_drop, Nat.add_0_r. replace (Z.to_nat i + 1)%nat with (Z.to_nat (i + 1)) by lia.
  pose proof (bytes_at b (Z.to_nat i) Hb) as H0. pose proof (bytes_at b (Z.to_nat (i + 1)) Hb) as H1. unfold is_u8 in *.
  rewrite or_shift by lia. unfold u16. change (2 ^ 8) with 256 in *. rewrite Z.mod_small by lia. lia.
Qed.

Lemma word_range b i : bytes b -> 0 <= word b i < 2 ^ 16.
Proof.
  intros Hb. unfold word. pose proof (bytes_at b (Z.to_nat i) Hb) as H0. pose proof (bytes_at b (Z.to_nat (i + 1)) Hb) as H1.
  unfold is_u8 in *. change (2 ^ 8) with 256 in *. change (2 ^ 16) with 65536. lia.
Qed.

Lemma word_wr16 b i j v :
  length b = 512%nat -> 0 <= i <= 510 -> 0 <= j <= 510 -> i mod 2 = 0 -> j mod 2 = 0 -> 0 <= v < 2 ^ 16 ->
  word (wr16 b (Z.to_nat i) v) j = if j =? i then v else word b j.
Proof.
  intros Hl Hi Hj Ei Ej Hv. unfold word, wr16. rewrite !at_put by (cbn [length]; lia). cbn [length].
  pose proof (Z_div_mod_eq_full i 2). pose proof (Z_div_mod_eq_full j 2).
  destruct (Z.eqb_spec j i) as [->|Hne].
  - do 2 (case_decide; [|lia]). rewrite Nat.sub_diag. replace (Z.to_nat (i + 1) - Z.to_nat i)%nat with 1%nat by lia.
    unfold at_. cbn [nth]. unfold u8. rewrite Z.shiftr_div_pow2 by lia. change (2 ^ 8) with 256. change (2 ^ 16) with 65536 in Hv.
    rewrite (Z.mod_small (v / 256)) by (split; [apply Z.div_pos; lia|apply Z.div_lt_upper_bound; lia]).
    pose proof (Z_div_mod_eq_full v 256). lia.
  - do 2 (case_decide; [lia|]). done.
Qed.

Lemma bytes_wr16 b i v : bytes b -> bytes (wr16 b i v).
Proof. intros Hb. apply bytes_put; [done|]. repeat constructor; apply u8_range. Qed.

(** Running one operation after another. *)
Lemma bind_some {D A B} (m : M D A) (k : A -> M D B) fs a fs1 : m fs = (Some a, fs1) -> bind m k fs = k a fs1.
Proof. intros E. unfold bind. by rewrite E. Qed.

Lemma bind_gets {D A B} (f : @Fs D -> A) (k : A -> M D B) fs : bind (gets f) k fs = k (f fs) fs.
Proof. done. Qed.

Lemma bind_guard {D B} b (k : unit -> M D B) fs : b = true -> bind (guard b) k fs = k tt fs.
Proof. by intros ->. Qed.

Lemma bind_none {D A B} (m : M D A) (k : A -> M D B) fs fs1 : m fs = (None, fs1) -> bind m k fs = (None, fs1).
Proof. intros E. unfold bind. by rewrite E. Qed.

(** ** The volume *)

Section Chains.
Context {D : Type} (dev_rd : D -> Z -> option (list Z)) (dev_wr : D -> Z -> list Z -> option D) `{!Disk dev_rd dev_wr}.
Abbreviation Vol := (@Fs D).

(** The volume with another state of the device and of the scratch sector. *)
Definition at_dev (d : D) (b : list Z) (fs : Vol) : Vol := set_sec b (set_dev d fs).

(** The areas follow one another, on the device, and the FAT covers every cluster. *)
Record geo (fs : Vol) : Prop := {
  geo_lba : 0 <= part_lba fs;
  geo_fat : 0 <= first_fat fs /\ 0 < fatsz fs /\ 0 < num_fats fs;
  geo_root : first_fat fs + num_fats fs * fatsz fs <= first_root fs;
  geo_data : first_root fs + root_dir_sectors fs <= first_data fs /\ 0 <= root_dir_sectors fs <= 4096;
  geo_spc : 1 <= spc fs <= 128;
  geo_max : 2 <= max_cluster fs < 0xFFF4;
  geo_covers : (max_cluster fs + 1) * 2 <= fatsz fs * 512;
  geo_end : part_lba fs + first_data fs + (max_cluster fs - 1) * spc fs <= dsize;
  geo_dev : dsize <= 2 ^ 32
}.

(** The scratch sector is a sector. *)
Definition buf_ok (b : list Z) : Prop := length b = 512%nat /\ bytes b.

(** Sector [r] of the volume. *)
Definition sect (fs : Vol) (r : Z) : list Z := sector (dev fs) (part_lba fs + r).

Definition in_volume (fs : Vol) (r : Z) : Prop := 0 <= r < first_data fs + (max_cluster fs - 1) * spc fs.

Lemma vol_lba fs r : geo fs -> in_volume fs r -> u32 (part_lba fs + r) = part_lba fs + r /\ 0 <= part_lba fs + r < dsize.
Proof.
  intros [] [H1 H2]. assert (0 <= part_lba fs + r < dsize) by lia. split; [|done]. apply u32_id. unfold is_u32. lia.
Qed.

Lemma dev_read_ok fs r : geo fs -> in_volume fs r -> dev_read dev_rd r fs = (Some (sect fs r), fs).
Proof. intros G Hr. destruct (vol_lba fs r G Hr) as [E Hb]. unfold dev_read. by rewrite E, rd_law. Qed.

Lemma load_ok fs r : geo fs -> in_volume fs r -> load dev_rd r fs = (Some tt, set_sec (sect fs r) fs).
Proof. intros G Hr. unfold load, bind. by rewrite dev_read_ok. Qed.

(** The device after a store to sector [r] of the volume. *)
Definition stored (fs : Vol) (d d' : D) (r : Z) (b : list Z) : Prop :=
  forall l, sector d' l = if l =? part_lba fs + r then b else sector d l.

Lemma dev_write_ok fs r b :
  geo fs -> in_volume fs r -> buf_ok b ->
  exists d, dev_write dev_wr r b fs = (Some tt, set_dev d fs) /\ stored fs (dev fs) d r b.
Proof.
  intros G Hr [Hl Hb]. destruct (vol_lba fs r G Hr) as [E Hd]. unfold dev_write. rewrite E.
  destruct (wr_law (dev fs) (part_lba fs + r) b Hd Hl Hb) as (d & -> & Hs). by exists d.
Qed.

Lemma store_ok fs r :
  geo fs -> in_volume fs r -> buf_ok (sec fs) ->
  exists d, store dev_wr r fs = (Some tt, set_dev d fs) /\ stored fs (dev fs) d r (sec fs).
Proof. intros G Hr Hb. unfold store, bind, gets. by apply dev_write_ok. Qed.

(** ** The FAT *)

(** Entry [c] of copy [k]. *)
Definition fat_sector (fs : Vol) (k c : Z) : Z := first_fat fs + k * fatsz fs + c * 2 / 512.
Definition fat (fs : Vol) (d : D) (k c : Z) : Z := word (sector d (part_lba fs + fat_sector fs k c)) (c * 2 mod 512).

(** A cluster the FAT has an entry for. *)
Definition has_entry (fs : Vol) (c : Z) : Prop := 0 <= c <= max_cluster fs.

Lemma entry_sector fs c : geo fs -> has_entry fs c -> 0 <= c * 2 / 512 < fatsz fs.
Proof. intros [] [H1 H2]. split; [apply Z.div_pos; lia|]. apply Z.div_lt_upper_bound; lia. Qed.

Lemma entry_offset c : 0 <= c -> 0 <= c * 2 mod 512 <= 510 /\ (c * 2 mod 512) mod 2 = 0.
Proof.
  intros Hc. pose proof (Z.mod_pos_bound (c * 2) 512 ltac:(lia)). pose proof (Z_div_mod_eq_full (c * 2) 512).
  assert ((c * 2 mod 512) mod 2 = 0) as E.
  { replace (c * 2 mod 512) with ((c - 256 * (c * 2 / 512)) * 2) by lia. apply Z.mod_mul. lia. }
  split; [|done]. pose proof (Z_div_mod_eq_full (c * 2 mod 512) 2). lia.
Qed.

(** Where an entry is tells which entry it is. *)
Lemma entry_unique c c' : 0 <= c -> 0 <= c' -> c * 2 / 512 = c' * 2 / 512 -> c * 2 mod 512 = c' * 2 mod 512 -> c = c'.
Proof. intros _ _ H1 H2. pose proof (Z_div_mod_eq_full (c * 2) 512). pose proof (Z_div_mod_eq_full (c' * 2) 512). lia. Qed.

Lemma row_unique n k q k' q' : 0 <= q < n -> 0 <= q' < n -> k * n + q = k' * n + q' -> k = k' /\ q = q'.
Proof. intros Hq Hq' E. assert (k = k') by nia. subst. lia. Qed.

Lemma fat_sector_in fs k c : geo fs -> has_entry fs c -> 0 <= k < num_fats fs -> 
  first_fat fs <= fat_sector fs k c < first_fat fs + num_fats fs * fatsz fs /\ in_volume fs (fat_sector fs k c).
Proof.
  intros G Hc Hk. pose proof (entry_sector fs c G Hc). destruct G. unfold fat_sector, in_volume. split; nia.
Qed.

Lemma u32_double fs c : geo fs -> has_entry fs c -> u32 (c * 2) = c * 2.
Proof. intros [] [H1 H2]. apply u32_id. unfold is_u32. lia. Qed.

Lemma volume_u32 fs r : geo fs -> in_volume fs r -> u32 r = r.
Proof. intros G Hr. pose proof (vol_lba fs r G Hr). destruct G. apply u32_id. unfold is_u32, in_volume in *. lia. Qed.

Lemma fat_get_ok fs c : geo fs -> has_entry fs c -> fat_get dev_rd c fs = (Some (fat fs (dev fs) 0 c), fs).
Proof.
  intros G Hc. destruct (fat_sector_in fs 0 c G Hc) as [_ Hv]; [destruct G; lia|].
  unfold fat_get, bind, gets, SECTOR. rewrite (u32_double fs c G Hc).
  replace (first_fat fs + c * 2 / 512) with (fat_sector fs 0 c) by (unfold fat_sector; lia).
  rewrite (volume_u32 fs _ G Hv), dev_read_ok by done. unfold ret. do 2 f_equal. unfold fat. apply rd16_word; [apply sector_ok|].
  apply entry_offset. destruct Hc. done.
Qed.

(** Copies [k0] to [k0 + k - 1] of entry [c] hold [v]; nothing else has changed. *)
Definition fat_updated (fs : Vol) (d d' : D) (k0 k : Z) (c v : Z) : Prop :=
  (forall i c', 0 <= i < num_fats fs -> has_entry fs c' ->
     fat fs d' i c' = if (k0 <=? i) && (i <? k0 + k) && (c' =? c) then v else fat fs d i c') /\
  (forall l, l < part_lba fs + first_fat fs \/ part_lba fs + first_fat fs + num_fats fs * fatsz fs <= l -> sector d' l = sector d l).

Lemma fat_set_loop_ok k k0 fs c v :
  geo fs -> has_entry fs c -> 0 <= v < 2 ^ 16 -> buf_ok (sec fs) -> 0 <= k0 -> k0 + Z.of_nat k <= num_fats fs ->
  exists d b, fat_set_loop dev_rd dev_wr k k0 c v fs = (Some tt, at_dev d b fs) /\ buf_ok b /\
    fat_updated fs (dev fs) d k0 (Z.of_nat k) c v.
Proof.
  intros G Hc Hv. revert fs k0 G Hc; induction k as [|k IH]; intros fs k0 G Hc Hb H0 Hk; cbn [fat_set_loop].
  { exists (dev fs), (sec fs). split; [by destruct fs|]. split; [done|]. split; [|done]. intros i c' Hi Hc'.
    destruct (Z.leb_spec k0 i), (Z.ltb_spec i (k0 + Z.of_nat 0)); cbn [andb]; try done; lia. }
  destruct (fat_sector_in fs k0 c G Hc) as [Hr Hin]; [lia|].
  assert (c * 2 mod 512 = c * 2 mod 512 /\ 0 <= c * 2 mod 512 <= 510) as [_ Ho] by (split; [done|apply entry_offset; destruct Hc; done]).
  unfold bind at 1, gets at 1. unfold SECTOR. rewrite (u32_double fs c G Hc). fold (fat_sector fs k0 c). rewrite (volume_u32 fs _ G Hin).
  unfold bind at 1. rewrite load_ok by done. unfold bind at 1, upd_sec at 1. cbn [sec set_sec].
  set (b1 := wr16 (sect fs (fat_sector fs k0 c)) (Z.to_nat (c * 2 mod 512)) v).
  assert (buf_ok b1) as Hb1.
  { destruct (sector_ok (dev fs) (part_lba fs + fat_sector fs k0 c)) as [Hl Hby]. split; [unfold b1, wr16; rewrite length_put; exact Hl|by apply bytes_wr16]. }
  set (fs1 := set_sec b1 _). destruct (store_ok fs1 (fat_sector fs k0 c)) as (d1 & E1 & Hs1); [destruct G; by constructor|done|done|].
  unfold bind at 1. rewrite E1. destruct (IH (set_dev d1 fs1) (k0 + 1)) as (d & b & E & Hb' & [Hf Ho']);
    [destruct G; by constructor|done|done|lia|cbn; lia|].
  exists d, b. split; [exact E|]. split; [done|]. change (sec fs1) with b1 in Hs1. unfold stored in Hs1. change (part_lba fs1) with (part_lba fs) in Hs1. change (dev fs1) with (dev fs) in Hs1.
  split.
  - intros i c' Hi Hc'. etransitivity; [exact (Hf i c' Hi Hc')|]. clear Hf. change (fat (set_dev d1 fs1)) with (fat fs). change (dev (set_dev d1 fs1)) with d1.
    replace ((k0 + 1 <=? i) && (i <? k0 + 1 + Z.of_nat k)) with ((k0 + 1 <=? i) && (i <? k0 + Z.of_nat (S k))) by (do 2 f_equal; lia).
    assert (fat fs d1 i c' = if (i =? k0) && (c' =? c) then v else fat fs (dev fs) i c') as Hone.
    { unfold fat. rewrite Hs1. destruct (Z.eqb_spec (part_lba fs + fat_sector fs i c') (part_lba fs + fat_sector fs k0 c)) as [Es|Es].
      - unfold fat_sector in Es. destruct (row_unique (fatsz fs) i (c' * 2 / 512) k0 (c * 2 / 512)) as [-> Eq];
          [by apply entry_sector|by apply entry_sector|lia|]. rewrite Z.eqb_refl. cbn [andb]. unfold b1.
        rewrite word_wr16; try (apply entry_offset; destruct Hc, Hc'; lia); [|apply sector_ok|done].
        destruct (Z.eqb_spec (c' * 2 mod 512) (c * 2 mod 512)) as [Em|Em], (Z.eqb_spec c' c) as [Ec|Ec]; try done; subst; try done.
        + exfalso. apply Ec. apply entry_unique; auto; [destruct Hc'; lia|destruct Hc; lia].
        + unfold sect. do 2 f_equal. unfold fat_sector. lia.
      - destruct (Z.eqb_spec i k0) as [->|], (Z.eqb_spec c' c) as [->|]; done. }
    rewrite Hone. destruct (Z.leb_spec k0 i), (Z.leb_spec (k0 + 1) i), (Z.ltb_spec i (k0 + Z.of_nat (S k))), (Z.eqb_spec i k0), (Z.eqb_spec c' c); cbn [andb]; try done; lia.
  - intros l Hl. etransitivity; [exact (Ho' l Hl)|]. change (dev (set_dev d1 fs1)) with d1. rewrite Hs1.
    destruct (Z.eqb_spec l (part_lba fs + fat_sector fs k0 c)); [lia|done].
Qed.

Lemma fat_set_ok fs c v :
  geo fs -> has_entry fs c -> 0 <= v < 2 ^ 16 -> buf_ok (sec fs) ->
  exists d b, fat_set dev_rd dev_wr c v fs = (Some tt, at_dev d b fs) /\ buf_ok b /\
    fat_updated fs (dev fs) d 0 (num_fats fs) c v.
Proof.
  intros G Hc Hv Hb. unfold fat_set, bind, gets.
  destruct (fat_set_loop_ok (Z.to_nat (num_fats fs)) 0 fs c v) as (d & b & E & H1 & H2); auto; [lia|destruct G; lia|].
  exists d, b. rewrite Z2Nat.id in H2 by (destruct G; lia). done.
Qed.

(** ** Chains *)

Definition nextc (v : Z) : Z := if (v =? 0) || (v =? FAT_BAD) || (0xFFF8 <=? v) then 0 else v.

Lemma fat_next_ok fs c : geo fs -> has_entry fs c -> fat_next dev_rd c fs = (Some (nextc (fat fs (dev fs) 0 c)), fs).
Proof. intros G Hc. unfold fat_next, bind. by rewrite fat_get_ok. Qed.

(** The clusters [cs] follow one another in the FAT [f], up to an end mark. *)
Fixpoint linked (f : Z -> Z) (m : Z) (cs : list Z) : Prop :=
  match cs with
  | [] => False
  | c :: r => 2 <= c <= m /\ match r with [] => f c <> 0 /\ nextc (f c) = 0 | c' :: _ => f c = c' /\ linked f m r end
  end.

Definition chain (f : Z -> Z) (m : Z) (cs : list Z) : Prop := linked f m cs /\ NoDup cs.

Lemma nextc_in c m : 2 <= c <= m -> m < 0xFFF4 -> nextc c = c.
Proof. intros H1 H2. unfold nextc, FAT_BAD. destruct (_ || _) eqn:E; [|done]. rewrite !orb_true_iff in E. lia. Qed.

Lemma linked_in f m cs c : linked f m cs -> c ∈ cs -> 2 <= c <= m.
Proof.
  induction cs as [|x cs IH]; [done|]. intros [Hx Hr] [->|Hc]%elem_of_cons; [done|].
  destruct cs as [|y cs]; [by apply not_elem_of_nil in Hc|]. destruct Hr as [_ Hr]. by apply IH.
Qed.

(** A chain has at most as many clusters as there are. *)
Lemma chain_short f m cs : chain f m cs -> 2 <= m -> Z.of_nat (length cs) <= m - 1.
Proof.
  intros [Hl Hn] Hm. assert (cs ⊆+ map Z.of_nat (seq 2 (Z.to_nat (m - 1)))) as Hs.
  { apply NoDup_submseteq; [done|]. intros c Hc. pose proof (linked_in f m cs c Hl Hc).
    apply list_elem_of_fmap. exists (Z.to_nat c). split; [lia|]. apply elem_of_seq. lia. }
  apply submseteq_length in Hs. rewrite length_map, length_seq in Hs. lia.
Qed.

Lemma chain_len_loop_ok fuel fs c cs n :
  geo fs -> linked (fat fs (dev fs) 0) (max_cluster fs) (c :: cs) -> (length (c :: cs) <= fuel)%nat ->
  chain_len_loop dev_rd fuel c n fs = (Some (n + Z.of_nat (length (c :: cs))), fs).
Proof.
  intros G. assert (max_cluster fs < 0xFFF4) as Hm by (destruct G; lia). revert c cs n; induction fuel as [|fuel IH]; intros c cs n Hl Hf; [cbn in Hf; lia|].
  destruct Hl as [Hc Hr]. cbn [chain_len_loop]. unfold bind at 1, gets at 1, in_range.
  rewrite (proj2 (Z.leb_le 2 c)), (proj2 (Z.leb_le c _)) by lia. cbn [andb].
  unfold bind at 1. rewrite fat_next_ok by (auto; unfold has_entry; lia). destruct cs as [|c' cs].
  - rewrite (proj2 Hr). cbn [Z.eqb length]. unfold ret. do 2 f_equal; lia.
  - destruct Hr as [-> Hr]. assert (2 <= c' <= max_cluster fs) as Hc' by (destruct Hr; done).
    rewrite (nextc_in c' _ Hc' Hm). destruct (Z.eqb_spec c' 0); [lia|]. rewrite (IH c' cs); [|done|cbn [length] in *; lia].
    do 2 f_equal. cbn [length]. lia.
Qed.

Lemma chain_len_ok fs c cs :
  geo fs -> chain (fat fs (dev fs) 0) (max_cluster fs) (c :: cs) ->
  chain_len dev_rd c fs = (Some (Z.of_nat (length (c :: cs))), fs).
Proof.
  intros G Hc. pose proof (chain_short _ _ _ Hc) as Hs. unfold chain_len, bind, gets.
  rewrite (chain_len_loop_ok _ fs c cs 0 G (proj1 Hc)); [do 2 f_equal; lia|]. destruct G. lia.
Qed.

Lemma linked_tail f m c c' cs : linked f m (c :: c' :: cs) -> linked f m (c' :: cs).
Proof. by intros (_ & _ & H). Qed.

Lemma chain_at_loop_ok n fs c cs x :
  geo fs -> linked (fat fs (dev fs) 0) (max_cluster fs) (c :: cs) -> (c :: cs) !! n = Some x ->
  chain_at_loop dev_rd n c fs = (Some x, fs).
Proof.
  intros G. assert (max_cluster fs < 0xFFF4) as Hm by (destruct G; lia). revert c cs; induction n as [|n IH]; intros c cs Hl Hx; cbn [chain_at_loop].
  - injection Hx as ->. destruct Hl as [Hc _]. destruct (Z.eqb_spec x 0); [lia|done].
  - destruct cs as [|c' cs]; [done|]. pose proof (linked_tail _ _ _ _ _ Hl) as Hl'. destruct Hl as (Hc & Hf & _).
    assert (2 <= c' <= max_cluster fs) as Hc' by (destruct Hl'; done).
    unfold bind at 1. rewrite fat_next_ok by (auto; unfold has_entry; lia). rewrite Hf, (nextc_in c' _ Hc' Hm).
    destruct (Z.eqb_spec c' 0); [lia|]. by apply (IH c' cs).
Qed.

Lemma chain_at_ok fs c cs n x :
  geo fs -> linked (fat fs (dev fs) 0) (max_cluster fs) (c :: cs) -> 0 <= n -> (c :: cs) !! Z.to_nat n = Some x ->
  chain_at dev_rd c n fs = (Some x, fs).
Proof. intros G Hl _ Hx. by apply (chain_at_loop_ok _ fs c cs). Qed.

(** Past the end of a chain there is nothing. *)
Lemma chain_at_loop_end n fs c cs :
  geo fs -> linked (fat fs (dev fs) 0) (max_cluster fs) (c :: cs) -> (length (c :: cs) <= n)%nat ->
  chain_at_loop dev_rd n c fs = (None, fs).
Proof.
  intros G. assert (max_cluster fs < 0xFFF4) as Hm by (destruct G; lia). revert c cs; induction n as [|n IH]; intros c cs Hl Hx; cbn [chain_at_loop]; [cbn in Hx; lia|].
  pose proof (proj1 Hl) as Hc. unfold bind at 1. rewrite fat_next_ok by (auto; unfold has_entry; lia). destruct cs as [|c' cs].
  - destruct Hl as (_ & _ & ->). done.
  - pose proof (linked_tail _ _ _ _ _ Hl) as Hl'. destruct Hl as (_ & -> & _).
    assert (2 <= c' <= max_cluster fs) as Hc' by (destruct Hl'; done).
    rewrite (nextc_in c' _ Hc' Hm). destruct (Z.eqb_spec c' 0); [lia|]. apply (IH c' cs); [done|cbn [length] in *; lia].
Qed.

(** ** Allocation *)

Lemma find_in_sector_ok k fs s i :
  geo fs -> sec fs = sect fs (first_fat fs + s) -> 0 <= s < fatsz fs -> 0 <= i -> i + Z.of_nat k = 256 ->
  let f := fat fs (dev fs) 0 in
  let r := find_in_sector k fs s i in
  (r = 0 /\ forall c, 2 <= c <= max_cluster fs -> s * 256 + i <= c < s * 256 + 256 -> f c <> 0) \/
  (2 <= r <= max_cluster fs /\ s * 256 + i <= r < s * 256 + 256 /\ f r = 0 /\
   forall c, 2 <= c < r -> s * 256 + i <= c -> f c <> 0).
Proof.
  intros G Hsec Hs. revert i; induction k as [|k IH]; intros i Hi Hk; cbv zeta; cbn [find_in_sector].
  { left. split; [done|]. intros; lia. }
  specialize (IH (i + 1) ltac:(lia) ltac:(lia)). cbv zeta in IH. set (f := fat fs (dev fs) 0) in *.
  assert (forall r, (r = find_in_sector k fs s (i + 1)) ->
     (2 <= s * 256 + i <= max_cluster fs -> f (s * 256 + i) <> 0) ->
     (r = 0 /\ forall c, 2 <= c <= max_cluster fs -> s * 256 + i <= c < s * 256 + 256 -> f c <> 0) \/
     (2 <= r <= max_cluster fs /\ s * 256 + i <= r < s * 256 + 256 /\ f r = 0 /\ forall c, 2 <= c < r -> s * 256 + i <= c -> f c <> 0)) as Skip.
  { intros r -> Hne. destruct IH as [[-> H1]|(H1 & H2 & H3 & H4)].
    - left. split; [done|]. intros c H2 H3. destruct (decide (c = s * 256 + i)) as [->|]; [by apply Hne|apply H1; lia].
    - right. repeat split; try lia; try done. intros c H5 H6. destruct (decide (c = s * 256 + i)) as [->|]; [apply Hne; lia|apply H4; lia]. }
  destruct (_ || _) eqn:Eo.
  { apply Skip; [done|]. apply orb_true_iff in Eo. intros; lia. }
  bprop. set (c := s * 256 + i) in *.
  assert (c * 2 / 512 = s) as Eq by (symmetry; apply Z.div_unique with (i * 2); unfold c; lia).
  assert (c * 2 mod 512 = i * 2) as Em by (symmetry; apply Z.mod_unique with s; unfold c; lia).
  assert (f c = word (sec fs) (i * 2)) as Ef.
  { unfold f, fat, fat_sector. rewrite Eq, Em, Hsec. unfold sect. do 2 f_equal. lia. }
  unfold word in Ef. assert (bytes (sec fs)) as Hb by (rewrite Hsec; apply sector_ok).
  pose proof (bytes_at (sec fs) (Z.to_nat (i * 2)) Hb) as B0. pose proof (bytes_at (sec fs) (Z.to_nat (i * 2 + 1)) Hb) as B1. unfold is_u8 in B0, B1.
  destruct (_ && _) eqn:Ea.
  - bprop. right. repeat split; try lia. 
  - apply Skip; [done|]. intros _. apply andb_false_iff in Ea. intros E0. rewrite E0 in Ef. destruct Ea as [Ea|Ea]; bprop; lia.
Qed.

Lemma find_free_ok k fs s :
  geo fs -> 0 <= s -> s + Z.of_nat k = fatsz fs -> buf_ok (sec fs) ->
  exists r b, find_free dev_rd k s fs = (Some r, set_sec b fs) /\ buf_ok b /\
  let f := fat fs (dev fs) 0 in
  ((r = 0 /\ forall c, 2 <= c <= max_cluster fs -> s * 256 <= c -> f c <> 0) \/
   (2 <= r <= max_cluster fs /\ f r = 0 /\ forall c, 2 <= c < r -> s * 256 <= c -> f c <> 0)).
Proof.
  intros G. revert fs s G; induction k as [|k IH]; intros fs s G Hs Hk Hb; cbn [find_free].
  { exists 0, (sec fs). split; [by destruct fs|]. split; [done|]. left. split; [done|]. intros c H1 H2. destruct G. lia. }
  assert (in_volume fs (first_fat fs + s)) as Hv by (destruct G; unfold in_volume; nia).
  unfold bind at 1, gets at 1. rewrite (volume_u32 fs _ G Hv). unfold bind at 1. rewrite load_ok by done.
  set (b1 := sect fs (first_fat fs + s)). assert (buf_ok b1) as Hb1 by apply sector_ok.
  assert (geo (set_sec b1 fs)) as G1 by (destruct G; by constructor).
  pose proof (find_in_sector_ok 256 (set_sec b1 fs) s 0 G1 eq_refl ltac:(cbn; lia) ltac:(lia) eq_refl) as Hf. cbv zeta in Hf.
  unfold bind at 1, gets at 1. set (r := find_in_sector 256 (set_sec b1 fs) s 0) in *. clearbody r.
  change (fat (set_sec b1 fs) (dev (set_sec b1 fs)) 0) with (fat fs (dev fs) 0) in Hf. change (max_cluster (set_sec b1 fs)) with (max_cluster fs) in Hf.
  destruct Hf as [[-> H1]|(H1 & H2 & H3 & H4)].
  - change (0 =? 0) with true. cbv iota. destruct (IH (set_sec b1 fs) (s + 1) G1) as (r' & b' & E & Hb' & Hr); [lia|cbn; lia|done|].
    exists r', b'. split; [exact E|]. split; [done|]. change (fat (set_sec b1 fs) (dev (set_sec b1 fs)) 0) with (fat fs (dev fs) 0) in Hr.
    change (max_cluster (set_sec b1 fs)) with (max_cluster fs) in Hr. cbv zeta in Hr |- *.
    destruct Hr as [[-> H5]|(H5 & H6 & H7)]; [left|right].
    + split; [done|]. intros c H6 H7. destruct (decide (c < s * 256 + 256)); [apply H1; lia|apply H5; lia].
    + split; [done|]. split; [done|]. intros c H8 H9. destruct (decide (c < s * 256 + 256)); [apply H1; lia|apply H7; lia].
  - destruct (Z.eqb_spec r 0); [lia|]. exists r, b1. split; [done|]. split; [done|]. right. split; [done|]. split; [done|]. intros c H5 H6. apply H4; lia.
Qed.

(** The sectors of a cluster. *)
Definition csect (fs : Vol) (c i : Z) : Z := first_data fs + (c - 2) * spc fs + i.
Definition valid (fs : Vol) (c : Z) : Prop := 2 <= c <= max_cluster fs.

Lemma csect_in fs c i : geo fs -> valid fs c -> 0 <= i < spc fs -> in_volume fs (csect fs c i).
Proof. intros [] Hc Hi. unfold valid, in_volume, csect in *. nia. Qed.

Lemma cluster_to_sector_ok fs c : geo fs -> valid fs c -> cluster_to_sector fs c = csect fs c 0.
Proof.
  intros G Hc. unfold cluster_to_sector. replace (first_data fs + (c - 2) * spc fs) with (csect fs c 0) by (unfold csect; lia).
  apply (volume_u32 fs); [done|]. apply csect_in; auto. destruct G; lia.
Qed.

(** Two clusters have no sector in common. *)
Lemma csect_unique fs c i c' i' : geo fs -> 0 <= i < spc fs -> 0 <= i' < spc fs -> csect fs c i = csect fs c' i' -> c = c' /\ i = i'.
Proof.
  intros G Hi Hi' E. unfold csect in E. destruct (row_unique (spc fs) (c - 2) i (c' - 2) i') as [? ?]; try lia.
Qed.

(** The data area is past the FAT. *)
Lemma csect_past_fat fs c i : geo fs -> valid fs c -> 0 <= i -> first_fat fs + num_fats fs * fatsz fs <= csect fs c i.
Proof. intros [] Hc Hi. unfold valid, csect in *. nia. Qed.

Lemma zero_loop_ok k fs rel :
  geo fs -> sec fs = replicate 512 0 -> 0 <= rel -> (forall i, 0 <= i < Z.of_nat k -> in_volume fs (rel + i)) ->
  exists d, zero_loop dev_wr k rel fs = (Some tt, set_dev d fs) /\
    forall l, sector d l = if (part_lba fs + rel <=? l) && (l <? part_lba fs + rel + Z.of_nat k) then replicate 512 0 else sector (dev fs) l.
Proof.
  revert fs rel; induction k as [|k IH]; intros fs rel G Hsec H0 Hv; cbn [zero_loop].
  { exists (dev fs). split; [by destruct fs|]. intros l.
    destruct (Z.leb_spec (part_lba fs + rel) l), (Z.ltb_spec l (part_lba fs + rel + Z.of_nat 0)); cbn [andb]; try done; lia. }
  assert (in_volume fs rel) as Hr by (replace rel with (rel + 0) by lia; apply Hv; lia).
  destruct (store_ok fs rel G Hr) as (d1 & E1 & Hs1); [rewrite Hsec; split; [done|apply Forall_replicate; unfold is_u8; lia]|].
  unfold bind at 1. rewrite E1.
  destruct k as [|k].
  { exists d1. split; [done|]. intros l. rewrite Hs1, Hsec.
    destruct (Z.eqb_spec l (part_lba fs + rel)), (Z.leb_spec (part_lba fs + rel) l), (Z.ltb_spec l (part_lba fs + rel + Z.of_nat 1)); cbn [andb]; try done; lia. }
  rewrite (volume_u32 fs (rel + 1)) by (auto; apply Hv; lia).
  destruct (IH (set_dev d1 fs) (rel + 1)) as (d & E & Hs); [destruct G; by constructor|done|lia| |].
  { intros i Hi. replace (rel + 1 + i) with (rel + (1 + i)) by lia. change (in_volume fs (rel + (1 + i))). apply Hv. lia. }
  exists d. split; [exact E|]. intros l. etransitivity; [exact (Hs l)|]. cbn [part_lba dev set_dev]. rewrite Hs1, Hsec.
  destruct (Z.eqb_spec l (part_lba fs + rel)), (Z.leb_spec (part_lba fs + rel) l), (Z.leb_spec (part_lba fs + (rel + 1)) l),
    (Z.ltb_spec l (part_lba fs + (rel + 1) + Z.of_nat (S k))), (Z.ltb_spec l (part_lba fs + rel + Z.of_nat (S (S k)))); cbn [andb]; try done; lia.
Qed.

(** Whether sector [l] of the device belongs to cluster [c]. *)
Definition in_cluster (fs : Vol) (c l : Z) : bool := (part_lba fs + csect fs c 0 <=? l) && (l <? part_lba fs + csect fs c 0 + spc fs).

Lemma zero_cluster_ok fs c :
  geo fs -> valid fs c ->
  exists d, zero_cluster dev_wr c fs = (Some tt, at_dev d (replicate 512 0) fs) /\
    forall l, sector d l = if in_cluster fs c l then replicate 512 0 else sector (dev fs) l.
Proof.
  intros G Hc. unfold zero_cluster, bind at 1, gets at 1. rewrite cluster_to_sector_ok by done. unfold bind at 1, gets at 1.
  unfold zero_sectors, bind at 1, upd_sec at 1.
  destruct (zero_loop_ok (Z.to_nat (spc fs)) (set_sec (replicate 512 0) fs) (csect fs c 0)) as (d & E & Hs); [destruct G; by constructor|done| | |].
  - destruct (csect_in fs c 0 G Hc); [destruct G; lia|]. done.
  - intros i Hi. replace (csect fs c 0 + i) with (csect fs c i) by (unfold csect; lia). apply (csect_in fs); auto. destruct G; lia.
  - exists d. split; [exact E|]. intros l. rewrite Hs. rewrite Z2Nat.id by (destruct G; lia). done.
Qed.

(** Cluster [c] was free; it is now the end of a chain, after [prev] if that is not 0, and zeroed. *)
Record allocated (fs : Vol) (d d' : D) (prev c : Z) : Prop := {
  al_valid : valid fs c;
  al_free : fat fs d 0 c = 0;
  al_first : forall x, 2 <= x < c -> fat fs d 0 x <> 0;
  al_fat : forall i x, 0 <= i < num_fats fs -> has_entry fs x ->
    fat fs d' i x = if negb (prev =? 0) && (x =? prev) then c else if x =? c then FAT_EOC else fat fs d i x;
  al_data : forall l, part_lba fs + first_fat fs + num_fats fs * fatsz fs <= l ->
    sector d' l = if in_cluster fs c l then replicate 512 0 else sector d l;
  al_boot : forall l, l < part_lba fs + first_fat fs -> sector d' l = sector d l
}.

Lemma geo_at d b fs : geo fs -> geo (at_dev d b fs).
Proof. intros []. by constructor. Qed.

Lemma cluster_alloc_ok fs prev :
  geo fs -> buf_ok (sec fs) -> (prev = 0 \/ valid fs prev) ->
  (exists b, cluster_alloc dev_rd dev_wr prev fs = (None, set_sec b fs) /\ buf_ok b /\ forall x, valid fs x -> fat fs (dev fs) 0 x <> 0) \/
  (exists c d b, cluster_alloc dev_rd dev_wr prev fs = (Some c, at_dev d b fs) /\ buf_ok b /\ allocated fs (dev fs) d prev c).
Proof.
  intros G Hb Hp. destruct (find_free_ok (Z.to_nat (fatsz fs)) fs 0 G) as (c & b1 & E1 & Hb1 & Hf); [lia|destruct G; lia|done|].
  cbv zeta in Hf. destruct Hf as [[-> Hn]|(Hc & Hz & Hfirst)].
  { left. exists b1. split; [|split; [done|intros x Hx; apply Hn; unfold valid in Hx; lia]].
    unfold cluster_alloc. by rewrite bind_gets, (bind_some _ _ fs _ _ E1). }
  right.
  set (fs1 := set_sec b1 fs). assert (geo fs1) as G1 by (destruct G; by constructor).
  destruct (fat_set_ok fs1 c FAT_EOC G1) as (d2 & b2 & E2 & Hb2 & [F2 O2]); [split; cbn; lia|unfold FAT_EOC; lia|done|].
  set (fs2 := at_dev d2 b2 fs1). assert (geo fs2) as G2 by (by apply geo_at).
  assert (exists d3 b3, (if prev =? 0 then ret tt else fat_set dev_rd dev_wr prev (u16 c)) fs2 = (Some tt, at_dev d3 b3 fs) /\ buf_ok b3 /\
    (forall i x, 0 <= i < num_fats fs -> has_entry fs x -> fat fs d3 i x = if negb (prev =? 0) && (x =? prev) then c else if x =? c then FAT_EOC else fat fs (dev fs) i x) /\
    (forall l, l < part_lba fs + first_fat fs \/ part_lba fs + first_fat fs + num_fats fs * fatsz fs <= l -> sector d3 l = sector (dev fs) l))
    as (d3 & b3 & E3 & Hb3 & F3 & O3).
  { assert (forall i x, 0 <= i < num_fats fs -> has_entry fs x -> fat fs d2 i x = if x =? c then FAT_EOC else fat fs (dev fs) i x) as F2'.
    { intros i x Hi Hx. etransitivity; [exact (F2 i x Hi Hx)|]. rewrite (proj2 (Z.leb_le 0 i)), (proj2 (Z.ltb_lt i _)) by (cbn; lia). done. }
    destruct (Z.eqb_spec prev 0) as [->|Hp0].
    - exists d2, b2. split; [done|]. split; [done|]. split; [exact F2'|exact O2].
    - destruct Hp as [?|Hp]; [done|]. assert (u16 c = c) as -> by (unfold u16; apply Z.mod_small; destruct G; lia).
      destruct (fat_set_ok fs2 prev c G2) as (d3 & b3 & E3 & Hb3 & [F3 O3]); [unfold valid, has_entry in *; cbn; lia|destruct G; lia|done|].
      exists d3, b3. split; [exact E3|]. split; [done|]. split.
      + intros i x Hi Hx. etransitivity; [exact (F3 i x Hi Hx)|]. rewrite (proj2 (Z.leb_le 0 i)), (proj2 (Z.ltb_lt i _)) by (cbn; lia). cbn [andb negb].
        destruct (x =? prev); [done|]. exact (F2' i x Hi Hx).
      + intros l Hl. etransitivity; [exact (O3 l Hl)|exact (O2 l Hl)]. }
  destruct (zero_cluster_ok (at_dev d3 b3 fs) c) as (d4 & E4 & Hs4); [by apply geo_at|done|].
  exists c, d4, (replicate 512 0). split.
  { unfold cluster_alloc. rewrite bind_gets, (bind_some _ _ fs _ _ E1).
    rewrite bind_guard by (destruct (Z.eqb_spec c 0); [lia|done]). rewrite (bind_some _ _ fs1 _ _ E2), (bind_some _ _ fs2 _ _ E3), (bind_some _ _ _ _ _ E4). done. } split; [split; [done|apply Forall_replicate; unfold is_u8; lia]|].
  assert (forall l, in_cluster fs c l = true -> part_lba fs + first_fat fs + num_fats fs * fatsz fs <= l) as Hpast.
  { intros l Hl. unfold in_cluster in Hl. bprop. pose proof (csect_past_fat fs c 0 G Hc). lia. }
  constructor; auto.
  - intros x Hx. apply Hfirst; lia.
  - intros i x Hi Hx. rewrite <- F3 by done. unfold fat. f_equal. etransitivity; [exact (Hs4 _)|].
    destruct (in_cluster _ _ _) eqn:Ei; [|done]. apply Hpast in Ei. destruct (fat_sector_in fs i x G Hx Hi) as [Hr _]. lia.
  - intros l Hl. etransitivity; [exact (Hs4 l)|]. change (in_cluster (at_dev d3 b3 fs) c l) with (in_cluster fs c l).
    destruct (in_cluster fs c l); [done|]. apply O3. by right.
  - intros l Hl. etransitivity; [exact (Hs4 l)|]. change (in_cluster (at_dev d3 b3 fs) c l) with (in_cluster fs c l).
    destruct (in_cluster fs c l) eqn:Ei; [apply Hpast in Ei; destruct G; nia|]. apply O3. by left.
Qed.

(** ** Contents *)

Definition cdata (fs : Vol) (d : D) (c : Z) : list Z :=
  concat (map (fun i => sector d (part_lba fs + csect fs c (Z.of_nat i))) (seq 0 (Z.to_nat (spc fs)))).
Definition content (fs : Vol) (d : D) (cs : list Z) : list Z := concat (map (cdata fs d) cs).

(** Only FAT entries [F] and the data of clusters [S] may differ. *)
Record kept (fs : Vol) (d d' : D) (F S : list Z) : Prop := {
  kept_fat : forall i x, 0 <= i < num_fats fs -> has_entry fs x -> x ∉ F -> fat fs d' i x = fat fs d i x;
  kept_data : forall x, valid fs x -> x ∉ S -> cdata fs d' x = cdata fs d x;
  kept_rest : forall r, 0 <= r < first_fat fs \/ first_fat fs + num_fats fs * fatsz fs <= r < first_data fs ->
    sector d' (part_lba fs + r) = sector d (part_lba fs + r)
}.

Lemma kept_refl fs d F S : kept fs d d F S.
Proof. by constructor. Qed.

Lemma kept_trans fs d1 d2 d3 F S : kept fs d1 d2 F S -> kept fs d2 d3 F S -> kept fs d1 d3 F S.
Proof.
  intros [A1 A2 A3] [B1 B2 B3]. constructor.
  - intros. by rewrite B1, A1.
  - intros. by rewrite B2, A2.
  - intros. by rewrite B3, A3.
Qed.

Lemma kept_mono fs d d' F S F' S' : kept fs d d' F S -> F ⊆ F' -> S ⊆ S' -> kept fs d d' F' S'.
Proof. intros [A1 A2 A3] HF HS. constructor; auto. Qed.

Lemma cdata_ext fs d d' c :
  (forall i, 0 <= i < spc fs -> sector d' (part_lba fs + csect fs c i) = sector d (part_lba fs + csect fs c i)) -> cdata fs d' c = cdata fs d c.
Proof.
  intros E. unfold cdata. f_equal. apply map_ext_in. intros i Hi. apply in_seq in Hi. apply E. lia.
Qed.

Lemma in_cluster_csect fs c x i : geo fs -> 0 <= i < spc fs -> in_cluster fs c (part_lba fs + csect fs x i) = (x =? c).
Proof.
  intros G Hi. unfold in_cluster. destruct (Z.eqb_spec x c) as [->|Hne].
  - apply andb_true_iff. unfold csect. lia.
  - apply not_true_iff_false. intros E. apply andb_true_iff in E. apply Hne.
    assert (0 <= csect fs x i - csect fs c 0 < spc fs) as Hd by lia.
    destruct (csect_unique fs x i c (csect fs x i - csect fs c 0) G Hi Hd) as [? _]; [|done]. unfold csect. lia.
Qed.

Lemma concat_replicate n (l : list nat) : concat (map (fun _ => replicate n 0) l) = replicate (n * length l) 0.
Proof. induction l as [|x l IH]; [by rewrite Nat.mul_0_r|]. cbn [map concat length]. rewrite IH, <- replicate_add. f_equal. lia. Qed.

(** The size of a cluster in bytes. *)
Definition csize (fs : Vol) : Z := spc fs * 512.

Lemma length_cdata fs d c : geo fs -> Z.of_nat (length (cdata fs d c)) = csize fs.
Proof.
  intros G. unfold cdata. assert (forall l, length (concat (map (fun i => sector d (part_lba fs + csect fs c (Z.of_nat i))) l)) = (512 * length l)%nat) as E.
  { induction l as [|x l IH]; [done|]. cbn [map concat length]. rewrite length_app, IH, (proj1 (sector_ok _ _)). lia. }
  rewrite E, length_seq. unfold csize. destruct G. lia.
Qed.

Lemma allocated_kept fs d d' prev c :
  geo fs -> allocated fs d d' prev c -> kept fs d d' (prev :: [c]) [c] /\ cdata fs d' c = replicate (Z.to_nat (csize fs)) 0.
Proof.
  intros G [A1 A2 A3 A4 A5 A6]. split; [constructor|].
  - intros i x Hi Hx Hn. rewrite A4 by done. destruct (Z.eqb_spec x prev) as [->|]; [exfalso; apply Hn; left|].
    destruct (Z.eqb_spec x c) as [->|]; [exfalso; apply Hn; right; left|]. by rewrite andb_false_r.
  - intros x Hx Hn. apply cdata_ext. intros i Hi. rewrite A5 by (pose proof (csect_past_fat fs x i G Hx); lia).
    rewrite in_cluster_csect by done. destruct (Z.eqb_spec x c) as [->|]; [exfalso; apply Hn; left|done].
  - intros r [Hr|Hr]; [apply A6; lia|]. rewrite A5 by lia. destruct (in_cluster _ _ _) eqn:E; [|done].
    unfold in_cluster, csect in E. bprop. destruct G. unfold valid in A1. nia.
  - transitivity (concat (map (fun _ : nat => replicate 512 0) (seq 0 (Z.to_nat (spc fs))))).
    { unfold cdata. f_equal. apply map_ext_in. intros i Hi. apply in_seq in Hi.
      rewrite A5 by (pose proof (csect_past_fat fs c (Z.of_nat i) G A1); lia). by rewrite in_cluster_csect, Z.eqb_refl by (auto; lia). }
    rewrite concat_replicate, length_seq. f_equal. unfold csize. destruct G. lia.
Qed.

(** ** Free clusters *)

Definition frees (f : Z -> Z) (m : Z) : list Z := filter (fun c => f c = 0) (map Z.of_nat (seq 2 (Z.to_nat (m - 1)))).

Lemma elem_of_frees f m c : c ∈ frees f m <-> f c = 0 /\ 2 <= c <= m.
Proof.
  unfold frees. rewrite list_elem_of_filter, list_elem_of_fmap. split.
  - intros [H1 (k & -> & Hk)]. apply elem_of_seq in Hk. split; [done|lia].
  - intros [H1 H2]. split; [done|]. exists (Z.to_nat c). split; [lia|]. apply elem_of_seq. lia.
Qed.

Lemma NoDup_frees f m : NoDup (frees f m).
Proof. apply NoDup_filter, NoDup_fmap; [apply _|apply NoDup_seq]. Qed.

(** Taking [c] leaves one free cluster less. *)
Lemma frees_take f f' m c :
  c ∈ frees f m -> f' c <> 0 -> (forall x, 2 <= x <= m -> x <> c -> (f' x = 0 <-> f x = 0)) ->
  S (length (frees f' m)) = length (frees f m).
Proof.
  intros Hc Hn Hx. assert (frees f m ≡ₚ c :: frees f' m) as ->; [|done].
  apply NoDup_Permutation; [apply NoDup_frees| |].
  - constructor; [|apply NoDup_frees]. intros [? _]%elem_of_frees. done.
  - intros x. rewrite elem_of_cons, !elem_of_frees. apply elem_of_frees in Hc as [Hc0 Hc]. destruct (decide (x = c)) as [->|Hne].
    + split; [by left|]. by split.
    + split; [intros [H1 H2]; right; split; [by apply Hx|done]|intros [?|[H1 H2]]; [done|]; split; [by apply Hx|done]].
Qed.

(** ** Growing a chain *)

Lemma linked_ext f f' m cs : linked f m cs -> (forall x, x ∈ cs -> f' x = f x) -> linked f' m cs.
Proof.
  induction cs as [|c cs IH]; [done|]. intros [Hc Hr] Hx. split; [done|]. destruct cs as [|c' cs].
  - by rewrite Hx by left.
  - destruct Hr as [Hf Hr]. split; [by rewrite Hx by left|]. apply IH; [done|]. intros x Hin. apply Hx. by right.
Qed.

Lemma linked_snoc f f' m cs p c :
  linked f m (cs ++ [p]) -> (forall x, x ∈ cs -> f' x = f x) -> f' p = c -> (f' c <> 0 /\ nextc (f' c) = 0) -> 2 <= c <= m ->
  linked f' m (cs ++ [p; c]).
Proof.
  induction cs as [|a cs IH]; intros Hl Hx Hp Hc Hr.
  - destruct Hl as [? _]. split; [done|]. split; [done|]. by split.
  - cbn [app] in *. destruct Hl as [Ha Hl]. split; [done|]. specialize (IH).
    destruct cs as [|b cs]; cbn [app] in *.
    + destruct Hl as [Hf Hl]. split; [rewrite Hx; [done|left]|]. apply IH; auto. intros x Hin. by apply not_elem_of_nil in Hin.
    + destruct Hl as [Hf Hl]. split; [rewrite Hx; [done|left]|]. apply IH; auto. intros x Hin. apply Hx. by right.
Qed.

Lemma in_use f m cs x : linked f m cs -> x ∈ cs -> f x <> 0.
Proof.
  induction cs as [|c cs IH]; intros Hl Hx; [by apply not_elem_of_nil in Hx|].
  destruct cs as [|c' cs]; [apply list_elem_of_singleton in Hx as ->; by destruct Hl as (_ & ? & _)|].
  destruct Hl as (Hc & Hf & Hl). apply elem_of_cons in Hx as [->|Hx]; [|by apply IH].
  rewrite Hf. destruct Hl as [? _]. lia.
Qed.

(** A run that appends [new] to the chain [cs]. *)
Record grown (fs : Vol) (d d' : D) (cs new : list Z) : Prop := {
  gr_chain : chain (fat fs d' 0) (max_cluster fs) (cs ++ new);
  gr_new : forall x, x ∈ new -> valid fs x /\ fat fs d 0 x = 0 /\ cdata fs d' x = replicate (Z.to_nat (csize fs)) 0;
  gr_kept : kept fs d d' (cs ++ new) new;
  gr_frees : (length (frees (fat fs d' 0) (max_cluster fs)) + length new)%nat = length (frees (fat fs d 0) (max_cluster fs))
}.

(** One cluster more. *)
Lemma alloc_grown fs d d' cs p c :
  geo fs -> chain (fat fs d 0) (max_cluster fs) (cs ++ [p]) -> allocated fs d d' p c -> grown fs d d' (cs ++ [p]) [c].
Proof.
  intros G [Hl Hn] A. destruct (allocated_kept fs d d' p c G A) as [K Kz]. destruct A as [A1 A2 A3 A4 _ _]. unfold valid in A1.
  assert (2 <= p <= max_cluster fs) as Hp by (apply (linked_in _ _ _ _ Hl), elem_of_app; right; left).
  assert (forall x, has_entry fs x -> fat fs d' 0 x = if x =? p then c else if x =? c then FAT_EOC else fat fs d 0 x) as Hf.
  { intros x Hx. rewrite A4 by (auto; destruct G; lia). destruct (Z.eqb_spec p 0); [lia|done]. }
  assert (c ∉ cs ++ [p]) as Hc by (intros Hin; by apply (in_use _ _ _ _ Hl Hin)).
  assert (c <> p) as Hcp by (intros ->; apply Hc, elem_of_app; right; left).
  assert (forall x, x ∈ cs -> x <> p /\ x <> c /\ has_entry fs x) as Hcs.
  { intros x Hx. apply NoDup_app in Hn as (_ & Hn & _). split; [intros ->; apply (Hn p Hx); left|]. split; [intros ->; apply Hc, elem_of_app; by left|].
    pose proof (linked_in _ _ _ x Hl). unfold has_entry. assert (x ∈ cs ++ [p]) by (apply elem_of_app; by left). intuition lia. }
  constructor.
  - rewrite <- app_assoc. split.
    + apply (linked_snoc (fat fs d 0)); auto.
      * intros x Hx. destruct (Hcs x Hx) as (? & ? & ?). rewrite Hf by done. destruct (Z.eqb_spec x p), (Z.eqb_spec x c); done.
      * rewrite Hf by (unfold has_entry; lia). by rewrite Z.eqb_refl.
      * rewrite Hf by (unfold has_entry; lia). destruct (Z.eqb_spec c p); [done|]. by rewrite Z.eqb_refl.
    + rewrite app_assoc. apply NoDup_app. split; [done|]. split; [|apply NoDup_singleton]. intros x Hx ->%list_elem_of_singleton. done.
  - intros x ->%list_elem_of_singleton. done.
  - eapply kept_mono; [exact K| |done]. intros x Hx. rewrite !elem_of_app. apply elem_of_cons in Hx as [->|Hx]; [left; right; left|by right].
  - rewrite Nat.add_1_r. apply (frees_take _ _ _ c).
    + by apply elem_of_frees.
    + rewrite Hf by (unfold has_entry; lia). destruct (Z.eqb_spec c p); [done|]. by rewrite Z.eqb_refl.
    + intros x Hx Hne. rewrite Hf by (unfold has_entry; lia). destruct (Z.eqb_spec x p) as [->|].
      * split; [lia|]. intros E. exfalso. apply (in_use _ _ _ p Hl); [apply elem_of_app; right; left|done].
      * destruct (Z.eqb_spec x c); done.
Qed.

Lemma grown_trans fs d1 d2 d3 cs n1 n2 :
  geo fs -> grown fs d1 d2 cs n1 -> grown fs d2 d3 (cs ++ n1) n2 -> grown fs d1 d3 cs (n1 ++ n2).
Proof.
  intros G [A1 A2 A3 A4] [B1 B2 B3 B4]. destruct A1 as [Al An]. destruct B1 as [Bl Bn].
  assert (forall x, x ∈ n2 -> x ∉ cs ++ n1) as Hd by (intros x Hx Hin; apply NoDup_app in Bn as (_ & Hn & _); by apply (Hn x)).
  constructor.
  - rewrite app_assoc. by split.
  - intros x [Hx|Hx]%elem_of_app.
    + destruct (A2 x Hx) as (H1 & H2 & H3). split; [done|]. split; [done|]. rewrite <- H3. apply (kept_data _ _ _ _ _ B3); [done|].
      intros Hin. apply (Hd x Hin), elem_of_app. by right.
    + destruct (B2 x Hx) as (H1 & H2 & H3). split; [done|]. split; [|done]. etransitivity; [symmetry|exact H2].
      apply (kept_fat _ _ _ _ _ A3); [destruct G; lia|unfold valid, has_entry in *; lia|by apply Hd].
  - apply (kept_trans _ _ d2); [eapply kept_mono; [exact A3| |]|eapply kept_mono; [exact B3| |]];
    intros x; rewrite !elem_of_app; tauto.
  - rewrite length_app. lia.
Qed.

Lemma kept_at d b fs d1 d2 F S : kept (at_dev d b fs) d1 d2 F S -> kept fs d1 d2 F S.
Proof. intros [K1 K2 K3]. by constructor. Qed.

Lemma grown_at d b fs d1 d2 cs n : grown (at_dev d b fs) d1 d2 cs n -> grown fs d1 d2 cs n.
Proof. intros [A1 A2 A3 A4]. constructor; auto. by apply (kept_at d b). Qed.

Lemma grow_loop_ok k fs cs p :
  geo fs -> buf_ok (sec fs) -> chain (fat fs (dev fs) 0) (max_cluster fs) (cs ++ [p]) ->
  (k <= length (frees (fat fs (dev fs) 0) (max_cluster fs)))%nat ->
  exists new d b, grow_loop dev_rd dev_wr k p fs = (Some tt, at_dev d b fs) /\ buf_ok b /\ length new = k /\
    grown fs (dev fs) d (cs ++ [p]) new.
Proof.
  revert fs cs p; induction k as [|k IH]; intros fs cs p G Hb Hc Hk; cbn [grow_loop].
  { exists [], (dev fs), (sec fs). split; [by destruct fs|]. split; [done|]. split; [done|].
    constructor; [by rewrite app_nil_r| |apply kept_refl|cbn; lia]. intros x Hx. by apply not_elem_of_nil in Hx. }
  assert (valid fs p) as Hp by (apply (linked_in _ _ _ p (proj1 Hc)), elem_of_app; right; left).
  destruct (cluster_alloc_ok fs p G Hb ltac:(by right)) as [(b & _ & _ & Hno)|(c & d1 & b1 & E1 & Hb1 & A)].
  { exfalso. destruct (frees _ _) as [|x l] eqn:El; [cbn in Hk; lia|].
    assert (x ∈ frees (fat fs (dev fs) 0) (max_cluster fs)) as Hx by (rewrite El; left). apply elem_of_frees in Hx as [Hx1 Hx2]. by apply (Hno x). }
  pose proof (alloc_grown fs (dev fs) d1 cs p c G Hc A) as G1. rewrite (bind_some _ _ fs _ _ E1).
  destruct (IH (at_dev d1 b1 fs) (cs ++ [p]) c) as (new & d & b & E & Hb' & Hn & Gn).
  - by apply geo_at.
  - done.
  - exact (gr_chain _ _ _ _ _ G1).
  - pose proof (gr_frees _ _ _ _ _ G1) as Hfr. cbn [length] in Hfr. change (dev (at_dev d1 b1 fs)) with d1.
    change (fat (at_dev d1 b1 fs) d1 0) with (fat fs d1 0). change (max_cluster (at_dev d1 b1 fs)) with (max_cluster fs). lia.
  - exists (c :: new), d, b. split; [exact E|]. split; [done|]. split; [cbn; lia|].
    apply (grown_trans fs (dev fs) d1 d (cs ++ [p]) [c] new G G1). by apply (grown_at d1 b1).
Qed.

(** A chain of one new cluster. *)
Lemma alloc_first fs d d' c : geo fs -> allocated fs d d' 0 c -> grown fs d d' [] [c].
Proof.
  intros G A. destruct (allocated_kept fs d d' 0 c G A) as [K Kz]. destruct A as [A1 A2 A3 A4 _ _]. unfold valid in A1.
  assert (forall i x, 0 <= i < num_fats fs -> has_entry fs x -> fat fs d' i x = if x =? c then FAT_EOC else fat fs d i x) as Hf by exact A4.
  assert (0 <= 0 < num_fats fs) as H0 by (destruct G; lia). constructor.
  - split; [|apply NoDup_singleton]. split; [done|]. rewrite Hf by (auto; unfold has_entry; lia). by rewrite Z.eqb_refl.
  - intros x ->%list_elem_of_singleton. done.
  - constructor; [|apply (kept_data _ _ _ _ _ K)|apply (kept_rest _ _ _ _ _ K)]. intros i x Hi Hx Hn. rewrite Hf by done.
    destruct (Z.eqb_spec x c) as [->|]; [exfalso; apply Hn; left|done].
  - rewrite Nat.add_1_r. apply (frees_take _ _ _ c); [by apply elem_of_frees| |].
    + rewrite Hf by (auto; unfold has_entry; lia). by rewrite Z.eqb_refl.
    + intros x Hx Hne. rewrite Hf by (auto; unfold has_entry; lia). by destruct (Z.eqb_spec x c).
Qed.

(** The chain of a file: none when its first cluster is 0. *)
Definition fchain (f : Z -> Z) (m first : Z) (cs : list Z) : Prop :=
  match cs with [] => first = 0 | c :: _ => first = c /\ chain f m cs end.

Lemma grown_refl fs d c cs : chain (fat fs d 0) (max_cluster fs) (c :: cs) -> grown fs d d (c :: cs) [].
Proof.
  intros Hc. constructor; [by rewrite app_nil_r| |apply kept_refl|cbn; lia]. intros x Hx. by apply not_elem_of_nil in Hx.
Qed.

Lemma ensure_chain_ok fs first cs need :
  geo fs -> buf_ok (sec fs) -> fchain (fat fs (dev fs) 0) (max_cluster fs) first cs -> 0 < need ->
  need - Z.of_nat (length cs) <= Z.of_nat (length (frees (fat fs (dev fs) 0) (max_cluster fs))) ->
  exists nf new d b, ensure_chain dev_rd dev_wr first need fs = (Some nf, at_dev d b fs) /\ buf_ok b /\
    fchain (fat fs d 0) (max_cluster fs) nf (cs ++ new) /\ grown fs (dev fs) d cs new /\
    Z.of_nat (length (cs ++ new)) = Z.max need (Z.of_nat (length cs)).
Proof.
  intros G Hb Hc Hn Hfr. destruct cs as [|c cs].
  - cbn in Hc. subst first. cbn [length] in Hfr.
    destruct (cluster_alloc_ok fs 0 G Hb ltac:(by left)) as [(b & _ & _ & Hno)|(c & d1 & b1 & E1 & Hb1 & A)].
    { exfalso. destruct (frees _ _) as [|x l] eqn:El; [cbn in Hfr; lia|].
      assert (x ∈ frees (fat fs (dev fs) 0) (max_cluster fs)) as Hx by (rewrite El; left). apply elem_of_frees in Hx as [? ?]. by apply (Hno x). }
    pose proof (alloc_first fs _ d1 c G A) as G1. pose proof (gr_frees _ _ _ _ _ G1) as F1. cbn [length] in F1.
    destruct (grow_loop_ok (Z.to_nat (need - 1)) (at_dev d1 b1 fs) [] c) as (new & d & b & E & Hb' & Ln & Gn).
    + by apply geo_at.
    + done.
    + exact (gr_chain _ _ _ _ _ G1).
    + change (fat (at_dev d1 b1 fs) (dev (at_dev d1 b1 fs)) 0) with (fat fs d1 0). change (max_cluster (at_dev d1 b1 fs)) with (max_cluster fs). lia.
    + apply grown_at in Gn. pose proof (grown_trans fs _ _ _ [] [c] new G G1 Gn) as Gt.
      exists c, (c :: new), d, b. split.
      { unfold ensure_chain. destruct (Z.eqb_spec need 0); [lia|]. change (0 =? 0) with true. cbv iota.
        rewrite (bind_some _ _ fs 0 fs eq_refl). destruct (Z.leb_spec need 0); [lia|]. change (0 =? 0) with true. cbv iota.
        by rewrite (bind_some _ _ fs _ _ E1), (bind_some _ _ _ _ _ E). }
      split; [done|]. split; [split; [done|exact (gr_chain _ _ _ _ _ Gt)]|]. split; [done|]. cbn [app length]. lia.
  - destruct Hc as [-> Hc]. pose proof (linked_in _ _ _ c (proj1 Hc) ltac:(left)) as Hc2. cbn [length] in *.
    unfold ensure_chain. destruct (Z.eqb_spec need 0); [lia|]. destruct (Z.eqb_spec c 0); [lia|].
    rewrite (bind_some _ _ fs _ _ (chain_len_ok fs c cs G Hc)). cbn [length]. destruct (Z.leb_spec need (Z.of_nat (S (length cs)))).
    + exists c, [], (dev fs), (sec fs). rewrite app_nil_r. split; [by destruct fs|]. split; [done|]. split; [by split|]. split; [by apply grown_refl|]. cbn [length]. lia.
    + destruct (Z.eqb_spec (Z.of_nat (S (length cs))) 0); [lia|].
      destruct (exists_last (l := c :: cs) ltac:(done)) as (l & p & El).
      assert (length (c :: cs) = S (length l)) as Ll by (rewrite El, length_app; cbn; lia). cbn [length] in Ll.
      assert ((c :: cs) !! Z.to_nat (Z.of_nat (S (length cs)) - 1) = Some p) as Hp.
      { rewrite El. replace (Z.to_nat _) with (length l) by lia. by apply list_lookup_middle. }
      rewrite (bind_some _ _ fs _ _ (chain_at_ok fs c cs (Z.of_nat (S (length cs)) - 1) p G (proj1 Hc) ltac:(lia) Hp)). rewrite El in Hc.
      destruct (grow_loop_ok (Z.to_nat (need - Z.of_nat (S (length cs)))) fs l p G Hb Hc) as (new & d & b & E & Hb' & Ln & Gn); [lia|].
      rewrite <- El in Gn. exists c, new, d, b. rewrite (bind_some _ _ fs _ _ E). split; [done|]. split; [done|].
      split; [split; [done|exact (gr_chain _ _ _ _ _ Gn)]|]. split; [done|]. rewrite length_app. cbn [length]. lia.
Qed.

(** ** Releasing a chain *)

Lemma fat_updated_all fs d d' c v :
  geo fs -> fat_updated fs d d' 0 (num_fats fs) c v ->
  (forall i x, 0 <= i < num_fats fs -> has_entry fs x -> fat fs d' i x = if x =? c then v else fat fs d i x) /\ kept fs d d' [c] [].
Proof.
  intros G [F O]. assert (forall i x, 0 <= i < num_fats fs -> has_entry fs x -> fat fs d' i x = if x =? c then v else fat fs d i x) as F'.
  { intros i x Hi Hx. rewrite F by done. rewrite (proj2 (Z.leb_le 0 i)), (proj2 (Z.ltb_lt i _)) by lia. done. }
  split; [done|]. constructor.
  - intros i x Hi Hx Hn. rewrite F' by done. destruct (Z.eqb_spec x c) as [->|]; [exfalso; apply Hn; left|done].
  - intros x Hx _. apply cdata_ext. intros i Hi. apply O. right. pose proof (csect_past_fat fs x i G Hx). lia.
  - intros r [Hr|Hr]; apply O; lia.
Qed.

Lemma free_loop_ok fuel fs c cs :
  geo fs -> buf_ok (sec fs) -> chain (fat fs (dev fs) 0) (max_cluster fs) (c :: cs) -> (length (c :: cs) <= fuel)%nat ->
  exists d b, free_loop dev_rd dev_wr fuel c fs = (Some tt, at_dev d b fs) /\ buf_ok b /\
    kept fs (dev fs) d (c :: cs) [] /\ forall i x, 0 <= i < num_fats fs -> x ∈ c :: cs -> fat fs d i x = 0.
Proof.
  revert fs c cs; induction fuel as [|fuel IH]; intros fs c cs G Hb Hc Hf; [cbn in Hf; lia|].
  destruct Hc as [Hl Hn]. pose proof (linked_in _ _ _ c Hl ltac:(left)) as Hc2. assert (has_entry fs c) as He by (unfold has_entry; lia).
  destruct (fat_set_ok fs c 0 G He ltac:(lia) Hb) as (d1 & b1 & E1 & Hb1 & U). destruct (fat_updated_all fs _ _ _ _ G U) as [F1 K1].
  cbn [free_loop]. rewrite bind_gets. unfold in_range. rewrite (proj2 (Z.leb_le 2 c)), (proj2 (Z.leb_le c _)) by lia. cbn [andb].
  rewrite (bind_some _ _ fs _ _ (fat_next_ok fs c G He)), (bind_some _ _ fs _ _ E1). destruct cs as [|c' cs].
  - destruct Hl as (_ & _ & ->). exists d1, b1. split; [by destruct fuel|]. split; [done|]. split; [done|].
    intros i x Hi ->%list_elem_of_singleton. rewrite F1 by done. by rewrite Z.eqb_refl.
  - pose proof (linked_tail _ _ _ _ _ Hl) as Hl'. destruct Hl as (_ & Hfc & _). apply NoDup_cons in Hn as [Hnc Hn].
    pose proof (linked_in _ _ _ c' Hl' ltac:(left)) as Hc'. rewrite Hfc, (nextc_in c' (max_cluster fs)) by (destruct G; lia).
    destruct (IH (at_dev d1 b1 fs) c' cs) as (d & b & E & Hb' & K & Z0).
    + by apply geo_at.
    + done.
    + split; [|done]. change (fat (at_dev d1 b1 fs) (dev (at_dev d1 b1 fs)) 0) with (fat fs d1 0). change (max_cluster (at_dev d1 b1 fs)) with (max_cluster fs).
      apply (linked_ext (fat fs (dev fs) 0)); [done|]. intros x Hx. rewrite F1; [|destruct G; lia|pose proof (linked_in _ _ _ x Hl' Hx); unfold has_entry; lia].
      destruct (Z.eqb_spec x c) as [->|]; done.
    + cbn [length] in *. lia.
    + apply kept_at in K. exists d, b. split; [exact E|]. split; [done|]. split.
      * apply (kept_trans _ _ d1).
        -- eapply kept_mono; [exact K1| |done]. intros x ->%list_elem_of_singleton. left.
        -- eapply kept_mono; [exact K| |done]. intros x Hx. by right.
      * intros i x Hi [->|Hx]%elem_of_cons; [|by apply Z0]. rewrite (kept_fat _ _ _ _ _ K) by done. rewrite F1 by done. by rewrite Z.eqb_refl.
Qed.

Lemma free_chain_ok fs c cs :
  geo fs -> buf_ok (sec fs) -> chain (fat fs (dev fs) 0) (max_cluster fs) (c :: cs) ->
  exists d b, free_chain dev_rd dev_wr c fs = (Some tt, at_dev d b fs) /\ buf_ok b /\
    kept fs (dev fs) d (c :: cs) [] /\ forall i x, 0 <= i < num_fats fs -> x ∈ c :: cs -> fat fs d i x = 0.
Proof.
  intros G Hb Hc. pose proof (chain_short _ _ _ Hc) as Hs. unfold free_chain. rewrite bind_gets.
  apply free_loop_ok; auto. destruct G. lia.
Qed.
End Chains.
