(* ===== verification/FatFile.v ===== *)
(** Reading and writing the bytes of a cluster chain ([range_write] and the loop
    of [read] in [vnu/kernel/fs/fat16.cpp]), and what the operations on chains
    promise. *)
From S2P Require Import Prelude Fat16 FatChain.
Local Open Scope vnu_scope.

(** ** Overwriting part of a list *)

Lemma put_put p i a b : (i + length a + length b <= length p)%nat -> put (put p i a) (i + length a) b = put p i (a ++ b).
Proof.
  intros Hl. apply list_eq_at; [by rewrite !length_put|]. intros j _.
  rewrite (at_put b) by (rewrite length_put; lia). rewrite !at_put by (rewrite ?length_app; lia). rewrite length_app.
  repeat case_decide; try lia; try done.
  - rewrite at_app_r by lia. f_equal. lia.
  - by rewrite at_app_l by lia.
Qed.

Lemma put_app_l p q i a : (i + length a <= length p)%nat -> put (p ++ q) i a = put p i a ++ q.
Proof.
  intros Hl. apply list_eq_at; [rewrite length_put, !length_app, length_put; done|]. intros j _.
  rewrite at_put by (rewrite length_app; lia). destruct (decide (j < length p)%nat).
  - rewrite (at_app_l (put p i a)) by (rewrite length_put; lia). rewrite at_put by lia. case_decide; [done|]. by rewrite at_app_l by lia.
  - rewrite !at_app_r by (rewrite ?length_put; lia). rewrite length_put. case_decide; [lia|done].
Qed.

Lemma put_app_r p q i a : (length p <= i)%nat -> (i + length a <= length p + length q)%nat -> put (p ++ q) i a = p ++ put q (i - length p) a.
Proof.
  intros Hi Hl. apply list_eq_at; [rewrite length_put, !length_app, length_put; done|]. intros j _.
  rewrite at_put by (rewrite length_app; lia). destruct (decide (j < length p)%nat).
  - rewrite !at_app_l by lia. case_decide; [lia|done].
  - rewrite !at_app_r by lia. rewrite at_put by lia. repeat case_decide; try lia; try done. f_equal. lia.
Qed.

(** A write that runs from one list into the next. *)
Lemma put_across p q i a b :
  (i + length a)%nat = length p -> (length b <= length q)%nat -> put (p ++ q) i (a ++ b) = put p i a ++ put q 0 b.
Proof.
  intros Ha Hb. rewrite <- put_put by (rewrite length_app; lia). rewrite put_app_l by lia.
  rewrite put_app_r; rewrite ?length_put; [|lia|lia]. by rewrite Ha, Nat.sub_diag.
Qed.

Lemma put_all p a : length a = length p -> put p 0 a = a.
Proof. intros Hl. rewrite put_split by lia. cbn [take app Nat.add]. rewrite drop_ge by lia. apply app_nil_r. Qed.

Section Files.
Context {D : Type} (dev_rd : D -> Z -> option (list Z)) (dev_wr : D -> Z -> list Z -> option D) `{!Disk dev_rd dev_wr}.
Abbreviation Vol := (@Fs D).
Abbreviation cdata := (cdata dev_rd dev_wr).
Abbreviation content := (content dev_rd dev_wr).
Abbreviation csize := (@csize D).

(** ** The bytes of a cluster *)

Lemma at_cdata fs d c j :
  geo dev_rd dev_wr fs -> 0 <= j < csize fs -> at_ (cdata fs d c) (Z.to_nat j) = at_ (sector d (part_lba fs + csect fs c (j / 512))) (Z.to_nat (j mod 512)).
Proof.
  intros G Hj. unfold FatChain.cdata, FatChain.csize in *.
  assert (forall n k j, 0 <= j < Z.of_nat n * 512 ->
    at_ (concat (map (fun i => sector d (part_lba fs + csect fs c (Z.of_nat i))) (seq k n))) (Z.to_nat j) =
    at_ (sector d (part_lba fs + csect fs c (Z.of_nat k + j / 512))) (Z.to_nat (j mod 512))) as E.
  { clear j Hj. induction n as [|n IH]; intros k j Hj; [lia|]. cbn [seq map concat].
    set (b := sector d _). assert (length b = 512%nat) as Lb by apply sector_ok. destruct (decide (j < 512)).
    - rewrite at_app_l by lia. rewrite Z.div_small, Z.mod_small by lia. by rewrite Z.add_0_r.
    - rewrite at_app_r, Lb by lia. replace (Z.to_nat j - 512)%nat with (Z.to_nat (j - 512)) by lia. rewrite IH by lia.
      replace ((j - 512) / 512) with (j / 512 - 1) by (replace (j - 512) with (j + (-1) * 512) by lia; rewrite Z.div_add; lia).
      replace ((j - 512) mod 512) with (j mod 512) by (replace (j - 512) with (j + (-1) * 512) by lia; by rewrite Z.mod_add).
      do 4 f_equal. lia. }
  rewrite E by (destruct G; lia). do 4 f_equal.
Qed.

(** A store to one sector of the cluster. *)
Lemma cdata_store fs d d' c s so piece :
  geo dev_rd dev_wr fs -> 0 <= s < spc fs -> (so + length piece <= 512)%nat ->
  stored dev_rd dev_wr fs d d' (csect fs c s) (put (sector d (part_lba fs + csect fs c s)) so piece) ->
  cdata fs d' c = put (cdata fs d c) (Z.to_nat (s * 512) + so) piece.
Proof.
  intros G Hs Hl St. pose proof (length_cdata dev_rd dev_wr fs d c G) as L1. pose proof (length_cdata dev_rd dev_wr fs d' c G) as L2.
  unfold FatChain.csize in *. apply list_eq_at; [rewrite length_put; lia|]. intros j Hj.
  rewrite at_put by nia. pose proof (at_cdata fs d c (Z.of_nat j) G) as A1. pose proof (at_cdata fs d' c (Z.of_nat j) G) as A2.
  unfold FatChain.csize in A1, A2. rewrite Nat2Z.id in A1, A2. rewrite A1, A2 by lia.
  pose proof (Z.mod_pos_bound (Z.of_nat j) 512 ltac:(lia)). pose proof (Z_div_mod_eq_full (Z.of_nat j) 512).
  rewrite St. destruct (Z.eqb_spec (part_lba fs + csect fs c (Z.of_nat j / 512)) (part_lba fs + csect fs c s)) as [E|E].
  - assert (Z.of_nat j / 512 = s) as Es by (unfold csect in E; lia). rewrite at_put by (rewrite (proj1 (sector_ok _ _)); lia). rewrite Es in *.
    repeat case_decide; try lia; f_equal; lia.
  - case_decide; [|done]. exfalso. apply E. do 2 f_equal. nia.
Qed.

(** ** Writing *)

(** A whole sector is written as it is, part of one is merged with what is there. *)
Lemma sector_write_ok fs r so piece :
  geo dev_rd dev_wr fs -> buf_ok (sec fs) -> in_volume fs r -> 0 <= so -> so + Z.of_nat (length piece) <= 512 -> bytes piece ->
  exists d b, (if (so =? 0) && (Z.of_nat (length piece) =? SECTOR) then dev_write dev_wr r piece
               else bind (load dev_rd r) (fun _ => bind (upd_sec (fun b => put b (Z.to_nat so) piece)) (fun _ => store dev_wr r))) fs
    = (Some tt, at_dev d b fs) /\ buf_ok b /\ stored dev_rd dev_wr fs (dev fs) d r (put (sect dev_rd dev_wr fs r) (Z.to_nat so) piece).
Proof.
  intros G Hb Hr Hso Hl Hp. destruct (sector_ok (dev fs) (part_lba fs + r)) as [Ls Bs]. unfold SECTOR. destruct (_ && _) eqn:E.
  - bprop. subst so. destruct (dev_write_ok dev_rd dev_wr fs r piece G Hr) as (d & E1 & St); [split; [lia|done]|].
    exists d, (sec fs). split; [rewrite E1; by destruct fs|]. split; [done|]. change (Z.to_nat 0) with 0%nat. rewrite put_all by (unfold sect; lia). done.
  - set (b1 := put (sect dev_rd dev_wr fs r) (Z.to_nat so) piece).
    assert (buf_ok b1) as Hb1 by (split; [unfold b1; rewrite length_put; exact Ls|by apply bytes_put]).
    destruct (store_ok dev_rd dev_wr (set_sec b1 fs) r) as (d & E1 & St); [destruct G; by constructor|done|done|].
    exists d, b1. rewrite (bind_some _ _ fs _ _ (load_ok dev_rd dev_wr fs r G Hr)). split; [exact E1|]. split; [done|exact St].
Qed.

(** What one sector's store leaves alone. *)
Lemma stored_kept fs d d' c s b :
  geo dev_rd dev_wr fs -> valid fs c -> 0 <= s < spc fs -> stored dev_rd dev_wr fs d d' (csect fs c s) b -> kept dev_rd dev_wr fs d d' [] [c].
Proof.
  intros G Hc Hs St. pose proof (csect_past_fat dev_rd dev_wr fs c s G Hc ltac:(lia)) as Hp. constructor.
  - intros i x Hi Hx _. unfold fat. f_equal. rewrite St. destruct (fat_sector_in dev_rd dev_wr fs i x G Hx Hi) as [? _].
    destruct (Z.eqb_spec (part_lba fs + fat_sector fs i x) (part_lba fs + csect fs c s)); [lia|done].
  - intros x Hx Hn. apply cdata_ext. intros i Hi. rewrite St.
    destruct (Z.eqb_spec (part_lba fs + csect fs x i) (part_lba fs + csect fs c s)) as [E|]; [|done].
    exfalso. apply Hn. destruct (csect_unique dev_rd dev_wr fs x i c s G Hi Hs) as [-> _]; [lia|left].
  - intros r Hr. rewrite St. destruct (Z.eqb_spec (part_lba fs + r) (part_lba fs + csect fs c s)) as [E|]; [|done].
    exfalso. unfold csect, valid in *. assert (0 <= (c - 2) * spc fs) by (apply Z.mul_nonneg_nonneg; lia).
    assert (0 <= num_fats fs * fatsz fs) by (apply Z.mul_nonneg_nonneg; destruct G; lia). destruct G; lia.
Qed.

Lemma content_kept fs d d' F S cs :
  kept dev_rd dev_wr fs d d' F S -> (forall x, x ∈ cs -> valid fs x /\ x ∉ S) -> content fs d' cs = content fs d cs.
Proof.
  intros K Hx. unfold FatChain.content. f_equal. apply map_ext_in. intros x Hin%list_elem_of_In. destruct (Hx x Hin).
  by apply (kept_data _ _ _ _ _ _ _ K).
Qed.

Lemma length_content fs d cs : geo dev_rd dev_wr fs -> Z.of_nat (length (content fs d cs)) = csize fs * Z.of_nat (length cs).
Proof.
  intros G. induction cs as [|c cs IH]; [cbn; lia|]. unfold FatChain.content in *. cbn [map concat length]. rewrite length_app.
  pose proof (length_cdata dev_rd dev_wr fs d c G). lia.
Qed.

(** What is still to be written, as [write_loop] is told. *)
Definition src_of (src : option (list Z)) (data : list Z) : Prop := match src with Some b => b = data | None => data = replicate (length data) 0 end.

Lemma src_piece src data k : src_of src data -> (k <= length data)%nat ->
  match src with Some b => take k b | None => replicate k 0 end = take k data /\
  src_of (match src with Some b => Some (drop k b) | None => None end) (drop k data).
Proof.
  unfold src_of. destruct src as [b|]; [by intros ->|]. set (n := length data). clearbody n. intros -> Hk.
  rewrite take_replicate, drop_replicate, length_replicate. split; [f_equal; lia|done].
Qed.

Lemma cb_ok (fs : Vol) : geo dev_rd dev_wr fs -> u32 (spc fs * SECTOR) = csize fs.
Proof. intros []. unfold SECTOR, FatChain.csize. apply u32_id. unfold is_u32. lia. Qed.

Lemma length_cdata_nat fs d c : geo dev_rd dev_wr fs -> length (cdata fs d c) = Z.to_nat (csize fs).
Proof. intros G. pose proof (length_cdata dev_rd dev_wr fs d c G). lia. Qed.

(** The first sector's worth of a write: the cluster it goes to, the bytes that are left. *)
Lemma write_step fs clu within data :
  geo dev_rd dev_wr fs -> buf_ok (sec fs) -> valid fs clu -> 0 <= within < csize fs -> bytes data -> data <> [] ->
  let so := within mod SECTOR in
  let chunk := if Z.of_nat (length data) <? SECTOR - so then Z.of_nat (length data) else SECTOR - so in
  let piece := take (Z.to_nat chunk) data in
  exists d b,
    (if (so =? 0) && (chunk =? SECTOR) then dev_write dev_wr (csect fs clu (within / SECTOR)) piece
     else bind (load dev_rd (csect fs clu (within / SECTOR))) (fun _ => bind (upd_sec (fun b => put b (Z.to_nat so) piece)) (fun _ => store dev_wr (csect fs clu (within / SECTOR))))) fs
      = (Some tt, at_dev d b fs) /\ buf_ok b /\ kept dev_rd dev_wr fs (dev fs) d [] [clu] /\
    cdata fs d clu = put (cdata fs (dev fs) clu) (Z.to_nat within) piece /\
    1 <= chunk <= Z.of_nat (length data) /\ within + chunk <= csize fs /\ Z.of_nat (length piece) = chunk /\
    (chunk < Z.of_nat (length data) -> (within + chunk) mod SECTOR = 0).
Proof.
  intros G Hb Hv Hw Hby Hne so chunk piece. unfold SECTOR in *. unfold FatChain.csize in *.
  assert (1 <= Z.of_nat (length data)) by (destruct data; [done|cbn; lia]).
  pose proof (Z.mod_pos_bound within 512 ltac:(lia)) as Hso. pose proof (Z_div_mod_eq_full within 512) as Hdm. fold so in Hso, Hdm.
  assert (0 <= within / 512 < spc fs) as Hs by (split; [apply Z.div_pos; lia|apply Z.div_lt_upper_bound; lia]).
  assert (1 <= chunk <= Z.of_nat (length data) /\ so + chunk <= 512 /\ (chunk < Z.of_nat (length data) -> so + chunk = 512)) as (Hc1 & Hc2 & Hc3)
    by (subst chunk; bcase; lia).
  assert (Z.of_nat (length piece) = chunk) as Lp by (unfold piece; rewrite length_take; lia).
  destruct (sector_write_ok fs (csect fs clu (within / 512)) so piece G Hb) as (d & b & E & Hb1 & St);
    [by apply (csect_in dev_rd dev_wr)|lia|lia|by apply Forall_take|].
  rewrite Lp in E. unfold SECTOR in E. exists d, b. split; [exact E|]. split; [done|]. split; [by eapply stored_kept|].
  split; [|split; [done|split; [nia|split; [done|]]]].
  - rewrite (cdata_store fs (dev fs) d clu (within / 512) (Z.to_nat so) piece G Hs ltac:(lia) St). f_equal. lia.
  - intros Hlt. specialize (Hc3 Hlt). replace (within + chunk) with ((within / 512 + 1) * 512) by lia. apply Z.mod_mul. lia.
Qed.

Lemma range_loop_ok fuel fs clu rest within src data :
  geo dev_rd dev_wr fs -> buf_ok (sec fs) -> chain (fat dev_rd dev_wr fs (dev fs) 0) (max_cluster fs) (clu :: rest) ->
  0 <= within < csize fs -> within + Z.of_nat (length data) <= csize fs * Z.of_nat (length (clu :: rest)) ->
  bytes data -> src_of src data -> (length data <= fuel)%nat ->
  exists d b, write_loop dev_rd dev_wr fuel clu within src (Z.of_nat (length data)) fs = (Some tt, at_dev d b fs) /\ buf_ok b /\
    kept dev_rd dev_wr fs (dev fs) d [] (clu :: rest) /\
    content fs d (clu :: rest) = put (content fs (dev fs) (clu :: rest)) (Z.to_nat within) data.
Proof.
  revert fs clu rest within src data; induction fuel as [|fuel IH]; intros fs clu rest within src data G Hb Hc Hw Hl Hby Hs Hf;
    (destruct data as [|a data]; [exists (dev fs), (sec fs); split; [by destruct fs|]; split; [done|]; split; [apply kept_refl|done]|]); [cbn in Hf; lia|].
  set (dt := a :: data) in *. assert (dt <> []) as Hne by done. assert (1 <= Z.of_nat (length dt)) as Hd1 by (unfold dt; cbn; lia). clearbody dt. clear a data.
  destruct Hc as [Hlk Hnd]. assert (valid fs clu) as Hv by (apply (linked_in _ _ _ clu Hlk); left).
  destruct (write_step fs clu within dt G Hb Hv Hw Hby Hne) as (d1 & b1 & E1 & Hb1 & K1 & C1 & Hc1 & Hc2 & Lp & Hmod).
  set (so := within mod SECTOR) in *. set (chunk := if Z.of_nat (length dt) <? SECTOR - so then Z.of_nat (length dt) else SECTOR - so) in *.
  destruct (src_piece src dt (Z.to_nat chunk) Hs ltac:(lia)) as [Ep Hs'].
  set (src' := match src with Some b => Some (drop (Z.to_nat chunk) b) | None => None end) in *.
  cbn [write_loop]. destruct (Z.leb_spec (Z.of_nat (length dt)) 0); [lia|].
  rewrite bind_gets, cb_ok by done. rewrite bind_gets, (cluster_to_sector_ok dev_rd dev_wr fs clu G Hv). cbv zeta. fold so. fold chunk. fold src'.
  assert (u32 (csect fs clu 0 + within / SECTOR) = csect fs clu (within / SECTOR)) as ->.
  { replace (csect fs clu 0 + within / SECTOR) with (csect fs clu (within / SECTOR)) by (unfold csect; lia).
    apply (volume_u32 dev_rd dev_wr fs); [done|]. apply (csect_in dev_rd dev_wr); auto.
    unfold SECTOR, FatChain.csize in *. split; [apply Z.div_pos; lia|apply Z.div_lt_upper_bound; lia]. }
  rewrite Ep. rewrite (bind_some _ _ fs _ _ E1). set (fs1 := at_dev d1 b1 fs). assert (geo dev_rd dev_wr fs1) as G1 by (by apply geo_at).
  set (piece := take (Z.to_nat chunk) dt) in *. set (left_ := drop (Z.to_nat chunk) dt) in *.
  assert (dt = piece ++ left_) as Edt by (unfold piece, left_; by rewrite take_drop).
  assert (Z.of_nat (length dt) - chunk = Z.of_nat (length left_)) as El by (unfold left_; rewrite length_drop; lia). rewrite El.
  assert (bytes left_) as Hbl by (by apply Forall_drop). assert (length left_ <= fuel)%nat as Hfl by lia.
  assert (forall x, x ∈ rest -> valid fs x /\ x <> clu) as Hrest.
  { intros x Hx. split; [apply (linked_in _ _ _ x Hlk); by right|]. intros ->. by apply NoDup_cons in Hnd as [? _]. }
  assert (content fs d1 rest = content fs (dev fs) rest) as Cr.
  { apply (content_kept fs (dev fs) d1 [] [clu]); [done|]. intros x Hx. destruct (Hrest x Hx) as [? Hn]. split; [done|]. by intros ->%list_elem_of_singleton. }
  assert (content fs d1 (clu :: rest) = put (content fs (dev fs) (clu :: rest)) (Z.to_nat within) piece) as C1'.
  { unfold FatChain.content in *. cbn [map concat]. rewrite Cr, C1. symmetry. apply put_app_l. rewrite length_cdata_nat by done. lia. }
  assert (chain (fat dev_rd dev_wr fs d1 0) (max_cluster fs) (clu :: rest)) as Hc'.
  { split; [|done]. apply (linked_ext (fat dev_rd dev_wr fs (dev fs) 0)); [done|]. intros x Hx. apply (kept_fat _ _ _ _ _ _ _ K1); [destruct G; lia| |by apply not_elem_of_nil].
    pose proof (linked_in _ _ _ x Hlk Hx). unfold has_entry. lia. }
  assert (kept dev_rd dev_wr fs (dev fs) d1 [] (clu :: rest)) as K1' by (eapply kept_mono; [exact K1|done|]; intros x ->%list_elem_of_singleton; left).
  pose proof (length_content fs (dev fs) (clu :: rest) G) as Lc.
  destruct ((csize fs <=? within + chunk) && _) eqn:Ec.
  - bprop. destruct rest as [|c' rest]; [cbn [length] in Hl; change (Z.of_nat 1) with 1 in Hl; lia|].
    destruct (Hrest c' ltac:(left)) as [Hv' _]. pose proof (linked_tail _ _ _ _ _ Hlk) as Hlk'. destruct Hlk as (_ & Hfc & _).
    assert (fat dev_rd dev_wr fs d1 0 clu = c') as Hfc'.
    { etransitivity; [|exact Hfc]. apply (kept_fat _ _ _ _ _ _ _ K1); [destruct G; lia|unfold valid, has_entry in *; lia|by apply not_elem_of_nil]. }
    rewrite (bind_some _ _ fs1 _ _ (fat_next_ok dev_rd dev_wr fs1 clu G1 ltac:(unfold valid, has_entry in *; cbn; lia))).
    change (fat dev_rd dev_wr fs1 (dev fs1) 0 clu) with (fat dev_rd dev_wr fs d1 0 clu). rewrite Hfc'.
    rewrite (nextc_in c' (max_cluster fs)) by (unfold valid in Hv'; destruct G; lia). destruct (Z.eqb_spec c' 0); [unfold valid in Hv'; lia|].
    apply NoDup_cons in Hnd as [Hnc Hnd].
    destruct (IH fs1 c' rest (within + chunk - csize fs) src' left_ G1 Hb1) as (d & b & E & Hb' & K & C).
    + split; [|done]. exact (linked_tail _ _ _ _ _ (proj1 Hc')).
    + change (csize fs1) with (csize fs). unfold FatChain.csize in *. destruct G; lia.
    + change (csize fs1) with (csize fs). cbn [length] in *. nia.
    + done.
    + exact Hs'.
    + done.
    + apply kept_at in K. exists d, b. split; [exact E|]. split; [done|]. split.
      { apply (kept_trans _ _ _ _ d1); [done|]. eapply kept_mono; [exact K|done|]. intros x Hx. by right. }
      change (content fs1 d (c' :: rest)) with (content fs d (c' :: rest)) in C. change (content fs1 (dev fs1) (c' :: rest)) with (content fs d1 (c' :: rest)) in C.
      assert (cdata fs d clu = cdata fs d1 clu) as Ecl by (by apply (kept_data _ _ _ _ _ _ _ K)).
      unfold FatChain.content in C, Cr |- *. cbn [map concat] in C, Cr |- *. rewrite C, Cr, Ecl, C1. replace (within + chunk - csize fs) with 0 by lia.
      rewrite Edt. symmetry. apply put_across; [rewrite length_cdata_nat by done; lia|].
      unfold FatChain.content in Lc. cbn [map concat length] in Lc. rewrite length_app, length_cdata_nat in Lc by done. cbn [length] in *. nia.
  - apply andb_false_iff in Ec. destruct (decide (left_ = [])) as [Enil|Hnn].
    + rewrite Enil in *. exists d1, b1. split; [by destruct fuel|]. split; [done|]. split; [done|]. rewrite C1', Edt, app_nil_r. done.
    + assert (1 <= Z.of_nat (length left_)) by (destruct left_; [done|cbn; lia]).
      assert (within + chunk < csize fs) as Hlt by (destruct Ec as [Ec|Ec]; bprop; lia).
      destruct (IH fs1 clu rest (within + chunk) src' left_ G1 Hb1) as (d & b & E & Hb' & K & C).
      * exact Hc'.
      * change (csize fs1) with (csize fs). lia.
      * change (csize fs1) with (csize fs). lia.
      * done.
      * exact Hs'.
      * done.
      * apply kept_at in K. exists d, b. split; [exact E|]. split; [done|]. split; [by apply (kept_trans _ _ _ _ d1)|].
        change (content fs1 d (clu :: rest)) with (content fs d (clu :: rest)) in C. change (content fs1 (dev fs1) (clu :: rest)) with (content fs d1 (clu :: rest)) in C.
        rewrite C, C1', Edt. replace (Z.to_nat (within + chunk)) with (Z.to_nat within + length piece)%nat by lia. apply put_put. nia.
Qed.

(** ** Reading *)

Lemma take_add_drop (l : list Z) a b c : take (a + b) (drop c l) = take a (drop c l) ++ take b (drop (c + a) l).
Proof. by rewrite <- take_take_drop, drop_drop. Qed.

(** Part of one sector of the cluster. *)
Lemma cdata_piece fs d c s so k :
  geo dev_rd dev_wr fs -> 0 <= s < spc fs -> (so + k <= 512)%nat ->
  take k (drop so (sector d (part_lba fs + csect fs c s))) = take k (drop (Z.to_nat (s * 512) + so) (cdata fs d c)).
Proof.
  intros G Hs Hk. pose proof (length_cdata dev_rd dev_wr fs d c G) as L. unfold FatChain.csize in L.
  destruct (sector_ok d (part_lba fs + csect fs c s)) as [Ls _]. apply list_eq_at; [rewrite !length_take, !length_drop, Ls; nia|].
  intros j Hj. rewrite length_take, length_drop, Ls in Hj. rewrite !at_take, !at_drop by lia.
  pose proof (at_cdata fs d c (s * 512 + Z.of_nat so + Z.of_nat j) G) as A. unfold FatChain.csize in A.
  replace (Z.to_nat (s * 512) + so + j)%nat with (Z.to_nat (s * 512 + Z.of_nat so + Z.of_nat j)) by lia. rewrite A by nia.
  replace ((s * 512 + Z.of_nat so + Z.of_nat j) / 512) with s by (apply Z.div_unique with (Z.of_nat so + Z.of_nat j); lia).
  replace ((s * 512 + Z.of_nat so + Z.of_nat j) mod 512) with (Z.of_nat so + Z.of_nat j) by (apply Z.mod_unique with s; lia). f_equal. lia.
Qed.

Lemma read_file_loop_ok fuel fs clu rest within todo :
  geo dev_rd dev_wr fs -> buf_ok (sec fs) -> chain (fat dev_rd dev_wr fs (dev fs) 0) (max_cluster fs) (clu :: rest) ->
  0 <= within < csize fs -> 0 <= todo -> within + todo <= csize fs * Z.of_nat (length (clu :: rest)) -> (Z.to_nat todo <= fuel)%nat ->
  exists b, read_file_loop dev_rd fuel clu within todo fs =
    (Some (take (Z.to_nat todo) (drop (Z.to_nat within) (content fs (dev fs) (clu :: rest)))), set_sec b fs) /\ buf_ok b.
Proof.
  revert fs clu rest within todo; induction fuel as [|fuel IH]; intros fs clu rest within todo G Hb Hc Hw H0 Hl Hf; cbn [read_file_loop].
  { assert (todo = 0) as -> by lia. exists (sec fs). split; [by destruct fs|done]. }
  destruct (Z.leb_spec todo 0); [assert (todo = 0) as -> by lia; exists (sec fs); split; [by destruct fs|done]|].
  destruct Hc as [Hlk Hnd]. assert (valid fs clu) as Hv by (apply (linked_in _ _ _ clu Hlk); left).
  rewrite bind_gets, cb_ok by done. rewrite bind_gets, (cluster_to_sector_ok dev_rd dev_wr fs clu G Hv). cbv zeta. unfold SECTOR.
  pose proof (Z.mod_pos_bound within 512 ltac:(lia)) as Hso. pose proof (Z_div_mod_eq_full within 512) as Hdm.
  set (so := within mod 512) in *. set (chunk := if todo <? 512 - so then todo else 512 - so).
  assert (0 <= within / 512 < spc fs) as Hs by (unfold FatChain.csize in Hw; split; [apply Z.div_pos; lia|apply Z.div_lt_upper_bound; lia]).
  assert (1 <= chunk <= todo /\ so + chunk <= 512) as (Hc1 & Hc2) by (subst chunk; bcase; lia).
  assert (in_volume fs (csect fs clu (within / 512))) as Hin by (by apply (csect_in dev_rd dev_wr)).
  assert (u32 (csect fs clu 0 + within / 512) = csect fs clu (within / 512)) as ->.
  { replace (csect fs clu 0 + within / 512) with (csect fs clu (within / 512)) by (unfold csect; lia). by apply (volume_u32 dev_rd dev_wr fs). }
  rewrite (bind_some _ _ fs _ _ (load_ok dev_rd dev_wr fs _ G Hin)), bind_gets. cbn [sec set_sec]. unfold sect.
  rewrite (cdata_piece fs (dev fs) clu (within / 512) (Z.to_nat so) (Z.to_nat chunk) G Hs) by lia.
  replace (Z.to_nat (within / 512 * 512) + Z.to_nat so)%nat with (Z.to_nat within) by lia.
  set (b1 := sector (dev fs) _). assert (buf_ok b1) as Hb1 by apply sector_ok. set (fs1 := set_sec b1 fs).
  assert (geo dev_rd dev_wr fs1) as G1 by (destruct G; by constructor).
  assert (length (cdata fs (dev fs) clu) = Z.to_nat (csize fs)) as Lc by (by apply length_cdata_nat).
  assert (within + chunk <= csize fs) as Hc3 by (unfold FatChain.csize in *; nia).
  assert (take (Z.to_nat chunk) (drop (Z.to_nat within) (cdata fs (dev fs) clu)) = take (Z.to_nat chunk) (drop (Z.to_nat within) (content fs (dev fs) (clu :: rest)))) as Ep.
  { unfold FatChain.content. cbn [map concat]. rewrite drop_app_le by lia. by rewrite take_app_le by (rewrite length_drop; lia). }
  destruct ((csize fs <=? within + chunk) && _) eqn:Ec.
  - bprop. destruct rest as [|c' rest]; [cbn [length] in Hl; change (Z.of_nat 1) with 1 in Hl; lia|].
    pose proof (linked_tail _ _ _ _ _ Hlk) as Hlk'. destruct Hlk as (_ & Hfc & _). pose proof (linked_in _ _ _ c' Hlk' ltac:(left)) as Hv'.
    unfold attempt. rewrite (fat_next_ok dev_rd dev_wr fs1 clu G1) by (unfold valid, has_entry in *; cbn; lia).
    change (fat dev_rd dev_wr fs1 (dev fs1) 0 clu) with (fat dev_rd dev_wr fs (dev fs) 0 clu). rewrite Hfc.
    rewrite (nextc_in c' (max_cluster fs)) by (destruct G; lia). destruct (Z.eqb_spec c' 0); [lia|].
    apply NoDup_cons in Hnd as [_ Hnd].
    destruct (IH fs1 c' rest (within + chunk - csize fs) (todo - chunk) G1 Hb1) as (b & E & Hb').
    + by split.
    + change (csize fs1) with (csize fs). unfold FatChain.csize in *. destruct G; lia.
    + lia.
    + change (csize fs1) with (csize fs). cbn [length] in *. nia.
    + lia.
    + exists b. rewrite (bind_some _ _ fs1 _ _ E). split; [|done]. unfold ret. do 3 f_equal.
      replace (Z.to_nat todo) with (Z.to_nat chunk + Z.to_nat (todo - chunk))%nat by lia. rewrite take_add_drop, Ep. f_equal.
      replace (Z.to_nat (within + chunk - csize fs)) with 0%nat by lia. rewrite drop_0. f_equal.
      unfold FatChain.content. cbn [map concat]. rewrite drop_app_ge by lia. replace (Z.to_nat within + Z.to_nat chunk - length (cdata fs (dev fs) clu))%nat with 0%nat by lia. done.
  - apply andb_false_iff in Ec. destruct (decide (todo = chunk)) as [Heq|Hne].
    + assert (read_file_loop dev_rd fuel clu (within + chunk) (todo - chunk) fs1 = (Some [], fs1)) as E.
      { rewrite Heq, Z.sub_diag. by destruct fuel. }
      exists b1. rewrite (bind_some _ _ fs1 _ _ E). unfold ret. rewrite app_nil_r, Ep, <- Heq. done.
    + assert (within + chunk < csize fs) as Hlt by (destruct Ec as [Ec|Ec]; bprop; lia).
      destruct (IH fs1 clu rest (within + chunk) (todo - chunk) G1 Hb1) as (b & E & Hb').
      * by split.
      * change (csize fs1) with (csize fs). lia.
      * lia.
      * change (csize fs1) with (csize fs). lia.
      * lia.
      * exists b. rewrite (bind_some _ _ fs1 _ _ E). split; [|done]. unfold ret. do 3 f_equal.
        replace (Z.to_nat todo) with (Z.to_nat chunk + Z.to_nat (todo - chunk))%nat by lia. rewrite take_add_drop, Ep. f_equal.
        replace (Z.to_nat within + Z.to_nat chunk)%nat with (Z.to_nat (within + chunk)) by lia. done.
Qed.

(** ** A range of a file *)

Lemma chain_drop f m cs n : chain f m cs -> (n < length cs)%nat -> chain f m (drop n cs).
Proof.
  revert cs; induction n as [|n IH]; intros cs Hc Hn; [by rewrite drop_0|]. destruct cs as [|c [|c' cs]]; [cbn in Hn; lia|cbn in Hn; lia|].
  cbn [drop]. apply IH; [|cbn in *; lia]. destruct Hc as [Hl Hn']. split; [by apply linked_tail in Hl|by apply NoDup_cons in Hn' as [_ ?]].
Qed.

Lemma content_app fs d cs cs' : content fs d (cs ++ cs') = content fs d cs ++ content fs d cs'.
Proof. unfold FatChain.content. by rewrite map_app, concat_app. Qed.

(** Where [off] lies in the chain. *)
Lemma locate fs c cs off :
  geo dev_rd dev_wr fs -> chain (fat dev_rd dev_wr fs (dev fs) 0) (max_cluster fs) (c :: cs) ->
  0 <= off < csize fs * Z.of_nat (length (c :: cs)) ->
  exists pre clu rest, c :: cs = pre ++ clu :: rest /\ Z.of_nat (length pre) = off / csize fs /\
    chain_at dev_rd c (off / csize fs) fs = (Some clu, fs) /\ valid fs clu /\
    chain (fat dev_rd dev_wr fs (dev fs) 0) (max_cluster fs) (clu :: rest) /\ off = csize fs * Z.of_nat (length pre) + off mod csize fs.
Proof.
  intros G Hc Ho. assert (0 < csize fs) as Hcs by (unfold FatChain.csize; destruct G; lia).
  assert (0 <= off / csize fs < Z.of_nat (length (c :: cs))) as Hq by (split; [apply Z.div_pos; lia|apply Z.div_lt_upper_bound; lia]).
  destruct (lookup_lt_is_Some_2 (c :: cs) (Z.to_nat (off / csize fs)) ltac:(lia)) as [clu Hx].
  exists (take (Z.to_nat (off / csize fs)) (c :: cs)), clu, (drop (S (Z.to_nat (off / csize fs))) (c :: cs)).
  rewrite <- (drop_S (c :: cs) clu) by done. rewrite take_drop, length_take. split; [done|]. split; [lia|].
  split; [by apply (chain_at_ok dev_rd dev_wr fs c cs); [|apply Hc|lia|]|]. split; [apply (linked_in _ _ _ clu (proj1 Hc)); by eapply list_elem_of_lookup_2|].
  split; [apply chain_drop; auto; lia|]. rewrite Nat.min_l by lia. rewrite Z2Nat.id by lia. apply Z_div_mod_eq_full.
Qed.

(** The bytes before [off] are those of the clusters before. *)
Lemma content_pre fs d pre post off :
  geo dev_rd dev_wr fs -> 0 < csize fs -> 0 <= off -> off = csize fs * Z.of_nat (length pre) + off mod csize fs ->
  drop (Z.to_nat off) (content fs d (pre ++ post)) = drop (Z.to_nat (off mod csize fs)) (content fs d post).
Proof.
  intros G Hcs H0 Ho. pose proof (length_content fs d pre G) as L. pose proof (Z.mod_pos_bound off (csize fs) Hcs).
  rewrite content_app, drop_app_ge by lia. f_equal. lia.
Qed.

(** Reading a range of the chain gives its bytes. *)
Lemma read_range_ok fs c cs off len :
  geo dev_rd dev_wr fs -> buf_ok (sec fs) -> chain (fat dev_rd dev_wr fs (dev fs) 0) (max_cluster fs) (c :: cs) ->
  0 <= off < csize fs * Z.of_nat (length (c :: cs)) -> 0 <= len -> off + len <= csize fs * Z.of_nat (length (c :: cs)) ->
  exists b, read_range dev_rd c off len fs =
    (Some (take (Z.to_nat len) (drop (Z.to_nat off) (content fs (dev fs) (c :: cs)))), set_sec b fs) /\ buf_ok b.
Proof.
  intros G Hb Hc Ho H0 Hl. destruct (locate fs c cs off G Hc Ho) as (pre & clu & rest & E & _ & Eat & Hv & Hc' & Eo).
  assert (0 < csize fs) as Hcs by (unfold FatChain.csize; destruct G; lia).
  destruct (read_file_loop_ok (Z.to_nat len) fs clu rest (off mod csize fs) len) as (b & Er & Hb'); auto.
  - by apply Z.mod_pos_bound.
  - rewrite E, length_app, Nat2Z.inj_add in Hl. lia.
  - exists b. unfold read_range. rewrite bind_gets, cb_ok by done. unfold attempt. rewrite Eat.
    destruct (Z.eqb_spec clu 0); [unfold valid in Hv; lia|]. rewrite Er, E, content_pre by (auto; lia). done.
Qed.

(** Writing a range of the chain changes those bytes, and nothing outside the chain. *)
Lemma range_write_ok fs c cs off src data :
  geo dev_rd dev_wr fs -> buf_ok (sec fs) -> chain (fat dev_rd dev_wr fs (dev fs) 0) (max_cluster fs) (c :: cs) ->
  0 <= off < csize fs * Z.of_nat (length (c :: cs)) -> off + Z.of_nat (length data) <= csize fs * Z.of_nat (length (c :: cs)) ->
  bytes data -> src_of src data ->
  exists d b, range_write dev_rd dev_wr c off src (Z.of_nat (length data)) fs = (Some tt, at_dev d b fs) /\ buf_ok b /\
    kept dev_rd dev_wr fs (dev fs) d [] (c :: cs) /\
    content fs d (c :: cs) = put (content fs (dev fs) (c :: cs)) (Z.to_nat off) data.
Proof.
  intros G Hb Hc Ho Hl Hby Hs. destruct (locate fs c cs off G Hc Ho) as (pre & clu & rest & E & _ & Eat & Hv & Hc' & Eo).
  assert (0 < csize fs) as Hcs by (unfold FatChain.csize; destruct G; lia). pose proof (Z.mod_pos_bound off (csize fs) Hcs) as Hm.
  assert (off mod csize fs + Z.of_nat (length data) <= csize fs * Z.of_nat (length (clu :: rest))) as Hl'
    by (rewrite E, length_app, Nat2Z.inj_add in Hl; lia).
  destruct (range_loop_ok (length data) fs clu rest (off mod csize fs) src data G Hb Hc' Hm Hl' Hby Hs ltac:(lia)) as (d & b & Ew & Hb' & K & C).
  exists d, b. split.
  - unfold range_write. rewrite bind_gets, cb_ok by done. rewrite (bind_some _ _ fs _ _ Eat), Nat2Z.id. exact Ew.
  - split; [done|]. split.
    { eapply kept_mono; [exact K|done|]. intros x Hx. rewrite E. apply elem_of_app. by right. }
    assert (content fs d pre = content fs (dev fs) pre) as Cp.
    { apply (content_kept fs (dev fs) d [] (clu :: rest) pre K). destruct Hc as [Hlk Hnd]. rewrite E in Hlk, Hnd. intros x Hx.
      split; [apply (linked_in _ _ _ x Hlk), elem_of_app; by left|]. apply NoDup_app in Hnd as (_ & Hnd & _). by apply Hnd. }
    pose proof (length_content fs (dev fs) pre G) as L. pose proof (length_content fs (dev fs) (clu :: rest) G) as L2.
    rewrite E, !content_app, Cp, C. rewrite put_app_r by lia. f_equal. f_equal. lia.
Qed.
End Files.
