(* ===== verification/FatDir.v ===== *)
(** The FAT16 file system, [vnu/kernel/fs/fat16.cpp]: directories and the
    operations on them.

    A directory entry is a list of 32 bytes and a name the bytes before its NUL.
    [scan_next] moves its position whether or not it finds an entry, so it returns
    both; the position starts from 0 and moves by 32, which bounds the loops. *)
From S2P Require Import Prelude Fat16.
Local Open Scope vnu_scope.

Definition bit_set (x m : Z) : bool := negb (Z.land x m =? 0).

(** What a C string function sees of a buffer. *)
Fixpoint until_nul (l : list Z) : list Z :=
  match l with
  | [] => []
  | c :: l' => if c =? 0 then [] else c :: until_nul l'
  end.

(** ** Names *)

Definition sfn_checksum (sfn : list Z) : Z :=
  fold_left (fun sum i => u8 ((if bit_set sum 1 then 0x80 else 0) + Z.shiftr sum 1 + at_ sfn i)) (seq 0 11) 0.

(** [k] characters of the name from [e\[i\]] on, up to a space; [nt] is the lower-case bit. *)
Fixpoint sfn_part (k : nat) (i : nat) (nt : Z) (e : list Z) : list Z :=
  match k with
  | O => []
  | S k' =>
      let c := at_ e i in
      if c =? 32 then []
      else
        let c := if (i =? 0)%nat && (c =? 0x05) then 0xE5 else c in
        (if bit_set (at_ e 12) nt && is_upper c then c - 65 + 97 else c) :: sfn_part k' (S i) nt e
  end.
Definition build_sfn_name (e : list Z) : list Z :=
  let base := sfn_part 8 0 0x08 e in
  let ext := sfn_part 3 8 0x10 e in
  until_nul (base ++ match ext with [] => [] | _ => chr "." :: ext end).

Record Entry := mkEntry { pos : Z; cluster : Z; size : Z; attr : Z; sfn : list Z; name : list Z; lfn_pos : list Z }.

(** What [scan_next] has gathered of a long name: [lfn], [lfn_pos] (of length [lfn_n]), [max_seq] and [lfn_chk]. *)
Record Lfn := mkLfn { lfn : list Z; lfn_seen : list Z; max_seq : Z; lfn_chk : Z }.
Definition lfn0 : Lfn := mkLfn (replicate (Z.to_nat NAME_MAX) 0) [] 0 0.
Definition lfn_n (st : Lfn) : Z := Z.of_nat (length (lfn_seen st)).
Definition lfn_reset (st : Lfn) : Lfn := mkLfn (lfn st) [] 0 (lfn_chk st).

Definition charoff : list nat := [1; 3; 5; 7; 9; 14; 16; 18; 20; 22; 24; 28; 30]%nat.

(** A long-name entry. *)
Definition lfn_add (st : Lfn) (here : Z) (e : list Z) : Lfn :=
  let seq := Z.land (at_ e 0) 0x1F in
  let chk := at_ e 13 in
  let st := if lfn_n st =? 0 then mkLfn (replicate (Z.to_nat NAME_MAX) 0) [] 0 chk else st in
  if negb (chk =? lfn_chk st) || (seq =? 0) || (MAX_LFN <? seq) || (MAX_LFN <=? lfn_n st) then lfn_reset st
  else
    let at0 := (seq - 1) * 13 in
    mkLfn (put (lfn st) (Z.to_nat at0) (take (Z.to_nat (NAME_MAX - at0)) (map (at_ e) charoff)))
      (lfn_seen st ++ [here]) (if max_seq st <? seq then seq else max_seq st) (lfn_chk st).

(** A short entry, after the long-name entries [st]. *)
Definition entry_of (st : Lfn) (here : Z) (e : list Z) : Entry :=
  let long := (0 <? lfn_n st) && (lfn_chk st =? sfn_checksum e) in
  let len := if NAME_MAX - 1 <? max_seq st * 13 then NAME_MAX - 1 else max_seq st * 13 in
  mkEntry here (rd16 (drop 26 e)) (rd32 (drop 28 e)) (Z.land (at_ e 11) 0x3F) (take 11 e)
    (if long then until_nul (take (Z.to_nat len) (lfn st)) else build_sfn_name e)
    (if long then lfn_seen st else []).

Record Short := mkShort { s_base : list Z; s_ext : list Z; nt : Z; fits : bool; uniform : bool }.

(** The index of the last dot. *)
Fixpoint last_dot (s : list Z) (i : nat) (dot : option nat) : option nat :=
  match s with
  | [] => dot
  | c :: s' => last_dot s' (S i) (if c =? chr "." then Some i else dot)
  end.

(** One part of the name, at most [cap] characters of it stored: the stored ones, and whether all are, any is lower and any upper case. *)
Fixpoint short_part (cap : nat) (s : list Z) (out : list Z) (fits lower upper_ : bool) : list Z * bool * bool * bool :=
  match s with
  | [] => (out, fits, lower, upper_)
  | c :: s' =>
      let lower := lower || is_lower c in
      let upper_ := upper_ || is_upper c in
      let fits := fits && sfn_char_ok c in
      let c := if sfn_char_ok c then c else chr "_" in
      if (length out <? cap)%nat then short_part cap s' (out ++ [upper c]) fits lower upper_
      else short_part cap s' out false lower upper_
  end.
Definition pad (n : nat) (l : list Z) : list Z := l ++ replicate (n - length l) 32.

Definition build_short (s : list Z) : Short :=
  let dot := last_dot s 0 None in
  let b := match dot with None => s | Some i => take i s end in
  let x := match dot with None => [] | Some i => drop (S i) s end in
  let '(bo, bf, bl, bu) := short_part 8 b [] true false false in
  let '(xo, xf, xl, xu) := short_part 3 x [] true false false in
  mkShort (pad 8 bo) (pad 3 xo)
    (Z.lor (if bl && negb bu then 0x08 else 0) (if xl && negb xu then 0x10 else 0))
    (bf && negb (length b =? 0)%nat && xf)
    (negb (bl && bu) && negb (xl && xu)).

(** [do digs\[dl++\] = '0' + m % 10; m /= 10; while (m)], most significant first. *)
Fixpoint digits (fuel : nat) (m : Z) (acc : list Z) : list Z :=
  match fuel with
  | O => acc
  | S fuel' => let acc := 48 + m mod 10 :: acc in if m / 10 =? 0 then acc else digits fuel' (m / 10) acc
  end.

Fixpoint until_space (l : list Z) : list Z :=
  match l with
  | [] => []
  | c :: l' => if c =? 32 then [] else c :: until_space l'
  end.

(** The candidate with the tail [~n]. *)
Definition mangled (s : Short) (n : Z) : list Z :=
  let tail := chr "~" :: digits 8 n [] in
  let keep := Z.max 1 (8 - Z.of_nat (length tail)) in
  let b := take (Z.to_nat keep) (until_space (s_base s)) in
  let b := match b with [] => [chr "F"] | _ => b end in
  pad 8 (take 8 (b ++ tail)) ++ s_ext s.

(** Long-name entry [c] of the [chunks] of [name], the highest sequence number first. *)
Definition lfn_entry (name : list Z) (chunks chk c : Z) : list Z :=
  let len := Z.of_nat (length name) in
  let sq := chunks - c in
  let e := <[13%nat := chk]> (<[11%nat := 0x0F]> (<[0%nat := u8 (Z.lor sq (if c =? 0 then 0x40 else 0))]> (replicate 32 0))) in
  fold_left (fun e k =>
    let g := (sq - 1) * 13 + Z.of_nat k in
    let u := if g <? len then at_ name (Z.to_nat g) else if g =? len then 0x0000 else 0xFFFF in
    put e (nth k charoff 0%nat) [u8 (Z.land u 0xFF); u8 (Z.shiftr u 8)]) (seq 0 13) e.

Definition short_entry (sfn : list Z) (attr ntb cluster size : Z) : list Z :=
  let e := put (replicate 32 0) 0 sfn in
  let e := <[12%nat := ntb]> (<[11%nat := attr]> e) in
  let e := <[27%nat := u8 (Z.land (Z.shiftr cluster 8) 0xFF)]> (<[26%nat := u8 (Z.land cluster 0xFF)]> e) in
  wr32 e 28 size.

Definition copy_padded (cap : nat) (src : option (list Z)) : list Z :=
  pad cap (match src with Some s => take cap s | None => [] end).

(** ** Directories *)

Section Directory.
Context {D : Type} (dev_rd : D -> Z -> option (list Z)) (dev_wr : D -> Z -> list Z -> option D).
Abbreviation M := (Fat16.M D).

Definition dir_total_bytes (dir : Z) : M Z :=
  if dir =? 0 then gets (fun fs => u32 (root_dir_sectors fs * SECTOR))
  else attempt (chain_len dev_rd dir) (fun len =>
    match len with
    | None => ret 0
    | Some len => gets (fun fs => u32 (len * spc fs * SECTOR))
    end).

(** The sector of the volume where sector [s] of the directory is. *)
Definition dir_sector (dir s : Z) : M Z :=
  if dir =? 0 then gets (fun fs => u32 (first_root fs + s))
  else
    let! n := gets spc in
    let! clu := chain_at dev_rd dir (s / n) in
    guard (negb (clu =? 0)) ;;
    gets (fun fs => u32 (cluster_to_sector fs clu + s mod n)).

(** Both are only called with [fs.sec] for the buffer. *)
Definition dir_read_sector (dir s : Z) : M unit := let! r := dir_sector dir s in load dev_rd r.
Definition dir_write_sector (dir s : Z) : M unit := let! r := dir_sector dir s in store dev_wr r.

(** The entry at offset [off] of the scratch sector. *)
Definition slot (off : Z) : M (list Z) := gets (fun fs => take 32 (drop (Z.to_nat off) (sec fs))).

Fixpoint scan_loop (fuel : nat) (dir pos total : Z) (st : Lfn) : M (option Entry * Z) :=
  match fuel with
  | O => ret (None, pos)
  | S fuel' =>
      if u32 (pos + 32) <=? total then
        attempt (dir_read_sector dir (pos / SECTOR)) (fun r =>
          match r with
          | None => ret (None, pos)
          | Some _ =>
              let! e := slot (pos mod SECTOR) in
              let here := pos in
              let pos := pos + 32 in
              if at_ e 0 =? 0x00 then ret (None, pos)
              else if at_ e 0 =? 0xE5 then scan_loop fuel' dir pos total (lfn_reset st)
              else if Z.land (at_ e 11) 0x3F =? 0x0F then scan_loop fuel' dir pos total (lfn_add st here e)
              else ret (Some (entry_of st here e), pos)
          end)
      else ret (None, pos)
  end.
Definition turns (total : Z) : nat := S (Z.to_nat (total / 32)).
Definition scan_next (dir pos total : Z) : M (option Entry * Z) := scan_loop (turns total) dir pos total lfn0.

(** [while (scan_next(...))] until an entry that is no volume label satisfies [p]. *)
Fixpoint search (p : Entry -> bool) (fuel : nat) (dir pos total : Z) : M (option Entry) :=
  match fuel with
  | O => ret None
  | S fuel' =>
      let! (ev, pos) := scan_next dir pos total in
      match ev with
      | None => ret None
      | Some ev =>
          if bit_set (attr ev) ATTR_VOLUME then search p fuel' dir pos total
          else if p ev then ret (Some ev)
          else search p fuel' dir pos total
      end
  end.

Definition find_entry (dir : Z) (nm : list Z) : M Entry :=
  let! total := dir_total_bytes dir in
  guard (negb (total =? 0)) ;;
  let! ev := search (fun ev => ci_equal (name ev) nm) (turns total) dir 0 total in
  match ev with Some ev => ret ev | None => fail end.

Definition dir_has_sfn (dir : Z) (s : list Z) : M bool :=
  let! total := dir_total_bytes dir in
  let! ev := search (fun ev => sfn_equal (sfn ev) s) (turns total) dir 0 total in
  ret (match ev with Some _ => true | None => false end).

(** [for (n = 1; n < 1000000u; ++n)], [k] numbers from [n] on. *)
Fixpoint make_unique_loop (k : nat) (dir : Z) (s : Short) (n : Z) : M (list Z) :=
  match k with
  | O => ret (s_base s ++ s_ext s)
  | S k' =>
      let cand := mangled s n in
      let! used := dir_has_sfn dir cand in
      if used : bool then make_unique_loop k' dir s (n + 1) else ret cand
  end.
Definition make_unique_sfn (dir : Z) (s : Short) : M (list Z) := make_unique_loop (Z.to_nat (1000000 - 1)) dir s 1.

Definition build_entries (dir : Z) (nm : list Z) (attr cluster size : Z) : M (list (list Z)) :=
  let s := build_short nm in
  let need_lfn := negb (fits s) || negb (uniform s) in
  let! sfn := (if need_lfn then make_unique_sfn dir s else ret (s_base s ++ s_ext s)) in
  let! long := (if need_lfn then
    let len := Z.of_nat (length nm) in
    let chunks := if (len + 12) / 13 =? 0 then 1 else (len + 12) / 13 in
    guard (chunks <=? MAX_LFN) ;;
    ret (map (fun c => lfn_entry nm chunks (sfn_checksum sfn) (Z.of_nat c)) (seq 0 (Z.to_nat chunks)))
    else ret []) in
  ret (long ++ [short_entry sfn attr (if need_lfn then 0 else nt s) cluster size]).

(** [dir_read_sector], a change of the scratch sector at [pos], [dir_write_sector]. *)
Definition patch (dir pos : Z) (f : nat -> list Z -> list Z) : M unit :=
  dir_read_sector dir (pos / SECTOR) ;;
  upd_sec (f (Z.to_nat (pos mod SECTOR))) ;;
  dir_write_sector dir (pos / SECTOR).

Definition write_entry_at (dir pos : Z) (e : list Z) : M unit := patch dir pos (fun off b => put b off e).
Definition mark_deleted (dir pos : Z) : M unit := patch dir pos (fun off b => <[off := 0xE5]> b).

(** [while (pos + 32 <= total)]: the end of the directory. *)
Fixpoint dir_end (fuel : nat) (dir pos total : Z) : M Z :=
  match fuel with
  | O => ret pos
  | S fuel' =>
      if u32 (pos + 32) <=? total then
        dir_read_sector dir (pos / SECTOR) ;;
        let! c := gets (fun fs => at_ (sec fs) (Z.to_nat (pos mod SECTOR))) in
        if c =? 0x00 then ret pos else dir_end fuel' dir (pos + 32) total
      else ret pos
  end.

(** [while (pos + count * 32 > total)]: the new size.  Every turn adds a cluster, which holds at least 16 entries. *)
Fixpoint dir_grow (fuel : nat) (dir pos count total : Z) : M Z :=
  if total <? u32 (pos + count * 32) then
    match fuel with
    | O => fail
    | S fuel' =>
        guard (negb (dir =? 0)) ;;
        let! len := chain_len dev_rd dir in
        guard (negb (len =? 0)) ;;
        let! last := chain_at dev_rd dir (len - 1) in
        cluster_alloc dev_rd dev_wr last ;;
        let! cb := gets (fun fs => u32 (spc fs * SECTOR)) in
        dir_grow fuel' dir pos count (u32 (total + cb))
    end
  else ret total.

Fixpoint write_entries (dir pos : Z) (es : list (list Z)) : M Z :=
  match es with
  | [] => ret pos
  | e :: es' => write_entry_at dir pos e ;; write_entries dir (pos + 32) es'
  end.

Definition dir_append (dir : Z) (es : list (list Z)) : M unit :=
  let! total := dir_total_bytes dir in
  guard (negb (total =? 0)) ;;
  let! pos := dir_end (turns total) dir 0 total in
  let! total := dir_grow (length es) dir pos (Z.of_nat (length es)) total in
  let! pos := write_entries dir pos es in
  if u32 (pos + 32) <=? total then patch dir pos (fun off b => <[off := 0x00]> b) else ret tt.

(** The result of every call is ignored. *)
Definition update_entry (dir pos cluster size : Z) : M unit :=
  attempt (patch dir pos (fun off b =>
    let b := <[(off + 21)%nat := 0]> (<[(off + 20)%nat := 0]> b) in
    let b := <[(off + 27)%nat := u8 (Z.land (Z.shiftr cluster 8) 0xFF)]> (<[(off + 26)%nat := u8 (Z.land cluster 0xFF)]> b) in
    wr32 b (off + 28) size)) (fun _ => ret tt).

(** The entry [.] or [..]. *)
Definition dot_entry (nm : list Z) (clu : Z) : list Z :=
  let e := put (replicate 32 0) 0 (pad 11 nm ++ [ATTR_DIR]) in
  <[27%nat := u8 (Z.land (Z.shiftr clu 8) 0xFF)]> (<[26%nat := u8 (Z.land clu 0xFF)]> e).
Definition init_subdir (clu parent : Z) : M unit :=
  let! s := gets (fun fs => cluster_to_sector fs clu) in
  load dev_rd s ;;
  upd_sec (fun b => put b 0 (dot_entry (cs ".") clu ++ dot_entry (cs "..") parent)) ;;
  store dev_wr s.

(** ** The volume *)

(** [for (c = 2; c <= fs.max_cluster; ++c)], [k] clusters from [c] on; [loaded] is the sector in the scratch buffer. *)
Fixpoint count_free (k : nat) (c loaded n : Z) : M Z :=
  match k with
  | O => ret n
  | S k' =>
      let off := u32 (c * 2) in
      let s := off / SECTOR in
      (if s =? loaded then ret tt else let! ff := gets first_fat in load dev_rd (u32 (ff + s))) ;;
      let! v := gets (fun fs => rd16 (drop (Z.to_nat (off mod SECTOR)) (sec fs))) in
      count_free k' (c + 1) s (if v =? 0 then n + 1 else n)
  end.
Definition volume_stats : M (Z * Z) :=
  let! ok := gets (fun fs => mounted fs && negb (spc fs =? 0) && negb (max_cluster fs <? 2)) in
  guard ok ;;
  let! cb := gets (fun fs => u32 (spc fs * SECTOR)) in
  let! m := gets max_cluster in
  let! n := count_free (Z.to_nat (m - 1)) 2 0xFFFFFFFF 0 in
  ret (u32 ((m - 1) * cb), u32 (n * cb)).

(** [while (part_sectors / fs.spc > 60000 && fs.spc < 128) fs.spc <<= 1]. *)
Fixpoint pick_spc (fuel : nat) (part_sectors spc : Z) : Z :=
  match fuel with
  | O => spc
  | S fuel' => if (60000 <? part_sectors / spc) && (spc <? 128) then pick_spc fuel' part_sectors (Z.shiftl spc 1) else spc
  end.

(** The size of a FAT: the loop ends at the second turn ([pick_fatsz_ends]). *)
Fixpoint pick_fatsz (fuel : nat) (part_sectors spc rds fatsz : Z) : option Z :=
  match fuel with
  | O => None
  | S fuel' =>
      if part_sectors <=? RESERVED + NUM_FATS * fatsz + rds then None
      else
        let data := part_sectors - RESERVED - NUM_FATS * fatsz - rds in
        let clusters := data / spc in
        let fatsecs := ((clusters + 2) * 2 + SECTOR - 1) / SECTOR in
        if fatsecs <=? fatsz then Some fatsz
        else if 0xFFFF <? fatsecs then None
        else pick_fatsz fuel' part_sectors spc rds fatsecs
  end.

Definition boot_sector (part_lba part_sectors spc fatsz : Z) (oem label : option (list Z)) (volume_id : Z) : list Z :=
  let b := put (replicate 512 0) 0 ([0xEB; 0x3C; 0x90] ++ copy_padded 8 oem) in
  let b := <[13%nat := u8 spc]> (wr16 b 11 SECTOR) in
  let b := wr16 (<[16%nat := NUM_FATS]> (wr16 b 14 RESERVED)) 17 ROOT_ENTRIES in
  let b := if part_sectors <? 65536 then wr32 (wr16 b 19 (u16 part_sectors)) 32 0 else wr32 (wr16 b 19 0) 32 part_sectors in
  let b := wr16 (<[21%nat := 0xF8]> b) 22 (u16 fatsz) in
  let b := wr32 (wr16 (wr16 b 24 63) 26 255) 28 part_lba in
  let b := wr32 (<[38%nat := 0x29]> (<[36%nat := 0x80]> b)) 39 volume_id in
  let b := put (put b 43 (copy_padded 11 label)) 54 (cs "FAT16   ") in
  <[511%nat := 0xAA]> (<[510%nat := 0x55]> b).

(** The first two entries of [k] copies of the FAT from [copy] on. *)
Fixpoint mark_fats (k : nat) (copy : Z) : M unit :=
  match k with
  | O => ret tt
  | S k' =>
      let! s := gets (fun fs => u32 (first_fat fs + copy * fatsz fs)) in
      load dev_rd s ;; upd_sec (fun b => wr16 (wr16 b 0 0xFFF8) 2 0xFFFF) ;; store dev_wr s ;; mark_fats k' (copy + 1)
  end.

(** [buf] is the uninitialised sector buffer.  The volume it lays down, when it does. *)
Definition format (d : D) (part_lba part_sectors : Z) (oem label : option (list Z)) (volume_id : Z) (buf : list Z) : option unit * D :=
  let spc := pick_spc 8 part_sectors 1 in
  let rds := (ROOT_ENTRIES * 32 + SECTOR - 1) / SECTOR in
  match pick_fatsz 3 part_sectors spc rds 1 with
  | None => (None, d)
  | Some fatsz =>
      let clusters := (part_sectors - RESERVED - NUM_FATS * fatsz - rds) / spc in
      if (clusters <? FAT16_MIN_CLUSTERS) || (FAT16_MAX_CLUSTER <? clusters + 2) then (None, d)
      else
        let first_root := RESERVED + NUM_FATS * fatsz in
        let fs := mkFs d part_lba part_sectors spc fatsz NUM_FATS ROOT_ENTRIES rds RESERVED first_root (first_root + rds) (clusters + 1) true buf in
        let '(r, fs) :=
          (upd_sec (fun _ => boot_sector part_lba part_sectors spc fatsz oem label volume_id) ;;
           store dev_wr 0 ;;
           zero_sectors dev_wr RESERVED fatsz ;;
           zero_sectors dev_wr (RESERVED + fatsz) fatsz ;;
           mark_fats (Z.to_nat NUM_FATS) 0 ;;
           zero_sectors dev_wr first_root rds ;;
           write_entry_at 0 0 (<[11%nat := ATTR_VOLUME]> (put (replicate 32 0) 0 (copy_padded 11 label)))) fs in
        (r, dev fs)
  end.

(** The volume the boot sector [b] describes; [b] stays in the caller's buffer, which is not null. *)
Definition mount (d : D) (part_lba : Z) : option Fs :=
  match dev_rd d (u32 (part_lba + 0)) with
  | None => None
  | Some b =>
      let le i := Z.lor (at_ b i) (Z.shiftl (at_ b (i + 1)) 8) in
      let spc := at_ b 13 in
      let reserved := le 14%nat in
      let nfats := at_ b 16 in
      let rents := le 17%nat in
      let tot := if le 19%nat =? 0 then rd32 (drop 32 b) else le 19%nat in
      let fsz := le 22%nat in
      if negb (at_ b 510 =? 0x55) || negb (at_ b 511 =? 0xAA) then None
      else if negb (le 11%nat =? SECTOR) then None
      else if (spc =? 0) || negb (Z.land spc (spc - 1) =? 0) then None
      else if (reserved =? 0) || (nfats =? 0) || (fsz =? 0) then None
      else
        let rds := (rents * 32 + SECTOR - 1) / SECTOR in
        let first_root := reserved + nfats * fsz in
        let first_data := first_root + rds in
        if tot <=? first_data then None
        else
          let clusters := (tot - first_data) / spc in
          if (clusters <? FAT16_MIN_CLUSTERS) || (FAT16_MAX_CLUSTER <? clusters + 2) then None
          else Some (mkFs d part_lba tot spc fsz nfats rents rds reserved first_root first_data (clusters + 1) true b)
  end.

Definition umount (fs : @Fs D) : @Fs D :=
  mkFs (dev fs) (part_lba fs) (total_sectors fs) (spc fs) (fatsz fs) (num_fats fs) (root_entries fs) (root_dir_sectors fs)
    (first_fat fs) (first_root fs) (first_data fs) (max_cluster fs) false (sec fs).

(** The flush callback of the device, when it has one; its result is ignored. *)
Definition sync (flush : option (D -> D)) : M unit :=
  let! m := gets mounted in
  guard m ;;
  match flush with Some f => fun fs => (Some tt, set_dev (f (dev fs)) fs) | None => ret tt end.

(** ** Paths *)

Definition lookup (dir : Z) (nm : list Z) : M (Z * Z * Z) :=
  let! ev := find_entry dir nm in ret (cluster ev, size ev, attr ev).

Fixpoint skip_slashes (p : list Z) : list Z :=
  match p with
  | c :: p' => if c =? chr "/" then skip_slashes p' else p
  | [] => []
  end.
(** [p] up to the next slash, and from it on. *)
Fixpoint component (p : list Z) : list Z * list Z :=
  match p with
  | c :: p' => if c =? chr "/" then ([], p) else let '(a, r) := component p' in (c :: a, r)
  | [] => ([], [])
  end.
Definition ends_at (p : list Z) (i : nat) : bool := (at_ p i =? 0) || (at_ p i =? chr "/").

(** [while ( *p)]: every turn takes a character at least. *)
Fixpoint resolve_loop (fuel : nat) (p : list Z) (cur size_ attr_ : Z) : M (Z * Z * Z) :=
  match fuel with
  | O => ret (cur, size_, attr_)
  | S fuel' =>
      match skip_slashes p with
      | [] => ret (cur, size_, attr_)
      | p =>
          let '(comp, r) := component p in
          if (at_ p 0 =? chr ".") && ends_at p 1 then resolve_loop fuel' r cur size_ attr_
          else if (at_ p 0 =? chr ".") && (at_ p 1 =? chr ".") && ends_at p 2 then
            if cur =? 0 then resolve_loop fuel' r cur size_ attr_
            else attempt (find_entry cur (cs "..")) (fun up =>
              resolve_loop fuel' r (match up with Some up => cluster up | None => 0 end) size_ attr_)
          else
            let! ev := find_entry cur (take (Z.to_nat (NAME_MAX - 1)) comp) in
            guard (negb (negb (bit_set (attr ev) ATTR_DIR) && negb (at_ r 0 =? 0))) ;;
            resolve_loop fuel' r (cluster ev) (size ev) (attr ev)
      end
  end.
Definition resolve (path : option (list Z)) : M (Z * Z * Z) :=
  let p := match path with Some p => p | None => [] end in resolve_loop (S (length p)) p 0 0 ATTR_DIR.

(** ** Files *)

(** The bytes read, [*out] of them. *)
Definition read (dir : Z) (nm : list Z) (off len : Z) : M (list Z) :=
  let! ev := find_entry dir nm in
  guard (negb (bit_set (attr ev) ATTR_DIR)) ;;
  if size ev <=? off then ret []
  else
    let avail := size ev - off in
    let len := if avail <? len then avail else len in
    read_range dev_rd (cluster ev) off len.

Definition create (dir : Z) (nm : list Z) : M unit :=
  attempt (find_entry dir nm) (fun ev =>
    match ev with
    | Some _ => fail
    | None => let! es := build_entries dir nm ATTR_ARCH 0 0 in dir_append dir es
    end).

(** [*out], the bytes written: [src] has [len] of them. *)
Definition write (dir : Z) (nm : list Z) (off : Z) (src : list Z) : M Z :=
  let len := Z.of_nat (length src) in
  let! ev := attempt (find_entry dir nm) (fun ev =>
    match ev with
    | Some ev => ret ev
    | None => create dir nm ;; find_entry dir nm
    end) in
  guard (negb (bit_set (attr ev) ATTR_DIR)) ;;
  if len =? 0 then ret 0
  else
    guard (negb (0xFFFFFFFF - len <? off)) ;;
    let fin := off + len in
    let! cb := gets (fun fs => u32 (spc fs * SECTOR)) in
    let need := u32 (fin + cb - 1) / cb in
    let! nf := ensure_chain dev_rd dev_wr (cluster ev) need in
    (if size ev <? off then range_write dev_rd dev_wr nf (size ev) None (off - size ev) else ret tt) ;;
    range_write dev_rd dev_wr nf off (Some src) len ;;
    let nsize := if size ev <? fin then fin else size ev in
    update_entry dir (pos ev) nf nsize ;;
    ret len.

Definition truncate (dir : Z) (nm : list Z) (sz : Z) : M unit :=
  let! ev := find_entry dir nm in
  guard (negb (bit_set (attr ev) ATTR_DIR)) ;;
  if sz =? size ev then ret tt
  else
    let! cb := gets (fun fs => u32 (spc fs * SECTOR)) in
    let keep := u32 (sz + cb - 1) / cb in
    let! first :=
      (if size ev <? sz then ensure_chain dev_rd dev_wr (cluster ev) keep
       else if keep =? 0 then
         (if cluster ev =? 0 then ret tt else free_chain dev_rd dev_wr (cluster ev)) ;; ret 0
       else
         let! last := chain_at dev_rd (cluster ev) (keep - 1) in
         let! rest := fat_next dev_rd last in
         (if rest =? 0 then ret tt else free_chain dev_rd dev_wr rest ;; fat_set dev_rd dev_wr last FAT_EOC) ;;
         let tail := sz - (keep - 1) * cb in
         (if tail <? cb then range_write dev_rd dev_wr (cluster ev) sz None (cb - tail) else ret tt) ;;
         ret (cluster ev)) in
    update_entry dir (pos ev) first sz.

Fixpoint mark_all (dir : Z) (ps : list Z) : M unit :=
  match ps with
  | [] => ret tt
  | p :: ps' => mark_deleted dir p ;; mark_all dir ps'
  end.

Definition unlink (dir : Z) (nm : list Z) : M unit :=
  let! ev := find_entry dir nm in
  guard (negb (bit_set (attr ev) ATTR_DIR)) ;;
  (if cluster ev =? 0 then ret tt else free_chain dev_rd dev_wr (cluster ev)) ;;
  mark_all dir (lfn_pos ev) ;;
  mark_deleted dir (pos ev).

(** [free_chain(fs, clu); return false]. *)
Definition undo (clu : Z) {A} (m : M A) : M A :=
  attempt m (fun r => match r with Some a => ret a | None => attempt (free_chain dev_rd dev_wr clu) (fun _ => fail) end).

Definition mkdir (dir : Z) (nm : list Z) : M unit :=
  attempt (find_entry dir nm) (fun ev =>
    match ev with
    | Some _ => fail
    | None =>
        let! clu := cluster_alloc dev_rd dev_wr 0 in
        undo clu (init_subdir clu dir) ;;
        let! es := undo clu (build_entries dir nm ATTR_DIR clu 0) in
        undo clu (dir_append dir es)
    end).

Definition is_dots (nm : list Z) : bool :=
  (at_ nm 0 =? chr ".") && ((at_ nm 1 =? 0) || ((at_ nm 1 =? chr ".") && (at_ nm 2 =? 0))).

(** The loop of [rmdir]: nothing but [.] and [..]. *)
Fixpoint only_dots (fuel : nat) (dir pos total : Z) : M bool :=
  match fuel with
  | O => ret true
  | S fuel' =>
      let! (child, pos) := scan_next dir pos total in
      match child with
      | None => ret true
      | Some child => if is_dots (name child) then only_dots fuel' dir pos total else ret false
      end
  end.

Definition rmdir (dir : Z) (nm : list Z) : M unit :=
  let! ev := find_entry dir nm in
  guard (bit_set (attr ev) ATTR_DIR) ;;
  let! total := dir_total_bytes (cluster ev) in
  let! empty := only_dots (turns total) (cluster ev) 0 total in
  guard empty ;;
  free_chain dev_rd dev_wr (cluster ev) ;;
  mark_all dir (lfn_pos ev) ;;
  mark_deleted dir (pos ev).

(** ** Iteration *)

Record Iter := mkIter { dir_cluster : Z; it_pos : Z; total : Z; seen : Z }.

Definition opendir (dir : Z) : M Iter := let! t := dir_total_bytes dir in ret (mkIter dir 0 t 0).

Fixpoint readdir_loop (fuel : nat) (it : Iter) (name_cap : Z) : M (option (list Z * Z * Z * Z) * Iter) :=
  match fuel with
  | O => ret (None, it)
  | S fuel' =>
      let! (ev, p) := scan_next (dir_cluster it) (it_pos it) (total it) in
      let it := mkIter (dir_cluster it) p (total it) (seen it) in
      match ev with
      | None => ret (None, it)
      | Some ev =>
          if bit_set (attr ev) ATTR_VOLUME || is_dots (name ev) then readdir_loop fuel' it name_cap
          else ret (Some (take (Z.to_nat (name_cap - 1)) (name ev), cluster ev, size ev, attr ev),
                    mkIter (dir_cluster it) p (total it) (u32 (seen it + 1)))
      end
  end.
Definition readdir (it : Iter) (name_cap : Z) : M (option (list Z * Z * Z * Z) * Iter) :=
  readdir_loop (turns (total it)) it name_cap.
End Directory.
