(* ===== verification/FatName.v ===== *)
(** The names of FAT16 directory entries: what a directory of given entries lists,
    and that the entries built for a name list as that name. *)
From S2P Require Import Prelude Fat16 FatDir FatChain.
Local Open Scope vnu_scope.

(** The entries of a directory, whose slots from position [p] on are [es], up to the end mark. *)
Fixpoint listing (es : list (list Z)) (p : Z) (st : Lfn) : list Entry :=
  match es with
  | [] => []
  | e :: es' =>
      if at_ e 0 =? 0x00 then []
      else if at_ e 0 =? 0xE5 then listing es' (p + 32) lfn0
      else if Z.land (at_ e 11) 0x3F =? 0x0F then listing es' (p + 32) (lfn_add st p e)
      else entry_of st p e :: listing es' (p + 32) lfn0
  end.

(** ** Long names *)

(** The character stored for place [g] of a long name: the name, a NUL, then padding. *)
Definition lfn_unit (nm : list Z) (g : Z) : Z :=
  let len := Z.of_nat (length nm) in if g <? len then at_ nm (Z.to_nat g) else if g =? len then 0x0000 else 0xFFFF.

Lemma lfn_entry_chars nm chunks chk c :
  map (at_ (lfn_entry nm chunks chk c)) charoff = map (fun k => u8 (Z.land (lfn_unit nm ((chunks - c - 1) * 13 + Z.of_nat k)) 0xFF)) (seq 0 13).
Proof. reflexivity. Qed.

Lemma lfn_entry_head nm chunks chk c :
  at_ (lfn_entry nm chunks chk c) 0 = u8 (Z.lor (chunks - c) (if c =? 0 then 0x40 else 0)) /\
  at_ (lfn_entry nm chunks chk c) 11 = 0x0F /\ at_ (lfn_entry nm chunks chk c) 13 = chk /\ length (lfn_entry nm chunks chk c) = 32%nat.
Proof. repeat split. Qed.

Lemma at_map_seq (f : nat -> Z) n j : (j < n)%nat -> at_ (map f (seq 0 n)) j = f j.
Proof. intros Hj. apply at_lookup. rewrite list_lookup_fmap, lookup_seq_lt by lia. done. Qed.

(** The sequence number of a long-name entry. *)
Lemma lfn_seq c s : 1 <= s <= MAX_LFN ->
  let b := u8 (Z.lor s (if c =? 0 then 0x40 else 0)) in Z.land b 0x1F = s /\ b <> 0x00 /\ b <> 0xE5.
Proof.
  intros Hs. cbv zeta. unfold MAX_LFN in Hs.
  assert (forallb (fun n => forallb (fun m => let b := u8 (Z.lor (Z.of_nat n) m) in (Z.land b 0x1F =? Z.of_nat n) && negb (b =? 0) && negb (b =? 0xE5)) [0x40; 0]) (seq 1 20) = true) as H by (vm_compute; reflexivity).
  eapply forallb_forall with (x := Z.to_nat s) in H; [|apply in_seq; lia]. rewrite Z2Nat.id in H by lia.
  eapply forallb_forall with (x := if c =? 0 then 0x40 else 0) in H; [|destruct (c =? 0); cbn; tauto]. cbv zeta in H. bprop. done.
Qed.

(** After [k] of the [chunks] long-name entries of [nm], seen at [ps]. *)
Record gathered (nm : list Z) (chunks chk k : Z) (ps : list Z) (st : Lfn) : Prop := {
  ga_len : length (lfn st) = 256%nat;
  ga_seen : lfn_seen st = ps /\ Z.of_nat (length ps) = k;
  ga_chk : 0 < k -> lfn_chk st = chk /\ max_seq st = chunks;
  ga_char : forall i, (i < 256)%nat -> 0 < k -> at_ (lfn st) i =
    if (13 * (chunks - k) <=? Z.of_nat i) && (Z.of_nat i <? 13 * chunks) then u8 (Z.land (lfn_unit nm (Z.of_nat i)) 0xFF) else 0
}.

Lemma gathered_add nm chunks chk k ps st here :
  gathered nm chunks chk k ps st -> 0 <= k < chunks -> chunks <= MAX_LFN ->
  gathered nm chunks chk (k + 1) (ps ++ [here]) (lfn_add st here (lfn_entry nm chunks chk k)).
Proof.
  intros [L [S1 S2] C A] Hk Hc. destruct (lfn_entry_head nm chunks chk k) as (H0 & _ & H13 & _).
  destruct (lfn_seq k (chunks - k) ltac:(lia)) as (Hs & _ & _). cbv zeta in Hs.
  unfold lfn_add. rewrite H0, H13, Hs, lfn_entry_chars. unfold lfn_n. rewrite S1, S2.
  set (st0 := if k =? 0 then mkLfn (replicate (Z.to_nat NAME_MAX) 0) [] 0 chk else st).
  assert (length (lfn st0) = 256%nat /\ lfn_seen st0 = ps /\ lfn_chk st0 = chk /\
    (if max_seq st0 <? chunks - k then chunks - k else max_seq st0) = chunks /\
    forall i, (i < 256)%nat -> at_ (lfn st0) i =
      if (13 * (chunks - k) <=? Z.of_nat i) && (Z.of_nat i <? 13 * chunks) then u8 (Z.land (lfn_unit nm (Z.of_nat i)) 0xFF) else 0) as (L0 & P0 & C0 & M0 & A0).
  { subst st0. destruct (Z.eqb_spec k 0) as [->|].
    - cbn [lfn lfn_seen lfn_chk max_seq]. split; [by rewrite length_replicate|]. split; [destruct ps; [done|cbn in S2; lia]|]. split; [done|].
      split; [destruct (Z.ltb_spec 0 (chunks - 0)); lia|]. intros i Hi.
      destruct (Z.leb_spec (13 * (chunks - 0)) (Z.of_nat i)), (Z.ltb_spec (Z.of_nat i) (13 * chunks)); try lia; cbn [andb];
        apply at_lookup, lookup_replicate; (split; [done|unfold NAME_MAX; lia]).
    - destruct (C ltac:(lia)) as [C1 C2]. split; [done|]. split; [done|]. split; [done|]. split; [rewrite C2; destruct (Z.ltb_spec chunks (chunks - k)); lia|].
      intros i Hi. by apply A; [|lia]. }
  rewrite C0, Z.eqb_refl. cbn [negb orb]. destruct (Z.eqb_spec (chunks - k) 0); [lia|]. destruct (Z.ltb_spec MAX_LFN (chunks - k)); [lia|].
  rewrite P0. rewrite S2. destruct (Z.leb_spec MAX_LFN k); [lia|]. cbn [orb]. rewrite M0. unfold MAX_LFN, NAME_MAX in *.
  set (at0 := (chunks - k - 1) * 13). set (us := map _ (seq 0 13)). assert (length us = 13%nat) as Lu by done.
  constructor; cbn [lfn lfn_seen lfn_chk max_seq].
  - by rewrite length_put.
  - split; [done|]. rewrite length_app. cbn [length]. lia.
  - done.
  - intros i Hi _. rewrite at_put by (rewrite length_take; lia). rewrite length_take, Lu. case_decide as E.
    + rewrite at_take by lia. subst us. rewrite at_map_seq by lia. subst at0.
      destruct (Z.leb_spec (13 * (chunks - (k + 1))) (Z.of_nat i)), (Z.ltb_spec (Z.of_nat i) (13 * chunks)); cbn [andb]; try lia. do 3 f_equal. lia.
    + rewrite A0 by done. destruct (Z.leb_spec (13 * (chunks - k)) (Z.of_nat i)), (Z.leb_spec (13 * (chunks - (k + 1))) (Z.of_nat i)), (Z.ltb_spec (Z.of_nat i) (13 * chunks)); cbn [andb]; try done; try lia.
Qed.

(** The positions of [n] entries from [p] on. *)
Definition slots_at (p : Z) (n : nat) : list Z := map (fun i => p + 32 * Z.of_nat i) (seq 0 n).

Lemma slots_at_snoc p n : slots_at p (S n) = slots_at p n ++ [p + 32 * Z.of_nat n].
Proof. unfold slots_at. by rewrite seq_S, map_app. Qed.

(** The long-name entries of [nm], from the [k]th on. *)
Lemma listing_long n nm chunks chk k rest p0 st :
  gathered nm chunks chk (Z.of_nat k) (slots_at p0 k) st -> chunks <= MAX_LFN -> Z.of_nat (k + n) = chunks ->
  exists st', listing (map (fun c => lfn_entry nm chunks chk (Z.of_nat c)) (seq k n) ++ rest) (p0 + 32 * Z.of_nat k) st = listing rest (p0 + 32 * Z.of_nat (k + n)) st' /\
    gathered nm chunks chk chunks (slots_at p0 (k + n)) st'.
Proof.
  revert k st; induction n as [|n IH]; intros k st Ga Hc Hn.
  - rewrite Nat.add_0_r in *. subst chunks. by exists st.
  - cbn [seq map app listing]. destruct (lfn_entry_head nm chunks chk (Z.of_nat k)) as (H0 & H11 & _ & _). rewrite H0, H11.
    destruct (lfn_seq (Z.of_nat k) (chunks - Z.of_nat k) ltac:(lia)) as (_ & Hn0 & Hn5). cbv zeta in Hn0, Hn5.
    destruct (Z.eqb_spec (u8 (Z.lor (chunks - Z.of_nat k) (if Z.of_nat k =? 0 then 64 else 0))) 0); [done|].
    destruct (Z.eqb_spec (u8 (Z.lor (chunks - Z.of_nat k) (if Z.of_nat k =? 0 then 64 else 0))) 229); [done|].
    change (Z.land 15 63 =? 15) with true. cbv iota.
    pose proof (gathered_add nm chunks chk (Z.of_nat k) (slots_at p0 k) st (p0 + 32 * Z.of_nat k) Ga ltac:(lia) Hc) as Ga'.
    rewrite <- slots_at_snoc in Ga'. replace (Z.of_nat k + 1) with (Z.of_nat (S k)) in Ga' by lia.
    destruct (IH (S k) _ Ga' Hc ltac:(lia)) as (st' & E & G'). exists st'. replace (S k + n)%nat with (k + S n)%nat in * by lia.
    split; [|done]. rewrite <- E. f_equal. lia.
Qed.

Lemma until_nul_cstring l r : cstring l -> until_nul (l ++ 0 :: r) = l.
Proof. induction 1 as [|c l Hc Hl IH]; [done|]. cbn [app until_nul]. destruct (Z.eqb_spec c 0); [lia|]. by rewrite IH. Qed.

Lemma until_nul_all l : cstring l -> until_nul l = l.
Proof. induction 1 as [|c l Hc Hl IH]; [done|]. cbn [until_nul]. destruct (Z.eqb_spec c 0); [lia|]. by rewrite IH. Qed.

(** All of the long name has been gathered. *)
Lemma gathered_name nm chunks chk ps st :
  cstring nm -> gathered nm chunks chk chunks ps st -> 0 < chunks <= MAX_LFN -> Z.of_nat (length nm) <= 255 -> Z.of_nat (length nm) <= 13 * chunks ->
  until_nul (take (Z.to_nat (if NAME_MAX - 1 <? max_seq st * 13 then NAME_MAX - 1 else max_seq st * 13)) (lfn st)) = nm.
Proof.
  intros Hn [L _ C A] Hc Hl Hl'. destruct (C ltac:(lia)) as [_ ->]. unfold NAME_MAX, MAX_LFN in *.
  set (len := Z.to_nat _). assert ((length nm <= len <= 255)%nat /\ Z.of_nat len <= 13 * chunks) as [H1 H2].
  { subst len. destruct (Z.ltb_spec (256 - 1) (chunks * 13)); lia. }
  assert (forall i, (i < len)%nat -> at_ (lfn st) i = u8 (Z.land (lfn_unit nm (Z.of_nat i)) 0xFF)) as Hi.
  { intros i Hi. rewrite A by lia. replace (13 * (chunks - chunks)) with 0 by lia.
    rewrite (proj2 (Z.leb_le 0 (Z.of_nat i))), (proj2 (Z.ltb_lt (Z.of_nat i) _)) by lia. done. }
  assert (take (length nm) (lfn st) = nm) as Et.
  { apply list_eq_at; [rewrite length_take; lia|]. intros i Hi'. rewrite length_take in Hi'. rewrite at_take, Hi by lia.
    unfold lfn_unit. rewrite (proj2 (Z.ltb_lt (Z.of_nat i) _)), Nat2Z.id by lia.
    pose proof (bytes_at nm i (cstring_bytes _ Hn)) as Hb. change 0xFF with (Z.ones 8). rewrite Z.land_ones by lia.
    rewrite Z.mod_small by exact Hb. by apply u8_id. }
  rewrite <- (take_drop (length nm) (take len (lfn st))). rewrite take_take, Nat.min_l, Et by lia.
  destruct (drop (length nm) (take len (lfn st))) as [|z r] eqn:Ed; [rewrite app_nil_r; by apply until_nul_all|].
  assert (z = 0) as ->; [|by apply until_nul_cstring].
  assert (length nm < len)%nat by (assert (length (drop (length nm) (take len (lfn st))) <> 0%nat) as Hne by (by rewrite Ed); rewrite length_drop, length_take in Hne; lia).
  change z with (at_ (z :: r) 0). rewrite <- Ed, at_drop, at_take, Hi by lia. unfold lfn_unit. rewrite Nat.add_0_r.
  rewrite Z.ltb_irrefl, Z.eqb_refl. done.
Qed.

(** ** Short names *)

(** The bytes of a 32-bit number, the least significant first. *)
Lemma le32_roundtrip v :
  is_u32 v -> rd32 [u8 v; u8 (Z.shiftr v 8); u8 (Z.shiftr v 16); u8 (Z.shiftr v 24)] = v.
Proof.
  unfold is_u32, rd32, at_. cbn [nth]. change (2 ^ 32) with 4294967296. intros Hv. unfold u8. rewrite !Z.shiftr_div_pow2 by lia.
  change (2 ^ 8) with 256. change (2 ^ 16) with 65536. change (2 ^ 24) with 16777216.
  pose proof (Z.mod_pos_bound v 256 ltac:(lia)). pose proof (Z.mod_pos_bound (v / 256) 256 ltac:(lia)). pose proof (Z.mod_pos_bound (v / 65536) 256 ltac:(lia)). pose proof (Z.mod_pos_bound (v / 16777216) 256 ltac:(lia)).
  rewrite (or_shift _ _ 8), (or_shift _ _ 16), (or_shift _ _ 24) by lia. change (2 ^ 8) with 256. change (2 ^ 16) with 65536. change (2 ^ 24) with 16777216.
  rewrite (Z.mod_small (v / 16777216)) by (split; [apply Z.div_pos; lia|apply Z.div_lt_upper_bound; lia]).
  change 65536 with (256 * 256). change 16777216 with (256 * 256 * 256). rewrite <- !Z.div_div by lia.
  pose proof (Z_div_mod_eq_full v 256). pose proof (Z_div_mod_eq_full (v / 256) 256). pose proof (Z_div_mod_eq_full (v / 256 / 256) 256). lia.
Qed.

Lemma le16_roundtrip v : 0 <= v < 2 ^ 16 -> rd16 [u8 (Z.land v 0xFF); u8 (Z.land (Z.shiftr v 8) 0xFF)] = v.
Proof.
  unfold rd16, at_. cbn [nth]. change (2 ^ 16) with 65536. intros Hv. change 0xFF with (Z.ones 8). rewrite !Z.land_ones, Z.shiftr_div_pow2 by lia. unfold u8, u16.
  rewrite !Zmod_mod. change (2 ^ 8) with 256. pose proof (Z.mod_pos_bound v 256 ltac:(lia)).
  rewrite (Z.mod_small (v / 256)) by (split; [apply Z.div_pos; lia|apply Z.div_lt_upper_bound; lia]).
  assert (0 <= v / 256) by (apply Z.div_pos; lia). rewrite (or_shift _ _ 8) by lia. change (2 ^ 8) with 256. change (2 ^ 16) with 65536.
  pose proof (Z_div_mod_eq_full v 256). rewrite Z.mod_small; lia.
Qed.

(** A short entry's fields. *)
Lemma short_entry_fields sfn at_b ntb clu sz :
  length sfn = 11%nat -> 0 <= clu < 2 ^ 16 -> is_u32 sz ->
  let e := short_entry sfn at_b ntb clu sz in
  length e = 32%nat /\ take 11 e = sfn /\ at_ e 11 = at_b /\ at_ e 12 = ntb /\ rd16 (drop 26 e) = clu /\ rd32 (drop 28 e) = sz.
Proof.
  intros Hl Hc Hz. do 11 (destruct sfn as [|? sfn]; [done|]). destruct sfn; [|done]. cbv zeta.
  split; [done|]. split; [done|]. split; [done|]. split; [done|]. split; [by apply le16_roundtrip|by apply le32_roundtrip].
Qed.

Lemma short_part_fits cap s out lo up :
  (forall c, c ∈ s -> sfn_char_ok c = true) -> (length out + length s <= cap)%nat ->
  short_part cap s out true lo up = (out ++ map upper s, true, lo || existsb is_lower s, up || existsb is_upper s).
Proof.
  revert out lo up; induction s as [|c s IH]; intros out lo up Hc Hl; cbn [short_part map existsb length] in *.
  - by rewrite app_nil_r, !orb_false_r.
  - rewrite (Hc c ltac:(left)). cbn [andb]. destruct (Nat.ltb_spec (length out) cap); [|lia].
    rewrite IH; [|intros x Hx; apply Hc; by right|rewrite length_app; cbn; lia]. by rewrite <- app_assoc, !orb_assoc.
Qed.

(** Only when every character fits does the part count as fitting. *)
Lemma short_part_flag cap s out f lo up :
  let '(o, f', lo', up') := short_part cap s out f lo up in f' = true -> f = true /\ (forall c, c ∈ s -> sfn_char_ok c = true) /\ (length out + length s <= cap \/ s = [])%nat.
Proof.
  revert out f lo up; induction s as [|c s IH]; intros out f lo up; cbn [short_part].
  { intros ->. split; [done|]. split; [intros c Hc; by apply not_elem_of_nil in Hc|by right]. }
  destruct (Nat.ltb_spec (length out) cap) as [Hlt|Hge].
  - specialize (IH (out ++ [upper (if sfn_char_ok c then c else chr "_")]) (f && sfn_char_ok c) (lo || is_lower c) (up || is_upper c)).
    destruct (short_part _ _ _ _ _ _) as [[[o f'] lo'] up']. intros Hf. destruct (IH Hf) as (H1 & H2 & H3). bprop. split; [done|].
    split; [intros x [->|Hx]%elem_of_cons; auto|]. left. rewrite length_app in H3. cbn [length] in *. destruct H3 as [?| ->]; cbn [length]; lia.
  - specialize (IH out false (lo || is_lower c) (up || is_upper c)). destruct (short_part _ _ _ _ _ _) as [[[o f'] lo'] up'].
    intros Hf. destruct (IH Hf) as (? & _). done.
Qed.

(** The lower-case bit restores a part that is of one case. *)
Definition unshift (b : bool) (c : Z) : Z := if b && is_upper c then c - 65 + 97 else c.

Lemma unshift_upper s :
  bytes s -> existsb is_lower s && existsb is_upper s = false ->
  map (fun c => unshift (existsb is_lower s && negb (existsb is_upper s)) (upper c)) s = s.
Proof.
  intros Hb Hu. destruct (existsb is_lower s) eqn:El; cbn [andb] in Hu |- *.
  - rewrite Hu. cbn [negb]. clear El. induction Hb as [|c s Hc Hs IH]; [done|]. cbn [existsb map] in *. bprop. rewrite IH by done. f_equal.
    assert (implb (negb (is_upper c)) (unshift true (upper c) =? c) = true) as Hi by (apply (all_bytes (fun c => implb (negb (is_upper c)) (unshift true (upper c) =? c))); [done|vm_compute; reflexivity]).
    rewrite H in Hi. cbn in Hi. by bprop.
  - clear Hu. induction Hb as [|c s Hc Hs IH]; [done|]. cbn [existsb map] in *. bprop. rewrite IH by done. f_equal.
    unfold unshift. cbn [andb]. unfold upper, is_lower in *. by rewrite H.
Qed.

(** The characters of a part, up to the space that follows them. *)
Lemma sfn_part_ok k i b e l :
  (length l <= k)%nat -> (forall j, (j < length l)%nat -> at_ e (i + j) = at_ l j) -> ((length l < k)%nat -> at_ e (i + length l) = 32) ->
  (forall c, c ∈ l -> c <> 32 /\ c <> 5) -> sfn_part k i b e = map (unshift (bit_set (at_ e 12) b)) l.
Proof.
  revert i l; induction k as [|k IH]; intros i l Hl Hj Hs Hc.
  - destruct l; [done|cbn in Hl; lia].
  - cbn [sfn_part]. destruct l as [|c l]; cbn [length] in *.
    + rewrite <- (Nat.add_0_r i), Hs by lia. done.
    + specialize (Hj 0%nat ltac:(lia)) as H0. rewrite Nat.add_0_r in H0. rewrite H0. change (at_ (c :: l) 0) with c.
      destruct (Hc c ltac:(left)) as [? ?]. destruct (Z.eqb_spec c 32); [done|]. destruct (Z.eqb_spec c 5); [done|]. rewrite andb_false_r.
      cbn [map]. rewrite (IH (S i) l); [done|lia| | |].
      * intros j Hj'. specialize (Hj (S j) ltac:(lia)). rewrite at_cons_S in Hj. rewrite <- Hj. f_equal. lia.
      * intros Hlt. rewrite <- Hs by lia. f_equal. lia.
      * intros x Hx. apply Hc. by right.
Qed.

Lemma at_pad n l j : (j < n)%nat -> (length l <= n)%nat -> at_ (pad n l) j = if decide (j < length l)%nat then at_ l j else 32.
Proof.
  intros Hj Hl. unfold pad. case_decide; [by apply at_app_l|]. rewrite at_app_r by lia. apply at_lookup, lookup_replicate. split; [done|lia].
Qed.

Lemma length_pad n l : (length l <= n)%nat -> length (pad n l) = n.
Proof. intros. unfold pad. rewrite length_app, length_replicate. lia. Qed.

Lemma ok_char c : is_u8 c -> sfn_char_ok c = true -> 0 < upper c < 256 /\ upper c <> 32 /\ upper c <> 5 /\ upper c <> 0xE5.
Proof.
  intros Hc Ho. assert (implb (sfn_char_ok c) ((0 <? upper c) && (upper c <? 256) && negb (upper c =? 32) && negb (upper c =? 5) && negb (upper c =? 0xE5)) = true) as H.
  { apply (all_bytes (fun c => implb (sfn_char_ok c) ((0 <? upper c) && (upper c <? 256) && negb (upper c =? 32) && negb (upper c =? 5) && negb (upper c =? 0xE5)))); [done|vm_compute; reflexivity]. }
  rewrite Ho in H. cbn [implb] in H. bprop. done.
Qed.

(** Where the last dot is. *)
Lemma last_dot_spec s i d :
  ((chr "." ∉ s) /\ last_dot s i d = d) \/ (exists a b, s = a ++ chr "." :: b /\ (chr "." ∉ b) /\ last_dot s i d = Some (i + length a)%nat).
Proof.
  revert i d; induction s as [|c s IH]; intros i d; cbn [last_dot]; [left; split; [apply not_elem_of_nil|done]|].
  destruct (IH (S i) (if c =? chr "." then Some i else d)) as [[Hn E]|(a & b & -> & Hn & E)].
  - rewrite E. destruct (Z.eqb_spec c (chr ".")) as [->|].
    + right. exists [], s. split; [done|]. split; [done|]. f_equal. cbn. lia.
    + left. split; [|done]. rewrite elem_of_cons. intuition.
  - right. exists (c :: a), b. split; [done|]. split; [done|]. rewrite E. f_equal. cbn [length]. lia.
Qed.

(** A part of a name, stored padded at offset [i] of the entry, reads back. *)
Lemma part_roundtrip k i b e s :
  bytes s -> (length s <= k)%nat -> (forall c, c ∈ s -> sfn_char_ok c = true) ->
  (forall j, (j < k)%nat -> at_ e (i + j) = at_ (pad k (map upper s)) j) ->
  existsb is_lower s && existsb is_upper s = false ->
  bit_set (at_ e 12) b = existsb is_lower s && negb (existsb is_upper s) ->
  sfn_part k i b e = s.
Proof.
  intros Hb Hl Hok He Hu Hbit. rewrite (sfn_part_ok k i b e (map upper s)).
  - rewrite Hbit, map_map. by apply unshift_upper.
  - by rewrite length_map.
  - intros j Hj. rewrite length_map in Hj. rewrite He, at_pad by (rewrite ?length_map; lia). case_decide; [done|rewrite length_map in *; lia].
  - rewrite length_map. intros Hlt. rewrite He, at_pad by (rewrite ?length_map; lia). case_decide; [rewrite length_map in *; lia|done].
  - intros c (x & -> & Hx)%list_elem_of_fmap. assert (is_u8 x) as Hx8 by (by eapply Forall_forall in Hb).
    destruct (ok_char x Hx8 (Hok x Hx)) as (_ & ? & ? & _). done.
Qed.

(** What a name that fits looks like: a base and perhaps an extension. *)
Definition parts (nm : list Z) : list Z * list Z :=
  match last_dot nm 0 None with None => (nm, []) | Some i => (take i nm, drop (S i) nm) end.

Lemma parts_join nm : last nm <> Some (chr ".") ->
  let '(b, x) := parts nm in nm = b ++ match x with [] => [] | _ => chr "." :: x end.
Proof.
  intros Hl. unfold parts. destruct (last_dot_spec nm 0 None) as [[_ ->]|(a & b & -> & _ & ->)]; [by rewrite app_nil_r|].
  rewrite Nat.add_0_l. rewrite take_app_length. replace (drop (S (length a)) (a ++ chr "." :: b)) with b
    by (rewrite drop_app_ge by lia; by replace (S (length a) - length a)%nat with 1%nat by lia).
  destruct b; [|done]. exfalso. apply Hl. by rewrite last_snoc.
Qed.

(** The short form of a name that fits. *)
Lemma build_short_fits nm :
  fits (build_short nm) = true -> let '(b, x) := parts nm in
  b <> [] /\ (length b <= 8)%nat /\ (length x <= 3)%nat /\ (forall c, c ∈ b ++ x -> sfn_char_ok c = true) /\
  build_short nm = mkShort (pad 8 (map upper b)) (pad 3 (map upper x))
    (Z.lor (if existsb is_lower b && negb (existsb is_upper b) then 0x08 else 0) (if existsb is_lower x && negb (existsb is_upper x) then 0x10 else 0))
    true (negb (existsb is_lower b && existsb is_upper b) && negb (existsb is_lower x && existsb is_upper x)).
Proof.
  unfold build_short, parts. set (dot := last_dot nm 0 None). set (b := match dot with None => nm | Some i => take i nm end). set (x := match dot with None => [] | Some i => drop (S i) nm end).
  assert (match dot with None => (nm, []) | Some i => (take i nm, drop (S i) nm) end = (b, x)) as -> by (subst b x; by destruct dot).
  pose proof (short_part_flag 8 b [] true false false) as Fb. pose proof (short_part_flag 3 x [] true false false) as Fx.
  destruct (short_part 8 b [] true false false) as [[[bo bf] bl] bu] eqn:Eb. destruct (short_part 3 x [] true false false) as [[[xo xf] xl] xu] eqn:Ex.
  cbn [fits]. intros Hf. bprop. destruct (Fb H) as (_ & Hb1 & Hb2). destruct (Fx H0) as (_ & Hx1 & Hx2). cbn [length] in *.
  assert (b <> []) as Hne by (by intros ->).
  assert (length b <= 8)%nat as Hb8 by (destruct Hb2; [lia|done]). assert (length x <= 3)%nat as Hx3 by (destruct Hx2 as [|Hx2]; [lia|rewrite Hx2; cbn; lia]).
  rewrite short_part_fits in Eb, Ex by (auto; cbn; lia). injection Eb as <- <- <- <-. injection Ex as <- <- <- <-. cbn [app orb].
  split; [done|]. split; [done|]. split; [done|]. split; [intros c [Hc|Hc]%elem_of_app; auto|].
  f_equal. destruct (Nat.eqb_spec (length b) 0); done.
Qed.

Lemma short_name_roundtrip nm a clu sz :
  cstring nm -> last nm <> Some (chr ".") -> fits (build_short nm) = true -> uniform (build_short nm) = true ->
  build_sfn_name (short_entry (s_base (build_short nm) ++ s_ext (build_short nm)) a (nt (build_short nm)) clu sz) = nm.
Proof.
  intros Hn Hl Hf Hu. pose proof (build_short_fits nm Hf) as P. pose proof (parts_join nm Hl) as J. destruct (parts nm) as [b x].
  destruct P as (Hne & Hb & Hx & Hok & E). rewrite E in Hu |- *. cbn [s_base s_ext nt uniform] in *. bprop.
  assert (bytes nm) as Hby by (by apply cstring_bytes).
  assert (bytes b /\ bytes x) as [Bb Bx].
  { rewrite J in Hby. apply Forall_app in Hby as [? Hby]. split; [done|]. destruct x; [constructor|]. by inversion Hby. }
  set (ntb := Z.lor _ _). set (sfn := pad 8 _ ++ pad 3 _). set (e := short_entry sfn a ntb clu sz).
  assert (length sfn = 11%nat) as Ls by (unfold sfn; rewrite length_app, !length_pad by (rewrite length_map; lia); done).
  assert (forall j, (j < 11)%nat -> at_ e j = at_ sfn j) as He.
  { subst e. clearbody sfn ntb. do 11 (destruct sfn as [|? sfn]; [done|]). destruct sfn; [|done]. intros j Hj. do 11 (destruct j as [|j]; [done|]). lia. }
  assert (at_ e 12 = ntb) as He12 by (subst e; clearbody sfn ntb; do 11 (destruct sfn as [|? sfn]; [done|]); destruct sfn; done).
  unfold build_sfn_name. rewrite (part_roundtrip 8 0 0x08 e b), (part_roundtrip 3 8 0x10 e x); auto.
  - by rewrite <- J, until_nul_all.
  - intros c Hc. apply Hok, elem_of_app. by right.
  - intros j Hj. rewrite He by lia. unfold sfn. rewrite at_app_r by (rewrite length_pad by (rewrite length_map; lia); lia).
    rewrite length_pad by (rewrite length_map; lia). f_equal. lia.
  - rewrite He12. unfold ntb. by destruct (existsb is_lower b && negb (existsb is_upper b)), (existsb is_lower x && negb (existsb is_upper x)).
  - intros c Hc. apply Hok, elem_of_app. by left.
  - intros j Hj. rewrite He by lia. unfold sfn. by rewrite at_app_l by (rewrite length_pad by (rewrite length_map; lia); lia).
  - rewrite He12. unfold ntb. by destruct (existsb is_lower b && negb (existsb is_upper b)), (existsb is_lower x && negb (existsb is_upper x)).
Qed.

(** ** The entries of a name *)

Definition long_needed (nm : list Z) : bool := negb (fits (build_short nm)) || negb (uniform (build_short nm)).
Definition chunks_of (nm : list Z) : Z := let n := (Z.of_nat (length nm) + 12) / 13 in if n =? 0 then 1 else n.

(** What [build_entries] builds, given the short name. *)
Definition entries_for (nm sfn : list Z) (a clu sz : Z) : list (list Z) :=
  (if long_needed nm then map (fun c => lfn_entry nm (chunks_of nm) (sfn_checksum sfn) (Z.of_nat c)) (seq 0 (Z.to_nat (chunks_of nm))) else []) ++
  [short_entry sfn a (if long_needed nm then 0 else nt (build_short nm)) clu sz].

(** A short name for [nm]: its own when it fits, one that no scan takes for a mark otherwise. *)
Definition sfn_for (nm sfn : list Z) : Prop :=
  length sfn = 11%nat /\ bytes sfn /\ at_ sfn 0 <> 0x00 /\ at_ sfn 0 <> 0xE5 /\
  (long_needed nm = false -> sfn = s_base (build_short nm) ++ s_ext (build_short nm)).

(** A name that can be stored: not empty, at most 255 bytes, and no final dot unless it is stored as a long name. *)
Definition storable (nm : list Z) : Prop :=
  cstring nm /\ 1 <= Z.of_nat (length nm) <= 255 /\ (long_needed nm = false -> last nm <> Some (chr ".")).

(** Nothing gathered is nothing gathered. *)
Lemma listing_fresh es p st : lfn_seen st = [] -> listing es p st = listing es p lfn0.
Proof. intros Hs. destruct es as [|e es]; [done|]. cbn [listing]. unfold lfn_add, entry_of, lfn_n. by rewrite Hs. Qed.

Lemma checksum_take e : sfn_checksum (take 11 e) = sfn_checksum e.
Proof.
  unfold sfn_checksum. assert (forall l acc, (forall i, i ∈ l -> (i < 11)%nat) ->
    fold_left (fun s i => u8 ((if bit_set s 1 then 0x80 else 0) + Z.shiftr s 1 + at_ (take 11 e) i)) l acc =
    fold_left (fun s i => u8 ((if bit_set s 1 then 0x80 else 0) + Z.shiftr s 1 + at_ e i)) l acc) as H.
  { induction l as [|i l IH]; intros acc Hi; [done|]. cbn [fold_left]. rewrite at_take by (apply Hi; left). apply IH. intros j Hj. apply Hi. by right. }
  apply H. intros i Hi%elem_of_seq. lia.
Qed.

Lemma chunks_bounds nm : 1 <= Z.of_nat (length nm) <= 255 -> 1 <= chunks_of nm <= MAX_LFN /\ Z.of_nat (length nm) <= 13 * chunks_of nm.
Proof.
  intros Hl. unfold chunks_of, MAX_LFN. pose proof (Z_div_mod_eq_full (Z.of_nat (length nm) + 12) 13). pose proof (Z.mod_pos_bound (Z.of_nat (length nm) + 12) 13 ltac:(lia)).
  cbv zeta. destruct (Z.eqb_spec ((Z.of_nat (length nm) + 12) / 13) 0); lia.
Qed.

Lemma length_entries_for nm sfn a clu sz : 1 <= Z.of_nat (length nm) <= 255 ->
  length (entries_for nm sfn a clu sz) = S (if long_needed nm then Z.to_nat (chunks_of nm) else 0).
Proof. intros Hl. unfold entries_for. rewrite length_app. destruct (long_needed nm); [rewrite length_map, length_seq|]; cbn [length]; lia. Qed.

(** The entry a scan makes of the entries built for a name. *)
Definition made (nm sfn : list Z) (a clu sz p : Z) : Entry :=
  let n := if long_needed nm then Z.to_nat (chunks_of nm) else 0%nat in
  mkEntry (p + 32 * Z.of_nat n) clu sz (Z.land a 0x3F) sfn nm (slots_at p n).

Lemma entries_listed nm sfn a clu sz p rest :
  storable nm -> sfn_for nm sfn -> Z.land a 0x3F <> 0x0F -> 0 <= clu < 2 ^ 16 -> is_u32 sz ->
  listing (entries_for nm sfn a clu sz ++ rest) p lfn0 =
    made nm sfn a clu sz p :: listing rest (p + 32 * Z.of_nat (length (entries_for nm sfn a clu sz))) lfn0.
Proof.
  intros (Hn & Hl & Hdot) (Ls & Bs & S0 & S5 & Hs) Ha Hc Hz. rewrite length_entries_for by done.
  destruct (chunks_bounds nm Hl) as [Hch Hch'].
  set (ntb := if long_needed nm then 0 else nt (build_short nm)).
  destruct (short_entry_fields sfn a ntb clu sz Ls Hc Hz) as (Le & Et & E11 & E12 & E16 & E32). set (e := short_entry sfn a ntb clu sz) in *.
  assert (at_ e 0 = at_ sfn 0) as E0 by (rewrite <- Et; by rewrite at_take by lia).
  assert (forall st q, listing (e :: rest) q st = entry_of st q e :: listing rest (q + 32) lfn0) as Hlast.
  { intros st q. cbn [listing]. rewrite E0, E11. destruct (Z.eqb_spec (at_ sfn 0) 0); [done|]. destruct (Z.eqb_spec (at_ sfn 0) 229); [done|].
    by destruct (Z.eqb_spec (Z.land a 63) 15). }
  assert (forall st q, entry_of st q e = mkEntry q clu sz (Z.land a 0x3F) sfn (name (entry_of st q e)) (lfn_pos (entry_of st q e))) as Hent.
  { intros st q. unfold entry_of. cbn [name lfn_pos]. by rewrite E16, E32, E11, Et. }
  unfold entries_for, made. fold ntb. fold e. rewrite <- app_assoc. cbn [app]. destruct (long_needed nm) eqn:En.
  - assert (gathered nm (chunks_of nm) (sfn_checksum sfn) (Z.of_nat 0) (slots_at p 0) lfn0) as G0
      by (constructor; [done|done|intros; lia|intros; lia]).
    destruct (listing_long (Z.to_nat (chunks_of nm)) nm (chunks_of nm) (sfn_checksum sfn) 0 (e :: rest) p lfn0 G0 ltac:(lia) ltac:(lia)) as (st & E & G).
    rewrite Z.mul_0_r, Z.add_0_r in E. rewrite E, Hlast, Hent. cbn [plus].
    destruct (ga_seen _ _ _ _ _ _ G) as [Gs Gn]. destruct (ga_chk _ _ _ _ _ _ G ltac:(lia)) as [Gc Gm]. f_equal; [|f_equal; lia].
    assert ((0 <? lfn_n st) && (lfn_chk st =? sfn_checksum e) = true) as Hb.
    { unfold lfn_n. rewrite Gs, Gn, Gc, <- (checksum_take e), Et, Z.eqb_refl. rewrite (proj2 (Z.ltb_lt 0 _)) by lia. done. }
    unfold entry_of. cbn [name lfn_pos]. rewrite Hb, Gs. f_equal. apply (gathered_name _ _ _ _ _ Hn G); lia.
  - cbn [app]. rewrite Hlast, Hent. f_equal. unfold long_needed in En. bprop.
    assert (build_sfn_name e = nm) as Hbn by (unfold e; rewrite (Hs eq_refl); apply short_name_roundtrip; auto).
    unfold entry_of. cbn [name lfn_pos]. unfold lfn_n, lfn0. cbn [lfn_seen length]. change (0 <? Z.of_nat 0) with false. cbn [andb].
    rewrite Hbn. f_equal. lia.
Qed.
