(* ===== verification/FatDirSpec.v ===== *)
(** A FAT16 directory as the list of its entries: scanning it, searching it and
    changing an entry. *)
From S2P Require Import Prelude Fat16 FatDir FatChain FatFile FatName.
Local Open Scope vnu_scope.

(** ** Slots *)

(** The sixteen entries of a sector. *)
Definition split32 (b : list Z) : list (list Z) := map (fun k => take 32 (drop (32 * k) b)) (seq 0 16).

Lemma split32_lookup b k : (k < 16)%nat -> split32 b !! k = Some (take 32 (drop (32 * k) b)).
Proof. intros Hk. unfold split32. by rewrite list_lookup_fmap, lookup_seq_lt by lia. Qed.

Lemma length_split32 b : length (split32 b) = 16%nat.
Proof. done. Qed.

(** One slot of a sector written. *)
Lemma split32_put b k e : (k < 16)%nat -> length b = 512%nat -> length e = 32%nat -> split32 (put b (32 * k) e) = <[k := e]> (split32 b).
Proof.
  intros Hk Lb Le. apply list_eq. intros i. destruct (decide (i < 16)%nat) as [Hi|Hi].
  - rewrite split32_lookup by done. destruct (decide (i = k)) as [->|Hne].
    + rewrite list_lookup_insert_eq by (unfold split32; rewrite length_map, length_seq; lia). f_equal.
      apply list_eq_at; [rewrite length_take, length_drop, length_put; lia|]. intros j Hj. rewrite length_take, length_drop, length_put in Hj.
      rewrite at_take, at_drop, at_put by lia. case_decide; [f_equal; lia|lia].
    + rewrite list_lookup_insert_ne by done. rewrite split32_lookup by done. f_equal.
      apply list_eq_at; [rewrite !length_take, !length_drop, length_put; lia|]. intros j Hj. rewrite length_take, length_drop, length_put in Hj.
      rewrite !at_take, !at_drop, at_put by lia. case_decide; [lia|done].
  - rewrite !lookup_ge_None_2; [done|rewrite length_insert| ]; unfold split32; rewrite length_map, length_seq; lia.
Qed.

(** Sixteen entries from each of the blocks. *)
Lemma concat_lookup {A} (ls : list (list A)) n i :
  (forall l, l ∈ ls -> length l = n) -> (0 < n)%nat -> concat ls !! i = ls !! (i / n)%nat ≫= fun l => l !! (i mod n)%nat.
Proof.
  intros Hn Hp. revert i; induction ls as [|l ls IH]; intros i; [done|]. cbn [concat]. pose proof (Hn l ltac:(left)) as Hl.
  destruct (decide (i < n)%nat).
  - rewrite lookup_app_l, Nat.div_small, Nat.mod_small by lia. done.
  - rewrite lookup_app_r, IH by (lia || (intros x Hx; apply Hn; by right)). rewrite Hl.
    assert (i / n = S ((i - n) / n))%nat as -> by (replace i with (i - n + 1 * n)%nat at 1 by lia; rewrite Nat.div_add; lia).
    assert (i mod n = (i - n) mod n)%nat as -> by (replace i with (i - n + 1 * n)%nat at 1 by lia; by rewrite Nat.Div0.mod_add). done.
Qed.

Lemma concat_insert {A} (ls : list (list A)) n i j x :
  (forall l, l ∈ ls -> length l = n) -> (j < n)%nat -> (i < length ls)%nat ->
  <[(i * n + j)%nat := x]> (concat ls) = concat (<[i := <[j := x]> (nth i ls [])]> ls).
Proof.
  intros Hn Hj. revert i; induction ls as [|l ls IH]; intros i Hi; [cbn in Hi; lia|]. pose proof (Hn l ltac:(left)) as Hl. destruct i as [|i]; cbn [concat nth].
  - rewrite Nat.mul_0_l, Nat.add_0_l, insert_app_l by lia. done.
  - replace (S i * n + j)%nat with (length l + (i * n + j))%nat by lia. rewrite insert_app_r. rewrite IH; [done|intros y Hy; apply Hn; by right|cbn in Hi; lia].
Qed.

(** ** Scanning the entries *)

(** The next entry of the slots [es], which are at [p]. *)
Fixpoint scan_slots (es : list (list Z)) (p : Z) (st : Lfn) : option Entry * Z :=
  match es with
  | [] => (None, p)
  | e :: es' =>
      if at_ e 0 =? 0x00 then (None, p + 32)
      else if at_ e 0 =? 0xE5 then scan_slots es' (p + 32) (lfn_reset st)
      else if Z.land (at_ e 11) 0x3F =? 0x0F then scan_slots es' (p + 32) (lfn_add st p e)
      else (Some (entry_of st p e), p + 32)
  end.

(** The listing is what the scans give one after the other. *)
Lemma listing_scan es p st :
  match scan_slots es p st with
  | (Some ev, q) => exists n, (0 < n <= length es)%nat /\ q = p + 32 * Z.of_nat n /\ listing es p st = ev :: listing (drop n es) q lfn0
  | (None, _) => listing es p st = []
  end.
Proof.
  revert p st; induction es as [|e es IH]; intros p st; [done|]. cbn [scan_slots listing]. destruct (at_ e 0 =? 0); [done|].
  assert (forall st, match scan_slots es (p + 32) st with
    | (Some ev, q) => exists n, (0 < n <= length (e :: es))%nat /\ q = p + 32 * Z.of_nat n /\ listing es (p + 32) st = ev :: listing (drop n (e :: es)) q lfn0
    | (None, _) => listing es (p + 32) st = [] end) as H.
  { intros st'. specialize (IH (p + 32) st'). destruct (scan_slots es (p + 32) st') as [[ev|] q]; [|done].
    destruct IH as (n & Hn & Hq & Hl). exists (S n). cbn [length drop]. split; [lia|]. split; [lia|done]. }
  destruct (at_ e 0 =? 229); [rewrite <- (listing_fresh es (p + 32) (lfn_reset st)) by done; apply H|]. destruct (_ =? 15); [apply H|].
  exists 1%nat. cbn [length drop]. split; [lia|]. done.
Qed.

(** The first entry [pr] accepts, volume labels apart. *)
Definition first_match (pr : Entry -> bool) (l : list Entry) : option Entry := find (fun ev => negb (bit_set (attr ev) ATTR_VOLUME) && pr ev) l.

(** ** Directories *)

Section Dirs.
Context {D : Type} (dev_rd : D -> Z -> option (list Z)) (dev_wr : D -> Z -> list Z -> option D) `{!Disk dev_rd dev_wr}.
Abbreviation Vol := (@Fs D).
Abbreviation geo := (geo dev_rd dev_wr).
Abbreviation fat := (fat dev_rd dev_wr).
Abbreviation stored := (stored dev_rd dev_wr).

(** The sectors of the volume that hold a directory. *)
Definition root_secs (fs : Vol) : list Z := map (fun i => first_root fs + Z.of_nat i) (seq 0 (Z.to_nat (root_dir_sectors fs))).
Definition chain_secs (fs : Vol) (cs : list Z) : list Z := concat (map (fun c => map (fun i => csect fs c (Z.of_nat i)) (seq 0 (Z.to_nat (spc fs)))) cs).
Definition is_dir (fs : Vol) (d : D) (dir : Z) (ds : list Z) : Prop :=
  (dir = 0 /\ ds = root_secs fs) \/
  (exists cs, chain (fat fs d 0) (max_cluster fs) (dir :: cs) /\ ds = chain_secs fs (dir :: cs)).

(** Its entries. *)
Definition dslots (fs : Vol) (d : D) (ds : list Z) : list (list Z) := concat (map (fun r => split32 (sector d (part_lba fs + r))) ds).

Lemma length_chain_secs fs cs : length (chain_secs fs cs) = (length cs * Z.to_nat (spc fs))%nat.
Proof. unfold chain_secs. induction cs as [|c cs IH]; [done|]. cbn [map concat length]. rewrite length_app, IH, length_map, length_seq. lia. Qed.

Lemma chain_secs_lookup fs cs i :
  0 < spc fs -> chain_secs fs cs !! i = cs !! (i / Z.to_nat (spc fs))%nat ≫= fun c => Some (csect fs c (Z.of_nat (i mod Z.to_nat (spc fs)))).
Proof.
  intros Hs. unfold chain_secs. rewrite (concat_lookup _ (Z.to_nat (spc fs))); [|intros l (c & -> & _)%list_elem_of_fmap; by rewrite length_map, length_seq|lia].
  rewrite list_lookup_fmap. destruct (cs !! _) as [c|]; [|done]. cbn. rewrite list_lookup_fmap, lookup_seq_lt; [done|]. apply Nat.mod_upper_bound. lia.
Qed.

(** The directory is on the volume, behind the FATs, and no longer than 32 bits count. *)
Lemma is_dir_in fs d dir ds r :
  geo fs -> is_dir fs d dir ds -> r ∈ ds -> in_volume fs r /\ first_fat fs + num_fats fs * fatsz fs <= r.
Proof.
  intros G [[-> ->]|(cs & Hc & ->)] Hr.
  - apply list_elem_of_fmap in Hr as (i & -> & Hi%elem_of_seq). destruct G. unfold in_volume.
    assert (0 <= num_fats fs * fatsz fs) by (apply Z.mul_nonneg_nonneg; lia). assert (0 <= (max_cluster fs - 1) * spc fs) by (apply Z.mul_nonneg_nonneg; lia). lia.
  - apply list_elem_of_In, in_concat in Hr as (l & Hl & Hr). apply list_elem_of_In, list_elem_of_fmap in Hl as (c & -> & Hc').
    apply list_elem_of_In, list_elem_of_fmap in Hr as (i & -> & Hi%elem_of_seq).
    assert (valid fs c) as Hv by exact (linked_in _ _ _ c (proj1 Hc) Hc').
    split; [apply (csect_in dev_rd dev_wr); auto; lia|apply (csect_past_fat dev_rd dev_wr); auto; lia].
Qed.

Lemma is_dir_short fs d dir ds : geo fs -> is_dir fs d dir ds -> Z.of_nat (length ds) * 512 + 32 * 32 <= 2 ^ 32.
Proof.
  intros G [[-> ->]|(cs & Hc & ->)].
  - unfold root_secs. rewrite length_map, length_seq. destruct G. lia.
  - rewrite length_chain_secs, Nat2Z.inj_mul. pose proof (chain_short _ _ _ Hc). destruct G. rewrite Z2Nat.id by lia.
    assert (Z.of_nat (length (dir :: cs)) * spc fs <= 65522 * 128) by (apply Z.mul_le_mono_nonneg; lia). lia.
Qed.

Lemma dir_total_ok fs dir ds : geo fs -> is_dir fs (dev fs) dir ds -> dir_total_bytes dev_rd dir fs = (Some (Z.of_nat (length ds) * 512), fs).
Proof.
  intros G Hd. pose proof (is_dir_short fs _ dir ds G Hd) as Hs. unfold dir_total_bytes, SECTOR. destruct Hd as [[-> ->]|(cs & Hc & ->)].
  - unfold root_secs in *. rewrite length_map, length_seq in *. change (0 =? 0) with true. unfold gets. do 2 f_equal.
    rewrite Z2Nat.id by (destruct G; lia). apply u32_id. unfold is_u32. destruct G; lia.
  - pose proof (linked_in _ _ _ dir (proj1 Hc) ltac:(left)). destruct (Z.eqb_spec dir 0); [lia|]. unfold attempt.
    rewrite (chain_len_ok dev_rd dev_wr fs dir cs G Hc). unfold gets. do 2 f_equal. rewrite length_chain_secs, Nat2Z.inj_mul in *.
    rewrite Z2Nat.id in * by (destruct G; lia). apply u32_id. unfold is_u32. split; [|lia].
    apply Z.mul_nonneg_nonneg; [apply Z.mul_nonneg_nonneg|]; destruct G; lia.
Qed.

Lemma dir_sector_ok fs dir ds s r :
  geo fs -> is_dir fs (dev fs) dir ds -> ds !! s = Some r -> dir_sector dev_rd dir (Z.of_nat s) fs = (Some r, fs).
Proof.
  intros G Hd Hr. destruct (is_dir_in fs _ dir ds r G Hd ltac:(by eapply list_elem_of_lookup_2)) as [Hin _].
  unfold dir_sector. destruct Hd as [[-> ->]|(cs & Hc & ->)].
  - unfold root_secs in Hr. rewrite list_lookup_fmap in Hr. apply fmap_Some in Hr as (i & Hi & ->). apply lookup_seq in Hi as [-> _].
    change (0 =? 0) with true. unfold gets. do 2 f_equal. by apply (volume_u32 dev_rd dev_wr fs).
  - pose proof (linked_in _ _ _ dir (proj1 Hc) ltac:(left)). destruct (Z.eqb_spec dir 0); [lia|].
    rewrite chain_secs_lookup in Hr by (destruct G; lia). destruct ((dir :: cs) !! _) as [c|] eqn:Ec; [|done]. injection Hr as <-.
    assert (valid fs c) as Hv by (apply (linked_in _ _ _ c (proj1 Hc)); by eapply list_elem_of_lookup_2).
    rewrite bind_gets. rewrite (bind_some _ _ fs c fs); [|apply (chain_at_ok dev_rd dev_wr fs dir cs); [done|apply Hc|apply Z.div_pos; destruct G; lia|]].
    + destruct (Z.eqb_spec c 0); [unfold valid in Hv; lia|]. rewrite bind_guard by done. unfold gets. do 2 f_equal.
      rewrite (cluster_to_sector_ok dev_rd dev_wr fs c G Hv). rewrite <- (volume_u32 dev_rd dev_wr fs (csect fs c (Z.of_nat (s mod Z.to_nat (spc fs))))) by done.
      f_equal. unfold csect. rewrite Nat2Z.inj_mod, Z2Nat.id by (destruct G; lia). lia.
    + rewrite <- Ec. f_equal. rewrite Z2Nat.inj_div, Nat2Z.id by (destruct G; lia). done.
Qed.

(** ** Reading *)

Lemma dslots_lookup fs d ds i :
  dslots fs d ds !! i = ds !! (i / 16)%nat ≫= fun r => Some (take 32 (drop (32 * (i mod 16)) (sector d (part_lba fs + r)))).
Proof.
  unfold dslots. rewrite (concat_lookup _ 16); [|intros l (r & -> & _)%list_elem_of_fmap; apply length_split32|lia].
  rewrite list_lookup_fmap. destruct (ds !! _) as [r|]; [|done]. apply (split32_lookup (sector d (part_lba fs + r))), Nat.mod_upper_bound. lia.
Qed.

Lemma length_dslots fs d ds : length (dslots fs d ds) = (16 * length ds)%nat.
Proof. unfold dslots. induction ds as [|r ds IH]; [done|]. cbn [map concat length]. rewrite length_app, IH, length_split32. lia. Qed.

Lemma slot_pos i : Z.of_nat (32 * i) / 512 = Z.of_nat (i / 16) /\ Z.of_nat (32 * i) mod 512 = Z.of_nat (32 * (i mod 16)).
Proof.
  pose proof (Nat.div_mod_eq i 16) as E. pose proof (Nat.mod_upper_bound i 16 ltac:(lia)). set (q := (i / 16)%nat) in *. set (r := (i mod 16)%nat) in *.
  split; [symmetry; apply Z.div_unique with (32 * Z.of_nat r); lia|symmetry; apply Z.mod_unique with (Z.of_nat q); lia].
Qed.

(** Loading the sector of slot [i]. *)
Lemma slot_load fs dir ds i e :
  geo fs -> is_dir fs (dev fs) dir ds -> dslots fs (dev fs) ds !! i = Some e ->
  exists r, ds !! (i / 16)%nat = Some r /\ in_volume fs r /\ e = take 32 (drop (32 * (i mod 16)) (sector (dev fs) (part_lba fs + r))) /\
    dir_sector dev_rd dir (Z.of_nat (32 * i) / SECTOR) fs = (Some r, fs) /\
    dir_read_sector dev_rd dir (Z.of_nat (32 * i) / SECTOR) fs = (Some tt, set_sec (sector (dev fs) (part_lba fs + r)) fs).
Proof.
  intros G Hd He. rewrite dslots_lookup in He. destruct (ds !! _) as [r|] eqn:Er; [|done]. injection He as <-.
  destruct (is_dir_in fs _ dir ds r G Hd ltac:(by eapply list_elem_of_lookup_2)) as [Hin _]. exists r.
  assert (dir_sector dev_rd dir (Z.of_nat (32 * i) / SECTOR) fs = (Some r, fs)) as E.
  { unfold SECTOR. rewrite (proj1 (slot_pos i)). by apply (dir_sector_ok fs dir ds). }
  split; [done|]. split; [done|]. split; [done|]. split; [done|].
  unfold dir_read_sector. rewrite (bind_some _ _ fs _ _ E). by apply (load_ok dev_rd dev_wr).
Qed.

Lemma scan_loop_ok fuel fs dir ds i st :
  geo fs -> is_dir fs (dev fs) dir ds -> (i <= 16 * length ds)%nat -> (16 * length ds - i < fuel)%nat ->
  exists b, (buf_ok (sec fs) -> buf_ok b) /\ scan_loop dev_rd fuel dir (Z.of_nat (32 * i)) (Z.of_nat (length ds) * 512) st fs =
    (Some (scan_slots (drop i (dslots fs (dev fs) ds)) (Z.of_nat (32 * i)) st), set_sec b fs).
Proof.
  intros G Hd. pose proof (is_dir_short fs _ dir ds G Hd) as Hsh.
  revert fs i st G Hd; induction fuel as [|fuel IH]; intros fs i st G Hd Hi Hf; [lia|]. cbn [scan_loop].
  destruct (dslots fs (dev fs) ds !! i) as [e|] eqn:He.
  - pose proof (lookup_lt_Some _ _ _ He) as Hlt. rewrite length_dslots in Hlt.
    destruct (slot_load fs dir ds i e G Hd He) as (r & Hr & Hin & Ee & _ & El). rewrite (drop_S _ _ _ He). cbn [scan_slots].
    rewrite u32_id by (unfold is_u32; lia). rewrite (proj2 (Z.leb_le _ _)) by lia. unfold attempt. rewrite El. unfold slot. rewrite bind_gets.
    cbn [sec set_sec]. unfold SECTOR. rewrite (proj2 (slot_pos i)), Nat2Z.id, <- Ee. set (b1 := sector (dev fs) (part_lba fs + r)).
    assert (buf_ok b1) as Hb1 by apply sector_ok.
    replace (Z.of_nat (32 * i) + 32) with (Z.of_nat (32 * S i)) by lia.
    destruct (at_ e 0 =? 0); [exists b1; done|].
    assert (geo (set_sec b1 fs)) as G1 by (destruct G; by constructor).
    destruct (at_ e 0 =? 229); [|destruct (_ =? 15); [|exists b1; done]].
    + destruct (IH (set_sec b1 fs) (S i) (lfn_reset st) G1 Hd ltac:(lia) ltac:(lia)) as (b & Hb & E). exists b. split; [auto|]. exact E.
    + destruct (IH (set_sec b1 fs) (S i) (lfn_add st (Z.of_nat (32 * i)) e) G1 Hd ltac:(lia) ltac:(lia)) as (b & Hb & E). exists b. split; [auto|]. exact E.
  - apply lookup_ge_None in He as Hge. rewrite length_dslots in Hge. exists (sec fs). split; [done|]. rewrite drop_ge by (rewrite length_dslots; lia). cbn [scan_slots].
    rewrite u32_id by (unfold is_u32; lia). destruct (Z.leb_spec (Z.of_nat (32 * i) + 32) (Z.of_nat (length ds) * 512)); [lia|]. by destruct fs.
Qed.

Lemma turns_enough (ds : list Z) : (16 * length ds < turns (Z.of_nat (length ds) * 512))%nat.
Proof. unfold turns. replace (Z.of_nat (length ds) * 512 / 32) with (16 * Z.of_nat (length ds)); [lia|]. apply Z.div_unique_exact; lia. Qed.

Lemma search_ok pr fuel fs dir ds i :
  geo fs -> is_dir fs (dev fs) dir ds -> (i <= 16 * length ds)%nat -> (16 * length ds - i < fuel)%nat ->
  exists b, (buf_ok (sec fs) -> buf_ok b) /\ search dev_rd pr fuel dir (Z.of_nat (32 * i)) (Z.of_nat (length ds) * 512) fs =
    (Some (first_match pr (listing (drop i (dslots fs (dev fs) ds)) (Z.of_nat (32 * i)) lfn0)), set_sec b fs).
Proof.
  revert fs i; induction fuel as [|fuel IH]; intros fs i G Hd Hi Hf; [lia|]. cbn [search].
  destruct (scan_loop_ok (turns (Z.of_nat (length ds) * 512)) fs dir ds i lfn0 G Hd Hi) as (b1 & Hb1 & E1); [pose proof (turns_enough ds); lia|].
  unfold scan_next. rewrite (bind_some _ _ fs _ _ E1). pose proof (listing_scan (drop i (dslots fs (dev fs) ds)) (Z.of_nat (32 * i)) lfn0) as L.
  destruct (scan_slots _ _ _) as [[ev|] q]; [|rewrite L; exists b1; done]. destruct L as (n & Hn & -> & ->). cbn [first_match find]. unfold first_match. cbn [find].
  rewrite length_drop, length_dslots in Hn. rewrite drop_drop. replace (Z.of_nat (32 * i) + 32 * Z.of_nat n) with (Z.of_nat (32 * (i + n))) by lia.
  destruct (IH (set_sec b1 fs) (i + n)%nat) as (b & Hb & E); [destruct G; by constructor|done|lia|lia|].
  destruct (bit_set (attr ev) ATTR_VOLUME); [exists b; split; [auto|exact E]|]. cbn [negb andb]. destruct (pr ev); [exists b1; done|exists b; split; [auto|exact E]].
Qed.

(** What the directory lists. *)
Definition entries (fs : Vol) (d : D) (ds : list Z) : list Entry := listing (dslots fs d ds) 0 lfn0.
Definition lookup_name (nm : list Z) (l : list Entry) : option Entry := first_match (fun ev => ci_equal (name ev) nm) l.

Lemma find_entry_ok fs dir ds nm :
  geo fs -> is_dir fs (dev fs) dir ds -> ds <> [] ->
  exists b, (buf_ok (sec fs) -> buf_ok b) /\ find_entry dev_rd dir nm fs = (lookup_name nm (entries fs (dev fs) ds), set_sec b fs).
Proof.
  intros G Hd Hne. assert (0 < length ds)%nat as Hl by (destruct ds; [done|cbn; lia]).
  destruct (search_ok (fun ev => ci_equal (name ev) nm) (turns (Z.of_nat (length ds) * 512)) fs dir ds 0 G Hd ltac:(lia)) as (b & Hb & E); [pose proof (turns_enough ds); lia|].
  exists b. split; [done|]. unfold find_entry. rewrite (bind_some _ _ fs _ _ (dir_total_ok fs dir ds G Hd)).
  rewrite bind_guard by (destruct (Z.eqb_spec (Z.of_nat (length ds) * 512) 0); [lia|done]). change (Z.of_nat (32 * 0)) with 0 in E.
  rewrite (bind_some _ _ fs _ _ E). rewrite drop_0. unfold lookup_name, entries. by destruct (first_match _ _).
Qed.

Lemma dir_has_sfn_ok fs dir ds s :
  geo fs -> is_dir fs (dev fs) dir ds ->
  exists b, (buf_ok (sec fs) -> buf_ok b) /\ dir_has_sfn dev_rd dir s fs =
    (Some (match first_match (fun ev => sfn_equal (sfn ev) s) (entries fs (dev fs) ds) with Some _ => true | None => false end), set_sec b fs).
Proof.
  intros G Hd. destruct (search_ok (fun ev => sfn_equal (sfn ev) s) (turns (Z.of_nat (length ds) * 512)) fs dir ds 0 G Hd ltac:(lia)) as (b & Hb & E); [pose proof (turns_enough ds); lia|].
  exists b. split; [done|]. unfold dir_has_sfn. rewrite (bind_some _ _ fs _ _ (dir_total_ok fs dir ds G Hd)). change (Z.of_nat (32 * 0)) with 0 in E.
  by rewrite (bind_some _ _ fs _ _ E), drop_0.
Qed.

(** ** Changing an entry *)

(** Only the sectors [ds] may differ. *)
Definition outside (fs : Vol) (d d' : D) (ds : list Z) : Prop :=
  forall l, (forall r, r ∈ ds -> l <> part_lba fs + r) -> sector d' l = sector d l.

Lemma outside_trans fs d1 d2 d3 ds : outside fs d1 d2 ds -> outside fs d2 d3 ds -> outside fs d1 d3 ds.
Proof. intros H1 H2 l Hl. by rewrite H2, H1. Qed.

Lemma is_dir_nodup fs d dir ds : geo fs -> is_dir fs d dir ds -> NoDup ds.
Proof.
  intros G [[-> ->]|(cs & [_ Hn] & ->)].
  - unfold root_secs. apply NoDup_fmap_2; [intros x y E; lia|apply NoDup_seq].
  - apply NoDup_alt. intros i j r Hi Hj. assert (0 < spc fs) as Hs by (destruct G; lia). rewrite chain_secs_lookup in Hi, Hj by done.
    destruct ((dir :: cs) !! (i / _)%nat) as [c|] eqn:Ei; [|done]. destruct ((dir :: cs) !! (j / _)%nat) as [c'|] eqn:Ej; [|done].
    injection Hi as <-. injection Hj as E. set (n := Z.to_nat (spc fs)) in *. assert (0 < n)%nat as Hn0 by lia.
    pose proof (Nat.mod_upper_bound i n ltac:(lia)). pose proof (Nat.mod_upper_bound j n ltac:(lia)).
    destruct (csect_unique dev_rd dev_wr fs c' (Z.of_nat (j mod n)) c (Z.of_nat (i mod n)) G) as [-> Em]; [lia|lia|done|].
    pose proof (NoDup_lookup _ _ _ _ Hn Ei Ej) as Eq. rewrite (Nat.div_mod_eq i n), (Nat.div_mod_eq j n), Eq. lia.
Qed.

(** A store to the sector of slot [i] that changes this slot only. *)
Lemma dslots_stored fs d d' ds i r e :
  NoDup ds -> ds !! (i / 16)%nat = Some r -> length e = 32%nat ->
  stored fs d d' r (put (sector d (part_lba fs + r)) (32 * (i mod 16)) e) ->
  dslots fs d' ds = <[i := e]> (dslots fs d ds) /\ outside fs d d' ds.
Proof.
  intros Hn Hr Le St. pose proof (Nat.mod_upper_bound i 16 ltac:(lia)) as Hm. split.
  - rewrite (Nat.div_mod_eq i 16) at 1. rewrite (Nat.mul_comm 16). unfold dslots.
    rewrite concat_insert; [|intros l (x & -> & _)%list_elem_of_fmap; apply length_split32|done|rewrite length_map; by eapply lookup_lt_Some].
    f_equal. apply list_eq. intros k. rewrite list_lookup_fmap. destruct (decide (k = i / 16)%nat) as [->|Hne].
    + rewrite list_lookup_insert_eq by (rewrite length_map; by eapply lookup_lt_Some). rewrite Hr. cbn [fmap option_fmap option_map]. f_equal.
      rewrite St, Z.eqb_refl, split32_put; [|done|apply sector_ok|done]. f_equal. symmetry. apply nth_lookup_Some with (d := []). by rewrite list_lookup_fmap, Hr.
    + rewrite list_lookup_insert_ne by done. rewrite list_lookup_fmap. destruct (ds !! k) as [x|] eqn:Ek; [|done]. cbn [fmap option_fmap option_map]. do 2 f_equal.
      rewrite St. destruct (Z.eqb_spec (part_lba fs + x) (part_lba fs + r)); [|done]. assert (x = r) as -> by lia. by pose proof (NoDup_lookup _ _ _ _ Hn Ek Hr).
  - intros l Hl. rewrite St. destruct (Z.eqb_spec l (part_lba fs + r)) as [->|]; [|done]. exfalso. apply (Hl r); [by eapply list_elem_of_lookup_2|done].
Qed.

Lemma patch_ok f g fs dir ds i e :
  geo fs -> is_dir fs (dev fs) dir ds -> dslots fs (dev fs) ds !! i = Some e ->
  (forall k b, (k < 16)%nat -> length b = 512%nat -> f (32 * k)%nat b = put b (32 * k) (g (take 32 (drop (32 * k) b)))) ->
  length (g e) = 32%nat -> bytes (g e) ->
  exists d b, patch dev_rd dev_wr dir (Z.of_nat (32 * i)) f fs = (Some tt, at_dev d b fs) /\ buf_ok b /\
    dslots fs d ds = <[i := g e]> (dslots fs (dev fs) ds) /\ outside fs (dev fs) d ds.
Proof.
  intros G Hd He Hf Lg Bg. pose proof (is_dir_nodup fs _ dir ds G Hd) as Hn. pose proof (Nat.mod_upper_bound i 16 ltac:(lia)) as Hm.
  destruct (slot_load fs dir ds i e G Hd He) as (r & Hr & Hin & Ee & Es & El). set (b0 := sector (dev fs) (part_lba fs + r)) in *.
  destruct (sector_ok (dev fs) (part_lba fs + r)) as [L0 B0]. set (b1 := put b0 (32 * (i mod 16)) (g e)).
  assert (buf_ok b1) as Hb1 by (split; [unfold b1; by rewrite length_put|by apply bytes_put]).
  assert (geo (set_sec b1 fs)) as G1 by (destruct G; by constructor).
  destruct (store_ok dev_rd dev_wr (set_sec b1 fs) r G1 Hin Hb1) as (d & E & St). exists d, b1.
  split; [|split; [done|by apply (dslots_stored fs (dev fs) d ds i r (g e))]].
  unfold patch. rewrite (bind_some _ _ fs _ _ El). unfold upd_sec. rewrite (bind_some _ _ (set_sec b0 fs) tt (set_sec b1 fs)).
  - unfold dir_write_sector. rewrite (bind_some _ _ (set_sec b1 fs) r (set_sec b1 fs)); [exact E|].
    unfold SECTOR. rewrite (proj1 (slot_pos i)). by apply (dir_sector_ok (set_sec b1 fs) dir ds).
  - unfold SECTOR. rewrite (proj2 (slot_pos i)), Nat2Z.id. cbn [sec set_sec]. f_equal. rewrite Hf by done. by rewrite <- Ee.
Qed.

(** ** Frames *)

(** The clusters [cs] hold no sector of [ds]. *)
Definition apart (fs : Vol) (cs ds : list Z) : Prop := forall c i, c ∈ cs -> 0 <= i < spc fs -> csect fs c i ∉ ds.

Lemma apart_root fs cs : geo fs -> (forall c, c ∈ cs -> valid fs c) -> apart fs cs (root_secs fs).
Proof.
  intros G Hv c i Hc Hi (j & E & Hj%elem_of_seq)%list_elem_of_fmap. specialize (Hv c Hc). unfold csect, valid in *.
  assert (0 <= (c - 2) * spc fs) by (apply Z.mul_nonneg_nonneg; destruct G; lia). destruct G; lia.
Qed.

Lemma apart_chain fs cs cs' : geo fs -> (forall c, c ∈ cs -> c ∉ cs') -> apart fs cs (chain_secs fs cs').
Proof.
  intros G Hd c i Hc Hi Hin. apply list_elem_of_In, in_concat in Hin as (l & Hl & Hin). apply list_elem_of_In, list_elem_of_fmap in Hl as (c' & -> & Hc').
  apply list_elem_of_In, list_elem_of_fmap in Hin as (j & E & Hj%elem_of_seq).
  destruct (csect_unique dev_rd dev_wr fs c i c' (Z.of_nat j) G Hi ltac:(lia) E) as [-> _]. by apply (Hd c').
Qed.

(** A change of directory sectors leaves the FATs alone, and the clusters apart from them. *)
Lemma outside_fat fs d d' dir ds i c :
  geo fs -> is_dir fs d dir ds -> outside fs d d' ds -> 0 <= i < num_fats fs -> has_entry fs c -> fat fs d' i c = fat fs d i c.
Proof.
  intros G Hd Ho Hi Hc. unfold FatChain.fat. f_equal. apply Ho. intros r Hr. destruct (is_dir_in fs d dir ds r G Hd Hr) as [_ Hp].
  destruct (fat_sector_in dev_rd dev_wr fs i c G Hc Hi) as [? _]. lia.
Qed.

Lemma outside_content fs d d' ds cs : apart fs cs ds -> outside fs d d' ds -> content dev_rd dev_wr fs d' cs = content dev_rd dev_wr fs d cs.
Proof.
  intros Ha Ho. unfold content. f_equal. apply map_ext_in. intros c Hc%list_elem_of_In. apply cdata_ext. intros i Hi. apply Ho.
  intros r Hr E. apply (Ha c i Hc Hi). replace (csect fs c i) with r by lia. done.
Qed.

Lemma outside_chain fs d d' dir ds cs :
  geo fs -> is_dir fs d dir ds -> outside fs d d' ds -> chain (fat fs d 0) (max_cluster fs) cs -> chain (fat fs d' 0) (max_cluster fs) cs.
Proof.
  intros G Hd Ho [Hl Hn]. split; [|done]. apply (linked_ext (fat fs d 0)); [done|]. intros x Hx. pose proof (linked_in _ _ _ x Hl Hx).
  apply (outside_fat fs d d' dir ds); auto; [destruct G; lia|unfold has_entry; lia].
Qed.

Lemma outside_is_dir fs d d' dir ds : geo fs -> is_dir fs d dir ds -> outside fs d d' ds -> is_dir fs d' dir ds.
Proof.
  intros G Hd Ho. pose proof (fun cs => outside_chain fs d d' dir ds cs G Hd Ho) as Hc. destruct Hd as [?|(cs & H1 & H2)]; [by left|]. right. exists cs. auto.
Qed.

(** The data of a cluster tells its sectors. *)
Lemma cdata_sector fs d d' c i :
  geo fs -> 0 <= i < spc fs -> cdata dev_rd dev_wr fs d' c = cdata dev_rd dev_wr fs d c -> sector d' (part_lba fs + csect fs c i) = sector d (part_lba fs + csect fs c i).
Proof.
  intros G Hi E. pose proof (cdata_piece dev_rd dev_wr fs d c i 0 512 G Hi ltac:(lia)) as P. pose proof (cdata_piece dev_rd dev_wr fs d' c i 0 512 G Hi ltac:(lia)) as P'.
  rewrite E, <- P in P'. rewrite !drop_0, !take_ge in P' by (rewrite (proj1 (sector_ok _ _)); lia). done.
Qed.

(** A change of clusters apart from it leaves a directory alone. *)
Lemma kept_dir fs d d' F S dir ds :
  geo fs -> is_dir fs d dir ds -> kept dev_rd dev_wr fs d d' F S -> apart fs F ds -> apart fs S ds ->
  is_dir fs d' dir ds /\ dslots fs d' ds = dslots fs d ds.
Proof.
  intros G Hd K HF HS. assert (0 < spc fs) as Hspc by (destruct G; lia).
  assert (forall c cs, c ∈ cs -> 0 <= 0 < spc fs -> csect fs c 0 ∈ chain_secs fs cs) as Hmem.
  { intros c cs (j & Hj)%list_elem_of_lookup _. apply list_elem_of_lookup. exists (j * Z.to_nat (spc fs))%nat. rewrite chain_secs_lookup by done.
    rewrite Nat.div_mul, Hj by lia. cbn [mbind option_bind]. by rewrite Nat.Div0.mod_mul. }
  split.
  - destruct Hd as [?|(cs & [Hl Hn] & ->)]; [by left|]. right. exists cs. split; [|done]. split; [|done]. apply (linked_ext (fat fs d 0)); [done|].
    intros x Hx. pose proof (linked_in _ _ _ x Hl Hx). apply (kept_fat _ _ _ _ _ _ _ K); [destruct G; lia|unfold has_entry; lia|].
    intros Hf. apply (HF x 0 Hf ltac:(lia)). by apply Hmem; [|lia].
  - unfold dslots. f_equal. apply map_ext_in. intros r Hr%list_elem_of_In. f_equal. destruct (is_dir_in fs d dir ds r G Hd Hr) as [_ Hp].
    destruct Hd as [[-> ->]|(cs & [Hl Hn] & ->)].
    + apply (kept_rest _ _ _ _ _ _ _ K). right. apply list_elem_of_fmap in Hr as (j & -> & Hj%elem_of_seq). destruct G; lia.
    + apply list_elem_of_lookup in Hr as (j & Hj). rewrite chain_secs_lookup in Hj by done. destruct ((dir :: cs) !! _) as [c|] eqn:Ec; [|done]. injection Hj as <-.
      assert (c ∈ dir :: cs) as Hc by (by eapply list_elem_of_lookup_2). pose proof (Nat.mod_upper_bound j (Z.to_nat (spc fs)) ltac:(lia)).
      apply cdata_sector; [done|lia|]. apply (kept_data _ _ _ _ _ _ _ K); [exact (linked_in _ _ _ c Hl Hc)|].
      intros Hs. apply (HS c 0 Hs ltac:(lia)). by apply Hmem; [|lia].
Qed.
End Dirs.
