(* ===== verification/FatWrite.v ===== *)
(** Reading and writing the files of a FAT16 directory. *)
From S2P Require Import Prelude Fat16 FatDir FatChain FatFile FatName FatDirSpec.
Local Open Scope vnu_scope.

(** ** Entries with another size and first cluster *)

Definition set_entry (ev : Entry) (clu sz : Z) : Entry := mkEntry (pos ev) clu sz (attr ev) (sfn ev) (name ev) (lfn_pos ev).
Definition at_pos (q clu sz : Z) (ev : Entry) : Entry := if pos ev =? q then set_entry ev clu sz else ev.

(** What [update_entry] makes of a slot. *)
Definition resized (clu sz : Z) (e : list Z) : list Z :=
  let e := <[21%nat := 0]> (<[20%nat := 0]> e) in
  let e := <[27%nat := u8 (Z.land (Z.shiftr clu 8) 0xFF)]> (<[26%nat := u8 (Z.land clu 0xFF)]> e) in
  wr32 e 28 sz.

(** The elements of a list of known length. *)
Ltac explode e L :=
  destruct e as [|? e]; [first [discriminate L|clear L]|first [discriminate L|explode e L]].

Lemma resized_fields clu sz e : length e = 32%nat -> 0 <= clu < 2 ^ 16 -> is_u32 sz ->
  at_ (resized clu sz e) 0 = at_ e 0 /\ at_ (resized clu sz e) 11 = at_ e 11 /\
  (forall st p, entry_of st p (resized clu sz e) = set_entry (entry_of st p e) clu sz) /\ length (resized clu sz e) = 32%nat.
Proof.
  intros L Hc Hz. split; [|split; [|split]].
  - by explode e L.
  - by explode e L.
  - intros st p. assert (take 11 (resized clu sz e) = take 11 e /\ at_ (resized clu sz e) 11 = at_ e 11 /\ build_sfn_name (resized clu sz e) = build_sfn_name e /\
      rd16 (drop 26 (resized clu sz e)) = clu /\ rd32 (drop 28 (resized clu sz e)) = sz) as (E1 & E2 & E3 & E4 & E5).
    { explode e L.
      split; [done|]. split; [done|]. split; [done|]. split; [by apply le16_roundtrip|by apply le32_roundtrip]. }
    unfold entry_of, set_entry. cbn [pos attr sfn name lfn_pos]. rewrite E2, E3, E4, E5, E1, <- (checksum_take (resized clu sz e)), E1, checksum_take. done.
  - unfold resized, wr32. by rewrite length_put, !length_insert.
Qed.

(** Changes in the middle of a buffer. *)
Lemma put_mid pre e post i bs : (i + length bs <= length e)%nat -> put (pre ++ e ++ post) (length pre + i) bs = pre ++ put e i bs ++ post.
Proof. intros Hl. rewrite put_app_r by (rewrite ?length_app; lia). rewrite put_app_l by lia. f_equal. f_equal. f_equal. lia. Qed.

Lemma insert_mid pre (e : list Z) post i x : (i < length e)%nat -> <[(length pre + i)%nat := x]> (pre ++ e ++ post) = pre ++ <[i := x]> e ++ post.
Proof. intros Hl. exact (put_mid pre e post i [x] ltac:(cbn; lia)). Qed.

(** A sector around its slot [k]. *)
Lemma sector_split (b : list Z) k : (k < 16)%nat -> length b = 512%nat -> exists pre e post, b = pre ++ e ++ post /\ length pre = (32 * k)%nat /\ length e = 32%nat /\ e = take 32 (drop (32 * k) b).
Proof.
  intros Hk L. exists (take (32 * k) b), (take 32 (drop (32 * k) b)), (drop 32 (drop (32 * k) b)). rewrite !take_drop, length_take, length_take, length_drop.
  split; [done|]. split; [lia|]. split; [lia|done].
Qed.

Lemma put_slot pre (e : list Z) post e' : length e' = length e -> put (pre ++ e ++ post) (length pre) e' = pre ++ e' ++ post.
Proof. intros Hl. rewrite <- (Nat.add_0_r (length pre)), put_mid, put_all by lia. done. Qed.

(** An entry is listed for a slot that is neither free, nor deleted, nor part of a long name. *)
Definition is_short (e : list Z) : Prop := at_ e 0 <> 0x00 /\ at_ e 0 <> 0xE5 /\ Z.land (at_ e 11) 0x3F <> 0x0F.

(** ** The used part of a directory *)

(** The slots before the end mark, and the state of a scan there. *)
Fixpoint used (es : list (list Z)) : list (list Z) :=
  match es with
  | [] => []
  | e :: es' => if at_ e 0 =? 0x00 then [] else e :: used es'
  end.
Fixpoint scan_state (es : list (list Z)) (p : Z) (st : Lfn) : Lfn :=
  match es with
  | [] => st
  | e :: es' =>
      if at_ e 0 =? 0xE5 then scan_state es' (p + 32) lfn0
      else if Z.land (at_ e 11) 0x3F =? 0x0F then scan_state es' (p + 32) (lfn_add st p e)
      else scan_state es' (p + 32) lfn0
  end.

(** No long name is left without its entry at the end. *)
Definition closed_dir (es : list (list Z)) : Prop := lfn_seen (scan_state (used es) 0 lfn0) = [].

Definition live (e : list Z) : Prop := at_ e 0 <> 0x00.

(** As long, and as closed. *)
Definition steady (es es' : list (list Z)) : Prop := length (used es') = length (used es) /\ (closed_dir es -> closed_dir es').

Lemma used_update es i e e' :
  es !! i = Some e -> is_short e -> at_ e' 0 = at_ e 0 -> at_ e' 11 = at_ e 11 ->
  length (used (<[i := e']> es)) = length (used es) /\ forall p st, scan_state (used (<[i := e']> es)) p st = scan_state (used es) p st.
Proof.
  intros He (H0 & H5 & Hf) E0 E11. revert i He; induction es as [|x es IH]; intros [|i] He; [done|done| |].
  - injection He as ->. change (<[0%nat := e']> (e :: es)) with (e' :: es). cbn [used]. rewrite E0. destruct (Z.eqb_spec (at_ e 0) 0); [done|]. split; [done|].
    intros p st. cbn [scan_state]. rewrite E0, E11. destruct (Z.eqb_spec (at_ e 0) 229); [done|]. destruct (Z.eqb_spec (Z.land (at_ e 11) 63) 15); done.
  - change (<[S i := e']> (x :: es)) with (x :: <[i := e']> es). cbn [used]. destruct (at_ x 0 =? 0); [done|]. destruct (IH i He) as [IH1 IH2]. cbn [length scan_state]. split; [by f_equal|].
    intros p st. by rewrite !IH2.
Qed.

Lemma steady_update es i e e' : es !! i = Some e -> is_short e -> at_ e' 0 = at_ e 0 -> at_ e' 11 = at_ e 11 -> steady es (<[i := e']> es).
Proof. intros He Hs E0 E11. destruct (used_update es i e e' He Hs E0 E11) as [H1 H2]. split; [done|]. unfold closed_dir. by rewrite H2. Qed.

Lemma listing_slot es p st ev :
  ev ∈ listing es p st -> exists i e, es !! i = Some e /\ pos ev = p + 32 * Z.of_nat i /\ is_short e /\
    attr ev = Z.land (at_ e 11) 0x3F.
Proof.
  revert p st; induction es as [|e es IH]; intros p st; cbn [listing]; [by intros ?%not_elem_of_nil|].
  assert (forall st, ev ∈ listing es (p + 32) st -> exists i e', (e :: es) !! i = Some e' /\ pos ev = p + 32 * Z.of_nat i /\ is_short e' /\ attr ev = Z.land (at_ e' 11) 0x3F) as H.
  { intros st' Hin. destruct (IH _ _ Hin) as (i & e' & He & Hp & Hs). exists (S i), e'. split; [done|]. split; [lia|done]. }
  destruct (Z.eqb_spec (at_ e 0) 0); [by intros ?%not_elem_of_nil|]. destruct (Z.eqb_spec (at_ e 0) 229); [by apply H|].
  destruct (Z.eqb_spec (Z.land (at_ e 11) 63) 15); [by apply H|]. intros [->|Hin]%elem_of_cons; [|by apply (H lfn0)].
  exists 0%nat, e. split; [done|]. split; [cbn; lia|]. done.
Qed.

(** The listing after the entry in slot [i] has been resized. *)
Lemma listing_resized es i e clu sz p st :
  (forall x, x ∈ es -> length x = 32%nat) -> 0 <= clu < 2 ^ 16 -> is_u32 sz -> es !! i = Some e -> is_short e ->
  listing (<[i := resized clu sz e]> es) p st = map (at_pos (p + 32 * Z.of_nat i) clu sz) (listing es p st).
Proof.
  intros Hes Hc Hz. revert i p st; induction es as [|x es IH]; intros i p st He Hs; [done|].
  assert (forall q ev st, ev ∈ listing es (p + 32) st -> q < p + 32 -> at_pos q clu sz ev = ev) as Hlow.
  { intros q ev st' Hin Hq. destruct (listing_slot _ _ _ _ Hin) as (j & _ & _ & Hp & _). unfold at_pos. destruct (Z.eqb_spec (pos ev) q); [lia|done]. }
  destruct i as [|i].
  - injection He as ->. destruct Hs as (H0 & H5 & Hf). destruct (resized_fields clu sz e (Hes e ltac:(left)) Hc Hz) as (E0 & E11 & Ee & _).
    change (<[0%nat := resized clu sz e]> (e :: es)) with (resized clu sz e :: es). cbn [listing]. rewrite E0, E11, Ee.
    destruct (Z.eqb_spec (at_ e 0) 0); [done|]. destruct (Z.eqb_spec (at_ e 0) 229); [done|]. destruct (Z.eqb_spec (Z.land (at_ e 11) 63) 15); [done|].
    cbn [map]. f_equal.
    + unfold at_pos. destruct (Z.eqb_spec (pos (entry_of st p e)) (p + 32 * Z.of_nat 0)) as [|Hne]; [done|]. exfalso. apply Hne. cbn. lia.
    + symmetry. rewrite <- (map_id (listing es (p + 32) lfn0)) at 2. apply map_ext_in. intros ev Hin%list_elem_of_In. apply (Hlow _ _ _ Hin). lia.
  - change (<[S i := resized clu sz e]> (x :: es)) with (x :: <[i := resized clu sz e]> es). cbn [listing].
    assert (forall st, listing (<[i := resized clu sz e]> es) (p + 32) st = map (at_pos (p + 32 * Z.of_nat (S i)) clu sz) (listing es (p + 32) st)) as H.
    { intros st'. rewrite IH by (auto; intros y Hy; apply Hes; by right). do 2 f_equal. lia. }
    destruct (at_ x 0 =? 0); [done|]. destruct (at_ x 0 =? 229); [apply H|]. destruct (_ =? 15); [apply H|]. cbn [map]. rewrite H. f_equal.
    unfold at_pos. cbn [pos entry_of]. destruct (Z.eqb_spec p (p + 32 * Z.of_nat (S i))); [lia|done].
Qed.

Lemma first_match_map pr u l :
  (forall ev, attr (u ev) = attr ev /\ pr (u ev) = pr ev) -> first_match pr (map u l) = option_map u (first_match pr l).
Proof.
  intros Hu. unfold first_match. induction l as [|ev l IH]; [done|]. cbn [map find]. destruct (Hu ev) as [-> ->]. by destruct (_ && _).
Qed.

Lemma lookup_resized nm q clu sz l : lookup_name nm (map (at_pos q clu sz) l) = option_map (at_pos q clu sz) (lookup_name nm l).
Proof. apply first_match_map. intros ev. unfold at_pos. by destruct (pos ev =? q). Qed.

Section WriteFile.
Context {D : Type} (dev_rd : D -> Z -> option (list Z)) (dev_wr : D -> Z -> list Z -> option D) `{!Disk dev_rd dev_wr}.
Abbreviation Vol := (@Fs D).
Abbreviation geo := (geo dev_rd dev_wr).
Abbreviation fat := (fat dev_rd dev_wr).
Abbreviation content := (content dev_rd dev_wr).
Abbreviation kept := (kept dev_rd dev_wr).
Abbreviation is_dir := (is_dir dev_rd dev_wr).
Abbreviation entries := (entries dev_rd dev_wr).

(** ** Files *)

(** The file of entry [ev]: its clusters [cs] and its bytes. *)
Record file (fs : Vol) (d : D) (ds : list Z) (ev : Entry) (cs : list Z) (data : list Z) : Prop := {
  f_chain : fchain (fat fs d 0) (max_cluster fs) (cluster ev) cs;
  f_size : size ev = Z.of_nat (length data);
  f_data : data = take (length data) (content fs d cs);
  f_plain : bit_set (attr ev) ATTR_DIR = false;
  f_apart : apart fs cs ds
}.

(** The free clusters. *)
Definition room (fs : Vol) (d : D) : Z := Z.of_nat (length (frees (fat fs d 0) (max_cluster fs))).

Lemma fchain_chain f m first cs : fchain f m first cs -> cs <> [] -> exists c r, cs = c :: r /\ first = c /\ chain f m (c :: r).
Proof. destruct cs as [|c r]; [done|]. intros [-> Hc] _. by exists c, r. Qed.

Lemma fchain_in f m first cs x : fchain f m first cs -> x ∈ cs -> 2 <= x <= m /\ f x <> 0.
Proof. destruct cs as [|c r]; [by intros _ ?%not_elem_of_nil|]. intros [_ [Hl _]] Hx. split; [by apply (linked_in f m (c :: r))|by apply (in_use f m (c :: r))]. Qed.

Lemma fchain_nodup f m first cs : fchain f m first cs -> NoDup cs.
Proof. destruct cs; [constructor|]. by intros [_ [_ ?]]. Qed.

(** A file and the free clusters fit the volume. *)
Lemma room_bound fs d first cs :
  geo fs -> fchain (fat fs d 0) (max_cluster fs) first cs -> Z.of_nat (length cs) + room fs d <= max_cluster fs - 1.
Proof.
  intros G Hc. unfold room. set (fr := frees _ _). assert (cs ++ fr ⊆+ map Z.of_nat (seq 2 (Z.to_nat (max_cluster fs - 1)))) as Hs.
  { apply NoDup_submseteq.
    - apply NoDup_app. split; [by eapply fchain_nodup|]. split; [|apply NoDup_frees]. intros x Hx Hf. apply elem_of_frees in Hf as [Hf _]. by destruct (fchain_in _ _ _ _ _ Hc Hx).
    - intros x Hx. assert (2 <= x <= max_cluster fs) as Hx2 by (apply elem_of_app in Hx as [Hx|Hx]; [by apply (fchain_in _ _ _ _ _ Hc Hx)|by apply elem_of_frees in Hx as [_ ?]]).
      apply list_elem_of_fmap. exists (Z.to_nat x). split; [lia|]. apply elem_of_seq. lia. }
  apply submseteq_length in Hs. rewrite length_app, length_map, length_seq in Hs. destruct G. lia.
Qed.

(** ** Reading *)

Lemma read_ok fs dir ds nm ev cs data off len :
  geo fs -> buf_ok (sec fs) -> is_dir fs (dev fs) dir ds -> ds <> [] ->
  lookup_name nm (entries fs (dev fs) ds) = Some ev -> file fs (dev fs) ds ev cs data -> 0 <= off -> 0 <= len ->
  exists b, read dev_rd dir nm off len fs = (Some (take (Z.to_nat len) (drop (Z.to_nat off) data)), set_sec b fs) /\ buf_ok b.
Proof.
  intros G Hb Hd Hne Hlk [Fc Fs Fd Fp _] Ho Hl. destruct (find_entry_ok dev_rd dev_wr fs dir ds nm G Hd Hne) as (b0 & Hb0 & E0). rewrite Hlk in E0. specialize (Hb0 Hb).
  unfold read. rewrite (bind_some _ _ fs _ _ E0). rewrite bind_guard by (by rewrite Fp). rewrite Fs. destruct (Z.leb_spec (Z.of_nat (length data)) off).
  { exists b0. split; [|done]. rewrite drop_ge by lia. by rewrite take_nil. }
  assert (length data <= length (content fs (dev fs) cs))%nat as Hle by (pose proof (f_equal length Fd) as El; rewrite length_take in El; lia).
  destruct (fchain_chain _ _ _ _ Fc) as (c & r & Ecs & Eev & Hc); [intros ->; cbn in Hle; lia|]. rewrite Eev. subst cs.
  pose proof (length_content dev_rd dev_wr fs (dev fs) (c :: r) G) as Lc.
  set (n := if Z.of_nat (length data) - off <? len then Z.of_nat (length data) - off else len).
  assert (0 <= n <= Z.of_nat (length data) - off) as Hn by (subst n; bcase; lia).
  destruct (read_range_ok dev_rd dev_wr (set_sec b0 fs) c r off n) as (b & E & Hb'); [destruct G; by constructor|done|exact Hc| | | |].
  - change (csize (set_sec b0 fs)) with (csize fs). lia.
  - lia.
  - change (csize (set_sec b0 fs)) with (csize fs). lia.
  - exists b. split; [|done]. cbv zeta. fold n. etransitivity; [exact E|]. unfold set_sec. cbn. do 2 f_equal.
    change (FatChain.content dev_rd dev_wr _ (dev fs) (c :: r)) with (content fs (dev fs) (c :: r)).
    transitivity (take (Z.to_nat len) (drop (Z.to_nat off) (take (length data) (content fs (dev fs) (c :: r))))); [|by rewrite <- Fd].
    rewrite skipn_firstn_comm, take_take. f_equal. subst n. bcase; lia.
Qed.

(** ** Updating the entry *)

Lemma dslots_length fs d ds x : x ∈ dslots dev_rd dev_wr fs d ds -> length x = 32%nat /\ bytes x.
Proof.
  intros (i & Hi)%list_elem_of_lookup. rewrite dslots_lookup in Hi. destruct (ds !! _) as [r|]; [|done]. injection Hi as <-.
  destruct (sector_ok d (part_lba fs + r)) as [L B]. pose proof (Nat.mod_upper_bound i 16 ltac:(lia)). rewrite length_take, length_drop. split; [lia|]. by apply Forall_take, Forall_drop.
Qed.

Lemma bytes_resized clu sz e : bytes e -> bytes (resized clu sz e).
Proof. intros He. unfold resized, wr32. apply bytes_put; [|repeat constructor; apply u8_range]. repeat apply Forall_insert; auto; try apply u8_range; unfold is_u8; lia. Qed.

Lemma update_entry_ok fs dir ds ev clu sz :
  geo fs -> is_dir fs (dev fs) dir ds -> ev ∈ entries fs (dev fs) ds -> 0 <= clu < 2 ^ 16 -> is_u32 sz ->
  exists d b, update_entry dev_rd dev_wr dir (pos ev) clu sz fs = (Some tt, at_dev d b fs) /\ buf_ok b /\
    entries fs d ds = map (at_pos (pos ev) clu sz) (entries fs (dev fs) ds) /\ outside dev_rd dev_wr fs (dev fs) d ds /\
    steady (dslots dev_rd dev_wr fs (dev fs) ds) (dslots dev_rd dev_wr fs d ds).
Proof.
  intros G Hd Hev Hc Hz. destruct (listing_slot _ _ _ _ Hev) as (i & e & He & Hp & Hs & _).
  destruct (dslots_length fs (dev fs) ds e ltac:(by eapply list_elem_of_lookup_2)) as [Le Be].
  destruct (resized_fields clu sz e Le Hc Hz) as (R0 & R11 & _ & Lr).
  set (f := fun (off : nat) b => wr32 (<[(off + 27)%nat := u8 (Z.land (Z.shiftr clu 8) 0xFF)]> (<[(off + 26)%nat := u8 (Z.land clu 0xFF)]> (<[(off + 21)%nat := 0]> (<[(off + 20)%nat := 0]> b)))) (off + 28) sz).
  destruct (patch_ok dev_rd dev_wr f (resized clu sz) fs dir ds i e G Hd He) as (d & b & E & Hb & Hsl & Ho).
  - intros k x Hk Lx. destruct (sector_split x k Hk Lx) as (pre & y & post & -> & Lp & Ly & Ey). rewrite <- Ey. unfold f, resized, wr32. rewrite <- Lp.
    rewrite !insert_mid, put_mid, put_slot by (rewrite ?length_put, ?length_insert; cbn [length]; lia). done.
  - done.
  - by apply bytes_resized.
  - exists d, b. unfold update_entry, attempt. replace (pos ev) with (Z.of_nat (32 * i)) by lia. fold f. rewrite E. split; [done|]. split; [done|]. split; [|split; [done|rewrite Hsl; by apply (steady_update _ _ e)]].
    unfold FatDirSpec.entries. rewrite Hsl, (listing_resized _ i e); auto.
    + do 2 f_equal. lia.
    + intros x Hx. by apply (dslots_length fs (dev fs) ds).
Qed.

(** ** Writing the bytes *)

(** Clusters that are free are apart from every directory. *)
Lemma apart_free fs d dir ds new :
  geo fs -> is_dir fs d dir ds -> (forall x, x ∈ new -> valid fs x /\ fat fs d 0 x = 0) -> apart fs new ds.
Proof.
  intros G [[-> ->]|(cs & [Hl Hn] & ->)] Hf; [apply (apart_root dev_rd dev_wr); auto; intros; by apply Hf|].
  apply (apart_chain dev_rd dev_wr); [done|]. intros x Hx Hin. destruct (Hf x Hx) as [_ H0]. by apply (in_use _ _ _ x Hl).
Qed.

Lemma apart_app (fs : Vol) a b ds : apart fs a ds -> apart fs b ds -> apart fs (a ++ b) ds.
Proof. intros Ha Hb c i [Hc|Hc]%elem_of_app Hi; [by apply Ha|by apply Hb]. Qed.

(** [data] with [src] written at [off], zeros in between. *)
Definition overwrite (data : list Z) (off : nat) (src : list Z) : list Z :=
  put (data ++ replicate (off + length src - length data) 0) off src.

Lemma overwrite_length data off src : length (overwrite data off src) = Nat.max (length data) (off + length src).
Proof. unfold overwrite. rewrite length_put, length_app, length_replicate. lia. Qed.

Lemma overwrite_nil off src : overwrite [] off src = replicate off 0 ++ src.
Proof.
  unfold overwrite. cbn [length app]. rewrite Nat.sub_0_r, replicate_add. rewrite put_app_r by (rewrite !length_replicate; lia). rewrite length_replicate, Nat.sub_diag.
  by rewrite put_all by (by rewrite length_replicate).
Qed.

Lemma content_zero fs d cs : (forall x, x ∈ cs -> FatChain.cdata dev_rd dev_wr fs d x = replicate (Z.to_nat (csize fs)) 0) ->
  content fs d cs = replicate (Z.to_nat (csize fs * Z.of_nat (length cs))) 0.
Proof.
  intros Hz. induction cs as [|c cs IH]; [cbn; by rewrite Z.mul_0_r|]. unfold FatChain.content in *. cbn [map concat length]. rewrite (Hz c ltac:(left)), IH by (intros x Hx; apply Hz; by right).
  rewrite <- replicate_add. f_equal. unfold csize. lia.
Qed.

(** The bytes of a chain that has grown. *)
Lemma grown_content fs d d' first cs new :
  geo fs -> fchain (fat fs d 0) (max_cluster fs) first cs -> FatChain.grown dev_rd dev_wr fs d d' cs new ->
  content fs d' (cs ++ new) = content fs d cs ++ replicate (Z.to_nat (csize fs * Z.of_nat (length new))) 0.
Proof.
  intros G Hc [_ Gn Gk _]. rewrite content_app. f_equal; [|apply content_zero; intros x Hx; by apply Gn]. apply (content_kept dev_rd dev_wr fs _ _ (cs ++ new) new cs Gk).
  intros x Hx. destruct (fchain_in _ _ _ _ _ Hc Hx). split; [done|]. intros Hx'. by destruct (Gn x Hx') as (_ & ? & _).
Qed.

(** The bytes of the chain, with the gap filled and the range written, as far as the new size. *)
Lemma take_overwrite C data off src :
  data = take (length data) C -> (off + length src <= length C)%nat -> src <> [] ->
  let C1 := if Z.of_nat (length data) <? Z.of_nat off then put C (length data) (replicate (off - length data) 0) else C in
  take (Nat.max (length data) (off + length src)) (put C1 off src) = overwrite data off src.
Proof.
  intros Hd Hl Hne C1. assert (0 < length src)%nat as Hs by (destruct src; [done|cbn; lia]).
  assert (length data <= length C)%nat as Hle by (pose proof (f_equal length Hd) as El; rewrite length_take in El; lia).
  assert (length C1 = length C) as L1 by (subst C1; destruct (_ <? _); rewrite ?length_put; done).
  apply list_eq_at; [rewrite length_take, overwrite_length, length_put; lia|]. intros j Hj. rewrite length_take, length_put in Hj.
  rewrite at_take, at_put by lia. unfold overwrite. rewrite at_put by (rewrite length_app, length_replicate; lia). case_decide; [done|].
  assert ((j < length data)%nat -> at_ C j = at_ data j) as Hdj by (intros; rewrite Hd; by rewrite at_take by lia).
  subst C1. destruct (Z.ltb_spec (Z.of_nat (length data)) (Z.of_nat off)).
  - rewrite at_put by (rewrite length_replicate; lia). rewrite length_replicate. case_decide.
    + rewrite at_app_r by lia. transitivity 0; [|symmetry]; apply at_lookup, lookup_replicate; (split; [done|lia]).
    + rewrite at_app_l by lia. apply Hdj. lia.
  - rewrite at_app_l by lia. apply Hdj. lia.
Qed.

(** Zeros behind the data, to the end of the last cluster. *)
Definition clean (C data : list Z) : Prop := drop (length data) C = replicate (length C - length data) 0.

Lemma clean_app C data k : clean C data -> (length data <= length C)%nat -> clean (C ++ replicate k 0) data.
Proof.
  unfold clean. intros H Hl. rewrite drop_app_le, H, length_app, length_replicate by done. rewrite <- replicate_add. f_equal. lia.
Qed.

Lemma clean_at C data : clean C data <-> forall j, (length data <= j < length C)%nat -> at_ C j = 0.
Proof.
  unfold clean. split.
  - intros H j Hj. replace j with (length data + (j - length data))%nat by lia. rewrite <- at_drop, H. apply at_lookup, lookup_replicate. split; [done|lia].
  - intros H. apply list_eq_at; [by rewrite length_drop, length_replicate|]. intros j Hj. rewrite length_drop in Hj. rewrite at_drop, H by lia.
    symmetry. apply at_lookup, lookup_replicate. split; [done|lia].
Qed.

Lemma clean_overwrite C data off src :
  data = take (length data) C -> (off + length src <= length C)%nat -> clean C data ->
  let C1 := if Z.of_nat (length data) <? Z.of_nat off then put C (length data) (replicate (off - length data) 0) else C in
  clean (put C1 off src) (overwrite data off src).
Proof.
  intros Hd Hl Hc C1. rewrite clean_at in *. assert (length C1 = length C) as L1 by (subst C1; destruct (_ <? _); rewrite ?length_put; done).
  intros j. rewrite overwrite_length, length_put, L1. intros Hj. rewrite at_put by lia. rewrite decide_False by lia. subst C1.
  destruct (Z.ltb_spec (Z.of_nat (length data)) (Z.of_nat off)); [|apply Hc; lia].
  rewrite at_put by (rewrite length_replicate; lia). rewrite length_replicate, decide_False by lia. apply Hc. lia.
Qed.

(** The clusters a size needs. *)
Lemma clusters_needed fs d first cs n :
  geo fs -> fchain (fat fs d 0) (max_cluster fs) first cs -> 0 < n <= csize fs * (Z.of_nat (length cs) + room fs d) ->
  let need := u32 (n + csize fs - 1) / csize fs in
  0 < need /\ need - Z.of_nat (length cs) <= room fs d /\ n <= csize fs * need /\ n < 2 ^ 32.
Proof.
  intros G Hc Hn. pose proof (room_bound fs d first cs G Hc) as Hr. assert (512 <= csize fs <= 65536) as Hcs by (unfold csize; destruct G; lia).
  assert (csize fs * (Z.of_nat (length cs) + room fs d) <= 65536 * 65522) as Hmax by (apply Z.mul_le_mono_nonneg; unfold room in *; destruct G; lia).
  cbv zeta. rewrite u32_id by (unfold is_u32; lia). pose proof (Z_div_mod_eq_full (n + csize fs - 1) (csize fs)) as E. pose proof (Z.mod_pos_bound (n + csize fs - 1) (csize fs) ltac:(lia)) as B.
  set (q := (n + csize fs - 1) / csize fs) in *. assert (n <= csize fs * q) by lia. split; [nia|]. split; [|lia].
  assert (csize fs * (q - 1) < csize fs * (Z.of_nat (length cs) + room fs d)) by lia. assert (q - 1 < Z.of_nat (length cs) + room fs d) by nia. lia.
Qed.

Lemma kept_weaken fs d d' F S cs : kept fs d d' F S -> (forall x, x ∈ F -> x ∈ cs) -> (forall x, x ∈ S -> x ∈ cs) -> kept fs d d' cs cs.
Proof. intros K H1 H2. eapply kept_mono; [exact K|exact H1|exact H2]. Qed.

Lemma kept_chain fs d d' F S cs :
  geo fs -> kept fs d d' F S -> chain (fat fs d 0) (max_cluster fs) cs -> (forall x, x ∈ cs -> x ∉ F) -> chain (fat fs d' 0) (max_cluster fs) cs.
Proof.
  intros G K [Hl Hn] HF. split; [|done]. apply (linked_ext (fat fs d 0)); [done|]. intros x Hx. pose proof (linked_in _ _ _ x Hl Hx).
  apply (kept_fat _ _ _ _ _ _ _ K); [destruct G; lia|unfold has_entry; lia|by apply HF].
Qed.

(** Zeros from the old end [n] of the file up to [off]. *)
Lemma fill_gap_ok fs c r n off :
  geo fs -> buf_ok (sec fs) -> chain (fat fs (dev fs) 0) (max_cluster fs) (c :: r) -> 0 <= off -> off < csize fs * Z.of_nat (length (c :: r)) ->
  exists d b, (if Z.of_nat n <? off then range_write dev_rd dev_wr c (Z.of_nat n) None (off - Z.of_nat n) else ret tt) fs = (Some tt, at_dev d b fs) /\
    buf_ok b /\ kept fs (dev fs) d [] (c :: r) /\
    content fs d (c :: r) = if Z.of_nat n <? Z.of_nat (Z.to_nat off) then put (content fs (dev fs) (c :: r)) n (replicate (Z.to_nat off - n) 0) else content fs (dev fs) (c :: r).
Proof.
  intros G Hb Hc Ho Hl. rewrite Z2Nat.id by lia. destruct (Z.ltb_spec (Z.of_nat n) off).
  - set (zs := replicate (Z.to_nat off - n) 0). assert (Z.of_nat (length zs) = off - Z.of_nat n) as Lz by (unfold zs; rewrite length_replicate; lia).
    destruct (range_write_ok dev_rd dev_wr fs c r (Z.of_nat n) None zs G Hb Hc) as (d & b & E & Hb' & K & C); [lia|lia| | |].
    + apply Forall_replicate. unfold is_u8. lia.
    + unfold src_of, zs. by rewrite length_replicate.
    + rewrite Lz in E. rewrite Nat2Z.id in C. by exists d, b.
  - exists (dev fs), (sec fs). split; [by destruct fs|]. split; [done|]. split; [apply kept_refl|done].
Qed.

(** Growing the file, filling the gap and writing the range. *)
Lemma write_bytes_ok fs first cs data off src :
  geo fs -> buf_ok (sec fs) -> fchain (fat fs (dev fs) 0) (max_cluster fs) first cs -> data = take (length data) (content fs (dev fs) cs) ->
  0 <= off -> bytes src -> src <> [] -> off + Z.of_nat (length src) <= csize fs * (Z.of_nat (length cs) + room fs (dev fs)) ->
  exists nf new d1 b1 d2 b2 d3 b3,
    ensure_chain dev_rd dev_wr first (u32 (off + Z.of_nat (length src) + csize fs - 1) / csize fs) fs = (Some nf, at_dev d1 b1 fs) /\
    (if Z.of_nat (length data) <? off then range_write dev_rd dev_wr nf (Z.of_nat (length data)) None (off - Z.of_nat (length data)) else ret tt) (at_dev d1 b1 fs) = (Some tt, at_dev d2 b2 fs) /\
    range_write dev_rd dev_wr nf off (Some src) (Z.of_nat (length src)) (at_dev d2 b2 fs) = (Some tt, at_dev d3 b3 fs) /\ buf_ok b3 /\
    2 <= nf <= max_cluster fs /\ fchain (fat fs d3 0) (max_cluster fs) nf (cs ++ new) /\ kept fs (dev fs) d3 (cs ++ new) (cs ++ new) /\
    (forall x, x ∈ new -> valid fs x /\ fat fs (dev fs) 0 x = 0) /\
    take (Nat.max (length data) (Z.to_nat off + length src)) (content fs d3 (cs ++ new)) = overwrite data (Z.to_nat off) src /\
    (clean (content fs (dev fs) cs) data -> clean (content fs d3 (cs ++ new)) (overwrite data (Z.to_nat off) src)).
Proof.
  intros G Hb Hc Hd Ho Hby Hne Hroom. assert (0 < length src)%nat as Hs by (destruct src; [done|cbn; lia]).
  destruct (clusters_needed fs (dev fs) first cs (off + Z.of_nat (length src)) G Hc ltac:(lia)) as (Hn1 & Hn2 & Hn3 & _). set (need := u32 _ / _) in *.
  destruct (ensure_chain_ok dev_rd dev_wr fs first cs need G Hb Hc ltac:(lia)) as (nf & new & d1 & b1 & E1 & Hb1 & Hc1 & Gr & Ln); [unfold room in Hn2; lia|].
  destruct (fchain_chain _ _ _ _ Hc1) as (c & r & Ecs & -> & Hc1'); [intros E; rewrite E in Ln; cbn in Ln; lia|].
  assert (csize fs * need <= csize fs * Z.of_nat (length (cs ++ new))) as Hcap by (apply Z.mul_le_mono_nonneg_l; [unfold csize; destruct G; lia|lia]).
  pose proof (grown_content fs (dev fs) d1 first cs new G Hc Gr) as Ecc. destruct Gr as [_ Gnew Gk _]. set (C := content fs d1 (cs ++ new)) in *.
  pose proof (length_content dev_rd dev_wr fs d1 (cs ++ new) G) as LC. fold C in LC.
  assert (data = take (length data) C) as HdC.
  { rewrite Ecc, take_app_le; [done|]. pose proof (f_equal length Hd) as El. rewrite length_take in El. lia. }
  destruct (fill_gap_ok (at_dev d1 b1 fs) c r (length data) off (geo_at dev_rd dev_wr d1 b1 fs G) Hb1 Hc1') as (d2 & b2 & E2 & Hb2 & K2 & C2).
  { done. }
  { change (csize (at_dev d1 b1 fs)) with (csize fs). rewrite <- Ecs. lia. }
  apply kept_at in K2. change (FatChain.content dev_rd dev_wr (at_dev d1 b1 fs)) with (content fs) in C2. change (dev (at_dev d1 b1 fs)) with d1 in *. rewrite <- Ecs in K2, C2. fold C in C2.
  assert (chain (fat fs d2 0) (max_cluster fs) (c :: r)) as Hc2.
  { by apply (kept_chain fs d1 d2 [] (cs ++ new)); [| | |intros x _; apply not_elem_of_nil]. }
  destruct (range_write_ok dev_rd dev_wr (at_dev d2 b2 fs) c r off (Some src) src (geo_at dev_rd dev_wr d2 b2 fs G) Hb2 Hc2) as (d3 & b3 & E3 & Hb3 & K3 & C3); auto.
  { change (csize (at_dev d2 b2 fs)) with (csize fs). rewrite <- Ecs. lia. }
  { change (csize (at_dev d2 b2 fs)) with (csize fs). rewrite <- Ecs. lia. }
  { done. }
  apply kept_at in K3. rewrite <- Ecs in K3. change (dev (at_dev d2 b2 fs)) with d2 in *.
  exists c, new, d1, b1, d2, b2, d3, b3. split; [done|]. split; [done|]. split; [exact E3|]. split; [done|].
  split; [exact (linked_in _ _ _ c (proj1 Hc2) ltac:(left))|]. split; [|split; [|split]].
  - rewrite Ecs. split; [done|]. by apply (kept_chain fs d2 d3 [] (cs ++ new)); [| | |intros x _; apply not_elem_of_nil].
  - apply (kept_trans _ _ _ _ d1); [eapply kept_weaken; [exact Gk|done|intros x Hx; apply elem_of_app; by right]|].
    apply (kept_trans _ _ _ _ d2); (eapply kept_weaken; [eassumption|intros x Hx; by apply not_elem_of_nil in Hx|done]).
  - intros x Hx. destruct (Gnew x Hx) as (? & ? & _). done.
  - change (FatChain.content dev_rd dev_wr (at_dev d2 b2 fs)) with (content fs) in C3. rewrite <- Ecs, C2 in C3. rewrite C3. split; [apply take_overwrite; auto; lia|].
    intros Hcl. apply clean_overwrite; auto; [lia|]. rewrite Ecc. apply clean_app; [done|]. pose proof (f_equal length Hd) as El. rewrite length_take in El. lia.
Qed.

(** ** The whole write *)

Lemma file_small fs d first cs data :
  geo fs -> fchain (fat fs d 0) (max_cluster fs) first cs -> data = take (length data) (content fs d cs) -> Z.of_nat (length data) < 2 ^ 32.
Proof.
  intros G Hc Hd. pose proof (room_bound fs d first cs G Hc). pose proof (length_content dev_rd dev_wr fs d cs G) as L.
  assert (csize fs * Z.of_nat (length cs) <= 65536 * 65522) by (apply Z.mul_le_mono_nonneg; unfold csize, room in *; destruct G; lia).
  pose proof (f_equal length Hd) as El. rewrite length_take in El. lia.
Qed.

(** A file, seen from a device where the directory's sectors have changed. *)
Lemma file_outside fs d d' dir ds ev cs data :
  geo fs -> is_dir fs d dir ds -> outside dev_rd dev_wr fs d d' ds -> file fs d ds ev cs data -> file fs d' ds ev cs data.
Proof.
  intros G Hd Ho [Fc Fs Fd Fp Fa]. constructor; auto.
  - destruct cs as [|c cs]; [done|]. destruct Fc as [? Hc]. split; [done|]. by apply (outside_chain dev_rd dev_wr fs d d' dir ds).
  - by rewrite (outside_content dev_rd dev_wr fs d d' ds cs).
Qed.

(** A file whose clusters are kept. *)
Lemma file_kept fs d d' F S ds ev cs data :
  geo fs -> kept fs d d' F S -> (forall x, x ∈ cs -> x ∉ F) -> (forall x, x ∈ cs -> x ∉ S) -> file fs d ds ev cs data -> file fs d' ds ev cs data.
Proof.
  intros G K HF HS [Fc Fs Fd Fp Fa]. constructor; auto.
  - destruct cs as [|c cs]; [done|]. destruct Fc as [? Hc]. split; [done|]. by apply (kept_chain fs d d' F S).
  - rewrite (content_kept dev_rd dev_wr fs d d' F S cs K); [done|]. intros x Hx. split; [by apply (fchain_in _ _ _ _ _ Fc Hx)|by apply HS].
Qed.

Lemma lookup_in nm l ev : lookup_name nm l = Some ev -> ev ∈ l.
Proof. intros H. apply list_elem_of_In. by apply find_some in H as [? _]. Qed.

Lemma write_ok fs dir ds nm ev cs data off src :
  geo fs -> buf_ok (sec fs) -> is_dir fs (dev fs) dir ds -> ds <> [] ->
  lookup_name nm (entries fs (dev fs) ds) = Some ev -> file fs (dev fs) ds ev cs data ->
  0 <= off -> bytes src -> src <> [] -> off + Z.of_nat (length src) <= csize fs * (Z.of_nat (length cs) + room fs (dev fs)) ->
  exists nf new d3 d b,
    write dev_rd dev_wr dir nm off src fs = (Some (Z.of_nat (length src)), at_dev d b fs) /\ buf_ok b /\ is_dir fs d dir ds /\
    let ev' := set_entry ev nf (Z.of_nat (length (overwrite data (Z.to_nat off) src))) in
    entries fs d ds = map (at_pos (pos ev) nf (size ev')) (entries fs (dev fs) ds) /\
    file fs d ds ev' (cs ++ new) (overwrite data (Z.to_nat off) src) /\
    (forall x, x ∈ new -> valid fs x /\ fat fs (dev fs) 0 x = 0) /\
    kept fs (dev fs) d3 (cs ++ new) (cs ++ new) /\ outside dev_rd dev_wr fs d3 d ds /\
    steady (dslots dev_rd dev_wr fs (dev fs) ds) (dslots dev_rd dev_wr fs d ds) /\
    (clean (content fs (dev fs) cs) data -> clean (content fs d (cs ++ new)) (overwrite data (Z.to_nat off) src)).
Proof.
  intros G Hb Hd Hne Hlk F Ho Hby Hsn Hroom. destruct F as [Fc Fs Fd Fp Fa]. assert (0 < length src)%nat as Hsl by (destruct src; [done|cbn; lia]).
  destruct (find_entry_ok dev_rd dev_wr fs dir ds nm G Hd Hne) as (b0 & Hb0 & E0). rewrite Hlk in E0. specialize (Hb0 Hb).
  assert (geo (set_sec b0 fs)) as G0 by (destruct G; by constructor).
  destruct (write_bytes_ok (set_sec b0 fs) (cluster ev) cs data off src G0 Hb0 Fc Fd Ho Hby Hsn Hroom) as (nf & new & d1 & b1 & d2 & b2 & d3 & b3 & E1 & E2 & E3 & Hb3 & Hnf & Hc3 & K3 & Hnew & Ht & Hcl).
  assert (kept fs (dev fs) d3 (cs ++ new) (cs ++ new)) as K by (destruct K3; by constructor).
  assert (apart fs (cs ++ new) ds) as Ha by (apply apart_app; [done|by apply (apart_free fs (dev fs) dir)]).
  destruct (kept_dir dev_rd dev_wr fs (dev fs) d3 (cs ++ new) (cs ++ new) dir ds G Hd K Ha Ha) as [Hd3 Hs3].
  destruct (clusters_needed fs (dev fs) (cluster ev) cs (off + Z.of_nat (length src)) G Fc) as (_ & _ & _ & H32); [lia|].
  set (nd := overwrite data (Z.to_nat off) src) in *.
  assert (Z.of_nat (length nd) = if Z.of_nat (length data) <? off + Z.of_nat (length src) then off + Z.of_nat (length src) else Z.of_nat (length data)) as Lnd
    by (unfold nd; rewrite overwrite_length; destruct (Z.ltb_spec (Z.of_nat (length data)) (off + Z.of_nat (length src))); lia).
  assert (is_u32 (Z.of_nat (length nd))) as Hu.
  { pose proof (file_small fs (dev fs) (cluster ev) cs data G Fc Fd). unfold is_u32. rewrite Lnd. bcase; lia. }
  assert (entries fs d3 ds = entries fs (dev fs) ds) as He3 by (unfold FatDirSpec.entries; by rewrite Hs3).
  destruct (update_entry_ok (at_dev d3 b3 fs) dir ds ev nf (Z.of_nat (length nd)) (geo_at dev_rd dev_wr d3 b3 fs G) Hd3) as (d & b & E4 & Hb4 & He4 & Ho4 & St4).
  { change (ev ∈ entries fs d3 ds). rewrite He3. by eapply lookup_in. }
  { cbn in Hnf. destruct G; lia. }
  { done. }
  exists nf, new, d3, d, b. split; [|split; [done|split; [by apply (outside_is_dir dev_rd dev_wr fs d3)|split; [|split; [|split; [done|split; [done|split; [done|split]]]]]]]].
  - unfold write. rewrite (bind_some _ _ fs ev (set_sec b0 fs)) by (unfold attempt; by rewrite E0). rewrite bind_guard by (by rewrite Fp).
    destruct (Z.eqb_spec (Z.of_nat (length src)) 0); [lia|].
    rewrite bind_guard by (destruct (Z.ltb_spec (0xFFFFFFFF - Z.of_nat (length src)) off); [lia|done]).
    rewrite bind_gets, (cb_ok dev_rd dev_wr) by done. rewrite (bind_some _ _ _ _ _ E1). rewrite Fs. rewrite (bind_some _ _ _ _ _ E2), (bind_some _ _ _ _ _ E3).
    rewrite <- Lnd. by rewrite (bind_some _ _ _ _ _ E4).
  - rewrite <- He3. exact He4.
  - apply (file_outside fs d3 d dir); auto. constructor; auto.
    unfold nd at 2. rewrite overwrite_length. symmetry. exact Ht.
  - rewrite <- Hs3. exact St4.
  - rewrite (outside_content dev_rd dev_wr fs d3 d ds (cs ++ new)) by done. exact Hcl.
Qed.
End WriteFile.
