(* ===== verification/FatCreate.v ===== *)
(** Creating a file in a FAT16 directory. *)
From S2P Require Import Prelude Fat16 FatDir FatChain FatFile FatName FatDirSpec FatWrite.
Local Open Scope vnu_scope.

(** ** Short names made up for long ones *)

(** A character that may begin an entry. *)
Definition plain (c : Z) : Prop := 0 < c < 256 /\ c <> 32 /\ c <> 0xE5.

Lemma short_part_plain cap s out f lo up :
  bytes s -> Forall plain out -> (length out <= cap)%nat ->
  let '(o, _, _, _) := short_part cap s out f lo up in Forall plain o /\ (length o <= cap)%nat.
Proof.
  intros Hs. revert out f lo up; induction Hs as [|c s Hc Hs IH]; intros out f lo up Ho Hl; cbn [short_part]; [done|].
  destruct (Nat.ltb_spec (length out) cap); [|by apply IH]. apply IH; [|rewrite length_app; cbn; lia].
  apply Forall_app. split; [done|]. constructor; [|constructor]. destruct (sfn_char_ok c) eqn:Eo; [|vm_compute; repeat split; done].
  destruct (ok_char c Hc Eo) as (? & ? & ? & ?). done.
Qed.

Lemma until_space_pad n l : Forall plain l -> until_space (pad n l) = l.
Proof.
  intros Hl. unfold pad. set (k := (n - length l)%nat). clearbody k. induction Hl as [|c l (Hc & Hne & _) Hl IH]; cbn [app until_space]; [by destruct k|].
  destruct (Z.eqb_spec c 32); [done|]. by rewrite IH.
Qed.

Lemma digits_plain fuel m acc : 0 <= m -> Forall plain acc -> Forall plain (digits fuel m acc).
Proof.
  revert m acc; induction fuel as [|fuel IH]; intros m acc Hm Ha; cbn [digits]; [done|].
  assert (Forall plain (48 + m mod 10 :: acc)) as Ha' by (constructor; [pose proof (Z.mod_pos_bound m 10 ltac:(lia)); unfold plain; lia|done]).
  destruct (_ =? 0); [done|]. apply IH; [apply Z.div_pos; lia|done].
Qed.

(** The parts of a short form. *)
Lemma build_short_parts nm : bytes nm -> exists b x, s_base (build_short nm) = pad 8 b /\ s_ext (build_short nm) = pad 3 x /\
  Forall plain b /\ Forall plain x /\ (length b <= 8)%nat /\ (length x <= 3)%nat.
Proof.
  intros Hn. unfold build_short. set (dot := last_dot nm 0 None).
  assert (bytes (match dot with None => nm | Some i => take i nm end) /\ bytes (match dot with None => [] | Some i => drop (S i) nm end)) as [Hb Hx]
    by (destruct dot; split; auto; [by apply Forall_take|by apply Forall_drop|constructor]).
  pose proof (short_part_plain 8 _ [] true false false Hb ltac:(constructor) ltac:(cbn; lia)) as Pb.
  pose proof (short_part_plain 3 _ [] true false false Hx ltac:(constructor) ltac:(cbn; lia)) as Px.
  destruct (short_part 8 _ _ _ _ _) as [[[b ?] ?] ?]. destruct (short_part 3 _ _ _ _ _) as [[[x ?] ?] ?]. exists b, x. cbn [s_base s_ext]. tauto.
Qed.

(** A short name that no scan takes for a mark. *)
Definition sfn_ok (s : list Z) : Prop := length s = 11%nat /\ bytes s /\ at_ s 0 <> 0x00 /\ at_ s 0 <> 0xE5.

Lemma plain_bytes l : Forall plain l -> bytes l.
Proof. intros H. eapply Forall_impl; [exact H|]. intros c (? & _). unfold is_u8. lia. Qed.

Lemma bytes_pad n l : bytes l -> bytes (pad n l).
Proof. intros H. apply Forall_app. split; [done|]. apply Forall_replicate. unfold is_u8. lia. Qed.

Lemma mangled_ok nm n : bytes nm -> 0 <= n -> sfn_ok (mangled (build_short nm) n).
Proof.
  intros Hn H0. destruct (build_short_parts nm Hn) as (b & x & Eb & Ex & Pb & Px & Lb & Lx). unfold mangled. rewrite Eb, Ex, until_space_pad by done.
  set (tl := chr "~" :: digits 8 n []). assert (Forall plain tl) as Pt by (constructor; [vm_compute; repeat split; done|apply digits_plain; [done|constructor]]).
  set (k := Z.to_nat _). assert (1 <= k)%nat as Hk by (unfold k; lia).
  set (h := match take k b with [] => [chr "F"] | _ => take k b end).
  assert (Forall plain h /\ h <> []) as [Ph Hh].
  { subst h. destruct (take k b) eqn:E; [split; [constructor; [vm_compute; repeat split; done|constructor]|done]|]. rewrite <- E. split; [by apply Forall_take|by rewrite E]. }
  assert (Forall plain (take 8 (h ++ tl))) as P8 by (apply Forall_take, Forall_app; done).
  split; [rewrite length_app, !length_pad; rewrite ?length_take; lia|]. split; [apply Forall_app; split; apply bytes_pad, plain_bytes; done|].
  destruct h as [|c h]; [done|]. destruct (Forall_cons_1 _ _ _ Ph) as [(? & ? & ?) _]. cbn [app take pad]. unfold at_. cbn. lia.
Qed.

Lemma plain_short_ok nm : bytes nm -> sfn_ok (s_base (build_short nm) ++ s_ext (build_short nm)).
Proof.
  intros Hn. destruct (build_short_parts nm Hn) as (b & x & -> & -> & Pb & Px & Lb & Lx).
  split; [by rewrite length_app, !length_pad|]. split; [apply Forall_app; split; apply bytes_pad, plain_bytes; done|].
  destruct b as [|c b]; [vm_compute; done|]. destruct (Forall_cons_1 _ _ _ Pb) as [(? & ? & ?) _]. unfold at_. cbn. lia.
Qed.

Lemma used_split es : exists rest, es = used es ++ rest /\ Forall live (used es) /\ (rest = [] \/ exists e r, rest = e :: r /\ at_ e 0 = 0).
Proof.
  induction es as [|e es IH]; cbn [used]; [exists []; auto|]. destruct (Z.eqb_spec (at_ e 0) 0) as [E|E].
  - exists (e :: es). split; [done|]. split; [constructor|]. right. by exists e, es.
  - destruct IH as (rest & H1 & H2 & H3). exists rest. split; [cbn; by f_equal|]. split; [by constructor|done].
Qed.

Lemma listing_app es rest p st :
  Forall live es -> listing (es ++ rest) p st = listing es p st ++ listing rest (p + 32 * Z.of_nat (length es)) (scan_state es p st).
Proof.
  intros Hl. revert p st; induction Hl as [|e es He Hl IH]; intros p st; [cbn; f_equal; lia|]. cbn [app listing scan_state length].
  destruct (Z.eqb_spec (at_ e 0) 0); [done|]. replace (p + 32 * Z.of_nat (S (length es))) with (p + 32 + 32 * Z.of_nat (length es)) by lia.
  destruct (at_ e 0 =? 229); [apply IH|]. destruct (_ =? 15); [apply IH|]. cbn [app]. by rewrite IH.
Qed.

Lemma listing_end e es p st : at_ e 0 = 0 -> listing (e :: es) p st = [].
Proof. intros H. cbn [listing]. by rewrite H. Qed.

(** The listing is that of the used part. *)
Lemma listing_used es p st : listing es p st = listing (used es) p st.
Proof.
  destruct (used_split es) as (rest & E & Hl & Hr). rewrite E at 1. rewrite listing_app by done.
  destruct Hr as [->|(e & r & -> & H0)]; [by rewrite app_nil_r|]. by rewrite listing_end, app_nil_r.
Qed.

(** After entries have been put behind the used part, with an end mark or the end of the directory behind them. *)
Lemma listing_appended es new rest : Forall live (used es) -> closed_dir es ->
  listing (used es ++ new ++ rest) 0 lfn0 = listing es 0 lfn0 ++ listing (new ++ rest) (32 * Z.of_nat (length (used es))) lfn0.
Proof. intros Hl Hc. rewrite listing_app by done. rewrite (listing_fresh _ _ _ Hc), <- listing_used. done. Qed.

(** The entries built are entries. *)
Lemma fold_keeps {A B} (P : A -> Prop) (f : A -> B -> A) l a : P a -> (forall x y, P x -> P (f x y)) -> P (fold_left f l a).
Proof. intros Ha Hf. revert a Ha; induction l as [|b l IH]; intros a Ha; [done|]. cbn [fold_left]. auto. Qed.

Lemma checksum_byte s : is_u8 (sfn_checksum s).
Proof. apply (fold_keeps is_u8); [unfold is_u8; lia|]. intros. apply u8_range. Qed.

Lemma entries_for_ok nm s a clu sz :
  sfn_ok s -> is_u8 a -> Forall (fun e => length e = 32%nat /\ bytes e) (entries_for nm s a clu sz).
Proof.
  intros (Ls & Bs & _ & _) Ha. unfold entries_for. assert (bytes (replicate 32 0)) as Hz by (apply Forall_replicate; unfold is_u8; lia). apply Forall_app. split.
  - destruct (long_needed nm); [|constructor]. apply Forall_forall. intros e (c & -> & _)%list_elem_of_fmap. split; [apply lfn_entry_head|].
    unfold lfn_entry. apply fold_keeps.
    + repeat apply Forall_insert; auto; [apply u8_range|unfold is_u8; lia|apply checksum_byte].
    + intros x k Hx. apply bytes_put; [done|]. repeat constructor; apply u8_range.
  - constructor; [|constructor]. unfold short_entry, wr32. rewrite length_put, !length_insert, length_put, length_replicate. split; [done|].
    apply bytes_put; [|repeat constructor; apply u8_range]. repeat apply Forall_insert; auto; try apply u8_range; [by apply bytes_put|].
    destruct (long_needed nm); [unfold is_u8; lia|]. unfold build_short. destruct (short_part 8 _ _ _ _ _) as [[[? ?] bl] bu]. destruct (short_part 3 _ _ _ _ _) as [[[? ?] xl] xu].
    cbn [nt]. destruct (bl && negb bu), (xl && negb xu); vm_compute; done.
Qed.

Lemma entries_for_live nm s a clu sz : storable nm -> sfn_for nm s -> Forall live (entries_for nm s a clu sz).
Proof.
  intros (_ & Hl & _) (Ls & _ & S0 & _). destruct (chunks_bounds nm Hl) as [Hc _]. unfold entries_for. apply Forall_app. split.
  - destruct (long_needed nm); [|constructor]. apply Forall_forall. intros e (c & -> & Hin%elem_of_seq)%list_elem_of_fmap. unfold live.
    destruct (lfn_entry_head nm (chunks_of nm) (sfn_checksum s) (Z.of_nat c)) as (-> & _). by destruct (lfn_seq (Z.of_nat c) (chunks_of nm - Z.of_nat c) ltac:(lia)) as (_ & ? & _).
  - constructor; [|constructor]. unfold live. explode s Ls. exact S0.
Qed.

Lemma used_live es rest : Forall live es -> used (es ++ rest) = es ++ used rest.
Proof. induction 1 as [|e es He Hes IH]; [done|]. cbn [app used]. destruct (Z.eqb_spec (at_ e 0) 0); [done|]. by rewrite IH. Qed.

Lemma used_end rest : rest = [] \/ (exists e r, rest = e :: r /\ at_ e 0 = 0) -> used rest = [].
Proof. intros [->|(e & r & -> & He)]; [done|]. cbn [used]. by rewrite He. Qed.

Lemma scan_state_app a b p st : scan_state (a ++ b) p st = scan_state b (p + 32 * Z.of_nat (length a)) (scan_state a p st).
Proof.
  revert p st; induction a as [|e a IH]; intros p st; [cbn; f_equal; lia|]. cbn [app scan_state length].
  replace (p + 32 * Z.of_nat (S (length a))) with (p + 32 + 32 * Z.of_nat (length a)) by lia. destruct (_ =? 229); [apply IH|]. destruct (_ =? 15); apply IH.
Qed.

(** Names match themselves. *)
Lemma ci_equal_refl s : ci_equal s s = true.
Proof. induction s as [|c s IH]; [done|]. cbn [ci_equal]. by rewrite Z.eqb_refl. Qed.

Lemma lookup_snoc nm l ev : lookup_name nm (l ++ [ev]) =
  match lookup_name nm l with Some e => Some e | None => if negb (bit_set (attr ev) ATTR_VOLUME) && ci_equal (name ev) nm then Some ev else None end.
Proof.
  unfold lookup_name, first_match. induction l as [|x l IH]; cbn [app find]; [done|]. by destruct (negb (bit_set (attr x) ATTR_VOLUME) && ci_equal (name x) nm).
Qed.

Section Create.
Context {D : Type} (dev_rd : D -> Z -> option (list Z)) (dev_wr : D -> Z -> list Z -> option D) `{!Disk dev_rd dev_wr}.
Abbreviation Vol := (@Fs D).
Abbreviation geo := (geo dev_rd dev_wr).
Abbreviation is_dir := (is_dir dev_rd dev_wr).
Abbreviation entries := (entries dev_rd dev_wr).
Abbreviation dslots := (dslots dev_rd dev_wr).
Abbreviation outside := (outside dev_rd dev_wr).

(** No listed entry has the short name [s]. *)
Definition sfn_free (s : list Z) (l : list Entry) : Prop := first_match (fun ev => sfn_equal (sfn ev) s) l = None.

Lemma geo_sec b fs : geo fs -> geo (set_sec b fs).
Proof. intros []. by constructor. Qed.

Lemma make_unique_loop_ok k fs dir ds sh n :
  geo fs -> is_dir fs (dev fs) dir ds -> 0 <= n ->
  exists b s, (buf_ok (sec fs) -> buf_ok b) /\ make_unique_loop dev_rd k dir sh n fs = (Some s, set_sec b fs) /\
    ((exists m, 0 <= m /\ s = mangled sh m /\ sfn_free s (entries fs (dev fs) ds)) \/ s = s_base sh ++ s_ext sh).
Proof.
  revert fs n; induction k as [|k IH]; intros fs n G Hd Hn; cbn [make_unique_loop].
  { exists (sec fs), (s_base sh ++ s_ext sh). split; [done|]. split; [by destruct fs|by right]. }
  destruct (dir_has_sfn_ok dev_rd dev_wr fs dir ds (mangled sh n) G Hd) as (b1 & Hb1 & E1). rewrite (bind_some _ _ fs _ _ E1).
  destruct (first_match _ _) as [ev|] eqn:Em.
  - destruct (IH (set_sec b1 fs) (n + 1) (geo_sec b1 fs G) Hd ltac:(lia)) as (b & s & Hb & E & Hs). exists b, s. auto.
  - exists b1, (mangled sh n). split; [done|]. split; [done|]. left. by exists n.
Qed.

Lemma build_entries_ok fs dir ds nm a clu sz :
  geo fs -> is_dir fs (dev fs) dir ds -> cstring nm -> 1 <= Z.of_nat (length nm) <= 255 ->
  exists b s, (buf_ok (sec fs) -> buf_ok b) /\ build_entries dev_rd dir nm a clu sz fs = (Some (entries_for nm s a clu sz), set_sec b fs) /\ sfn_for nm s.
Proof.
  intros G Hd Hn Hl. assert (bytes nm) as Hb by (by apply cstring_bytes). unfold build_entries. cbv zeta. fold (long_needed nm). unfold sfn_for, entries_for.
  destruct (chunks_bounds nm Hl) as [Hc _]. unfold chunks_of in *. cbv zeta in *. destruct (long_needed nm).
  - destruct (make_unique_loop_ok (Z.to_nat (1000000 - 1)) fs dir ds (build_short nm) 1 G Hd ltac:(lia)) as (b & s & Hb' & E & Hs).
    exists b, s. split; [done|]. unfold make_unique_sfn. rewrite (bind_some _ _ fs _ _ E). split.
    + unfold guard. by rewrite (proj2 (Z.leb_le _ MAX_LFN) (proj2 Hc)).
    + assert (sfn_ok s) as (? & ? & ? & ?); [|done]. destruct Hs as [(m & Hm & -> & _)| ->]; [by apply mangled_ok|by apply plain_short_ok].
  - exists (sec fs), (s_base (build_short nm) ++ s_ext (build_short nm)). split; [done|]. split; [by destruct fs|]. destruct (plain_short_ok nm Hb) as (? & ? & ? & ?). done.
Qed.

(** ** Appending *)

Lemma dir_end_ok fuel fs dir ds i :
  geo fs -> is_dir fs (dev fs) dir ds -> (i <= 16 * length ds)%nat -> (16 * length ds - i < fuel)%nat ->
  exists b, (buf_ok (sec fs) -> buf_ok b) /\ dir_end dev_rd fuel dir (Z.of_nat (32 * i)) (Z.of_nat (length ds) * 512) fs =
    (Some (Z.of_nat (32 * (i + length (used (drop i (dslots fs (dev fs) ds)))))), set_sec b fs).
Proof.
  intros G Hd. pose proof (is_dir_short dev_rd dev_wr fs _ dir ds G Hd) as Hsh.
  revert fs i G Hd; induction fuel as [|fuel IH]; intros fs i G Hd Hi Hf; [lia|]. cbn [dir_end].
  destruct (dslots fs (dev fs) ds !! i) as [e|] eqn:He.
  - pose proof (lookup_lt_Some _ _ _ He) as Hlt. rewrite length_dslots in Hlt.
    destruct (slot_load dev_rd dev_wr fs dir ds i e G Hd He) as (r & Hr & Hin & Ee & _ & El). rewrite (drop_S _ _ _ He). cbn [used].
    rewrite u32_id by (unfold is_u32; lia). rewrite (proj2 (Z.leb_le _ _)) by lia. rewrite (bind_some _ _ fs _ _ El), bind_gets.
    cbn [sec set_sec]. unfold SECTOR. rewrite (proj2 (slot_pos i)), Nat2Z.id. set (b1 := sector (dev fs) (part_lba fs + r)) in *.
    assert (at_ b1 (32 * (i mod 16)) = at_ e 0) as -> by (rewrite Ee, at_take, at_drop by lia; f_equal; lia).
    assert (buf_ok b1) as Hb1 by apply sector_ok. destruct (at_ e 0 =? 0).
    + exists b1. split; [done|]. cbn [length]. by rewrite Nat.add_0_r.
    + replace (Z.of_nat (32 * i) + 32) with (Z.of_nat (32 * S i)) by lia.
      destruct (IH (set_sec b1 fs) (S i) (geo_sec b1 fs G) Hd ltac:(lia) ltac:(lia)) as (b & Hb & E). exists b. split; [auto|].
      etransitivity; [exact E|]. cbn [length]. change (dslots (set_sec b1 fs) (dev (set_sec b1 fs)) ds) with (dslots fs (dev fs) ds).
      replace (i + S (length (used (drop (S i) (dslots fs (dev fs) ds)))))%nat with (S i + length (used (drop (S i) (dslots fs (dev fs) ds))))%nat by lia. done.
  - apply lookup_ge_None in He as Hge. rewrite length_dslots in Hge. exists (sec fs). split; [done|]. rewrite drop_ge by (rewrite length_dslots; lia). cbn [used length].
    rewrite u32_id by (unfold is_u32; lia). destruct (Z.leb_spec (Z.of_nat (32 * i) + 32) (Z.of_nat (length ds) * 512)); [lia|]. rewrite Nat.add_0_r. by destruct fs.
Qed.

(** One entry written. *)
Lemma write_entry_ok fs dir ds i e :
  geo fs -> is_dir fs (dev fs) dir ds -> (i < 16 * length ds)%nat -> length e = 32%nat -> bytes e ->
  exists d b, write_entry_at dev_rd dev_wr dir (Z.of_nat (32 * i)) e fs = (Some tt, at_dev d b fs) /\ buf_ok b /\
    dslots fs d ds = <[i := e]> (dslots fs (dev fs) ds) /\ outside fs (dev fs) d ds.
Proof.
  intros G Hd Hi Le Be. destruct (lookup_lt_is_Some_2 (dslots fs (dev fs) ds) i ltac:(by rewrite length_dslots)) as [x Hx].
  by apply (patch_ok dev_rd dev_wr (fun off b => put b off e) (fun _ => e) fs dir ds i x).
Qed.

Lemma insert_splice {A} (l : list A) i e es :
  (i + S (length es) <= length l)%nat ->
  take (S i) (<[i := e]> l) ++ es ++ drop (S i + length es) (<[i := e]> l) = take i l ++ (e :: es) ++ drop (i + length (e :: es)) l.
Proof.
  intros Hl. rewrite (take_S_r _ _ e) by (apply list_lookup_insert_eq; lia). rewrite take_insert_ge, drop_insert_lt by lia.
  rewrite <- app_assoc. cbn [app length]. do 4 f_equal. lia.
Qed.

Lemma write_entries_ok es fs dir ds i :
  geo fs -> buf_ok (sec fs) -> is_dir fs (dev fs) dir ds -> (i + length es <= 16 * length ds)%nat -> Forall (fun e => length e = 32%nat /\ bytes e) es ->
  exists d b, write_entries dev_rd dev_wr dir (Z.of_nat (32 * i)) es fs = (Some (Z.of_nat (32 * (i + length es))), at_dev d b fs) /\ buf_ok b /\
    dslots fs d ds = take i (dslots fs (dev fs) ds) ++ es ++ drop (i + length es) (dslots fs (dev fs) ds) /\ outside fs (dev fs) d ds.
Proof.
  intros G Hb Hd Hi Hes. revert fs i G Hb Hd Hi; induction Hes as [|e es [Le Be] Hes IH]; intros fs i G Hb Hd Hi; cbn [write_entries length] in *.
  - exists (dev fs), (sec fs). rewrite Nat.add_0_r. split; [by destruct fs|]. split; [done|]. split; [by rewrite app_nil_l, take_drop|]. by intros l _.
  - destruct (write_entry_ok fs dir ds i e G Hd ltac:(lia) Le Be) as (d1 & b1 & E1 & Hb1 & S1 & O1). rewrite (bind_some _ _ fs _ _ E1).
    replace (Z.of_nat (32 * i) + 32) with (Z.of_nat (32 * S i)) by lia.
    destruct (IH (at_dev d1 b1 fs) (S i)) as (d & b & E & Hb' & S2 & O2); [by apply (geo_at dev_rd dev_wr)|done|by apply (outside_is_dir dev_rd dev_wr fs (dev fs))|lia|].
    exists d, b. replace (S i + length es)%nat with (i + S (length es))%nat in * by lia. split; [exact E|]. split; [done|].
    split; [|by apply (outside_trans dev_rd dev_wr fs _ d1)].
    etransitivity; [exact S2|]. change (dslots (at_dev d1 b1 fs) (dev (at_dev d1 b1 fs)) ds) with (dslots fs d1 ds). rewrite S1.
    etransitivity; [|apply (insert_splice _ i e es); rewrite length_dslots; lia]. do 3 f_equal. lia.
Qed.

(** The new entries behind the used ones, and the end mark behind them. *)
Definition appended (es new es' : list (list Z)) : Prop :=
  exists rest, es' = used es ++ new ++ rest /\ (rest = [] \/ exists e r, rest = e :: r /\ at_ e 0 = 0).

Lemma dir_grow_none fuel dir p count total (fs : Vol) : u32 (p + count * 32) <= total -> dir_grow dev_rd dev_wr fuel dir p count total fs = (Some total, fs).
Proof. intros H. destruct fuel; cbn [dir_grow]; by rewrite (proj2 (Z.ltb_ge _ _) H). Qed.

Lemma end_mark_ok fs dir ds i x :
  geo fs -> is_dir fs (dev fs) dir ds -> dslots fs (dev fs) ds !! i = Some x ->
  exists d b, patch dev_rd dev_wr dir (Z.of_nat (32 * i)) (fun off b => <[off := 0x00]> b) fs = (Some tt, at_dev d b fs) /\ buf_ok b /\ length x = 32%nat /\
    dslots fs d ds = <[i := <[0%nat := 0x00]> x]> (dslots fs (dev fs) ds) /\ outside fs (dev fs) d ds.
Proof.
  intros G Hd Hx. destruct (dslots_length dev_rd dev_wr fs (dev fs) ds x ltac:(by eapply list_elem_of_lookup_2)) as [Lx Bx].
  destruct (patch_ok dev_rd dev_wr (fun off b => <[off := 0x00]> b) (fun e => <[0%nat := 0x00]> e) fs dir ds i x G Hd Hx) as (d & b & E & H).
  - intros k y Hk Ly. destruct (sector_split y k Hk Ly) as (pre & e & post & -> & Lp & Le & Ee). rewrite <- Ee, <- Lp.
    rewrite put_slot by (by rewrite length_insert). rewrite <- (insert_mid pre e post 0) by lia. by rewrite Nat.add_0_r.
  - by rewrite length_insert.
  - apply Forall_insert; [done|]. unfold is_u8. lia.
  - exists d, b. destruct H as (? & ? & ?). done.
Qed.

Lemma dir_append_ok fs dir ds new :
  geo fs -> buf_ok (sec fs) -> is_dir fs (dev fs) dir ds -> ds <> [] -> Forall (fun e => length e = 32%nat /\ bytes e) new ->
  (length (used (dslots fs (dev fs) ds)) + length new <= 16 * length ds)%nat ->
  exists d b, dir_append dev_rd dev_wr dir new fs = (Some tt, at_dev d b fs) /\ buf_ok b /\
    appended (dslots fs (dev fs) ds) new (dslots fs d ds) /\ outside fs (dev fs) d ds.
Proof.
  intros G Hb Hd Hne Hnew Hroom. pose proof (is_dir_short dev_rd dev_wr fs _ dir ds G Hd) as Hsh. assert (0 < length ds)%nat as Hl by (destruct ds; [done|cbn; lia]).
  destruct (dir_end_ok (turns (Z.of_nat (length ds) * 512)) fs dir ds 0 G Hd ltac:(lia)) as (b0 & Hb0 & E0); [pose proof (turns_enough ds); lia|].
  rewrite drop_0 in E0. cbn [plus] in E0. change (Z.of_nat (32 * 0)) with 0 in E0. destruct (used_split (dslots fs (dev fs) ds)) as (rest & Es & Hlive & Hrest).
  set (n := length (used (dslots fs (dev fs) ds))) in *. set (fs0 := set_sec b0 fs). specialize (Hb0 Hb).
  destruct (write_entries_ok new fs0 dir ds n (geo_sec b0 fs G) Hb0 Hd Hroom Hnew) as (d1 & b1 & E1 & Hb1 & S1 & O1).
  change (dslots fs0 (dev fs0) ds) with (dslots fs (dev fs) ds) in S1. change (dslots fs0 d1 ds) with (dslots fs d1 ds) in S1.
  assert (take n (dslots fs (dev fs) ds) = used (dslots fs (dev fs) ds)) as Etk by (rewrite Es at 1; apply take_app_length). rewrite Etk in S1.
  unfold dir_append. rewrite (bind_some _ _ fs _ _ (dir_total_ok dev_rd dev_wr fs dir ds G Hd)).
  rewrite bind_guard by (destruct (Z.eqb_spec (Z.of_nat (length ds) * 512) 0); [lia|done]). rewrite (bind_some _ _ fs _ _ E0).
  assert (dir_grow dev_rd dev_wr (length new) dir (Z.of_nat (32 * n)) (Z.of_nat (length new)) (Z.of_nat (length ds) * 512) fs0 = (Some (Z.of_nat (length ds) * 512), fs0)) as Eg
    by (apply dir_grow_none; rewrite u32_id by (unfold is_u32; lia); lia).
  rewrite (bind_some _ _ fs0 _ _ Eg), (bind_some _ _ fs0 _ _ E1). rewrite u32_id by (unfold is_u32; lia).
  destruct (Z.leb_spec (Z.of_nat (32 * (n + length new)) + 32) (Z.of_nat (length ds) * 512)) as [Hin|Hout].
  - destruct (lookup_lt_is_Some_2 (dslots fs d1 ds) (n + length new)%nat ltac:(rewrite length_dslots; lia)) as [x Hx].
    destruct (end_mark_ok (at_dev d1 b1 fs0) dir ds (n + length new) x) as (d & b & E2 & Hb2 & Lx & S2 & O2); auto.
    + by apply (geo_at dev_rd dev_wr), geo_sec.
    + by apply (outside_is_dir dev_rd dev_wr fs (dev fs)).
    + exists d, b. split; [exact E2|]. split; [done|]. split; [|by apply (outside_trans dev_rd dev_wr fs _ d1)].
      exists (<[0%nat := 0x00]> x :: drop (S (n + length new)) (dslots fs (dev fs) ds)). split; [|right; eexists _, _; split; [done|]; rewrite at_insert by lia; done].
      etransitivity; [exact S2|]. change (dslots (at_dev d1 b1 fs0) (dev (at_dev d1 b1 fs0)) ds) with (dslots fs d1 ds).
      assert (drop (n + length new) (dslots fs (dev fs) ds) !! 0%nat = Some x) as Hx0.
      { rewrite lookup_drop, Nat.add_0_r. rewrite S1 in Hx. rewrite app_assoc, lookup_app_r in Hx by (rewrite length_app; fold n; lia).
        rewrite length_app in Hx. fold n in Hx. rewrite Nat.sub_diag, lookup_drop, Nat.add_0_r in Hx. done. }
      rewrite S1, !app_assoc. rewrite insert_app_r_alt by (rewrite length_app; fold n; lia). rewrite length_app. fold n. rewrite Nat.sub_diag. f_equal.
      rewrite lookup_drop, Nat.add_0_r in Hx0. by rewrite (drop_S _ _ _ Hx0).
  - exists d1, b1. split; [done|]. split; [done|]. split; [|done]. exists []. split; [|by left]. rewrite S1. do 2 f_equal. apply drop_ge. rewrite length_dslots. lia.
Qed.

(** What a directory lists after new entries have been appended. *)
Lemma appended_listing es nm s a clu sz es' :
  closed_dir es -> appended es (entries_for nm s a clu sz) es' -> storable nm -> sfn_for nm s -> Z.land a 0x3F <> 0x0F -> 0 <= clu < 2 ^ 16 -> is_u32 sz ->
  exists ev, listing es' 0 lfn0 = listing es 0 lfn0 ++ [ev] /\ name ev = nm /\ cluster ev = clu /\ size ev = sz /\ attr ev = Z.land a 0x3F /\ closed_dir es'.
Proof.
  intros Hc (rest & -> & Hrest) Hn Hs Ha Hcl Hz. destruct (used_split es) as (r0 & _ & Hlive & _).
  rewrite listing_appended by done. rewrite entries_listed by done. exists (made nm s a clu sz (32 * Z.of_nat (length (used es)))).
  split; [destruct Hrest as [->|(e & r & -> & He)]; [done|by rewrite listing_end]|]. do 4 (split; [done|]).
  unfold closed_dir. rewrite app_assoc, used_live, (used_end rest Hrest), app_nil_r by (apply Forall_app; split; [done|by apply entries_for_live]).
  unfold entries_for. rewrite app_assoc, scan_state_app. cbn [scan_state]. destruct Hn as (_ & Hl & _). destruct Hs as (Ls & _).
  destruct (short_entry_fields s a (if long_needed nm then 0 else nt (build_short nm)) clu sz Ls Hcl Hz) as (_ & _ & -> & _).
  destruct (_ =? 229); [done|]. by destruct (Z.eqb_spec (Z.land a 63) 15).
Qed.

Lemma create_ok fs dir ds nm :
  geo fs -> buf_ok (sec fs) -> is_dir fs (dev fs) dir ds -> ds <> [] -> storable nm -> closed_dir (dslots fs (dev fs) ds) ->
  lookup_name nm (entries fs (dev fs) ds) = None ->
  (length (used (dslots fs (dev fs) ds)) + 21 <= 16 * length ds)%nat ->
  exists d b ev, create dev_rd dev_wr dir nm fs = (Some tt, at_dev d b fs) /\ buf_ok b /\ outside fs (dev fs) d ds /\ closed_dir (dslots fs d ds) /\
    entries fs d ds = entries fs (dev fs) ds ++ [ev] /\ name ev = nm /\ cluster ev = 0 /\ size ev = 0 /\ attr ev = ATTR_ARCH.
Proof.
  intros G Hb Hd Hne Hst Hcl Hlk Hroom. destruct (find_entry_ok dev_rd dev_wr fs dir ds nm G Hd Hne) as (b0 & Hb0 & E0). rewrite Hlk in E0. specialize (Hb0 Hb).
  destruct Hst as (Hn & Hlen & Hdot). destruct (build_entries_ok (set_sec b0 fs) dir ds nm ATTR_ARCH 0 0 (geo_sec b0 fs G) Hd Hn Hlen) as (b1 & s & Hb1 & E1 & Hs).
  pose proof Hs as (Ls & Bs & S0 & S5 & _). assert (Forall (fun e => length e = 32%nat /\ bytes e) (entries_for nm s ATTR_ARCH 0 0)) as Hes by (apply entries_for_ok; [done|vm_compute; done]).
  destruct (chunks_bounds nm Hlen) as [Hch _]. unfold MAX_LFN in Hch.
  destruct (dir_append_ok (set_sec b1 fs) dir ds (entries_for nm s ATTR_ARCH 0 0) (geo_sec b1 fs G) (Hb1 Hb0) Hd Hne Hes) as (d & b & E2 & Hb2 & Happ & Ho).
  { rewrite length_entries_for by done. change (dslots (set_sec b1 fs) (dev (set_sec b1 fs)) ds) with (dslots fs (dev fs) ds). destruct (long_needed nm); lia. }
  destruct (appended_listing _ nm s ATTR_ARCH 0 0 _ Hcl Happ) as (ev & El & H1 & H2 & H3 & H4 & H5); [done|done|done|lia|unfold is_u32; lia|].
  exists d, b, ev. split.
  - unfold create, attempt. rewrite E0. rewrite (bind_some _ _ _ _ _ E1). exact E2.
  - done.
Qed.

(** Writing to a name that is not there creates it, and is then as if it had been there. *)
Lemma write_creates fs dir nm off src fs0 fs1 ev fs2 :
  find_entry dev_rd dir nm fs = (None, fs0) -> create dev_rd dev_wr dir nm fs0 = (Some tt, fs1) -> find_entry dev_rd dir nm fs1 = (Some ev, fs2) ->
  write dev_rd dev_wr dir nm off src fs = write dev_rd dev_wr dir nm off src fs1.
Proof.
  intros E0 E1 E2. unfold write. rewrite (bind_some _ _ fs ev fs2) by (unfold attempt; rewrite E0; by rewrite (bind_some _ _ _ _ _ E1)).
  by rewrite (bind_some _ _ fs1 ev fs2) by (unfold attempt; by rewrite E2).
Qed.

(** The FAT of a device on which only a directory has changed has as much room. *)
Lemma outside_room fs d d' dir ds : geo fs -> is_dir fs d dir ds -> outside fs d d' ds -> room dev_rd dev_wr fs d' = room dev_rd dev_wr fs d.
Proof.
  intros G Hd Ho. unfold room, frees. do 2 f_equal. assert (forall c, c ∈ map Z.of_nat (seq 2 (Z.to_nat (max_cluster fs - 1))) -> fat dev_rd dev_wr fs d' 0 c = fat dev_rd dev_wr fs d 0 c) as H.
  { intros c (i & -> & Hi%elem_of_seq)%list_elem_of_fmap. apply (outside_fat dev_rd dev_wr fs d d' dir ds); auto; [destruct G; lia|unfold has_entry; destruct G; lia]. }
  induction (map _ _) as [|c l IH]; [done|]. rewrite !filter_cons. rewrite (H c ltac:(left)). rewrite IH by (intros x Hx; apply H; by right). done.
Qed.

(** A file made by the write itself. *)
Lemma write_new_ok fs dir ds nm off src :
  geo fs -> buf_ok (sec fs) -> is_dir fs (dev fs) dir ds -> ds <> [] -> storable nm -> closed_dir (dslots fs (dev fs) ds) ->
  lookup_name nm (entries fs (dev fs) ds) = None -> (length (used (dslots fs (dev fs) ds)) + 21 <= 16 * length ds)%nat ->
  0 <= off -> bytes src -> src <> [] -> off + Z.of_nat (length src) <= csize fs * room dev_rd dev_wr fs (dev fs) ->
  exists d b ev cs, write dev_rd dev_wr dir nm off src fs = (Some (Z.of_nat (length src)), at_dev d b fs) /\ buf_ok b /\ is_dir fs d dir ds /\
    lookup_name nm (entries fs d ds) = Some ev /\ name ev = nm /\ file dev_rd dev_wr fs d ds ev cs (overwrite [] (Z.to_nat off) src).
Proof.
  intros G Hb Hd Hne Hst Hcl Hlk Hroom Ho Hby Hsn Hsp. destruct (find_entry_ok dev_rd dev_wr fs dir ds nm G Hd Hne) as (b0 & Hb0 & E0). rewrite Hlk in E0. specialize (Hb0 Hb).
  destruct (create_ok (set_sec b0 fs) dir ds nm (geo_sec b0 fs G) Hb0 Hd Hne Hst Hcl Hlk Hroom) as (d1 & b1 & ev1 & E1 & Hb1 & O1 & Cl1 & En1 & N1 & C1 & S1 & A1).
  set (fs1 := at_dev d1 b1 fs). assert (geo fs1) as G1 by (by apply (geo_at dev_rd dev_wr)). assert (is_dir fs1 d1 dir ds) as Hd1 by (by apply (outside_is_dir dev_rd dev_wr fs (dev fs))).
  assert (lookup_name nm (entries fs1 d1 ds) = Some ev1) as Hl1.
  { etransitivity; [apply f_equal; exact En1|]. rewrite lookup_snoc. change (entries (set_sec b0 fs) (dev (set_sec b0 fs)) ds) with (entries fs (dev fs) ds). rewrite Hlk, A1, N1, ci_equal_refl. done. }
  assert (file dev_rd dev_wr fs1 d1 ds ev1 [] []) as F1 by (constructor; [exact C1|exact S1|done|by rewrite A1|intros c i Hc; by apply not_elem_of_nil in Hc]).
  destruct (find_entry_ok dev_rd dev_wr fs1 dir ds nm G1 Hd1 Hne) as (b2 & _ & E2). change (dev fs1) with d1 in E2. rewrite Hl1 in E2.
  rewrite (write_creates fs dir nm off src _ _ _ _ E0 E1 E2).
  destruct (write_ok dev_rd dev_wr fs1 dir ds nm ev1 [] [] off src G1 Hb1 Hd1 Hne Hl1 F1 Ho Hby Hsn) as (nf & new & d3 & d & b & E & Hb' & Hd' & En & F & _).
  { pose proof (outside_room fs (dev fs) d1 dir ds G Hd O1) as Er. change (room dev_rd dev_wr fs1 (dev fs1)) with (room dev_rd dev_wr fs d1). rewrite Er. cbn [length]. change (csize fs1) with (csize fs). lia. }
  exists d, b, (set_entry ev1 nf (Z.of_nat (length (overwrite [] (Z.to_nat off) src)))), new. split; [exact E|]. split; [done|]. split; [exact Hd'|]. split; [|split; [exact N1|]].
  - etransitivity; [apply f_equal; exact En|]. rewrite lookup_resized. etransitivity; [apply f_equal; exact Hl1|]. cbn [option_map]. unfold at_pos. by rewrite Z.eqb_refl.
  - destruct F as [Fc Fs Fd Fp Fa]. constructor; [exact Fc|exact Fs|exact Fd|exact Fp|exact Fa].
Qed.
End Create.
