(* ===== verification/FatUnlink.v ===== *)
(** Removing a file from a FAT16 directory. *)
From S2P Require Import Prelude Fat16 FatDir FatChain FatFile FatName FatDirSpec FatWrite FatCreate.
Local Open Scope vnu_scope.

(** ** Where the slots of an entry are *)

Definition is_long (e : list Z) : Prop := at_ e 0 <> 0x00 /\ at_ e 0 <> 0xE5 /\ Z.land (at_ e 11) 0x3F = 0x0F.

(** The slots [l] and [e] of the entry [ev], among those before and after. *)
Record placed (es : list (list Z)) (p : Z) (ev : Entry) (a l : list (list Z)) (e : list Z) (rest : list (list Z)) : Prop := {
  pl_split : es = a ++ l ++ e :: rest;
  pl_live : Forall live a;
  pl_long : Forall is_long l;
  pl_short : is_short e;
  pl_pos : pos ev = p + 32 * Z.of_nat (length a + length l);
  pl_lfn : lfn_pos ev = slots_at (p + 32 * Z.of_nat (length a)) (length l);
  pl_entry : ev = entry_of (scan_state (a ++ l) p lfn0) (pos ev) e
}.

(** What a scan has gathered are the slots just behind it. *)
Lemma lfn_add_seen st p e k :
  lfn_seen st = slots_at (p - 32 * Z.of_nat k) k ->
  lfn_seen (lfn_add st p e) = [] \/ lfn_seen (lfn_add st p e) = slots_at (p + 32 - 32 * Z.of_nat (S k)) (S k) \/
  lfn_seen (lfn_add st p e) = slots_at p 1.
Proof.
  intros Hs. unfold lfn_add. set (st0 := if lfn_n st =? 0 then _ else st).
  assert (lfn_seen st0 = [] \/ lfn_seen st0 = slots_at (p - 32 * Z.of_nat k) k) as H0 by (subst st0; destruct (_ =? 0); auto).
  destruct (_ || _); [by left|]. cbn [lfn_seen]. destruct H0 as [-> | ->]; [right; right; cbn; f_equal; lia|].
  right; left. rewrite slots_at_snoc. replace (p + 32 - 32 * Z.of_nat (S k)) with (p - 32 * Z.of_nat k) by lia. do 2 f_equal. lia.
Qed.

Lemma listing_placed post a0 l0 p ev :
  Forall live a0 -> Forall is_long l0 -> lfn_seen (scan_state (a0 ++ l0) p lfn0) = slots_at (p + 32 * Z.of_nat (length a0)) (length l0) ->
  ev ∈ listing post (p + 32 * Z.of_nat (length (a0 ++ l0))) (scan_state (a0 ++ l0) p lfn0) ->
  exists a l e rest, placed ((a0 ++ l0) ++ post) p ev a l e rest.
Proof.
  revert a0 l0; induction post as [|e post IH]; intros a0 l0 Ha Hl Hs Hin; [by apply not_elem_of_nil in Hin|]. cbn [listing] in Hin.
  assert (Forall live (a0 ++ l0)) as Hal by (apply Forall_app; split; [done|]; eapply Forall_impl; [exact Hl|]; by intros x (? & _)).
  destruct (Z.eqb_spec (at_ e 0) 0) as [|H0]; [by apply not_elem_of_nil in Hin|].
  set (q := p + 32 * Z.of_nat (length (a0 ++ l0))) in *. assert (q + 32 = p + 32 * Z.of_nat (length ((a0 ++ l0) ++ [e]))) as Eq by (subst q; rewrite (length_app _ [e]); cbn; lia).
  assert (forall st, scan_state ((a0 ++ l0) ++ [e]) p lfn0 = st -> lfn_seen st = [] -> ev ∈ listing post (q + 32) st ->
    exists a l e' rest, placed ((a0 ++ l0) ++ e :: post) p ev a l e' rest) as Hnext.
  { intros st Est Hst Hin'. destruct (IH ((a0 ++ l0) ++ [e]) []) as (a & l & e' & rest & P).
    - apply Forall_app. split; [done|]. by repeat constructor.
    - constructor.
    - by rewrite app_nil_r, Est.
    - by rewrite app_nil_r, Est, <- Eq.
    - exists a, l, e', rest. by rewrite app_nil_r, <- app_assoc in P. }
  assert (scan_state ((a0 ++ l0) ++ [e]) p lfn0 = if at_ e 0 =? 229 then lfn0 else if Z.land (at_ e 11) 63 =? 15 then lfn_add (scan_state (a0 ++ l0) p lfn0) q e else lfn0) as Es
    by (rewrite scan_state_app; done).
  destruct (Z.eqb_spec (at_ e 0) 229) as [|H5]; [by apply (Hnext lfn0)|]. destruct (Z.eqb_spec (Z.land (at_ e 11) 63) 15) as [Hf|Hf].
  - set (st := lfn_add (scan_state (a0 ++ l0) p lfn0) q e) in *.
    assert (lfn_seen (scan_state (a0 ++ l0) p lfn0) = slots_at (q - 32 * Z.of_nat (length l0)) (length l0)) as Hq by (rewrite Hs; f_equal; subst q; rewrite length_app; lia).
    destruct (lfn_add_seen (scan_state (a0 ++ l0) p lfn0) q e (length l0) Hq) as [Hn|[Hn|Hn]]; fold st in Hn.
    + by apply (Hnext st).
    + destruct (IH a0 (l0 ++ [e])) as (a & l & e' & rest & P); [done|apply Forall_app; split; [done|by repeat constructor]| | |].
      * rewrite app_assoc, Es, Hn, length_app, Nat.add_1_r. f_equal. subst q. rewrite length_app. lia.
      * by rewrite app_assoc, Es, <- Eq.
      * exists a, l, e', rest. by rewrite app_assoc, <- app_assoc in P.
    + destruct (IH (a0 ++ l0) [e]) as (a & l & e' & rest & P); [done|by repeat constructor| | |].
      * by rewrite Es, Hn.
      * by rewrite Es, <- Eq.
      * exists a, l, e', rest. by rewrite <- app_assoc in P.
  - apply elem_of_cons in Hin as [->|Hin]; [|by apply (Hnext lfn0)]. assert (is_short e) as Hsh by done. unfold entry_of at 1.
    set (st := scan_state (a0 ++ l0) p lfn0) in *. destruct ((0 <? lfn_n st) && (lfn_chk st =? sfn_checksum e)) eqn:El.
    + exists a0, l0, e, post. constructor; auto; cbn [pos lfn_pos]; [by rewrite <- app_assoc|subst q; rewrite length_app; lia|]. unfold entry_of. fold st. by rewrite El.
    + exists (a0 ++ l0), [], e, post. constructor; auto; cbn [pos lfn_pos length]; [subst q; lia|]. rewrite app_nil_r. unfold entry_of. fold st. by rewrite El.
Qed.

(** Every listed entry has its slots. *)
Lemma listed_placed es p ev : ev ∈ listing es p lfn0 -> exists a l e rest, placed es p ev a l e rest.
Proof. intros H. apply (listing_placed es [] [] p ev); [constructor|constructor|done|]. by rewrite Z.add_0_r. Qed.

Definition killed (e : list Z) : list Z := <[0%nat := 0xE5]> e.

(** The listing around an entry, and without it. *)
Lemma listing_removed es p ev a l e rest :
  placed es p ev a l e rest -> (forall x, x ∈ es -> length x = 32%nat) ->
  exists before after, listing es p lfn0 = before ++ ev :: after /\ listing (a ++ map killed l ++ killed e :: rest) p lfn0 = before ++ after.
Proof.
  intros P Hlen. destruct P as [-> Pa Pl Ps Pp Pf Pe]. exists (listing a p lfn0), (listing rest (p + 32 * Z.of_nat (length a + length l) + 32) lfn0).
  assert (forall l st q, Forall is_long l -> listing (l ++ e :: rest) q st = entry_of (scan_state l q st) (q + 32 * Z.of_nat (length l)) e :: listing rest (q + 32 * Z.of_nat (length l) + 32) lfn0) as Hl.
  { induction l0 as [|x l0 IH]; intros st q Hx.
    - cbn [app listing scan_state length]. destruct Ps as (H0 & H5 & Hf). destruct (Z.eqb_spec (at_ e 0) 0); [done|]. destruct (Z.eqb_spec (at_ e 0) 229); [done|]. destruct (Z.eqb_spec (Z.land (at_ e 11) 63) 15); [done|].
      rewrite Z.mul_0_r, Z.add_0_r. done.
    - apply Forall_cons in Hx as [(H0 & H5 & Hf) Hx]. cbn [app listing scan_state length]. destruct (Z.eqb_spec (at_ x 0) 0); [done|]. destruct (Z.eqb_spec (at_ x 0) 229); [done|].
      rewrite Hf, Z.eqb_refl, IH by done. do 2 f_equal; [|f_equal]; lia. }
  assert (forall l st q, (forall x, x ∈ l -> length x = 32%nat) -> listing (map killed l ++ killed e :: rest) q st = listing rest (q + 32 * Z.of_nat (length l) + 32) lfn0) as Hk.
  { assert (forall x, length x = 32%nat -> at_ (killed x) 0 = 0xE5) as Hd by (intros x Lx; unfold killed; rewrite at_insert by lia; done).
    induction l0 as [|x l0 IH]; intros st q Hx; cbn [map app listing length].
    - rewrite Hd by (apply Hlen; rewrite !elem_of_app; right; right; left). cbn. f_equal. lia.
    - rewrite Hd by (apply Hx; left). cbn. rewrite IH by (intros y Hy; apply Hx; by right). f_equal. lia. }
  split.
  - rewrite listing_app, Hl by done. f_equal. rewrite Pe at 1. rewrite Pp, scan_state_app. f_equal; [f_equal|f_equal]; lia.
  - rewrite listing_app, Hk; [|intros x Hx; apply Hlen; rewrite !elem_of_app; tauto|done]. f_equal. f_equal. lia.
Qed.

(** A scan goes on behind it as before. *)
Lemma steady_removed es p ev a l e rest : placed es p ev a l e rest -> (forall x, x ∈ es -> length x = 32%nat) -> steady es (a ++ map killed l ++ killed e :: rest).
Proof.
  intros [-> Pa Pl (H0 & H5 & Hf) _ _ _] Hlen. assert (forall x, length x = 32%nat -> at_ (killed x) 0 = 0xE5) as Hd by (intros x Lx; unfold killed; rewrite at_insert by lia; done).
  assert (forall x, x ∈ l ++ [e] -> length x = 32%nat) as Hl by (intros x Hx; apply Hlen; apply elem_of_app in Hx as [Hx| ->%list_elem_of_singleton]; rewrite !elem_of_app, elem_of_cons; tauto).
  assert (Forall live (l ++ [e])) as L1 by (apply Forall_app; split; [by eapply Forall_impl; [exact Pl|intros x (? & _)]|by apply Forall_singleton]).
  assert (Forall live (map killed (l ++ [e]))) as L2.
  { apply Forall_forall. intros x (y & -> & Hy)%list_elem_of_fmap. unfold live. rewrite Hd by (by apply Hl). done. }
  replace (a ++ l ++ e :: rest) with ((a ++ (l ++ [e])) ++ rest) by (by rewrite <- !app_assoc). replace (a ++ map killed l ++ killed e :: rest) with ((a ++ map killed (l ++ [e])) ++ rest) by (by rewrite map_app, <- !app_assoc).
  unfold steady, closed_dir. rewrite !used_live by (by apply Forall_app). rewrite !length_app, length_map. split; [by rewrite length_app|].
  rewrite !scan_state_app, !length_app, !length_map, map_app, !scan_state_app. cbn [map scan_state]. rewrite Hd by (apply Hl, elem_of_app; right; left). cbn.
  destruct (Z.eqb_spec (at_ e 0) 229); [done|]. destruct (Z.eqb_spec (Z.land (at_ e 11) 63) 15); [done|]. by rewrite length_app.
Qed.

Section Unlink.
Context {D : Type} (dev_rd : D -> Z -> option (list Z)) (dev_wr : D -> Z -> list Z -> option D) `{!Disk dev_rd dev_wr}.
Abbreviation Vol := (@Fs D).
Abbreviation geo := (geo dev_rd dev_wr).
Abbreviation is_dir := (is_dir dev_rd dev_wr).
Abbreviation entries := (entries dev_rd dev_wr).
Abbreviation dslots := (dslots dev_rd dev_wr).
Abbreviation outside := (outside dev_rd dev_wr).
Abbreviation fat := (fat dev_rd dev_wr).
Abbreviation file := (file dev_rd dev_wr).

Lemma mark_deleted_ok fs dir ds i e :
  geo fs -> is_dir fs (dev fs) dir ds -> dslots fs (dev fs) ds !! i = Some e ->
  exists d b, mark_deleted dev_rd dev_wr dir (Z.of_nat (32 * i)) fs = (Some tt, at_dev d b fs) /\ buf_ok b /\
    dslots fs d ds = <[i := killed e]> (dslots fs (dev fs) ds) /\ outside fs (dev fs) d ds.
Proof.
  intros G Hd Hx. destruct (dslots_length dev_rd dev_wr fs (dev fs) ds e ltac:(by eapply list_elem_of_lookup_2)) as [Lx Bx].
  apply (patch_ok dev_rd dev_wr (fun off b => <[off := 0xE5]> b) killed fs dir ds i e G Hd Hx).
  - intros k y Hk Ly. destruct (sector_split y k Hk Ly) as (pre & x & post & -> & Lp & Le & Ee). rewrite <- Ee, <- Lp.
    rewrite put_slot by (unfold killed; by rewrite length_insert). unfold killed. rewrite <- (insert_mid pre x post 0) by lia. by rewrite Nat.add_0_r.
  - unfold killed. by rewrite length_insert.
  - apply Forall_insert; [done|]. unfold is_u8. lia.
Qed.

Lemma slots_at_cons p n : slots_at p (S n) = p :: slots_at (p + 32) n.
Proof.
  unfold slots_at. cbn [seq map]. rewrite Z.mul_0_r, Z.add_0_r. f_equal. rewrite <- seq_shift, map_map. apply map_ext. intros i. lia.
Qed.

(** The slots of a long name, one after the other. *)
Lemma mark_all_ok l fs dir ds a rest :
  geo fs -> buf_ok (sec fs) -> is_dir fs (dev fs) dir ds -> dslots fs (dev fs) ds = a ++ l ++ rest ->
  exists d b, mark_all dev_rd dev_wr dir (slots_at (32 * Z.of_nat (length a)) (length l)) fs = (Some tt, at_dev d b fs) /\ buf_ok b /\
    dslots fs d ds = a ++ map killed l ++ rest /\ outside fs (dev fs) d ds.
Proof.
  revert fs a; induction l as [|e l IH]; intros fs a G Hb Hd Hs; cbn [length].
  - exists (dev fs), (sec fs). split; [by destruct fs|]. split; [done|]. split; [done|]. by intros x _.
  - rewrite slots_at_cons. cbn [mark_all].
    destruct (mark_deleted_ok fs dir ds (length a) e G Hd) as (d1 & b1 & E1 & Hb1 & S1 & O1); [rewrite Hs; by apply list_lookup_middle|].
    replace (32 * Z.of_nat (length a)) with (Z.of_nat (32 * length a)) by lia. rewrite (bind_some _ _ fs _ _ E1).
    destruct (IH (at_dev d1 b1 fs) (a ++ [killed e])) as (d & b & E & Hb' & S2 & O2); [by apply (geo_at dev_rd dev_wr)|done|by apply (outside_is_dir dev_rd dev_wr fs (dev fs))| |].
    + etransitivity; [exact S1|]. rewrite Hs. replace (length a) with (length a + 0)%nat by lia. rewrite insert_app_r. by rewrite <- app_assoc.
    + exists d, b. split; [|split; [done|split; [by rewrite <- app_assoc in S2|by apply (outside_trans dev_rd dev_wr fs _ d1)]]].
      etransitivity; [|exact E]. f_equal. f_equal. rewrite length_app. cbn [length]. lia.
Qed.

(** The entry of the file and its long name are marked. *)
Lemma remove_entry_ok fs dir ds ev :
  geo fs -> buf_ok (sec fs) -> is_dir fs (dev fs) dir ds -> ev ∈ entries fs (dev fs) ds ->
  exists d b before after, bind (mark_all dev_rd dev_wr dir (lfn_pos ev)) (fun _ => mark_deleted dev_rd dev_wr dir (pos ev)) fs = (Some tt, at_dev d b fs) /\ buf_ok b /\
    outside fs (dev fs) d ds /\ entries fs (dev fs) ds = before ++ ev :: after /\ entries fs d ds = before ++ after /\
    steady (dslots fs (dev fs) ds) (dslots fs d ds).
Proof.
  intros G Hb Hd Hev. destruct (listed_placed _ _ _ Hev) as (a & l & e & rest & P). pose proof P as [Es _ _ _ Pp Pf _].
  destruct (listing_removed _ _ _ _ _ _ _ P ltac:(intros x Hx; by apply (dslots_length dev_rd dev_wr fs (dev fs) ds))) as (before & after & L1 & L2).
  destruct (mark_all_ok l fs dir ds a (e :: rest) G Hb Hd Es) as (d1 & b1 & E1 & Hb1 & S1 & O1).
  destruct (mark_deleted_ok (at_dev d1 b1 fs) dir ds (length a + length l) e) as (d & b & E2 & Hb2 & S2 & O2);
    [by apply (geo_at dev_rd dev_wr)|by apply (outside_is_dir dev_rd dev_wr fs (dev fs))| |].
  { change (dslots (at_dev d1 b1 fs) (dev (at_dev d1 b1 fs)) ds) with (dslots fs d1 ds). rewrite S1, app_assoc. apply list_lookup_middle. by rewrite length_app, length_map. }
  exists d, b, before, after. split.
  - rewrite Pf, Pp, Z.add_0_l. rewrite (bind_some _ _ fs _ _ E1). etransitivity; [|exact E2]. f_equal. lia.
  - split; [done|]. split; [by apply (outside_trans dev_rd dev_wr fs _ d1)|]. split; [exact L1|]. assert (dslots fs d ds = a ++ map killed l ++ killed e :: rest) as S3.
    { etransitivity; [exact S2|]. change (dslots (at_dev d1 b1 fs) (dev (at_dev d1 b1 fs)) ds) with (dslots fs d1 ds). rewrite S1, !app_assoc.
      replace (length a + length l)%nat with (length (a ++ map killed l) + 0)%nat by (rewrite length_app, length_map; lia). by rewrite insert_app_r. }
    unfold FatDirSpec.entries. rewrite S3. split; [done|]. apply (steady_removed _ _ _ _ _ _ _ P). intros x Hx. by apply (dslots_length dev_rd dev_wr fs (dev fs) ds).
Qed.

Lemma unlink_ok fs dir ds nm ev cs data :
  geo fs -> buf_ok (sec fs) -> is_dir fs (dev fs) dir ds -> ds <> [] ->
  lookup_name nm (entries fs (dev fs) ds) = Some ev -> file fs (dev fs) ds ev cs data ->
  exists d1 d b before after, unlink dev_rd dev_wr dir nm fs = (Some tt, at_dev d b fs) /\ buf_ok b /\ is_dir fs d dir ds /\
    entries fs (dev fs) ds = before ++ ev :: after /\ entries fs d ds = before ++ after /\
    kept dev_rd dev_wr fs (dev fs) d1 cs [] /\ (forall i x, 0 <= i < num_fats fs -> x ∈ cs -> fat fs d1 i x = 0) /\ outside fs d1 d ds /\ is_dir fs d1 dir ds /\
    steady (dslots fs (dev fs) ds) (dslots fs d ds).
Proof.
  intros G Hb Hd Hne Hlk [Fc Fs Fd Fp Fa]. destruct (find_entry_ok dev_rd dev_wr fs dir ds nm G Hd Hne) as (b0 & Hb0 & E0). rewrite Hlk in E0. specialize (Hb0 Hb).
  assert (exists d1 b1, (if cluster ev =? 0 then ret tt else free_chain dev_rd dev_wr (cluster ev)) (set_sec b0 fs) = (Some tt, at_dev d1 b1 fs) /\ buf_ok b1 /\
    kept dev_rd dev_wr fs (dev fs) d1 cs [] /\ (forall i x, 0 <= i < num_fats fs -> x ∈ cs -> fat fs d1 i x = 0)) as (d1 & b1 & E1 & Hb1 & K & Z0).
  { destruct cs as [|c cs].
    - cbn in Fc. rewrite Fc. exists (dev fs), b0. split; [done|]. split; [done|]. split; [apply kept_refl|]. intros i x _ Hx. by apply not_elem_of_nil in Hx.
    - destruct Fc as [-> Hc]. pose proof (linked_in _ _ _ c (proj1 Hc) ltac:(left)). destruct (Z.eqb_spec c 0); [lia|].
      destruct (free_chain_ok dev_rd dev_wr (set_sec b0 fs) c cs (geo_sec dev_rd dev_wr b0 fs G) Hb0 Hc) as (d1 & b1 & E1 & Hb1 & K & Z0).
      exists d1, b1. split; [exact E1|]. split; [done|]. split; [destruct K; by constructor|exact Z0]. }
  assert (apart fs [] ds) as Hnil by (intros c i Hc; by apply not_elem_of_nil in Hc).
  destruct (kept_dir dev_rd dev_wr fs (dev fs) d1 cs [] dir ds G Hd K Fa Hnil) as [Hd1 Hs1].
  assert (entries fs d1 ds = entries fs (dev fs) ds) as He1 by (unfold FatDirSpec.entries; by rewrite Hs1).
  destruct (remove_entry_ok (at_dev d1 b1 fs) dir ds ev (geo_at dev_rd dev_wr d1 b1 fs G) Hb1 Hd1) as (d & b & before & after & E2 & Hb2 & O2 & L1 & L2 & St).
  { change (ev ∈ entries fs d1 ds). rewrite He1. by eapply lookup_in. }
  exists d1, d, b, before, after. split.
  - unfold unlink. rewrite (bind_some _ _ fs _ _ E0). rewrite bind_guard by (by rewrite Fp). rewrite (bind_some _ _ _ _ _ E1). exact E2.
  - split; [done|]. split; [by apply (outside_is_dir dev_rd dev_wr fs d1)|]. split; [by rewrite <- He1|]. split; [done|]. split; [done|]. split; [done|]. split; [done|]. split; [done|]. rewrite <- Hs1. exact St.
Qed.
End Unlink.
