(* ===== verification/FatFormat.v ===== *)
(** Laying down a FAT16 volume, and mounting it. *)
From S2P Require Import Prelude Fat16 FatDir FatChain FatFile FatName FatDirSpec FatWrite FatCreate.
Local Open Scope vnu_scope.

(** ** The layout *)

Definition root_size : Z := (ROOT_ENTRIES * 32 + SECTOR - 1) / SECTOR.
Definition clusters_for (n spc fatsz : Z) : Z := (n - RESERVED - NUM_FATS * fatsz - root_size) / spc.
Definition fat_for (n spc fatsz : Z) : Z := ((clusters_for n spc fatsz + 2) * 2 + SECTOR - 1) / SECTOR.

Lemma pick_spc_power n : In (pick_spc 8 n 1) [1; 2; 4; 8; 16; 32; 64; 128].
Proof.
  assert (forall k s, In s [1; 2; 4; 8; 16; 32; 64; 128] -> In (pick_spc k n s) [1; 2; 4; 8; 16; 32; 64; 128]) as H; [|apply H; by left].
  induction k as [|k IH]; intros s Hs; cbn [pick_spc]; [done|]. destruct (Z.ltb_spec s 128) as [Hlt|]; [|by rewrite andb_false_r]. rewrite andb_true_r.
  destruct (_ <? _); [|done]. apply IH. cbn [In] in Hs. destruct_or! Hs; subst s; cbn; tauto || lia.
Qed.

Lemma fat_for_mono n spc f f' : 0 < spc -> f <= f' -> fat_for n spc f' <= fat_for n spc f.
Proof.
  intros Hs Hf. unfold fat_for, clusters_for, NUM_FATS, SECTOR. apply Z.div_le_mono; [lia|].
  assert ((n - RESERVED - 2 * f' - root_size) / spc <= (n - RESERVED - 2 * f - root_size) / spc) by (apply Z.div_le_mono; lia). lia.
Qed.

(** The second turn of the loop ends it: the fuel is enough. *)
Lemma pick_fatsz_ends k n spc : 0 < spc -> pick_fatsz (S (S k)) n spc root_size 1 = pick_fatsz 2 n spc root_size 1.
Proof.
  intros Hs. cbn [pick_fatsz]. fold (clusters_for n spc 1). fold (fat_for n spc 1). destruct (n <=? _); [done|]. destruct (Z.leb_spec (fat_for n spc 1) 1); [done|].
  destruct (0xFFFF <? fat_for n spc 1); [done|]. destruct (n <=? _); [done|]. set (f := fat_for n spc 1) in *. fold (clusters_for n spc f). fold (fat_for n spc f).
  assert (fat_for n spc f <= f) as Hle by (apply (fat_for_mono n spc 1 f); lia). by rewrite (proj2 (Z.leb_le _ _) Hle).
Qed.

(** The size found covers the clusters there are, and leaves room for them. *)
Lemma pick_fatsz_some fuel n spc f0 f :
  0 < f0 <= 0xFFFF -> pick_fatsz fuel n spc root_size f0 = Some f -> 0 < f <= 0xFFFF /\ RESERVED + NUM_FATS * f + root_size < n /\ fat_for n spc f <= f.
Proof.
  revert f0; induction fuel as [|fuel IH]; intros f0 H0; cbn [pick_fatsz]; [done|]. fold (clusters_for n spc f0). fold (fat_for n spc f0).
  destruct (Z.leb_spec n (RESERVED + NUM_FATS * f0 + root_size)); [done|]. destruct (Z.leb_spec (fat_for n spc f0) f0); [intros [= <-]; done|].
  destruct (Z.ltb_spec 0xFFFF (fat_for n spc f0)); [done|]. apply IH. lia.
Qed.

Lemma fat_covers n spc f : fat_for n spc f <= f -> (clusters_for n spc f + 2) * 2 <= f * 512.
Proof.
  unfold fat_for, SECTOR. intros H. pose proof (Z_div_mod_eq_full ((clusters_for n spc f + 2) * 2 + 512 - 1) 512).
  pose proof (Z.mod_pos_bound ((clusters_for n spc f + 2) * 2 + 512 - 1) 512 ltac:(lia)). lia.
Qed.

(** ** The boot sector *)

Lemma length_copy_padded n s : length (copy_padded n s) = n.
Proof. unfold copy_padded. apply length_pad. destruct s; [rewrite length_take; lia|cbn; lia]. Qed.

Lemma boot_fields lba n spc f oem label id :
  0 < spc <= 128 -> 0 < f <= 0xFFFF -> is_u32 n ->
  let b := boot_sector lba n spc f oem label id in
  length b = 512%nat /\ at_ b 510 = 0x55 /\ at_ b 511 = 0xAA /\ at_ b 11 = 0 /\ at_ b 12 = 2 /\ at_ b 13 = spc /\ at_ b 14 = 1 /\ at_ b 15 = 0 /\ at_ b 16 = 2 /\
  at_ b 17 = 0 /\ at_ b 18 = 2 /\ at_ b 22 = u8 f /\ at_ b 23 = u8 (Z.shiftr f 8) /\
  (if n <? 65536 then at_ b 19 = u8 n /\ at_ b 20 = u8 (Z.shiftr n 8)
   else at_ b 19 = 0 /\ at_ b 20 = 0 /\ at_ b 32 = u8 n /\ at_ b 33 = u8 (Z.shiftr n 8) /\ at_ b 34 = u8 (Z.shiftr n 16) /\ at_ b 35 = u8 (Z.shiftr n 24)).
Proof.
  intros Hs Hf Hn. assert (u8 spc = spc) as Es by (apply u8_id; unfold is_u8; lia). assert (u16 f = f) as Ef by (apply Z.mod_small; lia).
  cbv zeta. unfold boot_sector. rewrite Es, Ef. pose proof (length_copy_padded 8 oem) as Lo. pose proof (length_copy_padded 11 label) as Ll.
  set (o := copy_padded 8 oem) in *. set (l := copy_padded 11 label) in *. clearbody o l. explode o Lo. explode l Ll. destruct (Z.ltb_spec n 65536).
  - assert (u16 n = n) as -> by (unfold is_u32 in Hn; apply Z.mod_small; lia). repeat split; reflexivity.
  - repeat split; reflexivity.
Qed.

Lemma lor16 v : 0 <= v < 2 ^ 16 -> Z.lor (u8 v) (Z.shiftl (u8 (Z.shiftr v 8)) 8) = v.
Proof.
  intros Hv. change (2 ^ 16) with 65536 in Hv. rewrite Z.shiftr_div_pow2 by lia. unfold u8. change (2 ^ 8) with 256. pose proof (Z.mod_pos_bound v 256 ltac:(lia)).
  assert (0 <= v / 256 < 256) by (split; [apply Z.div_pos; lia|apply Z.div_lt_upper_bound; lia]). rewrite (Z.mod_small (v / 256)) by lia.
  rewrite or_shift by lia. change (2 ^ 8) with 256. pose proof (Z_div_mod_eq_full v 256). lia.
Qed.

(** ** The volume laid down *)

Section Format.
Context {D : Type} (dev_rd : D -> Z -> option (list Z)) (dev_wr : D -> Z -> list Z -> option D) `{!Disk dev_rd dev_wr}.
Abbreviation geo := (geo dev_rd dev_wr).
Abbreviation fat := (fat dev_rd dev_wr).

(** A partition of [n] sectors that FAT16 can manage: the sectors of a cluster, the size of a FAT. *)
Definition fits_fat16 (n spc f : Z) : Prop :=
  spc = pick_spc 8 n 1 /\ pick_fatsz 3 n spc root_size 1 = Some f /\ FAT16_MIN_CLUSTERS <= clusters_for n spc f /\ clusters_for n spc f + 2 <= FAT16_MAX_CLUSTER.

(** The volume with that layout. *)
Definition laid (d : D) (lba n spc f : Z) (b : list Z) : @Fs D :=
  mkFs d lba n spc f NUM_FATS ROOT_ENTRIES root_size RESERVED (RESERVED + NUM_FATS * f) (RESERVED + NUM_FATS * f + root_size) (clusters_for n spc f + 1) true b.

Lemma fits_bounds n spc f : fits_fat16 n spc f -> 1 <= spc <= 128 /\ Z.land spc (spc - 1) = 0 /\ 0 < f <= 0xFFFF /\ RESERVED + NUM_FATS * f + root_size < n /\ fat_for n spc f <= f.
Proof.
  intros (-> & Hf & _ & _). pose proof (pick_spc_power n) as Hp. destruct (pick_fatsz_some 3 n _ 1 f ltac:(lia) Hf) as (H1 & H2 & H3).
  split; [|split; [|done]]; cbn [In] in Hp; destruct_or! Hp; rewrite <- ?Hp; try done; try lia.
Qed.

Lemma geo_laid d lba n spc f b : fits_fat16 n spc f -> 0 <= lba -> lba + n <= dsize -> dsize <= 2 ^ 32 -> geo (laid d lba n spc f b).
Proof.
  intros H Hl Hn Hd. destruct (fits_bounds n spc f H) as (Hs & _ & Hf & Hr & Hc). destruct H as (_ & _ & Hmin & Hmax). pose proof (fat_covers n spc f Hc) as Hcov.
  unfold FAT16_MIN_CLUSTERS, FAT16_MAX_CLUSTER, NUM_FATS, RESERVED in *. change root_size with 32 in *.
  assert (clusters_for n spc f * spc <= n - 1 - 2 * f - 32) as Hd' by (unfold clusters_for, NUM_FATS, RESERVED; change root_size with 32; rewrite Z.mul_comm; apply Z.mul_div_le; lia).
  constructor; cbn [laid part_lba first_fat fatsz num_fats first_root root_dir_sectors first_data Fat16.spc max_cluster]; unfold NUM_FATS, RESERVED; change root_size with 32; try lia.
Qed.

Lemma mount_laid d lba n spc f oem label id :
  fits_fat16 n spc f -> is_u32 lba -> is_u32 n -> dev_rd d lba = Some (boot_sector lba n spc f oem label id) ->
  mount dev_rd d lba = Some (laid d lba n spc f (boot_sector lba n spc f oem label id)).
Proof.
  intros H Hl Hn Hr. destruct (fits_bounds n spc f H) as (Hs & Hp & Hf & Hroom & _). destruct H as (_ & _ & Hmin & Hmax).
  destruct (boot_fields lba n spc f oem label id ltac:(lia) Hf Hn) as (_ & B510 & B511 & B11 & B12 & B13 & B14 & B15 & B16 & B17 & B18 & B22 & B23 & Bt).
  unfold mount. rewrite Z.add_0_r, u32_id, Hr by done. set (b := boot_sector _ _ _ _ _ _ _) in *. cbn [plus]. rewrite B510, B511, B11, B12, B13, B14, B15, B16, B17, B18, B22, B23.
  change (Z.lor 0 (Z.shiftl 2 8)) with 512. change (Z.lor 1 (Z.shiftl 0 8)) with 1. rewrite (lor16 f) by lia.
  assert ((if Z.lor (at_ b 19) (Z.shiftl (at_ b 20) 8) =? 0 then rd32 (drop 32 b) else Z.lor (at_ b 19) (Z.shiftl (at_ b 20) 8)) = n) as ->.
  { destruct (Z.ltb_spec n 65536).
    - destruct Bt as [-> ->]. rewrite lor16 by (unfold is_u32 in Hn; lia). destruct (Z.eqb_spec n 0); [unfold RESERVED, NUM_FATS in Hroom; change root_size with 32 in Hroom; lia|done].
    - destruct Bt as (-> & -> & B32 & B33 & B34 & B35). change (Z.lor 0 (Z.shiftl 0 8) =? 0) with true. cbv iota.
      unfold rd32. rewrite !at_drop. cbn [plus]. rewrite B32, B33, B34, B35. exact (le32_roundtrip n Hn). }
  change (negb (85 =? 0x55) || negb (170 =? 0xAA)) with false. change (negb (512 =? SECTOR)) with false. cbv iota.
  rewrite Hp. destruct (Z.eqb_spec spc 0); [lia|]. change (0 =? 0) with true. cbn [negb orb]. change (1 =? 0) with false. change (2 =? 0) with false.
  destruct (Z.eqb_spec f 0); [lia|]. cbn [orb]. change ((512 * 32 + SECTOR - 1) / SECTOR) with root_size.
  destruct (Z.leb_spec n (1 + 2 * f + root_size)); [unfold RESERVED, NUM_FATS in *; lia|]. replace (n - (1 + 2 * f + root_size)) with (n - RESERVED - NUM_FATS * f - root_size) by (unfold RESERVED, NUM_FATS; lia).
  fold (clusters_for n spc f). destruct (Z.ltb_spec (clusters_for n spc f) FAT16_MIN_CLUSTERS); [lia|]. destruct (Z.ltb_spec FAT16_MAX_CLUSTER (clusters_for n spc f + 2)); [lia|]. done.
Qed.

(** ** Running [format] *)

Definition zeros : list Z := replicate 512 0.

Lemma buf_zeros : buf_ok zeros.
Proof. split; [done|]. apply Forall_replicate. unfold is_u8. lia. Qed.

Lemma zero_sectors_ok fs rel count :
  geo fs -> 0 <= rel -> 0 <= count -> (forall i, 0 <= i < count -> in_volume fs (rel + i)) ->
  exists d, zero_sectors dev_wr rel count fs = (Some tt, at_dev d zeros fs) /\
    forall l, sector d l = if (part_lba fs + rel <=? l) && (l <? part_lba fs + rel + count) then zeros else sector (dev fs) l.
Proof.
  intros G H0 Hc Hv. unfold zero_sectors, upd_sec. rewrite (bind_some _ _ fs tt (set_sec zeros fs)) by done.
  destruct (zero_loop_ok dev_rd dev_wr (Z.to_nat count) (set_sec zeros fs) rel) as (d & E & Hs); [by apply (geo_sec dev_rd dev_wr)|done|done|intros i Hi; apply Hv; lia|].
  exists d. rewrite Z2Nat.id in Hs by lia. done.
Qed.

(** The first entries of one copy of the FAT. *)
Definition marked (b : list Z) : list Z := wr16 (wr16 b 0 0xFFF8) 2 0xFFFF.

Lemma mark_fats_ok k c fs :
  geo fs -> 0 <= c -> c + Z.of_nat k <= num_fats fs ->
  exists d b, mark_fats dev_rd dev_wr k c fs = (Some tt, at_dev d b fs) /\ (buf_ok (sec fs) -> buf_ok b) /\
    (forall i, c <= i < c + Z.of_nat k -> sector d (part_lba fs + (first_fat fs + i * fatsz fs)) = marked (sector (dev fs) (part_lba fs + (first_fat fs + i * fatsz fs)))) /\
    forall l, (forall i, c <= i < c + Z.of_nat k -> l <> part_lba fs + (first_fat fs + i * fatsz fs)) -> sector d l = sector (dev fs) l.
Proof.
  revert c fs; induction k as [|k IH]; intros c fs G H0 Hk; cbn [mark_fats].
  { exists (dev fs), (sec fs). split; [by destruct fs|]. split; [done|]. split; [intros; lia|done]. }
  assert (fat_sector fs c 0 = first_fat fs + c * fatsz fs) as Es by (unfold fat_sector; rewrite Z.mul_0_l, Z.div_0_l by lia; lia).
  destruct (fat_sector_in dev_rd dev_wr fs c 0 G ltac:(unfold has_entry; destruct G; lia) ltac:(lia)) as [_ Hin]. rewrite Es in Hin.
  rewrite bind_gets, (volume_u32 dev_rd dev_wr fs _ G Hin). rewrite (bind_some _ _ fs _ _ (load_ok dev_rd dev_wr fs _ G Hin)).
  set (s := first_fat fs + c * fatsz fs) in *. set (b1 := marked (sect dev_rd dev_wr fs s)).
  assert (buf_ok b1) as Hb1 by (destruct (sector_ok (dev fs) (part_lba fs + s)) as [L B]; split; [unfold b1, marked, wr16; rewrite !length_put; exact L|by apply bytes_wr16, bytes_wr16]).
  rewrite (bind_some _ _ (set_sec (sect dev_rd dev_wr fs s) fs) tt (set_sec b1 fs)) by done.
  destruct (store_ok dev_rd dev_wr (set_sec b1 fs) s (geo_sec dev_rd dev_wr b1 fs G) Hin Hb1) as (d1 & E1 & S1). rewrite (bind_some _ _ _ _ _ E1).
  assert (forall l, sector d1 l = if l =? part_lba fs + s then b1 else sector (dev fs) l) as S1' by exact S1.
  destruct (IH (c + 1) (at_dev d1 b1 fs)) as (d & b & E & Hb & Hin' & Hout); [by apply (geo_at dev_rd dev_wr)|lia|cbn; lia|].
  cbn [part_lba first_fat fatsz dev at_dev set_sec set_dev] in Hin', Hout.
  assert (forall i j, i <> j -> i * fatsz fs <> j * fatsz fs) as Hne by (intros i j Hij E'; apply Hij; apply Z.mul_reg_r with (fatsz fs); [destruct G; lia|done]).
  exists d, b. split; [exact E|]. split; [intros _; by apply Hb|]. split.
  - intros i Hi. destruct (decide (i = c)) as [->|Hic].
    + rewrite Hout by (intros i Hi'; specialize (Hne i c ltac:(lia)); lia). rewrite S1'. unfold s. by rewrite Z.eqb_refl.
    + rewrite Hin' by lia. rewrite S1'. specialize (Hne i c Hic). destruct (Z.eqb_spec (part_lba fs + (first_fat fs + i * fatsz fs)) (part_lba fs + s)); [unfold s in *; lia|done].
  - intros l Hl. rewrite Hout by (intros i Hi; apply Hl; lia). rewrite S1'. destruct (Z.eqb_spec l (part_lba fs + s)) as [->|]; [exfalso; apply (Hl c); [lia|done]|done].
Qed.

Definition opt_bytes (s : option (list Z)) : Prop := match s with Some s => bytes s | None => True end.

Lemma bytes_copy_padded n s : opt_bytes s -> bytes (copy_padded n s).
Proof. intros Hs. apply bytes_pad. destruct s; [by apply Forall_take|constructor]. Qed.

Lemma bytes_wr32 b i v : bytes b -> bytes (wr32 b i v).
Proof. intros Hb. apply bytes_put; [done|]. repeat constructor; apply u8_range. Qed.

Lemma bytes_set b i x : is_u8 x -> bytes b -> bytes (<[i := x]> b).
Proof. intros Hx Hb. by apply Forall_insert. Qed.

Ltac bytes_of :=
  repeat match goal with
  | |- bytes (<[_ := _]> _) => apply bytes_set
  | |- bytes (wr16 _ _ _) => apply bytes_wr16
  | |- bytes (wr32 _ _ _) => apply bytes_wr32
  | |- bytes (put _ _ _) => apply bytes_put
  | |- bytes (copy_padded _ _) => apply bytes_copy_padded
  | |- bytes (?a ++ ?b) => apply Forall_app; change (bytes a /\ bytes b); split
  | |- bytes (if ?b then _ else _) => destruct b
  | |- is_u8 (u8 _) => apply u8_range
  end.

Lemma bytes_boot lba n spc f oem label id : opt_bytes oem -> opt_bytes label -> bytes (boot_sector lba n spc f oem label id).
Proof.
  intros Ho Hl. unfold boot_sector. bytes_of; try done; try (unfold is_u8, NUM_FATS; lia); apply bytes_closed; reflexivity.
Qed.

(** The volume label's entry. *)
Definition label_entry (label : option (list Z)) : list Z := <[11%nat := ATTR_VOLUME]> (put (replicate 32 0) 0 (copy_padded 11 label)).

Lemma label_entry_ok label : opt_bytes label -> length (label_entry label) = 32%nat /\ bytes (label_entry label) /\ at_ (label_entry label) 11 = ATTR_VOLUME.
Proof.
  intros Hl. unfold label_entry. split; [by rewrite length_insert, length_put|]. split.
  - apply Forall_insert; [|unfold is_u8, ATTR_VOLUME; lia]. apply bytes_put; [apply Forall_replicate; unfold is_u8; lia|by apply bytes_copy_padded].
  - rewrite at_insert by (rewrite length_put, length_replicate; lia). by case_decide.
Qed.

(** What [format] leaves on the device: the boot sector, empty FATs, an empty root directory with the label. *)
Record formatted (lba n spc f : Z) (boot lab : list Z) (d : D) : Prop := {
  fo_boot : sector d lba = boot;
  fo_fat : forall i c, 0 <= i < 2 -> 2 <= c <= clusters_for n spc f + 1 -> fat (laid d lba n spc f zeros) d i c = 0;
  fo_root : dslots dev_rd dev_wr (laid d lba n spc f zeros) d (root_secs (laid d lba n spc f zeros)) = lab :: replicate 511 (replicate 32 0)
}.

Lemma word_marked i : 4 <= i <= 510 -> i mod 2 = 0 -> word (marked zeros) i = 0.
Proof.
  intros Hi He. unfold marked. change 2%nat with (Z.to_nat 2). change 0%nat with (Z.to_nat 0).
  rewrite word_wr16; [|unfold wr16; by rewrite length_put|lia|lia|done|done|lia]. destruct (Z.eqb_spec i 2); [lia|].
  rewrite word_wr16; [|done|lia|lia|done|done|lia]. destruct (Z.eqb_spec i 0); [lia|]. unfold word.
  rewrite !(at_lookup zeros _ 0); [done|apply lookup_replicate; split; [done|lia]|apply lookup_replicate; split; [done|lia]].
Qed.

Lemma word_zeros i : 0 <= i <= 510 -> word zeros i = 0.
Proof. intros Hi. unfold word. rewrite !(at_lookup zeros _ 0); [done|apply lookup_replicate; split; [done|lia]|apply lookup_replicate; split; [done|lia]]. Qed.

(** The device after the writes, sector by sector. *)
Lemma formatted_intro lba n spc f boot lab d0 d d6 :
  geo (laid d0 lba n spc f zeros) -> 0 < f ->
  sector d lba = boot ->
  (forall i, 0 <= i < 2 -> sector d (lba + (1 + i * f)) = marked zeros) ->
  (forall i j, 0 <= i < 2 -> 0 < j < f -> sector d (lba + (1 + i * f + j)) = zeros) ->
  (forall j, 0 <= j < 32 -> sector d (lba + (1 + 2 * f + j)) = zeros) ->
  dslots dev_rd dev_wr (laid d0 lba n spc f zeros) d6 (root_secs (laid d0 lba n spc f zeros)) = <[0%nat := lab]> (dslots dev_rd dev_wr (laid d0 lba n spc f zeros) d (root_secs (laid d0 lba n spc f zeros))) ->
  outside dev_rd dev_wr (laid d0 lba n spc f zeros) d d6 (root_secs (laid d0 lba n spc f zeros)) ->
  formatted lba n spc f boot lab d6.
Proof.
  intros G Hf Hboot Hm Hz Hr Hs Ho. set (fs := laid d0 lba n spc f zeros) in *. constructor.
  - rewrite <- Hboot. apply Ho. intros r Hr' E. apply list_elem_of_fmap in Hr' as (j & -> & _). cbn in E. unfold RESERVED, NUM_FATS in E. lia.
  - intros i c Hi Hc. change (fat fs d6 i c = 0). rewrite (outside_fat dev_rd dev_wr fs d d6 0 (root_secs fs)); [|done|by left|done|cbn; unfold NUM_FATS; lia|unfold has_entry; cbn; lia].
    assert (has_entry fs c) as Hc' by (unfold has_entry; cbn; lia). pose proof (entry_sector dev_rd dev_wr fs c G Hc') as Hq. destruct (entry_offset c ltac:(lia)) as [Hoff Hev].
    unfold FatChain.fat, fat_sector. change (part_lba fs) with lba. change (first_fat fs) with 1. change (fatsz fs) with f in *.
    pose proof (Z_div_mod_eq_full (c * 2) 512) as Hdm. destruct (Z.eq_dec (c * 2 / 512) 0) as [E|E].
    + rewrite E, Z.add_0_r, Hm by done. apply word_marked; [lia|done].
    + rewrite Hz by lia. apply word_zeros. lia.
  - change (dslots dev_rd dev_wr fs d6 (root_secs fs) = lab :: replicate 511 (replicate 32 0)). rewrite Hs.
    assert (dslots dev_rd dev_wr fs d (root_secs fs) = replicate 512 (replicate 32 0)) as ->; [|done].
    apply list_eq. intros i. destruct (decide (i < 512)%nat) as [Hi|Hi].
    + rewrite dslots_lookup. unfold root_secs. rewrite list_lookup_fmap. change (root_dir_sectors fs) with 32. change (Z.to_nat 32) with 32%nat.
      assert (i / 16 < 32)%nat as Hq by (apply Nat.Div0.div_lt_upper_bound; lia). rewrite lookup_seq_lt by done. cbn [fmap option_fmap option_map mbind option_bind plus].
      change (part_lba fs) with lba. change (first_root fs) with (1 + 2 * f). rewrite Hr by lia. rewrite (proj2 (lookup_replicate _ _ _ _)) by (split; [done|lia]).
      f_equal. unfold zeros. pose proof (Nat.mod_upper_bound i 16 ltac:(lia)). rewrite drop_replicate, take_replicate. f_equal. lia.
    + rewrite !lookup_ge_None_2; [done|by rewrite length_replicate; lia|]. rewrite length_dslots. unfold root_secs. rewrite length_map, length_seq. change (Z.to_nat (root_dir_sectors fs)) with 32%nat. lia.
Qed.

Lemma in_area fs r : geo fs -> 0 <= r < first_data fs -> in_volume fs r.
Proof. intros G Hr. unfold in_volume. assert (0 <= (max_cluster fs - 1) * spc fs) by (apply Z.mul_nonneg_nonneg; destruct G; lia). lia. Qed.

Lemma format_ok d lba n spc f oem label id buf :
  fits_fat16 n spc f -> is_u32 lba -> is_u32 n -> lba + n <= dsize -> dsize <= 2 ^ 32 -> opt_bytes oem -> opt_bytes label ->
  exists d', format dev_rd dev_wr d lba n oem label id buf = (Some tt, d') /\
    formatted lba n spc f (boot_sector lba n spc f oem label id) (label_entry label) d'.
Proof.
  intros H Hl Hn Hsz Hd Ho Hlab. destruct (fits_bounds n spc f H) as (Hs & _ & Hf & Hr & _). pose proof H as (Espc & Efat & Hmin & Hmax).
  unfold format. fold root_size. rewrite <- Espc, Efat. fold (clusters_for n spc f).
  destruct (Z.ltb_spec (clusters_for n spc f) FAT16_MIN_CLUSTERS); [lia|]. destruct (Z.ltb_spec FAT16_MAX_CLUSTER (clusters_for n spc f + 2)); [lia|]. cbn [orb].
  fold (laid d lba n spc f buf). set (boot := boot_sector lba n spc f oem label id).
  assert (forall d b, geo (laid d lba n spc f b)) as G by (intros; apply geo_laid; auto; unfold is_u32 in Hl; lia).
  assert (buf_ok boot) as Hbb by (split; [by destruct (boot_fields lba n spc f oem label id ltac:(lia) Hf Hn)|by apply bytes_boot]).
  assert (forall d b r, 0 <= r < 1 + 2 * f + 32 -> in_volume (laid d lba n spc f b) r) as Hin by (intros d0 b0 r Hr0; apply in_area; [apply G|exact Hr0]).
  destruct (store_ok dev_rd dev_wr (laid d lba n spc f boot) 0 (G _ _) (Hin _ _ 0 ltac:(lia)) Hbb) as (d1 & E1 & S1).
  destruct (zero_sectors_ok (laid d1 lba n spc f boot) RESERVED f (G _ _)) as (d2 & E2 & S2); [unfold RESERVED; lia|lia|intros i Hi; apply Hin; unfold RESERVED; lia|].
  destruct (zero_sectors_ok (laid d2 lba n spc f zeros) (RESERVED + f) f (G _ _)) as (d3 & E3 & S3); [unfold RESERVED; lia|lia|intros i Hi; apply Hin; unfold RESERVED; lia|].
  destruct (mark_fats_ok 2 0 (laid d3 lba n spc f zeros) (G _ _)) as (d4 & b4 & E4 & Hb4 & M4 & O4); [lia|cbn; unfold NUM_FATS; lia|]. specialize (Hb4 buf_zeros).
  destruct (zero_sectors_ok (laid d4 lba n spc f b4) (RESERVED + NUM_FATS * f) root_size (G _ _)) as (d5 & E5 & S5);
    [unfold RESERVED, NUM_FATS; lia|done|intros i Hi; apply Hin; unfold RESERVED, NUM_FATS; change root_size with 32 in Hi; lia|].
  destruct (label_entry_ok label Hlab) as (Le & Be & _). set (fs5 := laid d5 lba n spc f zeros).
  destruct (write_entry_ok dev_rd dev_wr fs5 0 (root_secs fs5) 0 (label_entry label) (G _ _)) as (d6 & b6 & E6 & _ & S6 & O6); [by left|change (length (root_secs fs5)) with 32%nat; lia|done|done|].
  exists d6. split.
  - unfold upd_sec. rewrite (bind_some _ _ (laid d lba n spc f buf) tt (laid d lba n spc f boot)) by done. rewrite (bind_some _ _ _ _ _ E1).
    rewrite (bind_some _ _ _ _ _ E2), (bind_some _ _ _ _ _ E3), (bind_some _ _ _ _ _ E4), (bind_some _ _ _ _ _ E5). fold (label_entry label).
    change (Z.of_nat (32 * 0)) with 0 in E6.
    change ((let '(r, fs) := write_entry_at dev_rd dev_wr 0 0 (label_entry label) fs5 in (r, dev fs)) = (Some tt, d6)). by rewrite E6.
  - unfold FatChain.stored in S1. cbn [part_lba first_fat fatsz dev laid at_dev set_sec set_dev sec] in S1, S2, S3, M4, O4, S5. unfold RESERVED, NUM_FATS in *. change root_size with 32 in *.
    assert (forall l, l < lba + (1 + 2 * f) -> sector d5 l = sector d4 l) as P5 by (intros l Hl0; rewrite S5; destruct (Z.leb_spec (lba + (1 + 2 * f)) l); [lia|done]).
    apply (formatted_intro lba n spc f boot (label_entry label) d5 d5 d6); auto; [lia| | | |].
    + rewrite P5 by lia. rewrite O4 by (intros i Hi; nia). rewrite S3. destruct (Z.leb_spec (lba + (1 + f)) lba); [lia|]. cbn [andb].
      rewrite S2. destruct (Z.leb_spec (lba + 1) lba); [lia|]. cbn [andb]. rewrite S1. by rewrite Z.add_0_r, Z.eqb_refl.
    + intros i Hi. rewrite P5 by nia. rewrite M4 by lia. f_equal. rewrite S3, S2.
      destruct (Z.leb_spec (lba + (1 + f)) (lba + (1 + i * f))), (Z.ltb_spec (lba + (1 + i * f)) (lba + (1 + f) + f)), (Z.leb_spec (lba + 1) (lba + (1 + i * f))), (Z.ltb_spec (lba + (1 + i * f)) (lba + 1 + f)); cbn [andb]; try done; nia.
    + intros i j Hi Hj. rewrite P5 by nia. assert (0 <= i * f <= f) as Hif by nia. rewrite O4.
      * rewrite S3, S2. destruct (Z.leb_spec (lba + (1 + f)) (lba + (1 + i * f + j))), (Z.ltb_spec (lba + (1 + i * f + j)) (lba + (1 + f) + f)), (Z.leb_spec (lba + 1) (lba + (1 + i * f + j))), (Z.ltb_spec (lba + (1 + i * f + j)) (lba + 1 + f)); cbn [andb]; try done; lia.
      * intros k Hk. assert (k = 0 \/ k = 1) as [->| ->] by lia; assert (i = 0 \/ i = 1) as [->| ->] by lia; lia.
    + intros j Hj. rewrite S5. destruct (Z.leb_spec (lba + (1 + 2 * f)) (lba + (1 + 2 * f + j))), (Z.ltb_spec (lba + (1 + 2 * f + j)) (lba + (1 + 2 * f) + 32)); cbn [andb]; try done; lia.
Qed.

(** ** The fresh volume *)

Lemma room_all_free fs d : geo fs -> (forall c, 2 <= c <= max_cluster fs -> fat fs d 0 c = 0) -> room dev_rd dev_wr fs d = max_cluster fs - 1.
Proof.
  intros G Hz. unfold room, frees. assert (forall l : list Z, (forall c, c ∈ l -> fat fs d 0 c = 0) -> filter (fun c => fat fs d 0 c = 0) l = l) as Hall.
  { induction l as [|c l IH]; intros Hl; [done|]. rewrite filter_cons_True by (apply Hl; left). rewrite IH; [done|]. intros x Hx. apply Hl. by right. }
  rewrite Hall; [rewrite length_map, length_seq; destruct G; lia|].
  intros c (i & -> & Hi%elem_of_seq)%list_elem_of_fmap. apply Hz. destruct G; lia.
Qed.

Lemma label_only lab : at_ lab 11 = ATTR_VOLUME ->
  let es := lab :: replicate 511 (replicate 32 0) in
  (forall nm, lookup_name nm (listing es 0 lfn0) = None) /\ closed_dir es /\ (length (used es) <= 1)%nat.
Proof.
  intros Ha es. set (z := replicate 32 0 : list Z) in *.
  assert (es = lab :: z :: replicate 510 z) as -> by done. set (r := replicate 510 z). unfold closed_dir. cbn [listing used]. change (at_ z 0 =? 0) with true. cbv iota.
  destruct (at_ lab 0 =? 0); [split; [done|]; split; [done|cbn; lia]|]. cbn [scan_state length]. rewrite Ha. change (Z.land ATTR_VOLUME 63 =? 15) with false.
  destruct (at_ lab 0 =? 229); [split; [done|]; split; [done|lia]|]. split; [|split; [done|lia]]. intros nm. unfold lookup_name, first_match. cbn [find entry_of attr]. rewrite Ha. done.
Qed.

(** Formatted and mounted. *)
Lemma format_mount_ok d lba n spc f oem label id buf :
  fits_fat16 n spc f -> is_u32 lba -> is_u32 n -> lba + n <= dsize -> dsize <= 2 ^ 32 -> opt_bytes oem -> opt_bytes label ->
  exists d' fs, format dev_rd dev_wr d lba n oem label id buf = (Some tt, d') /\ mount dev_rd d' lba = Some fs /\ dev fs = d' /\ buf_ok (sec fs) /\
    geo fs /\ room dev_rd dev_wr fs d' = clusters_for n spc f /\ length (root_secs fs) = 32%nat /\
    (forall nm, lookup_name nm (FatDirSpec.entries dev_rd dev_wr fs d' (root_secs fs)) = None) /\
    closed_dir (dslots dev_rd dev_wr fs d' (root_secs fs)) /\ (length (used (dslots dev_rd dev_wr fs d' (root_secs fs))) <= 1)%nat.
Proof.
  intros H Hl Hn Hsz Hd Ho Hlab. destruct (format_ok d lba n spc f oem label id buf H Hl Hn Hsz Hd Ho Hlab) as (d' & E & [Fb Ff Fr]).
  set (boot := boot_sector lba n spc f oem label id) in *. set (fs := laid d' lba n spc f boot).
  destruct (fits_bounds n spc f H) as (Hs & _ & Hf & Hroom & _). unfold RESERVED, NUM_FATS in Hroom. change root_size with 32 in Hroom.
  assert (geo fs) as G by (apply geo_laid; auto; unfold is_u32 in Hl; lia).
  exists d', fs. split; [done|]. split; [apply mount_laid; auto; rewrite rd_law by (unfold is_u32 in Hl; lia); by rewrite Fb|]. split; [done|].
  split; [split; [by destruct (boot_fields lba n spc f oem label id ltac:(lia) Hf Hn)|by apply bytes_boot]|]. split; [done|]. split; [|split; [done|]].
  - rewrite room_all_free; [cbn; lia|done|]. intros c Hc. by apply (Ff 0).
  - unfold FatDirSpec.entries. change (dslots dev_rd dev_wr fs d' (root_secs fs)) with (dslots dev_rd dev_wr (laid d' lba n spc f zeros) d' (root_secs (laid d' lba n spc f zeros))).
    rewrite Fr. apply label_only. by apply label_entry_ok.
Qed.
End Format.
