(* ===== verification/FatTruncate.v ===== *)
(** Cutting a file of a FAT16 directory short. *)
From S2P Require Import Prelude Fat16 FatDir FatChain FatFile FatName FatDirSpec FatWrite FatCreate.
Local Open Scope vnu_scope.

(** A chain that now ends at [p]. *)
Lemma linked_cut f f' m pre p post :
  linked f m (pre ++ p :: post) -> (forall x, x ∈ pre -> f' x = f x) -> f' p <> 0 -> nextc (f' p) = 0 -> linked f' m (pre ++ [p]).
Proof.
  intros Hl He H0 Hn. induction pre as [|x pre IH]; cbn [app] in *; [destruct Hl as [Hp _]; by split|].
  destruct Hl as [Hx Hr]. assert (linked f' m (pre ++ [p])) as Hl'.
  { apply IH; [|intros y Hy; apply He; by right]. destruct pre; cbn [app] in *; by destruct Hr. }
  split; [done|]. rewrite (He x ltac:(left)). destruct pre as [|y pre]; cbn [app] in *; by destruct Hr.
Qed.

Section Truncate.
Context {D : Type} (dev_rd : D -> Z -> option (list Z)) (dev_wr : D -> Z -> list Z -> option D) `{!Disk dev_rd dev_wr}.
Abbreviation geo := (geo dev_rd dev_wr).
Abbreviation is_dir := (is_dir dev_rd dev_wr).
Abbreviation entries := (entries dev_rd dev_wr).
Abbreviation fat := (fat dev_rd dev_wr).
Abbreviation kept := (kept dev_rd dev_wr).
Abbreviation file := (file dev_rd dev_wr).

(** The end of the chain after the cluster [p] is released, and [p] made its end. *)
Lemma cut_chain_ok fs pre p post :
  geo fs -> buf_ok (sec fs) -> chain (fat fs (dev fs) 0) (max_cluster fs) (pre ++ p :: post) ->
  exists rest d b, fat_next dev_rd p fs = (Some rest, fs) /\
    (if rest =? 0 then ret tt else bind (free_chain dev_rd dev_wr rest) (fun _ => fat_set dev_rd dev_wr p FAT_EOC)) fs = (Some tt, at_dev d b fs) /\ buf_ok b /\
    chain (fat fs d 0) (max_cluster fs) (pre ++ [p]) /\ kept fs (dev fs) d (p :: post) [] /\
    forall i x, 0 <= i < num_fats fs -> x ∈ post -> fat fs d i x = 0.
Proof.
  intros G Hb [Hl Hn]. assert (valid fs p) as Hp by (apply (linked_in _ _ _ p Hl), elem_of_app; right; left).
  assert (has_entry fs p) as Hep by (unfold valid, has_entry in *; lia). assert (NoDup (p :: post) /\ (forall x, x ∈ pre -> x ∉ p :: post) /\ NoDup pre) as (Hn2 & Hn1 & Hn0) by (apply NoDup_app in Hn as (? & ? & ?); done).
  assert (linked (fat fs (dev fs) 0) (max_cluster fs) (p :: post)) as Hlp.
  { clear Hn Hn1 Hn0. induction pre as [|x pre IH]; [done|]. apply IH. cbn [app] in Hl. destruct Hl as [_ Hr]. destruct pre; cbn [app] in *; by destruct Hr. }
  exists (nextc (fat fs (dev fs) 0 p)). rewrite (fat_next_ok dev_rd dev_wr fs p G Hep). destruct post as [|c' post].
  - destruct Hlp as (_ & H0 & ->). exists (dev fs), (sec fs). split; [done|]. split; [by destruct fs|]. split; [done|]. split; [by split|]. split; [apply kept_refl|].
    intros i x _ Hx. by apply not_elem_of_nil in Hx.
  - pose proof (linked_tail _ _ _ _ _ Hlp) as Hl'. destruct Hlp as (_ & Hf & _). pose proof (linked_in _ _ _ c' Hl' ltac:(left)) as Hc'.
    rewrite Hf, (nextc_in c' (max_cluster fs)) by (destruct G; lia). destruct (Z.eqb_spec c' 0); [lia|]. apply NoDup_cons in Hn2 as [Hnp Hn2].
    destruct (free_chain_ok dev_rd dev_wr fs c' post G Hb (conj Hl' Hn2)) as (d1 & b1 & E1 & Hb1 & K1 & Z1).
    destruct (fat_set_ok dev_rd dev_wr (at_dev d1 b1 fs) p FAT_EOC (geo_at dev_rd dev_wr d1 b1 fs G) Hep ltac:(unfold FAT_EOC; lia) Hb1) as (d2 & b2 & E2 & Hb2 & U).
    destruct (fat_updated_all dev_rd dev_wr (at_dev d1 b1 fs) d1 d2 p FAT_EOC (geo_at dev_rd dev_wr d1 b1 fs G) U) as [F2 K2]. apply kept_at in K2.
    assert (forall i x, 0 <= i < num_fats fs -> has_entry fs x -> fat fs d2 i x = if x =? p then FAT_EOC else fat fs d1 i x) as F2' by exact F2.
    exists d2, b2. split; [done|]. split; [by rewrite (bind_some _ _ fs _ _ E1)|]. split; [done|]. split; [|split].
    + split; [|apply NoDup_app; split; [done|]; split; [intros x Hx ->%list_elem_of_singleton; by apply (Hn1 p Hx); left|apply NoDup_singleton]].
      apply (linked_cut (fat fs (dev fs) 0) _ _ pre p (c' :: post) Hl); rewrite ?F2' by (auto; destruct G; lia); rewrite ?Z.eqb_refl; [|done|done].
      intros x Hx. assert (has_entry fs x) as Hex by (pose proof (linked_in _ _ _ x Hl ltac:(apply elem_of_app; by left)); unfold has_entry; lia).
      rewrite F2' by (auto; destruct G; lia). destruct (Z.eqb_spec x p) as [->|]; [by exfalso; apply (Hn1 p Hx); left|].
      apply (kept_fat _ _ _ _ _ _ _ K1); [destruct G; lia|done|]. intros Hx'. apply (Hn1 x Hx). by right.
    + apply (kept_trans _ _ _ _ d1); [eapply kept_mono; [exact K1|intros x Hx; by right|done]|eapply kept_mono; [exact K2|intros x ->%list_elem_of_singleton; left|done]].
    + intros i x Hi Hx. assert (has_entry fs x) as Hex by (pose proof (linked_in _ _ _ x Hl'); unfold has_entry; intuition lia).
      rewrite F2' by done. destruct (Z.eqb_spec x p) as [->|]; [done|]. by apply Z1.
Qed.

(** The clusters a shorter size keeps. *)
Lemma keep_bounds fs sz n : geo fs -> 0 < sz <= csize fs * n -> n <= 65522 ->
  let keep := u32 (sz + csize fs - 1) / csize fs in 0 < keep <= n /\ csize fs * (keep - 1) < sz <= csize fs * keep.
Proof.
  intros G Hs Hn. assert (512 <= csize fs <= 65536) as Hc by (unfold csize; destruct G; lia). cbv zeta. assert (csize fs * n <= 65536 * 65522) by nia.
  rewrite u32_id by (unfold is_u32; lia). pose proof (Z_div_mod_eq_full (sz + csize fs - 1) (csize fs)) as E. pose proof (Z.mod_pos_bound (sz + csize fs - 1) (csize fs) ltac:(lia)) as B.
  set (q := (sz + csize fs - 1) / csize fs) in *. assert (sz <= csize fs * q /\ csize fs * (q - 1) < sz) as [H1 H2] by lia. split; [|lia]. split; [nia|].
  assert (csize fs * (q - 1) < csize fs * n) by lia. nia.
Qed.

(** The rest of the last cluster is cleared. *)
Lemma clear_tail_ok fs c r keep sz :
  geo fs -> buf_ok (sec fs) -> chain (fat fs (dev fs) 0) (max_cluster fs) (c :: r) -> Z.of_nat (length (c :: r)) = keep -> csize fs * (keep - 1) < sz <= csize fs * keep -> 0 < keep ->
  exists d b, (if sz - (keep - 1) * csize fs <? csize fs then range_write dev_rd dev_wr c sz None (csize fs - (sz - (keep - 1) * csize fs)) else ret tt) fs = (Some tt, at_dev d b fs) /\ buf_ok b /\
    kept fs (dev fs) d [] (c :: r) /\ content dev_rd dev_wr fs d (c :: r) = take (Z.to_nat sz) (content dev_rd dev_wr fs (dev fs) (c :: r)) ++ replicate (Z.to_nat (csize fs * keep - sz)) 0.
Proof.
  intros G Hb Hc Hk Hsz Hk0. pose proof (length_content dev_rd dev_wr fs (dev fs) (c :: r) G) as Lc. rewrite Hk in Lc.
  assert (512 <= csize fs) as Hcs by (unfold csize; destruct G; lia). destruct (Z.ltb_spec (sz - (keep - 1) * csize fs) (csize fs)).
  - set (zs := replicate (Z.to_nat (csize fs * keep - sz)) 0). assert (Z.of_nat (length zs) = csize fs - (sz - (keep - 1) * csize fs)) as Lz by (unfold zs; rewrite length_replicate; lia).
    destruct (range_write_ok dev_rd dev_wr fs c r sz None zs G Hb Hc) as (d & b & E & Hb' & K & C); [rewrite Hk; nia|rewrite Hk, Lz; lia|apply Forall_replicate; unfold is_u8; lia|unfold src_of, zs; by rewrite length_replicate|].
    rewrite Lz in E. exists d, b. split; [done|]. split; [done|]. split; [done|]. rewrite C. rewrite put_split by nia. f_equal. rewrite drop_ge by nia. by rewrite app_nil_r.
  - exists (dev fs), (sec fs). split; [by destruct fs|]. split; [done|]. split; [apply kept_refl|]. replace (csize fs * keep - sz) with 0 by nia. rewrite app_nil_r, take_ge by nia. done.
Qed.

(** What is left of the file, before the entry is updated. *)
Definition cut_to (fs : @Fs D) (d d1 : D) (cs kp : list Z) (data : list Z) (sz : Z) (first : Z) : Prop :=
  fchain (fat fs d1 0) (max_cluster fs) first kp /\ take (Z.to_nat sz) data = take (Z.to_nat sz) (content dev_rd dev_wr fs d1 kp) /\
  (exists gone, cs = kp ++ gone /\ forall i x, 0 <= i < num_fats fs -> x ∈ gone -> fat fs d1 i x = 0) /\ kept fs d d1 cs cs /\ clean (content dev_rd dev_wr fs d1 kp) (take (Z.to_nat sz) data).

(** The changes [truncate] makes to the chain of a file that gets shorter. *)
Definition shrink_chain (ev : Entry) (sz cb keep : Z) : Fat16.M D Z :=
  if keep =? 0 then bind (if cluster ev =? 0 then ret tt else free_chain dev_rd dev_wr (cluster ev)) (fun _ => ret 0)
  else bind (chain_at dev_rd (cluster ev) (keep - 1)) (fun last => bind (fat_next dev_rd last) (fun rest =>
    bind (if rest =? 0 then ret tt else bind (free_chain dev_rd dev_wr rest) (fun _ => fat_set dev_rd dev_wr last FAT_EOC)) (fun _ =>
    bind (if sz - (keep - 1) * cb <? cb then range_write dev_rd dev_wr (cluster ev) sz None (cb - (sz - (keep - 1) * cb)) else ret tt) (fun _ => ret (cluster ev))))).

Lemma shrink_chain_ok fs ds ev cs data sz :
  geo fs -> buf_ok (sec fs) -> file fs (dev fs) ds ev cs data -> 0 <= sz < Z.of_nat (length data) ->
  exists d b first kp, shrink_chain ev sz (csize fs) (u32 (sz + csize fs - 1) / csize fs) fs = (Some first, at_dev d b fs) /\ buf_ok b /\
    (first = 0 \/ 2 <= first <= max_cluster fs) /\ cut_to fs (dev fs) d cs kp data sz first.
Proof.
  intros G Hb [Fc Fs Fd Fp Fa] Hsz. assert (512 <= csize fs <= 65536) as Hcs by (unfold csize; destruct G; lia).
  assert (length data <= length (content dev_rd dev_wr fs (dev fs) cs))%nat as Hle by (pose proof (f_equal length Fd) as El; rewrite length_take in El; lia).
  destruct (fchain_chain _ _ _ _ Fc) as (c & r & -> & Eev & Hc); [intros ->; cbn in Hle; lia|]. rewrite Eev in *. unfold shrink_chain. rewrite Eev.
  pose proof (length_content dev_rd dev_wr fs (dev fs) (c :: r) G) as Lc. pose proof (linked_in _ _ _ c (proj1 Hc) ltac:(left)) as Hc2.
  pose proof (chain_short _ _ _ Hc ltac:(destruct G; lia)) as Hsh. destruct (Z.eq_dec sz 0) as [->|Hz].
  - rewrite u32_id by (unfold is_u32; lia). rewrite (Z.div_small (0 + csize fs - 1)) by lia. change (0 =? 0) with true. cbv iota. destruct (Z.eqb_spec c 0); [lia|].
    destruct (free_chain_ok dev_rd dev_wr fs c r G Hb Hc) as (d & b & E & Hb' & K & Z0). exists d, b, 0, []. rewrite (bind_some _ _ fs _ _ E). split; [done|]. split; [done|]. split; [by left|].
    split; [done|]. split; [done|]. split; [by exists (c :: r)|]. split; [|done]. eapply kept_mono; [exact K|done|]. intros x Hx. by apply not_elem_of_nil in Hx.
  - destruct (keep_bounds fs sz (Z.of_nat (length (c :: r))) G ltac:(lia) ltac:(destruct G; lia)) as [Hk Hks]. set (keep := u32 (sz + csize fs - 1) / csize fs) in *.
    destruct (Z.eqb_spec keep 0); [lia|]. destruct (lookup_lt_is_Some_2 (c :: r) (Z.to_nat (keep - 1)) ltac:(lia)) as [p Hp].
    set (pre := take (Z.to_nat (keep - 1)) (c :: r)). set (post := drop (S (Z.to_nat (keep - 1))) (c :: r)).
    assert (c :: r = pre ++ p :: post) as Es by (unfold pre, post; by rewrite take_drop_middle). assert (length pre = Z.to_nat (keep - 1)) as Lp by (unfold pre; rewrite length_take; lia).
    rewrite Es in Hc. destruct (cut_chain_ok fs pre p post G Hb Hc) as (rest & d1 & b1 & E1 & E2 & Hb1 & Hc1 & K1 & Z1).
    assert (exists r1, pre ++ [p] = c :: r1) as [r1 Er1] by (destruct pre as [|x pre0] eqn:Epre; cbn [app] in Es |- *; injection Es as -> ?; by eexists). rewrite Er1 in Hc1.
    assert (Z.of_nat (length (c :: r1)) = keep) as Lk by (rewrite <- Er1, length_app, Lp; cbn [length]; lia).
    destruct (clear_tail_ok (at_dev d1 b1 fs) c r1 keep sz (geo_at dev_rd dev_wr d1 b1 fs G) Hb1 Hc1 Lk Hks ltac:(lia)) as (d2 & b2 & E3 & Hb2 & K2 & C2). apply kept_at in K2.
    exists d2, b2, c, (c :: r1). split.
    { rewrite (bind_some _ _ fs p fs) by (apply (chain_at_ok dev_rd dev_wr fs c r); [done|rewrite Es; apply Hc|lia|done]).
      rewrite (bind_some _ _ fs _ _ E1), (bind_some _ _ fs _ _ E2). etransitivity; [apply (bind_some _ _ _ _ _ E3)|]. done. }
    split; [done|]. split; [by right|].
    assert (kept fs (dev fs) d2 (c :: r) (c :: r)) as K.
    { apply (kept_trans _ _ _ _ d1); (eapply kept_mono; [eassumption| |]).
      - intros x Hx. rewrite Es. apply elem_of_app. by right.
      - intros x Hx. by apply not_elem_of_nil in Hx.
      - intros x Hx. by apply not_elem_of_nil in Hx.
      - intros x Hx. rewrite <- Er1 in Hx. rewrite Es. apply elem_of_app in Hx as [Hx| ->%list_elem_of_singleton]; apply elem_of_app; [by left|right; left]. }
    split; [split; [done|by apply (kept_chain dev_rd dev_wr fs d1 d2 [] (c :: r1)); [| | |intros x _; apply not_elem_of_nil]]|].
    assert (length (take (Z.to_nat sz) data) = Z.to_nat sz) as Lt by (rewrite length_take; lia). split; [|split; [|split; [done|]]].
    + change (content dev_rd dev_wr (at_dev d1 b1 fs) d2 (c :: r1)) with (content dev_rd dev_wr fs d2 (c :: r1)) in C2.
      change (content dev_rd dev_wr (at_dev d1 b1 fs) (dev (at_dev d1 b1 fs)) (c :: r1)) with (content dev_rd dev_wr fs d1 (c :: r1)) in C2.
      assert (content dev_rd dev_wr fs d1 (c :: r1) = content dev_rd dev_wr fs (dev fs) (c :: r1)) as C1.
      { apply (content_kept dev_rd dev_wr fs _ _ (p :: post) [] _ K1). intros x Hx. split; [apply (linked_in _ _ _ x (proj1 Hc1) Hx)|apply not_elem_of_nil]. }
      pose proof (length_content dev_rd dev_wr fs (dev fs) (c :: r1) G) as Lc1. rewrite Lk in Lc1.
      assert (content dev_rd dev_wr fs (dev fs) (c :: r) = content dev_rd dev_wr fs (dev fs) (c :: r1) ++ content dev_rd dev_wr fs (dev fs) post) as Csp by (rewrite Es, <- Er1, <- content_app, <- app_assoc; done).
      rewrite C2, C1, take_app_le, take_take, Nat.min_id by (rewrite length_take; nia). rewrite Fd, take_take, Nat.min_l by lia. rewrite Csp, take_app_le by nia. done.
    + exists post. split; [rewrite Es, <- Er1, <- app_assoc; done|]. intros i x Hi Hx. rewrite <- (Z1 i x Hi Hx). apply (kept_fat _ _ _ _ _ _ _ K2); [done| |apply not_elem_of_nil].
      pose proof (linked_in _ _ _ x (proj1 Hc) ltac:(rewrite elem_of_app, elem_of_cons; tauto)). unfold has_entry. lia.
    + pose proof (length_content dev_rd dev_wr fs d2 (c :: r1) G) as Lc2. rewrite Lk in Lc2. unfold clean. rewrite Lt. etransitivity; [apply f_equal; exact C2|].
      pose proof (length_content dev_rd dev_wr fs d1 (c :: r1) G) as Lc1. rewrite Lk in Lc1.
      assert (length (take (Z.to_nat sz) (content dev_rd dev_wr (at_dev d1 b1 fs) (dev (at_dev d1 b1 fs)) (c :: r1))) = Z.to_nat sz) as Ld by (rewrite length_take; change (content dev_rd dev_wr (at_dev d1 b1 fs) (dev (at_dev d1 b1 fs)) (c :: r1)) with (content dev_rd dev_wr fs d1 (c :: r1)); nia).
      rewrite drop_app_length' by done. f_equal. change (csize (at_dev d1 b1 fs)) with (csize fs). nia.
Qed.

Lemma truncate_shrink_ok fs dir ds nm ev cs data sz :
  geo fs -> buf_ok (sec fs) -> is_dir fs (dev fs) dir ds -> ds <> [] ->
  lookup_name nm (entries fs (dev fs) ds) = Some ev -> file fs (dev fs) ds ev cs data -> 0 <= sz < Z.of_nat (length data) ->
  exists first kp d1 d b, truncate dev_rd dev_wr dir nm sz fs = (Some tt, at_dev d b fs) /\ is_dir fs d1 dir ds /\
    entries fs d ds = map (at_pos (pos ev) first sz) (entries fs (dev fs) ds) /\ file fs d ds (set_entry ev first sz) kp (take (Z.to_nat sz) data) /\
    cut_to fs (dev fs) d1 cs kp data sz first /\ outside dev_rd dev_wr fs d1 d ds /\ buf_ok b /\
    steady (dslots dev_rd dev_wr fs (dev fs) ds) (dslots dev_rd dev_wr fs d ds).
Proof.
  intros G Hb Hd Hne Hlk F Hsz. pose proof F as [Fc Fs Fd Fp Fa].
  destruct (find_entry_ok dev_rd dev_wr fs dir ds nm G Hd Hne) as (b0 & Hb0 & E0). rewrite Hlk in E0. specialize (Hb0 Hb). pose proof (geo_sec dev_rd dev_wr b0 fs G) as G0.
  assert (file (set_sec b0 fs) (dev fs) ds ev cs data) as F0 by (by constructor).
  destruct (shrink_chain_ok (set_sec b0 fs) ds ev cs data sz G0 Hb0 F0 Hsz) as (d1 & b1 & first & kp & E1 & Hb1 & Hfirst & Hcut).
  assert (cut_to fs (dev fs) d1 cs kp data sz first) as Hcut' by (destruct Hcut as (H1 & H2 & H3 & H4); split; [exact H1|]; split; [exact H2|]; split; [exact H3|]; split; [destruct (proj1 H4); by constructor|exact (proj2 H4)]).
  pose proof Hcut' as (Hc1 & Ht & (gone & Ecs & _) & K & _). destruct (kept_dir dev_rd dev_wr fs (dev fs) d1 cs cs dir ds G Hd K Fa Fa) as [Hd1 Hs1].
  assert (entries fs d1 ds = entries fs (dev fs) ds) as He1 by (unfold FatDirSpec.entries; by rewrite Hs1).
  pose proof (file_small dev_rd dev_wr fs (dev fs) (cluster ev) cs data G Fc Fd) as Hsm.
  destruct (update_entry_ok dev_rd dev_wr (at_dev d1 b1 fs) dir ds ev first sz (geo_at dev_rd dev_wr d1 b1 fs G) Hd1) as (d & b & E2 & Hb2 & He2 & Ho2 & St2).
  { change (ev ∈ entries fs d1 ds). rewrite He1. by eapply lookup_in. }
  { cbn in Hfirst. destruct G; lia. }
  { unfold is_u32. lia. }
  exists first, kp, d1, d, b. split; [|split; [done|split; [rewrite <- He1; exact He2|split; [|split; [done|split; [done|split; [done|rewrite <- Hs1; exact St2]]]]]]].
  - unfold truncate. rewrite (bind_some _ _ fs _ _ E0). rewrite bind_guard by (by rewrite Fp). rewrite Fs. destruct (Z.eqb_spec sz (Z.of_nat (length data))); [lia|].
    rewrite bind_gets, (cb_ok dev_rd dev_wr) by done. destruct (Z.ltb_spec (Z.of_nat (length data)) sz); [lia|].
    etransitivity; [apply (bind_some _ _ _ _ _ E1)|]. exact E2.
  - apply (file_outside dev_rd dev_wr fs d1 d dir); auto. assert (length (take (Z.to_nat sz) data) = Z.to_nat sz) as Ln by (rewrite length_take; lia). constructor; auto.
    + cbn [size set_entry]. lia.
    + by rewrite Ln.
    + intros c i Hc. apply Fa. rewrite Ecs. apply elem_of_app. by left.
Qed.

(** Making the file longer gives it zeros, where its last cluster had zeros behind the data. *)
Lemma truncate_grow_ok fs dir ds nm ev cs data sz :
  geo fs -> buf_ok (sec fs) -> is_dir fs (dev fs) dir ds -> ds <> [] ->
  lookup_name nm (entries fs (dev fs) ds) = Some ev -> file fs (dev fs) ds ev cs data -> clean (content dev_rd dev_wr fs (dev fs) cs) data ->
  Z.of_nat (length data) < sz <= csize fs * (Z.of_nat (length cs) + room dev_rd dev_wr fs (dev fs)) ->
  let data' := data ++ replicate (Z.to_nat sz - length data) 0 in
  exists first new d1 d b, truncate dev_rd dev_wr dir nm sz fs = (Some tt, at_dev d b fs) /\ buf_ok b /\ is_dir fs d1 dir ds /\
    entries fs d ds = map (at_pos (pos ev) first sz) (entries fs (dev fs) ds) /\ file fs d ds (set_entry ev first sz) (cs ++ new) data' /\
    (forall x, x ∈ new -> valid fs x /\ fat fs (dev fs) 0 x = 0) /\ kept fs (dev fs) d1 (cs ++ new) (cs ++ new) /\ outside dev_rd dev_wr fs d1 d ds /\
    steady (dslots dev_rd dev_wr fs (dev fs) ds) (dslots dev_rd dev_wr fs d ds) /\ clean (content dev_rd dev_wr fs d (cs ++ new)) data'.
Proof.
  intros G Hb Hd Hne Hlk F Hcl Hsz data'. pose proof F as [Fc Fs Fd Fp Fa].
  destruct (find_entry_ok dev_rd dev_wr fs dir ds nm G Hd Hne) as (b0 & Hb0 & E0). rewrite Hlk in E0. specialize (Hb0 Hb). pose proof (geo_sec dev_rd dev_wr b0 fs G) as G0.
  destruct (clusters_needed dev_rd dev_wr fs (dev fs) (cluster ev) cs sz G Fc ltac:(lia)) as (Hn1 & Hn2 & Hn3 & H32). set (need := u32 (sz + csize fs - 1) / csize fs) in *.
  destruct (ensure_chain_ok dev_rd dev_wr (set_sec b0 fs) (cluster ev) cs need G0 Hb0 Fc ltac:(lia)) as (nf & new & d1 & b1 & E1 & Hb1 & Hc1 & Gr & Ln); [exact Hn2|].
  assert (forall x, x ∈ new -> valid fs x /\ fat fs (dev fs) 0 x = 0 /\ cdata dev_rd dev_wr fs d1 x = replicate (Z.to_nat (csize fs)) 0) as Gnew by (by destruct Gr).
  assert (kept fs (dev fs) d1 (cs ++ new) new) as Gk by (destruct Gr as [_ _ [] _]; by constructor).
  assert (kept fs (dev fs) d1 (cs ++ new) (cs ++ new)) as K by (eapply kept_weaken; [exact Gk|done|intros x Hx; apply elem_of_app; by right]).
  assert (apart fs (cs ++ new) ds) as Ha by (apply apart_app; [done|apply (apart_free dev_rd dev_wr fs (dev fs) dir); auto; intros x Hx; by destruct (Gnew x Hx) as (? & ? & _)]).
  destruct (kept_dir dev_rd dev_wr fs (dev fs) d1 (cs ++ new) (cs ++ new) dir ds G Hd K Ha Ha) as [Hd1 Hs1].
  assert (entries fs d1 ds = entries fs (dev fs) ds) as He1 by (unfold FatDirSpec.entries; by rewrite Hs1).
  assert (2 <= nf <= max_cluster fs) as Hnf.
  { destruct (fchain_chain _ _ _ _ Hc1) as (c & r & _ & -> & Hc); [intros E; rewrite E in Ln; cbn in Ln; lia|]. exact (linked_in _ _ _ c (proj1 Hc) ltac:(left)). }
  destruct (update_entry_ok dev_rd dev_wr (at_dev d1 b1 fs) dir ds ev nf sz (geo_at dev_rd dev_wr d1 b1 fs G) Hd1) as (d & b & E2 & Hb2 & He2 & Ho2 & St2).
  { change (ev ∈ entries fs d1 ds). rewrite He1. by eapply lookup_in. }
  { destruct G; lia. }
  { unfold is_u32. lia. }
  assert (length data <= length (content dev_rd dev_wr fs (dev fs) cs))%nat as Hle by (pose proof (f_equal length Fd) as El; rewrite length_take in El; lia).
  assert (length data' = Z.to_nat sz) as Ld by (unfold data'; rewrite length_app, length_replicate; lia).
  assert (csize fs * need <= csize fs * Z.of_nat (length (cs ++ new))) as Hcap by (apply Z.mul_le_mono_nonneg_l; [unfold csize; destruct G; lia|lia]).
  pose proof (length_content dev_rd dev_wr fs d1 (cs ++ new) G) as LC. assert (content dev_rd dev_wr fs d1 (cs ++ new) = data ++ replicate (length (content dev_rd dev_wr fs d1 (cs ++ new)) - length data) 0) as EC.
  { pose proof (grown_content dev_rd dev_wr (set_sec b0 fs) (dev fs) d1 (cluster ev) cs new G0 Fc Gr) as E.
    change (content dev_rd dev_wr (set_sec b0 fs)) with (content dev_rd dev_wr fs) in E. rewrite E. rewrite length_app, length_replicate. rewrite <- (take_drop (length data) (content dev_rd dev_wr fs (dev fs) cs)) at 1. rewrite <- Fd, Hcl, <- app_assoc, <- replicate_add. do 2 f_equal. lia. }
  exists nf, new, d1, d, b. split.
  { unfold truncate. rewrite (bind_some _ _ fs _ _ E0). rewrite bind_guard by (by rewrite Fp). rewrite Fs. destruct (Z.eqb_spec sz (Z.of_nat (length data))); [lia|].
    rewrite bind_gets, (cb_ok dev_rd dev_wr) by done. change (csize (set_sec b0 fs)) with (csize fs). fold need. destruct (Z.ltb_spec (Z.of_nat (length data)) sz); [|lia].
    etransitivity; [apply (bind_some _ _ _ _ _ E1)|]. exact E2. }
  split; [done|]. split; [done|]. split; [rewrite <- He1; exact He2|]. split; [|split; [intros x Hx; by destruct (Gnew x Hx) as (? & ? & _)|split; [done|split; [done|split; [rewrite <- Hs1; exact St2|]]]]].
  - apply (file_outside dev_rd dev_wr fs d1 d dir); auto. constructor; auto; [cbn [size set_entry]; lia|]. rewrite Ld, EC. unfold data'.
    rewrite take_app_ge by lia. f_equal. rewrite take_replicate. f_equal. lia.
  - rewrite (outside_content dev_rd dev_wr fs d1 d ds (cs ++ new)) by done. apply clean_at. intros j Hj. rewrite EC, at_app_r by lia. apply at_lookup, lookup_replicate. split; [done|lia].
Qed.

(** A size within a cluster of 4 GiB wraps: the size is recorded, no cluster is allocated. *)
Lemma truncate_wraps_ok fs dir ds nm ev cs data sz :
  geo fs -> buf_ok (sec fs) -> is_dir fs (dev fs) dir ds -> ds <> [] ->
  lookup_name nm (entries fs (dev fs) ds) = Some ev -> file fs (dev fs) ds ev cs data -> 2 ^ 32 - csize fs < sz < 2 ^ 32 ->
  exists d b, truncate dev_rd dev_wr dir nm sz fs = (Some tt, at_dev d b fs) /\
    entries fs d ds = map (at_pos (pos ev) (cluster ev) sz) (entries fs (dev fs) ds) /\ outside dev_rd dev_wr fs (dev fs) d ds.
Proof.
  intros G Hb Hd Hne Hlk [Fc Fs Fd Fp Fa] Hsz. assert (512 <= csize fs <= 65536) as Hcs by (unfold csize; destruct G; lia).
  destruct (find_entry_ok dev_rd dev_wr fs dir ds nm G Hd Hne) as (b0 & Hb0 & E0). rewrite Hlk in E0. specialize (Hb0 Hb). pose proof (geo_sec dev_rd dev_wr b0 fs G) as G0.
  assert (Z.of_nat (length data) <= 65536 * 65522) as Hsm.
  { pose proof (room_bound dev_rd dev_wr fs (dev fs) _ cs G Fc). pose proof (length_content dev_rd dev_wr fs (dev fs) cs G) as L.
    assert (csize fs * Z.of_nat (length cs) <= 65536 * 65522) by (apply Z.mul_le_mono_nonneg; unfold room in *; destruct G; lia). pose proof (f_equal length Fd) as El. rewrite length_take in El. lia. }
  destruct (update_entry_ok dev_rd dev_wr (set_sec b0 fs) dir ds ev (cluster ev) sz G0 Hd) as (d & b & E2 & _ & He2 & Ho2 & St2).
  { by eapply lookup_in. }
  { destruct cs as [|c r]; [cbn in Fc; lia|]. destruct Fc as [-> Hc]. pose proof (linked_in _ _ _ c (proj1 Hc) ltac:(left)). destruct G; lia. }
  { unfold is_u32. lia. }
  exists d, b. split; [|split; [done|done]]. unfold truncate. rewrite (bind_some _ _ fs _ _ E0). rewrite bind_guard by (by rewrite Fp). rewrite Fs. destruct (Z.eqb_spec sz (Z.of_nat (length data))); [lia|].
  rewrite bind_gets, (cb_ok dev_rd dev_wr) by done. change (csize (set_sec b0 fs)) with (csize fs). assert (u32 (sz + csize fs - 1) / csize fs = 0) as ->.
  { replace (sz + csize fs - 1) with ((sz + csize fs - 1 - 2 ^ 32) + 1 * 2 ^ 32) by lia. unfold u32. rewrite Z.mod_add, Z.mod_small by lia. apply Z.div_small. lia. }
  destruct (Z.ltb_spec (Z.of_nat (length data)) sz); [|lia]. unfold ensure_chain. change (0 =? 0) with true. exact E2.
Qed.
End Truncate.
