(* ===== verification/FatRefine.v ===== *)
(** A FAT16 directory of files as a finite map from names, letter case aside, to
    byte strings: every operation on the files refines the operation on the map. *)
From stdpp Require Import gmap.
From S2P Require Import Prelude Fat16 FatDir FatChain FatFile FatName FatDirSpec FatWrite FatCreate FatUnlink FatFormat FatTruncate.
Local Open Scope vnu_scope.

(** ** Names *)

(** Names are equal when they are in capitals. *)
Definition key (nm : list Z) : list Z := map upper nm.

Lemma ci_equal_key a b : ci_equal a b = true <-> key a = key b.
Proof.
  revert b; induction a as [|x a IH]; intros [|y b]; cbn [ci_equal key map]; try done. destruct (Z.eqb_spec (upper x) (upper y)) as [E|E].
  - rewrite IH. unfold key. split; [intros ->; by rewrite E|by intros [= _ ?]].
  - split; [done|]. by intros [= ? _].
Qed.

(** The entries that are no volume labels. *)
Definition named (ev : Entry) : Prop := bit_set (attr ev) ATTR_VOLUME = false.
#[export] Instance named_dec ev : Decision (named ev) := decide (_ = _).
Definition keys (l : list Entry) : list (list Z) := map (fun ev => key (name ev)) (filter named l).

Lemma keys_app l l' : keys (l ++ l') = keys l ++ keys l'.
Proof. unfold keys. by rewrite filter_app, map_app. Qed.

Lemma keys_cons ev l : named ev -> keys (ev :: l) = key (name ev) :: keys l.
Proof. intros Hn. unfold keys. by rewrite filter_cons_True. Qed.

Lemma elem_of_keys k l : k ∈ keys l <-> exists ev, ev ∈ l /\ named ev /\ key (name ev) = k.
Proof.
  unfold keys. rewrite list_elem_of_fmap. split.
  - intros (ev & -> & [Hn Hin]%list_elem_of_filter). by exists ev.
  - intros (ev & Hin & Hn & <-). exists ev. split; [done|]. by apply list_elem_of_filter.
Qed.

(** The name finds the entry that has it, when no two entries share a name. *)
Lemma lookup_name_iff nm l ev : NoDup (keys l) -> lookup_name nm l = Some ev <-> ev ∈ l /\ named ev /\ key (name ev) = key nm.
Proof.
  unfold lookup_name, first_match. induction l as [|x l IH]; intros Hn; cbn [find].
  - split; [done|]. intros [Hin _]. by apply not_elem_of_nil in Hin.
  - destruct (decide (named x)) as [Hx|Hx].
    + rewrite (keys_cons x l Hx) in Hn. apply NoDup_cons in Hn as [Hni Hn]. unfold named in Hx. rewrite Hx. cbn [negb andb]. destruct (ci_equal (name x) nm) eqn:Ec.
      * apply ci_equal_key in Ec. split; [intros [= ->]; split; [left|done]|]. intros ([->|Hin]%elem_of_cons & He & Hk); [done|].
        exfalso. apply Hni. rewrite Ec, <- Hk. apply elem_of_keys. by exists ev.
      * rewrite IH by done. rewrite elem_of_cons. split; [tauto|]. intros ([->|Hin] & He & Hk); [|done]. apply ci_equal_key in Hk. congruence.
    + unfold keys in Hn. rewrite filter_cons_False in Hn by done. unfold named in Hx. apply not_false_is_true in Hx. rewrite Hx. cbn [negb andb]. rewrite IH by done.
      rewrite elem_of_cons. split; [tauto|]. intros ([->|Hin] & He & Hk); [unfold named in He; congruence|done].
Qed.

Lemma lookup_name_none nm l : NoDup (keys l) -> lookup_name nm l = None <-> key nm ∉ keys l.
Proof.
  intros Hn. rewrite elem_of_keys. split.
  - intros E (ev & H). apply (lookup_name_iff nm l ev Hn) in H. congruence.
  - intros Hne. destruct (lookup_name nm l) as [ev|] eqn:E; [|done]. apply (lookup_name_iff nm l ev Hn) in E. exfalso. apply Hne. by exists ev.
Qed.

(** Two listed entries do not share a position. *)
Lemma listing_pos_inj es p st a b : a ∈ listing es p st -> b ∈ listing es p st -> pos a = pos b -> a = b.
Proof.
  revert p st; induction es as [|e es IH]; intros p st Ha Hb E; cbn [listing] in *; [by apply not_elem_of_nil in Ha|].
  destruct (at_ e 0 =? 0); [by apply not_elem_of_nil in Ha|]. destruct (at_ e 0 =? 229); [by apply (IH _ _ Ha Hb)|]. destruct (_ =? 15); [by apply (IH _ _ Ha Hb)|].
  assert (forall x, x ∈ listing es (p + 32) lfn0 -> p < pos x) as Hlow by (intros x Hx; destruct (listing_slot _ _ _ _ Hx) as (i & _ & _ & -> & _); lia).
  apply elem_of_cons in Ha as [->|Ha]; apply elem_of_cons in Hb as [->|Hb]; try done.
  - specialize (Hlow b Hb). cbn in E. lia.
  - specialize (Hlow a Ha). cbn in E. lia.
  - by apply (IH _ _ Ha Hb).
Qed.

(** ** The abstraction *)

Section Refine.
Context {D : Type} (dev_rd : D -> Z -> option (list Z)) (dev_wr : D -> Z -> list Z -> option D) `{!Disk dev_rd dev_wr}.
Abbreviation geo := (geo dev_rd dev_wr).
Abbreviation is_dir := (is_dir dev_rd dev_wr).
Abbreviation entries := (entries dev_rd dev_wr).
Abbreviation dslots := (dslots dev_rd dev_wr).
Abbreviation fat := (fat dev_rd dev_wr).
Abbreviation file := (file dev_rd dev_wr).
Abbreviation room := (room dev_rd dev_wr).

(** What a name stands for. *)
Inductive node := Sub | Bytes (data : list Z).

(** A file with zeros behind its data, to the end of its last cluster. *)
Definition cfile (fs : @Fs D) (d : D) (ds : list Z) (ev : Entry) (cs data : list Z) : Prop :=
  file fs d ds ev cs data /\ clean (content dev_rd dev_wr fs d cs) data.
Definition is_node (fs : @Fs D) (d : D) (ds : list Z) (ev : Entry) (nd : node) : Prop :=
  match nd with Bytes data => exists cs, cfile fs d ds ev cs data | Sub => bit_set (attr ev) ATTR_DIR = true end.

(** The directory [dir], in the sectors [ds], holds the nodes [m]. *)
Record holds (fs : @Fs D) (dir : Z) (ds : list Z) (m : gmap (list Z) node) : Prop := {
  ho_geo : geo fs;
  ho_buf : buf_ok (sec fs);
  ho_dir : is_dir fs (dev fs) dir ds;
  ho_some : ds <> [];
  ho_closed : closed_dir (dslots fs (dev fs) ds);
  ho_names : NoDup (keys (entries fs (dev fs) ds));
  ho_nodes : forall ev, ev ∈ entries fs (dev fs) ds -> named ev -> exists nd, is_node fs (dev fs) ds ev nd /\ m !! key (name ev) = Some nd;
  ho_map : forall k nd, m !! k = Some nd -> exists ev, ev ∈ entries fs (dev fs) ds /\ named ev /\ key (name ev) = k /\ is_node fs (dev fs) ds ev nd;
  ho_apart : forall a b ca cb da db, a ∈ entries fs (dev fs) ds -> named a -> b ∈ entries fs (dev fs) ds -> named b -> a <> b ->
    file fs (dev fs) ds a ca da -> file fs (dev fs) ds b cb db -> forall x, x ∈ ca -> x ∉ cb
}.

(** A chain is what the FAT says. *)
Lemma linked_det f m c a b : m < 0xFFF4 -> linked f m (c :: a) -> linked f m (c :: b) -> a = b.
Proof.
  intros Hm. revert c b; induction a as [|x a IH]; intros c [|y b] Ha Hb; [done| | |].
  - destruct Ha as (_ & _ & Hn). destruct Hb as (_ & Hf & Hl). pose proof (linked_in _ _ _ y Hl ltac:(left)). rewrite Hf, (nextc_in y m) in Hn by lia. lia.
  - destruct Hb as (_ & _ & Hn). destruct Ha as (_ & Hf & Hl). pose proof (linked_in _ _ _ x Hl ltac:(left)). rewrite Hf, (nextc_in x m) in Hn by lia. lia.
  - destruct Ha as (_ & Hf & Ha). destruct Hb as (_ & Hf' & Hb). assert (x = y) as -> by congruence. f_equal. by apply (IH y).
Qed.

Lemma file_det fs d ds ev ca da cb db : geo fs -> file fs d ds ev ca da -> file fs d ds ev cb db -> ca = cb /\ da = db.
Proof.
  intros G [Ca Sa Da _ _] [Cb Sb Db _ _]. assert (ca = cb) as ->.
  { destruct ca as [|a ca], cb as [|b cb]; [done| | |].
    - cbn in Ca. destruct Cb as [E Hc]. pose proof (linked_in _ _ _ b (proj1 Hc) ltac:(left)). lia.
    - cbn in Cb. destruct Ca as [E Hc]. pose proof (linked_in _ _ _ a (proj1 Hc) ltac:(left)). lia.
    - destruct Ca as [E1 [H1 _]], Cb as [E2 [H2 _]]. assert (a = b) as -> by congruence. f_equal. apply (linked_det (fat fs d 0) (max_cluster fs) b); [destruct G; lia|done|done]. }
  split; [done|]. rewrite Da, Db. f_equal. lia.
Qed.

Lemma file_at d' b fs d ds ev cs data : file fs d ds ev cs data -> file (at_dev d' b fs) d ds ev cs data.
Proof. intros []. by constructor. Qed.

Lemma file_of d' b fs d ds ev cs data : file (at_dev d' b fs) d ds ev cs data -> file fs d ds ev cs data.
Proof. intros []. by constructor. Qed.

Lemma is_node_at d' b fs d ds ev nd : is_node fs d ds ev nd -> is_node (at_dev d' b fs) d ds ev nd.
Proof. destruct nd as [|data]; [done|]. intros (cs & F & C). exists cs. split; [by apply file_at|done]. Qed.

(** Looking a name up. *)
Lemma holds_lookup fs dir ds m nm nd :
  holds fs dir ds m -> m !! key nm = Some nd ->
  exists ev, lookup_name nm (entries fs (dev fs) ds) = Some ev /\ ev ∈ entries fs (dev fs) ds /\ named ev /\ key (name ev) = key nm /\ is_node fs (dev fs) ds ev nd.
Proof.
  intros H E. destruct (ho_map _ _ _ _ H _ _ E) as (ev & Hin & Hn & Hk & F). exists ev. split; [|done]. apply lookup_name_iff; [by destruct H|done].
Qed.

Lemma holds_missing fs dir ds m nm : holds fs dir ds m -> m !! key nm = None -> lookup_name nm (entries fs (dev fs) ds) = None.
Proof.
  intros H E. apply lookup_name_none; [by destruct H|]. intros (ev & Hin & Hn & Hk)%elem_of_keys. destruct (ho_nodes _ _ _ _ H ev Hin Hn) as (nd & _ & E').
  congruence.
Qed.

(** The entries with a name other than that of [ev] are those that are not [ev]. *)
Lemma keys_inj l a b : NoDup (keys l) -> a ∈ l -> named a -> b ∈ l -> named b -> key (name a) = key (name b) -> a = b.
Proof.
  intros Hn Ha Na Hb Nb E. assert (lookup_name (name b) l = Some a) as E1 by (by apply lookup_name_iff). assert (lookup_name (name b) l = Some b) as E2 by (by apply lookup_name_iff). congruence.
Qed.

(** ** A change of one name *)

(** Other files are left alone by a change of clusters that were free or belong to [cs]. *)
Definition spares (fs : @Fs D) (d d' : D) (ds cs : list Z) : Prop :=
  forall e c2 d2, cfile fs d ds e c2 d2 -> (forall x, x ∈ c2 -> x ∉ cs) -> cfile fs d' ds e c2 d2.

Lemma spares_ok fs d d1 d' dir ds cs F S :
  geo fs -> kept dev_rd dev_wr fs d d1 F S -> outside dev_rd dev_wr fs d1 d' ds -> is_dir fs d1 dir ds ->
  (forall x, (x ∈ F) \/ (x ∈ S) -> x ∈ cs \/ fat fs d 0 x = 0) -> spares fs d d' ds cs.
Proof.
  intros G K Ho Hd Hx e c2 d2 [F2 C2] Hdis. assert (forall x, x ∈ c2 -> (x ∉ F) /\ (x ∉ S)) as Hn.
  { intros x Hin. destruct (fchain_in _ _ _ _ _ (f_chain _ _ _ _ _ _ _ _ F2) Hin) as [_ Hu]. split; intros Hin'; (destruct (Hx x) as [Hc|H0]; [by auto| |done]); by apply (Hdis x). }
  assert (file fs d1 ds e c2 d2) as F1 by (by apply (file_kept dev_rd dev_wr fs d d1 F S); auto; intros x Hin; apply Hn).
  split; [by apply (file_outside dev_rd dev_wr fs d1 d' dir)|]. rewrite (outside_content dev_rd dev_wr fs d1 d' ds c2) by (done || by destruct F1).
  rewrite (content_kept dev_rd dev_wr fs d d1 F S c2 K); [done|]. intros x Hin. split; [by apply (fchain_in _ _ _ _ _ (f_chain _ _ _ _ _ _ _ _ F2) Hin)|by apply Hn].
Qed.

Definition changed (m : gmap (list Z) node) (k : list Z) (fresh : option (Entry * list Z * list Z)) : gmap (list Z) node :=
  match fresh with Some (_, _, data) => <[k := Bytes data]> m | None => delete k m end.

(** The name [k] gets the entry [fresh], or goes. *)
Lemma holds_change fs dir ds m d b k fresh cs :
  holds fs dir ds m -> is_dir fs d dir ds -> buf_ok b -> closed_dir (dslots fs d ds) -> NoDup (keys (entries fs d ds)) ->
  (forall e, named e -> e ∈ entries fs d ds <-> (e ∈ entries fs (dev fs) ds /\ key (name e) <> k) \/ exists cs' data', fresh = Some (e, cs', data')) ->
  (forall e cs' data', fresh = Some (e, cs', data') -> key (name e) = k /\ named e /\ cfile fs d ds e cs' data' /\ forall x, x ∈ cs' -> x ∈ cs \/ fat fs (dev fs) 0 x = 0) ->
  (forall e c2 d2, e ∈ entries fs (dev fs) ds -> named e -> key (name e) <> k -> file fs (dev fs) ds e c2 d2 -> forall x, x ∈ c2 -> x ∉ cs) ->
  spares fs (dev fs) d ds cs -> holds (at_dev d b fs) dir ds (changed m k fresh).
Proof.
  intros H Hd Hb Hcl Hnd Hin Hfr Hown Hsp. pose proof (ho_geo _ _ _ _ H) as G.
  assert (forall e nd, e ∈ entries fs (dev fs) ds -> named e -> key (name e) <> k -> is_node fs (dev fs) ds e nd -> is_node fs d ds e nd) as Hnode.
  { intros e [|data] He Hn Hk; [done|]. intros (c2 & F2). exists c2. apply Hsp; [done|]. intros x. apply (Hown e c2 data He Hn Hk (proj1 F2)). }
  assert (forall k', k' <> k -> changed m k fresh !! k' = m !! k') as Hoth.
  { intros k' Hk. unfold changed. destruct fresh as [[[? ?] ?]|]; [by rewrite lookup_insert_ne|by rewrite lookup_delete_ne]. }
  assert (forall e cs' data', fresh = Some (e, cs', data') -> changed m k fresh !! k = Some (Bytes data')) as Hnew by (intros e cs' data' ->; cbn; by rewrite lookup_insert_eq).
  constructor; [by apply geo_at|done|done|by destruct H|done|done| | |].
  - intros e He Hn. apply (Hin e Hn) in He as [[He Hk]|(cs' & data' & Ef)].
    + destruct (ho_nodes _ _ _ _ H e He Hn) as (nd & Hnd' & E). exists nd. split; [apply is_node_at; auto|]. by rewrite Hoth.
    + destruct (Hfr _ _ _ Ef) as (Hk & _ & F & _). exists (Bytes data'). split; [apply is_node_at; by exists cs'|]. rewrite Hk. by apply (Hnew e cs').
  - intros k' nd E. destruct (decide (k' = k)) as [->|Hk].
    + unfold changed in E. destruct fresh as [[[e cs'] data']|] eqn:Ef; [|by rewrite lookup_delete_eq in E]. rewrite lookup_insert_eq in E. injection E as <-.
      destruct (Hfr _ _ _ eq_refl) as (Hk & Hn & F & _). exists e. split; [apply (Hin e Hn); right; by exists cs', data'|]. do 2 (split; [done|]). apply is_node_at. by exists cs'.
    + rewrite Hoth in E by done. destruct (ho_map _ _ _ _ H _ _ E) as (e & He & Hn & Hke & Hnd'). exists e. split; [apply (Hin e Hn); left; by rewrite Hke|]. do 2 (split; [done|]).
      apply is_node_at, Hnode; [done|done|by rewrite Hke|done].
  - assert (forall e c2 d2, e ∈ entries fs (dev fs) ds -> named e -> key (name e) <> k -> file fs d ds e c2 d2 -> file fs (dev fs) ds e c2 d2) as Hold.
    { intros e c2 d2 He Hn Hk F. destruct (ho_nodes _ _ _ _ H e He Hn) as ([|data] & Hnd' & _); [destruct F; cbn in Hnd'; congruence|].
      destruct (Hnode e _ He Hn Hk Hnd') as (c3 & F3 & _). destruct Hnd' as (c4 & F4). pose proof (Hsp e c4 data F4) as F5.
      destruct (file_det fs d ds e _ _ _ _ G F (proj1 (F5 ltac:(intros x; by apply (Hown e c4 data He Hn Hk (proj1 F4)))))) as [-> ->]. apply F4. }
    assert (forall e c2 d2 (cs' : list Z) x, e ∈ entries fs (dev fs) ds -> named e -> key (name e) <> k -> file fs d ds e c2 d2 -> (forall x, x ∈ cs' -> x ∈ cs \/ fat fs (dev fs) 0 x = 0) -> x ∈ c2 -> x ∉ cs') as Hdis.
    { intros e c2 d2 cs' x He Hn Hk F Hc' Hx Hx'. apply (Hold e) in F; auto. destruct (Hc' x Hx') as [Hc|H0]; [by apply (Hown e c2 d2 He Hn Hk F x)|].
      by apply (fchain_in _ _ _ _ _ (f_chain _ _ _ _ _ _ _ _ F) Hx). }
    intros e1 e2 c1 c2 d1 d2 He1 Hn1 He2 Hn2 Hne F1%file_of F2%file_of x Hx. apply (Hin e1 Hn1) in He1 as [[He1 Hk1]|(cs' & data' & Ef)]; apply (Hin e2 Hn2) in He2 as [[He2 Hk2]|(cs2 & data2 & Ef2)].
    + apply (ho_apart _ _ _ _ H e1 e2 c1 c2 d1 d2); auto.
    + destruct (Hfr _ _ _ Ef2) as (_ & _ & [F _] & Hf). destruct (file_det fs d ds e2 _ _ _ _ G F2 F) as [-> _]. by apply (Hdis e1 c1 d1).
    + destruct (Hfr _ _ _ Ef) as (_ & _ & [F _] & Hf). destruct (file_det fs d ds e1 _ _ _ _ G F1 F) as [-> _]. intros Hx2. by apply (Hdis e2 c2 d2 cs' x He2 Hn2 Hk2 F2 Hf Hx2).
    + congruence.
Qed.

(** An entry that is not the one at a position stays. *)
Lemma at_pos_named q clu sz ev : named (at_pos q clu sz ev) <-> named ev.
Proof. unfold at_pos, named. by destruct (_ =? _). Qed.

Lemma keys_at_pos q clu sz l : keys (map (at_pos q clu sz) l) = keys l.
Proof.
  induction l as [|ev l IH]; [done|]. cbn [map]. destruct (decide (named ev)) as [Hn|Hn].
  - rewrite !keys_cons, IH by (try apply at_pos_named; done). f_equal. unfold at_pos. by destruct (_ =? _).
  - unfold keys in *. rewrite !filter_cons_False by (rewrite ?at_pos_named; done). done.
Qed.

Lemma in_at_pos es ev clu sz e :
  let l := listing es 0 lfn0 in NoDup (keys l) -> ev ∈ l -> named ev -> named e ->
  e ∈ map (at_pos (pos ev) clu sz) l <-> (e ∈ l /\ key (name e) <> key (name ev)) \/ e = set_entry ev clu sz.
Proof.
  intros l Hn Hev Nev Ne. rewrite list_elem_of_fmap. split.
  - intros (x & -> & Hx). unfold at_pos in *. destruct (Z.eqb_spec (pos x) (pos ev)) as [E|E].
    + right. by rewrite (listing_pos_inj _ _ _ x ev Hx Hev E).
    + left. split; [done|]. intros Hk. by rewrite (keys_inj l x ev) in E.
  - intros [[Hin Hk]| ->].
    + exists e. split; [|done]. unfold at_pos. destruct (Z.eqb_spec (pos e) (pos ev)) as [E|E]; [|done]. by rewrite (listing_pos_inj _ _ _ e ev Hin Hev E) in Hk.
    + exists ev. split; [|done]. unfold at_pos. by rewrite Z.eqb_refl.
Qed.

(** The entry of a file has changed its first cluster and its size. *)
Lemma holds_update fs dir ds m ev cs data clu sz cs' data' d b :
  holds fs dir ds m -> ev ∈ entries fs (dev fs) ds -> named ev -> file fs (dev fs) ds ev cs data ->
  is_dir fs d dir ds -> buf_ok b -> steady (dslots fs (dev fs) ds) (dslots fs d ds) ->
  entries fs d ds = map (at_pos (pos ev) clu sz) (entries fs (dev fs) ds) -> cfile fs d ds (set_entry ev clu sz) cs' data' ->
  (forall x, x ∈ cs' -> x ∈ cs \/ fat fs (dev fs) 0 x = 0) -> spares fs (dev fs) d ds cs ->
  holds (at_dev d b fs) dir ds (<[key (name ev) := Bytes data']> m).
Proof.
  intros H Hev Nev F Hd Hb [_ Hst] He F' Hc' Hsp. pose proof (ho_names _ _ _ _ H) as Hn.
  apply (holds_change fs dir ds m d b (key (name ev)) (Some (set_entry ev clu sz, cs', data')) cs); auto.
  - by apply Hst, (ho_closed _ _ _ _ H).
  - by rewrite He, keys_at_pos.
  - intros e Ne. rewrite He. unfold FatDirSpec.entries at 1. rewrite in_at_pos by done. split; (intros [?|Hx]; [by left|right]); [subst e; by exists cs', data'|]. by destruct Hx as (? & ? & [= ? _ _]).
  - intros e c2 d2 [= <- <- <-]. done.
  - intros e c2 d2 Hin Ne Hk F2 x Hx. apply (ho_apart _ _ _ _ H e ev c2 cs d2 data); auto. by intros ->.
Qed.

(** A new entry has come. *)
Lemma holds_append fs dir ds m ev d b :
  holds fs dir ds m -> m !! key (name ev) = None -> named ev -> is_dir fs d dir ds -> buf_ok b -> closed_dir (dslots fs d ds) -> outside dev_rd dev_wr fs (dev fs) d ds ->
  entries fs d ds = entries fs (dev fs) ds ++ [ev] -> cluster ev = 0 -> size ev = 0 -> bit_set (attr ev) ATTR_DIR = false ->
  holds (at_dev d b fs) dir ds (<[key (name ev) := Bytes []]> m).
Proof.
  intros H Hm Nev Hd Hb Hcl Ho He Hc0 Hs0 Ha. assert (key (name ev) ∉ keys (entries fs (dev fs) ds)) as Hni.
  { intros (e & Hin & Ne & Hk)%elem_of_keys. destruct (ho_nodes _ _ _ _ H e Hin Ne) as (nd & _ & E). congruence. }
  apply (holds_change fs dir ds m d b (key (name ev)) (Some (ev, [], [])) []); auto.
  - rewrite He, keys_app, keys_cons by done. apply NoDup_app. split; [by destruct H|]. split; [|apply NoDup_singleton]. intros k Hk Hk'. change (keys []) with (@nil (list Z)) in Hk'.
    apply list_elem_of_singleton in Hk' as ->. done.
  - intros e Ne. rewrite He, elem_of_app, list_elem_of_singleton. split.
    + intros [Hin| ->]; [left; split; [done|]|right; by exists [], []]. intros Hk. apply Hni. apply elem_of_keys. by exists e.
    + intros [[Hin _]|(? & ? & [= <- _ _])]; [by left|by right].
  - intros e c2 d2 [= <- <- <-]. do 2 (split; [done|]). split; [|by intros x ?%not_elem_of_nil]. split; [|done]. constructor; auto. intros c i Hc. by apply not_elem_of_nil in Hc.
  - intros e c2 d2 _ _ _ _ x _. apply not_elem_of_nil.
  - apply (spares_ok fs (dev fs) (dev fs) d dir ds [] [] []); [by destruct H|apply kept_refl|done|by destruct H|]. intros x [Hx|Hx]; by apply not_elem_of_nil in Hx.
Qed.

(** The entry of a file has gone. *)
Lemma holds_remove fs dir ds m ev cs data before after d b :
  holds fs dir ds m -> named ev -> file fs (dev fs) ds ev cs data -> entries fs (dev fs) ds = before ++ ev :: after -> entries fs d ds = before ++ after ->
  is_dir fs d dir ds -> buf_ok b -> steady (dslots fs (dev fs) ds) (dslots fs d ds) -> spares fs (dev fs) d ds cs ->
  holds (at_dev d b fs) dir ds (delete (key (name ev)) m).
Proof.
  intros H Nev F L1 L2 Hd Hb [_ Hst] Hsp. pose proof (ho_names _ _ _ _ H) as Hn. pose proof Hn as Hn'. rewrite L1, keys_app, keys_cons in Hn' by done.
  assert (forall e, named e -> e ∈ before ++ after -> key (name e) <> key (name ev)) as Hne.
  { intros e Ne Hin Hk. apply NoDup_app in Hn' as (_ & H1 & [H2 _]%NoDup_cons). apply elem_of_app in Hin as [Hin|Hin].
    - apply (H1 (key (name ev))); [|left]. apply elem_of_keys. by exists e.
    - apply H2, elem_of_keys. by exists e. }
  apply (holds_change fs dir ds m d b (key (name ev)) None cs); auto.
  - by apply Hst, (ho_closed _ _ _ _ H).
  - rewrite L2, keys_app. apply NoDup_app in Hn' as (N1 & N2 & [_ N3]%NoDup_cons). apply NoDup_app. split; [done|]. split; [|done]. intros k Hk Hk'. apply (N2 k Hk). by right.
  - intros e Ne. rewrite L1, L2. split.
    + intros Hin. left. split; [|by apply Hne]. apply elem_of_app in Hin as [Hin|Hin]; apply elem_of_app; [by left|right; by right].
    + intros [[Hin Hk]|(? & ? & ?)]; [|done]. apply elem_of_app in Hin as [Hin|[->|Hin]%elem_of_cons]; [apply elem_of_app; by left|done|apply elem_of_app; by right].
  - done.
  - intros e c2 d2 Hin Ne Hk F2 x Hx. apply (ho_apart _ _ _ _ H e ev c2 cs d2 data); auto; [|by intros ->]. rewrite L1. apply elem_of_app. right. left.
Qed.

(** ** The operations on the map *)

Inductive op :=
  | Read (nm : list Z) (off len : Z)
  | Write (nm : list Z) (off : Z) (src : list Z)
  | Create (nm : list Z)
  | Truncate (nm : list Z) (sz : Z)
  | Unlink (nm : list Z).
Inductive result := Got (l : list Z) | Count (n : Z) | Done | Failed.

Definition outcome {A} (f : A -> result) (r : option A * @Fs D) : result * @Fs D := (match fst r with Some a => f a | None => Failed end, snd r).
Definition perform (dir : Z) (o : op) (fs : @Fs D) : result * @Fs D :=
  match o with
  | Read nm off len => outcome Got (read dev_rd dir nm off len fs)
  | Write nm off src => outcome Count (write dev_rd dev_wr dir nm off src fs)
  | Create nm => outcome (fun _ => Done) (create dev_rd dev_wr dir nm fs)
  | Truncate nm sz => outcome (fun _ => Done) (truncate dev_rd dev_wr dir nm sz fs)
  | Unlink nm => outcome (fun _ => Done) (unlink dev_rd dev_wr dir nm fs)
  end.

(** A write to a file that is there. *)
Definition spec_write (m : gmap (list Z) node) (k data : list Z) (off : Z) (src : list Z) : result * gmap (list Z) node :=
  if Z.of_nat (length src) =? 0 then (Count 0, m)
  else if 0xFFFFFFFF - Z.of_nat (length src) <? off then (Failed, m)
  else (Count (Z.of_nat (length src)), <[k := Bytes (overwrite data (Z.to_nat off) src)]> m).
Definition spec (o : op) (m : gmap (list Z) node) : result * gmap (list Z) node :=
  match o with
  | Read nm off len => match m !! key nm with Some (Bytes data) => (Got (take (Z.to_nat len) (drop (Z.to_nat off) data)), m) | _ => (Failed, m) end
  | Write nm off src =>
      match m !! key nm with
      | Some (Bytes data) => spec_write m (key nm) data off src
      | Some Sub => (Failed, m)
      | None => spec_write (<[key nm := Bytes []]> m) (key nm) [] off src
      end
  | Create nm => match m !! key nm with Some _ => (Failed, m) | None => (Done, <[key nm := Bytes []]> m) end
  | Truncate nm sz =>
      match m !! key nm with
      | Some (Bytes data) => (Done, <[key nm := Bytes (take (Z.to_nat sz) data ++ replicate (Z.to_nat sz - length data) 0)]> m)
      | _ => (Failed, m)
      end
  | Unlink nm => match m !! key nm with Some (Bytes _) => (Done, delete (key nm) m) | _ => (Failed, m) end
  end.

(** There is room: clusters for the bytes, slots for the entries of a new name. *)
Definition clusters (fs : @Fs D) (n : Z) : Z := (n + csize fs - 1) / csize fs.
Definition affords (fs : @Fs D) (data : list Z) (n : Z) : Prop := clusters fs n <= clusters fs (Z.of_nat (length data)) + room fs (dev fs).
Definition new_name (fs : @Fs D) (ds nm : list Z) : Prop := storable nm /\ (length (used (dslots fs (dev fs) ds)) + 21 <= 16 * length ds)%nat.
Definition fits (fs : @Fs D) (ds : list Z) (m : gmap (list Z) node) (o : op) : Prop :=
  match o with
  | Read _ off len => 0 <= off /\ 0 <= len
  | Write nm off src =>
      0 <= off /\ bytes src /\
      match m !! key nm with
      | Some (Bytes data) => src <> [] -> off + Z.of_nat (length src) < 2 ^ 32 -> affords fs data (off + Z.of_nat (length src))
      | Some Sub => True
      | None => new_name fs ds nm /\ (src <> [] -> off + Z.of_nat (length src) < 2 ^ 32 -> affords fs [] (off + Z.of_nat (length src)))
      end
  | Create nm => match m !! key nm with Some _ => True | None => new_name fs ds nm end
  | Truncate nm sz => 0 <= sz /\ match m !! key nm with Some (Bytes data) => Z.of_nat (length data) < sz -> affords fs data sz | _ => True end
  | Unlink _ => True
  end.

(** A chain has the clusters its bytes need. *)
Lemma affords_room fs d ds ev cs data n :
  geo fs -> dev fs = d -> file fs d ds ev cs data -> 0 < n -> affords fs data n -> n <= csize fs * (Z.of_nat (length cs) + room fs (dev fs)).
Proof.
  intros G <- F Hn Ha. unfold affords, clusters in Ha. assert (512 <= csize fs) as Hcs by (unfold csize; destruct G; lia).
  assert (Z.of_nat (length data) <= csize fs * Z.of_nat (length cs)) as Hle.
  { pose proof (length_content dev_rd dev_wr fs (dev fs) cs G) as L. pose proof (f_equal length (f_data _ _ _ _ _ _ _ _ F)) as El. rewrite length_take in El. lia. }
  assert ((Z.of_nat (length data) + csize fs - 1) / csize fs <= Z.of_nat (length cs)) as Hc.
  { apply Z.lt_succ_r, Z.div_lt_upper_bound; [lia|]. nia. }
  pose proof (Z_div_mod_eq_full (n + csize fs - 1) (csize fs)) as E. pose proof (Z.mod_pos_bound (n + csize fs - 1) (csize fs) ltac:(lia)) as B.
  set (q := (n + csize fs - 1) / csize fs) in *. assert (n <= csize fs * q) by lia. nia.
Qed.

(** The buffer does not matter. *)
Lemma holds_sec fs dir ds m b : holds fs dir ds m -> buf_ok b -> holds (set_sec b fs) dir ds m.
Proof.
  intros H Hb. destruct H as [G _ Hd Hne Hcl Hn Hno Hm Ha]. assert (set_sec b fs = at_dev (dev fs) b fs) as -> by (by destruct fs). constructor; auto; [by apply geo_at| | |].
  - intros ev Hin Nev. destruct (Hno ev Hin Nev) as (nd & Hnd & E). exists nd. split; [by apply is_node_at|done].
  - intros k nd E. destruct (Hm k nd E) as (ev & Hin & Nev & Hk & Hnd). exists ev. do 3 (split; [done|]). by apply is_node_at.
  - intros x y ca cb da db Hx Nx Hy Ny Hne' Fx%file_of Fy%file_of. by apply (Ha x y ca cb da db).
Qed.

(** What looking up the name gives. *)
Lemma holds_find fs dir ds m nm :
  holds fs dir ds m -> exists b ev, find_entry dev_rd dir nm fs = (ev, set_sec b fs) /\ holds (set_sec b fs) dir ds m /\
    match m !! key nm with
    | None => ev = None
    | Some Sub => exists e, ev = Some e /\ bit_set (attr e) ATTR_DIR = true
    | Some (Bytes data) => exists e, ev = Some e /\ bit_set (attr e) ATTR_DIR = false
    end.
Proof.
  intros H. destruct (find_entry_ok dev_rd dev_wr fs dir ds nm) as (b & Hb & E); [by destruct H..|]. exists b, (lookup_name nm (entries fs (dev fs) ds)). split; [done|].
  split; [apply holds_sec; [done|apply Hb; by destruct H]|]. destruct (m !! key nm) as [nd|] eqn:Em; [|by eapply holds_missing].
  destruct (holds_lookup _ _ _ _ _ _ H Em) as (ev & -> & _ & _ & _ & Hnd). destruct nd as [|data]; exists ev; (split; [done|]); [done|]. destruct Hnd as (cs & F & _). by destruct F.
Qed.

(** ** Each operation does what it does on the map *)

Definition refines (fs : @Fs D) (dir : Z) (ds : list Z) (m : gmap (list Z) node) (o : op) : Prop :=
  exists d b, perform dir o fs = (fst (spec o m), at_dev d b fs) /\ holds (at_dev d b fs) dir ds (snd (spec o m)).

Lemma refines_same fs dir ds m o r b : perform dir o fs = (r, set_sec b fs) -> spec o m = (r, m) -> holds (set_sec b fs) dir ds m -> refines fs dir ds m o.
Proof. intros E Es H. assert (set_sec b fs = at_dev (dev fs) b fs) as E' by (by destruct fs). rewrite E' in *. exists (dev fs), b. by rewrite Es. Qed.

(** A name that is not there, or not a file's. *)
Lemma refines_fails {A} (f : A -> result) fs dir ds m o nm (k : Entry -> Fat16.M D A) :
  holds fs dir ds m -> (forall fs, perform dir o fs = outcome f (bind (find_entry dev_rd dir nm) (fun ev => bind (guard (negb (bit_set (attr ev) ATTR_DIR))) (fun _ => k ev)) fs)) ->
  (match m !! key nm with Some (Bytes _) => False | _ => True end) -> spec o m = (Failed, m) -> refines fs dir ds m o.
Proof.
  intros H Ep Hno Es. destruct (holds_find fs dir ds m nm H) as (b & ev & E & H' & Hm). apply (refines_same fs dir ds m o Failed b); [|done|done].
  rewrite Ep. unfold outcome, bind. rewrite E. destruct (m !! key nm) as [[|data]|]; [|done|]; [destruct Hm as (e & -> & Ha)|by subst ev]. cbn. by rewrite Ha.
Qed.

Lemma read_refines fs dir ds m nm off len : holds fs dir ds m -> 0 <= off -> 0 <= len -> refines fs dir ds m (Read nm off len).
Proof.
  intros H Ho Hl. destruct (m !! key nm) as [[|data]|] eqn:Em; [eapply (refines_fails Got _ _ _ _ _ nm); [done|intros; reflexivity|by rewrite Em|cbn; by rewrite Em]| |eapply (refines_fails Got _ _ _ _ _ nm); [done|intros; reflexivity|by rewrite Em|cbn; by rewrite Em]].
  destruct (holds_lookup _ _ _ _ _ _ H Em) as (ev & Hlk & _ & _ & _ & cs & F & _).
  destruct (read_ok dev_rd dev_wr fs dir ds nm ev cs data off len) as (b & E & Hb); auto; [by destruct H..|]. eapply (refines_same _ _ _ _ _ _ b); [|cbn; by rewrite Em|by apply holds_sec].
  cbn. unfold outcome. by rewrite E.
Qed.

Lemma unlink_refines fs dir ds m nm : holds fs dir ds m -> refines fs dir ds m (Unlink nm).
Proof.
  intros H. destruct (m !! key nm) as [[|data]|] eqn:Em; [eapply (refines_fails (fun _ => Done) _ _ _ _ _ nm); [done|intros; reflexivity|by rewrite Em|cbn; by rewrite Em]| |eapply (refines_fails (fun _ => Done) _ _ _ _ _ nm); [done|intros; reflexivity|by rewrite Em|cbn; by rewrite Em]].
  destruct (holds_lookup _ _ _ _ _ _ H Em) as (ev & Hlk & Hin & Nev & Hk & cs & F & _).
  destruct (unlink_ok dev_rd dev_wr fs dir ds nm ev cs data) as (d1 & d & b & before & after & E & Hb & Hd & L1 & L2 & K & _ & Ho & Hd1 & Hst); auto; [by destruct H..|].
  exists d, b. cbn. unfold outcome. rewrite E, Em, <- Hk. split; [done|]. apply (holds_remove fs dir ds m ev cs data before after); auto.
  apply (spares_ok fs (dev fs) d1 d dir ds cs cs []); auto; [by destruct H|]. intros x [Hx|Hx]; [by left|by apply not_elem_of_nil in Hx].
Qed.

Lemma create_refines fs dir ds m nm : holds fs dir ds m -> fits fs ds m (Create nm) -> refines fs dir ds m (Create nm).
Proof.
  intros H Hf. destruct (m !! key nm) as [nd|] eqn:Em.
  - destruct (holds_find fs dir ds m nm H) as (b & ev & E & H' & Hm). rewrite Em in Hm. apply (refines_same fs dir ds m _ Failed b); [|cbn; by rewrite Em|done].
    assert (exists e, ev = Some e) as [e ->] by (destruct nd; destruct Hm as (e & -> & _); by exists e). cbn. unfold create, outcome, attempt. by rewrite E.
  - cbn in Hf. rewrite Em in Hf. destruct Hf as [Hst Hroom]. pose proof (holds_missing _ _ _ _ _ H Em) as Hlk.
    destruct (create_ok dev_rd dev_wr fs dir ds nm) as (d & b & ev & E & Hb & Ho & Hcl & En & Nm & Hc & Hs & Ha); auto; [by destruct H..|].
    exists d, b. cbn. unfold outcome. rewrite E, Em. split; [done|]. cbn. rewrite <- Nm. assert (is_dir fs d dir ds) as Hd by (apply (outside_is_dir dev_rd dev_wr fs (dev fs)); auto; by destruct H).
    apply holds_append; auto; [by rewrite Nm|unfold named; by rewrite Ha|by rewrite Ha].
Qed.

(** A write to a file that is there. *)
Lemma write_there fs dir ds m nm data off src :
  holds fs dir ds m -> m !! key nm = Some (Bytes data) -> 0 <= off -> bytes src -> (src <> [] -> off + Z.of_nat (length src) < 2 ^ 32 -> affords fs data (off + Z.of_nat (length src))) ->
  exists d b, outcome Count (write dev_rd dev_wr dir nm off src fs) = (fst (spec_write m (key nm) data off src), at_dev d b fs) /\ holds (at_dev d b fs) dir ds (snd (spec_write m (key nm) data off src)).
Proof.
  intros H Em Ho Hby Haff. destruct (holds_lookup _ _ _ _ _ _ H Em) as (ev & Hlk & Hin & Nev & Hk & cs & F & C). pose proof (f_plain _ _ _ _ _ _ _ _ F) as Fp.
  assert (forall b fs1, set_sec b fs = fs1 -> fs1 = at_dev (dev fs) b fs) as Hsec by (intros b fs1 <-; by destruct fs).
  destruct (find_entry_ok dev_rd dev_wr fs dir ds nm) as (b0 & Hb0 & E0); [by destruct H..|]. rewrite Hlk in E0. specialize (Hb0 ltac:(by destruct H)).
  assert (forall A (k : Entry -> Fat16.M D A), bind (attempt (find_entry dev_rd dir nm) (fun e => match e with Some e => ret e | None => bind (create dev_rd dev_wr dir nm) (fun _ => find_entry dev_rd dir nm) end)) (fun e => bind (guard (negb (bit_set (attr e) ATTR_DIR))) (fun _ => k e)) fs = k ev (set_sec b0 fs)) as Est.
  { intros A k. rewrite (bind_some _ _ fs ev (set_sec b0 fs)) by (unfold attempt; by rewrite E0). by rewrite bind_guard by (by rewrite Fp). }
  unfold spec_write. destruct (Z.eqb_spec (Z.of_nat (length src)) 0) as [Hz|Hz]; [|destruct (Z.ltb_spec (0xFFFFFFFF - Z.of_nat (length src)) off) as [Hw|Hw]].
  - exists (dev fs), b0. unfold outcome, write. rewrite Est, Hz. cbn. rewrite <- (Hsec b0 _ eq_refl). split; [done|]. by apply holds_sec.
  - exists (dev fs), b0. unfold outcome, write. rewrite Est. destruct (Z.eqb_spec (Z.of_nat (length src)) 0); [done|]. rewrite <- (Hsec b0 _ eq_refl). split; [|by apply holds_sec].
    destruct (Z.ltb_spec (0xFFFFFFFF - Z.of_nat (length src)) off); [done|lia].
  - assert (src <> []) as Hsn by (by intros ->). destruct (write_ok dev_rd dev_wr fs dir ds nm ev cs data off src) as (nf & new & d3 & d & b & E & Hb & Hd & En & F' & Hnew & K & Hout & Hst & Hcl); auto; [by destruct H..| |].
    { apply (affords_room fs (dev fs) ds ev cs data); auto; [by destruct H|lia|apply Haff; [done|lia]]. }
    exists d, b. unfold outcome. rewrite E, <- Hk. split; [done|]. eapply (holds_update fs dir ds m ev cs data _ _ (cs ++ new)); eauto; [split; [exact F'|by apply Hcl]| |].
    + intros x [Hx|Hx]%elem_of_app; [by left|right; by apply Hnew].
    + assert (apart fs (cs ++ new) ds) as Ha by (apply apart_app; [by destruct F|apply (apart_free dev_rd dev_wr fs (dev fs) dir); auto; by destruct H]).
      destruct (kept_dir dev_rd dev_wr fs (dev fs) d3 (cs ++ new) (cs ++ new) dir ds) as [Hd3 _]; auto; [by destruct H..|].
      apply (spares_ok fs (dev fs) d3 d dir ds cs (cs ++ new) (cs ++ new)); auto; [by destruct H|]. intros x Hx. assert (x ∈ cs ++ new) as [Hx'|Hx']%elem_of_app by tauto; [by left|right; by apply Hnew].
Qed.

(** A write to a name that is not there goes on as one to the empty file it creates. *)
Lemma write_missing fs dir ds m nm off src :
  holds fs dir ds m -> m !! key nm = None -> new_name fs ds nm ->
  exists d b, write dev_rd dev_wr dir nm off src fs = write dev_rd dev_wr dir nm off src (at_dev d b fs) /\ holds (at_dev d b fs) dir ds (<[key nm := Bytes []]> m) /\
    room fs d = room fs (dev fs).
Proof.
  intros H Em [Hst Hroom]. pose proof (holds_missing _ _ _ _ _ H Em) as Hlk. destruct (holds_find fs dir ds m nm H) as (b0 & ev0 & E0 & H0 & Hm). rewrite Em in Hm. subst ev0.
  destruct (create_ok dev_rd dev_wr (set_sec b0 fs) dir ds nm) as (d & b & ev & E & Hb & Ho & Hcl & En & Nm & Hc & Hs & Ha); auto; [by destruct H0..|].
  assert (is_dir fs d dir ds) as Hd by (apply (outside_is_dir dev_rd dev_wr fs (dev fs)); auto; by destruct H).
  assert (holds (at_dev d b fs) dir ds (<[key nm := Bytes []]> m)) as H1.
  { rewrite <- Nm. apply (holds_append fs dir ds m ev d b); auto; [by rewrite Nm|unfold named; by rewrite Ha|by rewrite Ha]. }
  destruct (holds_find _ dir ds _ nm H1) as (b1 & ev1 & E1 & _ & Hm1). rewrite lookup_insert_eq in Hm1. destruct Hm1 as (e & -> & _).
  exists d, b. split; [by apply (write_creates dev_rd dev_wr fs dir nm off src _ _ _ _ E0 E E1)|]. split; [done|]. apply (outside_room dev_rd dev_wr fs (dev fs) d dir ds); auto; by destruct H.
Qed.

Lemma write_refines fs dir ds m nm off src : holds fs dir ds m -> fits fs ds m (Write nm off src) -> refines fs dir ds m (Write nm off src).
Proof.
  intros H (Ho & Hby & Hf). destruct (m !! key nm) as [[|data]|] eqn:Em.
  - destruct (holds_find fs dir ds m nm H) as (b & ev & E & H' & Hm). rewrite Em in Hm. destruct Hm as (e & -> & Ha). apply (refines_same fs dir ds m _ Failed b); [|cbn; by rewrite Em|done].
    cbn. unfold write, outcome, bind, attempt. rewrite E. cbn. by rewrite Ha.
  - destruct (write_there fs dir ds m nm data off src H Em Ho Hby Hf) as (d & b & E & H'). exists d, b. cbn. rewrite Em. done.
  - destruct Hf as [Hnn Hf]. destruct (write_missing fs dir ds m nm off src H Em Hnn) as (d & b & E & H' & Hr).
    destruct (write_there (at_dev d b fs) dir ds (<[key nm := Bytes []]> m) nm [] off src H') as (d' & b' & E' & H''); auto; [by rewrite lookup_insert_eq| |].
    + intros H1 H2. specialize (Hf H1 H2). unfold affords in *. change (room (at_dev d b fs) (dev (at_dev d b fs))) with (room fs d). by rewrite Hr.
    + exists d', b'. cbn. rewrite Em, E. done.
Qed.

Lemma truncate_refines fs dir ds m nm sz : holds fs dir ds m -> fits fs ds m (Truncate nm sz) -> refines fs dir ds m (Truncate nm sz).
Proof.
  intros H [Hs0 Hf]. destruct (m !! key nm) as [[|data]|] eqn:Em; [eapply (refines_fails (fun _ => Done) _ _ _ _ _ nm); [done|intros; reflexivity|by rewrite Em|cbn; by rewrite Em]| |eapply (refines_fails (fun _ => Done) _ _ _ _ _ nm); [done|intros; reflexivity|by rewrite Em|cbn; by rewrite Em]].
  destruct (holds_lookup _ _ _ _ _ _ H Em) as (ev & Hlk & Hin & Nev & Hk & cs & F & C). pose proof (ho_geo _ _ _ _ H) as G. pose proof F as [Fc Fs Fd Fp Fa].
  destruct (Z.lt_trichotomy sz (Z.of_nat (length data))) as [Hlt|[->|Hgt]].
  - destruct (truncate_shrink_ok dev_rd dev_wr fs dir ds nm ev cs data sz) as (first & kp & d1 & d & b & E & Hd1 & En & F' & (_ & _ & (gone & Ecs & _) & K & Hcl) & Ho & Hb & Hst); auto; [by destruct H..|].
    exists d, b. cbn. unfold outcome. rewrite E, Em, <- Hk. split; [done|]. cbn. replace (Z.to_nat sz - length data)%nat with 0%nat by lia. rewrite app_nil_r.
    eapply (holds_update fs dir ds m ev cs data first sz kp); eauto; [by apply (outside_is_dir dev_rd dev_wr fs d1)| | |].
    + split; [exact F'|]. rewrite (outside_content dev_rd dev_wr fs d1 d ds kp) by (done || by destruct F'). done.
    + intros x Hx. left. rewrite Ecs. apply elem_of_app. by left.
    + apply (spares_ok fs (dev fs) d1 d dir ds cs cs cs); auto. intros x Hx. left. tauto.
  - destruct (find_entry_ok dev_rd dev_wr fs dir ds nm) as (b0 & Hb0 & E0); [by destruct H..|]. rewrite Hlk in E0.
    eapply (refines_same _ _ _ _ _ Done b0); [| |apply holds_sec; [done|apply Hb0; by destruct H]].
    + cbn. unfold outcome, truncate. rewrite (bind_some _ _ fs _ _ E0). rewrite bind_guard by (by rewrite Fp). rewrite Fs, Z.eqb_refl. done.
    + cbn. rewrite Em, Nat2Z.id, Nat.sub_diag, app_nil_r, take_ge by lia. by rewrite insert_id.
  - destruct (truncate_grow_ok dev_rd dev_wr fs dir ds nm ev cs data sz) as (first & new & d1 & d & b & E & Hb & Hd1 & En & F' & Hnew & K & Ho & Hst & Hcl); auto; [by destruct H..| |].
    { split; [done|]. apply (affords_room fs (dev fs) ds ev cs data); auto; lia. }
    exists d, b. cbn. unfold outcome. rewrite E, Em, <- Hk. split; [done|]. cbn. rewrite take_ge by lia.
    eapply (holds_update fs dir ds m ev cs data first sz (cs ++ new)); eauto; [by apply (outside_is_dir dev_rd dev_wr fs d1)|by split| |].
    + intros x [Hx|Hx]%elem_of_app; [by left|right; by apply Hnew].
    + apply (spares_ok fs (dev fs) d1 d dir ds cs (cs ++ new) (cs ++ new)); auto. intros x Hx. assert (x ∈ cs ++ new) as [Hx'|Hx']%elem_of_app by tauto; [by left|right; by apply Hnew].
Qed.

(** Every operation for which there is room. *)
Lemma op_refines fs dir ds m o : holds fs dir ds m -> fits fs ds m o -> refines fs dir ds m o.
Proof.
  intros H Hf. destruct o as [nm off len|nm off src|nm|nm sz|nm].
  - by apply read_refines; [|apply Hf..].
  - by apply write_refines.
  - by apply create_refines.
  - by apply truncate_refines.
  - by apply unlink_refines.
Qed.

(** Operations one after the other. *)
Fixpoint performs (dir : Z) (os : list op) (fs : @Fs D) : list result * @Fs D :=
  match os with
  | [] => ([], fs)
  | o :: os' => let '(r, fs1) := perform dir o fs in let '(rs, fs2) := performs dir os' fs1 in (r :: rs, fs2)
  end.
Fixpoint specs (os : list op) (m : gmap (list Z) node) : list result * gmap (list Z) node :=
  match os with
  | [] => ([], m)
  | o :: os' => let '(r, m1) := spec o m in let '(rs, m2) := specs os' m1 in (r :: rs, m2)
  end.
Fixpoint fit (dir : Z) (ds : list Z) (os : list op) (fs : @Fs D) (m : gmap (list Z) node) : Prop :=
  match os with
  | [] => True
  | o :: os' => fits fs ds m o /\ fit dir ds os' (snd (perform dir o fs)) (snd (spec o m))
  end.

Lemma ops_refine fs dir ds m os : holds fs dir ds m -> fit dir ds os fs m ->
  exists fs', performs dir os fs = (fst (specs os m), fs') /\ holds fs' dir ds (snd (specs os m)).
Proof.
  revert fs m; induction os as [|o os IH]; intros fs m H Hf; cbn [performs specs fit] in *; [by exists fs|]. destruct Hf as [Hf Hfs].
  destruct (op_refines fs dir ds m o H Hf) as (d & b & E & H'). rewrite E in *. destruct (spec o m) as [r m1]. cbn [fst snd] in *.
  destruct (IH _ _ H' Hfs) as (fs' & E' & H''). rewrite E'. destruct (specs os m1) as [rs m2]. by exists fs'.
Qed.

(** A directory that lists no name is the empty map. *)
Lemma holds_empty fs dir ds :
  geo fs -> buf_ok (sec fs) -> is_dir fs (dev fs) dir ds -> ds <> [] -> closed_dir (dslots fs (dev fs) ds) ->
  (forall nm, lookup_name nm (entries fs (dev fs) ds) = None) -> holds fs dir ds ∅.
Proof.
  intros G Hb Hd Hne Hcl Hno. assert (forall ev, ev ∈ entries fs (dev fs) ds -> ~ named ev) as Hn.
  { intros ev Hin%list_elem_of_In Nev. pose proof (find_none _ _ (Hno (name ev)) ev Hin) as Hf. cbn in Hf. unfold named in Nev. rewrite Nev, ci_equal_refl in Hf. done. }
  constructor; auto.
  - destruct (keys (entries fs (dev fs) ds)) as [|k l] eqn:E; [constructor|]. assert (k ∈ keys (entries fs (dev fs) ds)) as (ev & Hin & Nev & _)%elem_of_keys by (rewrite E; left). by destruct (Hn ev Hin).
  - intros ev Hin Nev. by destruct (Hn ev Hin).
  - intros k nd E. by rewrite lookup_empty in E.
  - intros a b ca cb da db Ha Na. by destruct (Hn a Ha).
Qed.
End Refine.
