(* ===== verification/FatTheorems.v ===== *)
(** The FAT16 file system: what its operations promise.

    The theorems are about a device that works ([Disk]) and a volume whose areas
    lie on it one after the other ([geo]); they are tried on a volume in memory. *)
From stdpp Require Import gmap.
From S2P Require Import Prelude Fat16 FatDir FatChain FatFile FatName FatDirSpec FatWrite FatCreate FatUnlink FatFormat FatTruncate FatRefine.
Local Open Scope vnu_scope.

(** ** A volume in memory *)

Definition mem_rd (d : Z -> list Z) (l : Z) : option (list Z) := Some (take 512 (map u8 (d l) ++ replicate 512 0)).
Definition mem_wr (d : Z -> list Z) (l : Z) (b : list Z) : option (Z -> list Z) := Some (fun x => if x =? l then b else d x).

#[export] Instance mem_disk : Disk mem_rd mem_wr.
Proof.
  refine {| sector d l := take 512 (map u8 (d l) ++ replicate 512 0); dsize := 2 ^ 32 |}.
  - intros d l. rewrite length_take, length_app, length_replicate. split; [lia|]. apply Forall_take, Forall_app. split; [|apply Forall_replicate; unfold is_u8; lia].
    apply Forall_forall. intros x (y & -> & _)%list_elem_of_fmap. apply u8_range.
  - done.
  - intros d l b _ Lb Bb. exists (fun x => if x =? l then b else d x). split; [done|]. intros l'. destruct (l' =? l); [|done].
    assert (map u8 b = b) as -> by (clear Lb; induction Bb as [|x b Hx Hb IH]; [done|]; cbn [map]; rewrite IH; by rewrite u8_id).
    by rewrite take_app_le, take_ge by lia.
Defined.

(** Nine clusters of one sector, a root directory of two sectors. *)
Definition blank : @Fs (Z -> list Z) := mkFs (fun _ => []) 1 14 1 1 2 32 2 1 3 5 10 true (replicate 512 0).
Definition small : @Fs (Z -> list Z) :=
  snd ((write mem_rd mem_wr 0 (cs "a.txt") 0 (cs "hello") ;; write mem_rd mem_wr 0 (cs "Long name") 510 (cs "abc")) blank).

Lemma geo_blank : geo mem_rd mem_wr blank.
Proof. constructor; cbn; lia. Qed.

Lemma geo_small : geo mem_rd mem_wr small.
Proof.
  assert (small = at_dev (dev small) (sec small) blank) as -> by (vm_compute; reflexivity). apply (geo_at mem_rd mem_wr), geo_blank.
Qed.

Lemma buf_blank : buf_ok (sec blank).
Proof. split; [done|]. apply Forall_replicate. unfold is_u8. lia. Qed.

Lemma buf_small : buf_ok (sec small).
Proof. split; [vm_compute; reflexivity|]. apply bytes_closed. vm_compute. reflexivity. Qed.

Lemma root_of (fs : @Fs (Z -> list Z)) d : is_dir mem_rd mem_wr fs d 0 (root_secs fs).
Proof. by left. Qed.

(** The entry of [a.txt]. *)
Definition small_ev : Entry := mkEntry 0 2 5 ATTR_ARCH (cs "A       TXT") (cs "a.txt") [].

Lemma small_lookup : lookup_name (cs "a.txt") (entries mem_rd mem_wr small (dev small) (root_secs small)) = Some small_ev.
Proof. vm_compute. reflexivity. Qed.

Lemma small_file : file mem_rd mem_wr small (dev small) (root_secs small) small_ev [2] (cs "hello").
Proof.
  constructor.
  - split; [done|]. split; [|apply NoDup_singleton]. split; [vm_compute; split; discriminate|]. split; [vm_compute; discriminate|vm_compute; reflexivity].
  - reflexivity.
  - vm_compute. reflexivity.
  - reflexivity.
  - apply (apart_root mem_rd mem_wr); [apply geo_small|]. intros c ->%list_elem_of_singleton. vm_compute. split; discriminate.
Qed.

(** The entry of the other file, which needs a long name, and two clusters. *)
Definition small_ev2 : Entry := mkEntry 64 3 513 ATTR_ARCH (cs "LONG_N~1   ") (cs "Long name") [32].

Lemma small_lookup2 : lookup_name (cs "LONG NAME") (entries mem_rd mem_wr small (dev small) (root_secs small)) = Some small_ev2.
Proof. vm_compute. reflexivity. Qed.

Lemma small_chain2 : chain (fat mem_rd mem_wr small (dev small) 0) (max_cluster small) [3; 4].
Proof.
  split; [|apply (bool_decide_unpack (NoDup [3; 4])); vm_compute; reflexivity]. vm_compute. repeat split; discriminate.
Qed.

Lemma small_file2 : file mem_rd mem_wr small (dev small) (root_secs small) small_ev2 [3; 4] (replicate 510 0 ++ cs "abc").
Proof.
  constructor.
  - split; [done|]. apply small_chain2.
  - reflexivity.
  - vm_compute. reflexivity.
  - reflexivity.
  - apply (apart_root mem_rd mem_wr); [apply geo_small|]. intros c [->| ->%list_elem_of_singleton]%elem_of_cons; vm_compute; split; discriminate.
Qed.

Section Promises.
Context {D : Type} (dev_rd : D -> Z -> option (list Z)) (dev_wr : D -> Z -> list Z -> option D) `{!Disk dev_rd dev_wr}.

(** A write to a file of a directory, for which there is room, returns the
    number of bytes; from then on reading any range of the file gives that range of
    the old bytes with the new ones written over them at the offset, zeros filling a
    gap. *)
Theorem fat_write_read fs dir ds nm ev cs data off src :
  geo dev_rd dev_wr fs -> buf_ok (sec fs) -> is_dir dev_rd dev_wr fs (dev fs) dir ds -> ds <> [] ->
  lookup_name nm (entries dev_rd dev_wr fs (dev fs) ds) = Some ev -> file dev_rd dev_wr fs (dev fs) ds ev cs data ->
  0 <= off -> bytes src -> src <> [] -> off + Z.of_nat (length src) <= csize fs * (Z.of_nat (length cs) + room dev_rd dev_wr fs (dev fs)) ->
  exists d b, write dev_rd dev_wr dir nm off src fs = (Some (Z.of_nat (length src)), at_dev d b fs) /\
    forall off' len', 0 <= off' -> 0 <= len' -> exists b',
      read dev_rd dir nm off' len' (at_dev d b fs) = (Some (take (Z.to_nat len') (drop (Z.to_nat off') (overwrite data (Z.to_nat off) src))), at_dev d b' fs).
Proof.
  intros G Hb Hd Hne Hlk F Ho Hby Hsn Hroom.
  destruct (write_ok dev_rd dev_wr fs dir ds nm ev cs data off src G Hb Hd Hne Hlk F Ho Hby Hsn Hroom) as (nf & new & d3 & d & b & E & Hb' & Hd' & En & F' & _).
  exists d, b. split; [done|]. intros off' len' H1 H2. set (nd := overwrite data (Z.to_nat off) src) in *.
  destruct (read_ok dev_rd dev_wr (at_dev d b fs) dir ds nm (set_entry ev nf (Z.of_nat (length nd))) (cs ++ new) nd off' len' (geo_at dev_rd dev_wr d b fs G) Hb' Hd' Hne) as (b' & Er & _); [| |done|done|by exists b'].
  - etransitivity; [apply f_equal; exact En|]. rewrite lookup_resized, Hlk. cbn [option_map]. unfold at_pos. by rewrite Z.eqb_refl.
  - destruct F'. by constructor.
Qed.

(** Such a write leaves the other files of the directory as they are: the same
    entries, the same clusters, the same bytes. *)
Theorem fat_write_frame fs dir ds nm ev cs data off src nm2 ev2 cs2 data2 :
  geo dev_rd dev_wr fs -> buf_ok (sec fs) -> is_dir dev_rd dev_wr fs (dev fs) dir ds -> ds <> [] ->
  lookup_name nm (entries dev_rd dev_wr fs (dev fs) ds) = Some ev -> file dev_rd dev_wr fs (dev fs) ds ev cs data ->
  0 <= off -> bytes src -> src <> [] -> off + Z.of_nat (length src) <= csize fs * (Z.of_nat (length cs) + room dev_rd dev_wr fs (dev fs)) ->
  lookup_name nm2 (entries dev_rd dev_wr fs (dev fs) ds) = Some ev2 -> pos ev2 <> pos ev -> file dev_rd dev_wr fs (dev fs) ds ev2 cs2 data2 -> (forall x, x ∈ cs2 -> x ∉ cs) ->
  exists d b, write dev_rd dev_wr dir nm off src fs = (Some (Z.of_nat (length src)), at_dev d b fs) /\
    lookup_name nm2 (entries dev_rd dev_wr fs d ds) = Some ev2 /\ file dev_rd dev_wr fs d ds ev2 cs2 data2.
Proof.
  intros G Hb Hd Hne Hlk F Ho Hby Hsn Hroom Hlk2 Hp F2 Hdis.
  destruct (write_ok dev_rd dev_wr fs dir ds nm ev cs data off src G Hb Hd Hne Hlk F Ho Hby Hsn Hroom) as (nf & new & d3 & d & b & E & Hb' & Hd' & En & F' & Hnew & K & Hout & _).
  exists d, b. split; [done|]. split.
  - rewrite En, lookup_resized, Hlk2. cbn [option_map]. unfold at_pos. destruct (Z.eqb_spec (pos ev2) (pos ev)); done.
  - assert (apart fs (cs ++ new) ds) as Ha by (apply apart_app; [by destruct F|by apply (apart_free dev_rd dev_wr fs (dev fs) dir)]).
    destruct (kept_dir dev_rd dev_wr fs (dev fs) d3 (cs ++ new) (cs ++ new) dir ds G Hd K Ha Ha) as [Hd3 _].
    apply (file_outside dev_rd dev_wr fs d3 d dir); auto. apply (file_kept dev_rd dev_wr fs (dev fs) d3 (cs ++ new) (cs ++ new)); auto; intros x Hx;
      (intros [Hx'|Hx']%elem_of_app; [by apply (Hdis x)|destruct (Hnew x Hx') as [_ H0]; by apply (fchain_in _ _ _ _ _ (f_chain _ _ _ _ _ _ _ _ F2) Hx)]).
Qed.

(** Writing to a name that the directory does not have, when it has room for
    the entries of one more name and the volume for the bytes, creates the file: the
    name can be looked up, and the file's bytes are zeros up to the offset and then
    the bytes written. *)
Theorem fat_write_new fs dir ds nm off src :
  geo dev_rd dev_wr fs -> buf_ok (sec fs) -> is_dir dev_rd dev_wr fs (dev fs) dir ds -> ds <> [] -> storable nm ->
  closed_dir (dslots dev_rd dev_wr fs (dev fs) ds) -> lookup_name nm (entries dev_rd dev_wr fs (dev fs) ds) = None ->
  (length (used (dslots dev_rd dev_wr fs (dev fs) ds)) + 21 <= 16 * length ds)%nat ->
  0 <= off -> bytes src -> src <> [] -> off + Z.of_nat (length src) <= csize fs * room dev_rd dev_wr fs (dev fs) ->
  exists d b ev cs, write dev_rd dev_wr dir nm off src fs = (Some (Z.of_nat (length src)), at_dev d b fs) /\
    lookup_name nm (entries dev_rd dev_wr fs d ds) = Some ev /\ name ev = nm /\
    file dev_rd dev_wr fs d ds ev cs (replicate (Z.to_nat off) 0 ++ src).
Proof.
  intros G Hb Hd Hne Hst Hcl Hlk Hroom Ho Hby Hsn Hsp.
  destruct (write_new_ok dev_rd dev_wr fs dir ds nm off src G Hb Hd Hne Hst Hcl Hlk Hroom Ho Hby Hsn Hsp) as (d & b & ev & cs & E & _ & _ & H1 & H2 & F).
  exists d, b, ev, cs. rewrite overwrite_nil in F. done.
Qed.

(** A lookup in a directory returns the first entry listed under the name,
    letter case aside and volume labels skipped, where the entries listed are those
    of the slots up to the end mark with the long names put together; it fails when
    there is none, and never changes the device. *)
Theorem fat_find_entry fs dir ds nm :
  geo dev_rd dev_wr fs -> is_dir dev_rd dev_wr fs (dev fs) dir ds -> ds <> [] ->
  exists b, find_entry dev_rd dir nm fs =
    (find (fun ev => negb (bit_set (attr ev) ATTR_VOLUME) && ci_equal (name ev) nm) (listing (dslots dev_rd dev_wr fs (dev fs) ds) 0 lfn0), set_sec b fs).
Proof. intros G Hd Hne. destruct (find_entry_ok dev_rd dev_wr fs dir ds nm G Hd Hne) as (b & _ & E). by exists b. Qed.


(** [ensure_chain] gives a chain at least as long as asked: the old clusters
    first, then clusters that were free and now hold zeros.  Every other FAT entry, in
    both copies, and the data of every other cluster stay as they were. *)
Theorem fat_ensure_chain fs first cs need :
  geo dev_rd dev_wr fs -> buf_ok (sec fs) -> fchain (fat dev_rd dev_wr fs (dev fs) 0) (max_cluster fs) first cs -> 0 < need ->
  need - Z.of_nat (length cs) <= room dev_rd dev_wr fs (dev fs) ->
  exists nf new d b, ensure_chain dev_rd dev_wr first need fs = (Some nf, at_dev d b fs) /\
    fchain (fat dev_rd dev_wr fs d 0) (max_cluster fs) nf (cs ++ new) /\ Z.of_nat (length (cs ++ new)) = Z.max need (Z.of_nat (length cs)) /\
    content dev_rd dev_wr fs d (cs ++ new) = content dev_rd dev_wr fs (dev fs) cs ++ replicate (Z.to_nat (csize fs * Z.of_nat (length new))) 0 /\
    (forall x, x ∈ new -> fat dev_rd dev_wr fs (dev fs) 0 x = 0) /\
    (forall i x, 0 <= i < num_fats fs -> has_entry fs x -> x ∉ cs ++ new -> fat dev_rd dev_wr fs d i x = fat dev_rd dev_wr fs (dev fs) i x) /\
    (forall x, valid fs x -> x ∉ new -> cdata dev_rd dev_wr fs d x = cdata dev_rd dev_wr fs (dev fs) x).
Proof.
  intros G Hb Hc Hn Hr. destruct (ensure_chain_ok dev_rd dev_wr fs first cs need G Hb Hc Hn Hr) as (nf & new & d & b & E & _ & Hc' & Gr & Hl).
  exists nf, new, d, b. split; [done|]. split; [done|]. split; [done|]. split; [by apply (grown_content dev_rd dev_wr fs _ _ first)|].
  destruct Gr as [_ Gn Gk _]. split; [intros x Hx; by apply Gn|split; [by apply (kept_fat _ _ _ _ _ _ _ Gk)|by apply (kept_data _ _ _ _ _ _ _ Gk)]].
Qed.

(** [free_chain] on a chain makes exactly its clusters free, in every copy of
    the FAT, and changes nothing else. *)
Theorem fat_free_chain fs c cs :
  geo dev_rd dev_wr fs -> buf_ok (sec fs) -> chain (fat dev_rd dev_wr fs (dev fs) 0) (max_cluster fs) (c :: cs) ->
  exists d b, free_chain dev_rd dev_wr c fs = (Some tt, at_dev d b fs) /\
    (forall i x, 0 <= i < num_fats fs -> has_entry fs x -> fat dev_rd dev_wr fs d i x = if bool_decide (x ∈ c :: cs) then 0 else fat dev_rd dev_wr fs (dev fs) i x) /\
    (forall x, valid fs x -> cdata dev_rd dev_wr fs d x = cdata dev_rd dev_wr fs (dev fs) x).
Proof.
  intros G Hb Hc. destruct (free_chain_ok dev_rd dev_wr fs c cs G Hb Hc) as (d & b & E & _ & K & Z0). exists d, b. split; [done|]. split.
  - intros i x Hi Hx. case_bool_decide as Hin; [by apply Z0|by apply (kept_fat _ _ _ _ _ _ _ K)].
  - intros x Hx. apply (kept_data _ _ _ _ _ _ _ K); [done|apply not_elem_of_nil].
Qed.

(** [unlink] removes exactly the file's entry from the directory, frees exactly
    its clusters in every copy of the FAT, and leaves the bytes of every other file
    alone. *)
Theorem fat_unlink fs dir ds nm ev cs data :
  geo dev_rd dev_wr fs -> buf_ok (sec fs) -> is_dir dev_rd dev_wr fs (dev fs) dir ds -> ds <> [] ->
  lookup_name nm (entries dev_rd dev_wr fs (dev fs) ds) = Some ev -> file dev_rd dev_wr fs (dev fs) ds ev cs data ->
  exists d b before after, unlink dev_rd dev_wr dir nm fs = (Some tt, at_dev d b fs) /\
    entries dev_rd dev_wr fs (dev fs) ds = before ++ ev :: after /\ entries dev_rd dev_wr fs d ds = before ++ after /\
    (forall i x, 0 <= i < num_fats fs -> has_entry fs x -> fat dev_rd dev_wr fs d i x = if bool_decide (x ∈ cs) then 0 else fat dev_rd dev_wr fs (dev fs) i x) /\
    (forall ev2 cs2 data2, file dev_rd dev_wr fs (dev fs) ds ev2 cs2 data2 -> (forall x, x ∈ cs2 -> x ∉ cs) -> file dev_rd dev_wr fs d ds ev2 cs2 data2).
Proof.
  intros G Hb Hd Hne Hlk F. destruct (unlink_ok dev_rd dev_wr fs dir ds nm ev cs data G Hb Hd Hne Hlk F) as (d1 & d & b & before & after & E & _ & _ & L1 & L2 & K & Z0 & Ho & Hd1 & _).
  exists d, b, before, after. split; [done|]. split; [done|]. split; [done|]. split.
  - intros i x Hi Hx. rewrite (outside_fat dev_rd dev_wr fs d1 d dir ds) by done. case_bool_decide as Hin; [by apply Z0|by apply (kept_fat _ _ _ _ _ _ _ K)].
  - intros ev2 cs2 data2 F2 Hdis. apply (file_outside dev_rd dev_wr fs d1 d dir); auto. apply (file_kept dev_rd dev_wr fs (dev fs) d1 cs []); auto. intros x _. apply not_elem_of_nil.
Qed.

(** A partition FAT16 can manage is formatted and can then be mounted: the
    volume has the geometry the other theorems ask for, every cluster is free, and
    the root directory is empty and ready for new names. *)
Theorem fat_format_mount d lba n spc f oem label id buf :
  fits_fat16 n spc f -> is_u32 lba -> is_u32 n -> lba + n <= dsize -> dsize <= 2 ^ 32 -> opt_bytes oem -> opt_bytes label ->
  exists d' fs, format dev_rd dev_wr d lba n oem label id buf = (Some tt, d') /\ mount dev_rd d' lba = Some fs /\ dev fs = d' /\
    geo dev_rd dev_wr fs /\ room dev_rd dev_wr fs d' = clusters_for n spc f /\ is_dir dev_rd dev_wr fs d' 0 (root_secs fs) /\
    (forall nm, lookup_name nm (entries dev_rd dev_wr fs d' (root_secs fs)) = None) /\
    closed_dir (dslots dev_rd dev_wr fs d' (root_secs fs)) /\ (length (used (dslots dev_rd dev_wr fs d' (root_secs fs))) <= 1)%nat.
Proof.
  intros H Hl Hn Hsz Hd Ho Hlab. destruct (format_mount_ok dev_rd dev_wr d lba n spc f oem label id buf H Hl Hn Hsz Hd Ho Hlab) as (d' & fs & E & Em & Hdev & _ & G & Hr & _ & He).
  exists d', fs. do 5 (split; [done|]). split; [by left|done].
Qed.



(** Cutting a file short keeps the bytes before the new size, frees exactly the
    clusters that are no longer needed, in every copy of the FAT, and leaves the other
    files alone. *)
Theorem fat_truncate fs dir ds nm ev cs data sz :
  geo dev_rd dev_wr fs -> buf_ok (sec fs) -> is_dir dev_rd dev_wr fs (dev fs) dir ds -> ds <> [] ->
  lookup_name nm (entries dev_rd dev_wr fs (dev fs) ds) = Some ev -> file dev_rd dev_wr fs (dev fs) ds ev cs data -> 0 <= sz < Z.of_nat (length data) ->
  exists d b first kp gone, truncate dev_rd dev_wr dir nm sz fs = (Some tt, at_dev d b fs) /\ cs = kp ++ gone /\
    lookup_name nm (entries dev_rd dev_wr fs d ds) = Some (set_entry ev first sz) /\
    file dev_rd dev_wr fs d ds (set_entry ev first sz) kp (take (Z.to_nat sz) data) /\
    (forall i x, 0 <= i < num_fats fs -> x ∈ gone -> fat dev_rd dev_wr fs d i x = 0) /\
    (forall ev2 cs2 data2, file dev_rd dev_wr fs (dev fs) ds ev2 cs2 data2 -> (forall x, x ∈ cs2 -> x ∉ cs) -> file dev_rd dev_wr fs d ds ev2 cs2 data2).
Proof.
  intros G Hb Hd Hne Hlk F Hsz.
  destruct (truncate_shrink_ok dev_rd dev_wr fs dir ds nm ev cs data sz G Hb Hd Hne Hlk F Hsz) as (first & kp & d1 & d & b & E & Hd1 & En & F' & (_ & _ & (gone & Ecs & Hz) & K & _) & Ho & _ & _).
  exists d, b, first, kp, gone. do 2 (split; [done|]). split; [rewrite En, lookup_resized, Hlk; cbn [option_map]; unfold at_pos; by rewrite Z.eqb_refl|]. split; [done|]. split.
  - intros i x Hi Hx. rewrite (outside_fat dev_rd dev_wr fs d1 d dir ds); auto. assert (x ∈ cs) as Hx' by (rewrite Ecs; apply elem_of_app; by right).
    destruct (fchain_in _ _ _ _ _ (f_chain _ _ _ _ _ _ _ _ F) Hx'). unfold has_entry. lia.
  - intros ev2 cs2 data2 F2 Hdis. apply (file_outside dev_rd dev_wr fs d1 d dir); auto. by apply (file_kept dev_rd dev_wr fs (dev fs) d1 cs cs).
Qed.

(** A size within a cluster of 4 GiB wraps in the computation of the clusters: the
    call succeeds and records the size, but allocates nothing. *)
Theorem fat_truncate_wraps fs dir ds nm ev cs data sz :
  geo dev_rd dev_wr fs -> buf_ok (sec fs) -> is_dir dev_rd dev_wr fs (dev fs) dir ds -> ds <> [] ->
  lookup_name nm (entries dev_rd dev_wr fs (dev fs) ds) = Some ev -> file dev_rd dev_wr fs (dev fs) ds ev cs data -> 2 ^ 32 - csize fs < sz < 2 ^ 32 ->
  exists d b, truncate dev_rd dev_wr dir nm sz fs = (Some tt, at_dev d b fs) /\
    lookup_name nm (entries dev_rd dev_wr fs d ds) = Some (set_entry ev (cluster ev) sz) /\
    forall i x, 0 <= i < num_fats fs -> has_entry fs x -> fat dev_rd dev_wr fs d i x = fat dev_rd dev_wr fs (dev fs) i x.
Proof.
  intros G Hb Hd Hne Hlk F Hsz. destruct (truncate_wraps_ok dev_rd dev_wr fs dir ds nm ev cs data sz G Hb Hd Hne Hlk F Hsz) as (d & b & E & En & Ho). exists d, b. split; [done|].
  split; [rewrite En, lookup_resized, Hlk; cbn [option_map]; unfold at_pos; by rewrite Z.eqb_refl|]. intros i x Hi Hx. by apply (outside_fat dev_rd dev_wr fs (dev fs) d dir ds).
Qed.
End Promises.

(** A write to a file of the volume in memory. *)
Lemma fat_write_read_witness :
  exists d b, write mem_rd mem_wr 0 (cs "a.txt") 7 (cs "XY") small = (Some 2, at_dev d b small) /\
    forall off' len', 0 <= off' -> 0 <= len' -> exists b',
      read mem_rd 0 (cs "a.txt") off' len' (at_dev d b small) = (Some (take (Z.to_nat len') (drop (Z.to_nat off') (overwrite (cs "hello") 7 (cs "XY")))), at_dev d b' small).
Proof.
  apply (fat_write_read mem_rd mem_wr small 0 (root_secs small) (cs "a.txt") small_ev [2] (cs "hello") 7 (cs "XY")).
  - apply geo_small.
  - apply buf_small.
  - apply root_of.
  - vm_compute. discriminate.
  - apply small_lookup.
  - apply small_file.
  - lia.
  - apply bytes_closed. reflexivity.
  - discriminate.
  - vm_compute. discriminate.
Defined.

(** [a.txt] is written, the other file stays. *)
Lemma fat_write_frame_witness :
  exists d b, write mem_rd mem_wr 0 (cs "A.TXT") 600 (cs "XY") small = (Some 2, at_dev d b small) /\
    lookup_name (cs "LONG NAME") (entries mem_rd mem_wr small d (root_secs small)) = Some small_ev2 /\
    file mem_rd mem_wr small d (root_secs small) small_ev2 [3; 4] (replicate 510 0 ++ cs "abc").
Proof.
  apply (fat_write_frame mem_rd mem_wr small 0 (root_secs small) (cs "A.TXT") small_ev [2] (cs "hello") 600 (cs "XY")).
  - apply geo_small.
  - apply buf_small.
  - apply root_of.
  - vm_compute. discriminate.
  - vm_compute. reflexivity.
  - apply small_file.
  - lia.
  - apply bytes_closed. reflexivity.
  - discriminate.
  - vm_compute. discriminate.
  - apply small_lookup2.
  - discriminate.
  - apply small_file2.
  - intros x [->| ->%list_elem_of_singleton]%elem_of_cons; intros Hx%list_elem_of_singleton; discriminate.
Defined.

(** a long name in the root directory. *)
Lemma fat_write_new_witness :
  exists d b ev c, write mem_rd mem_wr 0 (cs "Readme.txt") 2 (cs "hi") small = (Some 2, at_dev d b small) /\
    lookup_name (cs "Readme.txt") (entries mem_rd mem_wr small d (root_secs small)) = Some ev /\ name ev = cs "Readme.txt" /\
    file mem_rd mem_wr small d (root_secs small) ev c ([0; 0] ++ cs "hi").
Proof.
  apply (fat_write_new mem_rd mem_wr small 0 (root_secs small) (cs "Readme.txt") 2 (cs "hi")).
  - apply geo_small.
  - apply buf_small.
  - apply root_of.
  - vm_compute. discriminate.
  - split; [apply cstring_closed; reflexivity|]. split; [cbn; lia|]. vm_compute. discriminate.
  - vm_compute. reflexivity.
  - vm_compute. reflexivity.
  - apply Nat.leb_le. vm_compute. reflexivity.
  - lia.
  - apply bytes_closed. reflexivity.
  - discriminate.
  - vm_compute. discriminate.
Defined.

(** a lookup that folds the case. *)
Lemma fat_find_entry_witness :
  exists b, find_entry mem_rd 0 (cs "LONG name") small =
    (find (fun ev => negb (bit_set (attr ev) ATTR_VOLUME) && ci_equal (name ev) (cs "LONG name")) (listing (dslots mem_rd mem_wr small (dev small) (root_secs small)) 0 lfn0), set_sec b small).
Proof. apply (fat_find_entry mem_rd mem_wr small 0 (root_secs small)); [apply geo_small|apply root_of|vm_compute; discriminate]. Defined.


(** the chain of two clusters grows to four. *)
Lemma fat_ensure_chain_witness :
  exists nf new d b, ensure_chain mem_rd mem_wr 3 4 small = (Some nf, at_dev d b small) /\
    fchain (fat mem_rd mem_wr small d 0) (max_cluster small) nf ([3; 4] ++ new) /\ Z.of_nat (length ([3; 4] ++ new)) = Z.max 4 (Z.of_nat (length [3; 4])) /\
    content mem_rd mem_wr small d ([3; 4] ++ new) = content mem_rd mem_wr small (dev small) [3; 4] ++ replicate (Z.to_nat (csize small * Z.of_nat (length new))) 0 /\
    (forall x, x ∈ new -> fat mem_rd mem_wr small (dev small) 0 x = 0) /\
    (forall i x, 0 <= i < num_fats small -> has_entry small x -> x ∉ [3; 4] ++ new -> fat mem_rd mem_wr small d i x = fat mem_rd mem_wr small (dev small) i x) /\
    (forall x, valid small x -> x ∉ new -> cdata mem_rd mem_wr small d x = cdata mem_rd mem_wr small (dev small) x).
Proof.
  apply (fat_ensure_chain mem_rd mem_wr small 3 [3; 4] 4); [apply geo_small|apply buf_small|split; [done|apply small_chain2]|lia|vm_compute; discriminate].
Defined.

(** the chain of two clusters is released. *)
Lemma fat_free_chain_witness :
  exists d b, free_chain mem_rd mem_wr 3 small = (Some tt, at_dev d b small) /\
    (forall i x, 0 <= i < num_fats small -> has_entry small x -> fat mem_rd mem_wr small d i x = if bool_decide (x ∈ [3; 4]) then 0 else fat mem_rd mem_wr small (dev small) i x) /\
    (forall x, valid small x -> cdata mem_rd mem_wr small d x = cdata mem_rd mem_wr small (dev small) x).
Proof. apply (fat_free_chain mem_rd mem_wr small 3 [4]); [apply geo_small|apply buf_small|apply small_chain2]. Defined.

(** the file with the long name is removed. *)
Lemma fat_unlink_witness :
  exists d b before after, unlink mem_rd mem_wr 0 (cs "LONG NAME") small = (Some tt, at_dev d b small) /\
    entries mem_rd mem_wr small (dev small) (root_secs small) = before ++ small_ev2 :: after /\ entries mem_rd mem_wr small d (root_secs small) = before ++ after /\
    (forall i x, 0 <= i < num_fats small -> has_entry small x -> fat mem_rd mem_wr small d i x = if bool_decide (x ∈ [3; 4]) then 0 else fat mem_rd mem_wr small (dev small) i x) /\
    (forall ev2 cs2 data2, file mem_rd mem_wr small (dev small) (root_secs small) ev2 cs2 data2 -> (forall x, x ∈ cs2 -> x ∉ [3; 4]) -> file mem_rd mem_wr small d (root_secs small) ev2 cs2 data2).
Proof.
  apply (fat_unlink mem_rd mem_wr small 0 (root_secs small) (cs "LONG NAME") small_ev2 [3; 4] (replicate 510 0 ++ cs "abc")).
  - apply geo_small.
  - apply buf_small.
  - apply root_of.
  - vm_compute. discriminate.
  - apply small_lookup2.
  - apply small_file2.
Defined.

(** A partition of 4200 sectors from sector 3 on. *)
Lemma fits_4200 : fits_fat16 4200 1 17.
Proof. vm_compute. repeat split; discriminate. Qed.

(** such a partition. *)
Lemma fat_format_mount_witness :
  exists d' fs, format mem_rd mem_wr (fun _ => []) 3 4200 None (Some (cs "VNU")) 77 (replicate 512 0) = (Some tt, d') /\ mount mem_rd d' 3 = Some fs /\ dev fs = d' /\
    geo mem_rd mem_wr fs /\ room mem_rd mem_wr fs d' = clusters_for 4200 1 17 /\ is_dir mem_rd mem_wr fs d' 0 (root_secs fs) /\
    (forall nm, lookup_name nm (entries mem_rd mem_wr fs d' (root_secs fs)) = None) /\
    closed_dir (dslots mem_rd mem_wr fs d' (root_secs fs)) /\ (length (used (dslots mem_rd mem_wr fs d' (root_secs fs))) <= 1)%nat.
Proof.
  apply (fat_format_mount mem_rd mem_wr (fun _ => []) 3 4200 1 17 None (Some (cs "VNU")) 77 (replicate 512 0)).
  - apply fits_4200.
  - unfold is_u32. lia.
  - unfold is_u32. lia.
  - cbn. lia.
  - cbn. lia.
  - done.
  - apply bytes_closed. reflexivity.
Defined.

(** The volume in memory holds the empty map, and then the two files. *)
Lemma blank_holds : holds mem_rd mem_wr blank 0 (root_secs blank) ∅.
Proof.
  apply holds_empty; [apply geo_blank|apply buf_blank|apply root_of|vm_compute; discriminate|vm_compute; reflexivity|]. intros nm.
  assert (entries mem_rd mem_wr blank (dev blank) (root_secs blank) = []) as -> by (vm_compute; reflexivity). done.
Qed.

Definition two_files : list op := [Write (cs "a.txt") 0 (cs "hello"); Write (cs "Long name") 510 (cs "abc")].
Definition two : gmap (list Z) node := snd (specs two_files ∅).

Ltac look := match goal with |- context [?m !! ?k] => let v := eval vm_compute in (m !! k) in replace (m !! k) with v by (vm_compute; reflexivity) end.
Ltac stores := split; [split; [apply cstring_closed; reflexivity|]; split; [cbn; lia|]; vm_compute; discriminate|apply Nat.leb_le; vm_compute; reflexivity].
Ltac affordable := intros _ _; apply Z.leb_le; vm_compute; reflexivity.
Ltac fits_write := split; [lia|]; split; [apply bytes_closed; reflexivity|]; look.

Lemma two_files_fit : fit mem_rd mem_wr 0 (root_secs blank) two_files blank ∅.
Proof.
  split; [fits_write; split; [stores|affordable]|]. split; [fits_write; split; [stores|affordable]|]. done.
Qed.

Definition volume : @Fs (Z -> list Z) := snd (performs mem_rd mem_wr 0 two_files blank).

Lemma volume_holds : holds mem_rd mem_wr volume 0 (root_secs blank) two.
Proof.
  destruct (ops_refine mem_rd mem_wr blank 0 (root_secs blank) ∅ two_files blank_holds two_files_fit) as (fs' & E & H). unfold volume. rewrite E. exact H.
Qed.


(** The partition of 4200 sectors, formatted. *)
Definition fresh : Z -> list Z := snd (format mem_rd mem_wr (fun _ => []) 3 4200 None (Some (cs "VNU")) 77 (replicate 512 0)).
Definition session : list op := two_files ++ [Truncate (cs "a.txt") 700; Read (cs "A.TXT") 3 4; Unlink (cs "long name"); Read (cs "Long name") 0 1].


(** the file of two clusters is cut to one. *)
Lemma fat_truncate_witness :
  exists d b first kp gone, truncate mem_rd mem_wr 0 (cs "LONG NAME") 511 small = (Some tt, at_dev d b small) /\ [3; 4] = kp ++ gone /\
    lookup_name (cs "LONG NAME") (entries mem_rd mem_wr small d (root_secs small)) = Some (set_entry small_ev2 first 511) /\
    file mem_rd mem_wr small d (root_secs small) (set_entry small_ev2 first 511) kp (take 511 (replicate 510 0 ++ cs "abc")) /\
    (forall i x, 0 <= i < num_fats small -> x ∈ gone -> fat mem_rd mem_wr small d i x = 0) /\
    (forall ev2 cs2 data2, file mem_rd mem_wr small (dev small) (root_secs small) ev2 cs2 data2 -> (forall x, x ∈ cs2 -> x ∉ [3; 4]) -> file mem_rd mem_wr small d (root_secs small) ev2 cs2 data2).
Proof.
  apply (fat_truncate mem_rd mem_wr small 0 (root_secs small) (cs "LONG NAME") small_ev2 [3; 4] (replicate 510 0 ++ cs "abc") 511).
  - apply geo_small.
  - apply buf_small.
  - apply root_of.
  - vm_compute. discriminate.
  - apply small_lookup2.
  - apply small_file2.
  - rewrite length_app, length_replicate. cbn. lia.
Defined.

(** a size one byte short of 4 GiB. *)
Lemma fat_truncate_wraps_witness :
  exists d b, truncate mem_rd mem_wr 0 (cs "a.txt") 0xFFFFFFFF small = (Some tt, at_dev d b small) /\
    lookup_name (cs "a.txt") (entries mem_rd mem_wr small d (root_secs small)) = Some (set_entry small_ev (cluster small_ev) 0xFFFFFFFF) /\
    forall i x, 0 <= i < num_fats small -> has_entry small x -> fat mem_rd mem_wr small d i x = fat mem_rd mem_wr small (dev small) i x.
Proof.
  apply (fat_truncate_wraps mem_rd mem_wr small 0 (root_secs small) (cs "a.txt") small_ev [2] (cs "hello") 0xFFFFFFFF).
  - apply geo_small.
  - apply buf_small.
  - apply root_of.
  - vm_compute. discriminate.
  - apply small_lookup.
  - apply small_file.
  - vm_compute. done.
Defined.
