(* ===== verification/Tcp.v ===== *)
(** The kernel's TCP ([vnu/kernel/net/tcp.cpp]) and the part of the network driver
    it stands on ([vnu/kernel/arch/i386/drivers/e1000.cpp]).

    State: the table of eight sockets, the next ephemeral port, the driver's
    transmit buffer and ARP cache, and the frames handed to the card so far.  The
    functions are those of a state monad over [outcome].  A [TcpSock&] into the
    table is its index.  A segment to 127.0.0.0/8 is fed back into [input_packet]
    by [tcp_send_seg] itself, out of the transmit buffer; the recursion has fuel.

    A blocking call is split where it waits: a first part, up to the loop, and a
    [poll], one turn of the loop, which gets the frames the card has received
    since the last turn ([rx_drain]).  Other processes run between two turns, where
    the code yields.  The readings of the clock are a sequence, [clock]. *)
From S2P Require Import Prelude.
Local Open Scope vnu_scope.

Definition MAX_SOCKS : nat := 8.
Definition SEND_CAP : Z := 16384.
Definition RECV_CAP : Z := 16384.
Definition PUSH_MSS : Z := 1460.
Definition DEFAULT_MSS : Z := 536.
Definition MAX_RTO : Z := 8000.
Definition INITIAL_RTO : Z := 1000.
Definition MAX_ACCEPT : Z := 4.

Inductive State := ST_CLOSED | ST_LISTEN | ST_SYN_RCVD | ST_SYN_SENT | ST_ESTABLISHED | ST_FIN_WAIT1 | ST_FIN_WAIT2 | ST_CLOSE_WAIT.
#[export] Instance State_eq_dec : EqDecision State.
Proof. solve_decision. Defined.
Definition st_is (a b : State) : bool := bool_decide (a = b).

Definition FLAG_FIN : Z := 0x01.
Definition FLAG_SYN : Z := 0x02.
Definition FLAG_RST : Z := 0x04.
Definition FLAG_ACK : Z := 0x10.
Definition has (flags f : Z) : bool := negb (Z.land flags f =? 0).

Definition VNU_EIO : Z := 5.
Definition VNU_EBADF : Z := 9.
Definition VNU_EINVAL : Z := 22.
Definition VNU_EMFILE : Z := 24.
Definition VNU_EADDRINUSE : Z := 98.
Definition VNU_ECONNRESET : Z := 104.
Definition VNU_ENOTCONN : Z := 107.
Definition VNU_ETIMEDOUT : Z := 110.
Definition VNU_ECONNREFUSED : Z := 111.
Definition VNU_EHOSTUNREACH : Z := 113.

Definition OUR_MASK : Z := 0xFFFFFF00.
Definition GW_IP : Z := 0x0A000202.

Record TcpSock := mkSock {
  used : bool; state : State; rip : Z; rport : Z; lport : Z; iss : Z; dst_mac : list Z; sndbuf : list Z; snd_una : Z;
  snd_nxt : Z; snd_used : Z; peer_mss : Z; snd_wnd : Z; fin_seq : Z; fin_sent : bool; fin_acked : bool; rto : Z; rto_at : Z; rto_active : bool;
  rcvbuf : list Z; rcv_base : Z; rcv_used : Z; fin_rcvd : bool; err_reset : bool; listener : Z; accept_q : list Z; accept_q_len : Z; accept_q_head : Z; backlog : Z; queued : bool }.

Definition set_used (v : bool) (s : TcpSock) : TcpSock :=
  mkSock v (state s) (rip s) (rport s) (lport s) (iss s) (dst_mac s) (sndbuf s) (snd_una s) (snd_nxt s) (snd_used s) (peer_mss s) (snd_wnd s) (fin_seq s) (fin_sent s) (fin_acked s) (rto s) (rto_at s) (rto_active s) (rcvbuf s) (rcv_base s) (rcv_used s) (fin_rcvd s) (err_reset s) (listener s) (accept_q s) (accept_q_len s) (accept_q_head s) (backlog s) (queued s).
Definition set_state (v : State) (s : TcpSock) : TcpSock :=
  mkSock (used s) v (rip s) (rport s) (lport s) (iss s) (dst_mac s) (sndbuf s) (snd_una s) (snd_nxt s) (snd_used s) (peer_mss s) (snd_wnd s) (fin_seq s) (fin_sent s) (fin_acked s) (rto s) (rto_at s) (rto_active s) (rcvbuf s) (rcv_base s) (rcv_used s) (fin_rcvd s) (err_reset s) (listener s) (accept_q s) (accept_q_len s) (accept_q_head s) (backlog s) (queued s).
Definition set_rip (v : Z) (s : TcpSock) : TcpSock :=
  mkSock (used s) (state s) v (rport s) (lport s) (iss s) (dst_mac s) (sndbuf s) (snd_una s) (snd_nxt s) (snd_used s) (peer_mss s) (snd_wnd s) (fin_seq s) (fin_sent s) (fin_acked s) (rto s) (rto_at s) (rto_active s) (rcvbuf s) (rcv_base s) (rcv_used s) (fin_rcvd s) (err_reset s) (listener s) (accept_q s) (accept_q_len s) (accept_q_head s) (backlog s) (queued s).
Definition set_rport (v : Z) (s : TcpSock) : TcpSock :=
  mkSock (used s) (state s) (rip s) v (lport s) (iss s) (dst_mac s) (sndbuf s) (snd_una s) (snd_nxt s) (snd_used s) (peer_mss s) (snd_wnd s) (fin_seq s) (fin_sent s) (fin_acked s) (rto s) (rto_at s) (rto_active s) (rcvbuf s) (rcv_base s) (rcv_used s) (fin_rcvd s) (err_reset s) (listener s) (accept_q s) (accept_q_len s) (accept_q_head s) (backlog s) (queued s).
Definition set_lport (v : Z) (s : TcpSock) : TcpSock :=
  mkSock (used s) (state s) (rip s) (rport s) v (iss s) (dst_mac s) (sndbuf s) (snd_una s) (snd_nxt s) (snd_used s) (peer_mss s) (snd_wnd s) (fin_seq s) (fin_sent s) (fin_acked s) (rto s) (rto_at s) (rto_active s) (rcvbuf s) (rcv_base s) (rcv_used s) (fin_rcvd s) (err_reset s) (listener s) (accept_q s) (accept_q_len s) (accept_q_head s) (backlog s) (queued s).
Definition set_iss (v : Z) (s : TcpSock) : TcpSock :=
  mkSock (used s) (state s) (rip s) (rport s) (lport s) v (dst_mac s) (sndbuf s) (snd_una s) (snd_nxt s) (snd_used s) (peer_mss s) (snd_wnd s) (fin_seq s) (fin_sent s) (fin_acked s) (rto s) (rto_at s) (rto_active s) (rcvbuf s) (rcv_base s) (rcv_used s) (fin_rcvd s) (err_reset s) (listener s) (accept_q s) (accept_q_len s) (accept_q_head s) (backlog s) (queued s).
Definition set_dst_mac (v : list Z) (s : TcpSock) : TcpSock :=
  mkSock (used s) (state s) (rip s) (rport s) (lport s) (iss s) v (sndbuf s) (snd_una s) (snd_nxt s) (snd_used s) (peer_mss s) (snd_wnd s) (fin_seq s) (fin_sent s) (fin_acked s) (rto s) (rto_at s) (rto_active s) (rcvbuf s) (rcv_base s) (rcv_used s) (fin_rcvd s) (err_reset s) (listener s) (accept_q s) (accept_q_len s) (accept_q_head s) (backlog s) (queued s).
Definition set_sndbuf (v : list Z) (s : TcpSock) : TcpSock :=
  mkSock (used s) (state s) (rip s) (rport s) (lport s) (iss s) (dst_mac s) v (snd_una s) (snd_nxt s) (snd_used s) (peer_mss s) (snd_wnd s) (fin_seq s) (fin_sent s) (fin_acked s) (rto s) (rto_at s) (rto_active s) (rcvbuf s) (rcv_base s) (rcv_used s) (fin_rcvd s) (err_reset s) (listener s) (accept_q s) (accept_q_len s) (accept_q_head s) (backlog s) (queued s).
Definition set_snd_una (v : Z) (s : TcpSock) : TcpSock :=
  mkSock (used s) (state s) (rip s) (rport s) (lport s) (iss s) (dst_mac s) (sndbuf s) v (snd_nxt s) (snd_used s) (peer_mss s) (snd_wnd s) (fin_seq s) (fin_sent s) (fin_acked s) (rto s) (rto_at s) (rto_active s) (rcvbuf s) (rcv_base s) (rcv_used s) (fin_rcvd s) (err_reset s) (listener s) (accept_q s) (accept_q_len s) (accept_q_head s) (backlog s) (queued s).
Definition set_snd_nxt (v : Z) (s : TcpSock) : TcpSock :=
  mkSock (used s) (state s) (rip s) (rport s) (lport s) (iss s) (dst_mac s) (sndbuf s) (snd_una s) v (snd_used s) (peer_mss s) (snd_wnd s) (fin_seq s) (fin_sent s) (fin_acked s) (rto s) (rto_at s) (rto_active s) (rcvbuf s) (rcv_base s) (rcv_used s) (fin_rcvd s) (err_reset s) (listener s) (accept_q s) (accept_q_len s) (accept_q_head s) (backlog s) (queued s).
Definition set_snd_used (v : Z) (s : TcpSock) : TcpSock :=
  mkSock (used s) (state s) (rip s) (rport s) (lport s) (iss s) (dst_mac s) (sndbuf s) (snd_una s) (snd_nxt s) v (peer_mss s) (snd_wnd s) (fin_seq s) (fin_sent s) (fin_acked s) (rto s) (rto_at s) (rto_active s) (rcvbuf s) (rcv_base s) (rcv_used s) (fin_rcvd s) (err_reset s) (listener s) (accept_q s) (accept_q_len s) (accept_q_head s) (backlog s) (queued s).
Definition set_peer_mss (v : Z) (s : TcpSock) : TcpSock :=
  mkSock (used s) (state s) (rip s) (rport s) (lport s) (iss s) (dst_mac s) (sndbuf s) (snd_una s) (snd_nxt s) (snd_used s) v (snd_wnd s) (fin_seq s) (fin_sent s) (fin_acked s) (rto s) (rto_at s) (rto_active s) (rcvbuf s) (rcv_base s) (rcv_used s) (fin_rcvd s) (err_reset s) (listener s) (accept_q s) (accept_q_len s) (accept_q_head s) (backlog s) (queued s).
Definition set_snd_wnd (v : Z) (s : TcpSock) : TcpSock :=
  mkSock (used s) (state s) (rip s) (rport s) (lport s) (iss s) (dst_mac s) (sndbuf s) (snd_una s) (snd_nxt s) (snd_used s) (peer_mss s) v (fin_seq s) (fin_sent s) (fin_acked s) (rto s) (rto_at s) (rto_active s) (rcvbuf s) (rcv_base s) (rcv_used s) (fin_rcvd s) (err_reset s) (listener s) (accept_q s) (accept_q_len s) (accept_q_head s) (backlog s) (queued s).
Definition set_fin_seq (v : Z) (s : TcpSock) : TcpSock :=
  mkSock (used s) (state s) (rip s) (rport s) (lport s) (iss s) (dst_mac s) (sndbuf s) (snd_una s) (snd_nxt s) (snd_used s) (peer_mss s) (snd_wnd s) v (fin_sent s) (fin_acked s) (rto s) (rto_at s) (rto_active s) (rcvbuf s) (rcv_base s) (rcv_used s) (fin_rcvd s) (err_reset s) (listener s) (accept_q s) (accept_q_len s) (accept_q_head s) (backlog s) (queued s).
Definition set_fin_acked (v : bool) (s : TcpSock) : TcpSock :=
  mkSock (used s) (state s) (rip s) (rport s) (lport s) (iss s) (dst_mac s) (sndbuf s) (snd_una s) (snd_nxt s) (snd_used s) (peer_mss s) (snd_wnd s) (fin_seq s) (fin_sent s) v (rto s) (rto_at s) (rto_active s) (rcvbuf s) (rcv_base s) (rcv_used s) (fin_rcvd s) (err_reset s) (listener s) (accept_q s) (accept_q_len s) (accept_q_head s) (backlog s) (queued s).
Definition set_rto (v : Z) (s : TcpSock) : TcpSock :=
  mkSock (used s) (state s) (rip s) (rport s) (lport s) (iss s) (dst_mac s) (sndbuf s) (snd_una s) (snd_nxt s) (snd_used s) (peer_mss s) (snd_wnd s) (fin_seq s) (fin_sent s) (fin_acked s) v (rto_at s) (rto_active s) (rcvbuf s) (rcv_base s) (rcv_used s) (fin_rcvd s) (err_reset s) (listener s) (accept_q s) (accept_q_len s) (accept_q_head s) (backlog s) (queued s).
Definition set_rto_at (v : Z) (s : TcpSock) : TcpSock :=
  mkSock (used s) (state s) (rip s) (rport s) (lport s) (iss s) (dst_mac s) (sndbuf s) (snd_una s) (snd_nxt s) (snd_used s) (peer_mss s) (snd_wnd s) (fin_seq s) (fin_sent s) (fin_acked s) (rto s) v (rto_active s) (rcvbuf s) (rcv_base s) (rcv_used s) (fin_rcvd s) (err_reset s) (listener s) (accept_q s) (accept_q_len s) (accept_q_head s) (backlog s) (queued s).
Definition set_rto_active (v : bool) (s : TcpSock) : TcpSock :=
  mkSock (used s) (state s) (rip s) (rport s) (lport s) (iss s) (dst_mac s) (sndbuf s) (snd_una s) (snd_nxt s) (snd_used s) (peer_mss s) (snd_wnd s) (fin_seq s) (fin_sent s) (fin_acked s) (rto s) (rto_at s) v (rcvbuf s) (rcv_base s) (rcv_used s) (fin_rcvd s) (err_reset s) (listener s) (accept_q s) (accept_q_len s) (accept_q_head s) (backlog s) (queued s).
Definition set_rcvbuf (v : list Z) (s : TcpSock) : TcpSock :=
  mkSock (used s) (state s) (rip s) (rport s) (lport s) (iss s) (dst_mac s) (sndbuf s) (snd_una s) (snd_nxt s) (snd_used s) (peer_mss s) (snd_wnd s) (fin_seq s) (fin_sent s) (fin_acked s) (rto s) (rto_at s) (rto_active s) v (rcv_base s) (rcv_used s) (fin_rcvd s) (err_reset s) (listener s) (accept_q s) (accept_q_len s) (accept_q_head s) (backlog s) (queued s).
Definition set_rcv_base (v : Z) (s : TcpSock) : TcpSock :=
  mkSock (used s) (state s) (rip s) (rport s) (lport s) (iss s) (dst_mac s) (sndbuf s) (snd_una s) (snd_nxt s) (snd_used s) (peer_mss s) (snd_wnd s) (fin_seq s) (fin_sent s) (fin_acked s) (rto s) (rto_at s) (rto_active s) (rcvbuf s) v (rcv_used s) (fin_rcvd s) (err_reset s) (listener s) (accept_q s) (accept_q_len s) (accept_q_head s) (backlog s) (queued s).
Definition set_rcv_used (v : Z) (s : TcpSock) : TcpSock :=
  mkSock (used s) (state s) (rip s) (rport s) (lport s) (iss s) (dst_mac s) (sndbuf s) (snd_una s) (snd_nxt s) (snd_used s) (peer_mss s) (snd_wnd s) (fin_seq s) (fin_sent s) (fin_acked s) (rto s) (rto_at s) (rto_active s) (rcvbuf s) (rcv_base s) v (fin_rcvd s) (err_reset s) (listener s) (accept_q s) (accept_q_len s) (accept_q_head s) (backlog s) (queued s).
Definition set_fin_rcvd (v : bool) (s : TcpSock) : TcpSock :=
  mkSock (used s) (state s) (rip s) (rport s) (lport s) (iss s) (dst_mac s) (sndbuf s) (snd_una s) (snd_nxt s) (snd_used s) (peer_mss s) (snd_wnd s) (fin_seq s) (fin_sent s) (fin_acked s) (rto s) (rto_at s) (rto_active s) (rcvbuf s) (rcv_base s) (rcv_used s) v (err_reset s) (listener s) (accept_q s) (accept_q_len s) (accept_q_head s) (backlog s) (queued s).
Definition set_err_reset (v : bool) (s : TcpSock) : TcpSock :=
  mkSock (used s) (state s) (rip s) (rport s) (lport s) (iss s) (dst_mac s) (sndbuf s) (snd_una s) (snd_nxt s) (snd_used s) (peer_mss s) (snd_wnd s) (fin_seq s) (fin_sent s) (fin_acked s) (rto s) (rto_at s) (rto_active s) (rcvbuf s) (rcv_base s) (rcv_used s) (fin_rcvd s) v (listener s) (accept_q s) (accept_q_len s) (accept_q_head s) (backlog s) (queued s).
Definition set_listener (v : Z) (s : TcpSock) : TcpSock :=
  mkSock (used s) (state s) (rip s) (rport s) (lport s) (iss s) (dst_mac s) (sndbuf s) (snd_una s) (snd_nxt s) (snd_used s) (peer_mss s) (snd_wnd s) (fin_seq s) (fin_sent s) (fin_acked s) (rto s) (rto_at s) (rto_active s) (rcvbuf s) (rcv_base s) (rcv_used s) (fin_rcvd s) (err_reset s) v (accept_q s) (accept_q_len s) (accept_q_head s) (backlog s) (queued s).
Definition set_accept_q (v : list Z) (s : TcpSock) : TcpSock :=
  mkSock (used s) (state s) (rip s) (rport s) (lport s) (iss s) (dst_mac s) (sndbuf s) (snd_una s) (snd_nxt s) (snd_used s) (peer_mss s) (snd_wnd s) (fin_seq s) (fin_sent s) (fin_acked s) (rto s) (rto_at s) (rto_active s) (rcvbuf s) (rcv_base s) (rcv_used s) (fin_rcvd s) (err_reset s) (listener s) v (accept_q_len s) (accept_q_head s) (backlog s) (queued s).
Definition set_accept_q_len (v : Z) (s : TcpSock) : TcpSock :=
  mkSock (used s) (state s) (rip s) (rport s) (lport s) (iss s) (dst_mac s) (sndbuf s) (snd_una s) (snd_nxt s) (snd_used s) (peer_mss s) (snd_wnd s) (fin_seq s) (fin_sent s) (fin_acked s) (rto s) (rto_at s) (rto_active s) (rcvbuf s) (rcv_base s) (rcv_used s) (fin_rcvd s) (err_reset s) (listener s) (accept_q s) v (accept_q_head s) (backlog s) (queued s).
Definition set_accept_q_head (v : Z) (s : TcpSock) : TcpSock :=
  mkSock (used s) (state s) (rip s) (rport s) (lport s) (iss s) (dst_mac s) (sndbuf s) (snd_una s) (snd_nxt s) (snd_used s) (peer_mss s) (snd_wnd s) (fin_seq s) (fin_sent s) (fin_acked s) (rto s) (rto_at s) (rto_active s) (rcvbuf s) (rcv_base s) (rcv_used s) (fin_rcvd s) (err_reset s) (listener s) (accept_q s) (accept_q_len s) v (backlog s) (queued s).
Definition set_backlog (v : Z) (s : TcpSock) : TcpSock :=
  mkSock (used s) (state s) (rip s) (rport s) (lport s) (iss s) (dst_mac s) (sndbuf s) (snd_una s) (snd_nxt s) (snd_used s) (peer_mss s) (snd_wnd s) (fin_seq s) (fin_sent s) (fin_acked s) (rto s) (rto_at s) (rto_active s) (rcvbuf s) (rcv_base s) (rcv_used s) (fin_rcvd s) (err_reset s) (listener s) (accept_q s) (accept_q_len s) (accept_q_head s) v (queued s).
Definition set_queued (v : bool) (s : TcpSock) : TcpSock :=
  mkSock (used s) (state s) (rip s) (rport s) (lport s) (iss s) (dst_mac s) (sndbuf s) (snd_una s) (snd_nxt s) (snd_used s) (peer_mss s) (snd_wnd s) (fin_seq s) (fin_sent s) (fin_acked s) (rto s) (rto_at s) (rto_active s) (rcvbuf s) (rcv_base s) (rcv_used s) (fin_rcvd s) (err_reset s) (listener s) (accept_q s) (accept_q_len s) (accept_q_head s) (backlog s) v.

(** [TcpSock{}]. *)
Definition sock0 : TcpSock :=
  mkSock false ST_CLOSED 0 0 0 0 (replicate 6 0) (replicate (Z.to_nat SEND_CAP) 0) 0
    0 0 DEFAULT_MSS 0 0 false false INITIAL_RTO 0 false
    (replicate (Z.to_nat RECV_CAP) 0) 0 0 false false (-1) (replicate 4 0) 0 0 0 false.

(** [ticks] counts the readings of the clock. *)
Record Net := mkNet {
  socks : list TcpSock; g_ephemeral : Z; txbuf : list Z; wire : list (list Z); ticks : nat; g_up : bool; g_arp_ip : Z; g_arp_mac : list Z; g_arp_resolve : Z }.
Definition set_socks (v : list TcpSock) (n : Net) : Net := mkNet v (g_ephemeral n) (txbuf n) (wire n) (ticks n) (g_up n) (g_arp_ip n) (g_arp_mac n) (g_arp_resolve n).
Definition set_g_ephemeral (v : Z) (n : Net) : Net := mkNet (socks n) v (txbuf n) (wire n) (ticks n) (g_up n) (g_arp_ip n) (g_arp_mac n) (g_arp_resolve n).
Definition set_txbuf (v : list Z) (n : Net) : Net := mkNet (socks n) (g_ephemeral n) v (wire n) (ticks n) (g_up n) (g_arp_ip n) (g_arp_mac n) (g_arp_resolve n).
Definition set_wire (v : list (list Z)) (n : Net) : Net := mkNet (socks n) (g_ephemeral n) (txbuf n) v (ticks n) (g_up n) (g_arp_ip n) (g_arp_mac n) (g_arp_resolve n).
Definition set_ticks (v : nat) (n : Net) : Net := mkNet (socks n) (g_ephemeral n) (txbuf n) (wire n) v (g_up n) (g_arp_ip n) (g_arp_mac n) (g_arp_resolve n).
Definition set_arp (ip : Z) (mac : list Z) (res : Z) (n : Net) : Net := mkNet (socks n) (g_ephemeral n) (txbuf n) (wire n) (ticks n) (g_up n) ip mac res.

Definition sock_at (n : Net) (i : nat) : TcpSock := nth i (socks n) sock0.

(** ** The monad *)

Definition M (A : Type) : Type := Net -> outcome (A * Net).
Definition ret {A} (a : A) : M A := fun n => Done (a, n).
Definition trap {A} : M A := fun _ => Trap.
Definition nofuel {A} : M A := fun _ => NoFuel.
Definition bind {A B} (m : M A) (k : A -> M B) : M B := fun n => let* (a, n') := m n in k a n'.
Local Notation "'let!' x := m 'in' k" := (bind m (fun x => k)) (at level 10, x pattern, m at level 100, k at level 200) : vnu_scope.
Local Notation "m ;; k" := (bind m (fun _ => k)) (at level 100, k at level 200, right associativity) : vnu_scope.
Definition gets {A} (f : Net -> A) : M A := fun n => Done (f n, n).
Definition modify (f : Net -> Net) : M unit := fun n => Done (tt, f n).
Definition when (b : bool) (m : M unit) : M unit := if b then m else ret tt.

(** Reading and writing the socket at an index. *)
Definition sk (i : nat) : M TcpSock := gets (fun n => sock_at n i).
Definition upd (i : nat) (f : TcpSock -> TcpSock) : M unit := modify (fun n => set_socks (<[i := f (sock_at n i)]> (socks n)) n).

(** ** Bytes and checksums *)

Definition be16 (v : Z) : list Z := [u8 (Z.shiftr v 8); u8 v].
Definition be32 (v : Z) : list Z := [u8 (Z.shiftr v 24); u8 (Z.shiftr v 16); u8 (Z.shiftr v 8); u8 v].
Definition get_be16 (f : list Z) (i : nat) : Z := Z.lor (Z.shiftl (at_ f i) 8) (at_ f (i + 1)).
Definition get_be32 (f : list Z) (i : nat) : Z :=
  Z.lor (Z.lor (Z.lor (Z.shiftl (at_ f i) 24) (Z.shiftl (at_ f (i + 1)) 16)) (Z.shiftl (at_ f (i + 2)) 8)) (at_ f (i + 3)).

Fixpoint checksum_add (sum : Z) (d : list Z) : Z :=
  match d with
  | a :: b :: d' => checksum_add (u32 (sum + Z.lor (Z.shiftl a 8) b)) d'
  | [a] => u32 (sum + Z.shiftl a 8)
  | [] => sum
  end.
(** [while (sum >> 16)]: three turns are enough for 32 bits. *)
Fixpoint fold_sum (fuel : nat) (sum : Z) : Z :=
  match fuel with
  | O => sum
  | S fuel' => if Z.shiftr sum 16 =? 0 then sum else fold_sum fuel' (u32 (Z.land sum 0xFFFF + Z.shiftr sum 16))
  end.
Definition checksum_done (sum : Z) : Z := u16 (Z.lnot (fold_sum 3 sum)).

Definition rcv_ackno (s : TcpSock) : Z := u32 (rcv_base s + rcv_used s + (if fin_rcvd s then 1 else 0)).
Definition rcv_window (s : TcpSock) : Z :=
  let free := u32 (RECV_CAP - rcv_used s) in if 0xFFFF <? free then 0xFFFF else u16 free.

Definition is_loopback (ip : Z) : bool := Z.land ip 0xFF000000 =? 0x7F000000.

(** ** Frames *)

(** The Ethernet header, with the card's address [g_mac]. *)
Definition eth_header (g_mac : list Z) (ethertype : Z) (dst : list Z) : list Z := dst ++ g_mac ++ be16 ethertype.

Definition ip_header (total id src dst ck : Z) : list Z :=
  [0x45; 0] ++ be16 total ++ be16 id ++ be16 0 ++ [64; 6] ++ be16 ck ++ be32 src ++ be32 dst.
Definition tcp_header (s : TcpSock) (seq ackno flags : Z) (syn_opt : bool) (pay : list Z) (ck : Z) : list Z :=
  be16 (lport s) ++ be16 (rport s) ++ be32 seq ++ be32 ackno ++ [u8 (Z.shiftl ((20 + if syn_opt then 4 else 0) / 4) 4); flags] ++
  be16 (rcv_window s) ++ be16 ck ++ be16 0 ++ (if syn_opt then [2; 4] ++ be16 PUSH_MSS else []) ++ pay.
Definition pseudo (src dst len : Z) : list Z := be32 src ++ be32 dst ++ [0; 6] ++ be16 len.

(** The frame [tcp_send_seg] assembles. *)
Definition segment (our_ip : Z) (g_mac : list Z) (s : TcpSock) (seq ackno flags : Z) (syn_opt : bool) (pay : list Z) : list Z :=
  let len := u16 (20 + (if syn_opt then 4 else 0) + Z.of_nat (length pay)) in
  let src := if is_loopback (rip s) then 0x7F000001 else our_ip in
  let tck := checksum_done (checksum_add (checksum_add 0 (pseudo src (rip s) len)) (tcp_header s seq ackno flags syn_opt pay 0)) in
  let id := Z.land seq 0xFFFF in
  let ick := checksum_done (checksum_add 0 (ip_header (u16 (20 + len)) id src (rip s) 0)) in
  eth_header g_mac 0x0800 (dst_mac s) ++ ip_header (u16 (20 + len)) id src (rip s) ick ++ tcp_header s seq ackno flags syn_opt pay tck.

(** The bytes of [b] with [f] written over its start. *)
Definition over (b f : list Z) : list Z := f ++ drop (length f) b.

(** The MSS option: [opt] counts from the start of the header, at offset 34 of the frame. *)
Fixpoint mss_loop (fuel : nat) (f : list Z) (hdr_len opt : Z) : Z :=
  match fuel with
  | O => 0
  | S fuel' =>
      if opt + 1 <? hdr_len then
        let kind := at_ f (34 + Z.to_nat opt) in
        if kind =? 0 then 0
        else if kind =? 1 then mss_loop fuel' f hdr_len (opt + 1)
        else
          let olen := at_ f (34 + Z.to_nat opt + 1) in
          if (olen <? 2) || (hdr_len <? opt + olen) then 0
          else
            let mss := get_be16 f (34 + Z.to_nat opt + 2) in
            if (kind =? 2) && (olen =? 4) && (0 <? mss) then mss
            else mss_loop fuel' f hdr_len (opt + olen)
      else 0
  end.
Definition parse_mss_opt (f : list Z) (hdr_len : Z) : Z := mss_loop (Z.to_nat hdr_len) f hdr_len 20.

Definition derive_iss (now rip rport lport : Z) : Z :=
  let iss := Z.lxor (Z.lxor (Z.lxor (u32 (Z.shiftl now 8)) (Z.shiftr rip 16)) (u32 (Z.shiftl rport 16))) (u32 (Z.shiftl lport 8)) in
  if iss =? 0 then 0x12345678 else iss.

(** ** Looking sockets up *)

(** The first index below [i + n], from [i] on, that passes the test. *)
Fixpoint first_from (test : nat -> bool) (i n : nat) : option nat :=
  match n with
  | O => None
  | S n' => if test i then Some i else first_from test (S i) n'
  end.
Definition find_peer_sock (n : Net) (src_ip sport dport : Z) : option nat :=
  first_from (fun i => let s := sock_at n i in used s && (rip s =? src_ip) && (rport s =? sport) && (lport s =? dport)) 0 MAX_SOCKS.
Definition find_listener (n : Net) (dport : Z) : option nat :=
  first_from (fun i => let s := sock_at n i in used s && st_is (state s) ST_LISTEN && (lport s =? dport)) 0 MAX_SOCKS.
Definition find_free (n : Net) : option nat := first_from (fun i => negb (used (sock_at n i))) 0 MAX_SOCKS.
Definition listener_pending (n : Net) (lst : nat) : Z :=
  Z.of_nat (length (List.filter (fun i => let s := sock_at n i in used s && (listener s =? Z.of_nat lst) && (st_is (state s) ST_SYN_RCVD || queued s)) (seq 0 MAX_SOCKS))).
Definition valid_handle (n : Net) (sock : Z) : option nat :=
  if (sock <? 0) || (Z.of_nat MAX_SOCKS <=? sock) then None
  else if used (sock_at n (Z.to_nat sock)) then Some (Z.to_nat sock) else None.

(** ** The accept queue *)

Definition q_pos (s : TcpSock) (k : Z) : nat := Z.to_nat (u8 ((accept_q_head s + k) mod MAX_ACCEPT)).
Definition accept_push (lst child : nat) : M unit :=
  upd lst (fun l => set_accept_q_len (u8 (accept_q_len l + 1)) (set_accept_q (<[q_pos l (accept_q_len l) := Z.of_nat child]> (accept_q l)) l)) ;;
  upd child (set_queued true).

(** [for (m = k + 1; m < accept_q_len; ++m)], [n] turns. *)
Fixpoint shift_queue (n : nat) (m : Z) (l : TcpSock) : TcpSock :=
  match n with
  | O => l
  | S n' => shift_queue n' (m + 1) (set_accept_q (<[q_pos l (m - 1) := nth (q_pos l m) (accept_q l) 0]> (accept_q l)) l)
  end.
Fixpoint remove_from (n : nat) (k child : Z) (l : TcpSock) : TcpSock :=
  match n with
  | O => l
  | S n' =>
      if nth (q_pos l k) (accept_q l) 0 =? child
      then let l := shift_queue (Z.to_nat (accept_q_len l - (k + 1))) (k + 1) l in set_accept_q_len (u8 (accept_q_len l - 1)) l
      else remove_from n' (k + 1) child l
  end.
Definition accept_remove (lst : nat) (child : Z) : M unit := upd lst (fun l => remove_from (Z.to_nat (accept_q_len l)) 0 child l).

Section Stack.
(** The host's address, the card's, and the readings of the clock. *)
Context (our_ip : Z) (g_mac : list Z) (clock : nat -> Z).

Definition now_ms : M Z := fun n => Done (clock (ticks n), set_ticks (S (ticks n)) n).

(** [tx_send_current]: the frame is the card's. *)
Definition emit (f : list Z) : M unit := modify (fun n => set_wire (wire n ++ [f]) (set_txbuf (over (over (txbuf n) (replicate 60 0)) f) n)).

Section Segments.
(** [input_packet] on the frame in the transmit buffer: the source address, the length of the packet. *)
Context (loopback : Z -> Z -> M unit).

Definition tcp_send_seg (s : TcpSock) (seq ackno flags : Z) (syn_opt : bool) (pay : list Z) : M unit :=
  let f := segment our_ip g_mac s seq ackno flags syn_opt pay in
  if is_loopback (rip s) then
    modify (fun n => set_txbuf (over (over (txbuf n) (replicate 60 0)) f) n) ;;
    loopback (rip s) (u16 (20 + (20 + (if syn_opt then 4 else 0)) + Z.of_nat (length pay)))
  else emit f.

(** [while (unsent && inflight < window)]. *)
Fixpoint push_loop (fuel : nat) (i : nat) (window inflight unsent : Z) : M unit :=
  if negb (unsent =? 0) && (inflight <? window) then
    match fuel with
    | O => nofuel
    | S fuel' =>
        let! s := sk i in
        let allow := u16 (window - inflight) in
        let seg := if allow <? PUSH_MSS then allow else PUSH_MSS in
        let seg := if peer_mss s <? seg then peer_mss s else seg in
        let seg := if unsent <? seg then u16 unsent else seg in
        if seg =? 0 then ret tt
        else
          let off := u32 (snd_nxt s - snd_una s) in
          if SEND_CAP <? off + seg then trap
          else
            tcp_send_seg s (snd_nxt s) (rcv_ackno s) FLAG_ACK false (take (Z.to_nat seg) (drop (Z.to_nat off) (sndbuf s))) ;;
            let! s := sk i in
            when (negb (rto_active s)) (let! t := now_ms in upd i (fun s => set_rto_at t (set_rto INITIAL_RTO (set_rto_active true s)))) ;;
            upd i (fun s => set_snd_nxt (u32 (snd_nxt s + seg)) s) ;;
            let! s := sk i in
            let inflight := u32 (snd_nxt s - snd_una s) in
            push_loop fuel' i window inflight (u32 (snd_used s - inflight))
    end
  else ret tt.
(** Every turn has a byte more in flight or a byte less to send. *)
Definition tcp_push (i : nat) : M unit :=
  let! s := sk i in
  let inflight := u32 (snd_nxt s - snd_una s) in
  push_loop (S (Z.to_nat (snd_wnd s + snd_used s))) i (snd_wnd s) inflight (u32 (snd_used s - inflight)).

Definition tcp_send_ack (i : nat) : M unit := let! s := sk i in tcp_send_seg s (snd_nxt s) (rcv_ackno s) FLAG_ACK false [].

Definition tcp_send_fin (i : nat) : M unit :=
  upd i (fun s => set_fin_seq (snd_nxt s) s) ;;
  let! s := sk i in
  tcp_send_seg s (snd_nxt s) (rcv_ackno s) (Z.lor FLAG_ACK FLAG_FIN) false [] ;;
  upd i (fun s => set_rto_active true (set_snd_nxt (u32 (snd_nxt s + 1)) s)) ;;
  let! t := now_ms in
  upd i (set_rto_at t).

Definition send_syn_ack (i : nat) : M unit :=
  let! s := sk i in tcp_send_seg s (iss s) (rcv_base s) (Z.lor FLAG_SYN FLAG_ACK) true [].

Definition tcp_retransmit (i : nat) (now : Z) : M unit :=
  let! s := sk i in
  if negb (rto_active s) || (u32 (now - rto_at s) <? rto s) then ret tt
  else
    upd i (fun s => set_rto (if rto s <? MAX_RTO then u32 (rto s * 2) else rto s) (set_rto_at now s)) ;;
    let! s := sk i in
    if st_is (state s) ST_SYN_SENT then tcp_send_seg s (iss s) 0 FLAG_SYN true []
    else if st_is (state s) ST_SYN_RCVD then send_syn_ack i
    else if fin_sent s && negb (fin_acked s) && (snd_used s =? 0) then tcp_send_fin i
    else upd i (fun s => set_snd_nxt (snd_una s) s) ;; tcp_push i.

(** [adv] acknowledged bytes leave the send buffer. *)
Definition advance (adv : Z) (s : TcpSock) : TcpSock :=
  let left := Z.to_nat (snd_used s - adv) in
  set_snd_una (u32 (snd_una s + adv)) (set_snd_used (snd_used s - adv) (set_sndbuf (take left (drop (Z.to_nat adv) (sndbuf s)) ++ drop left (sndbuf s)) s)).
Definition acknowledge (i : nat) (ackno window : Z) : M unit :=
  let! s := sk i in
  if ackno <=? snd_una s then ret tt
  else if u32 (u32 (snd_una s + snd_used s) + (if fin_sent s then 1 else 0)) <? ackno then ret tt
  else
    when (fin_sent s && negb (fin_acked s) && (fin_seq s <? ackno)) (upd i (set_fin_acked true)) ;;
    let adv := if snd_used s <? ackno - snd_una s then snd_used s else ackno - snd_una s in
    when (negb (adv =? 0)) (upd i (advance adv)) ;;
    let! t := now_ms in
    upd i (fun s => set_rto_at t (set_rto INITIAL_RTO (set_snd_wnd window s))) ;;
    let! s := sk i in
    when ((snd_used s =? 0) && (negb (fin_sent s) || fin_acked s)) (upd i (set_rto_active false)) ;;
    tcp_push i.

Definition handle_syn_ack (i : nat) (seq ackno : Z) (f : list Z) (tcp_hdr_len window : Z) : M unit :=
  let! s := sk i in
  if negb (ackno =? u32 (iss s + 1)) then ret tt
  else
    let mss := parse_mss_opt f tcp_hdr_len in
    upd i (fun s => set_state ST_ESTABLISHED (set_rto_active false (set_rcv_used 0 (set_rcv_base (u32 (seq + 1))
      (set_snd_nxt (u32 (iss s + 1)) (set_snd_una (u32 (iss s + 1)) (set_snd_wnd window (set_peer_mss (if mss =? 0 then DEFAULT_MSS else mss) s)))))))) ;;
    tcp_send_ack i.

Definition send_reset (rip : Z) (src_mac : list Z) (dport sport syn_seq : Z) : M unit :=
  tcp_send_seg (set_rport sport (set_lport dport (set_dst_mac src_mac (set_rip rip sock0)))) 0 (u32 (syn_seq + 1)) (Z.lor FLAG_RST FLAG_ACK) false [].

(** The child socket of [handle_incoming_syn]. *)
Definition child_of (lst : nat) (src_ip : Z) (src_mac : list Z) (sport dport seq window mss now : Z) : TcpSock :=
  let iss := derive_iss now src_ip sport dport in
  set_dst_mac src_mac (set_rto_active true (set_rto_at now (set_rto INITIAL_RTO (set_snd_wnd window (set_peer_mss (if mss =? 0 then DEFAULT_MSS else mss)
    (set_rcv_used 0 (set_rcv_base (u32 (seq + 1)) (set_snd_nxt iss (set_snd_una iss (set_iss iss (set_state ST_SYN_RCVD
    (set_listener (Z.of_nat lst) (set_lport dport (set_rport sport (set_rip src_ip (set_used true sock0)))))))))))))))).
Definition handle_incoming_syn (src_ip : Z) (src_mac : list Z) (sport dport seq window : Z) (f : list Z) (tcp_hdr_len : Z) : M unit :=
  let! n := gets (fun n => n) in
  let repeated := match find_peer_sock n src_ip sport dport with Some c => if st_is (state (sock_at n c)) ST_SYN_RCVD then Some c else None | None => None end in
  match repeated with
  | Some c => send_syn_ack c
  | None =>
      match find_listener n dport with
      | None => send_reset src_ip src_mac dport sport seq
      | Some lst =>
          if backlog (sock_at n lst) <=? listener_pending n lst then ret tt
          else
            match find_free n with
            | None => ret tt
            | Some slot =>
                let! now := now_ms in
                upd slot (fun _ => child_of lst src_ip src_mac sport dport seq window (parse_mss_opt f tcp_hdr_len) now) ;;
                send_syn_ack slot
            end
      end
  end.

(** The frame: a receive buffer of the card, or the transmit buffer as it is now. *)
Definition frame (src : option (list Z)) : M (list Z) := match src with Some f => ret f | None => gets txbuf end.

(** The in-order payload goes into the receive buffer. *)
Definition store (pay : list Z) (s : TcpSock) : TcpSock :=
  set_rcv_used (rcv_used s + Z.of_nat (length pay)) (set_rcvbuf (take (Z.to_nat (rcv_used s)) (rcvbuf s) ++ pay ++ drop (Z.to_nat (rcv_used s) + length pay) (rcvbuf s)) s).

(** From [bool need_ack] on: the payload and the FIN. *)
Definition take_in (i : nat) (src : option (list Z)) (tcp_hdr_len paylen seq flags : Z) : M unit :=
  let! s := sk i in
  let fin (need_ack : bool) : M unit :=
    let! s := sk i in
    let first := has flags FLAG_FIN && negb (fin_rcvd s) in
    when first (upd i (fun s => set_state (match state s with ST_ESTABLISHED => ST_CLOSE_WAIT | ST_FIN_WAIT2 => ST_CLOSED | st => st end) (set_fin_rcvd true s))) ;;
    when (need_ack || first) (tcp_send_ack i) in
  if negb (paylen =? 0) && (u32 (rcv_used s + paylen) <=? RECV_CAP) then
    let expected := u32 (rcv_base s + rcv_used s) in
    if seq =? expected then
      let! f := frame src in
      let from := 34 + tcp_hdr_len in
      if (Z.of_nat (length f) <? from + paylen) || (RECV_CAP <? rcv_used s + paylen) then trap
      else upd i (store (take (Z.to_nat paylen) (drop (Z.to_nat from) f))) ;; fin true
    else if seq <? expected then tcp_send_ack i
    else ret tt
  else fin false.

(** A segment for the connection [i]. *)
Definition connection_input (i : nat) (src : option (list Z)) (tcp_hdr_len paylen seq ackno flags window : Z) : M unit :=
  let! s := sk i in
  if st_is (state s) ST_ESTABLISHED || st_is (state s) ST_CLOSE_WAIT || st_is (state s) ST_FIN_WAIT1 || st_is (state s) ST_FIN_WAIT2 then
    when (has flags FLAG_ACK) (acknowledge i ackno window) ;;
    upd i (fun s => if st_is (state s) ST_FIN_WAIT1 && fin_acked s then set_state ST_FIN_WAIT2 s else s) ;;
    take_in i src tcp_hdr_len paylen seq flags
  else ret tt.

(** The last segment of the server's handshake. *)
Definition complete_handshake (i : nat) (window : Z) : M unit :=
  upd i (fun s => set_state ST_ESTABLISHED (set_rto_active false (set_snd_wnd window (set_snd_nxt (u32 (iss s + 1)) (set_snd_una (u32 (iss s + 1)) s))))) ;;
  let! s := sk i in
  when (0 <=? listener s) (accept_push (Z.to_nat (listener s)) i).

(** The segment goes to its socket, to a listener, or nowhere. *)
Definition segment_input (src_ip : Z) (src : option (list Z)) (f : list Z) (tcp_hdr_len sport dport seq ackno flags window paylen : Z) : M unit :=
  let! n := gets (fun n => n) in
  let sock := find_peer_sock n src_ip sport dport in
  if has flags FLAG_SYN then
    let src_mac := take 6 (drop 6 f) in
    match sock with
    | Some i =>
        if st_is (state (sock_at n i)) ST_SYN_SENT then when (has flags FLAG_ACK) (handle_syn_ack i seq ackno f tcp_hdr_len window)
        else if has flags FLAG_ACK then send_reset src_ip src_mac dport sport seq
        else handle_incoming_syn src_ip src_mac sport dport seq window f tcp_hdr_len
    | None =>
        if has flags FLAG_ACK then send_reset src_ip src_mac dport sport seq
        else handle_incoming_syn src_ip src_mac sport dport seq window f tcp_hdr_len
    end
  else
    match sock with
    | None => ret tt
    | Some i =>
        let s := sock_at n i in
        if has flags FLAG_RST then upd i (set_err_reset true)
        else if st_is (state s) ST_SYN_SENT then ret tt
        else if st_is (state s) ST_SYN_RCVD then
          if negb (has flags FLAG_ACK) || negb (ackno =? u32 (iss s + 1)) then ret tt
          else complete_handshake i window ;; connection_input i src tcp_hdr_len paylen seq ackno flags window
        else connection_input i src tcp_hdr_len paylen seq ackno flags window
    end.

(** Offsets below 94 are inside every buffer a frame is in. *)
Definition input_body (src_ip : Z) (src : option (list Z)) (ip_len : Z) : M unit :=
  if ip_len <? 20 then ret tt
  else
    let! f := frame src in
    let tcp_hdr_len := Z.shiftr (at_ f 46) 4 * 4 in
    if tcp_hdr_len <? 20 then ret tt
    else
      let sport := get_be16 f 34 in
      let dport := get_be16 f 36 in
      let seq := get_be32 f 38 in
      let ackno := get_be32 f 42 in
      let flags := at_ f 47 in
      let window := get_be16 f 48 in
      let paylen := u32 (ip_len - 20 - tcp_hdr_len) in
      segment_input src_ip src f tcp_hdr_len sport dport seq ackno flags window paylen.
End Segments.

(** [fuel] bounds the segments that answer one another over the loopback. *)
Fixpoint input_packet (fuel : nat) (src_ip : Z) (src : option (list Z)) (ip_len : Z) {struct fuel} : M unit :=
  input_body (fun ip len => match fuel with O => nofuel | S fuel' => input_packet fuel' ip None len end) src_ip src ip_len.
Definition loop_in (fuel : nat) (ip len : Z) : M unit := match fuel with O => nofuel | S fuel' => input_packet fuel' ip None len end.

(** ** The receive path *)

Definition arp_frame (op : Z) (dst : list Z) (target_mac : list Z) (target : Z) : list Z :=
  eth_header g_mac 0x0806 dst ++ be16 1 ++ be16 0x0800 ++ [6; 4] ++ be16 op ++ g_mac ++ be32 our_ip ++ target_mac ++ be32 target.
Definition send_arp_request (target : Z) : M unit := emit (arp_frame 1 (replicate 6 255) (replicate 6 0) target).
Definition send_arp_reply (dst_mac : list Z) (dst_ip : Z) : M unit := emit (arp_frame 2 dst_mac dst_mac dst_ip).

(** [handle_frame], for ARP and TCP; [len] is the length of the frame in the receive buffer [f]. *)
Definition handle_frame (fuel : nat) (fr : list Z * Z) : M unit :=
  let '(f, len) := fr in
  if len <? 16 then ret tt
  else
    let ethertype := get_be16 f 12 in
    if ethertype =? 0x0806 then
      if (len <? 42) || negb (get_be32 f 38 =? our_ip) then ret tt
      else if get_be16 f 20 =? 1 then send_arp_reply (take 6 (drop 6 f)) (get_be32 f 28)
      else
        let! res := gets g_arp_resolve in
        when ((get_be16 f 20 =? 2) && (get_be32 f 28 =? res)) (modify (set_arp res (take 6 (drop 6 f)) res))
    else if negb (ethertype =? 0x0800) || (len <? 34) || negb (Z.shiftr (at_ f 14) 4 =? 4) then ret tt
    else
      let iplen := get_be16 f 16 in
      if (iplen <? 20) || (len <? u16 (14 + iplen)) then ret tt
      else when (at_ f 23 =? 6) (input_packet fuel (get_be32 f 26) (Some f) iplen).

(** The frames the card has received since the last call. *)
Fixpoint rx_drain (fuel : nat) (frs : list (list Z * Z)) : M unit :=
  match frs with
  | [] => ret tt
  | fr :: frs' => handle_frame fuel fr ;; rx_drain fuel frs'
  end.

(** ** The calls *)

(** Where a call waits. *)
Inductive Pending :=
  | Resolving (i : nat) (target t0 timeout : Z)
  | Connecting (i : nat) (deadline : Z)
  | Sending (i : nat) (todo : list Z) (len deadline : Z)
  | Receiving (i : nat) (len deadline : Z)
  | Closing (i : nat) (deadline : Z)
  | Accepting (i : nat) (deadline : Z).
(** A call ends with a number, and for [recv] the bytes, for [accept] the peer; or it waits. *)
Inductive answer := Ret (r : Z) | Data (d : list Z) | Peer (sock ip port : Z) | Wait (p : Pending).

Definition before (t deadline : Z) : bool := s32 (u32 (t - deadline)) <? 0.
Definition clamp (timeout : Z) : Z := if timeout <? 20 then 20 else if 20000 <? timeout then 20000 else timeout.

(** [for (;;)] over the ephemeral ports: one of [MAX_SOCKS] in a row is free. *)
Fixpoint pick_port (fuel : nat) (i : nat) (port : Z) : M Z :=
  match fuel with
  | O => nofuel
  | S fuel' =>
      let port := u16 (port + 1) in
      let port := if port <? 49152 then 49152 else port in
      let! n := gets (fun n => n) in
      if existsb (fun j => negb (j =? i)%nat && used (sock_at n j) && (lport (sock_at n j) =? port)) (seq 0 MAX_SOCKS) then pick_port fuel' i port
      else ret port
  end.
Definition socket_open (family type : Z) : M Z :=
  if negb (family =? 2) || negb (type =? 1) then ret (- VNU_EINVAL)
  else
    let! free := gets find_free in
    match free with
    | None => ret (- VNU_EMFILE)
    | Some i =>
        upd i (fun _ => set_used true sock0) ;;
        let! port := gets g_ephemeral in
        let! port := pick_port MAX_SOCKS i port in
        modify (set_g_ephemeral port) ;;
        upd i (set_lport port) ;;
        ret (Z.of_nat i)
    end.

Section Calls.
(** The fuel for the loopback. *)
Context (fuel : nat).
Abbreviation send_seg := (tcp_send_seg (loop_in fuel)).

(** With the address resolved: the SYN, and the deadline. *)
Definition send_syn (i : nat) (timeout : Z) : M answer :=
  let! s := sk i in
  send_seg s (iss s) 0 FLAG_SYN true [] ;;
  let! t := now_ms in
  ret (Wait (Connecting i (u32 (t + timeout)))).

Definition on_subnet (ip : Z) : bool := Z.land ip OUR_MASK =? Z.land our_ip OUR_MASK.
(** [arp_ensure], up to its loop. *)
Definition arp_ensure (i : nat) (peer timeout : Z) : M answer :=
  let! n := gets (fun n => n) in
  if negb (g_up n) then ret (Ret (- VNU_EIO))
  else
    let target := if on_subnet peer then peer else GW_IP in
    if g_arp_ip n =? target then upd i (set_dst_mac (g_arp_mac n)) ;; send_syn i timeout
    else
      modify (set_arp 0 (g_arp_mac n) target) ;;
      send_arp_request target ;;
      let! t0 := now_ms in
      ret (Wait (Resolving i target t0 timeout)).

Definition socket_connect (sock ip_be port timeout_ms : Z) : M answer :=
  let! h := gets (fun n => valid_handle n sock) in
  match h with
  | None => ret (Ret (- VNU_EBADF))
  | Some i =>
      let timeout := clamp timeout_ms in
      let! now := now_ms in
      upd i (fun s =>
        let iss := derive_iss now ip_be port (lport s) in
        set_state ST_SYN_SENT (set_rto_at now (set_rto_active true (set_rto INITIAL_RTO (set_snd_wnd 0 (set_peer_mss DEFAULT_MSS
          (set_snd_used 0 (set_snd_nxt iss (set_snd_una iss (set_iss iss (set_rport port (set_rip ip_be s)))))))))))) ;;
      if is_loopback ip_be then upd i (set_dst_mac (replicate 6 0)) ;; send_syn i timeout
      else arp_ensure i ip_be timeout
  end.

(** The loop of [arp_ensure]. *)
Definition poll_resolving (i : nat) (target t0 timeout : Z) (frs : list (list Z * Z)) : M answer :=
  let finish : M answer :=
    let! n := gets (fun n => n) in
    modify (fun n => set_arp (g_arp_ip n) (g_arp_mac n) 0 n) ;;
    if g_arp_ip n =? target then upd i (set_dst_mac (g_arp_mac n)) ;; send_syn i timeout
    else ret (Ret (- VNU_EHOSTUNREACH)) in
  let! t := now_ms in
  if u32 (t - t0) <? timeout then
    rx_drain fuel frs ;;
    let! ip := gets g_arp_ip in
    if ip =? target then finish else ret (Wait (Resolving i target t0 timeout))
  else finish.

Definition poll_connecting (i : nat) (deadline : Z) (frs : list (list Z * Z)) : M answer :=
  let! t := now_ms in
  if before t deadline then
    rx_drain fuel frs ;;
    let! s := sk i in
    if st_is (state s) ST_ESTABLISHED then ret (Ret 0)
    else if err_reset s then ret (Ret (- VNU_ECONNREFUSED))
    else
      let! t := now_ms in
      tcp_retransmit (loop_in fuel) i t ;;
      ret (Wait (Connecting i deadline))
  else ret (Ret (- VNU_ETIMEDOUT)).

(** [while (todo)], up to the wait for room.  A turn buffers a byte at least. *)
Definition buffer (chunk : list Z) (s : TcpSock) : TcpSock :=
  set_snd_used (snd_used s + Z.of_nat (length chunk)) (set_sndbuf (take (Z.to_nat (snd_used s)) (sndbuf s) ++ chunk ++ drop (Z.to_nat (snd_used s) + length chunk) (sndbuf s)) s).
Fixpoint send_loop (turns : nat) (i : nat) (todo : list Z) (len deadline : Z) : M answer :=
  match todo, turns with
  | [], _ => ret (Ret len)
  | _, O => nofuel
  | _, S turns' =>
      let! s := sk i in
      if SEND_CAP <=? snd_used s then ret (Wait (Sending i todo len deadline))
      else
        let chunk := take (Z.to_nat (SEND_CAP - snd_used s)) todo in
        let todo := drop (Z.to_nat (SEND_CAP - snd_used s)) todo in
        upd i (buffer chunk) ;;
        tcp_push (loop_in fuel) i ;;
        let! s := sk i in
        if err_reset s then ret (Ret (- VNU_ECONNRESET))
        else
          match todo with
          | [] => ret (Ret len)
          | _ => let! t := now_ms in if before t deadline then send_loop turns' i todo len deadline else ret (Ret (- VNU_ETIMEDOUT))
          end
  end.
(** [buf] is the bytes at the pointer, none for a null pointer. *)
Definition socket_send (sock : Z) (buf : list Z) (timeout_ms : Z) : M answer :=
  let! h := gets (fun n => valid_handle n sock) in
  match h with
  | None => ret (Ret (- VNU_EBADF))
  | Some i =>
      let! s := sk i in
      if negb (st_is (state s) ST_ESTABLISHED || st_is (state s) ST_CLOSE_WAIT) then ret (Ret (- VNU_ENOTCONN))
      else
        match buf with
        | [] => ret (Ret 0)
        | _ => let! t := now_ms in send_loop (length buf) i buf (Z.of_nat (length buf)) (u32 (t + timeout_ms))
        end
  end.
(** The wait for room in the send buffer. *)
Definition poll_sending (i : nat) (todo : list Z) (len deadline : Z) (frs : list (list Z * Z)) : M answer :=
  let! s := sk i in
  if SEND_CAP <=? snd_used s then
    rx_drain fuel frs ;;
    let! s := sk i in
    if err_reset s then ret (Ret (- VNU_ECONNRESET))
    else
      let! t := now_ms in
      if before t deadline then ret (Wait (Sending i todo len deadline)) else ret (Ret (- VNU_ETIMEDOUT))
  else send_loop (length todo) i todo len deadline.

(** The bytes [recv] takes leave the receive buffer. *)
Definition consume (n : Z) (s : TcpSock) : TcpSock :=
  let left := Z.to_nat (rcv_used s - n) in
  set_rcv_base (u32 (rcv_base s + n)) (set_rcv_used (rcv_used s - n) (set_rcvbuf (take left (drop (Z.to_nat n) (rcvbuf s)) ++ drop left (rcvbuf s)) s)).
Definition poll_receiving (i : nat) (len deadline : Z) (frs : list (list Z * Z)) : M answer :=
  rx_drain fuel frs ;;
  let! s := sk i in
  if err_reset s then ret (Ret (- VNU_ECONNRESET))
  else if negb (rcv_used s =? 0) then
    let n := if rcv_used s <? len then rcv_used s else len in
    let d := take (Z.to_nat n) (rcvbuf s) in
    upd i (consume n) ;;
    tcp_send_ack (loop_in fuel) i ;;
    ret (Data d)
  else if fin_rcvd s then ret (Data [])
  else
    let! t := now_ms in
    if before t deadline then ret (Wait (Receiving i len deadline)) else ret (Ret (- VNU_ETIMEDOUT)).
Definition socket_recv (sock len timeout_ms : Z) : M answer :=
  let! h := gets (fun n => valid_handle n sock) in
  match h with
  | None => ret (Ret (- VNU_EBADF))
  | Some i =>
      let! s := sk i in
      if st_is (state s) ST_CLOSED && negb (fin_rcvd s) then ret (Ret (- VNU_ENOTCONN))
      else if len =? 0 then ret (Ret 0)
      else let! t := now_ms in ret (Wait (Receiving i len (u32 (t + timeout_ms))))
  end.

Definition free_slot (s : TcpSock) : TcpSock := set_state ST_CLOSED (set_used false s).
Definition socket_close (sock : Z) : M answer :=
  let! h := gets (fun n => valid_handle n sock) in
  match h with
  | None => ret (Ret (- VNU_EBADF))
  | Some i =>
      let! s := sk i in
      if st_is (state s) ST_LISTEN then
        modify (fun n => set_socks (map (fun c => if used c && (listener c =? sock) then free_slot c else c) (socks n)) n) ;;
        upd i (set_used false) ;;
        ret (Ret 0)
      else if 0 <=? listener s then
        let! l := sk (Z.to_nat (listener s)) in
        when (queued s && used l) (accept_remove (Z.to_nat (listener s)) sock) ;;
        upd i free_slot ;;
        ret (Ret 0)
      else if st_is (state s) ST_ESTABLISHED || st_is (state s) ST_CLOSE_WAIT then
        let! t := now_ms in ret (Wait (Closing i (u32 (t + 1000))))
      else upd i free_slot ;; ret (Ret 0)
  end.
Definition poll_closing (i : nat) (deadline : Z) (frs : list (list Z * Z)) : M answer :=
  let! t := now_ms in
  if before t deadline then
    rx_drain fuel frs ;;
    tcp_push (loop_in fuel) i ;;
    let! s := sk i in
    when ((snd_used s =? 0) && negb (fin_sent s)) (tcp_send_fin (loop_in fuel) i) ;;
    upd i (fun s => if st_is (state s) ST_ESTABLISHED && fin_sent s then set_state ST_FIN_WAIT1 s else s) ;;
    let! s := sk i in
    if fin_acked s || fin_rcvd s then upd i free_slot ;; ret (Ret 0)
    else
      let! t := now_ms in
      tcp_retransmit (loop_in fuel) i t ;;
      ret (Wait (Closing i deadline))
  else upd i free_slot ;; ret (Ret 0).

Definition socket_bind (sock port : Z) : M Z :=
  let! n := gets (fun n => n) in
  match valid_handle n sock with
  | None => ret (- VNU_EBADF)
  | Some i =>
      if negb (st_is (state (sock_at n i)) ST_CLOSED) || (port =? 0) then ret (- VNU_EINVAL)
      else if existsb (fun j => negb (j =? i)%nat && used (sock_at n j) && (lport (sock_at n j) =? port)) (seq 0 MAX_SOCKS) then ret (- VNU_EADDRINUSE)
      else upd i (set_lport port) ;; ret 0
  end.

Definition socket_listen (sock backlog : Z) : M Z :=
  let! n := gets (fun n => n) in
  match valid_handle n sock with
  | None => ret (- VNU_EBADF)
  | Some i =>
      if negb (st_is (state (sock_at n i)) ST_CLOSED) then ret (- VNU_EINVAL)
      else
        let b := if backlog <? 1 then 1 else backlog in
        let b := if MAX_ACCEPT <? b then MAX_ACCEPT else b in
        upd i (fun s => set_state ST_LISTEN (set_accept_q_head 0 (set_accept_q_len 0 (set_backlog b s)))) ;; ret 0
  end.

Definition socket_accept (sock timeout_ms : Z) : M answer :=
  let! n := gets (fun n => n) in
  match valid_handle n sock with
  | None => ret (Ret (- VNU_EBADF))
  | Some i =>
      if negb (st_is (state (sock_at n i)) ST_LISTEN) then ret (Ret (- VNU_EINVAL))
      else let! t := now_ms in ret (Wait (Accepting i (u32 (t + clamp timeout_ms))))
  end.
Definition poll_accepting (i : nat) (deadline : Z) (frs : list (list Z * Z)) : M answer :=
  rx_drain fuel frs ;;
  let! s := sk i in
  if negb (accept_q_len s =? 0) then
    let pos := accept_q_head s in
    let child := nth (Z.to_nat pos) (accept_q s) 0 in
    upd i (fun s => set_accept_q_len (accept_q_len s - 1) (set_accept_q_head (u8 ((pos + 1) mod MAX_ACCEPT)) s)) ;;
    let! c := sk (Z.to_nat child) in
    upd (Z.to_nat child) (fun c => set_queued false (set_listener (-1) c)) ;;
    ret (Peer child (rip c) (rport c))
  else
    let! t := now_ms in
    if before t deadline then ret (Wait (Accepting i deadline)) else ret (Ret (- VNU_ETIMEDOUT)).

(** One turn of the loop a call waits in. *)
Definition poll (p : Pending) (frs : list (list Z * Z)) : M answer :=
  match p with
  | Resolving i target t0 timeout => poll_resolving i target t0 timeout frs
  | Connecting i deadline => poll_connecting i deadline frs
  | Sending i todo len deadline => poll_sending i todo len deadline frs
  | Receiving i len deadline => poll_receiving i len deadline frs
  | Closing i deadline => poll_closing i deadline frs
  | Accepting i deadline => poll_accepting i deadline frs
  end.
End Calls.
End Stack.
