(* ===== verification/TcpSegment.v ===== *)
(** TCP segments: the frame that is sent, and what the receiver reads in it. *)
From S2P Require Import Prelude Tcp.
Local Open Scope vnu_scope.

(** ** Checksums *)

(** The sum of the 16-bit words, the last one filled up with zero. *)
Fixpoint wsum (d : list Z) : Z :=
  match d with
  | a :: b :: d' => a * 256 + b + wsum d'
  | [a] => a * 256
  | [] => 0
  end.

Lemma word_or a b : is_u8 a -> is_u8 b -> Z.lor (Z.shiftl a 8) b = a * 256 + b.
Proof. intros Ha Hb. unfold is_u8 in *. rewrite Z.lor_comm, (or_shift b a 8) by lia. lia. Qed.

Lemma two_ind (P : list Z -> Prop) : P [] -> (forall a, P [a]) -> (forall a b d, P d -> P (a :: b :: d)) -> forall d, P d.
Proof.
  intros H0 H1 H2. assert (forall d, P d /\ forall a, P (a :: d)) as H; [|intros d; apply H].
  induction d as [|b d [IH1 IH2]]; [auto|]. split; [apply IH2|]. intros a. apply H2, IH1.
Qed.

Lemma wsum_bound d : bytes d -> 0 <= wsum d <= 65535 * Z.of_nat (length d).
Proof.
  revert d. apply (two_ind (fun d => bytes d -> 0 <= wsum d <= 65535 * Z.of_nat (length d))); [intros _; cbn; lia| |].
  - intros a H. apply Forall_cons in H as [Ha _]. unfold is_u8 in Ha. cbn [wsum length]. lia.
  - intros a b d IH H. apply Forall_cons in H as [Ha H]. apply Forall_cons in H as [Hb H]. specialize (IH H). unfold is_u8 in *. cbn [wsum length]. lia.
Qed.

Lemma wsum_app a b : Nat.even (length a) = true -> wsum (a ++ b) = wsum a + wsum b.
Proof.
  revert a. apply (two_ind (fun a => Nat.even (length a) = true -> wsum (a ++ b) = wsum a + wsum b)); [done|done|].
  intros x y d IH He. cbn [app wsum]. rewrite IH by done. lia.
Qed.

Lemma checksum_add_sum d : forall sum, bytes d -> 0 <= sum -> sum + wsum d < 2 ^ 32 -> checksum_add sum d = sum + wsum d.
Proof.
  revert d. apply (two_ind (fun d => forall sum, bytes d -> 0 <= sum -> sum + wsum d < 2 ^ 32 -> checksum_add sum d = sum + wsum d)).
  - intros sum _ _ _. cbn. lia.
  - intros a sum H Hs Hl. apply Forall_cons in H as [Ha _]. cbn [checksum_add wsum] in *. unfold is_u8 in Ha. rewrite Z.shiftl_mul_pow2 by lia. rewrite u32_id by (unfold is_u32; lia). lia.
  - intros a b d IH sum H Hs Hl. apply Forall_cons in H as [Ha H]. apply Forall_cons in H as [Hb H]. cbn [checksum_add wsum] in *. rewrite word_or by done. pose proof (wsum_bound d H).
    unfold is_u8 in *. rewrite u32_id by (unfold is_u32; lia). rewrite IH by (auto; lia). lia.
Qed.

(** Folding keeps the value modulo 65535, and ends in 16 bits. *)
Lemma fold_sum_spec x : 0 <= x < 2 ^ 32 -> let r := fold_sum 3 x in 0 <= r < 2 ^ 16 /\ (exists q, 0 <= q /\ x = r + 65535 * q) /\ (r = 0 -> x = 0).
Proof.
  assert (forall y, 0 <= y < 2 ^ 32 -> Z.shiftr y 16 <> 0 -> exists y', u32 (Z.land y 0xFFFF + Z.shiftr y 16) = y' /\ y = y' + 65535 * (y / 65536) /\ 0 < y' /\ y' = y mod 65536 + y / 65536 /\ 0 < y / 65536) as Hstep.
  { intros y Hy Hn. replace (Z.land y 0xFFFF) with (y mod 65536) by (change 0xFFFF with (Z.ones 16); by rewrite Z.land_ones by lia). rewrite Z.shiftr_div_pow2 in * by lia. change (2 ^ 16) with 65536 in *.
    pose proof (Z_div_mod_eq_full y 65536). pose proof (Z.mod_pos_bound y 65536 ltac:(lia)). assert (0 < y / 65536) by (pose proof (Z.div_pos y 65536 ltac:(lia) ltac:(lia)); lia).
    assert (y / 65536 < 65536) by (apply Z.div_lt_upper_bound; lia). eexists. split; [rewrite u32_id by (unfold is_u32; lia); done|]. lia. }
  assert (forall y, 0 <= y -> Z.shiftr y 16 = 0 -> y < 65536) as Hsmall.
  { intros y Hy E. rewrite Z.shiftr_div_pow2 in E by lia. change (2 ^ 16) with 65536 in E. pose proof (Z_div_mod_eq_full y 65536). pose proof (Z.mod_pos_bound y 65536 ltac:(lia)). lia. }
  intros Hx. cbn [fold_sum]. destruct (Z.eqb_spec (Z.shiftr x 16) 0) as [E|E]; [split; [specialize (Hsmall x ltac:(lia) E); lia|]; split; [exists 0; lia|lia]|].
  destruct (Hstep x Hx E) as (y & -> & Ex & Hy0 & Ey & Hq). assert (x / 65536 < 65536) by (apply Z.div_lt_upper_bound; lia). pose proof (Z.mod_pos_bound x 65536 ltac:(lia)).
  destruct (Z.eqb_spec (Z.shiftr y 16) 0) as [E1|E1]; [split; [specialize (Hsmall y ltac:(lia) E1); lia|]; split; [exists (x / 65536); lia|lia]|].
  destruct (Hstep y ltac:(lia) E1) as (z & -> & Ez & Hz0 & Ez' & Hq').
  assert (y / 65536 < 2) by (apply Z.div_lt_upper_bound; lia). pose proof (Z_div_mod_eq_full y 65536). pose proof (Z.mod_pos_bound y 65536 ltac:(lia)).
  assert (z < 65536) as Hz by lia.
  destruct (Z.eqb_spec (Z.shiftr z 16) 0) as [E2|E2]; [split; [lia|]; split; [exists (y / 65536 + x / 65536); lia|lia]|].
  exfalso. apply E2. rewrite Z.shiftr_div_pow2 by lia. apply Z.div_small. lia.
Qed.

Definition verifies (sum : Z) : Prop := fold_sum 3 sum = 0xFFFF.

(** The checksum of a sum makes it verify. *)
Lemma checksum_verifies x : 0 <= x < 2 ^ 31 -> is_u8 (Z.shiftr (checksum_done x) 8) /\ 0 <= checksum_done x < 2 ^ 16 /\ verifies (x + checksum_done x).
Proof.
  intros Hx. destruct (fold_sum_spec x ltac:(lia)) as (Hr & (q & Hq0 & Eq) & H0). set (r := fold_sum 3 x) in *.
  assert (checksum_done x = 65535 - r) as E.
  { unfold checksum_done. fold r. unfold Z.lnot, u16. replace (Z.pred (- r)) with (65535 - r + (-1) * 2 ^ 16) by lia. rewrite Z.mod_add by lia. apply Z.mod_small. lia. }
  rewrite E. split; [unfold is_u8; rewrite Z.shiftr_div_pow2 by lia; split; [apply Z.div_pos; lia|apply Z.div_lt_upper_bound; lia]|]. split; [lia|].
  unfold verifies. destruct (fold_sum_spec (x + (65535 - r)) ltac:(lia)) as (Hr' & (q' & Hq' & Eq') & H0'). set (r' := fold_sum 3 (x + (65535 - r))) in *.
  assert (r' <> 0) by (intros Ez; specialize (H0' Ez); assert (r = 0 \/ r > 0) as [Hrz|] by lia; [specialize (H0 Hrz); lia|lia]).
  assert (r' = 65535 * (q + 1 - q')) as Er by lia. assert (q + 1 - q' = 1) by nia. lia.
Qed.

(** ** Numbers in a frame *)

Lemma at_be16 v : 0 <= v < 2 ^ 16 -> Z.lor (Z.shiftl (u8 (Z.shiftr v 8)) 8) (u8 v) = v.
Proof.
  intros Hv. rewrite word_or by apply u8_range. unfold u8. rewrite Z.shiftr_div_pow2 by lia. change (2 ^ 8) with 256. change (2 ^ 16) with 65536 in Hv.
  rewrite (Z.mod_small (v / 256)) by (split; [apply Z.div_pos; lia|apply Z.div_lt_upper_bound; lia]). pose proof (Z_div_mod_eq_full v 256). lia.
Qed.

Lemma at_be32 v : is_u32 v ->
  Z.lor (Z.lor (Z.lor (Z.shiftl (u8 (Z.shiftr v 24)) 24) (Z.shiftl (u8 (Z.shiftr v 16)) 16)) (Z.shiftl (u8 (Z.shiftr v 8)) 8)) (u8 v) = v.
Proof.
  intros Hv. rewrite (Z.lor_comm _ (u8 v)), Z.lor_assoc, (Z.lor_comm (u8 v)), <- Z.lor_assoc.
  replace (Z.lor (Z.lor (Z.shiftl (u8 (Z.shiftr v 24)) 24) (Z.shiftl (u8 (Z.shiftr v 16)) 16)) (Z.lor (u8 v) (Z.shiftl (u8 (Z.shiftr v 8)) 8)))
    with (Z.lor (Z.lor (Z.lor (u8 v) (Z.shiftl (u8 (Z.shiftr v 8)) 8)) (Z.shiftl (u8 (Z.shiftr v 16)) 16)) (Z.shiftl (u8 (Z.shiftr v 24)) 24))
    by (rewrite !(Z.lor_comm _ (Z.shiftl (u8 (Z.shiftr v 24)) 24)), (Z.lor_comm _ (Z.shiftl (u8 (Z.shiftr v 16)) 16)); by rewrite !Z.lor_assoc).
  pose proof (u8_range v). pose proof (u8_range (Z.shiftr v 8)). pose proof (u8_range (Z.shiftr v 16)). pose proof (u8_range (Z.shiftr v 24)). unfold is_u8 in *.
  rewrite (or_shift (u8 v) _ 8) by lia. rewrite (or_shift _ _ 16) by lia. rewrite (or_shift _ _ 24) by lia. unfold u8, is_u32 in *. rewrite !Z.shiftr_div_pow2 by lia. change (2 ^ 8) with 256 in *. change (2 ^ 16) with 65536 in *. change (2 ^ 24) with 16777216 in *.
  pose proof (Z_div_mod_eq_full v 256). pose proof (Z_div_mod_eq_full (v / 256) 256). pose proof (Z_div_mod_eq_full (v / 65536) 256). pose proof (Z_div_mod_eq_full (v / 16777216) 256).
  replace (v / 65536) with (v / 256 / 256) in * by (rewrite Z.div_div by lia; done). replace (v / 16777216) with (v / 256 / 256 / 256) in * by (rewrite !Z.div_div by lia; done).
  assert (v / 256 / 256 / 256 / 256 = 0) by (rewrite !Z.div_div by lia; apply Z.div_small; lia). lia.
Qed.

(** ** What the receiver reads *)

(** A socket whose addresses have their widths. *)
Record addressed (s : TcpSock) : Prop := {
  ad_rip : is_u32 (rip s);
  ad_rport : 0 <= rport s < 2 ^ 16;
  ad_lport : 0 <= lport s < 2 ^ 16;
  ad_mac : length (dst_mac s) = 6%nat /\ bytes (dst_mac s);
  ad_used : 0 <= rcv_used s <= RECV_CAP
}.

(** The fields of the frame [f], as [handle_frame] and [input_packet] read them. *)
Record reads (f : list Z) (mac : list Z) (ip_len src_ip hdr_len sport dport seq ackno flags window : Z) : Prop := {
  rd_type : get_be16 f 12 = 0x0800;
  rd_version : Z.shiftr (at_ f 14) 4 = 4;
  rd_len : get_be16 f 16 = ip_len;
  rd_proto : at_ f 23 = 6;
  rd_src : get_be32 f 26 = src_ip;
  rd_hdr : Z.shiftr (at_ f 46) 4 * 4 = hdr_len;
  rd_sport : get_be16 f 34 = sport;
  rd_dport : get_be16 f 36 = dport;
  rd_seq : get_be32 f 38 = seq;
  rd_ack : get_be32 f 42 = ackno;
  rd_flags : at_ f 47 = flags;
  rd_window : get_be16 f 48 = window;
  rd_mac : take 6 (drop 6 f) = mac
}.

Definition hdr_of (syn_opt : bool) : Z := if syn_opt then 24 else 20.

Lemma window_range s : 0 <= rcv_used s <= RECV_CAP -> rcv_window s = RECV_CAP - rcv_used s.
Proof.
  intros H. unfold rcv_window, RECV_CAP in *. rewrite u32_id by (unfold is_u32; lia). destruct (Z.ltb_spec 0xFFFF (16384 - rcv_used s)); [lia|]. unfold u16. apply Z.mod_small. lia.
Qed.

Lemma length_segment ip mac s seq ackno flags syn_opt pay :
  length (dst_mac s) = 6%nat -> length mac = 6%nat -> Z.of_nat (length (segment ip mac s seq ackno flags syn_opt pay)) = 34 + hdr_of syn_opt + Z.of_nat (length pay).
Proof.
  intros Hd Hm. unfold segment, eth_header, ip_header, tcp_header, be16, be32. rewrite !length_app. destruct syn_opt; cbn [length app]; rewrite ?length_app; cbn [length]; unfold hdr_of; lia.
Qed.

Lemma segment_reads ip mac s seq ackno flags syn_opt pay junk :
  is_u32 ip -> length mac = 6%nat -> addressed s -> is_u32 seq -> is_u32 ackno -> Z.of_nat (length pay) <= PUSH_MSS ->
  let f := segment ip mac s seq ackno flags syn_opt pay ++ junk in
  reads f mac (20 + hdr_of syn_opt + Z.of_nat (length pay)) (if is_loopback (rip s) then 0x7F000001 else ip) (hdr_of syn_opt) (lport s) (rport s) seq ackno flags (RECV_CAP - rcv_used s) /\
  take (length pay) (drop (Z.to_nat (34 + hdr_of syn_opt)) f) = pay.
Proof.
  intros Hip Hm [Ar Ap Al [Am _] Au] Hs Ha Hp f. assert (0 <= RECV_CAP - rcv_used s < 2 ^ 16) as Hw by (unfold RECV_CAP in *; lia).
  assert (u16 (20 + (if syn_opt then 4 else 0) + Z.of_nat (length pay)) = hdr_of syn_opt + Z.of_nat (length pay)) as El.
  { unfold PUSH_MSS in Hp. unfold u16. rewrite Z.mod_small; destruct syn_opt; unfold hdr_of; lia. }
  assert (is_u32 (if is_loopback (rip s) then 0x7F000001 else ip)) as Hsrc by (destruct (is_loopback _); [unfold is_u32; lia|done]).
  subst f. unfold segment. rewrite El. assert (u16 (20 + (hdr_of syn_opt + Z.of_nat (length pay))) = 20 + hdr_of syn_opt + Z.of_nat (length pay)) as ->
    by (unfold PUSH_MSS in Hp; unfold u16; rewrite Z.mod_small; destruct syn_opt; unfold hdr_of; lia).
  set (tck := checksum_done (checksum_add (checksum_add _ _) _)). set (ick := checksum_done _). set (src := if is_loopback (rip s) then _ else _) in *.
  destruct (dst_mac s) as [|d0 [|d1 [|d2 [|d3 [|d4 [|d5 [|]]]]]]]; try done. destruct mac as [|m0 [|m1 [|m2 [|m3 [|m4 [|m5 [|]]]]]]]; try done.
  unfold eth_header, ip_header, tcp_header. rewrite (window_range s Au). split.
  - assert (0 <= 20 + hdr_of syn_opt + Z.of_nat (length pay) < 2 ^ 16) by (unfold PUSH_MSS in Hp; destruct syn_opt; unfold hdr_of; lia).
    constructor; unfold get_be16, get_be32, be16, be32, at_; cbn [app nth plus Nat.add]; try (apply at_be16; assumption); try (apply at_be32; assumption); try reflexivity.
    destruct syn_opt; reflexivity.
  - destruct syn_opt; unfold be16, be32, hdr_of; cbn [app]; (match goal with |- context [Z.to_nat ?z] => let v := eval vm_compute in (Z.to_nat z) in change (Z.to_nat z) with v end); cbn [drop]; apply take_app_length.
Qed.

(** Both checksums verify. *)
Definition ip_part (f : list Z) : list Z := take 20 (drop 14 f).
Definition tcp_part (f : list Z) : list Z := drop 34 f.

Lemma be16_sum v : 0 <= v < 2 ^ 16 -> u8 (Z.shiftr v 8) * 256 + u8 v = v.
Proof. intros H. rewrite <- (at_be16 v H) at 3. by rewrite word_or by apply u8_range. Qed.

(** A checksum field adds its value to the sum. *)
Lemma wsum_field A ck B : Nat.even (length A) = true -> 0 <= ck < 2 ^ 16 -> wsum (A ++ be16 ck ++ B) = wsum (A ++ be16 0 ++ B) + ck.
Proof.
  intros He Hc. rewrite !(wsum_app A) by done. rewrite !(wsum_app (be16 _)) by done. pose proof (be16_sum ck Hc) as E. change (wsum (be16 0)) with 0. unfold be16 at 1. cbn [wsum]. lia.
Qed.

Lemma bytes_be16 v : bytes (be16 v).
Proof. repeat constructor; apply u8_range. Qed.

Lemma bytes_be32 v : bytes (be32 v).
Proof. repeat constructor; apply u8_range. Qed.

(** Filling in the checksum of a sum makes the whole verify. *)
Lemma filled_verifies P A B : bytes P -> bytes A -> bytes B -> Nat.even (length P) = true -> Nat.even (length A) = true -> Z.of_nat (length P + length A + length B) <= 2000 ->
  verifies (checksum_add (checksum_add 0 P) (A ++ be16 (checksum_done (checksum_add (checksum_add 0 P) (A ++ be16 0 ++ B))) ++ B)).
Proof.
  intros HP HA HB EP EA Hl. assert (forall v, bytes (A ++ be16 v ++ B)) as Hb by (intros v; apply Forall_app; split; [done|]; apply Forall_app; split; [apply bytes_be16|done]).
  assert (forall v, Z.of_nat (length (A ++ be16 v ++ B)) = Z.of_nat (length A + length B + 2)) as Ll by (intros v; rewrite !length_app; unfold be16; cbn [length]; lia).
  pose proof (wsum_bound P HP) as BP. pose proof (wsum_bound _ (Hb 0)) as B0. rewrite Ll in B0. rewrite (checksum_add_sum P) by (auto; lia).
  rewrite (checksum_add_sum (A ++ be16 0 ++ B)) by (auto; lia). set (x := 0 + wsum P + wsum (A ++ be16 0 ++ B)).
  destruct (checksum_verifies x ltac:(lia)) as (_ & Hc & Hv). pose proof (wsum_bound _ (Hb (checksum_done x))) as B1. rewrite Ll in B1.
  rewrite checksum_add_sum by (auto; lia). rewrite wsum_field by done. replace (0 + wsum P + (wsum (A ++ be16 0 ++ B) + checksum_done x)) with (x + checksum_done x) by lia. done.
Qed.

Lemma segment_verifies ip mac s seq ackno flags syn_opt pay :
  is_u32 ip -> length mac = 6%nat -> addressed s -> is_u32 seq -> is_u32 ackno -> is_u8 flags -> bytes pay -> Z.of_nat (length pay) <= PUSH_MSS ->
  let f := segment ip mac s seq ackno flags syn_opt pay in
  let src := if is_loopback (rip s) then 0x7F000001 else ip in
  verifies (checksum_add 0 (ip_part f)) /\
  verifies (checksum_add (checksum_add 0 (pseudo src (rip s) (hdr_of syn_opt + Z.of_nat (length pay)))) (tcp_part f)).
Proof.
  intros Hip Hm [Ar Ap Al [Am _] Au] Hs Ha Hf Hb Hp f src.
  assert (u16 (20 + (if syn_opt then 4 else 0) + Z.of_nat (length pay)) = hdr_of syn_opt + Z.of_nat (length pay)) as El.
  { unfold PUSH_MSS in Hp. unfold u16. rewrite Z.mod_small; destruct syn_opt; unfold hdr_of; lia. }
  assert (length (eth_header mac 0x0800 (dst_mac s)) = 14%nat) as Le by (unfold eth_header; rewrite !length_app, Am, Hm; done).
  subst f. unfold segment. rewrite El. fold src. set (ih := ip_header _ _ _ _ _). set (tck := checksum_done _).
  assert (ip_part (eth_header mac 0x0800 (dst_mac s) ++ ih ++ tcp_header s seq ackno flags syn_opt pay tck) = ih) as ->.
  { unfold ip_part. rewrite (drop_app_length' _ _ 14) by done. by apply take_app_length'. }
  assert (tcp_part (eth_header mac 0x0800 (dst_mac s) ++ ih ++ tcp_header s seq ackno flags syn_opt pay tck) = tcp_header s seq ackno flags syn_opt pay tck) as ->.
  { unfold tcp_part. rewrite app_assoc. apply drop_app_length'. rewrite length_app, Le. done. }
  split.
  - subst ih. set (total := u16 _). set (id := Z.land seq 0xFFFF).
    pose proof (filled_verifies [] ([0x45; 0] ++ be16 total ++ be16 id ++ be16 0 ++ [64; 6]) (be32 src ++ be32 (rip s))) as V. apply V; [constructor| | |done|done|cbn; lia].
    + repeat (apply Forall_app; split); try apply bytes_be16; repeat constructor; unfold is_u8; lia.
    + apply Forall_app; split; apply bytes_be32.
  - set (opt := if syn_opt then [2; 4] ++ be16 PUSH_MSS else []). set (A := be16 (lport s) ++ be16 (rport s) ++ be32 seq ++ be32 ackno ++ [u8 (Z.shiftl ((20 + if syn_opt then 4 else 0) / 4) 4); flags] ++ be16 (rcv_window s)).
    assert (forall ck, tcp_header s seq ackno flags syn_opt pay ck = A ++ be16 ck ++ (be16 0 ++ opt ++ pay)) as Eh by (intros ck; unfold tcp_header, A; fold opt; by rewrite <- !app_assoc).
    subst tck. rewrite !Eh. apply filled_verifies; [|  | |done|done|].
    + unfold pseudo. repeat (apply Forall_app; split); try apply bytes_be32; try apply bytes_be16. repeat constructor; unfold is_u8; lia.
    + unfold A. repeat (apply Forall_app; split); try apply bytes_be32; try apply bytes_be16. constructor; [apply u8_range|]. constructor; [done|constructor].
    + apply Forall_app; split; [apply bytes_be16|]. apply Forall_app; split; [|done]. subst opt. destruct syn_opt; [|constructor]. apply Forall_app; split; [repeat constructor; unfold is_u8; lia|apply bytes_be16].
    + rewrite !length_app. assert (length opt <= 4)%nat by (subst opt; destruct syn_opt; cbn; lia). change (length (pseudo src (rip s) (hdr_of syn_opt + Z.of_nat (length pay)))) with 12%nat. change (length A) with 16%nat. unfold PUSH_MSS in Hp. cbn [length be16]. lia.
Qed.
