(* ===== verification/TcpStream.v ===== *)
(** An established TCP connection over the wire: what it sends, and what it takes in. *)
From S2P Require Import Prelude Tcp TcpSegment.
Local Open Scope vnu_scope.

Lemma bind_done {A B} (m : M A) (k : A -> M B) n a n' : m n = Done (a, n') -> bind m k n = k a n'.
Proof. unfold bind. by intros ->. Qed.

(** ** A state in which one socket has changed *)

Definition at_sock (n : Net) (i : nat) (s : TcpSock) (t : list Z) (w : list (list Z)) (k : nat) : Net :=
  mkNet (<[i := s]> (socks n)) (g_ephemeral n) t w k (g_up n) (g_arp_ip n) (g_arp_mac n) (g_arp_resolve n).

Lemma at_sock_self n i : (i < length (socks n))%nat -> at_sock n i (sock_at n i) (txbuf n) (wire n) (ticks n) = n.
Proof.
  intros Hi. unfold at_sock, sock_at. rewrite list_insert_id; [by destruct n|]. destruct (lookup_lt_is_Some_2 (socks n) i Hi) as [s Hs]. by rewrite (nth_lookup_Some _ _ _ _ Hs).
Qed.

Lemma sock_at_eq n i s t w k : (i < length (socks n))%nat -> sock_at (at_sock n i s t w k) i = s.
Proof. intros Hi. unfold sock_at. cbn [at_sock socks]. rewrite nth_lookup, list_lookup_insert_eq by done. done. Qed.

Lemma sock_at_ne n i j s t w k : i <> j -> sock_at (at_sock n i s t w k) j = sock_at n j.
Proof. intros Hi. unfold sock_at. cbn [at_sock socks]. by rewrite !nth_lookup, list_lookup_insert_ne. Qed.

Section Steps.
Context (our_ip : Z) (g_mac : list Z) (clock : nat -> Z) (n : Net) (i : nat) (Hi : (i < length (socks n))%nat).
Abbreviation st := (at_sock n i).

Lemma sk_ok s t w k : sk i (st s t w k) = Done (s, st s t w k).
Proof. unfold sk, gets. by rewrite sock_at_eq. Qed.

Lemma upd_done f s t w k : upd i f (st s t w k) = Done (tt, st (f s) t w k).
Proof. unfold upd, modify. rewrite sock_at_eq by done. do 2 f_equal. unfold at_sock, set_socks. cbn. by rewrite list_insert_insert_eq. Qed.

Lemma now_ok s t w k : now_ms clock (st s t w k) = Done (clock k, st s t w (S k)).
Proof. done. Qed.

Lemma when_ok b m s t w k s' t' w' k' :
  (b = true -> m (st s t w k) = Done (tt, st s' t' w' k')) -> (b = false -> st s t w k = st s' t' w' k') -> when b m (st s t w k) = Done (tt, st s' t' w' k').
Proof. intros H1 H2. destruct b; cbn [when]; [by apply H1|unfold ret; by rewrite H2]. Qed.

(** The transmit buffer with a frame in it. *)
Definition loaded (t f : list Z) : list Z := over (over t (replicate 60 0)) f.

Lemma send_seg_ok loop s0 seq ackno flags opt pay s t w k :
  is_loopback (rip s0) = false -> let f := segment our_ip g_mac s0 seq ackno flags opt pay in
  tcp_send_seg our_ip g_mac loop s0 seq ackno flags opt pay (st s t w k) = Done (tt, st s (loaded t f) (w ++ [f]) k).
Proof. intros Hl f. unfold tcp_send_seg. rewrite Hl. done. Qed.
End Steps.

#[export] Hint Rewrite sk_ok upd_done now_ok using done : vnu.

(** ** The connection *)

(** The ends of a connection. *)
Record ends := mkEnds { e_rip : Z; e_rport : Z; e_lport : Z }.
Definition has_ends (e : ends) (s : TcpSock) : Prop := rip s = e_rip e /\ rport s = e_rport e /\ lport s = e_lport e.

(** [S] has been given to the connection; [u] bytes of it are acknowledged, [x] have been sent. *)
Record sender (a0 : Z) (S : list Z) (u x : nat) (s : TcpSock) : Prop := {
  sd_una : snd_una s = u32 (a0 + Z.of_nat u);
  sd_nxt : snd_nxt s = u32 (a0 + Z.of_nat x);
  sd_range : (u <= x <= length S)%nat;
  sd_used : snd_used s = Z.of_nat (length S) - Z.of_nat u;
  sd_cap : snd_used s <= SEND_CAP;
  sd_buf : length (sndbuf s) = Z.to_nat SEND_CAP;
  sd_data : take (length S - u) (sndbuf s) = drop u S;
  sd_wnd : 0 <= snd_wnd s < 2 ^ 16;
  sd_mss : 0 < peer_mss s < 2 ^ 16;
  sd_nofin : fin_sent s = false
}.

(** Of the peer's stream [R], [y] bytes have come in, and [g] of them have been taken out. *)
Record receiver (b0 : Z) (R : list Z) (g y : nat) (s : TcpSock) : Prop := {
  rv_base : rcv_base s = u32 (b0 + Z.of_nat g);
  rv_range : (g <= y <= length R)%nat;
  rv_used : rcv_used s = Z.of_nat y - Z.of_nat g;
  rv_cap : rcv_used s <= RECV_CAP;
  rv_buf : length (rcvbuf s) = Z.to_nat RECV_CAP;
  rv_data : take (y - g) (rcvbuf s) = take (y - g) (drop g R);
  rv_nofin : fin_rcvd s = false
}.

Record conn (e : ends) (a0 b0 : Z) (S R : list Z) (u x g y : nat) (s : TcpSock) : Prop := {
  cn_used : used s = true;
  cn_state : state s = ST_ESTABLISHED;
  cn_ends : has_ends e s;
  cn_mac : length (dst_mac s) = 6%nat /\ bytes (dst_mac s);
  cn_reset : err_reset s = false;
  cn_send : sender a0 S u x s;
  cn_recv : receiver b0 R g y s
}.

(** Ends that are on the wire, with their widths. *)
Definition proper (e : ends) : Prop := is_u32 (e_rip e) /\ 0 <= e_rport e < 2 ^ 16 /\ 0 <= e_lport e < 2 ^ 16 /\ is_loopback (e_rip e) = false.

Lemma conn_addressed e a0 b0 S R u x g y s : proper e -> conn e a0 b0 S R u x g y s -> addressed s /\ is_loopback (rip s) = false.
Proof.
  intros (P1 & P2 & P3 & P4) [_ _ (E1 & E2 & E3) Hm _ _ [_ Rr Ru Rc _ _ _]]. split; [|by rewrite E1]. constructor; rewrite ?E1, ?E2, ?E3; auto. lia.
Qed.

Lemma conn_ackno e a0 b0 S R u x g y s : conn e a0 b0 S R u x g y s -> rcv_ackno s = u32 (b0 + Z.of_nat y).
Proof.
  intros [_ _ _ _ _ _ [Rb Rr Ru _ _ _ Rf]]. unfold rcv_ackno. rewrite Rb, Ru, Rf. unfold u32. rewrite Z.add_0_r, Z.add_mod_idemp_l by lia. f_equal. lia.
Qed.

(** A frame of the connection: bytes of the stream in their place, [x] at most, and an acknowledgement of at most [y] bytes. *)
Definition fragment (ip : Z) (mac : list Z) (e : ends) (a0 b0 : Z) (S : list Z) (x y : nat) (f : list Z) : Prop :=
  exists s k r p, f = segment ip mac s (u32 (a0 + Z.of_nat k)) (u32 (b0 + Z.of_nat r)) FLAG_ACK false (take p (drop k S)) /\
    addressed s /\ has_ends e s /\ (k + p <= x)%nat /\ Z.of_nat p <= PUSH_MSS /\ (r <= y)%nat.

Lemma fragment_mono ip mac e a0 b0 S S' x x' y y' f :
  (x <= length S)%nat -> (x <= x')%nat -> (y <= y')%nat -> fragment ip mac e a0 b0 S x y f -> fragment ip mac e a0 b0 (S ++ S') x' y' f.
Proof.
  intros Hl Hx Hy (s & k & r & p & -> & Ha & He & Hk & Hp & Hr). exists s, k, r, p. split; [|split; [done|split; [done|split; [lia|split; [done|lia]]]]].
  rewrite drop_app_le by lia. rewrite take_app_le by (rewrite length_drop; lia). done.
Qed.

Lemma fragments_mono ip mac e a0 b0 S x x' y y' fs :
  (x <= length S)%nat -> (x <= x')%nat -> (y <= y')%nat -> Forall (fragment ip mac e a0 b0 S x y) fs -> Forall (fragment ip mac e a0 b0 S x' y') fs.
Proof. intros Hl Hx Hy H. eapply Forall_impl; [exact H|]. intros f Hf. rewrite <- (app_nil_r S). by eapply fragment_mono. Qed.

(** Fields that the connection does not look at. *)
Lemma conn_rto e a0 b0 S R u x g y s : conn e a0 b0 S R u x g y s -> forall a b c, conn e a0 b0 S R u x g y (set_rto_at a (set_rto b (set_rto_active c s))).
Proof. intros [? ? ? ? ? [] []] a b c. constructor; auto; by constructor. Qed.

Lemma u32_diff a x u : 0 <= x - u < 2 ^ 32 -> u32 (u32 (a + x) - u32 (a + u)) = x - u.
Proof.
  intros H. unfold u32. rewrite Zminus_mod_idemp_l, Zminus_mod_idemp_r. replace (a + x - (a + u)) with (x - u) by lia. apply Z.mod_small. lia.
Qed.

(** The unsent bytes are at their place in the send buffer. *)
Lemma sender_window a0 S u x s p : sender a0 S u x s -> (x + p <= length S)%nat -> take p (drop (Z.to_nat (Z.of_nat x - Z.of_nat u)) (sndbuf s)) = take p (drop x S).
Proof.
  intros [_ _ Sr _ _ _ Sd _ _ _] Hp. replace (Z.to_nat (Z.of_nat x - Z.of_nat u)) with (x - u)%nat by lia.
  assert (drop x S = drop (x - u) (take (length S - u) (sndbuf s))) as ->.
  { rewrite Sd, drop_drop. f_equal. lia. }
  rewrite skipn_firstn_comm, take_take. f_equal. lia.
Qed.

Lemma u32_split z : exists q, u32 z = z - 2 ^ 32 * q /\ 0 <= u32 z < 2 ^ 32.
Proof. exists (z / 2 ^ 32). unfold u32. pose proof (Z_div_mod_eq_full z (2 ^ 32)). pose proof (Z.mod_pos_bound z (2 ^ 32) ltac:(lia)). lia. Qed.

(** An acknowledgement that passes the two tests is for bytes in flight. *)
Lemma ack_range a0 u r used : Z.abs (r - u) < 2 ^ 31 -> 0 <= used <= SEND_CAP ->
  u32 (a0 + u) < u32 (a0 + r) -> u32 (a0 + r) <= u32 (u32 (a0 + u) + used) -> u32 (a0 + r) - u32 (a0 + u) = r - u /\ 0 < r - u <= used.
Proof.
  intros Hr Hu H1 H2. unfold SEND_CAP in Hu. destruct (u32_split (a0 + u)) as (q1 & E1 & B1), (u32_split (a0 + r)) as (q2 & E2 & B2), (u32_split (u32 (a0 + u) + used)) as (q3 & E3 & B3). lia.
Qed.

Lemma u16_small z : 0 <= z < 2 ^ 16 -> u16 z = z.
Proof. apply Z.mod_small. Qed.

Lemma u32_add a b : u32 (u32 a + b) = u32 (a + b).
Proof. unfold u32. by rewrite Z.add_mod_idemp_l. Qed.

(** Two places less than 2^31 apart have different numbers. *)
Lemma u32_inj a x y : Z.abs (x - y) < 2 ^ 31 -> u32 (a + x) = u32 (a + y) -> x = y.
Proof. intros H E. destruct (u32_split (a + x)) as (q1 & E1 & B1), (u32_split (a + y)) as (q2 & E2 & B2). lia. Qed.

Lemma advance_conn e a0 b0 S R u x g y s r : conn e a0 b0 S R u x g y s -> (u <= r <= x)%nat -> conn e a0 b0 S R r x g y (advance (Z.of_nat r - Z.of_nat u) s).
Proof.
  intros [? ? ? ? ? [Sa Sx Sr Su Sc Sb Sd Sw Sm Sf] []] Hr. constructor; auto; [|by constructor]. unfold SEND_CAP in *.
  constructor; cbn [advance set_snd_una set_snd_used set_sndbuf snd_una snd_nxt snd_used sndbuf snd_wnd peer_mss fin_sent]; auto; unfold SEND_CAP; try lia.
  - rewrite Sa, u32_add. f_equal. lia.
  - rewrite length_app, length_take, !length_drop. lia.
  - replace (Z.to_nat (snd_used s - (Z.of_nat r - Z.of_nat u))) with (length S - r)%nat by lia. rewrite take_app_le by (rewrite length_take, length_drop; lia).
    rewrite take_take, Nat.min_id. assert (drop r S = drop (r - u) (take (length S - u) (sndbuf s))) as -> by (rewrite Sd, drop_drop; f_equal; lia).
    rewrite skipn_firstn_comm. f_equal; [lia|]. f_equal. lia.
Qed.

Lemma store_conn e a0 b0 S R u x g y s p :
  conn e a0 b0 S R u x g y s -> (y + p <= length R)%nat -> rcv_used s + Z.of_nat p <= RECV_CAP -> conn e a0 b0 S R u x g (y + p) (store (take p (drop y R)) s).
Proof.
  intros [? ? ? ? ? [] [Rb Rr Ru Rc Rl Rd Rf]] Hp Hc. assert (length (take p (drop y R)) = p) as Lp by (rewrite length_take, length_drop; lia). unfold RECV_CAP in *.
  constructor; auto; [by constructor|]. constructor; cbn [store set_rcv_used set_rcvbuf rcv_base rcv_used rcvbuf fin_rcvd]; auto; unfold RECV_CAP; rewrite ?Lp; try lia.
  - rewrite !length_app, length_take, length_drop, Lp. lia.
  - replace (Z.to_nat (rcv_used s)) with (y - g)%nat by lia. rewrite app_assoc. rewrite take_app_le by (rewrite length_app, length_take, Lp; lia).
    rewrite take_ge by (rewrite length_app, length_take, Lp; lia). rewrite Rd. replace (y + p - g)%nat with ((y - g) + p)%nat by lia.
    rewrite <- take_take_drop. rewrite drop_drop. do 3 f_equal. lia.
Qed.

Lemma consume_conn e a0 b0 S R u x g y s c :
  conn e a0 b0 S R u x g y s -> (g + c <= y)%nat -> conn e a0 b0 S R u x (g + c) y (consume (Z.of_nat c) s) /\ take c (rcvbuf s) = take c (drop g R).
Proof.
  intros [? ? ? ? ? [] [Rb Rr Ru Rc Rl Rd Rf]] Hp. unfold RECV_CAP in *. split.
  - constructor; auto; [by constructor|]. constructor; cbn [consume set_rcv_base set_rcv_used set_rcvbuf rcv_base rcv_used rcvbuf fin_rcvd]; auto; unfold RECV_CAP; try lia.
    + rewrite Rb, u32_add. f_equal. lia.
    + rewrite length_app, length_take, !length_drop. lia.
    + replace (Z.to_nat (rcv_used s - Z.of_nat c)) with (y - (g + c))%nat by lia. rewrite take_app_le by (rewrite length_take, length_drop; lia). rewrite take_take, Nat.min_id, Nat2Z.id.
      rewrite <- drop_drop. pose proof (f_equal (drop c) Rd) as E. rewrite !skipn_firstn_comm in E. by replace (y - g - c)%nat with (y - (g + c))%nat in E by lia.
  - replace (take c (rcvbuf s)) with (take c (take (y - g) (rcvbuf s))) by (rewrite take_take; f_equal; lia). rewrite Rd, take_take. f_equal. lia.
Qed.

Lemma first_from_ext f1 f2 : (forall j, f1 j = f2 j) -> forall c j, first_from f1 j c = first_from f2 j c.
Proof. intros H c; induction c as [|c IH]; intros j; cbn [first_from]; [done|]. by rewrite H, IH. Qed.

Lemma first_from_some f c : forall j i, first_from f j c = Some i -> f i = true.
Proof. induction c as [|c IH]; intros j i; cbn [first_from]; [done|]. destruct (f j) eqn:E; [by intros [= ->]|apply IH]. Qed.

Lemma find_peer_at n i e s t w k : (i < length (socks n))%nat ->
  find_peer_sock n (e_rip e) (e_rport e) (e_lport e) = Some i -> used s = true -> has_ends e s -> find_peer_sock (at_sock n i s t w k) (e_rip e) (e_rport e) (e_lport e) = Some i.
Proof.
  intros Hi F Hu (E1 & E2 & E3). rewrite <- F. unfold find_peer_sock in *. apply first_from_some in F. apply first_from_ext. intros j. cbv zeta in *. destruct (decide (j = i)) as [->|Hj].
  - rewrite F, sock_at_eq by done. by rewrite Hu, E1, E2, E3, !Z.eqb_refl.
  - by rewrite sock_at_ne by done.
Qed.

(** The frame [f] in a receive buffer of the card. *)
Definition received (f : list Z) (fr : list Z * Z) : Prop := exists junk, fst fr = f ++ junk /\ Z.of_nat (length f) <= snd fr.

Lemma buffer_conn e a0 b0 S R u x g y s c :
  conn e a0 b0 S R u x g y s -> snd_used s + Z.of_nat (length c) <= SEND_CAP -> conn e a0 b0 (S ++ c) R u x g y (buffer c s).
Proof.
  intros [? ? ? ? ? [Sa Sx Sr Su Sc Sb Sd Sw Sm Sf] []] Hc. unfold SEND_CAP in *. constructor; auto; [|by constructor].
  constructor; cbn [buffer set_snd_used set_sndbuf snd_una snd_nxt snd_used sndbuf snd_wnd peer_mss fin_sent]; auto; unfold SEND_CAP; rewrite ?length_app; try lia.
  - rewrite length_take, length_drop. lia.
  - replace (Z.to_nat (snd_used s)) with (length S - u)%nat by lia. rewrite app_assoc, take_app_le by (rewrite length_app, length_take; lia).
    rewrite take_ge by (rewrite length_app, length_take; lia). rewrite Sd. by rewrite drop_app_le by lia.
Qed.

(** A TCP frame whose packet is inside the received bytes goes to [segment_input]. *)
Lemma handle_frame_reads our_ip g_mac clock fuel f len mac ip_len src_ip hdr_len sport dport seq ackno flags window :
  reads f mac ip_len src_ip hdr_len sport dport seq ackno flags window -> 20 <= ip_len <= 2 ^ 15 -> 20 <= hdr_len -> 14 + ip_len <= len ->
  exists lp, forall n, handle_frame our_ip g_mac clock fuel (f, len) n =
    segment_input our_ip g_mac clock lp src_ip (Some f) f hdr_len sport dport seq ackno flags window (u32 (ip_len - 20 - hdr_len)) n.
Proof.
  intros [Q1 Q2 Q3 Q4 Q5 Q6 Q7 Q8 Q9 Q10 Q11 Q12 _] Hip Hh Hl. unfold handle_frame. destruct (Z.ltb_spec len 16); [lia|]. cbv zeta. rewrite Q1, Q2, Q3, Q4, Q5.
  change (0x0800 =? 0x0806) with false. change (negb (0x0800 =? 0x0800)) with false. change (negb (4 =? 4)) with false. change (6 =? 6) with true. rewrite (u16_small (14 + _)) by lia.
  destruct (Z.ltb_spec len 34); [lia|]. destruct (Z.ltb_spec ip_len 20); [lia|]. destruct (Z.ltb_spec len (14 + ip_len)); [lia|]. cbn [orb when].
  destruct fuel as [|fl]; cbn [input_packet]; eexists; intros n; unfold input_body, frame; (destruct (Z.ltb_spec ip_len 20); [lia|]); rewrite (bind_done _ _ _ _ _ (eq_refl : ret f n = Done (f, n))); cbv zeta; rewrite Q6, Q7, Q8, Q9, Q10, Q11, Q12.
  all: destruct (Z.ltb_spec hdr_len 20); [lia|reflexivity].
Qed.

(** A segment without SYN or RST for an established connection. *)
Lemma segment_input_established our_ip g_mac clock lp src_ip f hdr sport dport seq ackno flags window paylen n i :
  has flags FLAG_SYN = false -> has flags FLAG_RST = false -> find_peer_sock n src_ip sport dport = Some i -> state (sock_at n i) = ST_ESTABLISHED ->
  segment_input our_ip g_mac clock lp src_ip (Some f) f hdr sport dport seq ackno flags window paylen n = connection_input our_ip g_mac clock lp i (Some f) hdr paylen seq ackno flags window n.
Proof.
  intros F1 F2 Hf Hs. unfold segment_input. rewrite (bind_done _ _ _ _ _ (eq_refl : gets (fun n => n) n = Done (n, n))). cbv zeta. by rewrite Hf, F1, F2, Hs.
Qed.

Section Wire.
Context (our_ip : Z) (g_mac : list Z) (clock : nat -> Z) (loop : Z -> Z -> M unit) (n : Net) (i : nat) (Hi : (i < length (socks n))%nat) (e : ends) (He : proper e) (a0 b0 : Z).
Abbreviation st := (at_sock n i).
Abbreviation fragment := (fragment our_ip g_mac e a0 b0).

(** The connection goes on: frames are sent, only its own socket changes. *)
Definition goes (S R : list Z) (u x g y : nat) (m : M unit) (s : TcpSock) : Prop :=
  forall t w k, exists u' x' s' t' fs k', m (st s t w k) = Done (tt, st s' t' (w ++ fs) k') /\ (u <= u')%nat /\ (x <= x')%nat /\ conn e a0 b0 S R u' x' g y s' /\ Forall (fragment S x' y) fs.

(** One segment of the unsent bytes. *)
Lemma push_loop_ok fuel S R u x g y s t w k window :
  conn e a0 b0 S R u x g y s -> Z.of_nat (length S) < 2 ^ 31 -> 0 <= window < 2 ^ 16 -> (length S - x < fuel)%nat ->
  exists x' s' t' fs k', push_loop our_ip g_mac clock loop fuel i window (Z.of_nat x - Z.of_nat u) (Z.of_nat (length S) - Z.of_nat x) (st s t w k) = Done (tt, st s' t' (w ++ fs) k') /\
    (x <= x')%nat /\ conn e a0 b0 S R u x' g y s' /\ Forall (fragment S x' y) fs.
Proof.
  revert x s t w k; induction fuel as [|fuel IH]; intros x s t w k C HS Hw Hf; [lia|].
  assert (exists x' s' t' fs k', ret tt (st s t w k) = Done (tt, st s' t' (w ++ fs) k') /\ (x <= x')%nat /\ conn e a0 b0 S R u x' g y s' /\ Forall (fragment S x' y) fs) as Hstop.
  { exists x, s, t, [], k. rewrite app_nil_r. done. }
  cbn [push_loop]. destruct (negb _ && _) eqn:Eb; [|exact Hstop]. apply andb_true_iff in Eb as [Eu%negb_true_iff%Z.eqb_neq El%Z.ltb_lt].
  rewrite (bind_done _ _ _ _ _ (sk_ok n i Hi s t w k)). cbv zeta.
  pose proof C as [_ _ _ _ _ [Sa Sx Sr Su Sc Sb Sd Sw Sm Sf] _]. set (un := Z.of_nat (length S) - Z.of_nat x) in *.
  assert (u16 (window - (Z.of_nat x - Z.of_nat u)) = window - (Z.of_nat x - Z.of_nat u)) as -> by (unfold u16; apply Z.mod_small; lia).
  set (allow := window - (Z.of_nat x - Z.of_nat u)). set (seg1 := if allow <? PUSH_MSS then allow else PUSH_MSS). set (seg2 := if peer_mss s <? seg1 then peer_mss s else seg1).
  set (seg := if un <? seg2 then u16 un else seg2).
  assert (0 < seg <= un /\ seg <= PUSH_MSS) as [Hseg Hmss].
  { assert (0 < seg1 <= PUSH_MSS) by (subst seg1 allow; unfold PUSH_MSS; bcase; lia). assert (0 < seg2 <= PUSH_MSS) by (subst seg2; bcase; lia).
    subst seg. destruct (Z.ltb_spec un seg2); [|lia]. unfold u16. unfold PUSH_MSS in *. rewrite Z.mod_small by lia. lia. }
  clearbody seg. clear seg1 seg2 allow. destruct (Z.eqb_spec seg 0); [lia|]. rewrite Sa, Sx. rewrite u32_diff by lia.
  destruct (Z.ltb_spec SEND_CAP (Z.of_nat x - Z.of_nat u + seg)); [unfold SEND_CAP in *; lia|]. destruct (conn_addressed _ _ _ _ _ _ _ _ _ s He C) as [Had Hlp].
  rewrite (bind_done _ _ _ _ _ (send_seg_ok our_ip g_mac n i loop s _ _ _ _ _ s t w k Hlp)). set (f := segment _ _ _ _ _ _ _ _).
  assert (fragment S (x + Z.to_nat seg) y f) as Hfr.
  { exists s, x, y, (Z.to_nat seg). split; [|split; [done|split; [by destruct C|split; [lia|split; [lia|done]]]]]. subst f. rewrite (conn_ackno _ _ _ _ _ _ _ _ _ s C).
    rewrite (sender_window a0 S u x s (Z.to_nat seg)) by (first [by destruct C|lia]). reflexivity. }
  rewrite (bind_done _ _ _ _ _ (sk_ok n i Hi s _ _ k)).
  assert (exists s1 k1, when (negb (rto_active s)) (bind (now_ms clock) (fun t0 => upd i (fun s => set_rto_at t0 (set_rto INITIAL_RTO (set_rto_active true s))))) (st s (loaded t f) (w ++ [f]) k) = Done (tt, st s1 (loaded t f) (w ++ [f]) k1) /\ conn e a0 b0 S R u x g y s1) as (s1 & k1 & E1 & C1).
  { destruct (rto_active s) eqn:Er; cbn [negb when]; [by exists s, k|]. rewrite (bind_done _ _ _ _ _ (now_ok clock n i s _ _ k)), upd_done by done. eexists _, _. split; [done|]. by apply conn_rto. }
  rewrite (bind_done _ _ _ _ _ E1), (bind_done _ _ _ _ _ (upd_done n i Hi _ s1 _ _ k1)). rewrite (bind_done _ _ _ _ _ (sk_ok n i Hi _ _ _ k1)). cbv zeta.
  assert (conn e a0 b0 S R u (x + Z.to_nat seg) g y (set_snd_nxt (u32 (snd_nxt s1 + seg)) s1)) as C2.
  { destruct C1 as [? ? ? ? ? [S1a S1x S1r S1u S1c S1b S1d S1w S1m S1f] Rc]. constructor; auto; [|destruct Rc; by constructor]. constructor; auto; [|lia]. cbn [set_snd_nxt snd_nxt]. rewrite S1x. unfold u32. rewrite Z.add_mod_idemp_l by lia. f_equal. lia. }
  pose proof C2 as [_ _ _ _ _ [Ta Tx Tr Tu _ _ _ _ _ _] _]. rewrite Tx, Ta, Tu. rewrite u32_diff by lia.
  assert (u32 (Z.of_nat (length S) - Z.of_nat u - (Z.of_nat (x + Z.to_nat seg) - Z.of_nat u)) = Z.of_nat (length S) - Z.of_nat (x + Z.to_nat seg)) as -> by (rewrite u32_id; [lia|unfold is_u32; lia]).
  destruct (IH (x + Z.to_nat seg)%nat _ (loaded t f) (w ++ [f]) k1 C2 HS Hw ltac:(lia)) as (x' & s' & t' & fs & k' & E & Hx & C' & Hfs).
  exists x', s', t', (f :: fs), k'. split; [rewrite E; by rewrite <- app_assoc|]. split; [lia|]. split; [done|]. constructor; [|done]. pose proof C' as [_ _ _ _ _ [_ _ Lr _ _ _ _ _ _ _] _].
  rewrite <- (app_nil_r S). eapply fragment_mono; [| | |exact Hfr]; lia.
Qed.

Lemma push_exact S R u x g y s t w k : conn e a0 b0 S R u x g y s -> Z.of_nat (length S) < 2 ^ 31 ->
  exists x' s' t' fs k', tcp_push our_ip g_mac clock loop i (st s t w k) = Done (tt, st s' t' (w ++ fs) k') /\ (x <= x')%nat /\ conn e a0 b0 S R u x' g y s' /\ Forall (fragment S x' y) fs.
Proof.
  intros C HS. unfold tcp_push. rewrite (bind_done _ _ _ _ _ (sk_ok n i Hi s t w k)). cbv zeta. pose proof C as [_ _ _ _ _ [Sa Sx Sr Su Sc Sb Sd Sw Sm Sf] _]. rewrite Sa, Sx.
  rewrite u32_diff by lia. assert (u32 (snd_used s - (Z.of_nat x - Z.of_nat u)) = Z.of_nat (length S) - Z.of_nat x) as -> by (rewrite u32_id; [lia|unfold is_u32; lia]).
  apply (push_loop_ok (Datatypes.S (Z.to_nat (snd_wnd s + snd_used s))) S R u x g y s t w k (snd_wnd s) C HS Sw). lia.
Qed.

Lemma push_ok S R u x g y s : conn e a0 b0 S R u x g y s -> Z.of_nat (length S) < 2 ^ 31 -> goes S R u x g y (tcp_push our_ip g_mac clock loop i) s.
Proof. intros C HS t w k. destruct (push_exact S R u x g y s t w k C HS) as (x' & s' & t' & fs & k' & E & Hx & C' & Hfs). by exists u, x', s', t', fs, k'. Qed.

Lemma conn_wnd S R u x g y s v : conn e a0 b0 S R u x g y s -> 0 <= v < 2 ^ 16 -> conn e a0 b0 S R u x g y (set_snd_wnd v s).
Proof. intros [? ? ? ? ? [] []] Hv. constructor; auto; by constructor. Qed.

Lemma conn_rto_active S R u x g y s v : conn e a0 b0 S R u x g y s -> conn e a0 b0 S R u x g y (set_rto_active v s).
Proof. intros [? ? ? ? ? [] []]. constructor; auto; by constructor. Qed.

Lemma ack_ok S R u x g y s r wnd :
  conn e a0 b0 S R u x g y s -> Z.of_nat (length S) < 2 ^ 31 -> (r <= x)%nat -> 0 <= wnd < 2 ^ 16 ->
  goes S R u x g y (acknowledge our_ip g_mac clock loop i (u32 (a0 + Z.of_nat r)) wnd) s.
Proof.
  intros C HS Hr Hw t w k. assert (forall t w k, exists u' x' s' t' fs k', ret tt (st s t w k) = Done (tt, st s' t' (w ++ fs) k') /\ (u <= u')%nat /\ (x <= x')%nat /\ conn e a0 b0 S R u' x' g y s' /\ Forall (fragment S x' y) fs) as Hstop.
  { intros t1 w1 k1. exists u, x, s, t1, [], k1. rewrite app_nil_r. done. }
  pose proof C as [_ _ _ _ _ [Sa Sx Sr Su Sc Sb Sd Sw Sm Sf] _]. unfold acknowledge. rewrite (bind_done _ _ _ _ _ (sk_ok n i Hi s t w k)). cbv zeta. rewrite Sf. cbn [andb orb negb].
  destruct (Z.leb_spec (u32 (a0 + Z.of_nat r)) (snd_una s)) as [|H1]; [apply Hstop|]. rewrite u32_add, Z.add_0_r. destruct (Z.ltb_spec (u32 (snd_una s + snd_used s)) (u32 (a0 + Z.of_nat r))) as [|H2]; [apply Hstop|].
  rewrite Sa in H1, H2 |- *. destruct (ack_range a0 (Z.of_nat u) (Z.of_nat r) (snd_used s) ltac:(lia) ltac:(lia) H1 H2) as [E Hru]. rewrite E.
  destruct (Z.ltb_spec (snd_used s) (Z.of_nat r - Z.of_nat u)); [lia|]. cbn [when].
  rewrite (bind_done _ _ _ _ _ (eq_refl : ret tt (st s t w k) = Done (tt, st s t w k))). destruct (Z.eqb_spec (Z.of_nat r - Z.of_nat u) 0); [lia|]. cbn [negb when].
  rewrite (bind_done _ _ _ _ _ (upd_done n i Hi _ s t w k)). rewrite (bind_done _ _ _ _ _ (now_ok clock n i _ t w k)). rewrite (bind_done _ _ _ _ _ (upd_done n i Hi _ _ t w _)).
  rewrite (bind_done _ _ _ _ _ (sk_ok n i Hi _ t w _)). assert (conn e a0 b0 S R r x g y (set_rto_at (clock k) (set_rto INITIAL_RTO (set_snd_wnd wnd (advance (Z.of_nat r - Z.of_nat u) s))))) as C1.
  { pose proof (advance_conn _ _ _ _ _ _ _ _ _ s r C ltac:(lia)) as C1. apply (conn_wnd _ _ _ _ _ _ _ wnd) in C1; [|done]. destruct C1 as [? ? ? ? ? [] []]. constructor; auto; by constructor. }
  set (s1 := set_rto_at _ _) in *. clearbody s1.
  assert (exists s2, when ((snd_used s1 =? 0) && (negb (fin_sent s1) || fin_acked s1)) (upd i (set_rto_active false)) (st s1 t w (Datatypes.S k)) = Done (tt, st s2 t w (Datatypes.S k)) /\ conn e a0 b0 S R r x g y s2) as (s2 & E2 & C2).
  { destruct (_ && _); cbn [when]; [|by exists s1]. rewrite (upd_done n i Hi). eexists. split; [reflexivity|]. by apply conn_rto_active. }
  rewrite (bind_done _ _ _ _ _ E2). destruct (push_ok S R r x g y s2 C2 HS t w (Datatypes.S k)) as (u' & x' & s' & t' & fs & k' & E3 & Hu & Hx & C' & Hfs).
  exists u', x', s', t', fs, k'. split; [exact E3|]. split; [lia|done].
Qed.

Lemma send_ack_ok S R u x g y s : conn e a0 b0 S R u x g y s -> goes S R u x g y (tcp_send_ack our_ip g_mac loop i) s.
Proof.
  intros C t w k. unfold tcp_send_ack. rewrite (bind_done _ _ _ _ _ (sk_ok n i Hi s t w k)). destruct (conn_addressed _ _ _ _ _ _ _ _ _ s He C) as [Had Hlp].
  rewrite (send_seg_ok our_ip g_mac n i loop s _ _ _ _ _ s t w k Hlp). eexists u, x, s, _, [_], k. split; [reflexivity|]. do 2 (split; [lia|]). split; [done|]. constructor; [|constructor].
  exists s, x, y, 0%nat. rewrite (conn_ackno _ _ _ _ _ _ _ _ _ s C). pose proof C as [_ _ He' _ _ [_ Sx _ _ _ _ _ _ _ _] _]. rewrite Sx. split; [reflexivity|]. split; [done|]. split; [done|]. split; [lia|]. split; [unfold PUSH_MSS; lia|lia].
Qed.

(** As [goes], and bytes of the peer's stream come in, of the [z] it has sent. *)
Definition comes (z : nat) (S R : list Z) (u x g y : nat) (m : M unit) (s : TcpSock) : Prop :=
  forall t w k, exists u' x' y' s' t' fs k', m (st s t w k) = Done (tt, st s' t' (w ++ fs) k') /\ (u <= u')%nat /\ (x <= x')%nat /\ (y <= y' <= z)%nat /\
    conn e a0 b0 S R u' x' g y' s' /\ Forall (fragment S x' y') fs.

Lemma goes_comes z S R u x g y m s : (y <= z)%nat -> goes S R u x g y m s -> comes z S R u x g y m s.
Proof. intros Hz G t w k. destruct (G t w k) as (u' & x' & s' & t' & fs & k' & E & Hu & Hx & C & Hfs). exists u', x', y, s', t', fs, k'. do 3 (split; [done|]). split; [lia|done]. Qed.

Lemma comes_ret z S R u x g y s : (y <= z)%nat -> conn e a0 b0 S R u x g y s -> comes z S R u x g y (ret tt) s.
Proof. intros Hz C t w k. exists u, x, y, s, t, [], k. rewrite app_nil_r. repeat split; try lia; try constructor; apply C. Qed.

Lemma comes_bind z S R u x g y m k s :
  comes z S R u x g y m s -> (forall u' x' y' s', (u <= u')%nat -> (x <= x')%nat -> (y <= y' <= z)%nat -> conn e a0 b0 S R u' x' g y' s' -> comes z S R u' x' g y' k s') -> comes z S R u x g y (bind m (fun _ => k)) s.
Proof.
  intros H1 H2 t w c. destruct (H1 t w c) as (u1 & x1 & y1 & s1 & t1 & fs1 & k1 & E1 & Hu1 & Hx1 & Hy1 & C1 & F1). destruct (H2 u1 x1 y1 s1 Hu1 Hx1 Hy1 C1 t1 (w ++ fs1) k1) as (u2 & x2 & y2 & s2 & t2 & fs2 & k2 & E2 & Hu2 & Hx2 & Hy2 & C2 & F2).
  exists u2, x2, y2, s2, t2, (fs1 ++ fs2), k2. rewrite (bind_done _ _ _ _ _ E1). split; [by rewrite E2, app_assoc|]. do 2 (split; [lia|]). split; [lia|]. split; [done|]. apply Forall_app. split; [|done].
  destruct C1 as [_ _ _ _ _ [_ _ L _ _ _ _ _ _ _] _]. eapply fragments_mono; [| | |exact F1]; lia.
Qed.

(** A step that reads the socket first. *)
Lemma comes_sk z S R u x g y (f : TcpSock -> M unit) s : comes z S R u x g y (f s) s -> comes z S R u x g y (bind (sk i) f) s.
Proof. intros H t w c. rewrite (bind_done _ _ _ _ _ (sk_ok n i Hi s t w c)). apply H. Qed.

Lemma take_in_ok z S R u x g y s f hdr k p :
  conn e a0 b0 S R u x g y s -> Z.of_nat (length R) < 2 ^ 31 -> (y <= z)%nat -> (k + p <= z <= length R)%nat -> Z.of_nat p <= PUSH_MSS ->
  0 <= hdr -> 34 + hdr + Z.of_nat p <= Z.of_nat (length f) -> take p (drop (Z.to_nat (34 + hdr)) f) = take p (drop k R) ->
  comes z S R u x g y (take_in our_ip g_mac loop i (Some f) hdr (Z.of_nat p) (u32 (b0 + Z.of_nat k)) FLAG_ACK) s.
Proof.
  intros C HR Hy Hk Hp Hh Hl Hpay. unfold take_in. apply comes_sk. change (has FLAG_ACK FLAG_FIN) with false. cbn [andb when].
  assert (forall b y' s', (y' <= z)%nat -> conn e a0 b0 S R u x g y' s' -> comes z S R u x g y' (bind (sk i) (fun s => bind (ret tt) (fun _ => when (b || false) (tcp_send_ack our_ip g_mac loop i)))) s') as Hfin.
  { intros b y' s' Hy' C'. apply comes_sk. apply comes_bind; [by apply comes_ret|]. intros u2 x2 y2 s2 _ _ Hy2 C2. destruct b; cbn [orb when]; [|apply comes_ret; [lia|done]]. apply goes_comes; [lia|]. by apply send_ack_ok. }
  pose proof C as [_ _ _ _ _ _ [Rb Rr Ru Rc Rl Rd Rf]]. unfold RECV_CAP, PUSH_MSS in *.
  assert (u32 (rcv_used s + Z.of_nat p) = rcv_used s + Z.of_nat p) as -> by (apply u32_id; unfold is_u32; lia).
  destruct (negb _ && _) eqn:Eb; [|by apply Hfin]. apply andb_true_iff in Eb as [Ep Ec%Z.leb_le]. rewrite Rb, u32_add.
  replace (b0 + Z.of_nat g + rcv_used s) with (b0 + Z.of_nat y) by lia. destruct (Z.eqb_spec (u32 (b0 + Z.of_nat k)) (u32 (b0 + Z.of_nat y))) as [E|_].
  - apply u32_inj in E; [|lia]. assert (k = y) by lia. subst k. unfold frame. intros t w c. rewrite (bind_done _ _ _ _ _ (eq_refl : ret f (st s t w c) = Done (f, st s t w c))).
    destruct (Z.ltb_spec (Z.of_nat (length f)) (34 + hdr + Z.of_nat p)); [lia|]. cbn [orb]. destruct (Z.ltb_spec 16384 (rcv_used s + Z.of_nat p)); [lia|]. rewrite Nat2Z.id, Hpay.
    rewrite (bind_done _ _ _ _ _ (upd_done n i Hi _ s t w c)).
    destruct (Hfin true (y + p)%nat (store (take p (drop y R)) s) ltac:(lia) ltac:(apply store_conn; [done|lia|unfold RECV_CAP; lia]) t w c) as (u2 & x2 & y2 & s2 & t2 & fs2 & k2 & E2 & Hu2 & Hx2 & Hy2 & C2 & F2).
    exists u2, x2, y2, s2, t2, fs2, k2. do 3 (split; [done|]). split; [lia|done].
  - destruct (Z.ltb_spec (u32 (b0 + Z.of_nat k)) (u32 (b0 + Z.of_nat y))); [apply goes_comes; [lia|]; by apply send_ack_ok|by apply comes_ret].
Qed.

Lemma connection_input_ok z S R u x g y s f hdr k p r wnd :
  conn e a0 b0 S R u x g y s -> Z.of_nat (length S) < 2 ^ 31 -> Z.of_nat (length R) < 2 ^ 31 -> (y <= z)%nat -> (k + p <= z <= length R)%nat -> Z.of_nat p <= PUSH_MSS ->
  0 <= hdr -> 34 + hdr + Z.of_nat p <= Z.of_nat (length f) -> take p (drop (Z.to_nat (34 + hdr)) f) = take p (drop k R) -> (r <= x)%nat -> 0 <= wnd < 2 ^ 16 ->
  comes z S R u x g y (connection_input our_ip g_mac clock loop i (Some f) hdr (Z.of_nat p) (u32 (b0 + Z.of_nat k)) (u32 (a0 + Z.of_nat r)) FLAG_ACK wnd) s.
Proof.
  intros C HS HR Hy Hk Hp Hh Hl Hpay Hr Hw. unfold connection_input. apply comes_sk. pose proof C as [_ -> _ _ _ _ _]. change (has FLAG_ACK FLAG_ACK) with true. cbn [orb st_is bool_decide decide when].
  change (st_is ST_ESTABLISHED ST_ESTABLISHED) with true. cbn [orb]. apply comes_bind; [apply goes_comes; [done|]; by apply ack_ok|].
  intros u1 x1 y1 s1 Hu1 Hx1 Hy1 C1. apply comes_bind.
  - intros t w c. rewrite (upd_done n i Hi). pose proof C1 as [_ -> _ _ _ _ _]. change (st_is ST_ESTABLISHED ST_FIN_WAIT1) with false. cbn [andb]. apply (comes_ret z S R u1 x1 g y1 s1); [lia|done].
  - intros u2 x2 y2 s2 Hu2 Hx2 Hy2 C2. apply (take_in_ok z S R u2 x2 g y2 s2 f hdr k p); auto; lia.
Qed.
End Wire.

Section Hosts.
Context (our_ip : Z) (g_mac : list Z) (clock : nat -> Z) (fuel : nat) (n : Net) (i : nat) (Hi : (i < length (socks n))%nat) (e : ends) (He : proper e) (a0 b0 : Z).
Context (peer_mac : list Z) (Hpm : length peer_mac = 6%nat) (Hour : is_u32 our_ip /\ is_loopback our_ip = false).
(** The connection as the peer sees it. *)
Definition flipped (ip : Z) (e : ends) : ends := mkEnds ip (e_lport e) (e_rport e).
Context (Hfind : find_peer_sock n (e_rip e) (e_rport e) (e_lport e) = Some i).
Abbreviation st := (at_sock n i).
Abbreviation comes := (comes our_ip g_mac n i e a0 b0).
Abbreviation conn := (conn e a0 b0).
Abbreviation theirs := (fragment (e_rip e) peer_mac (flipped our_ip e) b0 a0).

Lemma handle_frame_ok z q S R u x g y s f fr :
  conn S R u x g y s -> Z.of_nat (length S) < 2 ^ 31 -> Z.of_nat (length R) < 2 ^ 31 -> (y <= z <= length R)%nat -> (q <= x)%nat -> theirs R z q f -> received f fr ->
  comes z S R u x g y (handle_frame our_ip g_mac clock fuel fr) s.
Proof.
  intros C HS HR Hy Hq (ps & k & r & p & Ef & Had & (E1 & E2 & E3) & Hk & Hp & Hr) (junk & Ejf & Hlen). destruct fr as [b len]. cbn [fst snd] in *.
  pose proof He as (P1 & _). assert (Z.of_nat (length (take p (drop k R))) = Z.of_nat p) as Lp by (rewrite length_take, length_drop; lia).
  destruct (segment_reads (e_rip e) peer_mac ps (u32 (b0 + Z.of_nat k)) (u32 (a0 + Z.of_nat r)) FLAG_ACK false (take p (drop k R)) junk P1 Hpm Had (u32_range _) (u32_range _) ltac:(lia)) as [Hrd Hpay].
  rewrite <- Ef, <- Ejf in *. cbn [flipped e_rip e_rport e_lport] in E1, E2, E3. rewrite E1, (proj2 Hour), E2, E3, Lp in Hrd. change (hdr_of false) with 20 in *.
  assert (Z.of_nat (length f) = 54 + Z.of_nat p) as Lf by (rewrite Ef, length_segment, Lp; [unfold hdr_of; lia|apply Had|done]).
  assert (54 + Z.of_nat p <= Z.of_nat (length b)) as Lb by (rewrite Ejf, length_app; lia).
  unfold PUSH_MSS in *. destruct (handle_frame_reads our_ip g_mac clock fuel b len _ _ _ _ _ _ _ _ _ _ Hrd ltac:(lia) ltac:(lia) ltac:(lia)) as (lp & Elp).
  intros t w c. rewrite Elp, (u32_id (_ - _)) by (unfold is_u32; lia). replace (20 + 20 + Z.of_nat p - 20 - 20) with (Z.of_nat p) by lia. pose proof C as [Cu Cs Ce _ _ _ _].
  rewrite (segment_input_established _ _ _ _ _ _ _ _ _ _ _ _ _ _ _ i); [|done|done|by apply find_peer_at|by rewrite sock_at_eq].
  apply (connection_input_ok our_ip g_mac clock lp n i Hi e He a0 b0 z S R u x g y s b 20 k p r); auto; try lia.
  - by replace (length (take p (drop k R))) with p in Hpay by lia.
  - destruct Had as [_ _ _ _ Au]. unfold RECV_CAP in *. lia.
Qed.

(** Frames of the peer, in any order, any number of times. *)
Lemma rx_drain_ok z q S R frs u x g y s :
  conn S R u x g y s -> Z.of_nat (length S) < 2 ^ 31 -> Z.of_nat (length R) < 2 ^ 31 -> (y <= z <= length R)%nat -> (q <= x)%nat ->
  Forall (fun fr => exists f, theirs R z q f /\ received f fr) frs -> comes z S R u x g y (rx_drain our_ip g_mac clock fuel frs) s.
Proof.
  intros C HS HR Hy Hq F. revert u x y s C Hy Hq; induction F as [|fr frs (f & Hf & Hr) F IH]; intros u x y s C Hy Hq; cbn [rx_drain]; [apply comes_ret; first [exact C|done|lia]|].
  apply comes_bind; [done|by apply (handle_frame_ok z q S R u x g y s f)|]. intros u1 x1 y1 s1 Hu1 Hx1 Hy1 C1. apply IH; [done|lia|lia].
Qed.

(** How a [send] of [todo] ends: all of it is in the buffer, the call waits with the rest, or its time is up. *)
Definition sent_as (len deadline : Z) (rest : list Z) (a : answer) : Prop :=
  (a = Ret len /\ rest = []) \/ (a = Wait (Sending i rest len deadline) /\ rest <> []) \/ a = Ret (- VNU_ETIMEDOUT).

Lemma send_loop_ok turns todo len deadline : forall S R u x g y s t w k,
  conn S R u x g y s -> Z.of_nat (length S + length todo) < 2 ^ 31 -> (length todo <= turns)%nat ->
  exists sent rest a x' s' t' fs k', todo = sent ++ rest /\ send_loop our_ip g_mac clock fuel turns i todo len deadline (st s t w k) = Done (a, st s' t' (w ++ fs) k') /\
    sent_as len deadline rest a /\ (x <= x')%nat /\ conn (S ++ sent) R u x' g y s' /\ Forall (fragment our_ip g_mac e a0 b0 (S ++ sent) x' y) fs.
Proof.
  revert todo; induction turns as [|turns IH]; intros todo S R u x g y s t w k C HS Ht.
  { destruct todo; [|cbn in Ht; lia]. exists [], [], (Ret len), x, s, t, [], k. rewrite !app_nil_r. split; [done|]. split; [done|]. split; [by left|]. split; [lia|]. split; [done|constructor]. }
  destruct todo as [|b todo]. { exists [], [], (Ret len), x, s, t, [], k. rewrite !app_nil_r. split; [done|]. split; [done|]. split; [by left|]. split; [lia|]. split; [done|constructor]. }
  cbn [send_loop]. rewrite (bind_done _ _ _ _ _ (sk_ok n i Hi s t w k)). destruct (Z.leb_spec SEND_CAP (snd_used s)) as [Hf|Hf].
  { exists [], (b :: todo), (Wait (Sending i (b :: todo) len deadline)), x, s, t, [], k. rewrite !app_nil_r. split; [done|]. split; [done|]. split; [by right; left|]. split; [lia|]. split; [done|constructor]. }
  cbv zeta. set (todo0 := b :: todo) in *. set (room := Z.to_nat (SEND_CAP - snd_used s)). assert (1 <= room)%nat as Hroom by lia. assert (1 <= length todo0)%nat as Hlt by (cbn; lia). clearbody todo0.
  set (c := take room todo0). set (rest := drop room todo0). assert (todo0 = c ++ rest) as Et by (symmetry; apply take_drop). assert (1 <= length c <= room)%nat as Lc by (subst c; rewrite length_take; lia).
  assert (length todo0 = length c + length rest)%nat as Lt by (rewrite Et at 1; apply length_app). rewrite (bind_done _ _ _ _ _ (upd_done n i Hi _ s t w k)).
  pose proof (buffer_conn e a0 b0 S R u x g y s c C ltac:(lia)) as C1. destruct (push_exact our_ip g_mac clock (loop_in our_ip g_mac clock fuel) n i Hi e He a0 b0 (S ++ c) R u x g y (buffer c s) t w k C1 ltac:(rewrite length_app; lia)) as (x1 & s1 & t1 & fs1 & k1 & E1 & Hx1 & C1' & F1).
  rewrite (bind_done _ _ _ _ _ E1), (bind_done _ _ _ _ _ (sk_ok n i Hi s1 t1 _ k1)). pose proof C1' as [_ _ _ _ -> [_ _ Lx _ _ _ _ _ _ _] _]. clearbody c rest. destruct rest as [|b1 rest].
  { exists c, [], (Ret len), x1, s1, t1, fs1, k1. split; [done|]. split; [done|]. split; [by left|]. split; [lia|]. split; [done|done]. }
  rewrite (bind_done _ _ _ _ _ (now_ok clock n i s1 t1 _ k1)). destruct (before _ _).
  - set (rest0 := b1 :: rest) in *. clearbody rest0. destruct (IH rest0 (S ++ c) R u x1 g y s1 t1 (w ++ fs1) (Datatypes.S k1) C1' ltac:(rewrite length_app; lia) ltac:(lia)) as (sent & rest' & a & x2 & s2 & t2 & fs2 & k2 & E2 & E2' & Ha & Hx2 & C2 & F2).
    exists (c ++ sent), rest', a, x2, s2, t2, (fs1 ++ fs2), k2. split; [by rewrite Et, E2, app_assoc|]. split; [by rewrite E2', app_assoc|]. split; [done|]. split; [lia|]. rewrite app_assoc. split; [done|]. apply Forall_app. split; [|done].
    eapply Forall_impl; [exact F1|]. intros f Hf'. eapply fragment_mono; [| | |exact Hf']; lia.
  - exists c, (b1 :: rest), (Ret (- VNU_ETIMEDOUT)), x1, s1, t1, fs1, (Datatypes.S k1). split; [done|]. split; [done|]. split; [by right; right|]. split; [lia|]. done.
Qed.
End Hosts.
