(* ===== verification/TcpSystem.v ===== *)
(** Two hosts with a connection between them, and a network that loses, repeats
    and reorders frames: what the calls on the two sockets do together. *)
From S2P Require Import Prelude Tcp TcpSegment TcpStream.
Local Open Scope vnu_scope.

(** ** The system *)

(** A host: its address, its card's, its clock, its socket of the connection. *)
Record station := mkStation { s_ip : Z; s_mac : list Z; s_clock : nat -> Z; s_fuel : nat; s_sock : nat }.

(** One side of the connection: the host's state, the bytes the calls have put in the send buffer, the bytes they have delivered, the frames sent. *)
Record side := mkSide { host : Net; gave : list Z; got : list Z; out : list (list Z) }.

(** A frame of the peer in a receive buffer: which one, what the card padded it with, what follows it in the buffer. *)
Definition arrival : Type := nat * list Z * list Z.
Definition arrive (pool : list (list Z)) (a : arrival) : list (list Z * Z) :=
  let '(k, pad, junk) := a in
  match pool !! k with
  | Some f => [(f ++ pad ++ junk, Z.of_nat (length f + length pad))]
  | None => []
  end.
Definition arrivals (pool : list (list Z)) (l : list arrival) : list (list Z * Z) := concat (map (arrive pool) l).

(** What a host does: a [send]; a turn of the loop of a [send] that waits for room; a turn of the loop of a [recv]; another call takes the frames. *)
Inductive act := Send (buf : list Z) (timeout : Z) | Room (todo : list Z) (len deadline : Z) (frs : list arrival) | Recv (len deadline : Z) (frs : list arrival) | Drain (frs : list arrival).

Definition placed (n n' : Net) (i : nat) (buf : list Z) : list Z := take (Z.to_nat (snd_used (sock_at n' i) - snd_used (sock_at n i))) buf.
Definition delivered (a : answer) : list Z := match a with Data d => d | _ => [] end.

Definition turn (h : station) (pool : list (list Z)) (a : act) (d : side) : outcome side :=
  let i := s_sock h in
  let after (buf data : list Z) (n' : Net) : side := mkSide n' (gave d ++ placed (host d) n' i buf) (got d ++ data) (out d ++ drop (length (wire (host d))) (wire n')) in
  match a with
  | Send buf timeout => let* (r, n') := socket_send (s_ip h) (s_mac h) (s_clock h) (s_fuel h) (Z.of_nat i) buf timeout (host d) in Done (after buf [] n')
  | Room todo len deadline frs => let* (r, n') := poll (s_ip h) (s_mac h) (s_clock h) (s_fuel h) (Sending i todo len deadline) (arrivals pool frs) (host d) in Done (after todo [] n')
  | Recv len deadline frs => let* (r, n') := poll (s_ip h) (s_mac h) (s_clock h) (s_fuel h) (Receiving i len deadline) (arrivals pool frs) (host d) in Done (after [] (delivered r) n')
  | Drain frs => let* (r, n') := rx_drain (s_ip h) (s_mac h) (s_clock h) (s_fuel h) (arrivals pool frs) (host d) in Done (after [] [] n')
  end.

(** [true]: the first host's turn. *)
Fixpoint run (h1 h2 : station) (acts : list (bool * act)) (d1 d2 : side) : outcome (side * side) :=
  match acts with
  | [] => Done (d1, d2)
  | (true, a) :: acts' => let* d1' := turn h1 (out d2) a d1 in run h1 h2 acts' d1' d2
  | (false, a) :: acts' => let* d2' := turn h2 (out d1) a d2 in run h1 h2 acts' d1 d2'
  end.

(** ** One side *)

Definition weight (a : act) : nat := match a with Send buf _ => length buf | Room todo _ _ _ => length todo | _ => 0 end.
Definition sane (a : act) : Prop := match a with Recv len _ _ => 0 <= len | _ => True end.

Record station_ok (h : station) : Prop := {
  so_ip : is_u32 (s_ip h) /\ is_loopback (s_ip h) = false;
  so_mac : length (s_mac h) = 6%nat;
  so_sock : (s_sock h < MAX_SOCKS)%nat
}.

(** The host has the connection [e] in its table. *)
Record has_conn (h : station) (e : ends) (a0 b0 : Z) (S R : list Z) (u x g y : nat) (n : Net) : Prop := {
  hc_len : length (socks n) = MAX_SOCKS;
  hc_find : find_peer_sock n (e_rip e) (e_rport e) (e_lport e) = Some (s_sock h);
  hc_conn : conn e a0 b0 S R u x g y (sock_at n (s_sock h))
}.

(** [arrivals] brings frames of the pool. *)
Lemma arrivals_received P pool l : Forall P pool -> Forall (fun fr => exists f, P f /\ received f fr) (arrivals pool l).
Proof.
  intros HP. unfold arrivals. apply Forall_concat. apply Forall_map. apply Forall_forall. intros [[k pad] junk] _. unfold arrive. destruct (pool !! k) as [f|] eqn:E; [|constructor].
  constructor; [|constructor]. exists f. split; [by eapply Forall_lookup_1|]. exists (pad ++ junk). split; [done|]. cbn [snd]. lia.
Qed.

Section Side.
Context (h : station) (Hh : station_ok h) (e : ends) (He : proper e) (a0 b0 : Z) (peer_mac : list Z) (Hpm : length peer_mac = 6%nat).
Abbreviation i := (s_sock h).
Abbreviation ours := (fragment (s_ip h) (s_mac h) e a0 b0).
Abbreviation theirs := (fragment (e_rip e) peer_mac (flipped (s_ip h) e) b0 a0).

(** The state after a step of the connection. *)
Lemma has_conn_at S R u x g y n : forall S' R' u' x' g' y' s t w k, has_conn h e a0 b0 S R u x g y n -> conn e a0 b0 S' R' u' x' g' y' s -> has_conn h e a0 b0 S' R' u' x' g' y' (at_sock n i s t w k).
Proof.
  intros S' R' u' x' g' y' s t w k [Hl Hf C] C'. assert (i < length (socks n))%nat by (rewrite Hl; apply Hh). constructor.
  - cbn [at_sock socks]. by rewrite length_insert.
  - apply find_peer_at; auto; apply C'.
  - by rewrite sock_at_eq.
Qed.

Lemma sock_bound S R u x g y n : has_conn h e a0 b0 S R u x g y n -> (i < length (socks n))%nat.
Proof. intros [Hl _ _]. rewrite Hl. apply Hh. Qed.

Lemma handle_ok S R u x g y n : has_conn h e a0 b0 S R u x g y n -> valid_handle n (Z.of_nat i) = Some i.
Proof.
  intros [_ _ C]. destruct Hh as [_ _ Hs]. unfold valid_handle. destruct (Z.ltb_spec (Z.of_nat i) 0); [lia|]. destruct (Z.leb_spec (Z.of_nat MAX_SOCKS) (Z.of_nat i)); [lia|]. rewrite Nat2Z.id. cbn [orb]. by destruct C as [-> _ _ _ _ _ _].
Qed.

(** A [send], up to where it waits. *)
Lemma socket_send_ok S R u x g y n buf timeout :
  has_conn h e a0 b0 S R u x g y n -> Z.of_nat (length S + length buf) < 2 ^ 31 ->
  exists sent rest a deadline x' n' fs, buf = sent ++ rest /\ socket_send (s_ip h) (s_mac h) (s_clock h) (s_fuel h) (Z.of_nat i) buf timeout n = Done (a, n') /\ sent_as i (Z.of_nat (length buf)) deadline rest a /\
    (x <= x')%nat /\ has_conn h e a0 b0 (S ++ sent) R u x' g y n' /\ wire n' = wire n ++ fs /\ Forall (ours (S ++ sent) x' y) fs.
Proof.
  intros H Hl. pose proof (sock_bound _ _ _ _ _ _ _ H) as Hi. pose proof H as [_ _ C]. unfold socket_send.
  rewrite (bind_done _ _ n _ n (eq_refl : gets (fun n => valid_handle n (Z.of_nat i)) n = Done (_, n))), (handle_ok _ _ _ _ _ _ _ H).
  rewrite (bind_done _ _ n _ n (eq_refl : sk i n = Done (_, n))). pose proof C as [_ -> _ _ _ _ _]. change (st_is ST_ESTABLISHED ST_ESTABLISHED) with true. cbn [negb orb]. destruct buf as [|b buf].
  { exists [], [], (Ret 0), 0, x, n, []. rewrite !app_nil_r. split; [done|]. split; [done|]. split; [by left|]. split; [lia|]. split; [done|]. split; [done|constructor]. }
  set (buf0 := b :: buf) in *. clearbody buf0. rewrite (bind_done _ _ n _ _ (eq_refl : now_ms (s_clock h) n = Done (_, _))). cbv beta. set (deadline := u32 _). clearbody deadline.
  assert (set_ticks (Datatypes.S (ticks n)) n = at_sock n i (sock_at n i) (txbuf n) (wire n) (Datatypes.S (ticks n))) as ->.
  { rewrite <- (at_sock_self n i Hi) at 1 2. done. }
  destruct (send_loop_ok (s_ip h) (s_mac h) (s_clock h) (s_fuel h) n i Hi e He a0 b0 peer_mac Hpm (length buf0) buf0 (Z.of_nat (length buf0)) deadline S R u x g y (sock_at n i) (txbuf n) (wire n) (Datatypes.S (ticks n)) C Hl ltac:(lia)) as (sent & rest & a & x' & s' & t' & fs & k' & E & E' & Ha & Hx & C' & F).
  eexists sent, rest, a, deadline, x', _, fs. split; [done|]. split; [exact E'|]. split; [done|]. split; [done|]. split; [by eapply has_conn_at|]. split; [done|done].
Qed.

(** The frames of the peer that a call takes. *)
Lemma drain_ok z q S R u x g y n frs :
  has_conn h e a0 b0 S R u x g y n -> Z.of_nat (length S) < 2 ^ 31 -> Z.of_nat (length R) < 2 ^ 31 -> (y <= z <= length R)%nat -> (q <= x)%nat ->
  Forall (fun fr => exists f, theirs R z q f /\ received f fr) frs ->
  exists u' x' y' n' fs, rx_drain (s_ip h) (s_mac h) (s_clock h) (s_fuel h) frs n = Done (tt, n') /\ (u <= u')%nat /\ (x <= x')%nat /\ (y <= y' <= z)%nat /\
    has_conn h e a0 b0 S R u' x' g y' n' /\ wire n' = wire n ++ fs /\ Forall (ours S x' y') fs.
Proof.
  intros H HS HR Hy Hq F. pose proof (sock_bound _ _ _ _ _ _ _ H) as Hi. pose proof H as [_ Hf C].
  pose proof (rx_drain_ok (s_ip h) (s_mac h) (s_clock h) (s_fuel h) n i Hi e He a0 b0 peer_mac Hpm (so_ip h Hh) Hf z q S R frs u x g y _ C HS HR Hy Hq F (txbuf n) (wire n) (ticks n)) as (u' & x' & y' & s' & t' & fs & k' & E & Hu & Hx & Hy' & C' & F').
  rewrite at_sock_self in E by done. eexists u', x', y', _, fs. split; [exact E|]. do 3 (split; [done|]). split; [by eapply has_conn_at|]. done.
Qed.

Lemma ticked S R u x g y n k : has_conn h e a0 b0 S R u x g y n -> has_conn h e a0 b0 S R u x g y (set_ticks k n).
Proof. intros []. by constructor. Qed.

Lemma poll_sending_ok z q S R u x g y n todo len deadline frs :
  has_conn h e a0 b0 S R u x g y n -> Z.of_nat (length S + length todo) < 2 ^ 31 -> Z.of_nat (length R) < 2 ^ 31 -> (y <= z <= length R)%nat -> (q <= x)%nat ->
  Forall (fun fr => exists f, theirs R z q f /\ received f fr) frs ->
  exists sent rest a u' x' y' n' fs, todo = sent ++ rest /\ poll_sending (s_ip h) (s_mac h) (s_clock h) (s_fuel h) i todo len deadline frs n = Done (a, n') /\
    (sent = [] \/ u' = u) /\ (u <= u')%nat /\ (x <= x')%nat /\ (y <= y' <= z)%nat /\ has_conn h e a0 b0 (S ++ sent) R u' x' g y' n' /\ wire n' = wire n ++ fs /\ Forall (ours (S ++ sent) x' y') fs.
Proof.
  intros H HS HR Hy Hq F. pose proof (sock_bound _ _ _ _ _ _ _ H) as Hi. pose proof H as [_ _ C]. unfold poll_sending. rewrite (bind_done _ _ n _ n (eq_refl : sk i n = Done (_, n))). destruct (_ <=? _).
  - destruct (drain_ok z q S R u x g y n frs H ltac:(lia) HR Hy Hq F) as (u' & x' & y' & n' & fs & E & Hu & Hx & Hy' & H' & Ew & F'). rewrite (bind_done _ _ n _ n' E).
    rewrite (bind_done _ _ n' _ n' (eq_refl : sk i n' = Done (_, n'))). pose proof H' as [_ _ [_ _ _ _ -> _ _]]. rewrite (bind_done _ _ n' _ _ (eq_refl : now_ms (s_clock h) n' = Done (_, _))).
    destruct (before _ _); eexists [], todo, _, u', x', y', _, fs; rewrite app_nil_r; (split; [done|]); (split; [reflexivity|]); (split; [by left|]); do 3 (split; [done|]); split; try done; by apply ticked.
  - destruct (send_loop_ok (s_ip h) (s_mac h) (s_clock h) (s_fuel h) n i Hi e He a0 b0 peer_mac Hpm (length todo) todo len deadline S R u x g y (sock_at n i) (txbuf n) (wire n) (ticks n) C HS ltac:(lia)) as (sent & rest & a & x' & s' & t' & fs & k' & E & E' & Ha & Hx & C' & F').
    rewrite at_sock_self in E' by done. eexists sent, rest, a, u, x', y, _, fs. split; [done|]. split; [exact E'|]. split; [by right|]. do 2 (split; [lia|]). split; [lia|]. split; [by eapply has_conn_at|]. done.
Qed.

Lemma recv_ok z q S R u x g y n len deadline frs :
  has_conn h e a0 b0 S R u x g y n -> Z.of_nat (length S) < 2 ^ 31 -> Z.of_nat (length R) < 2 ^ 31 -> (y <= z <= length R)%nat -> (q <= x)%nat -> 0 <= len ->
  Forall (fun fr => exists f, theirs R z q f /\ received f fr) frs ->
  exists a u' x' g' y' n' fs, poll_receiving (s_ip h) (s_mac h) (s_clock h) (s_fuel h) i len deadline frs n = Done (a, n') /\ (u <= u')%nat /\ (x <= x')%nat /\ (y <= y' <= z)%nat /\ (g <= g')%nat /\
    delivered a = take (g' - g) (drop g R) /\ has_conn h e a0 b0 S R u' x' g' y' n' /\ wire n' = wire n ++ fs /\ Forall (ours S x' y') fs.
Proof.
  intros H HS HR Hy Hq Hlen F. destruct (drain_ok z q S R u x g y n frs H ltac:(lia) HR Hy Hq F) as (u1 & x1 & y1 & n1 & fs1 & E & Hu & Hx & Hy' & H' & Ew & F'). unfold poll_receiving. rewrite (bind_done _ _ n _ n1 E).
  rewrite (bind_done _ _ n1 _ n1 (eq_refl : sk i n1 = Done (_, n1))). pose proof (sock_bound _ _ _ _ _ _ _ H') as Hi. pose proof H' as [_ _ C]. pose proof C as [_ _ _ _ -> _ [_ Rr Ru Rc _ _ ->]]. destruct (Z.eqb_spec (rcv_used (sock_at n1 i)) 0) as [E0|E0]; cbn [negb].
  - rewrite (bind_done _ _ n1 _ _ (eq_refl : now_ms (s_clock h) n1 = Done (_, _))).
    destruct (before _ _); eexists _, u1, x1, g, y1, _, fs1; (split; [reflexivity|]); do 3 (split; [done|]); (split; [lia|]); (split; [by rewrite Nat.sub_diag|]); split; try done; by apply ticked.
  - cbv zeta. set (c := Z.to_nat (if rcv_used (sock_at n1 i) <? len then rcv_used (sock_at n1 i) else len)). assert (g + c <= y1)%nat as Hc by (subst c; bcase; lia).
    replace (if rcv_used (sock_at n1 i) <? len then rcv_used (sock_at n1 i) else len) with (Z.of_nat c) by (subst c; bcase; lia). clearbody c. destruct (consume_conn _ _ _ _ _ _ _ _ _ _ c C Hc) as [C1 Ed].
    set (d := take c (rcvbuf (sock_at n1 i))) in *. clearbody d. pose proof (upd_done n1 i Hi (consume (Z.of_nat c)) (sock_at n1 i) (txbuf n1) (wire n1) (ticks n1)) as Eu. rewrite at_sock_self in Eu by done. rewrite (bind_done _ _ _ _ _ Eu).
    destruct (send_ack_ok (s_ip h) (s_mac h) (loop_in (s_ip h) (s_mac h) (s_clock h) (s_fuel h)) n1 i Hi e He a0 b0 S R u1 x1 (g + c) y1 _ C1 (txbuf n1) (wire n1) (ticks n1)) as (u2 & x2 & s2 & t2 & fs2 & k2 & E2 & Hu2 & Hx2 & C2 & F2).
    rewrite (bind_done _ _ _ _ _ E2). eexists (Data d), u2, x2, (g + c)%nat, y1, _, (fs1 ++ fs2). split; [reflexivity|]. do 2 (split; [lia|]). split; [done|]. split; [lia|]. split; [cbn [delivered]; by replace (g + c - g)%nat with c by lia|].
    split; [by eapply has_conn_at|]. split; [cbn [at_sock wire]; by rewrite Ew, app_assoc|]. apply Forall_app. split; [|done]. destruct C as [_ _ _ _ _ [_ _ L _ _ _ _ _ _ _] _]. eapply fragments_mono; [| | |exact F']; lia.
Qed.

Lemma used_is S R u x g y n : has_conn h e a0 b0 S R u x g y n -> snd_used (sock_at n i) = Z.of_nat (length S) - Z.of_nat u.
Proof. by intros [_ _ [_ _ _ _ _ [] _]]. Qed.

Lemma placed_ok S R u x g y n sent rest u' x' g' y' n' :
  has_conn h e a0 b0 S R u x g y n -> has_conn h e a0 b0 (S ++ sent) R u' x' g' y' n' -> (sent = [] \/ u' = u) -> (u <= u')%nat -> placed n n' i (sent ++ rest) = sent.
Proof.
  intros H H' Hs Hu. unfold placed. rewrite (used_is _ _ _ _ _ _ _ H), (used_is _ _ _ _ _ _ _ H'), length_app.
  destruct Hs as [->| ->]; [cbn [length]; replace (Z.to_nat _) with 0%nat by lia; done|]. replace (Z.to_nat _) with (length sent) by lia. apply take_app_length.
Qed.

(** A turn of the host: the invariant of its side of the connection holds on. *)
Lemma turn_ok z q R d u x g y pool a :
  has_conn h e a0 b0 (gave d) R u x g y (host d) -> got d = take g R -> Forall (ours (gave d) x y) (out d) -> Forall (theirs R z q) pool ->
  (y <= z <= length R)%nat -> (q <= x)%nat -> Z.of_nat (length (gave d) + weight a) < 2 ^ 31 -> Z.of_nat (length R) < 2 ^ 31 -> sane a ->
  exists d' c u' x' g' y', turn h pool a d = Done d' /\ gave d' = gave d ++ c /\ (length c <= weight a)%nat /\ has_conn h e a0 b0 (gave d') R u' x' g' y' (host d') /\
    got d' = take g' R /\ Forall (ours (gave d') x' y') (out d') /\ (x <= x')%nat /\ (y <= y' <= z)%nat.
Proof.
  intros H Hgot Hout Hpool Hy Hq HS HR Hsane. pose proof H as [_ _ [_ _ _ _ _ [_ _ Lx _ _ _ _ _ _ _] [_ Rr _ _ _ _ _]]].
  assert (forall l, Forall (fun fr => exists f, theirs R z q f /\ received f fr) (arrivals pool l)) as Harr by (intros l; by apply arrivals_received).
  assert (forall c x' y' fs, (x <= x')%nat -> (y <= y')%nat -> Forall (ours (gave d ++ c) x' y') fs -> Forall (ours (gave d ++ c) x' y') (out d ++ drop (length (wire (host d))) (wire (host d) ++ fs))) as Hw.
  { intros c x' y' fs Hx Hy' F. rewrite drop_app_length. apply Forall_app. split; [|done]. eapply Forall_impl; [exact Hout|]. intros f Hf. eapply fragment_mono; [| | |exact Hf]; lia. }
  destruct a as [buf timeout|todo len deadline frs|len deadline frs|frs]; cbn [weight sane turn poll] in *.
  - destruct (socket_send_ok _ _ _ _ _ _ _ buf timeout H ltac:(lia)) as (sent & rest & a & deadline & x' & n' & fs & Eb & E & Ha & Hx & H' & Ew & F). rewrite E. cbn [obind]. eexists _, sent, u, x', g, y. split; [reflexivity|].
    cbn [gave got host out]. assert (placed (host d) n' i buf = sent) as -> by (rewrite Eb; eapply placed_ok; [exact H|exact H'|by right|lia]). split; [done|]. split; [rewrite Eb, length_app; lia|]. split; [done|]. split; [by rewrite app_nil_r|].
    split; [rewrite Ew; apply Hw; auto|]. lia.
  - destruct (poll_sending_ok z q _ _ _ _ _ _ _ todo len deadline (arrivals pool frs) H ltac:(lia) HR Hy Hq (Harr frs)) as (sent & rest & a & u' & x' & y' & n' & fs & Eb & E & Hs & Hu & Hx & Hy' & H' & Ew & F). rewrite E. cbn [obind]. eexists _, sent, u', x', g, y'. split; [reflexivity|].
    cbn [gave got host out]. assert (placed (host d) n' i todo = sent) as -> by (rewrite Eb; eapply placed_ok; [exact H|exact H'|done|lia]). split; [done|]. split; [rewrite Eb, length_app; lia|]. split; [done|]. split; [by rewrite app_nil_r|].
    split; [rewrite Ew; apply Hw; auto; lia|]. lia.
  - destruct (recv_ok z q _ _ _ _ _ _ _ len deadline (arrivals pool frs) H ltac:(lia) HR Hy Hq Hsane (Harr frs)) as (a & u' & x' & g' & y' & n' & fs & E & Hu & Hx & Hy' & Hg & Ed & H' & Ew & F). rewrite E. cbn [obind]. eexists _, [], u', x', g', y'. split; [reflexivity|].
    cbn [gave got host out]. rewrite <- (app_nil_r (gave d)) in H', F. assert (placed (host d) n' i [] = []) as -> by (unfold placed; apply take_nil). split; [done|]. split; [done|]. split; [done|]. split; [rewrite Ed, Hgot; rewrite take_take_drop; f_equal; lia|].
    split; [rewrite Ew; apply Hw; auto; lia|]. lia.
  - destruct (drain_ok z q _ _ _ _ _ _ _ (arrivals pool frs) H ltac:(lia) HR Hy Hq (Harr frs)) as (u' & x' & y' & n' & fs & E & Hu & Hx & Hy' & H' & Ew & F). rewrite E. cbn [obind]. eexists _, [], u', x', g, y'. split; [reflexivity|].
    cbn [gave got host out]. rewrite <- (app_nil_r (gave d)) in H', F. assert (placed (host d) n' i [] = []) as -> by (unfold placed; apply take_nil). split; [done|]. split; [done|]. split; [done|]. split; [by rewrite app_nil_r|].
    split; [rewrite Ew; apply Hw; auto; lia|]. lia.
Qed.

Lemma has_conn_grow S R c u x g y n : has_conn h e a0 b0 S R u x g y n -> has_conn h e a0 b0 S (R ++ c) u x g y n.
Proof.
  intros [? ? [? ? ? ? ? Sd [Rb Rr Ru Rc Rl Rd Rf]]]. constructor; auto. constructor; auto. constructor; auto; [rewrite length_app; lia|]. rewrite Rd. rewrite drop_app_le by lia. by rewrite take_app_le by (rewrite length_drop; lia).
Qed.
End Side.

(** ** Both sides *)

Section World.
(** The ports of the two hosts, and where their sequence numbers start. *)
Record link := mkLink { port1 : Z; port2 : Z; seq1 : Z; seq2 : Z }.
Definition reversed (k : link) : link := mkLink (port2 k) (port1 k) (seq2 k) (seq1 k).
Definition ends_of (h2 : station) (k : link) : ends := mkEnds (s_ip h2) (port2 k) (port1 k).
Definition link_ok (k : link) : Prop := 0 <= port1 k < 2 ^ 16 /\ 0 <= port2 k < 2 ^ 16.

(** Each host has its end of the connection, nothing sent yet. *)
Definition established (h1 h2 : station) (k : link) (n1 n2 : Net) : Prop :=
  has_conn h1 (ends_of h2 k) (seq1 k) (seq2 k) [] [] 0 0 0 0 n1 /\ has_conn h2 (ends_of h1 (reversed k)) (seq2 k) (seq1 k) [] [] 0 0 0 0 n2.

Definition joined (h1 h2 : station) (k : link) (d1 d2 : side) : Prop :=
  exists u1 x1 g1 y1 u2 x2 g2 y2,
    has_conn h1 (ends_of h2 k) (seq1 k) (seq2 k) (gave d1) (gave d2) u1 x1 g1 y1 (host d1) /\
    has_conn h2 (ends_of h1 (reversed k)) (seq2 k) (seq1 k) (gave d2) (gave d1) u2 x2 g2 y2 (host d2) /\
    got d1 = take g1 (gave d2) /\ got d2 = take g2 (gave d1) /\ (y1 <= x2)%nat /\ (y2 <= x1)%nat /\
    Forall (fragment (s_ip h1) (s_mac h1) (ends_of h2 k) (seq1 k) (seq2 k) (gave d1) x1 y1) (out d1) /\
    Forall (fragment (s_ip h2) (s_mac h2) (ends_of h1 (reversed k)) (seq2 k) (seq1 k) (gave d2) x2 y2) (out d2).

Lemma joined_swap h1 h2 k d1 d2 : joined h1 h2 k d1 d2 -> joined h2 h1 (reversed k) d2 d1.
Proof. destruct k. intros (u1 & x1 & g1 & y1 & u2 & x2 & g2 & y2 & H). exists u2, x2, g2, y2, u1, x1, g1, y1. cbn in *. tauto. Qed.

Lemma joined_start h1 h2 k n1 n2 : established h1 h2 k n1 n2 -> joined h1 h2 k (mkSide n1 [] [] []) (mkSide n2 [] [] []).
Proof. intros [H1 H2]. exists 0%nat, 0%nat, 0%nat, 0%nat, 0%nat, 0%nat, 0%nat, 0%nat. cbn. repeat split; try done; try constructor; try apply H1; apply H2. Qed.

Lemma joined_turn h1 h2 k d1 d2 a :
  station_ok h1 -> station_ok h2 -> link_ok k -> joined h1 h2 k d1 d2 -> sane a -> Z.of_nat (length (gave d1) + weight a) < 2 ^ 31 -> Z.of_nat (length (gave d2)) < 2 ^ 31 ->
  exists d1', turn h1 (out d2) a d1 = Done d1' /\ joined h1 h2 k d1' d2 /\ (length (gave d1') <= length (gave d1) + weight a)%nat.
Proof.
  intros O1 O2 (K1 & K2) (u1 & x1 & g1 & y1 & u2 & x2 & g2 & y2 & H1 & H2 & G1 & G2 & L1 & L2 & F1 & F2) Hs B1 B2.
  assert (proper (ends_of h2 k)) as He by (destruct O2 as [[? ?] _ _]; unfold proper; cbn; tauto). pose proof H2 as [_ _ [_ _ _ _ _ [_ _ Lx _ _ _ _ _ _ _] _]].
  destruct (turn_ok h1 O1 (ends_of h2 k) He (seq1 k) (seq2 k) (s_mac h2) (so_mac h2 O2) x2 y2 (gave d2) d1 u1 x1 g1 y1 (out d2) a H1 G1 F1 F2 ltac:(lia) L2 B1 B2 Hs)
    as (d1' & c & u1' & x1' & g1' & y1' & E & Eg & Lc & H1' & G1' & F1' & Hx & Hy).
  exists d1'. split; [done|]. split; [|rewrite Eg, length_app; lia]. exists u1', x1', g1', y1', u2, x2, g2, y2. split; [done|]. split; [rewrite Eg; apply (has_conn_grow h2 _ _ _ (s_mac h1)); auto using so_mac|].
  split; [done|]. pose proof H2 as [_ _ [_ _ _ _ _ _ [_ Rr _ _ _ _ _]]]. split; [rewrite Eg, take_app_le by lia; done|]. split; [lia|]. split; [lia|]. done.
Qed.

Fixpoint weights (b : bool) (acts : list (bool * act)) : nat :=
  match acts with
  | [] => 0
  | (c, a) :: acts' => (if Bool.eqb b c then weight a else 0) + weights b acts'
  end.

Lemma run_ok h1 h2 k acts : station_ok h1 -> station_ok h2 -> link_ok k -> Forall (fun '(_, a) => sane a) acts -> forall d1 d2, joined h1 h2 k d1 d2 ->
  Z.of_nat (length (gave d1) + weights true acts) < 2 ^ 31 -> Z.of_nat (length (gave d2) + weights false acts) < 2 ^ 31 -> exists d1' d2', run h1 h2 acts d1 d2 = Done (d1', d2') /\ joined h1 h2 k d1' d2'.
Proof.
  intros O1 O2 K F. induction F as [|[b a] acts Ha F IH]; intros d1 d2 J B1 B2; [by exists d1, d2|]. cbn [run]. cbn [weights] in B1, B2. destruct b; cbn [Bool.eqb] in B1, B2.
  - destruct (joined_turn h1 h2 k d1 d2 a O1 O2 K J Ha ltac:(lia) ltac:(lia)) as (d1' & E & J' & L). rewrite E. cbn [obind]. apply IH; [done|lia|lia].
  - destruct (joined_turn h2 h1 (reversed k) d2 d1 a O2 O1 ltac:(destruct K; by split) (joined_swap _ _ _ _ _ J) Ha ltac:(lia) ltac:(lia)) as (d2' & E & J' & L). rewrite E. cbn [obind]. apply joined_swap in J'. destruct k. apply IH; [done|lia|lia].
Qed.

Lemma joined_prefix h1 h2 k d1 d2 : joined h1 h2 k d1 d2 -> got d2 `prefix_of` gave d1 /\ got d1 `prefix_of` gave d2.
Proof. intros (u1 & x1 & g1 & y1 & u2 & x2 & g2 & y2 & _ & _ & -> & -> & _). split; eexists; symmetry; apply take_drop. Qed.
End World.
