(* ===== verification/TcpHandshake.v ===== *)
(** The handshake of two hosts: [connect] on one, a listening socket on the other. *)
From S2P Require Import Prelude Tcp TcpSegment TcpStream TcpSystem.
Local Open Scope vnu_scope.

(** The MSS option of a segment with one. *)
Lemma segment_mss ip mac s seq ackno flags junk : length (dst_mac s) = 6%nat -> length mac = 6%nat -> parse_mss_opt (segment ip mac s seq ackno flags true [] ++ junk) 24 = PUSH_MSS.
Proof.
  intros Hd Hm. unfold segment. set (tck := checksum_done (checksum_add (checksum_add _ _) _)). set (ick := checksum_done _). set (src := if is_loopback (rip s) then _ else _). set (tot := u16 _). clearbody tck ick src tot.
  destruct (dst_mac s) as [|d0 [|d1 [|d2 [|d3 [|d4 [|d5 [|]]]]]]]; try done. destruct mac as [|m0 [|m1 [|m2 [|m3 [|m4 [|m5 [|]]]]]]]; try done.
Qed.

(** A write to another socket of the table. *)
Lemma upd_other n i j f s t w k : i <> j -> upd j f (at_sock n i s t w k) = Done (tt, at_sock (set_socks (<[j := f (sock_at n j)]> (socks n)) n) i s t w k).
Proof. intros Hn. unfold upd, modify. rewrite sock_at_ne by done. unfold at_sock, set_socks. cbn. by rewrite list_insert_insert_ne by done. Qed.

Lemma derive_iss_u32 now rip rport lport : is_u32 rip -> is_u32 (derive_iss now rip rport lport).
Proof.
  intros Hr. unfold derive_iss. set (v := Z.lxor _ _). assert (is_u32 v) as Hv; [|destruct (v =? 0); [unfold is_u32; lia|done]].
  assert (forall a b, is_u32 a -> is_u32 b -> is_u32 (Z.lxor a b)) as Hx.
  { intros a b Ha Hb. unfold is_u32 in *. assert (0 <= Z.lxor a b) by (apply Z.lxor_nonneg; lia). destruct (decide (Z.lxor a b = 0)) as [->|]; [lia|]. split; [done|]. apply Z.log2_lt_cancel. change (Z.log2 (2 ^ 32)) with 32.
    pose proof (Z.log2_lxor a b ltac:(lia) ltac:(lia)). destruct (decide (a = 0)) as [->|], (decide (b = 0)) as [->|]; cbn [Z.log2] in *; try lia; repeat match goal with H : 0 <= ?x < 2 ^ 32 |- _ => assert (Z.log2 x < 32) by (first [apply Z.log2_lt_pow2; lia|apply Z.log2_lt_pow2; lia]); clear H end; lia. }
  assert (is_u32 (Z.shiftr rip 16)). { unfold is_u32 in *. rewrite Z.shiftr_div_pow2 by lia. split; [apply Z.div_pos; lia|apply Z.div_lt_upper_bound; lia]. }
  subst v. repeat apply Hx; auto; apply u32_range.
Qed.

(** ** Which socket a segment is for *)

Definition matches (ip sport dport : Z) (s : TcpSock) : bool := used s && (rip s =? ip) && (rport s =? sport) && (lport s =? dport).

Lemma first_from_only f c m : forall j, (j <= c < j + m)%nat -> f c = true -> (forall k, k <> c -> f k = false) -> first_from f j m = Some c.
Proof.
  induction m as [|m IH]; intros j Hj Hc Ho; [lia|]. cbn [first_from]. destruct (decide (j = c)) as [->|Hn]; [by rewrite Hc|]. rewrite Ho by done. apply IH; [lia|done|done].
Qed.

Lemma find_peer_only n ip sport dport c :
  (c < MAX_SOCKS)%nat -> matches ip sport dport (sock_at n c) = true -> (forall j, j <> c -> matches ip sport dport (sock_at n j) = false) -> find_peer_sock n ip sport dport = Some c.
Proof. intros Hc H1 H2. apply first_from_only; [lia|done|done]. Qed.

Lemma first_from_none f m : forall j, first_from f j m = None -> forall k, (j <= k < j + m)%nat -> f k = false.
Proof. induction m as [|m IH]; intros j H k Hk; [lia|]. cbn [first_from] in H. destruct (f j) eqn:E; [done|]. destruct (decide (k = j)) as [->|]; [done|]. apply (IH (S j)); [done|lia]. Qed.

Lemma find_peer_none n ip sport dport : length (socks n) = MAX_SOCKS -> find_peer_sock n ip sport dport = None -> forall j, matches ip sport dport (sock_at n j) = false.
Proof.
  intros Hl H j. destruct (decide (j < MAX_SOCKS)%nat) as [Hj|Hj]; [by apply (first_from_none _ MAX_SOCKS 0 H); lia|]. unfold sock_at. by rewrite nth_overflow by lia.
Qed.

(** ** The client *)

(** The socket as [socket_open] leaves it. *)
Definition opened (port : Z) : TcpSock := set_lport port (set_used true sock0).
Definition dialing (ip port lport iss now : Z) (mac : list Z) : TcpSock :=
  set_dst_mac mac (set_state ST_SYN_SENT (set_rto_at now (set_rto_active true (set_rto INITIAL_RTO (set_snd_wnd 0 (set_peer_mss DEFAULT_MSS
    (set_snd_used 0 (set_snd_nxt iss (set_snd_una iss (set_iss iss (set_rport port (set_rip ip (opened lport))))))))))))).

Section Client.
Context (h : station) (Hh : station_ok h) (n : Net) (ip2 p1 p2 : Z) (Hl : length (socks n) = MAX_SOCKS) (Hs : sock_at n (s_sock h) = opened p1).
Context (Hip : is_u32 ip2) (Hlp : is_loopback ip2 = false) (Hp1 : 0 <= p1 < 2 ^ 16) (Hp2 : 0 <= p2 < 2 ^ 16).
Abbreviation i := (s_sock h).
Definition iss1 : Z := derive_iss (s_clock h (ticks n)) ip2 p2 p1.
Definition dialed : TcpSock := dialing ip2 p2 p1 iss1 (s_clock h (ticks n)) (g_arp_mac n).
Definition syn : list Z := segment (s_ip h) (s_mac h) dialed iss1 0 FLAG_SYN true [].

Lemma client_bound : (i < length (socks n))%nat.
Proof. rewrite Hl. apply Hh. Qed.

Lemma connect_ok timeout : g_up n = true -> g_arp_ip n = (if on_subnet (s_ip h) ip2 then ip2 else GW_IP) ->
  socket_connect (s_ip h) (s_mac h) (s_clock h) (s_fuel h) (Z.of_nat i) ip2 p2 timeout n =
  Done (Wait (Connecting i (u32 (s_clock h (S (ticks n)) + clamp timeout))), at_sock n i dialed (loaded (txbuf n) syn) (wire n ++ [syn]) (S (S (ticks n)))).
Proof.
  intros Hup Harp. pose proof client_bound as Hi. unfold socket_connect. rewrite (bind_done _ _ n _ n (eq_refl : gets (fun n => valid_handle n (Z.of_nat i)) n = Done (_, n))).
  assert (valid_handle n (Z.of_nat i) = Some i) as ->.
  { unfold valid_handle. destruct Hh as [_ _ Hk]. destruct (Z.ltb_spec (Z.of_nat i) 0); [lia|]. destruct (Z.leb_spec (Z.of_nat MAX_SOCKS) (Z.of_nat i)); [lia|]. rewrite Nat2Z.id. cbn [orb]. by rewrite Hs. }
  rewrite <- (at_sock_self n i Hi) at 1. cbv zeta. rewrite (bind_done _ _ _ _ _ (now_ok (s_clock h) n i _ _ _ _)), (bind_done _ _ _ _ _ (upd_done n i Hi _ _ _ _ _)), Hs, Hlp. change (lport (opened p1)) with p1. fold iss1.
  unfold arp_ensure. rewrite (bind_done _ _ _ _ _ (eq_refl : gets (fun n => n) _ = Done (_, _))). cbn [at_sock g_up g_arp_ip g_arp_mac]. rewrite Hup, Harp, Z.eqb_refl. cbn [negb]. fold (at_sock n i).
  rewrite (bind_done _ _ _ _ _ (upd_done n i Hi _ _ _ _ _)). change (set_dst_mac (g_arp_mac n) _) with dialed. unfold send_syn. rewrite (bind_done _ _ _ _ _ (sk_ok n i Hi _ _ _ _)).
  rewrite (bind_done _ _ _ _ _ (send_seg_ok _ _ n i _ dialed _ _ _ _ _ dialed _ _ _ Hlp)). rewrite (bind_done _ _ _ _ _ (now_ok (s_clock h) n i _ _ _ _)). reflexivity.
Qed.

(** The SYN-ACK of the server, and the client's answer. *)
Context (Hothers : forall j, j <> i -> used (sock_at n j) = true -> lport (sock_at n j) <> p1).
Definition called (iss2 : Z) (window : Z) : TcpSock :=
  set_state ST_ESTABLISHED (set_rto_active false (set_rcv_used 0 (set_rcv_base (u32 (iss2 + 1)) (set_snd_nxt (u32 (iss1 + 1)) (set_snd_una (u32 (iss1 + 1)) (set_snd_wnd window (set_peer_mss PUSH_MSS dialed))))))).

(** The client's ACK. *)
Definition third (iss2 window : Z) : list Z := let s := called iss2 window in segment (s_ip h) (s_mac h) s (snd_nxt s) (rcv_ackno s) FLAG_ACK false [].

Lemma find_client t w k s : used s = true -> rip s = ip2 -> rport s = p2 -> lport s = p1 -> find_peer_sock (at_sock n i s t w k) ip2 p2 p1 = Some i.
Proof.
  intros H1 H2 H3 H4. pose proof client_bound as Hi. apply find_peer_only; [apply Hh| |].
  - rewrite sock_at_eq by done. unfold matches. by rewrite H1, H2, H3, H4, !Z.eqb_refl.
  - intros j Hj. rewrite sock_at_ne by done. unfold matches. destruct (used (sock_at n j)) eqn:E; [|done]. specialize (Hothers j Hj E). destruct (Z.eqb_spec (lport (sock_at n j)) p1); [done|]. by rewrite !andb_false_r.
Qed.

Lemma syn_ack_ok f len mac iss2 window t w k deadline :
  reads f mac 44 ip2 24 p2 p1 iss2 (u32 (iss1 + 1)) (Z.lor FLAG_SYN FLAG_ACK) window -> parse_mss_opt f 24 = PUSH_MSS -> 58 <= len -> before (s_clock h k) deadline = true ->
  poll_connecting (s_ip h) (s_mac h) (s_clock h) (s_fuel h) i deadline [(f, len)] (at_sock n i dialed t w k) =
  Done (Ret 0, at_sock n i (called iss2 window) (loaded t (third iss2 window)) (w ++ [third iss2 window]) (S k)).
Proof.
  intros Hrd Hmss Hlen Hb. set (s := called iss2 window). set (ack := third iss2 window). pose proof client_bound as Hi. unfold poll_connecting. rewrite (bind_done _ _ _ _ _ (now_ok (s_clock h) n i dialed t w k)), Hb. cbn [rx_drain].
  destruct (handle_frame_reads (s_ip h) (s_mac h) (s_clock h) (s_fuel h) f len _ _ _ _ _ _ _ _ _ _ Hrd ltac:(lia) ltac:(lia) ltac:(lia)) as (lp & Elp).
  assert (handle_frame (s_ip h) (s_mac h) (s_clock h) (s_fuel h) (f, len) (at_sock n i dialed t w (S k)) = Done (tt, at_sock n i s (loaded t ack) (w ++ [ack]) (S k))) as E.
  { rewrite Elp. unfold segment_input. rewrite (bind_done _ _ _ _ _ (eq_refl : gets (fun n => n) _ = Done (_, _))). cbv zeta. rewrite find_client by done. rewrite sock_at_eq by done.
    change (has (Z.lor FLAG_SYN FLAG_ACK) FLAG_SYN) with true. change (has (Z.lor FLAG_SYN FLAG_ACK) FLAG_ACK) with true. change (st_is (state dialed) ST_SYN_SENT) with true. cbn [when].
    unfold handle_syn_ack. rewrite (bind_done _ _ _ _ _ (sk_ok n i Hi _ _ _ _)). change (iss dialed) with iss1. rewrite Z.eqb_refl. cbn [negb]. cbv zeta. rewrite Hmss. change (PUSH_MSS =? 0) with false. cbn iota.
    rewrite (bind_done _ _ _ _ _ (upd_done n i Hi _ _ _ _ _)). change (iss dialed) with iss1. change (set_state ST_ESTABLISHED _) with s. unfold tcp_send_ack. rewrite (bind_done _ _ _ _ _ (sk_ok n i Hi _ _ _ _)).
    unfold ack, third. cbv zeta. fold s. apply (send_seg_ok _ _ n i _ s _ _ _ _ _ s). exact Hlp. }
  clearbody ack. unfold bind at 1. unfold bind at 1. rewrite E. cbn [obind]. change (ret tt _) with (Done (tt, at_sock n i s (loaded t ack) (w ++ [ack]) (S k))). cbn [obind].
  rewrite (bind_done _ _ _ _ _ (sk_ok n i Hi _ _ _ _)). reflexivity.
Qed.
End Client.

(** ** The server *)

Section Server.
(** [s_sock h] is the first free slot, [l] the listening socket. *)
Context (h : station) (Hh : station_ok h) (n : Net) (ip1 p1 p2 iss1 wnd : Z) (mac1 : list Z) (l : nat) (Hl : length (socks n) = MAX_SOCKS).
Context (Hip : is_u32 ip1) (Hlp : is_loopback ip1 = false) (Hp1 : 0 <= p1 < 2 ^ 16) (Hp2 : 0 <= p2 < 2 ^ 16) (Hm : length mac1 = 6%nat /\ bytes mac1) (Hw : 0 <= wnd < 2 ^ 16).
Context (Hnone : find_peer_sock n ip1 p1 p2 = None) (Hlst : find_listener n p2 = Some l) (Hroom : listener_pending n l < backlog (sock_at n l)) (Hfree : find_free n = Some (s_sock h)).
Abbreviation c := (s_sock h).
Definition iss2 : Z := derive_iss (s_clock h (ticks n)) ip1 p1 p2.
Definition child : TcpSock := child_of l ip1 mac1 p1 p2 iss1 wnd PUSH_MSS (s_clock h (ticks n)).
Definition syn_ack : list Z := segment (s_ip h) (s_mac h) child iss2 (u32 (iss1 + 1)) (Z.lor FLAG_SYN FLAG_ACK) true [].

Lemma server_bound : (c < length (socks n))%nat.
Proof. rewrite Hl. apply Hh. Qed.

Lemma listener_other : c <> l.
Proof.
  intros E. pose proof (first_from_some _ _ _ _ Hlst) as H1. pose proof (first_from_some _ _ _ _ Hfree) as H2. cbv beta zeta in H1, H2. rewrite E in H2. rewrite !andb_true_iff in H1. destruct H1 as [[H1 _] _]. by rewrite H1 in H2.
Qed.

Lemma syn_ok f len : reads f mac1 44 ip1 24 p1 p2 iss1 0 FLAG_SYN wnd -> parse_mss_opt f 24 = PUSH_MSS -> 58 <= len ->
  handle_frame (s_ip h) (s_mac h) (s_clock h) (s_fuel h) (f, len) n = Done (tt, at_sock n c child (loaded (txbuf n) syn_ack) (wire n ++ [syn_ack]) (S (ticks n))).
Proof.
  intros Hrd Hmss Hlen. pose proof server_bound as Hi. destruct (handle_frame_reads (s_ip h) (s_mac h) (s_clock h) (s_fuel h) f len _ _ _ _ _ _ _ _ _ _ Hrd ltac:(lia) ltac:(lia) ltac:(lia)) as (lp & Elp). rewrite Elp. unfold segment_input.
  rewrite (bind_done _ _ n _ n (eq_refl : gets (fun n => n) n = Done (n, n))). cbv zeta. rewrite Hnone. change (has FLAG_SYN FLAG_SYN) with true. change (has FLAG_SYN FLAG_ACK) with false. cbn iota.
  unfold handle_incoming_syn. rewrite (bind_done _ _ n _ n (eq_refl : gets (fun n => n) n = Done (n, n))). cbv zeta. rewrite Hnone, Hlst, Hfree. destruct (Z.leb_spec (backlog (sock_at n l)) (listener_pending n l)); [lia|].
  rewrite <- (at_sock_self n c Hi) at 1. rewrite (bind_done _ _ _ _ _ (now_ok (s_clock h) n c _ _ _ _)), Hmss, (rd_mac _ _ _ _ _ _ _ _ _ _ _ Hrd). rewrite (bind_done _ _ _ _ _ (upd_done n c Hi _ _ _ _ _)). fold child.
  unfold send_syn_ack. rewrite (bind_done _ _ _ _ _ (sk_ok n c Hi _ _ _ _)). apply (send_seg_ok _ _ n c _ child _ _ _ _ _ child). exact Hlp.
Qed.

Abbreviation e := (mkEnds ip1 p1 p2).
Abbreviation a0 := (iss2 + 1).
Abbreviation b0 := (iss1 + 1).

(** The child once its handshake is complete, in the queue. *)
Lemma child_conn window : 0 <= window < 2 ^ 16 ->
  conn e a0 b0 [] [] 0 0 0 0 (set_queued true (set_state ST_ESTABLISHED (set_rto_active false (set_snd_wnd window (set_snd_nxt (u32 (iss child + 1)) (set_snd_una (u32 (iss child + 1)) child)))))).
Proof.
  intros Hwd. change (iss child) with iss2. constructor; [done|done|done|done|done| |]; constructor; cbn [length]; rewrite ?Z.add_0_r; try done; try lia; try (vm_compute; done); try (cbn; unfold PUSH_MSS; lia).
Qed.

Definition pushed (s : TcpSock) : TcpSock := set_accept_q_len (u8 (accept_q_len s + 1)) (set_accept_q (<[q_pos s (accept_q_len s) := Z.of_nat c]> (accept_q s)) s).

(** The listening socket's queue is empty. *)
Context (Hq : accept_q_len (sock_at n l) = 0 /\ 0 <= accept_q_head (sock_at n l) < MAX_ACCEPT /\ length (accept_q (sock_at n l)) = Z.to_nat MAX_ACCEPT).
Abbreviation n1 := (set_socks (<[l := pushed (sock_at n l)]> (socks n)) n).

Lemma listener_bound : (l < length (socks n))%nat.
Proof.
  pose proof (first_from_some _ _ _ _ Hlst) as H1. cbv beta zeta in H1. rewrite !andb_true_iff in H1. destruct H1 as [[H1 _] _]. destruct (decide (l < length (socks n))%nat); [done|]. unfold sock_at in H1. by rewrite nth_overflow in H1 by lia.
Qed.

Lemma sock_at_other j s m : j <> l -> sock_at (set_socks (<[l := s]> (socks m)) m) j = sock_at m j.
Proof. intros Hj. unfold sock_at. cbn [set_socks socks]. by rewrite !nth_lookup, list_lookup_insert_ne. Qed.

Lemma sock_at_listener s m : length (socks m) = MAX_SOCKS -> sock_at (set_socks (<[l := s]> (socks m)) m) l = s.
Proof. intros Hm'. pose proof listener_bound. unfold sock_at. cbn [set_socks socks]. rewrite nth_lookup, list_lookup_insert_eq by lia. done. Qed.

Lemma child_only m s t w k : length (socks m) = MAX_SOCKS -> (forall j, j <> c -> matches ip1 p1 p2 (sock_at m j) = false) -> matches ip1 p1 p2 s = true -> find_peer_sock (at_sock m c s t w k) ip1 p1 p2 = Some c.
Proof.
  intros Hl' Ho Hs. apply find_peer_only; [apply Hh| |]; [rewrite sock_at_eq; [done|rewrite Hl'; apply Hh]|]. intros j Hj. rewrite sock_at_ne by done. by apply Ho.
Qed.

Lemma child_matches : matches ip1 p1 p2 child = true.
Proof. rewrite (eq_refl : matches ip1 p1 p2 child = true && (ip1 =? ip1) && (p1 =? p1) && (p2 =? p2)). by rewrite !Z.eqb_refl. Qed.

(** The client's ACK: the child leaves the handshake, enters the queue, and the connection begins. *)
Lemma ack_in_ok f len mac window t w k :
  reads f mac 40 ip1 20 p1 p2 (u32 b0) (u32 a0) FLAG_ACK window -> 0 <= window < 2 ^ 16 -> 54 <= len -> 54 <= Z.of_nat (length f) ->
  exists s' t' fs k', handle_frame (s_ip h) (s_mac h) (s_clock h) (s_fuel h) (f, len) (at_sock n c child t w k) = Done (tt, at_sock n1 c s' t' (w ++ fs) k') /\
    conn e a0 b0 [] [] 0 0 0 0 s'.
Proof.
  intros Hrd Hwd Hlen Hlf. pose proof server_bound as Hi. pose proof listener_other as Hcl. destruct (handle_frame_reads (s_ip h) (s_mac h) (s_clock h) (s_fuel h) f len _ _ _ _ _ _ _ _ _ _ Hrd ltac:(lia) ltac:(lia) ltac:(lia)) as (lp & Elp). rewrite Elp. unfold segment_input.
  rewrite (bind_done _ _ _ _ _ (eq_refl : gets (fun n => n) _ = Done (_, _))). cbv zeta. rewrite child_only; [|done|intros j _; by apply find_peer_none|exact child_matches].
  change (has FLAG_ACK FLAG_SYN) with false. change (has FLAG_ACK FLAG_RST) with false. change (has FLAG_ACK FLAG_ACK) with true. cbn iota. rewrite sock_at_eq by done. change (st_is (state child) ST_SYN_SENT) with false. change (st_is (state child) ST_SYN_RCVD) with true.
  change (iss child) with iss2. rewrite Z.eqb_refl. cbn [negb orb]. unfold complete_handshake. change (u32 (40 - 20 - 20)) with (Z.of_nat 0).
  set (g1 := fun s => set_state ST_ESTABLISHED (set_rto_active false (set_snd_wnd window (set_snd_nxt (u32 (iss s + 1)) (set_snd_una (u32 (iss s + 1)) s))))).
  assert (bind (upd c g1) (fun _ => bind (sk c) (fun s => when (0 <=? listener s) (accept_push (Z.to_nat (listener s)) c))) (at_sock n c child t w k) = Done (tt, at_sock n1 c (set_queued true (g1 child)) t w k)) as E1.
  { rewrite (bind_done _ _ _ _ _ (upd_done n c Hi _ _ _ _ _)), (bind_done _ _ _ _ _ (sk_ok n c Hi _ _ _ _)). change (listener (g1 child)) with (Z.of_nat l). destruct (Z.leb_spec 0 (Z.of_nat l)); [|lia]. cbn [when]. rewrite Nat2Z.id. unfold accept_push.
    rewrite (bind_done _ _ _ _ _ (upd_other n c l _ _ _ _ _ Hcl)). apply (upd_done n1 c). cbn [set_socks socks]. by rewrite length_insert. }
  rewrite (bind_done _ _ _ _ _ E1). assert (c < length (socks n1))%nat as Hi1 by (cbn [set_socks socks]; by rewrite length_insert).
  pose proof (connection_input_ok (s_ip h) (s_mac h) (s_clock h) lp n1 c Hi1 e ltac:(done) a0 b0 0 [] [] 0 0 0 0 _ f 20 0 0 0 window (child_conn window Hwd) ltac:(cbn; lia) ltac:(cbn; lia) ltac:(lia) ltac:(cbn; lia) ltac:(unfold PUSH_MSS; lia) ltac:(lia) ltac:(lia) eq_refl ltac:(lia) Hwd t w k) as (u' & x' & y' & s' & t' & fs & k' & E & Hu & Hx & Hy & C & F).
  cbn [Z.of_nat] in E. rewrite !Z.add_0_r in E. exists s', t', fs, k'. split; [exact E|]. pose proof C as [_ _ _ _ _ [_ _ Lx _ _ _ _ _ _ _] [_ Ly _ _ _ _ _]]. cbn [length] in Lx, Ly. by replace u' with 0%nat in C by lia; replace x' with 0%nat in C by lia; replace y' with 0%nat in C by lia.
Qed.

Lemma accept_ok f len mac window t w k deadline :
  reads f mac 40 ip1 20 p1 p2 (u32 b0) (u32 a0) FLAG_ACK window -> 0 <= window < 2 ^ 16 -> 54 <= len -> 54 <= Z.of_nat (length f) ->
  exists n', poll_accepting (s_ip h) (s_mac h) (s_clock h) (s_fuel h) l deadline [(f, len)] (at_sock n c child t w k) = Done (Peer (Z.of_nat c) ip1 p1, n') /\ has_conn h e a0 b0 [] [] 0 0 0 0 n'.
Proof.
  intros Hrd Hwd Hlen Hlf. pose proof server_bound as Hi. pose proof listener_other as Hcl. pose proof listener_bound as Hlb. destruct (ack_in_ok f len mac window t w k Hrd Hwd Hlen Hlf) as (s' & t' & fs & k' & E & C). unfold poll_accepting. cbn [rx_drain].
  unfold bind at 1. unfold bind at 1. rewrite E. cbn [obind]. change (ret tt _) with (Done (tt, at_sock n1 c s' t' (w ++ fs) k')). cbn [obind]. assert (length (socks n1) = MAX_SOCKS) as Hl1 by (cbn [set_socks socks]; by rewrite length_insert).
  rewrite (bind_done _ _ _ _ _ (eq_refl : sk l _ = Done (_, _))). rewrite (sock_at_ne n1 c l) by done. rewrite sock_at_listener by done. destruct Hq as (Q1 & Q2 & Q3). unfold MAX_ACCEPT in *.
  assert (accept_q_len (pushed (sock_at n l)) = 1) as -> by (cbn; by rewrite Q1). change (negb (1 =? 0)) with true. cbv zeta. cbn iota. change (accept_q_head (pushed (sock_at n l))) with (accept_q_head (sock_at n l)).
  assert (nth (Z.to_nat (accept_q_head (sock_at n l))) (accept_q (pushed (sock_at n l))) 0 = Z.of_nat c) as ->.
  { cbn [pushed set_accept_q_len set_accept_q accept_q]. unfold q_pos, MAX_ACCEPT. rewrite Q1, Z.add_0_r, Z.mod_small by lia. unfold u8. rewrite Z.mod_small by (change (2 ^ 8) with 256; lia). rewrite nth_lookup, list_lookup_insert_eq by lia. done. }
  rewrite Nat2Z.id. assert (c < length (socks n1))%nat as Hi1 by lia. set (g2 := fun s : TcpSock => set_accept_q_len _ _).
  rewrite (bind_done _ _ _ _ _ (upd_other n1 c l g2 _ _ _ _ Hcl)). set (n2 := set_socks (<[l := g2 (sock_at n1 l)]> (socks n1)) n1). assert (length (socks n2) = MAX_SOCKS) as Hl2 by (unfold n2; cbn [set_socks socks]; by rewrite !length_insert).
  assert (c < length (socks n2))%nat as Hi2 by lia. rewrite (bind_done _ _ _ _ _ (sk_ok n2 c Hi2 _ _ _ _)), (bind_done _ _ _ _ _ (upd_done n2 c Hi2 _ _ _ _ _)). pose proof C as [Cu _ (E1 & E2 & E3) _ _ _ _]. cbn [e_rip e_rport e_lport] in E1, E2, E3. rewrite E1, E2. eexists. split; [reflexivity|]. constructor.
  - cbn [at_sock socks]. by rewrite length_insert.
  - apply child_only; [done| |unfold matches; cbn; by rewrite Cu, E1, E2, E3, !Z.eqb_refl]. intros j Hj. unfold n2. destruct (decide (j = l)) as [->|Hjl].
    + rewrite sock_at_listener by done. pose proof (find_peer_none n ip1 p1 p2 Hl Hnone l) as Hf. unfold g2. rewrite sock_at_listener by done. exact Hf.
    + rewrite !sock_at_other by done. by apply find_peer_none.
  - rewrite sock_at_eq by done. destruct C as [? ? ? ? ? [] []]. constructor; auto; by constructor.
Qed.
End Server.

(** ** Both *)

(** A frame as it arrives, with what the card appends. *)
Definition on_arrival (f pad : list Z) : list Z * Z := (f ++ pad, Z.of_nat (length (f ++ pad))).

(** A client with a fresh socket and the server's (or the gateway's) card address at hand. *)
Record client_ready (h : station) (ip2 p1 : Z) (n : Net) : Prop := {
  cr_len : length (socks n) = MAX_SOCKS;
  cr_sock : sock_at n (s_sock h) = opened p1;
  cr_port : 0 <= p1 < 2 ^ 16 /\ forall j, j <> s_sock h -> used (sock_at n j) = true -> lport (sock_at n j) <> p1;
  cr_up : g_up n = true;
  cr_arp : g_arp_ip n = (if on_subnet (s_ip h) ip2 then ip2 else GW_IP);
  cr_mac : length (g_arp_mac n) = 6%nat /\ bytes (g_arp_mac n);
  cr_card : bytes (s_mac h)
}.

(** A server whose socket [l] listens at [p2] with an empty queue, and that has not heard of the client; [s_sock h] is its first free slot. *)
Record server_ready (h : station) (ip1 p1 p2 : Z) (l : nat) (n : Net) : Prop := {
  sr_len : length (socks n) = MAX_SOCKS;
  sr_port : 0 <= p2 < 2 ^ 16;
  sr_none : find_peer_sock n ip1 p1 p2 = None;
  sr_listener : find_listener n p2 = Some l;
  sr_room : listener_pending n l < backlog (sock_at n l);
  sr_free : find_free n = Some (s_sock h);
  sr_queue : accept_q_len (sock_at n l) = 0 /\ 0 <= accept_q_head (sock_at n l) < MAX_ACCEPT /\ length (accept_q (sock_at n l)) = Z.to_nat MAX_ACCEPT
}.

(** A segment without payload, as it arrives: [hl] is the length of its header. *)
Lemma control_reads ip mac s seq ackno flags opt pad lp rp r hl :
  is_u32 ip -> length mac = 6%nat -> addressed s -> is_loopback r = false -> rip s = r -> lport s = lp -> rport s = rp -> rcv_used s = 0 -> hdr_of opt = hl -> is_u32 seq -> is_u32 ackno ->
  let f := segment ip mac s seq ackno flags opt [] ++ pad in reads f mac (20 + hl) ip hl lp rp seq ackno flags RECV_CAP /\ 34 + hl <= Z.of_nat (length f) /\ (opt = true -> parse_mss_opt f 24 = PUSH_MSS).
Proof.
  intros Hip Hm Ha Hl Er <- <- Hu <- Hs Hk f. pose proof Ha as [_ _ _ [Hd _] _]. pose proof (length_segment ip mac s seq ackno flags opt [] Hd Hm) as E. cbn [length] in E.
  destruct (segment_reads ip mac s seq ackno flags opt [] pad Hip Hm Ha Hs Hk ltac:(unfold PUSH_MSS; cbn; lia)) as [R _]. rewrite Er, Hl, Hu, Z.sub_0_r in R. cbn [length] in R. change (Z.of_nat 0) with 0 in R. rewrite Z.add_0_r in R.
  subst f. split; [exact R|]. rewrite length_app. split; [lia|]. intros ->. by apply segment_mss.
Qed.

Lemma syn_reads h n ip2 p1 p2 pad : station_ok h -> is_u32 ip2 -> is_loopback ip2 = false -> 0 <= p1 < 2 ^ 16 -> 0 <= p2 < 2 ^ 16 -> length (g_arp_mac n) = 6%nat /\ bytes (g_arp_mac n) ->
  let f := syn h n ip2 p1 p2 ++ pad in reads f (s_mac h) 44 (s_ip h) 24 p1 p2 (iss1 h n ip2 p1 p2) 0 FLAG_SYN RECV_CAP /\ 58 <= Z.of_nat (length f) /\ parse_mss_opt f 24 = PUSH_MSS.
Proof.
  intros [[I1 _] M1 _] I2 L2 H1 H2 Hm f. assert (addressed (dialed h n ip2 p1 p2)) as Ad by (constructor; auto; unfold RECV_CAP; cbn; lia).
  destruct (control_reads (s_ip h) (s_mac h) (dialed h n ip2 p1 p2) (iss1 h n ip2 p1 p2) 0 FLAG_SYN true pad p1 p2 ip2 24 I1 M1 Ad L2 eq_refl eq_refl eq_refl eq_refl eq_refl (derive_iss_u32 _ _ _ _ I2) ltac:(unfold is_u32; lia)) as (R & A & P). split; [exact R|]. split; [exact A|by apply P].
Qed.

Lemma syn_ack_reads h n ip1 p1 p2 i1 mac1 l pad : station_ok h -> is_u32 ip1 -> is_loopback ip1 = false -> 0 <= p1 < 2 ^ 16 -> 0 <= p2 < 2 ^ 16 -> length mac1 = 6%nat /\ bytes mac1 ->
  let f := syn_ack h n ip1 p1 p2 i1 RECV_CAP mac1 l ++ pad in
  reads f (s_mac h) 44 (s_ip h) 24 p2 p1 (iss2 h n ip1 p1 p2) (u32 (i1 + 1)) (Z.lor FLAG_SYN FLAG_ACK) RECV_CAP /\ 58 <= Z.of_nat (length f) /\ parse_mss_opt f 24 = PUSH_MSS.
Proof.
  intros [[I2 _] M2 _] I1 L1 H1 H2 Hm f. set (ch := child h n ip1 p1 p2 i1 RECV_CAP mac1 l). assert (addressed ch) as Ad by (constructor; auto; unfold RECV_CAP; cbn; lia).
  destruct (control_reads (s_ip h) (s_mac h) ch (iss2 h n ip1 p1 p2) (u32 (i1 + 1)) (Z.lor FLAG_SYN FLAG_ACK) true pad p2 p1 ip1 24 I2 M2 Ad L1 eq_refl eq_refl eq_refl eq_refl eq_refl (derive_iss_u32 _ _ _ _ I1) (u32_range _)) as (R & A & P). split; [exact R|]. split; [exact A|by apply P].
Qed.

Lemma ack_reads h n ip2 p1 p2 i2 pad : station_ok h -> is_u32 ip2 -> is_loopback ip2 = false -> 0 <= p1 < 2 ^ 16 -> 0 <= p2 < 2 ^ 16 -> length (g_arp_mac n) = 6%nat /\ bytes (g_arp_mac n) ->
  let f := third h n ip2 p1 p2 i2 RECV_CAP ++ pad in reads f (s_mac h) 40 (s_ip h) 20 p1 p2 (u32 (iss1 h n ip2 p1 p2 + 1)) (u32 (i2 + 1)) FLAG_ACK RECV_CAP /\ 54 <= Z.of_nat (length f).
Proof.
  intros [[I1 _] M1 _] I2 L2 H1 H2 Hm f. set (s := called h n ip2 p1 p2 i2 RECV_CAP). assert (addressed s) as Ad by (constructor; auto; unfold RECV_CAP; cbn; lia).
  subst f. unfold third. cbv zeta. fold s. assert (rcv_ackno s = u32 (i2 + 1)) as -> by (unfold rcv_ackno; change (rcv_base s) with (u32 (i2 + 1)); change (rcv_used s) with 0; change (fin_rcvd s) with false; rewrite !Z.add_0_r; apply u32_id, u32_range).
  change (snd_nxt s) with (u32 (iss1 h n ip2 p1 p2 + 1)).
  destruct (control_reads (s_ip h) (s_mac h) s (u32 (iss1 h n ip2 p1 p2 + 1)) (u32 (i2 + 1)) FLAG_ACK false pad p1 p2 ip2 20 I1 M1 Ad L2 eq_refl eq_refl eq_refl eq_refl eq_refl (u32_range _) (u32_range _)) as (R & A & _). split; [exact R|exact A].
Qed.

Lemma called_conn h n ip2 p1 p2 i2 : length (g_arp_mac n) = 6%nat /\ bytes (g_arp_mac n) -> conn (mkEnds ip2 p2 p1) (iss1 h n ip2 p1 p2 + 1) (i2 + 1) [] [] 0 0 0 0 (called h n ip2 p1 p2 i2 RECV_CAP).
Proof.
  intros Hm. constructor; [done|done|done|done|done| |]; constructor; cbn [length]; rewrite ?Z.add_0_r; try done; try lia; try (vm_compute; done).
Qed.

Lemma handshake_ok h1 h2 p1 p2 l n1 n2 timeout deadline pad1 pad2 pad3 :
  station_ok h1 -> station_ok h2 -> client_ready h1 (s_ip h2) p1 n1 -> server_ready h2 (s_ip h1) p1 p2 l n2 ->
  before (s_clock h1 (S (S (ticks n1)))) (u32 (s_clock h1 (S (ticks n1)) + clamp timeout)) = true ->
  exists f1 f2 f3 p n1' n1'' n2' n2'' k,
    socket_connect (s_ip h1) (s_mac h1) (s_clock h1) (s_fuel h1) (Z.of_nat (s_sock h1)) (s_ip h2) p2 timeout n1 = Done (Wait p, n1') /\ wire n1' = wire n1 ++ [f1] /\
    rx_drain (s_ip h2) (s_mac h2) (s_clock h2) (s_fuel h2) [on_arrival f1 pad1] n2 = Done (tt, n2') /\ wire n2' = wire n2 ++ [f2] /\
    poll (s_ip h1) (s_mac h1) (s_clock h1) (s_fuel h1) p [on_arrival f2 pad2] n1' = Done (Ret 0, n1'') /\ wire n1'' = wire n1' ++ [f3] /\
    poll (s_ip h2) (s_mac h2) (s_clock h2) (s_fuel h2) (Accepting l deadline) [on_arrival f3 pad3] n2' = Done (Peer (Z.of_nat (s_sock h2)) (s_ip h1) p1, n2'') /\
    port1 k = p1 /\ port2 k = p2 /\ established h1 h2 k n1'' n2''.
Proof.
  intros O1 O2 [Cl Cs [Cp Co] Cu Ca Cm Cc] [Sl Sp Sn Slst Sr Sf Sq] Hb. pose proof (so_ip h1 O1) as [I1 L1]. pose proof (so_mac h1 O1) as M1. pose proof (so_ip h2 O2) as [I2 L2].
  destruct (syn_reads h1 n1 (s_ip h2) p1 p2 pad1 O1 I2 L2 Cp Sp Cm) as (R1 & A1 & P1). pose proof (connect_ok h1 O1 n1 (s_ip h2) p1 p2 Cl Cs L2 timeout Cu Ca) as Econ.
  pose proof (syn_ok h2 O2 n2 (s_ip h1) p1 p2 _ RECV_CAP (s_mac h1) l Sl L1 (conj M1 Cc) Sn Slst Sr Sf _ _ R1 P1 A1) as Esyn.
  destruct (syn_ack_reads h2 n2 (s_ip h1) p1 p2 (iss1 h1 n1 (s_ip h2) p1 p2) (s_mac h1) l pad2 O2 I1 L1 Cp Sp (conj M1 Cc)) as (R2 & A2 & P2).
  pose proof (syn_ack_ok h1 O1 n1 (s_ip h2) p1 p2 Cl L2 Co _ _ (s_mac h2) _ RECV_CAP (loaded (txbuf n1) (syn h1 n1 (s_ip h2) p1 p2)) (wire n1 ++ [syn h1 n1 (s_ip h2) p1 p2]) (S (S (ticks n1))) _ R2 P2 A2 Hb) as Epoll.
  destruct (ack_reads h1 n1 (s_ip h2) p1 p2 (iss2 h2 n2 (s_ip h1) p1 p2) pad3 O1 I2 L2 Cp Sp Cm) as (R3 & A3).
  pose proof (fun t w k => accept_ok h2 O2 n2 (s_ip h1) p1 p2 _ RECV_CAP (s_mac h1) l Sl I1 L1 Cp Sp (conj M1 Cc) Sn Slst Sf Sq _ _ (s_mac h1) RECV_CAP t w k deadline R3 ltac:(unfold RECV_CAP; lia) A3 A3) as Hacc.
  destruct (Hacc (loaded (txbuf n2) (syn_ack h2 n2 (s_ip h1) p1 p2 (iss1 h1 n1 (s_ip h2) p1 p2) RECV_CAP (s_mac h1) l)) (wire n2 ++ [syn_ack h2 n2 (s_ip h1) p1 p2 (iss1 h1 n1 (s_ip h2) p1 p2) RECV_CAP (s_mac h1) l]) (S (ticks n2))) as (n2'' & Eacc & Hserver).
  do 3 eexists. do 4 eexists. exists n2'', (mkLink p1 p2 (iss1 h1 n1 (s_ip h2) p1 p2 + 1) (iss2 h2 n2 (s_ip h1) p1 p2 + 1)).
  split; [exact Econ|]. split; [reflexivity|]. split; [cbn [rx_drain]; rewrite (bind_done _ _ _ _ _ Esyn); reflexivity|]. split; [reflexivity|]. split; [exact Epoll|]. split; [reflexivity|]. split; [exact Eacc|]. do 2 (split; [reflexivity|]). split; [|exact Hserver].
  constructor; [cbn [at_sock socks]; by rewrite length_insert|by apply find_client|]. rewrite sock_at_eq by (rewrite Cl; apply O1). by apply called_conn.
Qed.
