(* ===== verification/TcpRing.v ===== *)
(** The ring buffer of a listening socket's queue ([accept_push], [accept_remove], the
    pop of [socket_accept]) against the list it holds. *)
From S2P Require Import Prelude Tcp.
Local Open Scope vnu_scope.

(** The positions of the ring in use, from the head on. *)
Definition ring_pos (head k : Z) : nat := Z.to_nat (u8 ((head + k) mod MAX_ACCEPT)).
Definition queue (q : list Z) (len head : Z) : list Z := map (fun k => nth (ring_pos head (Z.of_nat k)) q 0) (seq 0 (Z.to_nat len)).
Record ring (q : list Z) (len head : Z) : Prop := { rg_q : length q = 4%nat; rg_len : 0 <= len <= 4; rg_head : 0 <= head < 4 }.

Lemma ring_cases (P : list Z -> Z -> Z -> Prop) :
  (forall a b c d len head, In len [0; 1; 2; 3; 4] -> In head [0; 1; 2; 3] -> P [a; b; c; d] len head) -> forall q len head, ring q len head -> P q len head.
Proof.
  intros H q len head [Hq Hl Hh]. destruct q as [|a [|b [|c [|d [|]]]]]; try done. apply H.
  - assert (len = 0 \/ len = 1 \/ len = 2 \/ len = 3 \/ len = 4) as Hc by lia. cbn. intuition.
  - assert (head = 0 \/ head = 1 \/ head = 2 \/ head = 3) as Hc by lia. cbn. intuition.
Qed.

Ltac ring_split Hl Hh := cbn [In] in Hl, Hh; destruct Hl as [<-|[<-|[<-|[<-|[<-|[]]]]]]; destruct Hh as [<-|[<-|[<-|[<-|[]]]]].

Ltac ring_solve := constructor; [reflexivity|split; vm_compute; discriminate|split; [vm_compute; discriminate|vm_compute; reflexivity]].

Lemma queue_push q len head z : ring q len head -> len < 4 -> queue (<[ring_pos head len := z]> q) (u8 (len + 1)) head = queue q len head ++ [z] /\ ring (<[ring_pos head len := z]> q) (u8 (len + 1)) head.
Proof.
  revert q len head. apply (ring_cases (fun q len head => len < 4 -> queue (<[ring_pos head len := z]> q) (u8 (len + 1)) head = queue q len head ++ [z] /\ ring (<[ring_pos head len := z]> q) (u8 (len + 1)) head)).
  intros a b c d len head Hl Hh Hlt. ring_split Hl Hh; try lia; (split; [reflexivity|]); ring_solve.
Qed.

Lemma queue_pop q len head : ring q len head -> len <> 0 ->
  queue q len head = nth (Z.to_nat head) q 0 :: queue q (len - 1) (u8 ((head + 1) mod MAX_ACCEPT)) /\ ring q (len - 1) (u8 ((head + 1) mod MAX_ACCEPT)).
Proof.
  revert q len head. apply (ring_cases (fun q len head => len <> 0 -> queue q len head = nth (Z.to_nat head) q 0 :: queue q (len - 1) (u8 ((head + 1) mod MAX_ACCEPT)) /\ ring q (len - 1) (u8 ((head + 1) mod MAX_ACCEPT)))).
  intros a b c d len head Hl Hh Hlt. ring_split Hl Hh; try lia; (split; [reflexivity|]); ring_solve.
Qed.

Definition sock_queue (s : TcpSock) : list Z := queue (accept_q s) (accept_q_len s) (accept_q_head s).

Definition only_ring (s s' : TcpSock) : Prop := s' = set_accept_q_len (accept_q_len s') (set_accept_q (accept_q s') s).

Lemma queue_remove z s : ring (accept_q s) (accept_q_len s) (accept_q_head s) -> NoDup (sock_queue s) ->
  let s' := remove_from (Z.to_nat (accept_q_len s)) 0 z s in
  only_ring s s' /\ sock_queue s' = List.filter (fun y => negb (y =? z)) (sock_queue s) /\ ring (accept_q s') (accept_q_len s') (accept_q_head s').
Proof.
  intros R. destruct s as [? ? ? ? ? ? ? ? ? ? ? ? ? ? ? ? ? ? ? ? ? ? ? ? ? q len head ? ?]. cbn [accept_q accept_q_len accept_q_head] in R.
  destruct R as [Hq Hl Hh]. destruct q as [|a [|b [|c [|d [|]]]]]; try done. unfold sock_queue, only_ring.
  assert (In len [0; 1; 2; 3; 4]) as Hlc by (assert (len = 0 \/ len = 1 \/ len = 2 \/ len = 3 \/ len = 4) as Hc by lia; cbn; intuition).
  assert (In head [0; 1; 2; 3]) as Hhc by (assert (head = 0 \/ head = 1 \/ head = 2 \/ head = 3) as Hc by lia; cbn; intuition). clear Hl Hh.
  ring_split Hlc Hhc; cbn [accept_q accept_q_len accept_q_head]; intros Hnd; cbv in Hnd; cbv -[Z.eqb Z.le Z.lt]; repeat rewrite NoDup_cons in Hnd; repeat match goal with |- context [Z.eqb ?x ?y] => destruct (Z.eqb_spec x y); [subst|] end.
  all: try solve [exfalso; rewrite ?list_elem_of_In in Hnd; cbn [In] in Hnd; intuition auto].
  all: split; [reflexivity|]; split; [reflexivity|]; ring_solve.
Qed.
