(* ===== verification/TcpQueue.v ===== *)
(** The listening sockets and their queues: what the socket table looks like between calls. *)
From S2P Require Import Prelude Tcp TcpRing.
Local Open Scope vnu_scope.

(** ** The part of a socket the queues are about *)

Record slot := mkSlot { v_used : bool; v_state : State; v_listener : Z; v_queued : bool; v_q : list Z; v_len : Z; v_head : Z; v_backlog : Z }.
Definition view (s : TcpSock) : slot := mkSlot (used s) (state s) (listener s) (queued s) (accept_q s) (accept_q_len s) (accept_q_head s) (backlog s).
Definition table (n : Net) : list slot := map view (socks n).

Definition waiting (l : nat) (v : slot) : bool := v_used v && (v_listener v =? Z.of_nat l) && (st_is (v_state v) ST_SYN_RCVD || v_queued v).
Definition pend (vs : list slot) (l : nat) : nat := length (List.filter (waiting l) vs).

Definition in_queue (vs : list slot) (l : nat) (z : Z) : Prop := exists c v, z = Z.of_nat c /\ vs !! c = Some v /\ v_used v = true /\ v_listener v = Z.of_nat l /\ v_queued v = true.
Definition listening (v : slot) : Prop := v_used v = true /\ v_state v = ST_LISTEN.
Definition child_state (st : State) : Prop := st = ST_SYN_RCVD \/ st = ST_ESTABLISHED \/ st = ST_CLOSE_WAIT.

(** The queue of [l] holds its queued children, each once, and has room for all that are under way. *)
Record queue_ok (vs : list slot) (l : nat) (v : slot) : Prop := {
  qk_ring : ring (v_q v) (v_len v) (v_head v);
  qk_backlog : 1 <= v_backlog v <= 4;
  qk_nodup : NoDup (queue (v_q v) (v_len v) (v_head v));
  qk_elems : forall z, z ∈ queue (v_q v) (v_len v) (v_head v) <-> in_queue vs l z;
  qk_pend : Z.of_nat (pend vs l) <= v_backlog v
}.

Definition owned (vs : list slot) (z : Z) : Prop := exists l v, z = Z.of_nat l /\ vs !! l = Some v /\ listening v.

Record table_ok (vs : list slot) : Prop := {
  tk_len : length vs = MAX_SOCKS;
  tk_listen : forall l v, vs !! l = Some v -> listening v -> queue_ok vs l v;
  tk_child : forall c v, vs !! c = Some v -> v_used v = true -> 0 <= v_listener v -> owned vs (v_listener v) /\ child_state (v_state v);
  tk_syn : forall c v, vs !! c = Some v -> v_used v = true -> v_state v = ST_SYN_RCVD -> v_queued v = false;
  tk_q : forall c v, vs !! c = Some v -> length (v_q v) = 4%nat
}.

(** ** Counting *)

Lemma filter_insert {A} (P : A -> bool) (vs : list A) i v v' : vs !! i = Some v ->
  (length (List.filter P (<[i := v']> vs)) + (if P v then 1 else 0) = length (List.filter P vs) + (if P v' then 1 else 0))%nat.
Proof.
  revert i; induction vs as [|x vs IH]; intros [|i] H; cbn in H; try done.
  - injection H as ->. change (<[0%nat := v']> (v :: vs)) with (v' :: vs). cbn. destruct (P v), (P v'); cbn; lia.
  - specialize (IH i H). change (<[S i := v']> (x :: vs)) with (x :: <[i := v']> vs). cbn. destruct (P x); cbn; lia.
Qed.

Lemma pend_insert vs l i v v' : vs !! i = Some v -> (pend (<[i := v']> vs) l + (if waiting l v then 1 else 0) = pend vs l + (if waiting l v' then 1 else 0))%nat.
Proof. apply filter_insert. Qed.

Lemma filter_map_le {A} (P : A -> bool) (f : A -> A) (vs : list A) : (forall v, P (f v) = true -> P v = true) -> (length (List.filter P (map f vs)) <= length (List.filter P vs))%nat.
Proof. intros H. induction vs as [|v vs IH]; cbn; [lia|]. specialize (H v). destruct (P v), (P (f v)); cbn; try lia. Qed.

Lemma filter_none {A} (P : A -> bool) (vs : list A) : (forall i v, vs !! i = Some v -> P v = false) -> List.filter P vs = [].
Proof. induction vs as [|v vs IH]; intros H; cbn; [done|]. rewrite (H 0%nat v eq_refl). apply IH. intros i v' Hi. by apply (H (S i)). Qed.

(** The children queued among [q] are counted by [pend]. *)
Lemma queue_pend vs l q : NoDup q -> (forall z, z ∈ q -> in_queue vs l z) -> (length q <= pend vs l)%nat.
Proof.
  revert vs; induction q as [|z q IH]; intros vs Hn H; [cbn; lia|]. apply NoDup_cons in Hn as [Hz Hn]. destruct (H z ltac:(apply elem_of_cons; by left)) as (c & v & -> & Hc & Hu & Hl & Hq).
  set (v' := mkSlot false (v_state v) (v_listener v) (v_queued v) (v_q v) (v_len v) (v_head v) (v_backlog v)). specialize (IH (<[c := v']> vs) Hn).
  assert (waiting l v = true) as W by (unfold waiting; rewrite Hu, Hl, Hq, Z.eqb_refl; by rewrite orb_true_r). pose proof (pend_insert vs l c v v' Hc) as E. rewrite W in E. change (waiting l v') with false in E. cbn iota in E. cbn [length].
  enough (length q <= pend (<[c := v']> vs) l)%nat by lia. apply IH. intros y Hy. destruct (H y ltac:(apply elem_of_cons; by right)) as (c' & w & -> & Hc' & R). exists c', w. split; [done|]. split; [|done]. rewrite list_lookup_insert_ne; [done|]. intros ->. done.
Qed.

(** ** Changes of the table *)

Lemma owned_insert vs i v v' z : vs !! i = Some v -> ~ listening v -> ~ listening v' -> owned vs z <-> owned (<[i := v']> vs) z.
Proof.
  intros Hi Hv Hv'. split; intros (l & w & -> & Hl & Hw); exists l, w; (split; [done|]); (split; [|done]); destruct (decide (l = i)) as [->|Hn].
  - congruence.
  - by rewrite list_lookup_insert_ne.
  - rewrite list_lookup_insert_eq in Hl by (by eapply lookup_lt_Some). congruence.
  - by rewrite list_lookup_insert_ne in Hl.
Qed.

Definition member (l : nat) (v : slot) : Prop := v_used v = true /\ v_listener v = Z.of_nat l /\ v_queued v = true.

Lemma in_queue_insert vs i v v' l z : vs !! i = Some v -> (member l v <-> member l v') -> in_queue vs l z <-> in_queue (<[i := v']> vs) l z.
Proof.
  intros Hi Hm. pose proof (lookup_lt_Some _ _ _ Hi) as Hlt. split; intros (c & w & -> & Hc & Hw); destruct (decide (c = i)) as [->|Hn].
  - exists i, v'. split; [done|]. rewrite list_lookup_insert_eq by done. split; [done|]. apply Hm. assert (w = v) as -> by congruence. done.
  - exists c, w. by rewrite list_lookup_insert_ne.
  - exists i, v. split; [done|]. split; [done|]. apply Hm. rewrite list_lookup_insert_eq in Hc by done. assert (w = v') as -> by congruence. done.
  - exists c, w. by rewrite list_lookup_insert_ne in Hc.
Qed.

(** A slot that listens neither before nor after changes, and no queue holds it before or after, or the same queue does. *)
Lemma table_update vs i v v' :
  table_ok vs -> vs !! i = Some v -> ~ listening v -> ~ listening v' -> (forall l, member l v <-> member l v') ->
  (forall l w, vs !! l = Some w -> listening w -> waiting l v' = true -> waiting l v = true \/ Z.of_nat (pend vs l) < v_backlog w) ->
  (v_used v' = true -> 0 <= v_listener v' -> owned vs (v_listener v') /\ child_state (v_state v')) -> (v_used v' = true -> v_state v' = ST_SYN_RCVD -> v_queued v' = false) -> length (v_q v') = 4%nat -> table_ok (<[i := v']> vs).
Proof.
  intros [Tl Tq Tc Ts T4] Hi Nv Nv' Hm Hp Hc Hs H4. pose proof (lookup_lt_Some _ _ _ Hi) as Hlt. constructor.
  - by rewrite length_insert.
  - intros l w Hl Hw. destruct (decide (l = i)) as [->|Hn]; [rewrite list_lookup_insert_eq in Hl by done; congruence|]. rewrite list_lookup_insert_ne in Hl by done. destruct (Tq l w Hl Hw) as [Q1 Q2 Q3 Q4 Q5]. constructor; auto.
    + intros z. rewrite Q4. by eapply in_queue_insert.
    + pose proof (pend_insert vs l i v v' Hi) as E. specialize (Hp l w Hl Hw). destruct (waiting l v'), (waiting l v); cbn iota in E; lia.
  - intros c w Hc' Hu Hl. destruct (decide (c = i)) as [->|Hn].
    + rewrite list_lookup_insert_eq in Hc' by done. injection Hc' as <-. destruct (Hc Hu Hl) as [O1 O2]. split; [|done]. by eapply owned_insert in O1.
    + rewrite list_lookup_insert_ne in Hc' by done. destruct (Tc c w Hc' Hu Hl) as [O1 O2]. split; [|done]. by eapply owned_insert in O1.
  - intros c w Hc' Hu Hl. destruct (decide (c = i)) as [->|Hn]; [rewrite list_lookup_insert_eq in Hc' by done; injection Hc' as <-; auto|]. rewrite list_lookup_insert_ne in Hc' by done. eauto.
  - intros c w Hc'. destruct (decide (c = i)) as [->|Hn]; [rewrite list_lookup_insert_eq in Hc' by done; congruence|]. rewrite list_lookup_insert_ne in Hc' by done. eauto.
Qed.

Lemma listening_no_child vs l w : table_ok vs -> vs !! l = Some w -> listening w -> v_listener w < 0.
Proof.
  intros T Hl [Hu Hs]. destruct (Z.lt_ge_cases (v_listener w) 0) as [|H]; [done|]. destruct (tk_child vs T l w Hl Hu H) as [_ [E|[E|E]]]; congruence.
Qed.

(** A child and its listener change together. *)
Lemma table_relink vs c v v' l w w' :
  table_ok vs -> vs !! c = Some v -> vs !! l = Some w -> ~ listening v -> ~ listening v' -> listening w -> listening w' -> v_listener w' = v_listener w -> v_backlog w' = v_backlog w ->
  ring (v_q w') (v_len w') (v_head w') -> NoDup (queue (v_q w') (v_len w') (v_head w')) ->
  (forall z, z ∈ queue (v_q w') (v_len w') (v_head w') <-> (z = Z.of_nat c /\ member l v') \/ (z <> Z.of_nat c /\ in_queue vs l z)) ->
  (forall k, k <> l -> member k v <-> member k v') -> (forall k, waiting k v' = true -> waiting k v = true) ->
  (v_used v' = true -> 0 <= v_listener v' -> v_listener v' = Z.of_nat l /\ child_state (v_state v')) -> (v_used v' = true -> v_state v' = ST_SYN_RCVD -> v_queued v' = false) -> v_q v' = v_q v ->
  table_ok (<[c := v']> (<[l := w']> vs)).
Proof.
  intros T Hc Hl Nv Nv' Lw Lw' El Eb Rg Nd Hz Hm Hw Hch Hs H4. pose proof T as [Tl Tq Tc Ts T4]. assert (c <> l) as Hcl by (intros ->; congruence). pose proof (listening_no_child vs l w T Hl Lw) as Hneg.
  pose proof (lookup_lt_Some _ _ _ Hc) as Hlc. pose proof (lookup_lt_Some _ _ _ Hl) as Hll. set (vs1 := <[l := w']> vs). assert (vs1 !! c = Some v) as Hc1 by (unfold vs1; by rewrite list_lookup_insert_ne).
  assert (forall k, k <> c -> k <> l -> (<[c := v']> vs1) !! k = vs !! k) as Lo by (intros k H1 H2; unfold vs1; by rewrite !list_lookup_insert_ne).
  assert ((<[c := v']> vs1) !! c = Some v') as Lc by (apply list_lookup_insert_eq; unfold vs1; by rewrite length_insert).
  assert ((<[c := v']> vs1) !! l = Some w') as Ll by (rewrite list_lookup_insert_ne by done; by apply list_lookup_insert_eq).
  assert (forall k, member k w <-> member k w') as Mw by (intros k; unfold member; rewrite El; split; intros (_ & ? & _); lia).
  assert (forall k, (pend (<[c := v']> vs1) k <= pend vs k)%nat) as Hp.
  { intros k. pose proof (pend_insert vs1 k c v v' Hc1) as E1. pose proof (pend_insert vs k l w w' Hl) as E2. fold vs1 in E2. specialize (Hw k).
    assert (waiting k w = false) as Ew by (unfold waiting; destruct (Z.eqb_spec (v_listener w) (Z.of_nat k)); [lia|]; by rewrite andb_false_r). assert (waiting k w' = false) as Ew' by (unfold waiting; rewrite El; destruct (Z.eqb_spec (v_listener w) (Z.of_nat k)); [lia|]; by rewrite andb_false_r).
    rewrite Ew, Ew' in E2. cbn iota in E2. destruct (waiting k v'), (waiting k v); cbn iota in E1; lia. }
  assert (forall z, owned vs z -> owned (<[c := v']> vs1) z) as Ho.
  { intros z (k & x & -> & Hk & Hx). destruct (decide (k = l)) as [->|Hkl]; [exists l, w'; done|]. exists k, x. split; [done|]. split; [|done]. rewrite Lo; [done|intros ->; congruence|done]. }
  constructor.
  - unfold vs1. by rewrite !length_insert.
  - intros k x Hk Hx. destruct (decide (k = c)) as [->|Hkc]; [congruence|]. destruct (decide (k = l)) as [->|Hkl].
    + assert (x = w') as -> by congruence. destruct (Tq l w Hl Lw) as [_ Q2 _ _ Q5]. constructor; [done|by rewrite Eb|done| |rewrite Eb; specialize (Hp l); lia]. intros z. rewrite Hz. split.
      * intros [[-> Hmv]|[Hn (k & y & -> & Hk' & R)]]; [by exists c, v'|]. exists k, y. split; [done|]. split; [|done]. destruct (decide (k = l)) as [->|]; [|rewrite Lo; [done|congruence|done]]. assert (y = w) as -> by congruence. destruct R as (_ & R & _). lia.
      * intros (k & y & -> & Hk' & R). destruct (decide (k = c)) as [->|Hkc']; [left; split; [done|]; by assert (y = v') as -> by congruence|]. right. split; [lia|]. destruct (decide (k = l)) as [->|Hkl']; [|exists k, y; by rewrite <- Lo].
        assert (y = w') as -> by congruence. destruct R as (_ & R & _). lia.
    + rewrite Lo in Hk by done. destruct (Tq k x Hk Hx) as [Q1 Q2 Q3 Q4 Q5]. constructor; auto; [|specialize (Hp k); lia]. intros z. rewrite Q4. rewrite (in_queue_insert vs l w w' k z Hl (Mw k)). apply (in_queue_insert vs1 c v v' k z Hc1). by apply Hm.
  - intros k x Hk Hu Hge. destruct (decide (k = c)) as [->|Hkc].
    + assert (x = v') as -> by congruence. destruct (Hch Hu Hge) as [-> Hst]. split; [|done]. by exists l, w'.
    + destruct (decide (k = l)) as [->|Hkl]; [assert (x = w') as -> by congruence; lia|]. rewrite Lo in Hk by done. destruct (Tc k x Hk Hu Hge) as [O1 O2]. auto.
  - intros k x Hk Hu Hst. destruct (decide (k = c)) as [->|Hkc]; [assert (x = v') as -> by congruence; auto|]. destruct (decide (k = l)) as [->|Hkl]; [assert (x = w') as -> by congruence; destruct Lw'; congruence|]. rewrite Lo in Hk by done. eauto.
  - intros k x Hk. destruct (decide (k = c)) as [->|Hkc]; [assert (x = v') as -> by congruence; rewrite H4; eauto|]. destruct (decide (k = l)) as [->|Hkl]; [assert (x = w') as -> by congruence; apply Rg|]. rewrite Lo in Hk by done. eauto.
Qed.

(** ** The operations on the table *)

Definition v_set (v : slot) (u : bool) (st : State) (l : Z) (q : bool) : slot := mkSlot u st l q (v_q v) (v_len v) (v_head v) (v_backlog v).
Definition v_ring (v : slot) (q : list Z) (len head : Z) : slot := mkSlot (v_used v) (v_state v) (v_listener v) (v_queued v) q len head (v_backlog v).

Lemma queue_length q len head : length (queue q len head) = Z.to_nat len.
Proof. unfold queue. by rewrite length_map, length_seq. Qed.

Lemma not_listening v st : v_state v = st -> st <> ST_LISTEN -> ~ listening v.
Proof. intros <- H [_ E]. done. Qed.

(** The end of a child's handshake: the queue has room for it. *)
Lemma table_enqueue vs c v l w :
  table_ok vs -> vs !! c = Some v -> v_used v = true -> v_state v = ST_SYN_RCVD -> v_listener v = Z.of_nat l -> vs !! l = Some w ->
  v_len w < 4 /\ table_ok (<[c := v_set v true ST_ESTABLISHED (v_listener v) true]> (<[l := v_ring w (<[ring_pos (v_head w) (v_len w) := Z.of_nat c]> (v_q w)) (u8 (v_len w + 1)) (v_head w)]> vs)).
Proof.
  intros T Hc Hu Hst Hl Hw. pose proof T as [Tl Tq Tc Ts T4]. destruct (Tc c v Hc Hu ltac:(lia)) as [(l' & w' & El & Hw' & Lw) _]. assert (l' = l) as -> by lia. assert (w' = w) as -> by congruence. clear El Hw'.
  destruct (Tq l w Hw Lw) as [Q1 Q2 Q3 Q4 Q5]. pose proof (Ts c v Hc Hu Hst) as Hnq. pose proof (not_listening v _ Hst ltac:(done)) as Nv.
  assert (v_len w < 4) as Hlen.
  { set (v0 := v_set v false ST_CLOSED (-1) false). pose proof (pend_insert vs l c v v0 Hc) as E. assert (waiting l v = true) as W by (unfold waiting; by rewrite Hu, Hl, Hst, Z.eqb_refl). rewrite W in E. change (waiting l v0) with false in E. cbn iota in E.
    assert (length (queue (v_q w) (v_len w) (v_head w)) <= pend (<[c := v0]> vs) l)%nat as Hp; [|rewrite queue_length in Hp; lia].
    apply queue_pend; [done|]. intros z Hz. apply Q4 in Hz. apply (in_queue_insert vs c v v0 l z Hc); [|done]. unfold member. cbn. rewrite Hnq. split; intros (? & _ & ?); discriminate. }
  split; [done|]. destruct (queue_push (v_q w) (v_len w) (v_head w) (Z.of_nat c) Q1 Hlen) as [Eq Rg].
  assert (Z.of_nat c ∉ queue (v_q w) (v_len w) (v_head w)) as Hnin. { rewrite Q4. intros (c' & x & Ec & Hx & _ & _ & Hqx). assert (c' = c) as -> by lia. congruence. }
  eapply (table_relink vs c v _ l w); auto; cbn [v_ring v_set v_used v_state v_listener v_queued v_q v_len v_head v_backlog].
  - eapply not_listening; [done|done].
  - rewrite Eq. apply NoDup_app. split; [done|]. split; [|apply NoDup_singleton]. intros z Hz Hz2. apply list_elem_of_singleton in Hz2 as ->. done.
  - intros z. rewrite Eq, elem_of_app, list_elem_of_singleton. split.
    + intros [Hz| ->]; [right; split; [intros ->; done|by apply Q4]|left; done].
    + intros [[-> _]|[_ Hz]]; [by right|left; by apply Q4].
  - intros k Hk. unfold member. cbn. rewrite Hl. split; intros (_ & ? & _); lia.
  - intros k. unfold waiting. cbn. rewrite Hu, Hst. done.
  - intros _ _. split; [done|]. unfold child_state. auto.
  - done.
Qed.

(** [accept] takes the child at the head. *)
Lemma table_dequeue vs l w :
  table_ok vs -> vs !! l = Some w -> listening w -> v_len w <> 0 ->
  exists c v, nth (Z.to_nat (v_head w)) (v_q w) 0 = Z.of_nat c /\ vs !! c = Some v /\ v_used v = true /\ c <> l /\
    table_ok (<[c := v_set v true (v_state v) (-1) false]> (<[l := v_ring w (v_q w) (v_len w - 1) (u8 ((v_head w + 1) mod MAX_ACCEPT))]> vs)).
Proof.
  intros T Hw Lw Hne. pose proof T as [Tl Tq Tc Ts T4]. destruct (Tq l w Hw Lw) as [Q1 Q2 Q3 Q4 Q5]. destruct (queue_pop _ _ _ Q1 Hne) as [Eq Rg]. set (z := nth _ (v_q w) 0) in *.
  assert (in_queue vs l z) as (c & v & Ez & Hc & Hu & Hl & Hq) by (apply Q4; rewrite Eq; apply elem_of_cons; by left). rewrite Eq in Q3. apply NoDup_cons in Q3 as [Hnin Q3].
  destruct (Tc c v Hc Hu ltac:(lia)) as [_ Hcs]. assert (v_state v <> ST_LISTEN) as Hnl by (destruct Hcs as [E|[E|E]]; rewrite E; done). assert (c <> l) as Hcl by (intros ->; destruct Lw; congruence).
  exists c, v. split; [done|]. split; [done|]. split; [done|]. split; [done|]. eapply (table_relink vs c v _ l w); auto; cbn [v_ring v_set v_used v_state v_listener v_queued v_q v_len v_head v_backlog].
  - by eapply not_listening.
  - by eapply not_listening.
  - intros y. split.
    + intros Hy. right. split; [intros ->; apply Hnin; rewrite Ez; exact Hy|]. apply Q4. rewrite Eq. apply elem_of_cons. by right.
    + intros [[_ (_ & ? & _)]|[Hn Hy]]; [cbn in *; lia|]. apply Q4 in Hy. rewrite Eq in Hy. apply elem_of_cons in Hy as [->|Hy]; [congruence|done].
  - intros k Hk. unfold member. cbn. rewrite Hl. split; intros (_ & ? & _); lia.
  - intros k. unfold waiting. cbn [v_set v_used v_state v_listener v_queued]. destruct (Z.eqb_spec (-1) (Z.of_nat k)); [lia|]. cbn [andb]. discriminate.
  - intros _ ?. lia.
Qed.

Lemma free_not_listening v st l q : ~ listening (v_set v false st l q).
Proof. by intros [? _]. Qed.

(** A child that waits in a queue is closed. *)
Lemma table_unlink vs c v l w q len :
  table_ok vs -> vs !! c = Some v -> v_used v = true -> v_listener v = Z.of_nat l -> vs !! l = Some w ->
  queue q len (v_head w) = List.filter (fun y => negb (y =? Z.of_nat c)) (queue (v_q w) (v_len w) (v_head w)) -> ring q len (v_head w) ->
  table_ok (<[c := v_set v false ST_CLOSED (v_listener v) (v_queued v)]> (<[l := v_ring w q len (v_head w)]> vs)).
Proof.
  intros T Hc Hu Hl Hw Eq Rg. pose proof T as [Tl Tq Tc Ts T4]. destruct (Tc c v Hc Hu ltac:(lia)) as [(l' & w' & El & Hw' & Lw) Hcs]. assert (l' = l) as -> by lia. assert (w' = w) as -> by congruence.
  destruct (Tq l w Hw Lw) as [Q1 Q2 Q3 Q4 Q5]. assert (~ listening v) as Nv by (eapply not_listening; [done|]; destruct Hcs as [E|[E|E]]; by rewrite E).
  eapply (table_relink vs c v _ l w); auto using free_not_listening; cbn [v_ring v_q v_len v_head].
  - rewrite Eq. apply NoDup_ListNoDup. apply List.NoDup_filter. by apply NoDup_ListNoDup.
  - intros z. rewrite Eq, list_elem_of_In, List.filter_In, <- list_elem_of_In, Q4. destruct (Z.eqb_spec z (Z.of_nat c)); cbn [negb]; split.
    + intros [_ ?]. done.
    + intros [[_ (? & _)]|[? _]]; done.
    + intros [? _]. by right.
    + intros [[? _]|[_ ?]]; done.
  - intros k Hk. unfold member. cbn. rewrite Hl. split; intros (_ & ? & _); lia.
  - done.
  - done.
  - done.
Qed.

(** [listen]. *)
Lemma table_listen vs i v b :
  table_ok vs -> vs !! i = Some v -> v_used v = true -> v_state v = ST_CLOSED -> 1 <= b <= 4 -> table_ok (<[i := mkSlot true ST_LISTEN (v_listener v) (v_queued v) (v_q v) 0 0 b]> vs).
Proof.
  intros T Hi Hu Hst Hb. pose proof T as [Tl Tq Tc Ts T4]. pose proof (lookup_lt_Some _ _ _ Hi) as Hlt. set (v' := mkSlot _ _ _ _ _ _ _ _). pose proof (not_listening v _ Hst ltac:(done)) as Nv.
  assert (v_listener v < 0) as Hneg. { destruct (Z.lt_ge_cases (v_listener v) 0) as [|H]; [done|]. destruct (Tc i v Hi Hu H) as [_ [E|[E|E]]]; congruence. }
  assert (forall c w, vs !! c = Some w -> v_used w = true -> v_listener w <> Z.of_nat i) as Hno.
  { intros c w Hc Hw E. destruct (Tc c w Hc Hw ltac:(lia)) as [(l & x & El & Hx & Lx) _]. assert (l = i) as -> by lia. congruence. }
  assert (forall k, member k v <-> member k v') as Hm by (intros k; split; intros (_ & ? & _); cbn in *; lia).
  assert (forall k, waiting k v = false /\ waiting k v' = false) as Hw. { intros k. unfold waiting, v'. cbn [v_used v_listener v_state v_queued]. destruct (Z.eqb_spec (v_listener v) (Z.of_nat k)); [lia|]. by rewrite !andb_false_r. }
  assert (forall k, pend (<[i := v']> vs) k = pend vs k) as Hp by (intros k; pose proof (pend_insert vs k i v v' Hi) as E; destruct (Hw k) as [E1 E2]; rewrite E1, E2 in E; lia).
  pose proof (T4 i v Hi) as Hq. constructor; [by rewrite length_insert| | | |].
  - intros l x Hl Hx. destruct (decide (l = i)) as [->|Hn].
    + rewrite list_lookup_insert_eq in Hl by done. injection Hl as <-. constructor; cbn [v' v_q v_len v_head v_backlog]; [constructor; cbn; lia|done|constructor| |].
      * intros z. split; [intros H; by apply elem_of_nil in H|]. intros (c & x & -> & Hc & Hux & Hlx & _). destruct (decide (c = i)) as [->|]; [rewrite list_lookup_insert_eq in Hc by done; injection Hc as <-; cbn in Hlx; lia|]. rewrite list_lookup_insert_ne in Hc by done. by destruct (Hno c x Hc Hux).
      * rewrite Hp. unfold pend. rewrite filter_none; [cbn; lia|]. intros c x Hc. unfold waiting. destruct (v_used x) eqn:E; [|done]. destruct (Z.eqb_spec (v_listener x) (Z.of_nat i)); [by destruct (Hno c x Hc E)|done].
    + rewrite list_lookup_insert_ne in Hl by done. destruct (Tq l x Hl Hx) as [Q1 Q2 Q3 Q4 Q5]. constructor; auto; [|by rewrite Hp]. intros z. rewrite Q4. by apply (in_queue_insert vs i v v' l z Hi).
  - intros c x Hc Hux Hlx. destruct (decide (c = i)) as [->|Hn]; [rewrite list_lookup_insert_eq in Hc by done; injection Hc as <-; cbn in Hlx; lia|]. rewrite list_lookup_insert_ne in Hc by done. destruct (Tc c x Hc Hux Hlx) as [(l & y & El & Hy & Ly) Hcs].
    split; [|done]. exists l, y. split; [done|]. split; [|done]. rewrite list_lookup_insert_ne; [done|]. intros ->. congruence.
  - intros c x Hc Hux Hlx. destruct (decide (c = i)) as [->|Hn]; [rewrite list_lookup_insert_eq in Hc by done; injection Hc as <-; done|]. rewrite list_lookup_insert_ne in Hc by done. eauto.
  - intros c x Hc. destruct (decide (c = i)) as [->|Hn]; [rewrite list_lookup_insert_eq in Hc by done; by injection Hc as <-|]. rewrite list_lookup_insert_ne in Hc by done. eauto.
Qed.

(** A listening socket is closed, with the children it still has. *)
Definition orphan (z : Z) (v : slot) : slot := if v_used v && (v_listener v =? z) then v_set v false ST_CLOSED (v_listener v) (v_queued v) else v.

Lemma orphan_used z v : v_used (orphan z v) = true -> orphan z v = v /\ v_used v = true /\ v_listener v <> z.
Proof. unfold orphan. destruct (v_used v) eqn:Eu; cbn [andb]; [|intros H; congruence]. destruct (Z.eqb_spec (v_listener v) z); [done|]. done. Qed.

Lemma table_close_listener vs i v :
  table_ok vs -> vs !! i = Some v -> listening v -> table_ok (<[i := v_set (orphan (Z.of_nat i) v) false (v_state (orphan (Z.of_nat i) v)) (v_listener (orphan (Z.of_nat i) v)) (v_queued (orphan (Z.of_nat i) v))]> (map (orphan (Z.of_nat i)) vs)).
Proof.
  intros T Hi Lv. pose proof T as [Tl Tq Tc Ts T4]. pose proof (lookup_lt_Some _ _ _ Hi) as Hlt. set (v' := v_set _ _ _ _ _). set (vs' := <[i := v']> _).
  assert (length (map (orphan (Z.of_nat i)) vs) = length vs) as Lm by apply length_map.
  assert (vs' !! i = Some v') as Li by (apply list_lookup_insert_eq; by rewrite Lm).
  assert (forall c w', vs' !! c = Some w' -> v_used w' = true -> vs !! c = Some w' /\ c <> i /\ v_listener w' <> Z.of_nat i) as Lu.
  { intros c w' Hc Hu. destruct (decide (c = i)) as [->|Hn]; [assert (w' = v') as -> by congruence; done|]. unfold vs' in Hc. rewrite list_lookup_insert_ne, list_lookup_fmap in Hc by done. destruct (vs !! c) as [w|] eqn:Ew; [|done]. injection Hc as <-. destruct (orphan_used _ _ Hu) as (-> & _ & ?). done. }
  assert (forall c w, vs !! c = Some w -> v_used w = true -> c <> i -> v_listener w <> Z.of_nat i -> vs' !! c = Some w) as Lb.
  { intros c w Hc Hu Hn Hl. unfold vs'. rewrite list_lookup_insert_ne, list_lookup_fmap, Hc by done. cbn. f_equal. unfold orphan. rewrite Hu. destruct (Z.eqb_spec (v_listener w) (Z.of_nat i)); done. }
  constructor.
  - unfold vs'. by rewrite length_insert, Lm.
  - intros l w Hl [Hu Hst]. destruct (Lu l w Hl Hu) as (Hl0 & Hn & Hln). destruct (Tq l w Hl0 (conj Hu Hst)) as [Q1 Q2 Q3 Q4 Q5]. constructor; auto.
    + intros z. rewrite Q4. split; intros (c & x & -> & Hc & Hux & Hlx & Hqx); exists c, x; (split; [done|]); split; try done.
      * apply Lb; auto; [|rewrite Hlx; lia]. intros ->. assert (x = v) as -> by congruence. pose proof (listening_no_child vs i v T Hi Lv). lia.
      * by apply Lu.
    + enough (pend vs' l <= pend vs l)%nat by lia. assert (pend (map (orphan (Z.of_nat i)) vs) l <= pend vs l)%nat as H1. { apply filter_map_le. intros x. unfold waiting. intros H. rewrite !andb_true_iff in H. destruct H as [[H1 H2] H3]. destruct (orphan_used _ _ H1) as (E & _ & _). by rewrite E, H1, H2, H3 in *. }
      pose proof (pend_insert (map (orphan (Z.of_nat i)) vs) l i (orphan (Z.of_nat i) v) v' ltac:(rewrite list_lookup_fmap, Hi; done)) as E. change (waiting l v') with false in E. fold vs' in E. destruct (waiting l (orphan _ v)); cbn iota in E; lia.
  - intros c w Hc Hu Hl. destruct (Lu c w Hc Hu) as (Hc0 & Hn & Hln). destruct (Tc c w Hc0 Hu Hl) as [(l & x & El & Hx & Lx) Hcs]. split; [|done]. exists l, x. split; [done|]. split; [|done]. apply Lb; [done|apply Lx|intros ->; congruence|]. pose proof (listening_no_child vs l x T Hx Lx). lia.
  - intros c w Hc Hu Hst. destruct (Lu c w Hc Hu) as (Hc0 & _). eauto.
  - assert (forall w, v_q (orphan (Z.of_nat i) w) = v_q w) as Eo by (intros w; unfold orphan; by destruct (_ && _)). intros c w Hc. destruct (decide (c = i)) as [->|Hn]; [assert (w = v') as -> by congruence; unfold v'; cbn [v_set v_q]; rewrite Eo; eauto|].
    unfold vs' in Hc. rewrite list_lookup_insert_ne, list_lookup_fmap in Hc by done. destruct (vs !! c) as [x|] eqn:Ex; [|done]. injection Hc as <-. rewrite Eo. eauto.
Qed.
