(* ===== verification/TcpAccept.v ===== *)
(** Every call and every frame keeps the table of sockets in order. *)
From S2P Require Import Prelude Tcp TcpRing TcpQueue.
Local Open Scope vnu_scope.

Definition net_ok (n : Net) : Prop := table_ok (table n).

(** What a frame does not change of a socket in use. *)
Definition ext (n n' : Net) : Prop := forall j, used (sock_at n j) = true ->
  used (sock_at n' j) = true /\ listener (sock_at n' j) = listener (sock_at n j) /\ (state (sock_at n' j) = ST_LISTEN <-> state (sock_at n j) = ST_LISTEN).

Lemma ext_refl n : ext n n.
Proof. done. Qed.

Lemma ext_trans n1 n2 n3 : ext n1 n2 -> ext n2 n3 -> ext n1 n3.
Proof. intros H1 H2 j Hj. destruct (H1 j Hj) as (U1 & L1 & S1). destruct (H2 j U1) as (U2 & L2 & S2). split; [done|]. split; [congruence|tauto]. Qed.

Definition keeps_from {A} (n : Net) (m : M A) : Prop := net_ok n -> forall a n', m n = Done (a, n') -> net_ok n' /\ ext n n'.
Definition keeps {A} (m : M A) : Prop := forall n, keeps_from n m.

Lemma from_bind {A B} n (m : M A) (k : A -> M B) : keeps_from n m -> (forall a, keeps (k a)) -> keeps_from n (bind m k).
Proof.
  intros H1 H2 Hn b n' E. unfold bind in E. destruct (m n) as [[a n1]| |] eqn:Em; cbn [obind] in E; try done. destruct (H1 Hn a n1 Em) as [N1 X1]. destruct (H2 a n1 N1 b n' E) as [N2 X2]. split; [done|]. by eapply ext_trans.
Qed.

Lemma keeps_bind {A B} (m : M A) (k : A -> M B) : keeps m -> (forall a, keeps (k a)) -> keeps (bind m k).
Proof. intros H1 H2 n. by apply from_bind. Qed.

Lemma from_gets {A B} n (g : Net -> A) (k : A -> M B) : keeps_from n (k (g n)) -> keeps_from n (bind (gets g) k).
Proof. intros H. exact H. Qed.

Lemma keeps_ret {A} (a : A) : keeps (ret a).
Proof. intros n Hn b n' E. injection E as <- <-. by split. Qed.

Lemma keeps_gets {A} (g : Net -> A) : keeps (gets g).
Proof. intros n Hn b n' E. injection E as <- <-. by split. Qed.

Lemma keeps_trap {A} : keeps (trap : M A).
Proof. intros n Hn b n' E. done. Qed.

Lemma keeps_nofuel {A} : keeps (nofuel : M A).
Proof. intros n Hn b n' E. done. Qed.

Lemma keeps_when b m : keeps m -> keeps (when b m).
Proof. intros H. destruct b; [done|apply keeps_ret]. Qed.

Lemma keeps_sk i : keeps (sk i).
Proof. apply keeps_gets. Qed.

(** A change outside the table. *)
Lemma keeps_modify f : (forall n, socks (f n) = socks n) -> keeps (modify f).
Proof.
  intros H n Hn b n' E. injection E as <- <-. split; [unfold net_ok, table; by rewrite H|]. intros j Hj. unfold sock_at in *. by rewrite H.
Qed.

Lemma keeps_now clock : keeps (now_ms clock).
Proof. intros n Hn b n' E. injection E as <- <-. by split. Qed.

Create HintDb tcp.
#[export] Hint Resolve keeps_ret keeps_gets keeps_trap keeps_nofuel keeps_sk keeps_now : tcp.

(** ** Changes of one socket *)

Lemma table_at n i : (i < length (socks n))%nat -> table n !! i = Some (view (sock_at n i)).
Proof. intros Hi. unfold table, sock_at. rewrite list_lookup_fmap. destruct (lookup_lt_is_Some_2 (socks n) i Hi) as [s Hs]. rewrite Hs. cbn. f_equal. by rewrite (nth_lookup_Some _ _ _ _ Hs). Qed.

Lemma table_set n i s : table (set_socks (<[i := s]> (socks n)) n) = <[i := view s]> (table n).
Proof. unfold table. cbn [set_socks socks]. apply list_fmap_insert. Qed.

Lemma sock_at_set n i s j : sock_at (set_socks (<[i := s]> (socks n)) n) j = if decide (j = i /\ (i < length (socks n))%nat) then s else sock_at n j.
Proof.
  unfold sock_at. cbn [set_socks socks]. rewrite !nth_lookup. destruct (decide _) as [[-> Hi]|Hn]; [by rewrite list_lookup_insert_eq|]. destruct (decide (j = i)) as [->|Hj]; [rewrite list_insert_ge; [done|lia]|by rewrite list_lookup_insert_ne].
Qed.

(** The result of [upd]. *)
Lemma upd_from n i f : (net_ok n -> (i < length (socks n))%nat -> table_ok (<[i := view (f (sock_at n i))]> (table n)) /\
    (used (sock_at n i) = true -> let s := f (sock_at n i) in used s = true /\ listener s = listener (sock_at n i) /\ (state s = ST_LISTEN <-> state (sock_at n i) = ST_LISTEN))) -> keeps_from n (upd i f).
Proof.
  intros H Hn b n' E. injection E as <- <-. destruct (decide (i < length (socks n))%nat) as [Hi|Hi].
  - destruct (H Hn Hi) as [T X]. split; [unfold net_ok; by rewrite table_set|]. intros j Hj. rewrite sock_at_set. destruct (decide _) as [[-> _]|_]; [by apply X|done].
  - rewrite list_insert_ge by lia. by split.
Qed.

Lemma keeps_upd i f : (forall s, view (f s) = view s) -> keeps (upd i f).
Proof.
  intros H n. apply upd_from. intros Hn Hi. rewrite H. rewrite list_insert_id by (by apply table_at). split; [done|]. intros Hu. cbv zeta. specialize (H (sock_at n i)). injection H as H1 H2 H3 _ _ _ _ _. rewrite H1, H2, H3. done.
Qed.

(** A change of state. *)
Lemma upd_state_from n i f st' : let s := sock_at n i in view (f s) = v_set (view s) (used s) st' (listener s) (queued s) ->
  (used s = true -> st' = state s \/ (state s <> ST_LISTEN /\ st' <> ST_LISTEN /\ (st' = ST_SYN_RCVD -> state s = ST_SYN_RCVD) /\ (0 <= listener s -> child_state (state s) -> child_state st'))) -> keeps_from n (upd i f).
Proof.
  intros s Ev Hst. apply upd_from. intros Hn Hi. fold s. pose proof (table_at n i Hi) as Ht. fold s in Ht.
  assert (used (f s) = used s /\ state (f s) = st' /\ listener (f s) = listener s) as (Eu & Es & El) by (by injection Ev as -> -> -> _ _ _ _ _).
  destruct (used s) eqn:Hu.
  - destruct (Hst eq_refl) as [->|(N1 & N2 & Hsyn & Hch)].
    + rewrite Ev. replace (v_set (view s) true (state s) (listener s) (queued s)) with (view s) by (unfold view, v_set; cbn; by rewrite Hu). rewrite list_insert_id by done. split; [done|]. intros _. cbv zeta. rewrite Eu, Es, El. done.
    + split; [|intros _; cbv zeta; rewrite Eu, Es, El; tauto]. rewrite Ev. eapply table_update; eauto.
      * by apply (not_listening _ (state s)).
      * by apply (not_listening _ st').
      * intros l. unfold member. cbn. by rewrite Hu.
      * intros l w _ _. unfold waiting. cbn [v_set view v_used v_listener v_state v_queued]. rewrite Hu. intros H. left. rewrite !andb_true_iff in *. destruct H as [H1 H2]. split; [done|]. unfold st_is in *. rewrite orb_true_iff, !bool_decide_eq_true in *. tauto.
      * cbn. intros _ Hl. destruct (tk_child _ Hn i (view s) Ht Hu Hl) as [O1 O2]. split; [done|]. by apply Hch.
      * cbn. intros _ E. apply (tk_syn _ Hn i (view s) Ht Hu). by apply Hsyn.
      * cbn. apply (tk_q _ Hn i (view s) Ht).
  - split; [|done]. rewrite Ev. eapply table_update; eauto; cbn; try done.
    + intros [H _]. cbn in H. congruence.
    + apply free_not_listening.
    + intros l. unfold member. cbn. rewrite Hu. split; intros (? & _); done.
    + apply (tk_q _ Hn i (view s) Ht).
Qed.

Ltac keep := cbv zeta; repeat first [progress intros | match goal with
  | |- keeps (bind _ _) => apply keeps_bind
  | |- keeps (when _ _) => apply keeps_when
  | |- keeps (if ?b then _ else _) => destruct b
  | |- keeps (upd _ _) => apply keeps_upd; intros; reflexivity
  | |- keeps (modify _) => apply keeps_modify; intros; reflexivity
  end | solve [auto 2 with tcp]].

(** ** Two sockets change *)

Lemma sock_lt n i : used (sock_at n i) = true -> (i < length (socks n))%nat.
Proof. intros H. destruct (decide (i < length (socks n))%nat) as [|Hn]; [done|]. unfold sock_at in H. by rewrite nth_overflow in H by lia. Qed.

(** The listener of a child. *)
Lemma child_listener n i : net_ok n -> used (sock_at n i) = true -> 0 <= listener (sock_at n i) ->
  exists l, listener (sock_at n i) = Z.of_nat l /\ (l < length (socks n))%nat /\ l <> i /\ used (sock_at n l) = true /\ state (sock_at n l) = ST_LISTEN /\ child_state (state (sock_at n i)).
Proof.
  intros Hn Hu Hl. pose proof (sock_lt n i Hu) as Hi. destruct (tk_child _ Hn i _ (table_at n i Hi) Hu Hl) as [(l & v & El & Hv & Lv) Hcs]. exists l. split; [done|].
  assert (l < length (socks n))%nat as Hlt by (apply lookup_lt_Some in Hv; unfold table in Hv; by rewrite length_fmap in Hv). rewrite (table_at n l Hlt) in Hv. injection Hv as <-. destruct Lv as [L1 L2]. cbn in L1, L2, Hcs. split; [done|].
  split; [intros ->; destruct Hcs as [E|[E|E]]; congruence|]. done.
Qed.

Lemma pending_pend n l : length (socks n) = MAX_SOCKS -> listener_pending n l = Z.of_nat (pend (table n) l).
Proof.
  intros Hl. unfold listener_pending, pend, table. f_equal. assert (socks n = map (sock_at n) (seq 0 MAX_SOCKS)) as E.
  { apply list_eq. intros j. rewrite list_lookup_fmap. destruct (decide (j < MAX_SOCKS)%nat) as [Hj|Hj].
    - rewrite lookup_seq_lt by done. cbn. destruct (lookup_lt_is_Some_2 (socks n) j ltac:(lia)) as [s Hs]. rewrite Hs. unfold sock_at. by rewrite (nth_lookup_Some _ _ _ _ Hs).
    - rewrite lookup_ge_None_2 by lia. by rewrite lookup_seq_ge by lia. }
  rewrite E. generalize (seq 0 MAX_SOCKS). intros js. induction js as [|j js IH]; cbn; [done|]. unfold waiting at 1. cbn [view v_used v_listener v_state v_queued]. destruct (_ && _); cbn; congruence.
Qed.

(** Writing to a child and its listener. *)
Lemma table_two n c l s s0 w : c <> l -> table (set_socks (<[c := s]> (<[l := w]> (<[c := s0]> (socks n)))) n) = <[c := view s]> (<[l := view w]> (table n)).
Proof. intros H. unfold table. cbn [set_socks socks]. rewrite !list_fmap_insert. rewrite (list_insert_insert_ne _ l c) by done. by rewrite list_insert_insert_eq. Qed.

Lemma upd_at n i f : upd i f n = Done (tt, set_socks (<[i := f (sock_at n i)]> (socks n)) n).
Proof. done. Qed.

(** ** Segments *)

Section Segments.
Context (our_ip : Z) (g_mac : list Z) (clock : nat -> Z) (loopback : Z -> Z -> M unit) (Hloop : forall ip len, keeps (loopback ip len)).

Lemma keeps_send_seg s seq ackno flags opt pay : keeps (tcp_send_seg our_ip g_mac loopback s seq ackno flags opt pay).
Proof. unfold tcp_send_seg, emit. keep. Qed.
Hint Resolve keeps_send_seg : tcp.

Lemma keeps_push_loop fuel i window : forall inflight unsent, keeps (push_loop our_ip g_mac clock loopback fuel i window inflight unsent).
Proof. induction fuel as [|fuel IH]; intros inflight unsent; cbn [push_loop]; keep. Qed.
Hint Resolve keeps_push_loop : tcp.

Lemma keeps_push i : keeps (tcp_push our_ip g_mac clock loopback i).
Proof. unfold tcp_push. keep. Qed.
Hint Resolve keeps_push : tcp.

Lemma keeps_send_ack i : keeps (tcp_send_ack our_ip g_mac loopback i).
Proof. unfold tcp_send_ack. keep. Qed.
Hint Resolve keeps_send_ack : tcp.

Lemma keeps_send_fin i : keeps (tcp_send_fin our_ip g_mac clock loopback i).
Proof. unfold tcp_send_fin. keep. Qed.
Hint Resolve keeps_send_fin : tcp.

Lemma keeps_send_syn_ack i : keeps (send_syn_ack our_ip g_mac loopback i).
Proof. unfold send_syn_ack. keep. Qed.
Hint Resolve keeps_send_syn_ack : tcp.

Lemma keeps_retransmit i now : keeps (tcp_retransmit our_ip g_mac clock loopback i now).
Proof. unfold tcp_retransmit. keep. Qed.

Lemma keeps_acknowledge i ackno window : keeps (acknowledge our_ip g_mac clock loopback i ackno window).
Proof. unfold acknowledge. keep. Qed.
Hint Resolve keeps_acknowledge : tcp.

Lemma keeps_reset rip mac dport sport seq : keeps (send_reset our_ip g_mac loopback rip mac dport sport seq).
Proof. unfold send_reset. keep. Qed.
Hint Resolve keeps_reset : tcp.

Lemma keeps_frame src : keeps (frame src).
Proof. destruct src; unfold frame; keep. Qed.
Hint Resolve keeps_frame : tcp.

Lemma keeps_fin_state i : keeps (upd i (fun s => set_state (match state s with ST_ESTABLISHED => ST_CLOSE_WAIT | ST_FIN_WAIT2 => ST_CLOSED | st => st end) (set_fin_rcvd true s))).
Proof.
  intros n. eapply upd_state_from; [reflexivity|]. intros Hu. destruct (state (sock_at n i)) eqn:E; try (by left); right; (split; [done|]); (split; [done|]); (split; [done|]); unfold child_state; intros _ [?|[?|?]]; try done. auto.
Qed.

Lemma keeps_fin_wait i : keeps (upd i (fun s => if st_is (state s) ST_FIN_WAIT1 && fin_acked s then set_state ST_FIN_WAIT2 s else s)).
Proof.
  intros n. destruct (st_is (state (sock_at n i)) ST_FIN_WAIT1 && fin_acked (sock_at n i)) eqn:E.
  - apply andb_true_iff in E as [E1 E2]. apply bool_decide_eq_true in E1. apply (upd_state_from n i _ ST_FIN_WAIT2); [by rewrite E1, E2|]. intros _. right. rewrite E1. split; [done|]. split; [done|]. split; [done|]. unfold child_state. intros _ [?|[?|?]]; done.
  - apply (upd_state_from n i _ (state (sock_at n i))); [by rewrite E|]. intros _. by left.
Qed.
Hint Resolve keeps_fin_state keeps_fin_wait : tcp.

Lemma keeps_take_in i src hdr paylen seq flags : keeps (take_in our_ip g_mac loopback i src hdr paylen seq flags).
Proof.
  unfold take_in. apply keeps_bind; [keep|]. intros s. cbv zeta.
  assert (forall b, keeps (bind (sk i) (fun s => bind (when (has flags FLAG_FIN && negb (fin_rcvd s)) (upd i (fun s => set_state (match state s with ST_ESTABLISHED => ST_CLOSE_WAIT | ST_FIN_WAIT2 => ST_CLOSED | st => st end) (set_fin_rcvd true s))))
    (fun _ => when (b || (has flags FLAG_FIN && negb (fin_rcvd s))) (tcp_send_ack our_ip g_mac loopback i))))) as Hfin by keep.
  repeat match goal with |- keeps (if ?b then _ else _) => destruct b end; auto with tcp. apply keeps_bind; [apply keeps_frame|]. intros f. match goal with |- keeps (if ?b then _ else _) => destruct b end; [apply keeps_trap|]. apply keeps_bind; [by apply keeps_upd|]. intros _. apply Hfin.
Qed.
Hint Resolve keeps_take_in : tcp.

Lemma keeps_connection_input i src hdr paylen seq ackno flags window : keeps (connection_input our_ip g_mac clock loopback i src hdr paylen seq ackno flags window).
Proof. unfold connection_input. keep. Qed.
Hint Resolve keeps_connection_input : tcp.

(** The SYN-ACK for a socket that connects. *)
Lemma from_syn_ack n i seq ackno f hdr window : state (sock_at n i) = ST_SYN_SENT -> keeps_from n (handle_syn_ack our_ip g_mac loopback i seq ackno f hdr window).
Proof.
  intros Hs. unfold handle_syn_ack. apply from_gets. destruct (negb _); [apply keeps_ret|]. apply from_bind; [|keep]. apply (upd_state_from n i _ ST_ESTABLISHED); [reflexivity|]. intros _. right. rewrite Hs. split; [done|]. split; [done|]. split; [done|].
  unfold child_state. auto.
Qed.

Lemma from_complete_handshake n i window : used (sock_at n i) = true -> state (sock_at n i) = ST_SYN_RCVD -> keeps_from n (complete_handshake i window).
Proof.
  intros Hu Hs Hn a n' E. set (s := sock_at n i) in *. set (f := fun s => set_state ST_ESTABLISHED (set_rto_active false (set_snd_wnd window (set_snd_nxt (u32 (iss s + 1)) (set_snd_una (u32 (iss s + 1)) s))))).
  pose proof (sock_lt n i Hu) as Hi. change (complete_handshake i window n) with (bind (upd i f) (fun _ => bind (sk i) (fun s => when (0 <=? listener s) (accept_push (Z.to_nat (listener s)) i))) n) in E.
  set (n1 := set_socks (<[i := f s]> (socks n)) n). assert (sock_at n1 i = f s) as E1 by (unfold n1; rewrite sock_at_set; destruct (decide _); [done|naive_solver]).
  assert (keeps_from n (upd i f)) as K1 by (apply (upd_state_from n i _ ST_ESTABLISHED); [reflexivity|]; intros _; right; fold s; rewrite Hs; unfold child_state; split; [done|]; split; [done|]; split; [done|]; auto).
  unfold bind at 1 in E. rewrite upd_at in E. cbn [obind] in E. fold s n1 in E. unfold bind at 1, sk, gets in E. cbn [obind] in E. rewrite E1 in E. change (listener (f s)) with (listener s) in E. destruct (Z.leb_spec 0 (listener s)) as [Hl|Hl]; cbn [when] in E; [|injection E as <- <-; by apply (K1 Hn tt)].
  destruct (child_listener n i Hn Hu Hl) as (l & El & Hll & Hne & Lu & Ls & _). fold s in El. rewrite El, Nat2Z.id in E. unfold accept_push, bind in E. rewrite upd_at in E. cbn [obind] in E. rewrite upd_at in E. injection E as <- <-.
  assert (sock_at n1 l = sock_at n l) as E2 by (unfold n1; rewrite sock_at_set; destruct (decide _) as [[? _]|]; done). rewrite E2. set (w := sock_at n l) in *. set (w' := set_accept_q_len _ _). set (n2 := set_socks (<[l := w']> (<[i := f s]> (socks n))) n1).
  assert (sock_at n2 i = f s) as E3 by (change n2 with (set_socks (<[l := w']> (socks n1)) n1); rewrite sock_at_set; destruct (decide _) as [[? _]|]; congruence). rewrite E3. set (s' := set_queued true (f s)).
  destruct (table_enqueue (table n) i (view s) l (view w) Hn (table_at n i Hi) Hu Hs El (table_at n l Hll)) as [_ T]. split.
  - unfold net_ok. change (table _) with (table (set_socks (<[i := s']> (<[l := w']> (<[i := f s]> (socks n)))) n)). rewrite table_two by done.
    replace (view s') with (v_set (view s) true ST_ESTABLISHED (v_listener (view s)) true) by (unfold s', f, v_set, view; cbn; by rewrite Hu). exact T.
  - intros j Hj. change (set_socks _ n2) with (set_socks (<[i := s']> (socks n2)) n2). rewrite sock_at_set. destruct (decide _) as [[-> _]|_]; [fold s; cbn; rewrite Hs; done|]. change n2 with (set_socks (<[l := w']> (socks n1)) n1). rewrite sock_at_set. destruct (decide _) as [[-> _]|_]; [fold w; done|]. unfold n1. rewrite sock_at_set. destruct (decide _) as [[-> _]|_]; [fold s; cbn; rewrite Hs; done|done].
Qed.

Lemma find_free_spec n c : find_free n = Some c -> used (sock_at n c) = false.
Proof. intros H. unfold find_free in H. assert (forall m j, first_from (fun i => negb (used (sock_at n i))) j m = Some c -> used (sock_at n c) = false) as Hs; [|by eapply Hs].
  induction m as [|m IH]; intros j; cbn [first_from]; [done|]. destruct (used (sock_at n j)) eqn:E; cbn [negb]; [apply IH|by intros [= <-]].
Qed.

Lemma find_listener_spec n p l : find_listener n p = Some l -> used (sock_at n l) = true /\ state (sock_at n l) = ST_LISTEN.
Proof.
  intros H. unfold find_listener in H. assert (forall m j, first_from (fun i => let s := sock_at n i in used s && st_is (state s) ST_LISTEN && (lport s =? p)) j m = Some l -> used (sock_at n l) = true /\ state (sock_at n l) = ST_LISTEN) as Hs; [|by eapply Hs].
  induction m as [|m IH]; intros j; cbn [first_from]; [done|]. cbv zeta. destruct (_ && _ && _) eqn:E; [|apply IH]. intros [= <-]. rewrite !andb_true_iff in E. destruct E as [[E1 E2] _]. by apply bool_decide_eq_true in E2.
Qed.

Lemma find_peer_spec n a b c i : find_peer_sock n a b c = Some i -> used (sock_at n i) = true.
Proof.
  intros H. unfold find_peer_sock in H. assert (forall m j, first_from (fun i => let s := sock_at n i in used s && (rip s =? a) && (rport s =? b) && (lport s =? c)) j m = Some i -> used (sock_at n i) = true) as Hs; [|by eapply Hs].
  induction m as [|m IH]; intros j; cbn [first_from]; [done|]. cbv zeta. destruct (_ && _ && _ && _) eqn:E; [|apply IH]. intros [= <-]. rewrite !andb_true_iff in E. tauto.
Qed.

Lemma view_child l src_ip src_mac sport dport seq window mss now : view (child_of l src_ip src_mac sport dport seq window mss now) = mkSlot true ST_SYN_RCVD (Z.of_nat l) false (replicate 4 0) 0 0 0.
Proof. reflexivity. Qed.

(** A new child of a listener that has room. *)
Lemma from_child n c l src_ip src_mac sport dport seq window mss now :
  used (sock_at n c) = false -> used (sock_at n l) = true -> state (sock_at n l) = ST_LISTEN -> listener_pending n l < backlog (sock_at n l) -> keeps_from n (upd c (fun _ => child_of l src_ip src_mac sport dport seq window mss now)).
Proof.
  intros Hc Hl Hs Hp. apply upd_from. intros Hn Hi. rewrite view_child. split; [|intros H; rewrite Hc in H; discriminate]. pose proof (sock_lt n l Hl) as Hll. rewrite pending_pend in Hp by (rewrite <- (tk_len _ Hn); symmetry; apply length_fmap).
  apply (table_update _ c (view (sock_at n c))); [done|by apply table_at| | | | | | |reflexivity].
  - intros [H _]. cbn in H. congruence.
  - by apply (not_listening _ ST_SYN_RCVD).
  - intros k. unfold member. cbn. rewrite Hc. split; intros (? & _ & ?); done.
  - intros k w Hk Lw Hw. right. unfold waiting in Hw. rewrite !andb_true_iff in Hw. destruct Hw as [[_ Hw%Z.eqb_eq] _]. cbn in Hw. assert (k = l) as -> by lia. rewrite (table_at n l Hll) in Hk. injection Hk as <-. exact Hp.
  - intros _ _. cbn. split; [|by left]. exists l, (view (sock_at n l)). split; [done|]. split; [by apply table_at|by split].
  - done.
Qed.

Lemma from_incoming_syn n src_ip src_mac sport dport seq window f hdr : keeps_from n (handle_incoming_syn our_ip g_mac clock loopback src_ip src_mac sport dport seq window f hdr).
Proof.
  unfold handle_incoming_syn. apply from_gets. cbv zeta. match goal with |- keeps_from n (match ?r with _ => _ end) => destruct r end; [by apply keeps_send_syn_ack|]. destruct (find_listener n dport) as [l|] eqn:El; [|by apply keeps_reset].
  destruct (Z.leb_spec (backlog (sock_at n l)) (listener_pending n l)) as [|Hp]; [apply keeps_ret|]. destruct (find_free n) as [c|] eqn:Ec; [|apply keeps_ret]. destruct (find_listener_spec n _ _ El) as [Hu Hs]. pose proof (find_free_spec n c Ec) as Hc.
  intros Hn a n' E. unfold bind at 1 in E. unfold now_ms in E. cbn [obind] in E. set (n1 := set_ticks _ n) in E.
  assert (keeps_from n1 (bind (upd c (fun _ => child_of l src_ip src_mac sport dport seq window (parse_mss_opt f hdr) (clock (ticks n)))) (fun _ => send_syn_ack our_ip g_mac loopback c))) as K; [|exact (K Hn a n' E)].
  apply from_bind; [by apply from_child|]. intros _. by apply keeps_send_syn_ack.
Qed.

Lemma keeps_segment_input src_ip src f hdr sport dport seq ackno flags window paylen : keeps (segment_input our_ip g_mac clock loopback src_ip src f hdr sport dport seq ackno flags window paylen).
Proof.
  intros n. unfold segment_input. apply from_gets. cbv zeta. destruct (find_peer_sock n src_ip sport dport) as [i|] eqn:Ep.
  - destruct (has flags FLAG_SYN).
    + destruct (st_is (state (sock_at n i)) ST_SYN_SENT) eqn:Es; [apply bool_decide_eq_true in Es; destruct (has flags FLAG_ACK); cbn [when]; [by apply from_syn_ack|apply keeps_ret]|]. destruct (has flags FLAG_ACK); [by apply keeps_reset|apply from_incoming_syn].
    + destruct (has flags FLAG_RST); [by apply keeps_upd|]. destruct (st_is (state (sock_at n i)) ST_SYN_SENT); [apply keeps_ret|]. destruct (st_is (state (sock_at n i)) ST_SYN_RCVD) eqn:Es; [|by apply keeps_connection_input].
      apply bool_decide_eq_true in Es. destruct (_ || _); [apply keeps_ret|]. apply from_bind; [|intros _; by apply keeps_connection_input]. apply from_complete_handshake; [by eapply find_peer_spec|done].
  - destruct (has flags FLAG_SYN); [|apply keeps_ret]. destruct (has flags FLAG_ACK); [by apply keeps_reset|apply from_incoming_syn].
Qed.

Lemma keeps_input_body src_ip src ip_len : keeps (input_body our_ip g_mac clock loopback src_ip src ip_len).
Proof.
  unfold input_body. destruct (_ <? _); [apply keeps_ret|]. apply keeps_bind; [apply keeps_frame|]. intros f. cbv zeta. destruct (_ <? _); [apply keeps_ret|]. apply keeps_segment_input.
Qed.
End Segments.

Section Calls.
Context (our_ip : Z) (g_mac : list Z) (clock : nat -> Z).

Lemma keeps_input_packet fuel : forall src_ip src ip_len, keeps (input_packet our_ip g_mac clock fuel src_ip src ip_len).
Proof. induction fuel as [|fuel IH]; intros src_ip src ip_len; cbn [input_packet]; apply keeps_input_body; intros ip len; [apply keeps_nofuel|apply IH]. Qed.

Lemma keeps_loop_in fuel ip len : keeps (loop_in our_ip g_mac clock fuel ip len).
Proof. destruct fuel; cbn [loop_in]; [apply keeps_nofuel|apply keeps_input_packet]. Qed.
Hint Resolve keeps_input_packet keeps_loop_in keeps_send_seg keeps_push keeps_send_ack keeps_send_fin keeps_retransmit : tcp.

Lemma keeps_arp op dst mac target : keeps (emit (arp_frame our_ip g_mac op dst mac target)).
Proof. unfold emit. by apply keeps_modify. Qed.
Hint Resolve keeps_arp : tcp.

Lemma keeps_handle_frame fuel fr : keeps (handle_frame our_ip g_mac clock fuel fr).
Proof. destruct fr as [f len]. unfold handle_frame, send_arp_reply. keep. Qed.

Lemma keeps_rx_drain fuel frs : keeps (rx_drain our_ip g_mac clock fuel frs).
Proof. induction frs as [|fr frs IH]; cbn [rx_drain]; [apply keeps_ret|]. apply keeps_bind; [apply keeps_handle_frame|by intros _]. Qed.
Hint Resolve keeps_rx_drain : tcp.

(** ** The calls *)

Definition okay_from {A} (n : Net) (m : M A) : Prop := net_ok n -> forall a n', m n = Done (a, n') -> net_ok n'.

Lemma keeps_okay {A} n (m : M A) : keeps_from n m -> okay_from n m.
Proof. intros K Hn a n' E. by apply (K Hn a n'). Qed.

Lemma okay_bind {A B} n (m : M A) (k : A -> M B) : keeps_from n m -> (forall a n1, ext n n1 -> okay_from n1 (k a)) -> okay_from n (bind m k).
Proof.
  intros H1 H2 Hn b n' E. unfold bind in E. destruct (m n) as [[a n1]| |] eqn:Em; cbn [obind] in E; try done. destruct (H1 Hn a n1 Em) as [N1 X1]. by apply (H2 a n1 X1 N1 b n').
Qed.

(** After a change the table is in order. *)
Lemma okay_upd {B} n i f (k : unit -> M B) : (net_ok n -> (i < length (socks n))%nat -> table_ok (<[i := view (f (sock_at n i))]> (table n))) -> (forall a, keeps (k a)) -> okay_from n (bind (upd i f) k).
Proof.
  intros H K Hn b n' E. unfold bind in E. rewrite upd_at in E. cbn [obind] in E. refine (proj1 (K tt _ _ b n' E)). destruct (decide (i < length (socks n))%nat) as [Hi|Hi]; [unfold net_ok; rewrite table_set; by apply H|]. by rewrite list_insert_ge by lia.
Qed.

Lemma okay_gets {A B} n (g : Net -> A) (k : A -> M B) : okay_from n (k (g n)) -> okay_from n (bind (gets g) k).
Proof. intros H. exact H. Qed.

Lemma okay_ret {A} n (a : A) : okay_from n (ret a).
Proof. apply keeps_okay, keeps_ret. Qed.

Lemma keeps_pick_port fuel i : forall port, keeps (pick_port fuel i port).
Proof. induction fuel as [|fuel IH]; intros port; cbn [pick_port]; keep. Qed.
Hint Resolve keeps_pick_port : tcp.

Lemma okay_open n family type : okay_from n (socket_open family type).
Proof.
  unfold socket_open. destruct (_ || _); [apply okay_ret|]. apply okay_gets. destruct (find_free n) as [i|] eqn:Ei; [|apply okay_ret]. pose proof (find_free_spec n i Ei) as Hu.
  apply okay_upd; [|keep]. intros Hn Hi. change (view (set_used true sock0)) with (mkSlot true ST_CLOSED (-1) false (replicate 4 0) 0 0 0). apply (table_update _ i (view (sock_at n i))); [done|by apply table_at| | | | | | |reflexivity].
  - intros [H _]. cbn in H. congruence.
  - by apply (not_listening _ ST_CLOSED).
  - intros k. unfold member. cbn. rewrite Hu. split; intros (? & _ & ?); done.
  - intros k w _ _ Hw. unfold waiting in Hw. cbn in Hw. rewrite !andb_false_r in Hw. done.
  - cbn. lia.
  - done.
Qed.

Lemma okay_bind_call n sock port : okay_from n (socket_bind sock port).
Proof. apply keeps_okay. unfold socket_bind. apply from_gets. destruct (valid_handle n sock) as [i|]; [|apply keeps_ret]. destruct (_ || _); [apply keeps_ret|]. destruct (existsb _ _); [apply keeps_ret|]. revert n. change (keeps (bind (upd i (set_lport port)) (fun _ => ret 0))). keep. Qed.

Lemma handle_used n sock i : valid_handle n sock = Some i -> used (sock_at n i) = true /\ sock = Z.of_nat i.
Proof. unfold valid_handle. destruct (Z.ltb_spec sock 0); cbn [orb]; [done|]. destruct (_ <=? _); [done|]. destruct (used _) eqn:E; [|done]. intros [= <-]. split; [done|lia]. Qed.

Lemma okay_listen n sock b : okay_from n (socket_listen sock b).
Proof.
  unfold socket_listen. apply okay_gets. destruct (valid_handle n sock) as [i|] eqn:Eh; [|apply okay_ret]. destruct (handle_used n sock i Eh) as [Hu _]. destruct (st_is (state (sock_at n i)) ST_CLOSED) eqn:Es; cbn [negb]; [|apply okay_ret]. apply bool_decide_eq_true in Es.
  cbv zeta. set (b1 := if b <? 1 then 1 else b). set (b2 := if MAX_ACCEPT <? b1 then MAX_ACCEPT else b1). assert (1 <= b2 <= 4) as Hb by (subst b2 b1; unfold MAX_ACCEPT; destruct (Z.ltb_spec b 1); [cbn; lia|]; destruct (Z.ltb_spec 4 b); lia). clearbody b2.
  apply okay_upd; [|keep]. intros Hn Hi. pose proof (table_listen (table n) i (view (sock_at n i)) b2 Hn (table_at n i Hi) Hu Es Hb) as T. cbn in T. unfold view in *. cbn. rewrite Hu. exact T.
Qed.

Section Loop.
Context (fuel : nat).
Abbreviation ip := our_ip.

Lemma keeps_send_syn i timeout : keeps (send_syn our_ip g_mac clock fuel i timeout).
Proof. unfold send_syn. keep. Qed.
Hint Resolve keeps_send_syn : tcp.

Lemma keeps_arp_ensure i peer timeout : keeps (arp_ensure our_ip g_mac clock fuel i peer timeout).
Proof. unfold arp_ensure, send_arp_request. keep. Qed.
Hint Resolve keeps_arp_ensure : tcp.

(** [connect] on a socket that is neither connected nor listening. *)
Lemma okay_connect n sock addr port timeout :
  (forall i, valid_handle n sock = Some i -> state (sock_at n i) = ST_CLOSED) -> okay_from n (socket_connect our_ip g_mac clock fuel sock addr port timeout).
Proof.
  intros Hst. unfold socket_connect. apply okay_gets. destruct (valid_handle n sock) as [i|] eqn:Eh; [|apply okay_ret]. specialize (Hst i eq_refl). cbv zeta. intros Hn a n' E. unfold bind at 1 in E. unfold now_ms at 1 in E. cbn [obind] in E. set (n1 := set_ticks _ n) in E.
  refine (proj1 (from_bind n1 _ _ _ _ Hn a n' E)); [|keep]. apply (upd_state_from n1 i _ ST_SYN_SENT); [reflexivity|]. intros _. right. change (sock_at n1 i) with (sock_at n i). rewrite Hst. split; [done|]. split; [done|]. split; [done|]. unfold child_state. intros _ [?|[?|?]]; done.
Qed.

Lemma keeps_send_loop turns : forall i todo len deadline, keeps (send_loop our_ip g_mac clock fuel turns i todo len deadline).
Proof.
  induction turns as [|turns IH]; intros i todo len deadline; destruct todo as [|b todo]; cbn [send_loop]; keep. all: match goal with |- keeps (match ?d with [] => _ | _ => _ end) => destruct d end; keep.
Qed.
Hint Resolve keeps_send_loop : tcp.

Lemma okay_send n sock buf timeout : okay_from n (socket_send our_ip g_mac clock fuel sock buf timeout).
Proof. apply keeps_okay. unfold socket_send. apply from_gets. destruct (valid_handle n sock) as [i|]; [|apply keeps_ret]. apply from_gets. destruct (negb _); [apply keeps_ret|]. destruct buf; [apply keeps_ret|]. apply from_bind; [apply keeps_now|]. keep. Qed.

Lemma okay_recv n sock len timeout : okay_from n (socket_recv clock sock len timeout).
Proof. apply keeps_okay. unfold socket_recv. apply from_gets. destruct (valid_handle n sock) as [i|]; [|apply keeps_ret]. apply from_gets. destruct (_ && _); [apply keeps_ret|]. destruct (_ =? _); [apply keeps_ret|]. apply from_bind; [apply keeps_now|]. keep. Qed.

Lemma okay_accept n sock timeout : okay_from n (socket_accept clock sock timeout).
Proof. apply keeps_okay. unfold socket_accept. apply from_gets. destruct (valid_handle n sock) as [i|]; [|apply keeps_ret]. destruct (negb _); [apply keeps_ret|]. apply from_bind; [apply keeps_now|]. keep. Qed.

(** A socket that is no child and does not listen is given up. *)
Lemma okay_free {B} n i (k : unit -> M B) : used (sock_at n i) = true -> listener (sock_at n i) < 0 -> state (sock_at n i) <> ST_LISTEN -> (forall a, keeps (k a)) -> okay_from n (bind (upd i free_slot) k).
Proof.
  intros Hu Hl Hs K. apply okay_upd; [|done]. intros Hn Hi. set (s := sock_at n i) in *. change (view (free_slot s)) with (v_set (view s) false ST_CLOSED (listener s) (queued s)). pose proof (table_at n i Hi) as Ht. fold s in Ht.
  apply (table_update _ i (view s)); auto using free_not_listening; try done.
  - by apply (not_listening _ (state s)).
  - intros k'. unfold member. cbn. split; intros (? & ? & _); lia.
  - cbn. apply (tk_q _ Hn i (view s) Ht).
Qed.

Lemma okay_close_listener n i : used (sock_at n i) = true -> state (sock_at n i) = ST_LISTEN ->
  okay_from n (bind (modify (fun n => set_socks (map (fun c => if used c && (listener c =? Z.of_nat i) then free_slot c else c) (socks n)) n)) (fun _ => bind (upd i (set_used false)) (fun _ => ret (Ret 0)))).
Proof.
  intros Hu Hs Hn a n' E. pose proof (sock_lt n i Hu) as Hi. set (f := fun c => if used c && (listener c =? Z.of_nat i) then free_slot c else c) in E. unfold bind, modify in E. cbn [obind] in E. rewrite upd_at in E. injection E as <- <-.
  assert (forall c, view (f c) = orphan (Z.of_nat i) (view c)) as Ev by (intros c; unfold f, orphan, view; cbn; by destruct (_ && _)).
  set (n1 := set_socks (map f (socks n)) n). assert (sock_at n1 i = f (sock_at n i)) as E1.
  { unfold sock_at, n1. cbn [set_socks socks]. rewrite (nth_indep _ sock0 (f sock0)) by (rewrite length_map; lia). apply map_nth. }
  rewrite E1. unfold net_ok, table. cbn [set_socks socks]. rewrite list_fmap_insert. change (view <$> map f (socks n)) with (map view (map f (socks n))). rewrite map_map. rewrite (map_ext _ _ Ev). rewrite <- (map_map view (orphan (Z.of_nat i))).
  pose proof (table_close_listener (table n) i _ Hn (table_at n i Hi) (conj Hu Hs)) as T. rewrite <- Ev in T. exact T.
Qed.

(** A child that nobody has accepted. *)
Lemma okay_close_child n i : used (sock_at n i) = true -> 0 <= listener (sock_at n i) ->
  okay_from n (bind (sk (Z.to_nat (listener (sock_at n i)))) (fun l => bind (when (queued (sock_at n i) && used l) (accept_remove (Z.to_nat (listener (sock_at n i))) (Z.of_nat i))) (fun _ => bind (upd i free_slot) (fun _ => ret (Ret 0))))).
Proof.
  intros Hu Hl Hn. destruct (child_listener n i Hn Hu Hl) as (l & El & Hll & Hne & Lu & Ls & Hcs). revert Hn. rewrite El, Nat2Z.id. pose proof (sock_lt n i Hu) as Hi. apply okay_gets. rewrite Lu, andb_true_r. set (s := sock_at n i) in *. set (w := sock_at n l) in *.
  intros Hn a n' E. pose proof (table_at n i Hi) as Ht. fold s in Ht. pose proof (table_at n l Hll) as Hw. fold w in Hw. destruct (queued s) eqn:Eq; cbn [when] in E.
  - unfold accept_remove, bind in E. rewrite upd_at in E. cbn [obind] in E. rewrite upd_at in E. cbn [obind] in E. injection E as <- <-. fold w. destruct (tk_listen _ Hn l _ Hw (conj Lu Ls)) as [Q1 _ Q3 _ _].
    destruct (queue_remove (Z.of_nat i) w Q1 Q3) as (Eo & Eq' & Rg). set (w' := remove_from _ 0 (Z.of_nat i) w) in *. set (n1 := set_socks (<[l := w']> (socks n)) n).
    assert (sock_at n1 i = s) as E1 by (unfold n1; rewrite sock_at_set; destruct (decide _) as [[? _]|]; [congruence|done]). rewrite E1. unfold net_ok, table. cbn [set_socks socks]. rewrite !list_fmap_insert.
    assert (accept_q_head w' = accept_q_head w) as Eh by (rewrite Eo; done). replace (view w') with (v_ring (view w) (accept_q w') (accept_q_len w') (v_head (view w))) by (rewrite Eo; done). unfold sock_queue in Eq'. rewrite Eh in Eq', Rg.
    pose proof (table_unlink (table n) i (view s) l (view w) (accept_q w') (accept_q_len w') Hn Ht Hu El Hw Eq' Rg) as T. exact T.
  - unfold bind at 1, ret at 1 in E. cbn [obind] in E. revert E. apply okay_upd; [|keep|done].
    intros _ _. fold s. change (view (free_slot s)) with (v_set (view s) false ST_CLOSED (listener s) (queued s)). apply (table_update _ i (view s)); auto using free_not_listening; try done.
    + apply (not_listening _ (state s)); [done|]. destruct Hcs as [->|[->| ->]]; done.
    + intros k'. unfold member. cbn. rewrite Eq. split; intros (? & _ & ?); done.
    + cbn. apply (tk_q _ Hn i (view s) Ht).
Qed.

Lemma okay_close n sock : okay_from n (socket_close clock sock).
Proof.
  unfold socket_close. apply okay_gets. destruct (valid_handle n sock) as [i|] eqn:Eh; [|apply okay_ret]. destruct (handle_used n sock i Eh) as [Hu ->]. apply okay_gets. destruct (st_is (state (sock_at n i)) ST_LISTEN) eqn:Es; [apply bool_decide_eq_true in Es; by apply okay_close_listener|].
  apply bool_decide_eq_false in Es. destruct (Z.leb_spec 0 (listener (sock_at n i))); [by apply okay_close_child|]. destruct (_ || _); [|apply okay_free; auto; keep]. apply keeps_okay. apply from_bind; [apply keeps_now|keep].
Qed.

Lemma keeps_resolving i target t0 timeout frs : keeps (poll_resolving our_ip g_mac clock fuel i target t0 timeout frs).
Proof. unfold poll_resolving. keep. Qed.

Lemma keeps_connecting i deadline frs : keeps (poll_connecting our_ip g_mac clock fuel i deadline frs).
Proof. unfold poll_connecting. keep. Qed.

Lemma keeps_sending i todo len deadline frs : keeps (poll_sending our_ip g_mac clock fuel i todo len deadline frs).
Proof. unfold poll_sending. keep. Qed.

Lemma keeps_receiving i len deadline frs : keeps (poll_receiving our_ip g_mac clock fuel i len deadline frs).
Proof. unfold poll_receiving. keep. Qed.

(** A socket in use that is no child and does not listen stays one. *)
Definition plain (n : Net) (i : nat) : Prop := used (sock_at n i) = true /\ listener (sock_at n i) < 0 /\ state (sock_at n i) <> ST_LISTEN.

Lemma plain_ext n n' i : ext n n' -> plain n i -> plain n' i.
Proof. intros X (Hu & Hl & Hs). destruct (X i Hu) as (U & L & S). split; [done|]. split; [lia|tauto]. Qed.

Lemma okay_closing n i deadline frs : plain n i -> okay_from n (poll_closing our_ip g_mac clock fuel i deadline frs).
Proof.
  intros P. unfold poll_closing. apply okay_bind; [apply keeps_now|]. intros t n1 X1. apply (plain_ext _ _ _ X1) in P. destruct (before t deadline); [|destruct P as (? & ? & ?); apply okay_free; auto; keep].
  apply okay_bind; [apply keeps_rx_drain|]. intros _ n2 X2. apply (plain_ext _ _ _ X2) in P. apply okay_bind; [apply keeps_push, keeps_loop_in|]. intros _ n3 X3. apply (plain_ext _ _ _ X3) in P. apply okay_bind; [apply keeps_sk|]. intros s n4 X4. apply (plain_ext _ _ _ X4) in P.
  apply okay_bind; [apply keeps_when, keeps_send_fin, keeps_loop_in|]. intros _ n5 X5. apply (plain_ext _ _ _ X5) in P. apply okay_bind.
  { destruct P as (Hu & Hl & Hs). destruct (st_is (state (sock_at n5 i)) ST_ESTABLISHED && fin_sent (sock_at n5 i)) eqn:E; [|apply (upd_state_from n5 i _ (state (sock_at n5 i))); [by rewrite E|]; intros _; by left].
    apply andb_true_iff in E as [E1 E2]. pose proof E1 as E3. apply bool_decide_eq_true in E3. apply (upd_state_from n5 i _ ST_FIN_WAIT1); [by rewrite E1, E2|]. intros _. right. split; [done|]. split; [done|]. split; [done|]. lia. }
  intros _ n6 X6. apply (plain_ext _ _ _ X6) in P. apply okay_bind; [apply keeps_sk|]. intros s6 n7 X7. apply (plain_ext _ _ _ X7) in P. destruct (_ || _); [destruct P as (? & ? & ?); apply okay_free; auto; keep|]. apply keeps_okay. apply from_bind; [apply keeps_now|keep].
Qed.

Lemma okay_accepting n i deadline frs : used (sock_at n i) = true -> state (sock_at n i) = ST_LISTEN -> okay_from n (poll_accepting our_ip g_mac clock fuel i deadline frs).
Proof.
  intros Hu Hs. unfold poll_accepting. apply okay_bind; [apply keeps_rx_drain|]. intros _ n1 X. destruct (X i Hu) as (Hu1 & _ & Hs1). apply Hs1 in Hs. clear n X Hu Hs1. rename n1 into n. apply okay_gets. set (w := sock_at n i) in *. destruct (Z.eqb_spec (accept_q_len w) 0) as [|Hlen]; cbn [negb].
  { apply keeps_okay. apply from_bind; [apply keeps_now|keep]. }
  cbv zeta. intros Hn a n' E. pose proof (sock_lt n i Hu1) as Hi. pose proof (table_at n i Hi) as Hw. fold w in Hw. destruct (table_dequeue (table n) i (view w) Hn Hw (conj Hu1 Hs) Hlen) as (c & v & Ec & Hc & Huc & Hci & T). cbn [view v_head v_q] in Ec. rewrite Ec, Nat2Z.id in E.
  unfold bind in E. rewrite upd_at in E. cbn [obind] in E. unfold sk, gets in E. cbn [obind] in E. rewrite upd_at in E. cbn [obind] in E. injection E as _ <-. fold w. set (w' := set_accept_q_len _ _). set (n1 := set_socks (<[i := w']> (socks n)) n).
  assert (c < length (socks n))%nat as Hlc by (apply lookup_lt_Some in Hc; unfold table in Hc; by rewrite length_fmap in Hc). rewrite (table_at n c Hlc) in Hc. injection Hc as <-.
  assert (sock_at n1 c = sock_at n c) as -> by (unfold n1; rewrite sock_at_set; destruct (decide _) as [[? _]|]; done). unfold net_ok, table. cbn [set_socks socks]. rewrite !list_fmap_insert.
  replace (view (set_queued false (set_listener (-1) (sock_at n c)))) with (v_set (view (sock_at n c)) true (v_state (view (sock_at n c))) (-1) false) by (unfold v_set, view; cbn; cbn in Huc; by rewrite Huc). exact T.
Qed.

(** ** All that can happen *)

Inductive call :=
  | COpen (family type : Z) | CBind (sock port : Z) | CListen (sock backlog : Z) | CConnect (sock ip port timeout : Z) | CSend (sock : Z) (buf : list Z) (timeout : Z)
  | CRecv (sock len timeout : Z) | CAccept (sock timeout : Z) | CClose (sock : Z) | CPoll (p : Pending) (frs : list (list Z * Z)).
Definition as_answer (m : M Z) : M answer := bind m (fun r => ret (Ret r)).
Definition do_call (c : call) : M answer :=
  match c with
  | COpen family type => as_answer (socket_open family type)
  | CBind sock port => as_answer (socket_bind sock port)
  | CListen sock b => as_answer (socket_listen sock b)
  | CConnect sock addr port timeout => socket_connect our_ip g_mac clock fuel sock addr port timeout
  | CSend sock buf timeout => socket_send our_ip g_mac clock fuel sock buf timeout
  | CRecv sock len timeout => socket_recv clock sock len timeout
  | CAccept sock timeout => socket_accept clock sock timeout
  | CClose sock => socket_close clock sock
  | CPoll p frs => poll our_ip g_mac clock fuel p frs
  end.
(** [connect] is for a fresh socket; while a call waits, its socket is not closed under it. *)
Definition allowed (n : Net) (c : call) : Prop :=
  match c with
  | CConnect sock _ _ _ => forall i, valid_handle n sock = Some i -> state (sock_at n i) = ST_CLOSED
  | CPoll (Closing i _) _ => plain n i
  | CPoll (Accepting i _) _ => used (sock_at n i) = true /\ state (sock_at n i) = ST_LISTEN
  | _ => True
  end.

Lemma as_answer_okay n m : okay_from n m -> okay_from n (as_answer m).
Proof. intros H Hn a n' E. unfold as_answer, bind in E. destruct (m n) as [[r n1]| |] eqn:Em; cbn [obind] in E; try done. injection E as _ <-. by apply (H Hn r). Qed.

Lemma call_okay n c : allowed n c -> okay_from n (do_call c).
Proof.
  destruct c as [f t|s p|s b|s a p t|s b t|s l t|s t|s|p frs]; cbn [allowed do_call]; intros H; auto using as_answer_okay, okay_open, okay_bind_call, okay_listen, okay_connect, okay_send, okay_recv, okay_accept, okay_close.
  destruct p; cbn [poll].
  - apply keeps_okay, keeps_resolving.
  - apply keeps_okay, keeps_connecting.
  - apply keeps_okay, keeps_sending.
  - apply keeps_okay, keeps_receiving.
  - by apply okay_closing.
  - destruct H. by apply okay_accepting.
Qed.

Inductive reachable : Net -> Prop :=
  | boot n : socks n = replicate MAX_SOCKS sock0 -> reachable n
  | step n c a n' : reachable n -> allowed n c -> do_call c n = Done (a, n') -> reachable n'.

Lemma boot_ok n : socks n = replicate MAX_SOCKS sock0 -> net_ok n.
Proof.
  intros H. unfold net_ok, table. rewrite H. change (map view (replicate MAX_SOCKS sock0)) with (replicate MAX_SOCKS (mkSlot false ST_CLOSED (-1) false (replicate 4 0) 0 0 0)). constructor.
  - done.
  - intros l v [-> _]%lookup_replicate [? _]. done.
  - intros c v [-> _]%lookup_replicate ?. done.
  - intros c v [-> _]%lookup_replicate ?. done.
  - intros c v [-> _]%lookup_replicate. done.
Qed.

Lemma reachable_ok n : reachable n -> net_ok n.
Proof. induction 1 as [n H|n c a n' _ IH Ha E]; [by apply boot_ok|]. by apply (call_okay n c Ha IH a n'). Qed.
End Loop.
End Calls.
