(* ===== verification/TcpFaults.v ===== *)
(** Inputs and orders of calls the TCP code does not handle: the segments after a
    FIN, a header longer than its packet, sequence numbers that wrap. *)
From S2P Require Import Prelude Tcp TcpSegment TcpStream.
Local Open Scope vnu_scope.

Section Faults.
Context (our_ip : Z) (g_mac : list Z) (clock : nat -> Z) (fuel : nat) (n : Net) (i : nat) (Hi : (i < length (socks n))%nat).
Abbreviation st := (at_sock n i).
Abbreviation loop := (loop_in our_ip g_mac clock fuel).

(** [f] numbers are in flight and the send buffer is empty: the number of unsent bytes is a negative one, wrapped around. *)
Definition overshot (f : Z) (s : TcpSock) : Prop := is_loopback (rip s) = false /\ snd_used s = 0 /\ snd_nxt s = u32 (snd_una s + f) /\ 0 < peer_mss s.

Lemma overshot_flight f s : 0 <= f < 2 ^ 32 -> overshot f s -> u32 (snd_nxt s - snd_una s) = f.
Proof. intros Hf (_ & _ & -> & _). unfold u32. rewrite Zminus_mod_idemp_l. replace (snd_una s + f - snd_una s) with f by lia. by apply Z.mod_small. Qed.

Lemma overshot_push turns window : SEND_CAP < window < 2 ^ 16 -> forall f s t w k,
  overshot f s -> 0 < f <= SEND_CAP -> SEND_CAP - f < Z.of_nat turns -> push_loop our_ip g_mac clock loop turns i window f (u32 (0 - f)) (st s t w k) = Trap.
Proof.
  intros Hw. induction turns as [|turns IH]; intros f s t w k O Hf Ht; [lia|]. unfold SEND_CAP in *. assert (u32 (0 - f) = 2 ^ 32 - f) as Eun by (unfold u32; replace (0 - f) with (2 ^ 32 - f + (-1) * 2 ^ 32) by lia; rewrite Z.mod_add by lia; apply Z.mod_small; lia).
  cbn [push_loop]. rewrite Eun. destruct (Z.eqb_spec (2 ^ 32 - f) 0); [lia|]. destruct (Z.ltb_spec f window); [|lia]. cbn [negb andb]. rewrite (bind_done _ _ _ _ _ (sk_ok n i Hi s t w k)). cbv zeta. rewrite (overshot_flight f s ltac:(lia) O).
  rewrite u16_small by lia. set (seg1 := if window - f <? PUSH_MSS then window - f else PUSH_MSS). assert (0 < seg1 <= 1460) as H1 by (subst seg1; unfold PUSH_MSS; bcase; lia). clearbody seg1.
  set (seg2 := if peer_mss s <? seg1 then peer_mss s else seg1). pose proof O as (Hlp & Hu & Hn & Hm). assert (0 < seg2 <= 1460) as H2 by (subst seg2; bcase; lia). clearbody seg2. destruct (Z.ltb_spec (2 ^ 32 - f) seg2); [lia|]. destruct (Z.eqb_spec seg2 0); [lia|].
  unfold SEND_CAP. destruct (Z.ltb_spec 16384 (f + seg2)); [done|]. rewrite (bind_done _ _ _ _ _ (send_seg_ok our_ip g_mac n i loop s _ _ _ _ _ s t w k Hlp)).
  rewrite (bind_done _ _ _ _ _ (sk_ok n i Hi s _ _ k)). set (t1 := loaded t _). set (w1 := w ++ _). clearbody t1 w1.
  assert (exists s1 k1, when (negb (rto_active s)) (bind (now_ms clock) (fun t0 => upd i (fun s => set_rto_at t0 (set_rto INITIAL_RTO (set_rto_active true s))))) (st s t1 w1 k) = Done (tt, st s1 t1 w1 k1) /\ overshot f s1) as (s1 & k1 & E1 & O1).
  { destruct (rto_active s); cbn [negb when]; [by exists s, k|]. rewrite (bind_done _ _ _ _ _ (now_ok clock n i s _ _ k)), (upd_done n i Hi). eexists _, _. split; [reflexivity|done]. }
  rewrite (bind_done _ _ _ _ _ E1), (bind_done _ _ _ _ _ (upd_done n i Hi _ s1 _ _ k1)). rewrite (bind_done _ _ _ _ _ (sk_ok n i Hi _ _ _ k1)). cbv zeta.
  set (s2 := set_snd_nxt _ s1). assert (overshot (f + seg2) s2) as O2. { destruct O1 as (? & ? & En & ?). split; [done|]. split; [done|]. split; [|done]. subst s2. cbn. rewrite En, u32_add. f_equal. lia. }
  rewrite (overshot_flight (f + seg2) s2 ltac:(lia) O2). pose proof O2 as (_ & -> & _ & _). apply IH; [done|lia|lia].
Qed.

(** All that was sent is acknowledged; the peer's window is larger than the send buffer. *)
Record idle (s : TcpSock) : Prop := {
  id_rip : is_loopback (rip s) = false;
  id_used : snd_used s = 0;
  id_nxt : snd_nxt s = snd_una s /\ is_u32 (snd_una s);
  id_mss : 0 < peer_mss s;
  id_wnd : SEND_CAP < snd_wnd s < 2 ^ 16;
  id_fin : fin_sent s = false /\ fin_acked s = false /\ fin_rcvd s = false
}.

Lemma fin_ok s t w k : is_loopback (rip s) = false -> exists t', let s1 := set_fin_seq (snd_nxt s) s in
  tcp_send_fin our_ip g_mac clock loop i (st s t w k) =
  Done (tt, st (set_rto_at (clock k) (set_rto_active true (set_snd_nxt (u32 (snd_nxt s + 1)) s1))) t' (w ++ [segment our_ip g_mac s1 (snd_nxt s) (rcv_ackno s) (Z.lor FLAG_ACK FLAG_FIN) false []]) (S k)).
Proof.
  intros Hl. eexists. cbv zeta. unfold tcp_send_fin. rewrite (bind_done _ _ _ _ _ (upd_done n i Hi _ s t w k)), (bind_done _ _ _ _ _ (sk_ok n i Hi _ t w k)). set (s1 := set_fin_seq (snd_nxt s) s).
  rewrite (bind_done _ _ _ _ _ (send_seg_ok our_ip g_mac n i loop s1 _ _ _ _ _ s1 t w k Hl)). rewrite (bind_done _ _ _ _ _ (upd_done n i Hi _ s1 _ _ k)). rewrite (bind_done _ _ _ _ _ (now_ok clock n i _ _ _ k)). apply (upd_done n i Hi).
Qed.

Lemma push_nothing s t w k : snd_used s = 0 -> snd_nxt s = snd_una s -> tcp_push our_ip g_mac clock loop i (st s t w k) = Done (tt, st s t w k).
Proof.
  intros Hu Hn. unfold tcp_push. rewrite (bind_done _ _ _ _ _ (sk_ok n i Hi s t w k)). cbv zeta. rewrite Hn, Hu, Z.sub_diag. change (u32 0) with 0. change (u32 (0 - 0)) with 0. by destruct (S _).
Qed.

(** A turn of [close]: the FIN is sent. *)
Lemma close_turn s t w k deadline :
  idle s -> before (clock k) deadline = true -> u32 (clock (S (S k)) - clock (S k)) < rto s ->
  exists s1 t1, poll_closing our_ip g_mac clock fuel i deadline [] (st s t w k) =
    Done (Wait (Closing i deadline), st s1 t1 (w ++ [segment our_ip g_mac (set_fin_seq (snd_nxt s) s) (snd_nxt s) (rcv_ackno s) (Z.lor FLAG_ACK FLAG_FIN) false []]) (S (S (S k)))) /\
    overshot 1 s1 /\ snd_wnd s1 = snd_wnd s.
Proof.
  intros [Hl Hu [Hn Hr] Hm Hw (F1 & F2 & F3)] Hb Hrto. destruct (fin_ok s t w (S k) Hl) as (t1 & Efin). cbv zeta in Efin. unfold poll_closing. rewrite (bind_done _ _ _ _ _ (now_ok clock n i s t w k)), Hb. cbn [rx_drain].
  rewrite (bind_done _ _ _ _ _ (eq_refl : ret tt (st s t w (S k)) = Done (tt, st s t w (S k)))). rewrite (bind_done _ _ _ _ _ (push_nothing s t w (S k) Hu Hn)), (bind_done _ _ _ _ _ (sk_ok n i Hi s t w (S k))).
  rewrite Hu, F1. change ((0 =? 0) && negb false) with true. cbn [when]. rewrite (bind_done _ _ _ _ _ Efin). set (s1 := set_rto_at _ _). set (w1 := w ++ _).
  rewrite (bind_done _ _ _ _ _ (upd_done n i Hi _ s1 t1 w1 (S (S k)))). replace (if st_is (state s1) ST_ESTABLISHED && fin_sent s1 then set_state ST_FIN_WAIT1 s1 else s1) with s1 by (change (fin_sent s1) with (fin_sent s); by rewrite F1, andb_false_r).
  rewrite (bind_done _ _ _ _ _ (sk_ok n i Hi s1 t1 w1 (S (S k)))). change (fin_acked s1) with (fin_acked s). change (fin_rcvd s1) with (fin_rcvd s). rewrite F2, F3. cbn [orb].
  rewrite (bind_done _ _ _ _ _ (now_ok clock n i s1 t1 w1 (S (S k)))). assert (tcp_retransmit our_ip g_mac clock loop i (clock (S (S k))) (st s1 t1 w1 (S (S (S k)))) = Done (tt, st s1 t1 w1 (S (S (S k))))) as Er.
  { unfold tcp_retransmit. rewrite (bind_done _ _ _ _ _ (sk_ok n i Hi s1 t1 w1 _)). change (rto_active s1) with true. change (rto_at s1) with (clock (S k)). change (rto s1) with (rto s). destruct (Z.ltb_spec (u32 (clock (S (S k)) - clock (S k))) (rto s)); [done|lia]. }
  rewrite (bind_done _ _ _ _ _ Er). exists s1, t1. split; [reflexivity|]. split; [|done]. split; [done|]. split; [done|]. split; [|done]. change (snd_nxt s1) with (u32 (snd_nxt s + 1)). change (snd_una s1) with (snd_una s). by rewrite Hn.
Qed.

(** The next turn sends what is in the send buffer, and past its end. *)
Lemma close_again s t w k deadline :
  overshot 1 s -> SEND_CAP < snd_wnd s < 2 ^ 16 -> before (clock k) deadline = true -> poll_closing our_ip g_mac clock fuel i deadline [] (st s t w k) = Trap.
Proof.
  intros O Hw Hb. unfold poll_closing. rewrite (bind_done _ _ _ _ _ (now_ok clock n i s t w k)), Hb. cbn [rx_drain]. rewrite (bind_done _ _ _ _ _ (eq_refl : ret tt (st s t w (S k)) = Done (tt, st s t w (S k)))).
  enough (tcp_push our_ip g_mac clock loop i (st s t w (S k)) = Trap) as E by (unfold bind at 1; by rewrite E). unfold tcp_push. rewrite (bind_done _ _ _ _ _ (sk_ok n i Hi s t w (S k))). cbv zeta. rewrite (overshot_flight 1 s ltac:(lia) O). pose proof O as (_ & -> & _ & _).
  apply overshot_push; [done|done|unfold SEND_CAP; lia|unfold SEND_CAP in *; lia].
Qed.

(** An acknowledgement past the wrap of the sequence numbers does nothing. *)
Lemma ack_past_wrap ackno window s t w k : ackno <= snd_una s -> acknowledge our_ip g_mac clock loop i ackno window (st s t w k) = Done (tt, st s t w k).
Proof. intros H. unfold acknowledge. rewrite (bind_done _ _ _ _ _ (sk_ok n i Hi s t w k)). by destruct (Z.leb_spec ackno (snd_una s)); [|lia]. Qed.
End Faults.

(** A packet of 40 bytes whose TCP header claims 60. *)
Lemma short_packet_traps our_ip g_mac clock fuel n i s mac f len window :
  (i < length (socks n))%nat -> sock_at n i = s -> find_peer_sock n (rip s) (rport s) (lport s) = Some i -> state s = ST_ESTABLISHED -> 40 <= rcv_used s <= RECV_CAP -> 54 <= len -> Z.of_nat (length f) <= 2048 ->
  reads f mac 40 (rip s) 60 (rport s) (lport s) (u32 (rcv_base s + rcv_used s)) 0 0 window -> handle_frame our_ip g_mac clock fuel (f, len) n = Trap.
Proof.
  intros Hi Es Hf Hst Hr Hlen Hlf Hrd. unfold RECV_CAP in *. destruct (handle_frame_reads our_ip g_mac clock fuel f len _ _ _ _ _ _ _ _ _ _ Hrd ltac:(lia) ltac:(lia) ltac:(lia)) as (lp & Elp).
  rewrite Elp, (segment_input_established _ _ _ _ _ _ _ _ _ _ _ _ _ _ _ i); [|done|done|done|by rewrite Es]. unfold connection_input. rewrite (bind_done _ _ _ _ _ (eq_refl : sk i n = Done (_, n))), Es, Hst.
  change (st_is ST_ESTABLISHED ST_ESTABLISHED) with true. change (has 0 FLAG_ACK) with false. cbn [orb when]. rewrite (bind_done _ _ _ _ _ (eq_refl : ret tt n = Done (tt, n))).
  rewrite <- (at_sock_self n i Hi), Es. rewrite (bind_done _ _ _ _ _ (upd_done n i Hi _ s _ _ _)), Hst. change (st_is ST_ESTABLISHED ST_FIN_WAIT1) with false. cbn [andb].
  unfold take_in. rewrite (bind_done _ _ _ _ _ (sk_ok n i Hi s _ _ _)). change (u32 (40 - 20 - 60)) with (2 ^ 32 - 40). change (negb (2 ^ 32 - 40 =? 0)) with true.
  assert (u32 (rcv_used s + (2 ^ 32 - 40)) = rcv_used s - 40) as -> by (unfold u32; replace (rcv_used s + (2 ^ 32 - 40)) with (rcv_used s - 40 + 1 * 2 ^ 32) by lia; rewrite Z.mod_add by lia; apply Z.mod_small; lia).
  unfold RECV_CAP at 1. destruct (Z.leb_spec (rcv_used s - 40) 16384); [|lia]. cbn [andb]. rewrite Z.eqb_refl. unfold frame. rewrite (bind_done _ _ _ _ _ (eq_refl : ret f _ = Done (f, _))).
  destruct (Z.ltb_spec (Z.of_nat (length f)) (34 + 60 + (2 ^ 32 - 40))); [done|lia].
Qed.

