(* ===== verification/TcpTheorems.v ===== *)
(** The theorems on TCP. *)
From S2P Require Import Prelude Tcp TcpSegment TcpStream TcpSystem TcpHandshake TcpRing TcpQueue TcpAccept TcpFaults.
Local Open Scope vnu_scope.

(** C3: Two hosts, any calls of [send] and [recv] on the two ends of an established
    connection, and a network that loses, repeats and reorders frames: every call
    comes back or waits, never reads or writes outside a buffer, and the bytes
    delivered at each end are a prefix of the bytes put into the send buffer at the
    other. *)
Theorem tcp_streams h1 h2 k n1 n2 acts :
  station_ok h1 -> station_ok h2 -> link_ok k -> established h1 h2 k n1 n2 -> Forall (fun '(_, a) => sane a) acts ->
  Z.of_nat (weights true acts) < 2 ^ 31 -> Z.of_nat (weights false acts) < 2 ^ 31 ->
  exists d1 d2, run h1 h2 acts (mkSide n1 [] [] []) (mkSide n2 [] [] []) = Done (d1, d2) /\ got d2 `prefix_of` gave d1 /\ got d1 `prefix_of` gave d2.
Proof.
  intros O1 O2 K E F B1 B2. destruct (run_ok h1 h2 k acts O1 O2 K F _ _ (joined_start h1 h2 k n1 n2 E) B1 B2) as (d1 & d2 & R & J). exists d1, d2. split; [done|]. by eapply joined_prefix.
Qed.

(** C5: The three segments of a handshake, each arriving in time, connect the two
    sockets: [connect] returns 0, [accept] returns the new socket and the client's
    address, and each end expects what the other sends first. *)
Theorem tcp_handshake h1 h2 p1 p2 l n1 n2 timeout deadline pad1 pad2 pad3 :
  station_ok h1 -> station_ok h2 -> client_ready h1 (s_ip h2) p1 n1 -> server_ready h2 (s_ip h1) p1 p2 l n2 ->
  before (s_clock h1 (S (S (ticks n1)))) (u32 (s_clock h1 (S (ticks n1)) + clamp timeout)) = true ->
  exists f1 f2 f3 p n1' n1'' n2' n2'' k,
    socket_connect (s_ip h1) (s_mac h1) (s_clock h1) (s_fuel h1) (Z.of_nat (s_sock h1)) (s_ip h2) p2 timeout n1 = Done (Wait p, n1') /\ wire n1' = wire n1 ++ [f1] /\
    rx_drain (s_ip h2) (s_mac h2) (s_clock h2) (s_fuel h2) [on_arrival f1 pad1] n2 = Done (tt, n2') /\ wire n2' = wire n2 ++ [f2] /\
    poll (s_ip h1) (s_mac h1) (s_clock h1) (s_fuel h1) p [on_arrival f2 pad2] n1' = Done (Ret 0, n1'') /\ wire n1'' = wire n1' ++ [f3] /\
    poll (s_ip h2) (s_mac h2) (s_clock h2) (s_fuel h2) (Accepting l deadline) [on_arrival f3 pad3] n2' = Done (Peer (Z.of_nat (s_sock h2)) (s_ip h1) p1, n2'') /\
    port1 k = p1 /\ port2 k = p2 /\ established h1 h2 k n1'' n2''.
Proof. apply handshake_ok. Qed.



(** [close] never records that it has sent its FIN.  After the turn that sends it the
    count of unsent bytes wraps around, and the next turn sends whatever the send
    buffer holds; when the peer's window is larger than the buffer it reads past the
    buffer's end. *)
Theorem tcp_close_overruns our_ip g_mac clock fuel n i s deadline :
  (i < length (socks n))%nat -> sock_at n i = s -> idle s -> let k := ticks n in
  before (clock k) deadline = true -> u32 (clock (S (S k)) - clock (S k)) < rto s -> before (clock (S (S (S k)))) deadline = true ->
  exists n1, poll_closing our_ip g_mac clock fuel i deadline [] n = Done (Wait (Closing i deadline), n1) /\
    wire n1 = wire n ++ [segment our_ip g_mac (set_fin_seq (snd_nxt s) s) (snd_nxt s) (rcv_ackno s) (Z.lor FLAG_ACK FLAG_FIN) false []] /\
    poll_closing our_ip g_mac clock fuel i deadline [] n1 = Trap.
Proof.
  intros Hi Es I k H1 H2 H3. destruct (close_turn our_ip g_mac clock fuel n i Hi s (txbuf n) (wire n) k deadline I H1 H2) as (s1 & t1 & E & O & Ew). rewrite <- Es in E at 1. rewrite at_sock_self in E by done. eexists. split; [exact E|]. split; [done|].
  apply close_again; [done|done| |done]. rewrite Ew. apply I.
Qed.

(** A packet whose TCP header claims to be longer than the packet makes the length of
    the payload wrap around: with at least as many bytes waiting to be read as the
    length fell short, an in-order segment of forty bytes makes the code copy four
    gigabytes into the receive buffer. *)
Theorem tcp_short_packet_overruns our_ip g_mac clock fuel n i s mac f len window :
  (i < length (socks n))%nat -> sock_at n i = s -> find_peer_sock n (rip s) (rport s) (lport s) = Some i -> state s = ST_ESTABLISHED -> 40 <= rcv_used s <= RECV_CAP -> 54 <= len -> Z.of_nat (length f) <= 2048 ->
  reads f mac 40 (rip s) 60 (rport s) (lport s) (u32 (rcv_base s + rcv_used s)) 0 0 window -> handle_frame our_ip g_mac clock fuel (f, len) n = Trap.
Proof. apply short_packet_traps. Qed.

(** An acknowledgement whose number has wrapped past zero is taken for an old one. *)
Theorem tcp_ack_past_wrap our_ip g_mac clock fuel n i ackno window :
  (i < length (socks n))%nat -> ackno <= snd_una (sock_at n i) -> acknowledge our_ip g_mac clock (loop_in our_ip g_mac clock fuel) i ackno window n = Done (tt, n).
Proof.
  intros Hi H. pose proof (ack_past_wrap our_ip g_mac clock fuel n i Hi ackno window (sock_at n i) (txbuf n) (wire n) (ticks n) H) as E. by rewrite !at_sock_self in E by done.
Qed.

(** ** Two hosts to try it on *)

Definition tick (k : nat) : Z := Z.of_nat k.
Definition alice : station := mkStation 0x0A00020F [2; 0; 0; 0; 0; 1] tick 0 0.
Definition bob : station := mkStation 0x0A000210 [2; 0; 0; 0; 0; 2] tick 0 0.
Definition net_with (s : TcpSock) (arp_ip : Z) (arp_mac : list Z) : Net := mkNet (s :: replicate 7 sock0) 49152 (replicate 4096 0) [] 0 true arp_ip arp_mac 0.
(** A socket in the middle of a connection. *)
Definition talking (ip port lport una base window got : Z) (mac : list Z) : TcpSock :=
  set_rcv_used got (set_rcv_base base (set_snd_wnd window (set_snd_nxt una (set_snd_una una (set_dst_mac mac (set_lport lport (set_rport port (set_rip ip (set_state ST_ESTABLISHED (set_used true sock0)))))))))).
Definition at_alice : Net := net_with (talking (s_ip bob) 80 49152 100 500 16384 0 (s_mac bob)) 0 (replicate 6 0).
Definition at_bob : Net := net_with (talking (s_ip alice) 49152 80 500 100 16384 0 (s_mac alice)) 0 (replicate 6 0).

Lemma alice_ok : station_ok alice.
Proof. constructor; [split; [unfold is_u32; cbn; lia|reflexivity]|reflexivity|unfold MAX_SOCKS; cbn; lia]. Qed.

Lemma bob_ok : station_ok bob.
Proof. constructor; [split; [unfold is_u32; cbn; lia|reflexivity]|reflexivity|unfold MAX_SOCKS; cbn; lia]. Qed.

Lemma talking_conn ip port lport una base mac : length mac = 6%nat /\ bytes mac -> is_u32 una -> is_u32 base ->
  conn (mkEnds ip port lport) una base [] [] 0 0 0 0 (talking ip port lport una base 16384 0 mac).
Proof.
  intros Hm Hu Hb. constructor; [done|done|done|done|done| |]; constructor; cbn [length]; rewrite ?Z.add_0_r, ?u32_id by done; try done; try lia; try (vm_compute; done).
Qed.

Lemma talk_established : established alice bob (mkLink 49152 80 100 500) at_alice at_bob.
Proof.
  split; constructor; try reflexivity; (apply talking_conn; [split; [reflexivity|repeat constructor; unfold is_u8; lia]|unfold is_u32; lia|unfold is_u32; lia]).
Qed.

(** Alice sends, a frame is lost on the way to Bob and another arrives twice, Bob answers. *)
Definition chat : list (bool * act) :=
  [(true, Send (cs "hello") 100); (false, Recv 3 100 [(0%nat, [], [0; 0])]); (false, Recv 10 100 [(0%nat, [], [0; 0])]); (false, Send (cs "hi") 100); (true, Recv 10 100 [(4%nat, [7], [])])].

Lemma tcp_streams_witness :
  (exists d1 d2, run alice bob chat (mkSide at_alice [] [] []) (mkSide at_bob [] [] []) = Done (d1, d2) /\ got d2 `prefix_of` gave d1 /\ got d1 `prefix_of` gave d2) /\
  match run alice bob chat (mkSide at_alice [] [] []) (mkSide at_bob [] [] []) with Done (d1, d2) => (got d2, gave d1, got d1) = (cs "hello", cs "hello", cs "hi") | _ => False end.
Proof.
  split; [|vm_compute; reflexivity]. apply (tcp_streams alice bob (mkLink 49152 80 100 500) at_alice at_bob chat alice_ok bob_ok).
  - split; cbn; lia.
  - apply talk_established.
  - repeat constructor; cbn; lia.
  - cbn. lia.
  - cbn. lia.
Defined.

(** Bob's host listens at socket 0 and has slot 1 free. *)
Definition bob_server : station := mkStation 0x0A000210 [2; 0; 0; 0; 0; 2] tick 0 1.
Definition calling : Net := net_with (opened 49152) (s_ip bob) (s_mac bob).
Definition answering : Net := net_with (set_backlog 2 (set_lport 80 (set_state ST_LISTEN (set_used true sock0)))) 0 (replicate 6 0).

Lemma tcp_handshake_witness : exists f1 f2 f3 p n1' n1'' n2' n2'' k,
    socket_connect (s_ip alice) (s_mac alice) tick 0 0 (s_ip bob_server) 80 1000 calling = Done (Wait p, n1') /\ wire n1' = wire calling ++ [f1] /\
    rx_drain (s_ip bob_server) (s_mac bob_server) tick 0 [on_arrival f1 []] answering = Done (tt, n2') /\ wire n2' = wire answering ++ [f2] /\
    poll (s_ip alice) (s_mac alice) tick 0 p [on_arrival f2 []] n1' = Done (Ret 0, n1'') /\ wire n1'' = wire n1' ++ [f3] /\
    poll (s_ip bob_server) (s_mac bob_server) tick 0 (Accepting 0 1000) [on_arrival f3 []] n2' = Done (Peer 1 (s_ip alice) 49152, n2'') /\
    port1 k = 49152 /\ port2 k = 80 /\ established alice bob_server k n1'' n2''.
Proof.
  apply (tcp_handshake alice bob_server 49152 80 0 calling answering 1000 1000 [] [] []).
  - apply alice_ok.
  - constructor; [split; [unfold is_u32; cbn; lia|reflexivity]|reflexivity|unfold MAX_SOCKS; cbn; lia].
  - constructor; try reflexivity; [|split; [reflexivity|repeat constructor; unfold is_u8; lia]|repeat constructor; unfold is_u8; lia]. split; [lia|]. intros j Hj. do 8 (destruct j as [|j]; [first [by destruct Hj|discriminate]|]). unfold sock_at. rewrite nth_overflow by (cbn; lia). discriminate.
  - constructor; try reflexivity; [lia|split; [reflexivity|split; [unfold MAX_ACCEPT; cbn; lia|reflexivity]]].
  - reflexivity.
Defined.

(** The state after a call. *)
Definition after (c : call) (n : Net) : Net := match do_call (s_ip bob) (s_mac bob) tick 5 c n with Done (_, n') => n' | _ => n end.
Definition blank_net : Net := mkNet (replicate MAX_SOCKS sock0) 49152 (replicate 4096 0) [] 0 true 0 (replicate 6 0) 0.
Definition listening_net : Net := after (CListen 0 9) (after (CBind 0 80) (after (COpen 2 1) blank_net)).

Lemma after_reachable c n : reachable (s_ip bob) (s_mac bob) tick 5 n -> allowed n c -> reachable (s_ip bob) (s_mac bob) tick 5 (after c n).
Proof.
  intros R A. unfold after. destruct (do_call (s_ip bob) (s_mac bob) tick 5 c n) as [[a n']| |] eqn:E; [by eapply step|done|done].
Qed.



(** The peer's window is as large as it can be. *)
Definition done_talking : Net := net_with (talking (s_ip bob) 80 49152 100 500 65535 0 (s_mac bob)) 0 (replicate 6 0).

Lemma tcp_close_overruns_witness : exists n1, poll_closing (s_ip alice) (s_mac alice) tick 0 0 1000 [] done_talking = Done (Wait (Closing 0 1000), n1) /\ length (wire n1) = 1%nat /\ poll_closing (s_ip alice) (s_mac alice) tick 0 0 1000 [] n1 = Trap.
Proof.
  destruct (tcp_close_overruns (s_ip alice) (s_mac alice) tick 0 done_talking 0 (talking (s_ip bob) 80 49152 100 500 65535 0 (s_mac bob)) 1000) as (n1 & E1 & E2 & E3); [cbn; lia|reflexivity| |reflexivity|vm_compute; reflexivity|reflexivity|].
  - constructor; try reflexivity; try (split; [reflexivity|]; unfold is_u32; cbn; lia); try (unfold SEND_CAP; cbn; lia).
  - exists n1. split; [exact E1|]. split; [by rewrite E2|exact E3].
Defined.

(** A hundred bytes wait to be read when the packet comes. *)
Definition reading : Net := net_with (talking (s_ip bob) 80 49152 100 500 16384 100 (s_mac bob)) 0 (replicate 6 0).
Definition short_packet : list Z :=
  eth_header (s_mac bob) 0x0800 (s_mac alice) ++ ip_header 40 0 (s_ip bob) (s_ip alice) 0 ++ be16 80 ++ be16 49152 ++ be32 600 ++ be32 0 ++ [0xF0; 0] ++ be16 1000 ++ be32 0 ++ replicate 6 0.

Lemma tcp_short_packet_overruns_witness : handle_frame (s_ip alice) (s_mac alice) tick 0 (short_packet, 60) reading = Trap.
Proof.
  apply (tcp_short_packet_overruns (s_ip alice) (s_mac alice) tick 0 reading 0 (talking (s_ip bob) 80 49152 100 500 16384 100 (s_mac bob)) (s_mac bob) short_packet 60 1000); try reflexivity; try (cbn; lia).
  - unfold RECV_CAP. cbn. lia.
  - constructor; reflexivity.
Defined.
